(* ===== verification/_CoqProject ===== *)
-Q . S2P
Prelude.v
Timeval.v
Heap.v
Sched.v
SchedRuns.v
FixedJb.v
JitterBuf.v
DataBuffer.v
Udptl.v
Frame.v
AbstractJb.v
JbFramehook.v
FrameRefine.v
Utf8.v
SlinFactory.v
Smoother.v
Audiohook.v
Pattern.v
Hashtab.v
PatternTree.v
CString.v
PbxTiming.v
Dialplan.v
DialplanLists.v
Taskproc.v
TaskprocRuns.v
Base64.v
TextCodec.v
G711.v
DialplanRemove.v
