(* ===== verification/Prelude.v ===== *)
(** * The Luso8 telephony core: a verification library

    The repository is an Asterisk PBX: a core ([src/main]) of media, timing and
    utility components, and channel drivers, applications and resources loaded
    on top of it.  This library verifies core components that every call
    passes through: the dialplan, which decides what a dialled number does; the
    task processors and the scheduler, which run work in order and in time, with
    the heap and the hash tables under them; the buffers between the network and
    the bridge (jitter buffers, retransmission buffer, fax transport), the media
    frames they pass around, the audio re-framers, the companding of G.711, and
    the validation and coding of text from the network.

    ** How the parts interact

    - [pbx.c] keeps contexts of extensions.  An extension is a number or a
      pattern; a context finds the extensions of a number by walking its sorted
      list or a tree of characters, includes other contexts at the times
      [pbx_timing.c] allows, and asks switches.  Contexts, and the extensions and
      labels of each, are also kept in the hash tables of [hashtab.c].
    - [taskprocessor.c] gives a queue of tasks a thread; pushes, the thread, the
      users' references and the shutdown meet in its lock and its semaphore.
    - [sched.c] keeps the timed tasks of a channel driver in a heap ordered by
      due time; [heap.c] is that heap, used through the interface [PrioQueue].
    - [abstract_jb.c] gives a channel one jitter buffer interface over the fixed
      ([fixedjitterbuf.c]) and the adaptive ([jitterbuf.c]) buffer, here the
      class [JbImpl]; a bridge drives it directly, or a frame hook does.
    - frames ([frame.c]) are allocated, duplicated, isolated and freed by all of
      them; what the jitter buffers rely on is derived from the model of frames.
    - [udptl.c] carries fax packets over datagrams with redundancy or parity;
      [data_buffer.c] keeps RTP packets for retransmission and reordering.
    - [slinfactory.c] and [smoother.c] cut audio streams into pieces of the size
      a mixer or an RTP packet needs; [audiohook.c] keeps two factories, one for
      each direction of a channel, and mixes them for whoever listens.
    - [utf8.c] checks and repairs the text that leaves the system; [utils.c] has
      the codecs of text that the protocols, the dialplan and the configuration
      share.
    - [ulaw.c] and [alaw.c] fill the tables by which every G.711 sample is coded.

    ** Files

    - Prelude.v: C integers at their width, memory accesses that fail outside an
      object, tactics, and lemmas on lists and multisets.
    - Timeval.v: [struct timeval] arithmetic ([include/asterisk/time.h],
      [main/utils.c], [main/time.c]) and [float] as IEEE 754 binary32.
    - Heap.v: [main/heap.c].  The array is a finite map; [PrioQueue] is the
      interface, instantiated by the heap.
    - Sched.v, SchedRuns.v: [main/sched.c].  Records live in a store, since the
      heap, the cache, the running task and waiting threads share them; threads
      interleave where the code releases the lock.
    - FixedJb.v, JitterBuf.v: [main/fixedjitterbuf.c] and [main/jitterbuf.c],
      linked lists as lists, the history arrays as lists of fixed length.
    - DataBuffer.v: [main/data_buffer.c], against a finite map.
    - Udptl.v: [main/udptl.c], coding, reception with repair, construction.
    - Frame.v: [main/frame.c], the blocks and references a frame owns as
      multisets.  FrameRefine.v: the contract of frames used by the jitter
      buffer hook, derived from it.
    - AbstractJb.v: [main/abstract_jb.c], the tables, their laws and the bridge
      side.  JbFramehook.v: its frame hook, [hook_event_cb].
    - Utf8.v: [main/utf8.c], against RFC 3629 and the Unicode standard's
      substitution of maximal subparts.
    - SlinFactory.v: [main/slinfactory.c], against a queue of samples.
    - Smoother.v: [main/smoother.c], against a stream of bytes.
    - Audiohook.v: the hooks of [main/audiohook.c], on top of SlinFactory.v.
    - Pattern.v: extension patterns of [main/pbx.c]: matching and comparison,
      against the language of a pattern.
    - Hashtab.v: [main/hashtab.c], against a set up to the table's comparison.
    - PatternTree.v: the tree of match characters of [main/pbx.c], building and
      searching, against Pattern.v.
    - CString.v: the C string functions the dialplan uses.
    - PbxTiming.v: [main/pbx_timing.c], time specifications as sets of minutes.
    - Dialplan.v: contexts of [main/pbx.c]: adding extensions, priorities and
      labels, and the search over lists, trees, includes and switches.
      DialplanLists.v: the vectors of includes, switches and ignored patterns.
      DialplanRemove.v: removing extensions, first from the tables and the tree,
      then from the lists; entries are destroyed by an event with their address.
    - Taskproc.v, TaskprocRuns.v: [main/taskprocessor.c], the operations, and all
      interleavings of the threads that use a processor; fairness and progress.
    - Base64.v, TextCodec.v: text codecs of [main/utils.c]: base 64, URIs, quoted
      strings, semicolons, XML, C escapes, splitting outside quotes.  Buffers are
      written through a cursor; a string that may be overread is its whole object.
    - G711.v: [main/ulaw.c] and [main/alaw.c] with their headers, both algorithms,
      against numbers with four bits behind the leading one.

    In each file a [Model] part has one definition per function of the source,
    under its name; loops are definitions of their own.  A [Properties] module
    holds the theorems, with a concrete instance for those with hypotheses.

    ** What the theorems show

    - Functional behaviour, every branch included: heap operations, scheduling,
      deletion and running of tasks, puts and gets of both jitter buffers, the
      statistics of the adaptive one, the UTF-8 functions, reads of the factory,
      time specifications.
    - The dialplan: a pattern matches the numbers of its language; the comparison
      of extensions is a total order that puts specific patterns first; a context
      stays sorted, without duplicates and in agreement with its tables and tree;
      a search returns the first candidate of that order, tree and list accept
      the same numbers, an added extension is found, a removed one is gone from
      lists and tables and nothing else is, and the search ends although contexts
      may include each other.
    - Task processors: in every interleaving tasks run in order, once, and memory
      is freed last; in every fair run a pushed task is eventually executed.
    - Text codecs: decoding undoes encoding, whatever the size of the buffer, and
      the encoders stay inside it; G.711: codes survive decoding and encoding, the
      error of a sample is at most half a step of its octave, and the tables hold
      what the functions compute.
    - Invariants over arbitrary sequences of operations: the scheduler under
      interleaved threads, both jitter buffers, the data buffer, the hook, the
      factory, the smoother, the audio hook, the vectors of a context and the
      alerts of task processors.  The factory, the data buffer and the hash table
      are shown to refine an abstract queue, a finite map and a set; the jitter buffers to keep the
      promise of their interface, against which the bridge side is proved.
    - Ownership: every frame, block, reference, path or record obtained is freed
      exactly once, by permutation or multiset equations, or what is lost is said
      (entries of refused puts in the data buffer, copies put while the adaptive
      buffer has no memory, a task the heap has no memory for).
    - Termination: all loops return.  Where recursion is not structural a fuel
      argument bounds it and the theorems show that it is enough: the length of
      the heap plus two for sifting; two activations of [fixed_jb_put]; the
      length of the queue plus one for removals; for the delivery loop of a
      bridge a number that depends on the queue; twice the pending tasks for
      [ast_sched_runq]; twice the source length for UTF-8 repair; twice the
      queued frames plus two for a read of the factory; the length of a pattern
      for matching, comparing and expanding it, and 256 for a range of its
      characters; 513 nested contexts, one more than the
      include stack holds; the number of values of a unit for a range of times;
      the distance to the next prime for a growing hash table; the number of
      samples for the tables of G.711.  A definition that runs
      out of fuel gives [None], which the theorems exclude.
    - Undefined behaviour: an access outside an object, the use of a null or
      freed pointer and a division by zero are [None]; the theorems prove them
      absent, or give the inputs that reach them.
    - Defects: for some behaviours that contradict the code's intention a
      theorem or an example states exactly what happens instead.

    ** Conditions

    Each theorem's comment gives the conditions it needs; those that matter most:
    names and caller ids without the character 255; the default algorithm, not the
    tree, for the end of a search; extensions without sets, escapes, exclamation
    marks and caller ids for the agreement of tree and lists; contexts without a
    tree, and entries of one registrar, for removals; a heap that finds memory and
    a single thread that runs the queue for the interleavings of the scheduler;
    fewer than 2^32 packets in a fax session; frames of at most 1280 samples that
    can be isolated for the factory and the audio hook; smoothers outside G.729
    mode whose first frame is not empty.

    ** Arguments of the model

    The clock, the outcomes of allocations, sockets and callbacks, and the
    format and translation cores are arguments of the operations that use them.
    [int], [unsigned int], [uint16_t] and [size_t] wrap at their width where the
    source can reach it; millisecond clocks and counters of type [long] are plain
    integers.  The switches a context asks, the substitution of variables in
    their data and the time zones are arguments of the search.

    ** Not modelled

    Log messages, CLI and manager output, the frame log file, configuration
    reading and module registration: input and output only.  The scheduler's own
    thread, UDPTL port allocation, attaching the jitter buffer hook to a channel
    (datastores, timer descriptors), the audio hook lists of a channel, textual
    frame dumps.  Reference counts of formats in the factory and the smoother.
    The streaming base 64 of files and the rest of [main/utils.c] (locks, threads,
    sockets, random numbers).
    Merging contexts, hints and the execution of a dialplan on a channel; task processors with listeners of their own.
    Channels, bridges, SIP and the other protocol stacks are outside this library;
    they are listed in the component inventory.

    ** Next

    What could follow: the merge of contexts after a reload; variable substitution
    and dialplan functions; the audio hook and frame hook lists of a channel;
    thread pools on top of task processors; access control lists and DNS service
    selection. *)

From stdpp Require Import base numbers list gmap sorting.
From Stdlib Require Import ZArith Lia.

#[global] Open Scope Z_scope.

(** ** C integers *)

Declare Scope cint_scope.
Delimit Scope cint_scope with cint.

(** An unsigned machine integer of [w] bits is a [Z] reduced modulo [2^w];
    a signed one is the representative of the same residue in
    [-2^(w-1) .. 2^(w-1) - 1] (gcc's two's complement conversion). *)
Definition uwrap (w x : Z) : Z := x mod 2 ^ w.

Definition swrap (w x : Z) : Z :=
  (x + 2 ^ (w - 1)) mod 2 ^ w - 2 ^ (w - 1).

Abbreviation u32 := (uwrap 32).
Abbreviation s32 := (swrap 32).
Abbreviation u16 := (uwrap 16).
Abbreviation s16 := (swrap 16).
Abbreviation u8 := (uwrap 8).

(** Truncating division and remainder, as C defines them. *)
Notation "a '/c' b" := (Z.quot a b) (at level 40, left associativity) : cint_scope.
Notation "a '%c' b" := (Z.rem a b) (at level 40, left associativity) : cint_scope.

(** C's conversion of a truth value to [int]. *)
Definition b2z (b : bool) : Z := if b then 1 else 0.

(** ** Tactics of the development *)

(** Split every conjunction and existential of the context. *)
Ltac inv_all :=
  repeat match goal with
  | H : _ ∧ _ |- _ => destruct H
  | H : ∃ _, _ |- _ => destruct H
  end.

(** Case on every boolean test and [match] of the goal, keeping equations. *)
Ltac case_all :=
  repeat (case_match; simplify_eq/=).

(** Case on the decisions of the goal, dropping the impossible branches. *)
Ltac decide_lia :=
  repeat (case_decide; try (exfalso; lia)).

Create HintDb astdb.

(** ** Machine integers *)

Lemma uwrap_small w x : 0 <= x < 2 ^ w → uwrap w x = x.
Proof. intros; by apply Z.mod_small. Qed.

Lemma uwrap_range w x : 0 <= w → 0 <= uwrap w x < 2 ^ w.
Proof. intros; apply Z.mod_pos_bound; lia. Qed.

Lemma swrap_small w x : 0 < w → - 2 ^ (w - 1) <= x < 2 ^ (w - 1) → swrap w x = x.
Proof.
  intros Hw Hx. unfold swrap.
  assert (2 ^ w = 2 * 2 ^ (w - 1)) as E by (rewrite <- Z.pow_succ_r; [f_equal|]; lia).
  rewrite Z.mod_small; lia.
Qed.

Lemma swrap_range w x : 0 < w → - 2 ^ (w - 1) <= swrap w x < 2 ^ (w - 1).
Proof.
  intros Hw. unfold swrap.
  assert (2 ^ w = 2 * 2 ^ (w - 1)) as E by (rewrite <- Z.pow_succ_r; [f_equal|]; lia).
  pose proof (Z.mod_pos_bound (x + 2 ^ (w - 1)) (2 ^ w)). lia.
Qed.

Lemma swrap_uwrap w x : 0 < w → swrap w (uwrap w x) = swrap w x.
Proof.
  intros Hw. unfold swrap, uwrap. by rewrite Zplus_mod_idemp_l.
Qed.

(** Joining two bit fields is adding them. *)
Lemma lor_shiftl_add a b n :
  0 <= n → 0 <= b < 2 ^ n → Z.lor (Z.shiftl a n) b = a * 2 ^ n + b.
Proof.
  intros Hn Hb. rewrite <- Z.shiftl_mul_pow2 by lia. symmetry. apply Z.add_nocarry_lor.
  apply Z.bits_inj'. intros k Hk. rewrite Z.land_spec, Z.bits_0.
  destruct (decide (k < n)); [by rewrite Z.shiftl_spec_low|].
  destruct (decide (b = 0)) as [->|]; [by rewrite Z.bits_0, andb_false_r|].
  rewrite (Z.bits_above_log2 b), andb_false_r; [done|lia|].
  apply Z.log2_lt_pow2; [lia|]. apply Z.lt_le_trans with (2 ^ n); [lia|].
  apply Z.pow_le_mono_r; lia.
Qed.

#[export] Hint Resolve uwrap_range swrap_range : astdb.

(** ** Lists *)

Lemma omap_list_fmap {A B C} (f : B → option C) (g : A → B) (l : list A) :
  omap f (g <$> l) = omap (λ x, f (g x)) l.
Proof. induction l as [|x l IH]; csimpl; [done|]. by rewrite IH. Qed.

(** When every image is defined, [omap] keeps positions. *)
Lemma omap_lookup_total {A B} (f : A → option B) (l : list A) (n : nat) :
  (∀ x, x ∈ l → is_Some (f x)) → omap f l !! n = l !! n ≫= f.
Proof.
  revert n. induction l as [|x l IH]; intros n Hf; [done|].
  destruct (Hf x) as [y Hy]; [set_solver|]. csimpl. rewrite Hy.
  destruct n as [|n]; csimpl; [done|]. apply IH. set_solver.
Qed.

Lemma omap_length_total {A B} (f : A → option B) (l : list A) :
  (∀ x, x ∈ l → is_Some (f x)) → length (omap f l) = length l.
Proof.
  induction l as [|x l IH]; intros Hf; [done|].
  destruct (Hf x) as [y Hy]; [set_solver|]. csimpl. rewrite Hy; simpl.
  f_equal. apply IH. set_solver.
Qed.

(** Filters that agree on the elements of a list. *)
Lemma filter_ext_in {A} (P Q : A → Prop) `{!∀ x, Decision (P x), !∀ x, Decision (Q x)} (l : list A) :
  (∀ x, x ∈ l → Q x ↔ P x) → filter Q l = filter P l.
Proof.
  induction l as [|x l IH]; intros HPQ; [done|]. rewrite !filter_cons.
  rewrite IH by set_solver. destruct (HPQ x) as [H1 H2]; [set_solver|].
  destruct (decide (Q x)), (decide (P x)); naive_solver.
Qed.

Lemma Permutation_middle_app {A} (x : A) (l1 l2 l3 : list A) :
  l1 ++ (x :: l2) ++ l3 ≡ₚ x :: l1 ++ l2 ++ l3.
Proof. simpl. symmetry. apply Permutation_middle. Qed.

Lemma StronglySorted_rev {A} (R : relation A) (l : list A) :
  StronglySorted (flip R) l → StronglySorted R (rev l).
Proof.
  induction 1 as [|x l Hs IH Hx]; simpl; [constructor|].
  apply StronglySorted_app_2; [|done|repeat constructor].
  intros y z Hy Hz. apply list_elem_of_singleton in Hz as ->.
  rewrite Forall_forall in Hx. apply Hx. by rewrite (Permutation_rev l).
Qed.

(** ** Memory

    The memory behind a pointer is the list of its cells; an access outside it
    is [None]. *)
Section Memory.
Context {A : Type}.

Definition load (mem : list A) (i : Z) : option A :=
  if 0 <=? i then mem !! Z.to_nat i else None.

Definition load_n (mem : list A) (i n : Z) : option (list A) :=
  if (0 <=? i) && (0 <=? n) && (i + n <=? Z.of_nat (length mem))
  then Some (take (Z.to_nat n) (drop (Z.to_nat i) mem)) else None.

Definition store (mem : list A) (i : Z) (bs : list A) : option (list A) :=
  if (0 <=? i) && (i + Z.of_nat (length bs) <=? Z.of_nat (length mem))
  then Some (take (Z.to_nat i) mem ++ bs ++ drop (Z.to_nat i + length bs) mem)
  else None.

Lemma load_mid (a : list A) c b : load (a ++ c :: b) (Z.of_nat (length a)) = Some c.
Proof.
  unfold load. destruct (Z.leb_spec 0 (Z.of_nat (length a))); [|lia]. rewrite Nat2Z.id.
  by apply list_lookup_middle.
Qed.

Lemma load_n_ok (mem : list A) i n :
  0 <= i → 0 <= n → i + n <= Z.of_nat (length mem) →
  load_n mem i n = Some (take (Z.to_nat n) (drop (Z.to_nat i) mem)).
Proof.
  intros. unfold load_n. destruct (Z.leb_spec 0 i), (Z.leb_spec 0 n),
    (Z.leb_spec (i + n) (Z.of_nat (length mem))); done || lia.
Qed.

Lemma store_app (t x y bs : list A) :
  length x = length bs → store (t ++ x ++ y) (Z.of_nat (length t)) bs = Some (t ++ bs ++ y).
Proof.
  intros Hx. unfold store. rewrite Nat2Z.id, !length_app.
  destruct (Z.leb_spec 0 (Z.of_nat (length t))); [|lia].
  destruct (Z.leb_spec (Z.of_nat (length t) + Z.of_nat (length bs))
              (Z.of_nat (length t + (length x + length y)))); [|lia]. simpl.
  rewrite take_app_length, <- Hx, (app_assoc t x y), <- length_app, drop_app_length. done.
Qed.

(** Writing behind a prefix. *)
Lemma store_prefix (m t bs : list A) :
  t `prefix_of` m → (length t + length bs <= length m)%nat →
  ∃ y, store m (Z.of_nat (length t)) bs = Some (t ++ bs ++ y)
    ∧ length (t ++ bs ++ y) = length m
    ∧ ∀ n, (length t + length bs <= n)%nat → drop n (t ++ bs ++ y) = drop n m.
Proof.
  intros [k ->] Hl. rewrite length_app in Hl.
  exists (drop (length bs) k). rewrite <- (take_drop (length bs) k) at 1.
  split_and!.
  - apply store_app. rewrite length_take. lia.
  - rewrite !length_app, length_drop. lia.
  - intros n Hn. rewrite !drop_app_ge by lia. rewrite drop_drop. f_equal. lia.
Qed.
End Memory.

(** ** Multisets of list elements

    Ownership arguments reorder lists of objects; [perm_lia] proves a
    permutation from the permutations and equations of the context by
    counting occurrences. *)
Section Occurrences.
Context `{EqDecision A}.

Definition occ (l : list A) (x : A) : nat := count_occ (λ x y, decide (x = y)) l x.

Lemma perm_occ (l k : list A) : l ≡ₚ k ↔ ∀ x, occ l x = occ k x.
Proof. apply Permutation_count_occ. Qed.

Lemma occ_app (l k : list A) x : occ (l ++ k) x = (occ l x + occ k x)%nat.
Proof. apply count_occ_app. Qed.

Lemma occ_cons y (l : list A) x : occ (y :: l) x = (occ [y] x + occ l x)%nat.
Proof. apply (count_occ_app _ [y] l). Qed.

Lemma occ_nil (x : A) : occ [] x = 0%nat.
Proof. done. Qed.
End Occurrences.

(** A singleton is not split further. *)
Ltac occ_norm :=
  repeat match goal with
  | |- context [occ (?y :: ?l) ?x] =>
      lazymatch l with [] => fail | _ => rewrite (occ_cons y l x) end
  | H : context [occ (?y :: ?l) ?x] |- _ =>
      lazymatch l with [] => fail | _ => rewrite (occ_cons y l x) in H end
  | |- context [occ (_ ++ _) _] => rewrite occ_app
  | H : context [occ (_ ++ _) _] |- _ => rewrite occ_app in H
  | |- context [occ [] _] => rewrite occ_nil
  | H : context [occ [] _] |- _ => rewrite occ_nil in H
  end.

Ltac perm_lia :=
  rewrite ?perm_occ in *;
  let x := fresh "x" in intros x;
  repeat match goal with
  | H : ∀ _, occ _ _ = occ _ _ |- _ => specialize (H x)
  end;
  occ_norm; lia.
