(* ===== verification/Timeval.v ===== *)
(** * Time values

    [struct timeval] arithmetic of [include/asterisk/time.h] and of
    [main/utils.c] (tvfix, ast_tvadd, ast_tvsub, ast_remaining_ms) and the
    unit conversions of [main/time.c].  The clock ([gettimeofday]) is an
    argument [now] of the operations that read it.  [time_t] and
    [suseconds_t] are 64-bit; their values stay far from the bounds in every
    use, so they are plain [Z]; conversions to [int] and the unsigned
    arguments keep their width. *)

From stdpp Require Import base numbers list.
From Stdlib Require Import ZArith Lia SpecFloat.
From S2P Require Import Prelude.
Local Open Scope cint_scope.

(** ** Data and operations *)

Record timeval := Tv { tv_sec : Z; tv_usec : Z }.

#[export] Instance timeval_eq_dec : EqDecision timeval.
Proof. solve_decision. Defined.

Definition ONE_MILLION : Z := 1000000.

Definition ast_tv (sec usec : Z) : timeval := Tv sec usec.

Definition ast_tvzero (t : timeval) : bool :=
  (tv_sec t =? 0) && (tv_usec t =? 0).

Definition ast_tvcmp (a b : timeval) : Z :=
  if tv_sec a <? tv_sec b then -1
  else if tv_sec a >? tv_sec b then 1
  else if tv_usec a <? tv_usec b then -1
  else if tv_usec a >? tv_usec b then 1
  else 0.

Definition ast_tveq (a b : timeval) : bool :=
  (tv_sec a =? tv_sec b) && (tv_usec a =? tv_usec b).

Definition ast_tvdiff_sec (e s : timeval) : Z :=
  let result := tv_sec e - tv_sec s in
  if (result >? 0) && (tv_usec e <? tv_usec s) then result - 1
  else if (result <? 0) && (tv_usec e >? tv_usec s) then result + 1
  else result.

Definition ast_tvdiff_us (e s : timeval) : Z :=
  (tv_sec e - tv_sec s) * 1000000 + tv_usec e - tv_usec s.

Definition ast_tvdiff_ms (e s : timeval) : Z :=
  let sec_dif := (tv_sec e - tv_sec s) * 1000 in
  let usec_dif := (1000000 + tv_usec e - tv_usec s) /c 1000 - 1000 in
  sec_dif + usec_dif.

Definition tvfix (a : timeval) : timeval :=
  if tv_usec a >=? ONE_MILLION then
    Tv (tv_sec a + tv_usec a /c ONE_MILLION) (tv_usec a %c ONE_MILLION)
  else if tv_usec a <? 0 then Tv (tv_sec a) 0
  else a.

Definition ast_tvadd (a b : timeval) : timeval :=
  let a := tvfix a in
  let b := tvfix b in
  let s := tv_sec a + tv_sec b in
  let u := tv_usec a + tv_usec b in
  if u >=? ONE_MILLION then Tv (s + 1) (u - ONE_MILLION) else Tv s u.

Definition ast_tvsub (a b : timeval) : timeval :=
  let a := tvfix a in
  let b := tvfix b in
  let s := tv_sec a - tv_sec b in
  let u := tv_usec a - tv_usec b in
  if u <? 0 then Tv (s - 1) (u + ONE_MILLION) else Tv s u.

(** [ast_samp2tv(n, 1000)]: [n] is converted to [unsigned int]; at this rate
    the [float] factor is exactly [1000.0] and the product stays below
    [2^24], so the computation is exact. *)
Definition ast_samp2tv_1000 (n : Z) : timeval :=
  ast_tv (u32 n /c 1000) ((u32 n %c 1000) * 1000).

Definition ast_remaining_ms (now start : timeval) (max_ms : Z) : Z :=
  if max_ms <? 0 then max_ms
  else
    let ms := s32 (max_ms - ast_tvdiff_ms now start) in
    if ms <? 0 then 0 else ms.

Inductive TIME_UNIT :=
  | TIME_UNIT_ERROR | TIME_UNIT_NANOSECOND | TIME_UNIT_MICROSECOND
  | TIME_UNIT_MILLISECOND | TIME_UNIT_SECOND | TIME_UNIT_MINUTE
  | TIME_UNIT_HOUR | TIME_UNIT_DAY | TIME_UNIT_WEEK | TIME_UNIT_MONTH
  | TIME_UNIT_YEAR.

Definition ast_time_tv_to_usec (tv : timeval) : Z :=
  tv_sec tv * 1000000 + tv_usec tv.

Definition ast_time_create (sec usec : Z) : timeval := ast_tv sec usec.

Definition normalize_and_create (usec : Z) : timeval :=
  ast_time_create (usec /c 1000000) (usec %c 1000000).

(** [val] is an [unsigned long]: products wrap at 64 bits. *)
Definition ast_time_create_by_unit (val : Z) (unit : TIME_UNIT) : timeval :=
  match unit with
  | TIME_UNIT_NANOSECOND => normalize_and_create (val /c 1000)
  | TIME_UNIT_MICROSECOND => normalize_and_create val
  | TIME_UNIT_MILLISECOND => normalize_and_create (uwrap 64 (val * 1000))
  | TIME_UNIT_SECOND => ast_time_create val 0
  | TIME_UNIT_MINUTE => ast_time_create (uwrap 64 (val * 60)) 0
  | TIME_UNIT_HOUR => ast_time_create (uwrap 64 (val * 3600)) 0
  | TIME_UNIT_DAY => ast_time_create (uwrap 64 (val * 86400)) 0
  | TIME_UNIT_WEEK => ast_time_create (uwrap 64 (val * 604800)) 0
  | TIME_UNIT_MONTH => ast_time_create (uwrap 64 (val * 2629746)) 0
  | TIME_UNIT_YEAR => ast_time_create (uwrap 64 (val * 31556952)) 0
  | TIME_UNIT_ERROR => ast_time_create 0 0
  end.

(** ** Specification vocabulary *)

(** A normalised time value, and the microseconds a value stands for. *)
Definition tv_ok (t : timeval) : Prop := 0 <= tv_usec t < ONE_MILLION.

Definition usecs (t : timeval) : Z := tv_sec t * ONE_MILLION + tv_usec t.

(** ** Order *)

Lemma ast_tvcmp_range a b : -1 <= ast_tvcmp a b <= 1.
Proof. unfold ast_tvcmp. case_all; lia. Qed.

Lemma ast_tvcmp_antisym a b : ast_tvcmp b a = - ast_tvcmp a b.
Proof. unfold ast_tvcmp. case_all; lia. Qed.

Lemma ast_tvcmp_eq a b : ast_tvcmp a b = 0 ↔ a = b.
Proof.
  unfold ast_tvcmp. destruct a, b; simpl. split.
  - case_all; intros; f_equal; lia.
  - intros [= -> ->]. case_all; lia.
Qed.

(** Transitivity in the form heap proofs need: [cmp >= 0] composes. *)
Lemma ast_tvcmp_trans a b c :
  0 <= ast_tvcmp a b → 0 <= ast_tvcmp b c → 0 <= ast_tvcmp a c.
Proof. unfold ast_tvcmp. case_all; lia. Qed.

Lemma ast_tvcmp_strict a b c :
  0 <= ast_tvcmp a b → 0 <= ast_tvcmp b c → ast_tvcmp a c = 0 →
  ast_tvcmp a b = 0 ∧ ast_tvcmp b c = 0.
Proof. unfold ast_tvcmp. case_all; lia. Qed.

(** On normalised values the comparison is the order of the instants. *)
Lemma ast_tvcmp_usecs a b :
  tv_ok a → tv_ok b → ast_tvcmp a b = Z.sgn (usecs a - usecs b).
Proof.
  unfold tv_ok, usecs, ast_tvcmp, ONE_MILLION. intros Ha Hb.
  case_all; symmetry;
    first [apply Z.sgn_neg; lia | apply Z.sgn_pos; lia | apply Z.sgn_null; lia].
Qed.

(** ** Arithmetic *)

Lemma tvfix_ok a : tv_ok (tvfix a).
Proof.
  unfold tvfix, tv_ok, ONE_MILLION. case_all; simpl; try lia.
  pose proof (Z.rem_bound_pos (tv_usec a) 1000000). lia.
Qed.

Lemma tvfix_id a : tv_ok a → tvfix a = a.
Proof. unfold tvfix, tv_ok, ONE_MILLION. intros. case_all; done || lia. Qed.

Lemma ast_tvadd_ok a b : tv_ok (ast_tvadd a b).
Proof.
  pose proof (tvfix_ok a); pose proof (tvfix_ok b).
  unfold ast_tvadd, tv_ok, ONE_MILLION in *. case_all; lia.
Qed.

Lemma ast_tvsub_ok a b : tv_ok (ast_tvsub a b).
Proof.
  pose proof (tvfix_ok a); pose proof (tvfix_ok b).
  unfold ast_tvsub, tv_ok, ONE_MILLION in *. case_all; lia.
Qed.

Lemma ast_tvadd_usecs a b :
  tv_ok a → tv_ok b → usecs (ast_tvadd a b) = usecs a + usecs b.
Proof.
  intros Ha Hb. unfold ast_tvadd. rewrite !tvfix_id by done.
  unfold usecs, ONE_MILLION. case_all; lia.
Qed.

Lemma ast_tvsub_usecs a b :
  tv_ok a → tv_ok b → usecs (ast_tvsub a b) = usecs a - usecs b.
Proof.
  intros Ha Hb. unfold ast_tvsub. rewrite !tvfix_id by done.
  unfold usecs, ONE_MILLION. case_all; lia.
Qed.

Lemma usecs_inj a b : tv_ok a → tv_ok b → usecs a = usecs b → a = b.
Proof.
  destruct a, b. unfold tv_ok, usecs, ONE_MILLION; simpl. intros. f_equal; lia.
Qed.

(** [ast_tvdiff_ms] is the microsecond difference divided by 1000, rounded
    toward minus infinity: the purpose of the 1,000,000 offset in the code. *)
Lemma ast_tvdiff_ms_floor e s :
  tv_ok e → tv_ok s → ast_tvdiff_ms e s = (usecs e - usecs s) / 1000.
Proof.
  unfold tv_ok, usecs, ast_tvdiff_ms, ONE_MILLION. intros He Hs.
  rewrite Z.quot_div_nonneg by lia. 
  replace (tv_sec e * 1000000 + tv_usec e - (tv_sec s * 1000000 + tv_usec s))
    with ((tv_usec e - tv_usec s) + ((tv_sec e - tv_sec s) * 1000) * 1000) by lia.
  replace (1000000 + tv_usec e - tv_usec s)
    with ((tv_usec e - tv_usec s) + 1000 * 1000) by lia.
  rewrite !Z.div_add by lia. lia.
Qed.

Lemma ast_samp2tv_1000_ok n : tv_ok (ast_samp2tv_1000 n).
Proof.
  unfold ast_samp2tv_1000, tv_ok, ast_tv, ONE_MILLION; simpl.
  pose proof (uwrap_range 32 n).
  pose proof (Z.rem_bound_pos (u32 n) 1000). lia.
Qed.

Lemma ast_samp2tv_1000_usecs n :
  0 <= n < 2 ^ 32 → usecs (ast_samp2tv_1000 n) = n * 1000.
Proof.
  intros Hn. unfold ast_samp2tv_1000, usecs, ast_tv, ONE_MILLION; simpl.
  rewrite uwrap_small by lia.
  pose proof (Z.quot_rem' n 1000). lia.
Qed.

(** ** Single precision

    [float] arithmetic is IEEE 754 binary32, through the Standard Library's
    executable specification. *)

Definition f32_of_Z (n : Z) : spec_float := binary_normalize 24 128 n 0 false.
Definition f32_div : spec_float → spec_float → spec_float := SFdiv 24 128.
Definition f32_mul : spec_float → spec_float → spec_float := SFmul 24 128.

(** Conversion to an integer type truncates. *)
Definition f32_to_Z (x : spec_float) : option Z :=
  match x with
  | S754_zero _ => Some 0
  | S754_finite s m e =>
      let a := if 0 <=? e then Zpos m * 2 ^ e else Zpos m / 2 ^ (- e) in
      Some (if s then - a else a)
  | _ => None
  end.

(** [ast_tv(_nsamp / _rate, (_nsamp % _rate) * (1000000 / (float) _rate))]. *)
Definition ast_samp2tv (nsamp rate : Z) : option timeval :=
  us ← f32_to_Z (f32_mul (f32_of_Z (u32 nsamp %c u32 rate))
                   (f32_div (f32_of_Z 1000000) (f32_of_Z (u32 rate))));
  Some (ast_tv (u32 nsamp /c u32 rate) us).

Lemma samp2tv_1000_table :
  forallb (λ k, bool_decide
      (f32_to_Z (f32_mul (f32_of_Z (Z.of_nat k)) (f32_div (f32_of_Z 1000000) (f32_of_Z 1000)))
       = Some (Z.of_nat k * 1000))) (seq 0 1000) = true.
Proof. vm_compute. reflexivity. Qed.

(** At a rate of 1000 the conversion is the exact one used for milliseconds. *)
Lemma ast_samp2tv_exact n : ast_samp2tv n 1000 = Some (ast_samp2tv_1000 n).
Proof.
  unfold ast_samp2tv, ast_samp2tv_1000. change (u32 1000) with 1000.
  pose proof (uwrap_range 32 n ltac:(lia)) as Hr. pose proof samp2tv_1000_table as H.
  rewrite forallb_forall in H.
  assert (0 <= u32 n %c 1000 < 1000) as Hm by (rewrite Z.rem_mod_nonneg by lia; apply Z.mod_pos_bound; lia).
  specialize (H (Z.to_nat (u32 n %c 1000)) ltac:(apply in_seq; lia)).
  apply bool_decide_eq_true in H. rewrite Z2Nat.id in H by lia. by rewrite H.
Qed.

#[export] Hint Resolve tvfix_ok ast_tvadd_ok ast_tvsub_ok ast_samp2tv_1000_ok : astdb.
