(* ===== verification/Heap.v ===== *)
(** * The max heap ([main/heap.c])

    [struct ast_heap] keeps an array of element pointers; an element may hold
    a field (at [index_offset]) in which the heap stores the element's current
    position.  The model keeps the array as a finite map from the C array
    index ([i - 1] for node [i]) to the pointer stored there, and the position
    fields of all elements as a finite map from elements to positions.
    Reading a slot outside the allocation or never written is undefined
    behaviour, represented by [None]; the theorems show it never happens.
    The lock, which the callers take, is not part of the state. *)

From stdpp Require Import base numbers list gmap sorting.
From Stdlib Require Import ZArith Lia.
From S2P Require Import Prelude.
Local Open Scope cint_scope.

(** Node arithmetic divides by two: let [lia] see the quotients. *)
#[local] Ltac Zify.zify_post_hook ::= Z.to_euclidean_division_equations.

(** What a comparison function has to satisfy on the elements [P] that are
    put in a heap: the documented contract of [ast_heap_cmp_fn]. *)
Class CmpOrder {E : Type} (cmp : E → E → Z) (P : E → Prop) : Prop := {
  cmp_flip : ∀ a b, P a → P b → cmp a b <= 0 ↔ 0 <= cmp b a;
  cmp_trans : ∀ a b c, P a → P b → P c →
    0 <= cmp a b → 0 <= cmp b c → 0 <= cmp a c;
}.

Section Ops.
Context {E : Type} `{Countable E}.

(** ** Data *)

Record ast_heap := Heap {
  index_offset : Z;
  cur_len : Z;
  avail_len : Z;
  heap : gmap Z E;
  index : gmap E Z;
}.

Implicit Types (h : ast_heap) (i : Z) (elm : E).

(** ** Navigation and access *)

Definition left_node (i : Z) : Z := 2 * i.
Definition right_node (i : Z) : Z := 2 * i + 1.
Definition parent_node (i : Z) : Z := i /c 2.

Definition in_alloc h (i : Z) : bool := (0 <=? i - 1) && (i - 1 <? avail_len h).

Definition heap_get h (i : Z) : option E :=
  if in_alloc h i then heap h !! (i - 1) else None.

Definition get_index h elm : option Z :=
  if index_offset h <? 0 then Some (-1) else index h !! elm.

Definition heap_set h (i : Z) elm : option ast_heap :=
  if in_alloc h i then
    Some {| index_offset := index_offset h;
            cur_len := cur_len h;
            avail_len := avail_len h;
            heap := <[i - 1 := elm]> (heap h);
            index := if index_offset h >=? 0 then <[elm := i]> (index h)
                     else index h |}
  else None.

Definition set_cur_len (n : Z) h : ast_heap :=
  {| index_offset := index_offset h; cur_len := n; avail_len := avail_len h;
     heap := heap h; index := index h |}.

Definition heap_swap h (i j : Z) : option ast_heap :=
  tmp ← heap_get h i;
  e ← heap_get h j;
  h1 ← heap_set h i e;
  heap_set h1 j tmp.

(** ** Allocation *)

(** [alloc_ok] is the outcome of the allocations the call makes. *)
Definition _ast_heap_create (alloc_ok : bool) (init_height : Z)
    (cmp_fn : option (E → E → Z)) (index_offset : Z) (index : gmap E Z) :
    option ast_heap :=
  match cmp_fn with
  | None => None
  | Some _ =>
    let init_height := if init_height =? 0 then 8 else init_height in
    if alloc_ok then
      Some {| index_offset := index_offset; cur_len := 0;
              avail_len := Z.shiftl 1 init_height - 1; heap := ∅; index := index |}
    else None
  end.

Definition grow_heap (alloc_ok : bool) h : Z * ast_heap :=
  let new_len := avail_len h * 2 + 1 in
  if alloc_ok then
    (0, {| index_offset := index_offset h; cur_len := cur_len h;
           avail_len := new_len; heap := heap h; index := index h |})
  else (-1, h).

(** ** Restoring the heap order *)

Section Cmp.
Context (cmp_fn : E → E → Z).

(** Comparison of the elements at two nodes. *)
Definition cmp_at h (i j : Z) : option Z :=
  a ← heap_get h i; b ← heap_get h j; Some (cmp_fn a b).

(** The node [max] selected by one round of [max_heapify]. *)
Definition largest h (i : Z) : option Z :=
  let l := left_node i in
  let r := right_node i in
  max ← (if l <=? cur_len h then
           c ← cmp_at h l i; Some (if c >? 0 then l else i)
         else Some i);
  if r <=? cur_len h then
    c ← cmp_at h r max; Some (if c >? 0 then r else max)
  else Some max.

Fixpoint max_heapify (fuel : nat) h (i : Z) : option ast_heap :=
  match fuel with
  | O => None
  | S fuel =>
    max ← largest h i;
    if max =? i then Some h
    else h' ← heap_swap h i max; max_heapify fuel h' max
  end.

Fixpoint bubble_up (fuel : nat) h (i : Z) : option (ast_heap * Z) :=
  match fuel with
  | O => None
  | S fuel =>
    if i >? 1 then
      c ← cmp_at h (parent_node i) i;
      if c <? 0 then
        h' ← heap_swap h i (parent_node i); bubble_up fuel h' (parent_node i)
      else Some (h, i)
    else Some (h, i)
  end.

(** Iterations either loop can make: each halves or doubles its index. *)
Definition loop_fuel h : nat := S (Z.to_nat (cur_len h) + 1).

(** ** The public operations *)

Definition _ast_heap_push (alloc_ok : bool) h elm : option (Z * ast_heap) :=
  let '(rc, h) := if cur_len h =? avail_len h then grow_heap alloc_ok h
                  else (0, h) in
  if negb (rc =? 0) then Some (-1, h)
  else
    let h := set_cur_len (cur_len h + 1) h in
    h ← heap_set h (cur_len h) elm;
    '(h, _) ← bubble_up (loop_fuel h) h (cur_len h);
    Some (0, h).

(** The result pairs the returned pointer ([None] is [NULL]) with the heap. *)
Definition _ast_heap_remove h (idx : Z) : option (option E * ast_heap) :=
  if (idx =? 0) || (idx >? cur_len h) then Some (None, h)
  else
    ret ← heap_get h idx;
    lst ← heap_get h (cur_len h);
    h ← heap_set (set_cur_len (cur_len h - 1) h) idx lst;
    '(h, idx) ← bubble_up (loop_fuel h) h idx;
    h ← max_heapify (loop_fuel h) h idx;
    Some (Some ret, h).

Definition ast_heap_remove h elm : option (option E * ast_heap) :=
  i ← get_index h elm;
  if i =? -1 then Some (None, h) else _ast_heap_remove h (u32 i).

Definition ast_heap_pop h : option (option E * ast_heap) := _ast_heap_remove h 1.

Definition ast_heap_peek h (idx : Z) : option E :=
  if (cur_len h =? 0) || (idx =? 0) || (idx >? cur_len h) then None
  else heap_get h idx.

Definition ast_heap_size h : Z := cur_len h.

Fixpoint verify_loop (fuel : nat) h (i : Z) : option Z :=
  match fuel with
  | O => Some 0
  | S fuel =>
    let l := left_node i in
    let r := right_node i in
    bad_l ← (if l <=? cur_len h then c ← cmp_at h i l; Some (c <? 0)
             else Some false);
    if bad_l : bool then Some (-1)
    else
      bad_r ← (if r <=? cur_len h then c ← cmp_at h i r; Some (c <? 0)
               else Some false);
      if bad_r : bool then Some (-1) else verify_loop fuel h (i + 1)
  end.

(** The [for] loop runs [i] from 1 to [cur_len / 2]. *)
Definition ast_heap_verify h : option Z :=
  verify_loop (Z.to_nat (cur_len h /c 2)) h 1.

End Cmp.
End Ops.

Arguments ast_heap E {_ _}.

(** ** Specification vocabulary *)

Section Spec.
Context {E : Type} `{Countable E}.
Implicit Types (h : ast_heap E) (i j k : Z) (elm : E).

(** The elements held, in node order. *)
Definition contents h : list E := omap (heap_get h) (seqZ 1 (cur_len h)).

(** Well-formedness: the used nodes are allocated and initialised, hold
    admissible elements, and each element's field records its node. *)
Record heap_wf (P : E → Prop) h : Prop := {
  wf_len : 0 <= cur_len h <= avail_len h;
  wf_init : ∀ i, 1 <= i <= cur_len h → ∃ e, heap_get h i = Some e ∧ P e;
  wf_index : 0 <= index_offset h →
    ∀ i e, 1 <= i <= cur_len h → heap_get h i = Some e → index h !! e = Some i;
}.

(** Node [i] holds an element not smaller than node [j]'s. *)
Definition node_ge (cmp : E → E → Z) h i j : Prop :=
  ∃ a b, heap_get h i = Some a ∧ heap_get h j = Some b ∧ 0 <= cmp a b.

(** The max-heap property. *)
Definition heap_ord (cmp : E → E → Z) h : Prop :=
  ∀ j, 2 <= j <= cur_len h → node_ge cmp h (j / 2) j.

(** The max-heap property except around node [i]. *)
Definition ord_except (cmp : E → E → Z) h i : Prop :=
  (∀ j, 2 <= j <= cur_len h → j ≠ i → j / 2 ≠ i → node_ge cmp h (j / 2) j) ∧
  (2 <= i → ∀ j, j <= cur_len h → j / 2 = i → node_ge cmp h (i / 2) j).

Definition up_ok (cmp : E → E → Z) h i : Prop := 2 <= i → node_ge cmp h (i / 2) i.

Definition down_ok (cmp : E → E → Z) h i : Prop :=
  ∀ j, j <= cur_len h → j / 2 = i → node_ge cmp h i j.

End Spec.

Create HintDb heapdb.

(** ** Access lemmas *)

Section Access.
Context {E : Type} `{Countable E}.
Implicit Types (h : ast_heap E) (i j k : Z) (elm : E).

Lemma parent_node_div i : 0 <= i → parent_node i = i / 2.
Proof. intros. unfold parent_node. by rewrite Z.quot_div_nonneg by lia. Qed.

Lemma heap_set_Some h i elm :
  1 <= i <= avail_len h →
  ∃ h', heap_set h i elm = Some h' ∧
    cur_len h' = cur_len h ∧ avail_len h' = avail_len h ∧
    index_offset h' = index_offset h ∧
    (∀ k, heap_get h' k = if decide (k = i) then Some elm else heap_get h k) ∧
    (0 <= index_offset h → index h' = <[elm := i]> (index h)).
Proof.
  intros Hi. unfold heap_set, heap_get, in_alloc.
  rewrite (proj2 (Z.leb_le 0 (i - 1))), (proj2 (Z.ltb_lt (i - 1) (avail_len h))) by lia.
  eexists; split; [done|]; split_and!; simpl; try done.
  - intros k. case_decide as Hk; subst.
    + rewrite lookup_insert_eq.
      by rewrite (proj2 (Z.leb_le _ _)), (proj2 (Z.ltb_lt _ _)) by lia.
    + by rewrite lookup_insert_ne by lia.
  - intros. case_match; [done | lia].
Qed.

Lemma heap_get_bounds h i e : heap_get h i = Some e → 1 <= i <= avail_len h.
Proof. unfold heap_get, in_alloc. case_match; [lia | done]. Qed.

Lemma heap_get_set_cur_len n h i : heap_get (set_cur_len n h) i = heap_get h i.
Proof. done. Qed.

(** The two writes of a swap exchange the nodes and nothing else. *)
Lemma heap_swap_Some h i j a b :
  heap_get h i = Some a → heap_get h j = Some b → i ≠ j →
  ∃ h', heap_swap h i j = Some h' ∧
    cur_len h' = cur_len h ∧ avail_len h' = avail_len h ∧
    index_offset h' = index_offset h ∧
    (∀ k, heap_get h' k =
       if decide (k = i) then Some b else if decide (k = j) then Some a
       else heap_get h k) ∧
    (0 <= index_offset h → index h' = <[a := j]> (<[b := i]> (index h))).
Proof.
  intros Ha Hb Hij. unfold heap_swap. rewrite Ha, Hb; simpl.
  pose proof (heap_get_bounds _ _ _ Ha); pose proof (heap_get_bounds _ _ _ Hb).
  destruct (heap_set_Some h i b) as (h1 & -> & Hc1 & Hv1 & Ho1 & Hg1 & Hx1); [lia|].
  destruct (heap_set_Some h1 j a) as (h2 & E2 & Hc2 & Hv2 & Ho2 & Hg2 & Hx2); [lia|].
  simpl. exists h2; split_and!; try congruence.
  - intros k. rewrite Hg2, Hg1. repeat case_decide; congruence.
  - intros. rewrite Hx2, Hx1 by lia. done.
Qed.

(** ** Contents *)

Lemma elem_of_contents h elm :
  elm ∈ contents h ↔ ∃ i, 1 <= i <= cur_len h ∧ heap_get h i = Some elm.
Proof.
  unfold contents. rewrite list_elem_of_omap. setoid_rewrite elem_of_seqZ.
  split; intros (i & ? & ?); exists i; split; done || lia.
Qed.

Lemma contents_ext h h' :
  cur_len h' = cur_len h →
  (∀ k, 1 <= k <= cur_len h → heap_get h' k = heap_get h k) →
  contents h' = contents h.
Proof.
  intros Hc Hg. unfold contents. rewrite Hc.
  apply list_omap_ext, Forall2_same_length_lookup.
  split; [done|]. intros i x y Hx Hy. simplify_eq.
  apply Hg. apply lookup_seqZ in Hx. lia.
Qed.

Lemma contents_snoc h e :
  1 <= cur_len h → heap_get h (cur_len h) = Some e →
  contents h = contents (set_cur_len (cur_len h - 1) h) ++ [e].
Proof.
  intros Hc He. unfold contents; simpl.
  replace (cur_len h) with ((cur_len h - 1) + 1) at 1 by lia.
  rewrite seqZ_app by lia. rewrite omap_app. f_equal.
  replace (1 + (cur_len h - 1)) with (cur_len h) by lia.
  rewrite seqZ_cons by lia. rewrite seqZ_nil by lia. simpl. by rewrite He.
Qed.

End Access.

(** ** Swapping preserves the contents and the well-formedness *)

Section Preserve.
Context {E : Type} `{Countable E} (P : E → Prop).
Implicit Types (h : ast_heap E) (i j k : Z) (elm : E).

(** The transposition of two nodes, as a map on node numbers. *)
Definition transp i j k : Z :=
  if decide (k = i) then j else if decide (k = j) then i else k.

Lemma transp_invol i j k : transp i j (transp i j k) = k.
Proof. unfold transp. repeat case_decide; congruence. Qed.

Lemma transp_seqZ_perm i j n :
  1 <= i <= n → 1 <= j <= n → transp i j <$> seqZ 1 n ≡ₚ seqZ 1 n.
Proof.
  intros Hi Hj. apply NoDup_Permutation.
  - apply NoDup_fmap_2; [|apply NoDup_seqZ].
    intros x y Hxy. by rewrite <- (transp_invol i j x), Hxy, transp_invol.
  - apply NoDup_seqZ.
  - intros x. rewrite list_elem_of_fmap, elem_of_seqZ. split.
    + intros (y & -> & Hy%elem_of_seqZ). unfold transp. repeat case_decide; lia.
    + intros Hx. exists (transp i j x). rewrite transp_invol, elem_of_seqZ.
      split; [done|]. unfold transp. repeat case_decide; lia.
Qed.

Lemma contents_transp h h' i j :
  cur_len h' = cur_len h → 1 <= i <= cur_len h → 1 <= j <= cur_len h →
  (∀ k, 1 <= k <= cur_len h → heap_get h' k = heap_get h (transp i j k)) →
  contents h' ≡ₚ contents h.
Proof.
  intros Hc Hi Hj Hg. unfold contents.
  rewrite <- (transp_seqZ_perm i j (cur_len h)), omap_list_fmap, Hc by done.
  apply reflexive_eq, list_omap_ext, Forall2_same_length_lookup.
  split; [done|]. intros n x y Hx Hy. simplify_eq. apply Hg.
  apply lookup_seqZ in Hx. lia.
Qed.

Lemma wf_get_inj h i j e :
  heap_wf P h → 0 <= index_offset h →
  1 <= i <= cur_len h → 1 <= j <= cur_len h →
  heap_get h i = Some e → heap_get h j = Some e → i = j.
Proof.
  intros Hwf Ho Hi Hj Hgi Hgj.
  pose proof (wf_index _ _ Hwf Ho _ _ Hi Hgi). 
  pose proof (wf_index _ _ Hwf Ho _ _ Hj Hgj). congruence.
Qed.

(** Everything a step of either loop keeps. *)
Record same_heap h h' : Prop := {
  same_wf : heap_wf P h';
  same_cur : cur_len h' = cur_len h;
  same_avail : avail_len h' = avail_len h;
  same_off : index_offset h' = index_offset h;
  same_perm : contents h' ≡ₚ contents h;
}.

Lemma same_heap_refl h : heap_wf P h → same_heap h h.
Proof. by constructor. Qed.

Lemma same_heap_trans h1 h2 h3 : same_heap h1 h2 → same_heap h2 h3 → same_heap h1 h3.
Proof.
  intros [] []. constructor; [done|lia|lia|lia|]. by etrans.
Qed.

Lemma heap_swap_same h i j :
  heap_wf P h → 1 <= i <= cur_len h → 1 <= j <= cur_len h → i ≠ j →
  ∃ h', heap_swap h i j = Some h' ∧ same_heap h h' ∧
    ∀ k, heap_get h' k = heap_get h (transp i j k).
Proof.
  intros Hwf Hi Hj Hij.
  destruct (wf_init _ _ Hwf i Hi) as (a & Ha & HPa).
  destruct (wf_init _ _ Hwf j Hj) as (b & Hb & HPb).
  destruct (heap_swap_Some h i j a b) as (h' & Hs & Hc & Hv & Ho & Hg & Hx); try done.
  assert (∀ k, heap_get h' k = heap_get h (transp i j k)) as Hg'.
  { intros k. rewrite Hg. unfold transp. repeat case_decide; congruence. }
  exists h'; split_and!; try done. constructor; try done; [constructor|].
  - pose proof (wf_len _ _ Hwf). lia.
  - rewrite Hc. intros k Hk. rewrite Hg'. apply (wf_init _ _ Hwf).
    unfold transp. repeat case_decide; lia.
  - rewrite Ho, Hc. intros Ho' k e Hk. rewrite Hx, Hg by done.
    pose proof (λ i e, wf_index _ _ Hwf Ho' i e) as Hidx.
    assert (a ≠ b) by (intros ->; eauto using wf_get_inj).
    repeat case_decide; subst; intros; simplify_eq.
    + by rewrite lookup_insert_ne, lookup_insert_eq.
    + by rewrite lookup_insert_eq.
    + rewrite !lookup_insert_ne; eauto; intros ->.
      * by assert (k = j) by eauto using wf_get_inj.
      * by assert (k = i) by eauto using wf_get_inj.
  - apply (contents_transp h h' i j); auto.
Qed.

End Preserve.

(** ** The two loops restore the heap order *)

Section Loops.
Context {E : Type} `{Countable E} (cmp : E → E → Z) (P : E → Prop) `{!CmpOrder cmp P}.
Implicit Types (h : ast_heap E) (i j k : Z) (elm : E).

Lemma cmp_at_Some h i j :
  heap_wf P h → 1 <= i <= cur_len h → 1 <= j <= cur_len h →
  ∃ c, cmp_at cmp h i j = Some c ∧
    (0 <= c → node_ge cmp h i j) ∧ (c <= 0 → node_ge cmp h j i) ∧
    (node_ge cmp h i j → 0 <= c).
Proof.
  intros Hwf Hi Hj. unfold cmp_at.
  destruct (wf_init _ _ Hwf i Hi) as (a & Ha & HPa).
  destruct (wf_init _ _ Hwf j Hj) as (b & Hb & HPb).
  rewrite Ha, Hb; simpl. eexists; split_and!; [done|..].
  - intros. by exists a, b.
  - intros Hc%(cmp_flip (P := P)); try done. by exists b, a.
  - intros (? & ? & ? & ? & ?). by simplify_eq.
Qed.

Lemma node_ge_trans h i j k :
  heap_wf P h → 1 <= i <= cur_len h → 1 <= j <= cur_len h → 1 <= k <= cur_len h →
  node_ge cmp h i j → node_ge cmp h j k → node_ge cmp h i k.
Proof.
  intros Hwf Hi Hj Hk (a & b & Ha & Hb & Hab) (b' & c & Hb' & Hc & Hbc).
  simplify_eq. exists a, c; split_and!; try done.
  destruct (wf_init _ _ Hwf i Hi) as (? & ? & ?).
  destruct (wf_init _ _ Hwf j Hj) as (? & ? & ?).
  destruct (wf_init _ _ Hwf k Hk) as (? & ? & ?). simplify_eq.
  by apply (cmp_trans (P := P) a b c).
Qed.

Lemma node_ge_refl h i : heap_wf P h → 1 <= i <= cur_len h → node_ge cmp h i i.
Proof.
  intros Hwf Hi. destruct (cmp_at_Some h i i) as (c & _ & H1 & H2 & _); try done.
  destruct (Z.le_ge_cases 0 c); auto.
Qed.

Lemma node_ge_transp h h' i j x y :
  (∀ k, heap_get h' k = heap_get h (transp i j k)) →
  node_ge cmp h (transp i j x) (transp i j y) → node_ge cmp h' x y.
Proof.
  intros Hg (a & b & Ha & Hb & Hab). exists a, b. by rewrite !Hg.
Qed.

Lemma bubble_swap_ord h h' i :
  heap_wf P h → 2 <= i <= cur_len h → cur_len h' = cur_len h →
  (∀ k, heap_get h' k = heap_get h (transp i (i / 2) k)) →
  node_ge cmp h i (i / 2) → ord_except cmp h i →
  ord_except cmp h' (i / 2) ∧ down_ok cmp h' (i / 2).
Proof.
  intros Hwf Hi Hc Hg Hge [Ho1 Ho2]. unfold ord_except, down_ok. rewrite Hc.
  split_and!.
  - intros j Hj Hjp Hjp2. eapply node_ge_transp; [done|]. unfold transp.
    decide_lia; first [apply Ho2; lia | apply Ho1; lia].
  - intros Hp j Hj Hjp. eapply node_ge_transp; [done|].
    assert (node_ge cmp h (i / 2 / 2) (i / 2)) by (apply Ho1; lia).
    unfold transp. decide_lia; try done.
    apply (node_ge_trans h _ (i / 2) _); try done; try lia.
    rewrite <- Hjp. apply Ho1; lia.
  - intros j Hj Hjp. eapply node_ge_transp; [done|]. unfold transp.
    decide_lia; try done.
    apply (node_ge_trans h _ (i / 2) _); try done; try lia.
    rewrite <- Hjp. apply Ho1; lia.
Qed.

Lemma bubble_up_spec fuel h i :
  heap_wf P h → 1 <= i <= cur_len h → i <= Z.of_nat fuel →
  ord_except cmp h i →
  ∃ h' i', bubble_up cmp fuel h i = Some (h', i') ∧ same_heap P h h' ∧
    1 <= i' <= cur_len h ∧ ord_except cmp h' i' ∧ up_ok cmp h' i' ∧
    (down_ok cmp h i → down_ok cmp h' i').
Proof.
  revert h i. induction fuel as [|fuel IH]; intros h i Hwf Hi Hf Ho; [lia|].
  cbn [bubble_up]. case_match eqn:E1.
  2:{ exists h, i; split_and!; auto using same_heap_refl; try lia.
      unfold up_ok; lia. }
  rewrite parent_node_div by lia.
  destruct (cmp_at_Some h (i / 2) i) as (c & Hcmp & Hge & Hle & _); try done; [lia..|].
  rewrite Hcmp; cbn. case_match eqn:E2.
  2:{ exists h, i; split_and!; auto using same_heap_refl; try lia.
      intros _. apply Hge; lia. }
  destruct (heap_swap_same P h i (i / 2)) as (h1 & Hs & Hsame & Hg); try done; try lia.
  rewrite Hs; cbn.
  destruct (bubble_swap_ord h h1 i) as [Ho' Hd'];
    [done | lia | apply Hsame | done | apply Hle; lia | done |].
  destruct (IH h1 (i / 2)) as (h2 & i2 & -> & Hsame2 & Hi2 & Ho2 & Hu2 & Hd2);
    auto; [apply Hsame | rewrite (same_cur _ _ _ Hsame); lia | lia |].
  exists h2, i2; split_and!; auto; eauto using same_heap_trans;
    rewrite (same_cur _ _ _ Hsame) in Hi2; lia.
Qed.

Lemma largest_spec h i :
  heap_wf P h → 1 <= i <= cur_len h →
  ∃ m, largest cmp h i = Some m ∧
    (m = i ∨ (m / 2 = i ∧ m <= cur_len h ∧ node_ge cmp h m i)) ∧
    ∀ j, j <= cur_len h → j / 2 = i → node_ge cmp h m j.
Proof.
  intros Hwf Hi. unfold largest, left_node, right_node.
  assert (∃ m, (if 2 * i <=? cur_len h then
             c ← cmp_at cmp h (2 * i) i; Some (if c >? 0 then 2 * i else i)
           else Some i) = Some m ∧
           (m = i ∨ (m = 2 * i ∧ m <= cur_len h)) ∧ node_ge cmp h m i ∧
           (2 * i <= cur_len h → node_ge cmp h m (2 * i))) as (m & -> & Hm & Hmi & Hml).
  { case_match eqn:E1; [|exists i; split_and!; eauto using node_ge_refl; lia].
    destruct (cmp_at_Some h (2 * i) i) as (c & -> & Hge & Hle & _); try done; [lia..|].
    cbn. case_match eqn:E2; [exists (2 * i)|exists i]; split_and!; eauto using node_ge_refl;
      try lia; intros; try (apply Hge; lia); try (apply Hle; lia); apply node_ge_refl; auto; lia. }
  cbn. case_match eqn:E2.
  - destruct (cmp_at_Some h (2 * i + 1) m) as (c & -> & Hge & Hle & _); try done; [lia..|].
    cbn. case_match eqn:E3.
    + exists (2 * i + 1). split; [done|]. assert (node_ge cmp h (2 * i + 1) m) by (apply Hge; lia).
      split; [right; split_and!; try lia; by apply (node_ge_trans h _ m _); auto; lia|].
      intros j Hj Hji. assert (j = 2 * i ∨ j = 2 * i + 1) as [-> | ->] by lia.
      * apply (node_ge_trans h _ m _); auto; lia.
      * apply node_ge_refl; auto; lia.
    + exists m. split; [done|]. split; [destruct Hm as [?|[? ?]]; [by left|right; split_and!; auto; lia]|].
      intros j Hj Hji. assert (j = 2 * i ∨ j = 2 * i + 1) as [-> | ->] by lia; [auto|apply Hle; lia].
  - exists m. split; [done|]. split; [destruct Hm as [?|[? ?]]; [by left|right; split_and!; auto; lia]|].
    intros j Hj Hji. assert (j = 2 * i) as -> by lia. auto.
Qed.

Lemma heapify_swap_ord h h' i m :
  heap_wf P h → 1 <= i <= cur_len h → m / 2 = i → m <= cur_len h →
  cur_len h' = cur_len h →
  (∀ k, heap_get h' k = heap_get h (transp i m k)) →
  node_ge cmp h m i → (∀ j, j <= cur_len h → j / 2 = i → node_ge cmp h m j) →
  ord_except cmp h i →
  ord_except cmp h' m ∧ up_ok cmp h' m.
Proof.
  intros Hwf Hi Hmi Hm Hc Hg Hge Hmax [Ho1 Ho2]. unfold ord_except, up_ok. rewrite Hc.
  split_and!.
  - intros j Hj Hjp Hjp2. eapply node_ge_transp; [done|]. unfold transp.
    decide_lia.
    + apply Hmax; lia.
    + replace (j / 2) with (i / 2) by lia. apply Ho2; lia.
    + apply Ho1; lia.
  - intros Hp j Hj Hjm. eapply node_ge_transp; [done|]. unfold transp.
    decide_lia. rewrite <- Hjm. apply Ho1; lia.
  - intros _. eapply node_ge_transp; [done|]. unfold transp.
    decide_lia. done.
Qed.

Lemma max_heapify_spec fuel h i :
  heap_wf P h → 1 <= i <= cur_len h → cur_len h - i < Z.of_nat fuel →
  ord_except cmp h i → up_ok cmp h i →
  ∃ h', max_heapify cmp fuel h i = Some h' ∧ same_heap P h h' ∧ heap_ord cmp h'.
Proof.
  revert h i. induction fuel as [|fuel IH]; intros h i Hwf Hi Hf Ho Hu; [lia|].
  cbn [max_heapify].
  destruct (largest_spec h i) as (m & Hlarge & Hm & Hmax); try done.
  rewrite Hlarge; cbn. case_match eqn:E1.
  - exists h; split_and!; auto using same_heap_refl.
    assert (m = i) as -> by lia. intros j Hj.
    destruct (decide (j / 2 = i)) as [<-|]; [apply Hmax; lia|].
    destruct (decide (j = i)) as [->|]; [apply Hu; lia|]. by apply Ho.
  - destruct Hm as [->|(Hmi & Hml & Hge)]; [lia|].
    destruct (heap_swap_same P h i m) as (h1 & Hs & Hsame & Hg); try done; try lia.
    rewrite Hs; cbn.
    destruct (heapify_swap_ord h h1 i m) as [Ho' Hu'];
      [done | lia | done | done | apply Hsame | done | done | done | done |].
    destruct (IH h1 m) as (h2 & -> & Hsame2 & Ho2);
      auto; [apply Hsame | rewrite (same_cur _ _ _ Hsame); lia
             | rewrite (same_cur _ _ _ Hsame); lia |].
    exists h2; split_and!; auto; eauto using same_heap_trans.
Qed.

End Loops.

(** ** The operations *)

Section Correct.
Context {E : Type} `{Countable E} (cmp : E → E → Z) (P : E → Prop) `{!CmpOrder cmp P}.
Implicit Types (h : ast_heap E) (i j k : Z) (elm : E).

Lemma node_ge_cmp_at h i j :
  node_ge cmp h i j → ∃ c, cmp_at cmp h i j = Some c ∧ 0 <= c.
Proof.
  intros (a & b & Ha & Hb & Hab). exists (cmp a b).
  unfold cmp_at. by rewrite Ha, Hb.
Qed.

Lemma bubble_up_stop fuel h i :
  up_ok cmp h i → 1 <= i → bubble_up cmp (S fuel) h i = Some (h, i).
Proof.
  intros Hu Hi. cbn [bubble_up]. case_match; [|done].
  rewrite parent_node_div by lia.
  destruct (node_ge_cmp_at h (i / 2) i) as (c & -> & Hc); [apply Hu; lia|].
  cbn. case_match; [lia | done].
Qed.

Lemma max_heapify_leaf fuel h i :
  cur_len h < 2 * i → max_heapify cmp (S fuel) h i = Some h.
Proof.
  intros Hi. cbn [max_heapify]. unfold largest, left_node, right_node.
  case_match; [lia|]. cbn. case_match; [lia|]. cbn. by rewrite Z.eqb_refl.
Qed.

#[local] Arguments bubble_up : simpl never.
#[local] Arguments max_heapify : simpl never.

(** Overwriting node [idx] by the last element and dropping the last node. *)
Lemma drop_last_spec h h2 idx last e :
  heap_wf P h → heap_ord cmp h → 1 <= idx < cur_len h →
  heap_get h idx = Some e → heap_get h (cur_len h) = Some last →
  heap_set (set_cur_len (cur_len h - 1) h) idx last = Some h2 →
  heap_wf P h2 ∧ ord_except cmp h2 idx ∧ cur_len h2 = cur_len h - 1 ∧
  avail_len h2 = avail_len h ∧ index_offset h2 = index_offset h ∧
  contents h ≡ₚ e :: contents h2.
Proof.
  intros Hwf Hord Hidx He Hlast Hset.
  pose proof (wf_len _ _ Hwf) as Hlen.
  destruct (heap_set_Some (set_cur_len (cur_len h - 1) h) idx last)
    as (h2' & Heq & Hc & Hv & Ho & Hg & Hx); [simpl; lia|].
  rewrite Hset in Heq. injection Heq as <-. simpl in *.
  assert (∀ k, k ≠ idx → heap_get h2 k = heap_get h k) as Hg1.
  { intros k Hk. rewrite Hg. by rewrite decide_False. }
  split_and!; try done.
  - constructor; rewrite ?Hc, ?Ho.
    + lia.
    + intros k Hk. rewrite Hg. case_decide.
      * destruct (wf_init _ _ Hwf (cur_len h)) as (? & ? & ?); [lia|].
        simplify_eq. eauto.
      * apply (wf_init _ _ Hwf). lia.
    + intros Hoff k x Hk. rewrite Hg, Hx by done. case_decide; [intros; simplify_eq|].
      * by rewrite lookup_insert_eq.
      * change (heap_get (set_cur_len (cur_len h - 1) h) k) with (heap_get h k).
        intros Hxk. rewrite lookup_insert_ne; [apply (wf_index _ _ Hwf); auto; lia|].
        intros <-. assert (k = cur_len h) by (eapply wf_get_inj; eauto; lia). lia.
  - split; rewrite Hc.
    + intros j Hj Hji Hji2. destruct (Hord j) as (a & b & Ha & Hb & Hab); [lia|].
      exists a, b. rewrite !Hg1 by done. done.
    + intros Hi2 j Hj Hji.
      assert (node_ge cmp h (idx / 2) j) as (a & b & Ha & Hb & Hab).
      { apply (node_ge_trans cmp P h _ idx _); auto; try lia; [apply Hord; lia|].
        rewrite <- Hji. apply Hord. lia. }
      exists a, b. rewrite !Hg1 by lia. done.
  - destruct (heap_swap_same P h idx (cur_len h)) as (hx & _ & Hsame & Hgx);
      try done; try lia.
    rewrite <- (same_perm _ _ _ Hsame).
    rewrite (contents_snoc hx e);
      [|rewrite (same_cur _ _ _ Hsame); lia
       |rewrite Hgx, (same_cur _ _ _ Hsame); unfold transp; by decide_lia].
    rewrite Permutation_app_comm; simpl. apply Permutation_skip, reflexive_eq.
    apply contents_ext; simpl; [rewrite (same_cur _ _ _ Hsame); lia|].
    intros k Hk. rewrite heap_get_set_cur_len, Hgx, Hg. unfold transp.
    pose proof (same_cur _ _ _ Hsame). by decide_lia.
Qed.

Lemma _ast_heap_remove_spec h idx :
  heap_wf P h → heap_ord cmp h → 1 <= idx <= cur_len h →
  ∃ e h', _ast_heap_remove cmp h idx = Some (Some e, h') ∧ heap_get h idx = Some e ∧
    heap_wf P h' ∧ heap_ord cmp h' ∧ cur_len h' = cur_len h - 1 ∧
    index_offset h' = index_offset h ∧ contents h ≡ₚ e :: contents h'.
Proof.
  intros Hwf Hord Hidx. pose proof (wf_len _ _ Hwf) as Hlen. unfold _ast_heap_remove.
  destruct ((idx =? 0) || (idx >? cur_len h)) eqn:E0; [lia|]. clear E0.
  destruct (wf_init _ _ Hwf idx Hidx) as (e & He & HPe). rewrite He; cbn [mbind option_bind].
  destruct (wf_init _ _ Hwf (cur_len h)) as (lst & Hlast & HPl); [lia|]. rewrite Hlast; cbn [mbind option_bind].
  destruct (heap_set_Some (set_cur_len (cur_len h - 1) h) idx lst)
    as (h2 & Hset & Hc2 & Hv2 & Ho2 & Hg2 & Hx2); [simpl; lia|]. rewrite Hset; cbn [mbind option_bind].
  destruct (decide (idx = cur_len h)) as [->|Hne].
  - (* the last node itself is removed *)
    simplify_eq. simpl in *.
    assert (∀ k, heap_get h2 k = heap_get h k) as Hg.
    { intros k. rewrite Hg2. case_decide; by subst. }
    assert (up_ok cmp h2 (cur_len h)) as Hup.
    { intros Hn. destruct (Hord (cur_len h)) as (a & b & ? & ? & ?); [lia|].
      exists a, b. by rewrite !Hg. }
    unfold loop_fuel. rewrite bubble_up_stop by (done || lia). cbn [mbind option_bind].
    rewrite max_heapify_leaf by lia. cbn [mbind option_bind].
    exists e, h2; split_and!; try done.
    + constructor; rewrite ?Hc2, ?Ho2, ?Hv2; [lia| |].
      * intros k Hk. rewrite Hg. apply (wf_init _ _ Hwf). lia.
      * intros Hoff k x Hk. rewrite Hg, Hx2 by done. intros Hxk.
        rewrite lookup_insert_ne; [apply (wf_index _ _ Hwf); auto; lia|].
        intros <-. assert (k = cur_len h) by (eapply wf_get_inj; eauto; lia). lia.
    + intros j Hj. destruct (Hord j) as (a & b & ? & ? & ?); [lia|].
      exists a, b. by rewrite !Hg.
    + rewrite (contents_snoc h e) by (done || lia).
      rewrite Permutation_app_comm; simpl. apply Permutation_skip, reflexive_eq.
      symmetry. apply contents_ext; simpl; auto.
  - destruct (drop_last_spec h h2 idx lst e) as (Hwf2 & Hoe & _ & _ & _ & Hperm);
      try done; [lia|].
    simpl in Hc2, Ho2.
    destruct (bubble_up_spec cmp P (loop_fuel h2) h2 idx)
      as (h3 & i3 & -> & Hs3 & Hi3 & Hoe3 & Hu3 & _); auto;
      [lia | unfold loop_fuel; lia |].
    cbn [mbind option_bind].
    destruct (max_heapify_spec cmp P (loop_fuel h3) h3 i3) as (h4 & -> & Hs4 & Hord4); auto;
      [apply Hs3 | rewrite (same_cur _ _ _ Hs3); lia
       | unfold loop_fuel; rewrite (same_cur _ _ _ Hs3); lia |].
    pose proof (same_heap_trans _ _ _ _ Hs3 Hs4) as Hs.
    cbn [mbind option_bind]. exists e, h4; split_and!; try done.
    + apply Hs4.
    + rewrite (same_cur _ _ _ Hs); lia.
    + rewrite (same_off _ _ _ Hs); done.
    + rewrite Hperm. by rewrite (same_perm _ _ _ Hs).
Qed.

(** Storing an element at a fresh last node. *)
Lemma append_spec h h2 elm :
  heap_wf P h → heap_ord cmp h → P elm → cur_len h < avail_len h →
  (0 <= index_offset h → elm ∉ contents h) →
  heap_set (set_cur_len (cur_len h + 1) h) (cur_len h + 1) elm = Some h2 →
  heap_wf P h2 ∧ ord_except cmp h2 (cur_len h + 1) ∧ cur_len h2 = cur_len h + 1 ∧
  index_offset h2 = index_offset h ∧ contents h2 ≡ₚ elm :: contents h.
Proof.
  intros Hwf Hord HP Hfree Hnew Hset. pose proof (wf_len _ _ Hwf) as Hlen.
  destruct (heap_set_Some (set_cur_len (cur_len h + 1) h) (cur_len h + 1) elm)
    as (h2' & Heq & Hc & Hv & Ho & Hg & Hx); [simpl; lia|].
  rewrite Hset in Heq. injection Heq as <-. simpl in *.
  assert (∀ k, k ≠ cur_len h + 1 → heap_get h2 k = heap_get h k) as Hg1.
  { intros k Hk. rewrite Hg. by rewrite decide_False. }
  split_and!; try done.
  - constructor; rewrite ?Hc, ?Ho; [lia| |].
    + intros k Hk. rewrite Hg. case_decide; [eauto|]. apply (wf_init _ _ Hwf). lia.
    + intros Hoff k x Hk. rewrite Hx by done. destruct (decide (k = cur_len h + 1)) as [->|].
      * rewrite Hg, decide_True by done. intros; simplify_eq. by rewrite lookup_insert_eq.
      * rewrite Hg1 by done. intros Hxk.
        rewrite lookup_insert_ne; [apply (wf_index _ _ Hwf); auto; lia|].
        intros <-. apply (Hnew Hoff), elem_of_contents. exists k. split; [lia | done].
  - split; rewrite Hc.
    + intros j Hj Hji Hji2. destruct (Hord j) as (a & b & Ha & Hb & Hab); [lia|].
      exists a, b. rewrite !Hg1 by lia. done.
    + intros Hi2 j Hj Hji. lia.
  - rewrite (contents_snoc h2 elm);
      [|lia | rewrite Hg, Hc; by rewrite decide_True by done].
    rewrite Permutation_app_comm; simpl. apply Permutation_skip, reflexive_eq.
    apply contents_ext; simpl; [lia|]. intros k Hk.
    rewrite heap_get_set_cur_len. apply Hg1. lia.
Qed.

Lemma push_room_spec h elm :
  heap_wf P h → heap_ord cmp h → P elm → cur_len h < avail_len h →
  (0 <= index_offset h → elm ∉ contents h) →
  ∃ h2 h3 i3,
    heap_set (set_cur_len (cur_len h + 1) h) (cur_len h + 1) elm = Some h2 ∧
    cur_len h2 = cur_len h + 1 ∧
    bubble_up cmp (loop_fuel h2) h2 (cur_len h2) = Some (h3, i3) ∧
    heap_wf P h3 ∧ heap_ord cmp h3 ∧ index_offset h3 = index_offset h ∧
    contents h3 ≡ₚ elm :: contents h.
Proof.
  intros Hwf Hord HP Hfree Hnew. pose proof (wf_len _ _ Hwf) as Hlen.
  destruct (heap_set_Some (set_cur_len (cur_len h + 1) h) (cur_len h + 1) elm)
    as (h2 & Hset & _); [simpl; lia|].
  destruct (append_spec h h2 elm) as (Hwf2 & Hoe2 & Hc2 & Ho2 & Hp2); auto.
  destruct (bubble_up_spec cmp P (loop_fuel h2) h2 (cur_len h2))
    as (h3 & i3 & Hb & Hs3 & Hi3 & [Ho3 _] & Hu3 & Hd3); auto;
    [lia | unfold loop_fuel; lia | by rewrite Hc2 |].
  exists h2, h3, i3. split_and!; auto.
  - apply Hs3.
  - intros j Hj. rewrite (same_cur _ _ _ Hs3) in Hj.
    destruct (decide (j / 2 = i3)) as [<-|]; [apply Hd3; auto; [|rewrite (same_cur _ _ _ Hs3); lia]|].
    { intros j' ? ?. lia. }
    destruct (decide (j = i3)) as [->|]; [apply Hu3; lia|].
    apply Ho3; auto. rewrite (same_cur _ _ _ Hs3). lia.
  - rewrite (same_off _ _ _ Hs3); lia.
  - by rewrite (same_perm _ _ _ Hs3).
Qed.

Lemma _ast_heap_push_spec alloc_ok h elm :
  heap_wf P h → heap_ord cmp h → P elm →
  (0 <= index_offset h → elm ∉ contents h) →
  ∃ rc h', _ast_heap_push cmp alloc_ok h elm = Some (rc, h') ∧
    heap_wf P h' ∧ heap_ord cmp h' ∧ index_offset h' = index_offset h ∧
    if (cur_len h =? avail_len h) && negb alloc_ok then rc = -1 ∧ h' = h
    else rc = 0 ∧ contents h' ≡ₚ elm :: contents h.
Proof.
  intros Hwf Hord HP Hnew. pose proof (wf_len _ _ Hwf) as Hlen.
  unfold _ast_heap_push, grow_heap.
  destruct (cur_len h =? avail_len h) eqn:Efull; [destruct alloc_ok|]; simpl.
  - set (hg := {| index_offset := index_offset h |}).
    assert (∀ k, 1 <= k <= cur_len h → heap_get hg k = heap_get h k) as Hgg.
    { intros k Hk. unfold heap_get, in_alloc; simpl.
      by rewrite !(proj2 (Z.leb_le _ _)), !(proj2 (Z.ltb_lt _ _)) by lia. }
    assert (contents hg = contents h) as Hcg by (by apply contents_ext).
    assert (heap_wf P hg) as Hwfg.
    { constructor; simpl; [lia| |].
      - intros k Hk. rewrite Hgg by done. by apply (wf_init _ _ Hwf).
      - intros Hoff k x Hk. rewrite Hgg by done. by apply (wf_index _ _ Hwf). }
    assert (heap_ord cmp hg) as Hordg.
    { intros j Hj. simpl in Hj. destruct (Hord j) as (a & b & ? & ? & ?); [done|].
      exists a, b. rewrite !Hgg by lia. done. }
    destruct (push_room_spec hg elm) as (h2 & h3 & i3 & Hset & Hc2 & Hb & Hrest); auto;
      [simpl; lia | by rewrite Hcg|].
    simpl in Hset. fold hg. rewrite Hset; cbn [mbind option_bind].
    rewrite Hb. rewrite Hcg in Hrest.
    destruct Hrest as (? & ? & ? & ?). by eexists _, _.
  - by eexists _, _.
  - destruct (push_room_spec h elm) as (h2 & h3 & i3 & Hset & Hc2 & Hb & Hrest); auto;
      [lia|].
    rewrite Hset; cbn [mbind option_bind]. rewrite Hb.
    destruct Hrest as (? & ? & ? & ?). by eexists _, _.
Qed.

(** The root dominates every node. *)
Lemma root_max h i :
  heap_wf P h → heap_ord cmp h → 1 <= i <= cur_len h → node_ge cmp h 1 i.
Proof.
  intros Hwf Hord Hi. destruct Hi as [Hi1 Hi2]. revert Hi2.
  induction i as [i IH] using (well_founded_induction (Z.lt_wf 1)). intros Hi2.
  destruct (decide (i = 1)) as [->|]; [apply (node_ge_refl cmp P); auto; lia|].
  apply (node_ge_trans cmp P h _ (i / 2) _); auto; try lia.
  - apply IH; lia.
  - apply Hord; lia.
Qed.

Lemma verify_loop_spec n h i :
  heap_wf P h → 1 <= i → i + Z.of_nat n - 1 <= cur_len h →
  ∃ rc, verify_loop cmp n h i = Some rc ∧ (rc = 0 ∨ rc = -1) ∧
    (rc = 0 ↔ ∀ j, j <= cur_len h → i <= j / 2 < i + Z.of_nat n →
                   node_ge cmp h (j / 2) j).
Proof.
  intros Hwf. revert i. induction n as [|n IH]; intros i Hi Hn.
  { exists 0. split_and!; auto. split; [|done]. intros _ j ? ?. lia. }
  assert (∀ c, i < c <= cur_len h → ∃ b,
    (d ← cmp_at cmp h i c; Some (d <? 0)) = Some b ∧ (b = false ↔ node_ge cmp h i c)) as Hone.
  { intros c Hc. destruct (cmp_at_Some cmp P h i c) as (d & -> & H1 & _ & H2); try done; try lia.
    cbn. exists (d <? 0). split; [done|]. rewrite Z.ltb_ge. split; auto. }
  cbn [verify_loop]. unfold left_node, right_node.
  assert (∀ c, i < c → ∃ b,
    (if c <=? cur_len h then d ← cmp_at cmp h i c; Some (d <? 0) else Some false) = Some b ∧
    (b = false ↔ (c <= cur_len h → node_ge cmp h i c))) as Htwo.
  { intros c Hc. case_match eqn:Ec.
    - destruct (Hone c) as (b & ? & Hb); [lia|]. exists b. rewrite Hb. split; [done|].
      split; [done|]. intros Hx. apply Hx. lia.
    - exists false. split; [done|]. split; [lia | done]. }
  destruct (Htwo (2 * i)) as (bl & -> & Hbl); [lia|].
  destruct (Htwo (2 * i + 1)) as (br & -> & Hbr); [lia|]. cbn [mbind option_bind].
  destruct (IH (i + 1)) as (rc & Hrc & Hval & Hiff); [lia..|].
  destruct bl; [|destruct br].
  - exists (-1). split_and!; auto. split; [done|]. intros Hall.
    assert (true = false) by (apply Hbl; intros; replace i with (2 * i / 2) at 1 by lia; apply Hall; lia).
    done.
  - exists (-1). split_and!; auto. split; [done|]. intros Hall.
    assert (true = false) by (apply Hbr; intros; replace i with ((2 * i + 1) / 2) at 1 by lia; apply Hall; lia).
    done.
  - exists rc. split_and!; auto. rewrite Hiff. split.
    + intros Hall j Hj Hji. destruct (decide (j / 2 = i)) as [<-|]; [|apply Hall; lia].
      assert (j = 2 * (j / 2) ∨ j = 2 * (j / 2) + 1) as [Hj2|Hj2] by lia; rewrite Hj2 at 2.
      * by apply Hbl; [|lia].
      * by apply Hbr; [|lia].
    + intros Hall j Hj Hji. apply Hall; lia.
Qed.

Lemma contents_lookup h (n : nat) :
  heap_wf P h → Z.of_nat n < cur_len h → contents h !! n = heap_get h (Z.of_nat n + 1).
Proof.
  intros Hwf Hn. unfold contents. rewrite omap_lookup_total.
  - rewrite lookup_seqZ_lt by done. cbn. f_equal. lia.
  - intros x Hx%elem_of_seqZ. destruct (wf_init _ _ Hwf x) as (e & -> & _); [lia|]. eauto.
Qed.

Lemma contents_length h : heap_wf P h → Z.of_nat (length (contents h)) = cur_len h.
Proof.
  intros Hwf. pose proof (wf_len _ _ Hwf). unfold contents.
  rewrite omap_length_total; [rewrite length_seqZ; lia|].
  intros y Hy%elem_of_seqZ. destruct (wf_init _ _ Hwf y) as (e & -> & _); [lia|]. eauto.
Qed.

Lemma contents_NoDup h : heap_wf P h → 0 <= index_offset h → NoDup (contents h).
Proof.
  intros Hwf Ho. apply NoDup_alt. intros m n e Hm Hn.
  assert (Z.of_nat m < cur_len h) as Hm'
    by (rewrite <- contents_length by done; apply lookup_lt_Some in Hm; lia).
  assert (Z.of_nat n < cur_len h) as Hn'
    by (rewrite <- contents_length by done; apply lookup_lt_Some in Hn; lia).
  rewrite contents_lookup in Hm, Hn by done.
  assert (Z.of_nat m + 1 = Z.of_nat n + 1) by (eapply wf_get_inj; eauto; lia). lia.
Qed.

End Correct.

(** ** The interface the scheduler relies on

    A priority queue of elements [E] that returns a largest element first,
    gives access by position, and removes a given element.  The comparison is
    an argument because it reads the memory of the elements. *)
Class PrioQueue (E Q : Type) := {
  pq_size : Q → Z;
  pq_peek : Q → Z → option E;
  pq_push : (E → E → Z) → bool → Q → E → option (Z * Q);
  pq_pop : (E → E → Z) → Q → option (option E * Q);
  pq_remove : (E → E → Z) → Q → E → option (option E * Q);
  pq_elems : Q → list E;
  pq_inv : (E → E → Z) → (E → Prop) → Q → Prop;
}.

Class PrioQueueLaws (E Q : Type) `{PrioQueue E Q} : Prop := {
  pq_size_elems cmp P q : pq_inv cmp P q → pq_size q = Z.of_nat (length (pq_elems q));
  pq_peek_elems cmp P q i : pq_inv cmp P q → 1 <= i →
    pq_peek q i = pq_elems q !! Z.to_nat (i - 1);
  pq_elems_NoDup cmp P q : pq_inv cmp P q → NoDup (pq_elems q);
  pq_elems_ok cmp P q e : pq_inv cmp P q → e ∈ pq_elems q → P e;
  pq_inv_ext cmp cmp' (P P' : E → Prop) q : pq_inv cmp P q →
    (∀ a b, a ∈ pq_elems q → b ∈ pq_elems q → cmp' a b = cmp a b) →
    (∀ a, a ∈ pq_elems q → P' a) → pq_inv cmp' P' q;
  pq_push_ok cmp P `{!CmpOrder cmp P} alloc_ok q e :
    pq_inv cmp P q → P e → e ∉ pq_elems q →
    ∃ rc q', pq_push cmp alloc_ok q e = Some (rc, q') ∧ pq_inv cmp P q' ∧
      ((rc = 0 ∧ pq_elems q' ≡ₚ e :: pq_elems q) ∨
       (rc = -1 ∧ alloc_ok = false ∧ q' = q));
  pq_pop_ok cmp P `{!CmpOrder cmp P} q :
    pq_inv cmp P q →
    ∃ r q', pq_pop cmp q = Some (r, q') ∧ pq_inv cmp P q' ∧
      match r with
      | None => pq_elems q = [] ∧ q' = q
      | Some e => pq_peek q 1 = Some e ∧ pq_elems q ≡ₚ e :: pq_elems q' ∧
                  ∀ x, x ∈ pq_elems q → 0 <= cmp e x
      end;
  pq_remove_ok cmp P `{!CmpOrder cmp P} q e :
    pq_inv cmp P q → e ∈ pq_elems q → pq_size q < 2 ^ 32 →
    ∃ q', pq_remove cmp q e = Some (Some e, q') ∧ pq_inv cmp P q' ∧
      pq_elems q ≡ₚ e :: pq_elems q';
}.

#[export] Instance ast_heap_pq {E} `{Countable E} : PrioQueue E (ast_heap E) := {|
  pq_size := ast_heap_size;
  pq_peek := ast_heap_peek;
  pq_push := _ast_heap_push;
  pq_pop := ast_heap_pop;
  pq_remove := ast_heap_remove;
  pq_elems := contents;
  pq_inv cmp P h := heap_wf P h ∧ heap_ord cmp h ∧ 0 <= index_offset h;
|}.

Section Interface.
Context {E : Type} `{Countable E}.
Implicit Types (h : ast_heap E) (elm : E).

Lemma ast_heap_peek_contents (P : E → Prop) h i :
  heap_wf P h → 1 <= i → ast_heap_peek h i = contents h !! Z.to_nat (i - 1).
Proof.
  intros Hwf Hi. pose proof (contents_length P h Hwf) as Hlen.
  unfold ast_heap_peek.
  destruct ((cur_len h =? 0) || (i =? 0) || (i >? cur_len h)) eqn:E0.
  - symmetry. apply lookup_ge_None_2. pose proof (wf_len _ _ Hwf). lia.
  - rewrite (contents_lookup P) by (done || lia). f_equal. lia.
Qed.

Lemma heap_inv_ext (cmp cmp' : E → E → Z) (P P' : E → Prop) h :
  heap_wf P h → heap_ord cmp h →
  (∀ a b, a ∈ contents h → b ∈ contents h → cmp' a b = cmp a b) →
  (∀ a, a ∈ contents h → P' a) → heap_wf P' h ∧ heap_ord cmp' h.
Proof.
  intros Hwf Hord Hcmp HP. split.
  - destruct Hwf as [Hl Hi Hx]. constructor; auto.
    intros i Hr. destruct (Hi i Hr) as (e & He & _). exists e. split; [done|].
    apply HP, elem_of_contents. eauto.
  - intros j Hj. destruct (Hord j Hj) as (a & b & Ha & Hb & Hab).
    exists a, b; split_and!; auto. rewrite Hcmp; auto; apply elem_of_contents;
      eexists; (split; [|done]); lia.
Qed.

Lemma ast_heap_pop_spec cmp (P : E → Prop) `{!CmpOrder cmp P} h :
  heap_wf P h → heap_ord cmp h →
  ∃ r h', ast_heap_pop cmp h = Some (r, h') ∧ heap_wf P h' ∧ heap_ord cmp h' ∧
    index_offset h' = index_offset h ∧
    match r with
    | None => contents h = [] ∧ h' = h
    | Some e => ast_heap_peek h 1 = Some e ∧ contents h ≡ₚ e :: contents h' ∧
                ∀ x, x ∈ contents h → 0 <= cmp e x
    end.
Proof.
  intros Hwf Hord. pose proof (wf_len _ _ Hwf) as Hlen. unfold ast_heap_pop.
  destruct (decide (cur_len h = 0)) as [H0|H0].
  - exists None, h. unfold _ast_heap_remove. rewrite H0. split_and!; auto.
    unfold contents. by rewrite H0.
  - destruct (_ast_heap_remove_spec cmp P h 1) as (e & h' & -> & He & ? & ? & ? & ? & ?);
      auto; [lia|].
    exists (Some e), h'; split_and!; auto.
    + unfold ast_heap_peek. case_match; [lia | done].
    + intros x (i & Hi & Hx)%elem_of_contents.
      destruct (root_max cmp P h i) as (a & b & ? & ? & ?); auto. by simplify_eq.
Qed.

Lemma ast_heap_remove_spec cmp (P : E → Prop) `{!CmpOrder cmp P} h elm :
  heap_wf P h → heap_ord cmp h → 0 <= index_offset h → cur_len h < 2 ^ 32 →
  elm ∈ contents h →
  ∃ h', ast_heap_remove cmp h elm = Some (Some elm, h') ∧ heap_wf P h' ∧
    heap_ord cmp h' ∧ index_offset h' = index_offset h ∧
    contents h ≡ₚ elm :: contents h'.
Proof.
  intros Hwf Hord Ho H32 (i & Hi & Hx)%elem_of_contents.
  unfold ast_heap_remove, get_index.
  rewrite (proj2 (Z.ltb_ge _ _)) by lia. rewrite (wf_index _ _ Hwf Ho i elm Hi Hx).
  cbn [mbind option_bind]. case_match; [lia|].
  rewrite uwrap_small by lia.
  destruct (_ast_heap_remove_spec cmp P h i) as (e & h' & -> & He & ? & ? & ? & ? & ?); auto.
  simplify_eq. by exists h'.
Qed.

#[export] Instance ast_heap_pq_laws : PrioQueueLaws E (ast_heap E).
Proof.
  constructor; simpl.
  - intros cmp P h (Hwf & _ & _). unfold ast_heap_size. by rewrite (contents_length P).
  - intros cmp P h i (Hwf & _ & _). by apply (ast_heap_peek_contents P).
  - intros cmp P h (Hwf & _ & ?). by apply (contents_NoDup P).
  - intros cmp P h e (Hwf & _ & _) (i & Hi & Hx)%elem_of_contents.
    destruct (wf_init _ _ Hwf i Hi) as (? & ? & ?). by simplify_eq.
  - intros cmp cmp' P P' h (Hwf & Hord & Ho) Hc HP.
    destruct (heap_inv_ext cmp cmp' P P' h); auto.
  - intros cmp P ? ok h e (Hwf & Hord & Ho) HP Hnew.
    destruct (_ast_heap_push_spec cmp P ok h e) as (rc & h' & -> & ? & ? & Ho' & Hrest); auto.
    exists rc, h'. rewrite Ho'. split_and!; auto. destruct ok; simpl in *;
      [rewrite andb_false_r in Hrest; auto|].
    case_match; naive_solver.
  - intros cmp P ? h (Hwf & Hord & Ho).
    destruct (ast_heap_pop_spec cmp P h) as (r & h' & -> & ? & ? & Ho' & ?); auto.
    exists r, h'. by rewrite Ho'.
  - intros cmp P ? h e (Hwf & Hord & Ho) He H32.
    destruct (ast_heap_remove_spec cmp P h e) as (h' & -> & ? & ? & Ho' & ?); auto.
    exists h'. by rewrite Ho'.
Qed.

End Interface.

(** ** Properties *)

Module Properties.
Section Claims.
Context {E : Type} `{Countable E} (cmp : E → E → Z) (P : E → Prop) `{!CmpOrder cmp P}.
Implicit Types (h : ast_heap E) (elm : E).

(** C22: popping a well-formed, ordered heap never reads outside the array or an
    unwritten slot, keeps the heap well-formed and ordered, returns [NULL]
    exactly on the empty heap, and otherwise returns an element that is at
    least every element held and removes one occurrence of it. *)
Theorem ast_heap_pop_correct h :
  heap_wf P h → heap_ord cmp h →
  ∃ r h', ast_heap_pop cmp h = Some (r, h') ∧ heap_wf P h' ∧ heap_ord cmp h' ∧
    match r with
    | None => contents h = [] ∧ h' = h
    | Some e => contents h ≡ₚ e :: contents h' ∧ ∀ x, x ∈ contents h → 0 <= cmp e x
    end.
Proof.
  intros Hwf Hord.
  destruct (ast_heap_pop_spec cmp P h) as ([e|] & h' & ? & ? & ? & ? & ?); auto.
  - exists (Some e), h'. naive_solver.
  - exists None, h'. naive_solver.
Qed.

(** Pushing keeps a heap well-formed and ordered and adds exactly the new
    element, growing the array when it is full; when that allocation fails
    the call returns [-1] and the heap is unchanged. *)
Theorem ast_heap_push_correct alloc_ok h elm :
  heap_wf P h → heap_ord cmp h → P elm →
  (0 <= index_offset h → elm ∉ contents h) →
  ∃ rc h', _ast_heap_push cmp alloc_ok h elm = Some (rc, h') ∧
    heap_wf P h' ∧ heap_ord cmp h' ∧
    if (cur_len h =? avail_len h) && negb alloc_ok then rc = -1 ∧ h' = h
    else rc = 0 ∧ contents h' ≡ₚ elm :: contents h.
Proof.
  intros. destruct (_ast_heap_push_spec cmp P alloc_ok h elm)
    as (rc & h' & ? & ? & ? & ? & ?); auto. by exists rc, h'.
Qed.

(** Removing an element that is in the heap, through the position recorded
    in its index field, returns that element, removes exactly it, and keeps
    the heap well-formed and ordered. *)
Theorem ast_heap_remove_correct h elm :
  heap_wf P h → heap_ord cmp h → 0 <= index_offset h → cur_len h < 2 ^ 32 →
  elm ∈ contents h →
  ∃ h', ast_heap_remove cmp h elm = Some (Some elm, h') ∧ heap_wf P h' ∧
    heap_ord cmp h' ∧ contents h ≡ₚ elm :: contents h'.
Proof.
  intros. destruct (ast_heap_remove_spec cmp P h elm) as (h' & ? & ? & ? & ? & ?); auto.
  by exists h'.
Qed.

(** [ast_heap_verify] returns 0 exactly on the heaps whose every node is at
    least its children, and [-1] on all others. *)
Theorem ast_heap_verify_correct h :
  heap_wf P h →
  ∃ rc, ast_heap_verify cmp h = Some rc ∧ (rc = 0 ∨ rc = -1) ∧
    (rc = 0 ↔ heap_ord cmp h).
Proof.
  intros Hwf. pose proof (wf_len _ _ Hwf). unfold ast_heap_verify.
  destruct (verify_loop_spec cmp P (Z.to_nat (cur_len h /c 2)) h 1)
    as (rc & -> & Hv & Hiff); auto; [lia..|].
  exists rc. split_and!; auto. rewrite Hiff. split.
  - intros Hall j Hj. apply Hall; lia.
  - intros Hord j Hj Hj2. apply Hord; lia.
Qed.

End Claims.

(** *** Witnesses: integers in their natural order *)

#[export] Instance Zsub_order : CmpOrder Z.sub (λ _, True).
Proof. constructor; lia. Qed.

Definition demo : ast_heap Z :=
  {| index_offset := 0; cur_len := 3; avail_len := 3;
     heap := {[ 0 := 9; 1 := 4; 2 := 7 ]};
     index := {[ 9 := 1; 4 := 2; 7 := 3 ]} |}.

Lemma demo_nodes (Q : Z → Prop) i : Q 1 → Q 2 → Q 3 → 1 <= i <= cur_len demo → Q i.
Proof.
  intros ? ? ? Hi. simpl in Hi.
  assert (i = 1 ∨ i = 2 ∨ i = 3) as [-> | [-> | ->]] by lia; done.
Qed.

Lemma demo_wf : heap_wf (λ _, True) demo.
Proof.
  constructor.
  - done.
  - intros i. apply (demo_nodes (λ i, ∃ e, heap_get demo i = Some e ∧ True)); by eexists.
  - intros _ i e Hi. revert Hi e.
    apply (demo_nodes (λ i, ∀ e, heap_get demo i = Some e → index demo !! e = Some i));
      intros e [= <-]; done.
Qed.

Lemma demo_ord : heap_ord Z.sub demo.
Proof.
  intros j Hj. simpl in Hj. assert (j = 2 ∨ j = 3) as [-> | ->] by lia; by eexists _, _.
Qed.

Lemma ast_heap_pop_correct_witness :
  ∃ r h', ast_heap_pop Z.sub demo = Some (r, h') ∧ heap_wf (λ _, True) h' ∧
    heap_ord Z.sub h' ∧
    match r with
    | None => contents demo = [] ∧ h' = demo
    | Some e => contents demo ≡ₚ e :: contents h' ∧ ∀ x, x ∈ contents demo → 0 <= Z.sub e x
    end.
Proof. exact (ast_heap_pop_correct Z.sub (λ _, True) demo demo_wf demo_ord). Defined.

Lemma ast_heap_push_correct_witness :
  ∃ rc h', _ast_heap_push Z.sub true demo 8 = Some (rc, h') ∧
    heap_wf (λ _, True) h' ∧ heap_ord Z.sub h' ∧ rc = 0 ∧ contents h' ≡ₚ 8 :: contents demo.
Proof.
  apply (ast_heap_push_correct Z.sub (λ _, True) true demo 8 demo_wf demo_ord I).
  intros _. by apply (bool_decide_unpack _).
Defined.

Lemma ast_heap_remove_correct_witness :
  ∃ h', ast_heap_remove Z.sub demo 4 = Some (Some 4, h') ∧ heap_wf (λ _, True) h' ∧
    heap_ord Z.sub h' ∧ contents demo ≡ₚ 4 :: contents h'.
Proof.
  apply (ast_heap_remove_correct Z.sub (λ _, True) demo 4 demo_wf demo_ord); try done.
  by apply (bool_decide_unpack _).
Defined.

Lemma ast_heap_verify_correct_witness :
  ∃ rc, ast_heap_verify Z.sub demo = Some rc ∧ (rc = 0 ∨ rc = -1) ∧
    (rc = 0 ↔ heap_ord Z.sub demo).
Proof. exact (ast_heap_verify_correct Z.sub (λ _, True) demo demo_wf). Defined.

End Properties.
