(* ===== verification/Sched.v ===== *)
(** * The scheduler: [main/sched.c]

    A scheduler context owns [struct sched] records, kept in a store [mem]
    addressed by pointer because the heap, the cache of unused records, the
    executing task and a thread waiting in [ast_sched_del] all hold pointers to
    the same record.  The heap is used through the interface [PrioQueue] of
    Heap.v; its comparison reads the store.

    - [Model]: every operation, with the allocator's outcomes as an argument
      and [ast_tvnow] as the field [now];
    - [Inv]: ownership, identifier and ordering invariant, and the abstract
      view [pending]: the finite map from identifier to scheduled task;
    - [Runs]: threads that add, delete and run tasks, interleaved at the points
      where the code releases the context's lock.

    An operation returns [None] when it would follow an invalid pointer. *)

From stdpp Require Import base numbers list gmap sorting relations.
From Stdlib Require Import ZArith Lia.
From S2P Require Import Prelude Timeval Heap.

Abbreviation addr := positive.
Abbreviation tid := positive.

Definition SCHED_MAX_CACHE : Z := 128.
Definition ID_QUEUE_INCREMENT : Z := 16.
Definition INT_MAX : Z := 2147483647.

(** [sched_id] is the pointer to the identifier holder, which is known by its
    immutable number; callbacks and data are pointers, [0] being [NULL].  The
    condition variable and the list links have no value of their own. *)
Record sched := Sched {
  sched_id : option Z;
  when : timeval;
  s_tie_breaker : Z;
  resched : Z;
  variable : Z;
  data : Z;
  callback : Z;
  deleted : bool;
  rescheduled : bool;
}.

(** The record as [ast_calloc] returns it. *)
Definition calloc_sched : sched := Sched None (Tv 0 0) 0 0 0 0 0 false false.

Definition set_sched_id_of (i : option Z) (s : sched) : sched :=
  Sched i (when s) (s_tie_breaker s) (resched s) (variable s) (data s) (callback s)
    (deleted s) (rescheduled s).
Definition set_when (t : timeval) (s : sched) : sched :=
  Sched (sched_id s) t (s_tie_breaker s) (resched s) (variable s) (data s) (callback s)
    (deleted s) (rescheduled s).
Definition set_tie (n : Z) (s : sched) : sched :=
  Sched (sched_id s) (when s) n (resched s) (variable s) (data s) (callback s)
    (deleted s) (rescheduled s).
Definition set_deleted (b : bool) (s : sched) : sched :=
  Sched (sched_id s) (when s) (s_tie_breaker s) (resched s) (variable s) (data s)
    (callback s) b (rescheduled s).
Definition set_rescheduled (b : bool) (s : sched) : sched :=
  Sched (sched_id s) (when s) (s_tie_breaker s) (resched s) (variable s) (data s)
    (callback s) (deleted s) b.

(** What the allocator does during one operation: the address of a new
    [struct sched] (or failure), how many [struct sched_id] can be had, and
    whether the heap can grow. *)
Record allocs := Allocs { new_sched : option addr; new_ids : nat; heap_grows : bool }.

(** The comparison given to the heap: the soonest task is the largest. *)
Definition sched_time_cmp (m : gmap addr sched) (a b : addr) : Z :=
  match m !! a, m !! b with
  | Some sa, Some sb =>
    let cmp := ast_tvcmp (when sb) (when sa) in
    if cmp =? 0 then s32 (s_tie_breaker sb - s_tie_breaker sa) else cmp
  | _, _ => 0
  end.

Definition sched_settime (now t : timeval) (interval : Z) : timeval :=
  let t := if ast_tvzero t then now else t in
  let t := ast_tvadd t (ast_samp2tv_1000 interval) in
  if ast_tvcmp t now <? 0 then now else t.

Section Model.
Context {Q : Type} `{!PrioQueue addr Q}.

Record ast_sched_context := SchedContext {
  eventcnt : Z;
  highwater : Z;
  tie_breaker : Z;
  sched_heap : Q;
  currently_executing : option addr;
  executing_thread_id : tid;
  schedc : list addr;
  schedccnt : Z;
  id_queue : list Z;
  id_queue_size : Z;
  (* the records, the clock and the per-thread [last_del_id] *)
  mem : gmap addr sched;
  now : timeval;
  last_del_id : gmap tid Z;
}.

Definition upd_eventcnt (m : Z → Z) (c : ast_sched_context) : ast_sched_context :=
  SchedContext (m (eventcnt c)) (highwater c) (tie_breaker c) (sched_heap c)
    (currently_executing c) (executing_thread_id c) (schedc c) (schedccnt c) (id_queue
    c) (id_queue_size c) (mem c) (now c) (last_del_id c).

Definition upd_highwater (m : Z → Z) (c : ast_sched_context) : ast_sched_context :=
  SchedContext (eventcnt c) (m (highwater c)) (tie_breaker c) (sched_heap c)
    (currently_executing c) (executing_thread_id c) (schedc c) (schedccnt c) (id_queue
    c) (id_queue_size c) (mem c) (now c) (last_del_id c).

Definition upd_tie_breaker (m : Z → Z) (c : ast_sched_context) : ast_sched_context :=
  SchedContext (eventcnt c) (highwater c) (m (tie_breaker c)) (sched_heap c)
    (currently_executing c) (executing_thread_id c) (schedc c) (schedccnt c) (id_queue
    c) (id_queue_size c) (mem c) (now c) (last_del_id c).

Definition upd_sched_heap (m : Q → Q) (c : ast_sched_context) : ast_sched_context :=
  SchedContext (eventcnt c) (highwater c) (tie_breaker c) (m (sched_heap c))
    (currently_executing c) (executing_thread_id c) (schedc c) (schedccnt c) (id_queue
    c) (id_queue_size c) (mem c) (now c) (last_del_id c).

Definition upd_currently_executing (m : option addr → option addr) (c : ast_sched_context) : ast_sched_context :=
  SchedContext (eventcnt c) (highwater c) (tie_breaker c) (sched_heap c) (m
    (currently_executing c)) (executing_thread_id c) (schedc c) (schedccnt c) (id_queue
    c) (id_queue_size c) (mem c) (now c) (last_del_id c).

Definition upd_executing_thread_id (m : tid → tid) (c : ast_sched_context) : ast_sched_context :=
  SchedContext (eventcnt c) (highwater c) (tie_breaker c) (sched_heap c)
    (currently_executing c) (m (executing_thread_id c)) (schedc c) (schedccnt c)
    (id_queue c) (id_queue_size c) (mem c) (now c) (last_del_id c).

Definition upd_schedc (m : list addr → list addr) (c : ast_sched_context) : ast_sched_context :=
  SchedContext (eventcnt c) (highwater c) (tie_breaker c) (sched_heap c)
    (currently_executing c) (executing_thread_id c) (m (schedc c)) (schedccnt c)
    (id_queue c) (id_queue_size c) (mem c) (now c) (last_del_id c).

Definition upd_schedccnt (m : Z → Z) (c : ast_sched_context) : ast_sched_context :=
  SchedContext (eventcnt c) (highwater c) (tie_breaker c) (sched_heap c)
    (currently_executing c) (executing_thread_id c) (schedc c) (m (schedccnt c))
    (id_queue c) (id_queue_size c) (mem c) (now c) (last_del_id c).

Definition upd_id_queue (m : list Z → list Z) (c : ast_sched_context) : ast_sched_context :=
  SchedContext (eventcnt c) (highwater c) (tie_breaker c) (sched_heap c)
    (currently_executing c) (executing_thread_id c) (schedc c) (schedccnt c) (m
    (id_queue c)) (id_queue_size c) (mem c) (now c) (last_del_id c).

Definition upd_id_queue_size (m : Z → Z) (c : ast_sched_context) : ast_sched_context :=
  SchedContext (eventcnt c) (highwater c) (tie_breaker c) (sched_heap c)
    (currently_executing c) (executing_thread_id c) (schedc c) (schedccnt c) (id_queue
    c) (m (id_queue_size c)) (mem c) (now c) (last_del_id c).

Definition upd_mem (m : gmap addr sched → gmap addr sched) (c : ast_sched_context) : ast_sched_context :=
  SchedContext (eventcnt c) (highwater c) (tie_breaker c) (sched_heap c)
    (currently_executing c) (executing_thread_id c) (schedc c) (schedccnt c) (id_queue
    c) (id_queue_size c) (m (mem c)) (now c) (last_del_id c).

Definition upd_now (m : timeval → timeval) (c : ast_sched_context) : ast_sched_context :=
  SchedContext (eventcnt c) (highwater c) (tie_breaker c) (sched_heap c)
    (currently_executing c) (executing_thread_id c) (schedc c) (schedccnt c) (id_queue
    c) (id_queue_size c) (mem c) (m (now c)) (last_del_id c).

Definition upd_last_del_id (m : gmap tid Z → gmap tid Z) (c : ast_sched_context) : ast_sched_context :=
  SchedContext (eventcnt c) (highwater c) (tie_breaker c) (sched_heap c)
    (currently_executing c) (executing_thread_id c) (schedc c) (schedccnt c) (id_queue
    c) (id_queue_size c) (mem c) (now c) (m (last_del_id c)).
Implicit Types c : ast_sched_context.

Definition set_mem (a : addr) (s : sched) : ast_sched_context → ast_sched_context :=
  upd_mem <[a := s]>.

Definition cmp_of c : addr → addr → Z := sched_time_cmp (mem c).

(** The context as [ast_sched_context_create] leaves it, around a new heap. *)
Definition ast_sched_context_create (heap : option Q) (t : timeval) :
    option ast_sched_context :=
  q ← heap;
  Some (SchedContext 1 0 0 q None 1%positive [] 0 [] 0 ∅ t ∅).

(** ** Identifiers and records *)

Fixpoint add_ids_loop (todo allocs : nat) c : ast_sched_context :=
  match todo, allocs with
  | S todo, S allocs =>
    let id := id_queue_size c + 1 in
    let c := upd_id_queue_size (λ _, id) c in
    add_ids_loop todo allocs (upd_id_queue (λ q, q ++ [id]) c)
  | _, _ => c
  end.

Definition add_ids (allocs : nat) c : Z * ast_sched_context :=
  let original_size := id_queue_size c in
  let new_size := s32 (original_size + ID_QUEUE_INCREMENT) in
  let new_size := if new_size <? 0 then INT_MAX else new_size in
  let c := add_ids_loop (Z.to_nat (new_size - original_size)) allocs c in
  (id_queue_size c - original_size, c).

Definition set_sched_id (allocs : nat) c (new : addr) : option (Z * ast_sched_context) :=
  s ← mem c !! new;
  let take c :=
    match id_queue c with
    | id :: rest => (0, set_mem new (set_sched_id_of (Some id) s)
                          (upd_id_queue (λ _, rest) c))
    | [] => (0, set_mem new (set_sched_id_of None s) c)
    end in
  if bool_decide (id_queue c = []) then
    let '(n, c) := add_ids allocs c in
    if n =? 0 then Some (-1, c) else Some (take c)
  else Some (take c).

Definition sched_free c (a : addr) : ast_sched_context := upd_mem (delete a) c.

Definition sched_release c (a : addr) : option ast_sched_context :=
  s ← mem c !! a;
  let c :=
    match sched_id s with
    | Some id => set_mem a (set_sched_id_of None s) (upd_id_queue (λ q, q ++ [id]) c)
    | None => c
    end in
  if schedccnt c <? SCHED_MAX_CACHE then
    Some (upd_schedccnt (λ n, u32 (n + 1)) (upd_schedc (cons a) c))
  else Some (sched_free c a).

(** The common end of [sched_alloc], with a record from the cache or a new one. *)
Definition alloc_with_id (ids : nat) c (a : addr) : option (option addr * ast_sched_context) :=
  '(rc, c) ← set_sched_id ids c a;
  if negb (rc =? 0) then c ← sched_release c a; Some (None, c)
  else Some (Some a, c).

Definition sched_alloc (o : allocs) c : option (option addr * ast_sched_context) :=
  match schedc c with
  | a :: rest =>
    alloc_with_id (new_ids o) (upd_schedccnt (λ n, u32 (n - 1)) (upd_schedc (λ _, rest) c)) a
  | [] =>
    match new_sched o with
    | None => Some (None, c)
    | Some a => alloc_with_id (new_ids o) (set_mem a calloc_sched c) a
    end
  end.

(** ** Queueing a task *)

Definition schedule (grows : bool) c (a : addr) : option ast_sched_context :=
  let size := pq_size (sched_heap c) in
  let c := if highwater c <=? size then upd_highwater (λ _, u32 (size + 1)) c else c in
  let c := if negb (size =? 0) then upd_tie_breaker (λ n, u32 (n + 1)) c
           else upd_tie_breaker (λ _, 0) c in
  s ← mem c !! a;
  let c := set_mem a (set_tie (tie_breaker c) s) c in
  '(_, q) ← pq_push (cmp_of c) grows (sched_heap c) a;
  Some (upd_sched_heap (λ _, q) c).

Definition ast_sched_add_variable (o : allocs) c (interval cb dat var : Z) :
    option (Z * ast_sched_context) :=
  '(tmp, c) ← sched_alloc o c;
  match tmp with
  | None => Some (-1, c)
  | Some a =>
    let c := upd_eventcnt (λ n, u32 (n + 1)) c in
    s ← mem c !! a;
    let t := sched_settime (now c) (Tv 0 0) interval in
    let c := set_mem a (Sched (sched_id s) t (s_tie_breaker s) interval var dat cb
                          false (rescheduled s)) c in
    c ← schedule (heap_grows o) c a;
    s ← mem c !! a;
    id ← sched_id s;
    Some (id, c)
  end.

Definition ast_sched_add (o : allocs) c (interval cb dat : Z) :
    option (Z * ast_sched_context) :=
  ast_sched_add_variable o c interval cb dat 0.

(** ** Looking tasks up *)

Fixpoint find_from (n : nat) (x : Z) c (id : Z) : option (option addr) :=
  match n with
  | O => Some None
  | S n =>
    cur ← pq_peek (sched_heap c) x;
    s ← mem c !! cur;
    i ← sched_id s;
    if i =? id then Some (Some cur) else find_from n (x + 1) c id
  end.

Definition sched_find c (id : Z) : option (option addr) :=
  find_from (Z.to_nat (pq_size (sched_heap c))) 1 c id.

Definition ast_sched_find_data c (id : Z) : option Z :=
  r ← sched_find c id;
  match r with
  | Some a => s ← mem c !! a; Some (data s)
  | None => Some 0
  end.

Definition ast_sched_when c (id : Z) : option Z :=
  r ← sched_find c id;
  match r with
  | Some a => s ← mem c !! a; Some (tv_sec (when s) - tv_sec (now c))
  | None => Some (-1)
  end.

Definition ast_sched_wait c : option Z :=
  match pq_peek (sched_heap c) 1 with
  | Some a =>
    s ← mem c !! a;
    let ms := s32 (ast_tvdiff_ms (when s) (now c)) in
    Some (if ms <? 0 then 0 else ms)
  | None => Some (-1)
  end.

(** ** Deleting a task

    [DelWait s] is the state of a thread in [ast_cond_wait]: it has marked the
    executing task [s] and released the lock. *)
Inductive del_result :=
  | DelDone (res : Z) (c : ast_sched_context)
  | DelWait (s : addr) (c : ast_sched_context).

(** The end of [ast_sched_del_nonrunning]: [found] says whether [s] is set. *)
Definition del_return (self : tid) (id res : Z) (found : bool) c : Z * ast_sched_context :=
  if res =? -2 then (res, c)
  else if negb found && negb (default 0 (last_del_id c !! self) =? id)
  then (-1, upd_last_del_id <[self := id]> c)
  else if negb found then (-1, c)
  else (res, c).

Definition ast_sched_del_nonrunning (self : tid) c (id : Z) : option del_result :=
  if id <? 0 then Some (DelDone 0 c)
  else
    r ← sched_find c id;
    match r with
    | Some s =>
      '(_, q) ← pq_remove (cmp_of c) (sched_heap c) s;
      c ← sched_release (upd_sched_heap (λ _, q) c) s;
      let '(res, c) := del_return self id 0 true c in Some (DelDone res c)
    | None =>
      match currently_executing c with
      | None => let '(res, c) := del_return self id 0 false c in Some (DelDone res c)
      | Some e =>
        s ← mem c !! e;
        i ← sched_id s;
        if id =? i then
          if bool_decide (executing_thread_id c = self) then
            let '(res, c) := del_return self id 0 false c in Some (DelDone res c)
          else Some (DelWait e (set_mem e (set_deleted true s) c))
        else let '(res, c) := del_return self id 0 false c in Some (DelDone res c)
      end
    end.

(** The test of the waiting loop. *)
Definition del_must_wait c (id : Z) : option bool :=
  match currently_executing c with
  | None => Some false
  | Some e => s ← mem c !! e; i ← sched_id s; Some (id =? i)
  end.

(** The waiting thread, once the task is no longer executing. *)
Definition del_wakeup (self : tid) c (id : Z) (a : addr) : option (Z * ast_sched_context) :=
  s ← mem c !! a;
  let res := if rescheduled s then 0 else -2 in
  c ← sched_release c a;
  Some (del_return self id res false c).

(** [ast_sched_del] when it does not have to wait. *)
Definition ast_sched_del (self : tid) c (id : Z) : option del_result :=
  r ← ast_sched_del_nonrunning self c id;
  match r with
  | DelDone res c => Some (DelDone (if negb (res =? 0) then -1 else 0) c)
  | DelWait s c => Some (DelWait s c)
  end.

(** [AST_SCHED_DEL]: up to ten attempts; [inr] when an attempt waits. *)
Fixpoint AST_SCHED_DEL (tries : nat) (self : tid) c (id : Z) :
    option (ast_sched_context + ast_sched_context) :=
  match tries with
  | O => Some (inl c)
  | S tries =>
    if id >? -1 then
      r ← ast_sched_del self c id;
      match r with
      | DelDone res c => if res =? 0 then Some (inl c) else AST_SCHED_DEL tries self c id
      | DelWait _ c => Some (inr c)
      end
    else Some (inl c)
  end.

(** [None] also when the deletion has to wait for another thread. *)
Definition ast_sched_replace_variable (self : tid) (o : allocs) (old_id : Z) c
    (interval cb dat var : Z) : option (Z * ast_sched_context) :=
  r ← (if old_id >? 0 then AST_SCHED_DEL 10 self c old_id else Some (inl c));
  match r with
  | inl c => ast_sched_add_variable o c interval cb dat var
  | inr _ => None
  end.

Definition ast_sched_replace (self : tid) (o : allocs) (old_id : Z) c
    (interval cb dat : Z) : option (Z * ast_sched_context) :=
  r ← (if old_id >? -1 then AST_SCHED_DEL 10 self c old_id else Some (inl c));
  match r with
  | inl c => ast_sched_add o c interval cb dat
  | inr _ => None
  end.

(** [cleanup_cb] is called with the data pointers of the returned list. *)
Fixpoint clean_loop (fuel : nat) (i : Z) c (match_ : Z) :
    option (list Z * ast_sched_context) :=
  match fuel with
  | O => None
  | S fuel =>
    match pq_peek (sched_heap c) i with
    | None => Some ([], c)
    | Some a =>
      s ← mem c !! a;
      if negb (callback s =? match_) then clean_loop fuel (i + 1) c match_
      else
        '(_, q) ← pq_remove (cmp_of c) (sched_heap c) a;
        c ← sched_release (upd_sched_heap (λ _, q) c) a;
        '(ds, c) ← clean_loop fuel i c match_;
        Some (data s :: ds, c)
    end
  end.

Definition ast_sched_clean_by_callback c (match_ : Z) : option (list Z * ast_sched_context) :=
  clean_loop (S (Z.to_nat (pq_size (sched_heap c)))) 1 c match_.

(** ** Running tasks *)

(** Take the first task if it is due before [limit]; the lock is then released
    for the callback. *)
Definition runq_take (self : tid) (limit : timeval) c :
    option (option addr * ast_sched_context) :=
  match pq_peek (sched_heap c) 1 with
  | None => Some (None, c)
  | Some a =>
    s ← mem c !! a;
    if negb (ast_tvcmp (when s) limit =? -1) then Some (None, c)
    else
      '(r, q) ← pq_pop (cmp_of c) (sched_heap c);
      current ← r;
      let c := upd_sched_heap (λ _, q) c in
      let c := upd_currently_executing (λ _, Some current) c in
      Some (Some current, upd_executing_thread_id (λ _, self) c)
  end.

(** The lock is held again and the callback has returned [res]. *)
Definition runq_return (grows : bool) c (current : addr) (res : Z) :
    option ast_sched_context :=
  let c := upd_currently_executing (λ _, None) c in
  s ← mem c !! current;
  if deleted s then Some (set_mem current (set_rescheduled (negb (res =? 0)) s) c)
  else if negb (res =? 0) then
    let t := sched_settime (now c) (when s)
               (if negb (variable s =? 0) then res else resched s) in
    schedule grows (set_mem current (set_when t s) c) current
  else sched_release c current.

(** [call cb data c] is what the callback returns and what it does to the
    context meanwhile; [grows c] whether the heap can grow then.  The data
    pointers of the calls are returned in order. *)
Fixpoint runq_loop (call : Z → Z → ast_sched_context → Z * ast_sched_context)
    (grows : ast_sched_context → bool) (fuel : nat) (self : tid) (limit : timeval) c :
    option (list addr * ast_sched_context) :=
  match fuel with
  | O => None
  | S fuel =>
    '(r, c) ← runq_take self limit c;
    match r with
    | None => Some ([], c)
    | Some a =>
      s ← mem c !! a;
      let '(res, c) := call (callback s) (data s) c in
      c ← runq_return (grows c) c a res;
      '(l, c) ← runq_loop call grows fuel self limit c;
      Some (a :: l, c)
    end
  end.

Definition ast_sched_runq call grows (fuel : nat) (self : tid) c :
    option (Z * list addr * ast_sched_context) :=
  let limit := ast_tvadd (now c) (ast_tv 0 1000) in
  '(l, c) ← runq_loop call grows fuel self limit c;
  Some (Z.of_nat (length l), l, c).

(** ** Destroying the context *)

Fixpoint free_popped (fuel : nat) c : option ast_sched_context :=
  match fuel with
  | O => None
  | S fuel =>
    '(r, q) ← pq_pop (cmp_of c) (sched_heap c);
    let c := upd_sched_heap (λ _, q) c in
    match r with
    | None => Some c
    | Some a => free_popped fuel (sched_free c a)
    end
  end.

Definition ast_sched_context_destroy c : option ast_sched_context :=
  let c := foldl sched_free c (schedc c) in
  let c := upd_schedc (λ _, []) c in
  c ← free_popped (S (Z.to_nat (pq_size (sched_heap c)))) c;
  Some (upd_id_queue (λ _, []) c).

End Model.

Arguments ast_sched_context Q : clear implicits.
Arguments del_result Q : clear implicits.

(** ** The order of tasks *)

(** [s] is due no later than [s'], the older entry first at the same time. *)
Definition sooner (s s' : sched) : Prop :=
  usecs (when s) < usecs (when s') ∨
  usecs (when s) = usecs (when s') ∧ s_tie_breaker s <= s_tie_breaker s'.

(** The records a heap may hold when the tie breaker has reached [T]. *)
Definition rec_ok (T : Z) (s : sched) : Prop :=
  tv_ok (when s) ∧ 0 <= s_tie_breaker s <= T ∧ deleted s = false.

Definition task_ok (m : gmap addr sched) (T : Z) (a : addr) : Prop :=
  ∃ s, m !! a = Some s ∧ rec_ok T s.

Lemma sched_time_cmp_sooner m T a b s s' :
  T < 2 ^ 31 → m !! a = Some s → m !! b = Some s' → rec_ok T s → rec_ok T s' →
  (0 <= sched_time_cmp m a b ↔ sooner s s') ∧ (sched_time_cmp m a b <= 0 ↔ sooner s' s).
Proof.
  intros HT Ha Hb (Hw & Ht & _) (Hw' & Ht' & _). unfold sched_time_cmp, sooner.
  rewrite Ha, Hb, ast_tvcmp_usecs by done.
  destruct (Z.sgn_spec (usecs (when s') - usecs (when s))) as [[? ->]|[[? ->]|[? ->]]]; simpl;
    [lia| |lia].
  rewrite swrap_small by lia. lia.
Qed.

Lemma cmp_order m T : T < 2 ^ 31 → CmpOrder (sched_time_cmp m) (task_ok m T).
Proof.
  intros HT. constructor.
  - intros a b (s & Ha & Hs) (s' & Hb & Hs').
    rewrite (proj2 (sched_time_cmp_sooner m T a b s s' HT Ha Hb Hs Hs')).
    by rewrite (proj1 (sched_time_cmp_sooner m T b a s' s HT Hb Ha Hs' Hs)).
  - intros a b c (s & Ha & Hs) (s' & Hb & Hs') (s'' & Hc & Hs'').
    rewrite (proj1 (sched_time_cmp_sooner m T a b s s' HT Ha Hb Hs Hs')).
    rewrite (proj1 (sched_time_cmp_sooner m T b c s' s'' HT Hb Hc Hs' Hs'')).
    rewrite (proj1 (sched_time_cmp_sooner m T a c s s'' HT Ha Hc Hs Hs'')).
    unfold sooner. lia.
Qed.

(** The time [sched_settime] computes. *)
Lemma sched_settime_spec nw t iv :
  tv_ok nw → tv_ok t → 0 <= iv < 2 ^ 31 →
  tv_ok (sched_settime nw t iv) ∧
  usecs (sched_settime nw t iv) =
    Z.max (usecs nw) ((if ast_tvzero t then usecs nw else usecs t) + iv * 1000).
Proof.
  intros Hn Ht Hi. unfold sched_settime.
  set (t0 := if ast_tvzero t then nw else t).
  assert (tv_ok t0) as H0 by (unfold t0; case_match; done).
  assert (usecs t0 = if ast_tvzero t then usecs nw else usecs t) as <-
    by (unfold t0; case_match; done).
  pose proof (ast_tvadd_ok t0 (ast_samp2tv_1000 iv)) as Ha.
  pose proof (ast_tvadd_usecs t0 (ast_samp2tv_1000 iv) H0 (ast_samp2tv_1000_ok iv)) as Hu.
  rewrite ast_samp2tv_1000_usecs in Hu by lia.
  rewrite ast_tvcmp_usecs by done.
  destruct (Z.sgn_spec (usecs (ast_tvadd t0 (ast_samp2tv_1000 iv)) - usecs nw))
    as [[? ->]|[[? ->]|[? ->]]]; simpl; split; done || lia.
Qed.

(** ** The invariant *)

(** The identifiers held by the records of a list of addresses. *)
Definition ids_of (m : gmap addr sched) (l : list addr) : list Z :=
  omap (λ a, m !! a ≫= sched_id) l.

Lemma ids_of_frame m m' l :
  (∀ a, a ∈ l → m' !! a = m !! a) → ids_of m' l = ids_of m l.
Proof.
  induction l as [|a l IH]; intros Hl; [done|]. csimpl. unfold ids_of in *. csimpl.
  rewrite Hl by set_solver. rewrite IH by set_solver. done.
Qed.

#[export] Instance ids_of_proper m : Proper ((≡ₚ) ==> (≡ₚ)) (ids_of m).
Proof. intros l l' Hl. unfold ids_of. by rewrite Hl. Qed.

Lemma ids_of_app m l l' : ids_of m (l ++ l') = ids_of m l ++ ids_of m l'.
Proof. apply omap_app. Qed.

Lemma ids_of_cons m a l s i :
  m !! a = Some s → sched_id s = Some i → ids_of m (a :: l) = i :: ids_of m l.
Proof. intros Ha Hs. unfold ids_of. csimpl. by rewrite Ha; simpl; rewrite Hs. Qed.

Lemma elem_of_ids_of m l i :
  i ∈ ids_of m l ↔ ∃ a s, a ∈ l ∧ m !! a = Some s ∧ sched_id s = Some i.
Proof.
  unfold ids_of. rewrite list_elem_of_omap. split.
  - intros (a & Ha & (s & Hs & Hi)%bind_Some). eauto.
  - intros (a & s & Ha & Hs & Hi). exists a. by rewrite Hs.
Qed.

Section Inv.
Context {Q : Type} `{!PrioQueue addr Q} `{!PrioQueueLaws addr Q}.
Implicit Types c : ast_sched_context Q.

Definition elems c : list addr := pq_elems (sched_heap c).

(** [held]: the records that are in no list of the context, because their task
    is executing or because a deleting thread is about to release them. *)
Record sched_inv (held : list addr) c : Prop := {
  inv_nodup : NoDup (elems c ++ held ++ schedc c);
  inv_dom a : is_Some (mem c !! a) ↔ a ∈ elems c ++ held ++ schedc c;
  inv_live a s : a ∈ elems c ++ held → mem c !! a = Some s → is_Some (sched_id s);
  inv_cached a s : a ∈ schedc c → mem c !! a = Some s → sched_id s = None;
  inv_ids : id_queue c ++ ids_of (mem c) (elems c ++ held) ≡ₚ seqZ 1 (id_queue_size c);
  inv_id_max : 0 <= id_queue_size c <= INT_MAX;
  inv_cache : schedccnt c = Z.of_nat (length (schedc c)) ∧ schedccnt c <= SCHED_MAX_CACHE;
  inv_heap : pq_inv (cmp_of c) (task_ok (mem c) (tie_breaker c)) (sched_heap c);
  inv_tie : 0 <= tie_breaker c < 2 ^ 31;
  inv_ties a b s s' : a ∈ elems c → b ∈ elems c → mem c !! a = Some s →
    mem c !! b = Some s' → s_tie_breaker s = s_tie_breaker s' → a = b;
  inv_now : tv_ok (now c);
}.

(** What an operation that leaves the records of [l] alone keeps. *)
Record keeps (l : list addr) c c' : Prop := {
  keeps_mem a : a ∈ l → mem c' !! a = mem c !! a;
  keeps_now : now c' = now c;
  keeps_exec : currently_executing c' = currently_executing c;
  keeps_tid : executing_thread_id c' = executing_thread_id c;
  keeps_tie : tie_breaker c' = tie_breaker c;
}.

Lemma keeps_refl l c : keeps l c c.
Proof. by constructor. Qed.

Lemma keeps_trans l c1 c2 c3 : keeps l c1 c2 → keeps l c2 c3 → keeps l c1 c3.
Proof. intros [] []. constructor; naive_solver congruence. Qed.

Lemma keeps_sub l l' c c' : keeps l c c' → l' ⊆ l → keeps l' c c'.
Proof. intros [] ?. constructor; set_solver. Qed.

(** A heap only depends on the records it holds; [heap_retie] also changes the
    bound of the tie breakers. *)
Lemma heap_retie (m m' : gmap addr sched) T T' (q : Q) :
  pq_inv (sched_time_cmp m) (task_ok m T) q →
  (∀ a, a ∈ pq_elems q → m' !! a = m !! a) →
  (∀ a s, a ∈ pq_elems q → m !! a = Some s → s_tie_breaker s <= T') →
  pq_inv (sched_time_cmp m') (task_ok m' T') q.
Proof.
  intros Hq Hm HT. apply (pq_inv_ext _ _ _ _ _ Hq).
  - intros a b Ha Hb. unfold sched_time_cmp. by rewrite !Hm.
  - intros a Ha. destruct (pq_elems_ok _ _ _ _ Hq Ha) as (s & Hs & Hw & Ht & Hd).
    exists s. rewrite Hm by done. specialize (HT a s Ha Hs). split; [done|].
    split_and!; done || lia.
Qed.

Lemma heap_frame (m m' : gmap addr sched) T (q : Q) :
  pq_inv (sched_time_cmp m) (task_ok m T) q →
  (∀ a, a ∈ pq_elems q → m' !! a = m !! a) →
  pq_inv (sched_time_cmp m') (task_ok m' T) q.
Proof.
  intros Hq Hm. apply (heap_retie m m' T); [done..|]. intros a s Ha Hs.
  destruct (pq_elems_ok _ _ _ _ Hq Ha) as (s' & Hs' & _ & Ht & _). simplify_eq. lia.
Qed.

Lemma inv_elem held c a : sched_inv held c → a ∈ elems c →
  ∃ s i, mem c !! a = Some s ∧ sched_id s = Some i ∧ rec_ok (tie_breaker c) s.
Proof.
  intros Hc Ha. destruct (pq_elems_ok _ _ _ _ (inv_heap _ _ Hc) Ha) as (s & Hs & Hok).
  destruct (inv_live _ _ Hc a s) as [i Hi]; [set_solver|done|]. eauto 10.
Qed.

Lemma inv_held held c a : sched_inv held c → a ∈ held →
  ∃ s i, mem c !! a = Some s ∧ sched_id s = Some i.
Proof.
  intros Hc Ha. destruct (proj2 (inv_dom _ _ Hc a)) as [s Hs]; [set_solver|].
  destruct (inv_live _ _ Hc a s) as [i Hi]; [set_solver|done|]. eauto.
Qed.

Lemma inv_ids_NoDup held c : sched_inv held c →
  NoDup (id_queue c ++ ids_of (mem c) (elems c ++ held)).
Proof. intros Hc. rewrite (inv_ids _ _ Hc). apply NoDup_seqZ. Qed.

Lemma inv_id_inj held c a b s s' i :
  sched_inv held c → a ∈ elems c ++ held → b ∈ elems c ++ held →
  mem c !! a = Some s → mem c !! b = Some s' →
  sched_id s = Some i → sched_id s' = Some i → a = b.
Proof.
  intros Hc Ha Hb Hs Hs' Hi Hi'.
  pose proof (inv_ids_NoDup _ _ Hc) as (_ & _ & Hnd)%NoDup_app.
  destruct (decide (a = b)) as [|Hne]; [done|exfalso].
  apply elem_of_Permutation in Ha as (l & Hl).
  assert (b ∈ l) as Hbl by (rewrite Hl in Hb; set_solver).
  rewrite Hl, (ids_of_cons _ _ _ _ _ Hs Hi) in Hnd.
  apply NoDup_cons in Hnd as [Hn _]. apply Hn. apply elem_of_ids_of. eauto.
Qed.

Lemma inv_id_range held c i : sched_inv held c →
  i ∈ id_queue c ++ ids_of (mem c) (elems c ++ held) → 1 <= i <= id_queue_size c.
Proof.
  intros Hc Hi. rewrite (inv_ids _ _ Hc) in Hi. apply elem_of_seqZ in Hi. lia.
Qed.

Lemma length_ids_of held c : sched_inv held c →
  length (ids_of (mem c) (elems c ++ held)) = length (elems c ++ held).
Proof.
  intros Hc. apply omap_length_total. intros a Ha.
  destruct (proj2 (inv_dom _ _ Hc a)) as [s Hs]; [set_solver|].
  destruct (inv_live _ _ Hc a s Ha Hs) as [i Hi]. by rewrite Hs; simpl; rewrite Hi.
Qed.

Lemma inv_size_bound held c : sched_inv held c → 0 <= pq_size (sched_heap c) <= INT_MAX.
Proof.
  intros Hc. rewrite (pq_size_elems _ _ _ (inv_heap _ _ Hc)).
  pose proof (Permutation_length (inv_ids _ _ Hc)) as Hl.
  pose proof (length_ids_of _ _ Hc) as Hl'.
  rewrite !length_app in *. rewrite length_seqZ in Hl. pose proof (inv_id_max _ _ Hc).
  unfold elems in *. lia.
Qed.

(** *** Records and identifiers *)

Lemma sched_release_spec a held c :
  sched_inv (a :: held) c →
  ∃ c', sched_release c a = Some c' ∧ sched_inv held c' ∧
    sched_heap c' = sched_heap c ∧ keeps (elems c ++ held) c c'.
Proof.
  intros Hc. destruct (inv_held _ _ a Hc) as (s & i & Hs & Hi); [set_solver|].
  destruct Hc as [Hnd Hdom Hlive Hcach Hids Hmax [Hcnt Hcap] Hheap Htie Hties Hnow].
  assert (a ∉ elems c ++ held ++ schedc c) as Hfresh.
  { rewrite Permutation_middle_app in Hnd. by apply NoDup_cons in Hnd as [? _]. }
  assert (NoDup (elems c ++ held ++ schedc c)) as Hnd'.
  { rewrite Permutation_middle_app in Hnd. by apply NoDup_cons in Hnd as [_ ?]. }
  unfold sched_release. rewrite Hs; simpl. rewrite Hi; simpl.
  assert (∀ m', (∀ b, b ∈ elems c ++ held → m' !! b = mem c !! b) →
    ids_of m' (elems c ++ held) = ids_of (mem c) (elems c ++ held)) as Hfr
    by (intros; by apply ids_of_frame).
  assert ((id_queue c ++ [i]) ++ ids_of (mem c) (elems c ++ held)
    ≡ₚ seqZ 1 (id_queue_size c)) as Hids'.
  { rewrite <- Hids. rewrite !ids_of_app, (ids_of_cons _ _ _ _ _ Hs Hi).
    rewrite <- !(assoc_L (++)). f_equiv. simpl. by rewrite <- Permutation_middle. }
  destruct (schedccnt c <? SCHED_MAX_CACHE) eqn:Efull; unfold SCHED_MAX_CACHE in *;
    (eexists; split; [done|]; split; [|split; [done|]]).
  - constructor; simpl; unfold elems, set_mem in *; simpl in *; auto.
    + by rewrite <- !Permutation_middle, NoDup_cons.
    + intros b. rewrite lookup_insert_is_Some, Hdom. set_solver.
    + intros b s' Hb. rewrite lookup_insert_ne by set_solver. apply Hlive. set_solver.
    + intros b s' Hb. destruct (decide (a = b)) as [->|];
        [rewrite lookup_insert_eq; by intros [= <-]|].
      rewrite lookup_insert_ne by done. apply Hcach. set_solver.
    + rewrite Hfr; [done|]. intros. by rewrite lookup_insert_ne by set_solver.
    + unfold SCHED_MAX_CACHE. rewrite uwrap_small; lia.
    + apply (heap_frame (mem c)); [done|].
      intros b Hb; simpl. by rewrite lookup_insert_ne by set_solver.
    + intros b b' s1 s2 ? ?. rewrite !lookup_insert_ne by set_solver. by apply Hties.
  - constructor; simpl; auto. intros. by rewrite lookup_insert_ne by set_solver.
  - constructor; simpl; unfold elems, set_mem, sched_free in *; simpl in *; auto.
    + intros b. rewrite lookup_delete_is_Some, lookup_insert_is_Some, Hdom. set_solver.
    + intros b s' Hb. rewrite lookup_delete_ne, lookup_insert_ne by set_solver.
      apply Hlive. set_solver.
    + intros b s' Hb. rewrite lookup_delete_ne, lookup_insert_ne by set_solver.
      by apply Hcach.
    + rewrite Hfr; [done|]. intros. by rewrite lookup_delete_ne, lookup_insert_ne by set_solver.
    + apply (heap_frame (mem c)); [done|].
      intros b Hb; simpl. by rewrite lookup_delete_ne, lookup_insert_ne by set_solver.
    + intros b b' s1 s2 ? ?. rewrite !lookup_delete_ne, !lookup_insert_ne by set_solver.
      by apply Hties.
  - constructor; simpl; auto. intros. by rewrite lookup_delete_ne, lookup_insert_ne by set_solver.
Qed.

Lemma add_ids_loop_spec (todo al : nat) c :
  ∃ k : nat, (k <= todo)%nat ∧ (k <= al)%nat ∧
    add_ids_loop todo al c =
      upd_id_queue (λ q, q ++ seqZ (id_queue_size c + 1) (Z.of_nat k))
        (upd_id_queue_size (λ n, n + Z.of_nat k) c).
Proof.
  revert al c. induction todo as [|todo IH]; intros al c; simpl.
  - exists O. split_and!; [lia..|]. destruct c; unfold upd_id_queue, upd_id_queue_size; simpl.
    f_equal; [by rewrite app_nil_r|lia].
  - destruct al as [|al].
    { exists O. split_and!; [lia..|]. destruct c; unfold upd_id_queue, upd_id_queue_size; simpl.
      f_equal; [by rewrite app_nil_r|lia]. }
    edestruct (IH al) as (k & ? & ? & ->). exists (S k). split_and!; [lia..|].
    destruct c; unfold upd_id_queue, upd_id_queue_size; simpl. f_equal; [|lia].
    rewrite <- (assoc_L (++)). f_equal. rewrite (seqZ_cons _ (Z.of_nat (S k))) by lia. simpl.
    f_equal. f_equal; lia.
Qed.

(** The new identifiers continue the sequence; the queue is full only at
    [INT_MAX] identifiers. *)
Lemma add_ids_spec (al : nat) held c :
  sched_inv held c →
  ∃ n c', add_ids al c = (n, c') ∧ 0 <= n ∧ sched_inv held c' ∧
    sched_heap c' = sched_heap c ∧ mem c' = mem c ∧ keeps (elems c ++ held) c c' ∧
    schedc c' = schedc c ∧
    id_queue c' = id_queue c ++ seqZ (id_queue_size c + 1) n.
Proof.
  intros Hc. unfold add_ids. pose proof (inv_id_max _ _ Hc) as Hmax. unfold INT_MAX in *.
  set (ns := if s32 _ <? 0 then _ else _).
  assert (id_queue_size c <= ns <= 2147483647) as Hns.
  { unfold ns, ID_QUEUE_INCREMENT. destruct (decide (id_queue_size c + 16 <= 2147483647)).
    - rewrite swrap_small by lia. case_match; lia.
    - assert (s32 (id_queue_size c + 16) = id_queue_size c + 16 - 2 ^ 32) as ->.
      { unfold swrap. rewrite <- (Z.mod_unique_pos _ _ 1 (id_queue_size c + 16 - 2 ^ 31)); lia. }
      case_match; lia. }
  destruct (add_ids_loop_spec (Z.to_nat (ns - id_queue_size c)) al c) as (k & Hk & _ & ->).
  eexists _, _. split; [done|]. simpl. replace (id_queue_size c + Z.of_nat k - id_queue_size c) with
    (Z.of_nat k) by lia. split_and!; auto; [lia| |].
  - destruct Hc. constructor; simpl; auto; [|unfold INT_MAX; lia].
    unfold elems in *; simpl in *.
    rewrite <- (assoc_L (++)), (Permutation_app_comm (seqZ _ _)), (assoc_L (++)), inv_ids0.
    rewrite (seqZ_app 1 (id_queue_size c) (Z.of_nat k)) by lia.
    replace (1 + id_queue_size c) with (id_queue_size c + 1) by lia. done.
  - by constructor.
Qed.

(** Writing a field of a record that no list of the context holds. *)
Lemma inv_set_held a held c s s' :
  sched_inv (a :: held) c → mem c !! a = Some s → sched_id s' = sched_id s →
  sched_inv (a :: held) (set_mem a s' c) ∧ ∀ b, a ≠ b → mem (set_mem a s' c) !! b = mem c !! b.
Proof.
  intros Hc Hs Hid. split; [|intros; by apply lookup_insert_ne].
  pose proof (inv_nodup _ _ Hc) as Hnd. rewrite Permutation_middle_app in Hnd.
  apply NoDup_cons in Hnd as [Hfr _].
  destruct Hc. constructor; unfold elems, set_mem in *; simpl in *; auto.
  - intros b. rewrite lookup_insert_is_Some, inv_dom0. set_solver.
  - intros b r Hb. destruct (decide (a = b)) as [<-|].
    + rewrite lookup_insert_eq. intros [= <-]. rewrite Hid. by apply (inv_live0 a).
    + rewrite lookup_insert_ne by done. by apply inv_live0.
  - intros b r Hb. rewrite lookup_insert_ne by set_solver. by apply inv_cached0.
  - rewrite <- inv_ids0. f_equiv. apply reflexive_eq. unfold ids_of.
    apply list_omap_ext, Forall2_same_length_lookup_2; [done|].
    intros i b b' Hb Hb'. simplify_eq. destruct (decide (a = b)) as [<-|].
    + rewrite lookup_insert_eq, Hs. simpl. done.
    + by rewrite lookup_insert_ne.
  - apply (heap_frame (mem c)); [done|].
    intros b Hb; simpl. by rewrite lookup_insert_ne by set_solver.
  - intros b b' r r' ? ?. rewrite !lookup_insert_ne by set_solver. by apply inv_ties0.
Qed.

(** A record without identifier that no list holds yet gets the first free
    identifier ... *)
Lemma inv_own a held c s i rest :
  sched_inv held c → mem c !! a = None → id_queue c = i :: rest →
  sched_inv (a :: held)
    (set_mem a (set_sched_id_of (Some i) s) (upd_id_queue (λ _, rest) c)).
Proof.
  intros Hc Ha Hq.
  assert (a ∉ elems c ++ held ++ schedc c) as Hfr.
  { intros Hin. apply (inv_dom _ _ Hc) in Hin as [? ?]. congruence. }
  destruct Hc. constructor; unfold elems, set_mem in *; simpl in *; auto.
  - rewrite <- Permutation_middle. by apply NoDup_cons.
  - intros b. rewrite lookup_insert_is_Some, inv_dom0. set_solver.
  - intros b r Hb. destruct (decide (a = b)) as [<-|].
    + rewrite lookup_insert_eq. by intros [= <-].
    + rewrite lookup_insert_ne by done. apply inv_live0. set_solver.
  - intros b r Hb. rewrite lookup_insert_ne by set_solver. by apply inv_cached0.
  - rewrite <- inv_ids0, Hq. rewrite <- (Permutation_middle _ held a).
    rewrite (ids_of_cons _ _ _ (set_sched_id_of (Some i) s) i) by (done || apply lookup_insert_eq).
    rewrite (ids_of_frame (mem c)) by (intros; by rewrite lookup_insert_ne by set_solver).
    by rewrite <- Permutation_middle.
  - apply (heap_frame (mem c)); [done|].
    intros b Hb; simpl. by rewrite lookup_insert_ne by set_solver.
  - intros b b' r r' ? ?. rewrite !lookup_insert_ne by set_solver. by apply inv_ties0.
Qed.

(** ... or goes to the cache or back to the allocator. *)
Lemma release_unowned a held c s :
  sched_inv held c → mem c !! a = None → sched_id s = None →
  ∃ c', sched_release (set_mem a s c) a = Some c' ∧ sched_inv held c' ∧
    sched_heap c' = sched_heap c ∧ keeps (elems c ++ held) c c'.
Proof.
  intros Hc Ha Hid.
  assert (a ∉ elems c ++ held ++ schedc c) as Hfr.
  { intros Hin. apply (inv_dom _ _ Hc) in Hin as [? ?]. congruence. }
  unfold sched_release, set_mem; simpl. rewrite lookup_insert_eq; simpl. rewrite Hid; simpl.
  destruct (schedccnt c <? SCHED_MAX_CACHE) eqn:Efull;
    (eexists; split; [done|]; split; [|split; [done|]]).
  - destruct Hc. constructor; unfold elems, SCHED_MAX_CACHE in *; simpl in *; auto.
    + rewrite <- !Permutation_middle. by apply NoDup_cons.
    + intros b. rewrite lookup_insert_is_Some, inv_dom0. set_solver.
    + intros b r Hb. rewrite lookup_insert_ne by set_solver. by apply inv_live0.
    + intros b r Hb. destruct (decide (a = b)) as [<-|];
        [rewrite lookup_insert_eq; by intros [= <-]|].
      rewrite lookup_insert_ne by done. apply inv_cached0. set_solver.
    + by rewrite (ids_of_frame (mem c)) by (intros; by rewrite lookup_insert_ne by set_solver).
    + unfold SCHED_MAX_CACHE. rewrite uwrap_small; lia.
    + apply (heap_frame (mem c)); [done|].
      intros b Hb; simpl. by rewrite lookup_insert_ne by set_solver.
    + intros b b' r r' ? ?. rewrite !lookup_insert_ne by set_solver. by apply inv_ties0.
  - constructor; simpl; auto. intros. by rewrite lookup_insert_ne by set_solver.
  - unfold sched_free, upd_mem; simpl. rewrite delete_insert_id by done. by destruct c.
  - unfold sched_free. constructor; simpl; auto. intros. by rewrite delete_insert_id.
Qed.

Lemma add_ids_set_mem al a s c :
  add_ids al (set_mem a s c) = ((add_ids al c).1, set_mem a s (add_ids al c).2).
Proof.
  unfold add_ids. simpl. set (n := Z.to_nat _). clearbody n.
  assert (add_ids_loop n al (set_mem a s c) = set_mem a s (add_ids_loop n al c)) as ->; [|done].
  revert al c. induction n as [|n IH]; intros [|al] c; simpl; auto. by rewrite <- IH.
Qed.

Lemma alloc_with_id_spec ids a held c s :
  sched_inv held c → mem c !! a = None → sched_id s = None →
  ∃ r c', alloc_with_id ids (set_mem a s c) a = Some (r, c') ∧
    sched_heap c' = sched_heap c ∧ keeps (elems c ++ held) c c' ∧
    match r with
    | None => sched_inv held c' ∧ id_queue c = []
    | Some a' => a' = a ∧ sched_inv (a :: held) c' ∧
        (∃ i, mem c' !! a = Some (set_sched_id_of (Some i) s))
    end.
Proof.
  intros Hc Ha Hid. unfold alloc_with_id, set_sched_id.
  assert (mem (set_mem a s c) !! a = Some s) as -> by apply lookup_insert_eq.
  cbn [mbind option_bind]. change (id_queue (set_mem a s c)) with (id_queue c).
  assert (∀ c1 i rest, sched_inv held c1 → mem c1 !! a = None → id_queue c1 = i :: rest →
    sched_heap c1 = sched_heap c → keeps (elems c ++ held) c c1 →
    sched_heap (set_mem a (set_sched_id_of (Some i) s) (upd_id_queue (λ _, rest) c1))
      = sched_heap c ∧
    keeps (elems c ++ held) c
      (set_mem a (set_sched_id_of (Some i) s) (upd_id_queue (λ _, rest) c1)) ∧
    sched_inv (a :: held) (set_mem a (set_sched_id_of (Some i) s) (upd_id_queue (λ _, rest) c1)))
    as Hown.
  { intros c1 i rest H1 Hn Hq Hh [K1 K2 K3 K4 K5]. split_and!; [done| |by apply inv_own].
    constructor; simpl; auto. intros b Hb. rewrite lookup_insert_ne; [by apply K1|].
    intros <-. rewrite <- K1 in Ha by done.
    assert (is_Some (mem c1 !! a)) as [? ?]; [|congruence]. apply (inv_dom _ _ H1).
    unfold elems in *. rewrite Hh. set_solver. }
  case_bool_decide as Hq.
  - rewrite add_ids_set_mem.
    destruct (add_ids_spec ids held c Hc) as (n & c1 & -> & Hn & H1 & Hh & Hm & HK & Hsc & Hq1).
    simpl in *. rewrite Hq in Hq1; simpl in Hq1.
    destruct (decide (n = 0)) as [->|Hn0]; simpl.
    + destruct (release_unowned a held c1 s) as (c2 & Hr & H2 & Hh2 & K2);
        [done|by rewrite Hm|done|]. rewrite Hr; simpl.
      eexists _, _. split; [done|]. split_and!; auto; [congruence|].
      unfold elems in *. rewrite Hh in K2. by eapply keeps_trans.
    + rewrite (proj2 (Z.eqb_neq n 0)) by done. simpl.
      rewrite (seqZ_cons _ n) in Hq1 by lia. rewrite Hq1; simpl. eexists (Some a), _. split; [done|].
      unfold set_mem; simpl. unfold upd_mem, upd_id_queue; simpl. rewrite insert_insert_eq.
      edestruct (Hown c1) as (? & ? & ?); eauto; [by rewrite Hm|].
      split_and!; eauto. eexists. apply lookup_insert_eq.
  - destruct (id_queue c) as [|i rest] eqn:Eq; [done|]. simpl.
    eexists (Some a), _. split; [done|].
    unfold set_mem; simpl. unfold upd_mem, upd_id_queue; simpl. rewrite insert_insert_eq.
    edestruct (Hown c) as (? & ? & ?); eauto using keeps_refl.
    split_and!; eauto. eexists. apply lookup_insert_eq.
Qed.

(** Taking a record from the cache. *)
Lemma inv_uncache a rest held c :
  sched_inv held c → schedc c = a :: rest →
  ∃ s, mem c !! a = Some s ∧ sched_id s = None ∧
    sched_inv held (upd_mem (delete a)
      (upd_schedccnt (λ n, u32 (n - 1)) (upd_schedc (λ _, rest) c))).
Proof.
  intros Hc Hsc. destruct (proj2 (inv_dom _ _ Hc a)) as [s Hs]; [rewrite Hsc; set_solver|].
  exists s. split; [done|]. split; [apply (inv_cached _ _ Hc a); [rewrite Hsc; set_solver|done]|].
  pose proof (inv_nodup _ _ Hc) as Hnd. rewrite Hsc in Hnd.
  rewrite <- !Permutation_middle in Hnd. apply NoDup_cons in Hnd as [Hfr Hnd].
  destruct Hc as [? Hdom Hlive Hcach ? ? [Hcnt Hcap]]. rewrite Hsc in *.
  constructor; unfold elems in *; simpl in *; auto.
  - intros b. rewrite lookup_delete_is_Some, Hdom. set_solver.
  - intros b r Hb. rewrite lookup_delete_ne by set_solver. by apply Hlive.
  - intros b r Hb. rewrite lookup_delete_ne by set_solver. apply Hcach. set_solver.
  - by rewrite (ids_of_frame (mem c)) by (intros; by rewrite lookup_delete_ne by set_solver).
  - unfold SCHED_MAX_CACHE in *. rewrite uwrap_small; lia.
  - apply (heap_frame (mem c)); [done|].
    intros b Hb; simpl. by rewrite lookup_delete_ne by set_solver.
  - intros b b' r r' ? ?. rewrite !lookup_delete_ne by set_solver. eauto.
Qed.

Lemma sched_alloc_spec o held c :
  sched_inv held c → (∀ a, new_sched o = Some a → mem c !! a = None) →
  ∃ r c', sched_alloc o c = Some (r, c') ∧
    sched_heap c' = sched_heap c ∧ keeps (elems c ++ held) c c' ∧
    match r with
    | None => sched_inv held c' ∧
        (schedc c = [] ∧ new_sched o = None ∨ id_queue c = [])
    | Some a => sched_inv (a :: held) c' ∧ a ∉ elems c ++ held
    end.
Proof.
  intros Hc Hfresh. unfold sched_alloc. destruct (schedc c) as [|a rest] eqn:Hsc.
  - destruct (new_sched o) as [a|] eqn:Ho.
    + destruct (alloc_with_id_spec (new_ids o) a held c calloc_sched) as (r & c' & -> & ? & ? & Hr);
        [done|by apply Hfresh|done|].
      eexists _, _. split; [done|]. split_and!; auto. destruct r; [|naive_solver].
      destruct Hr as (-> & ? & _). split; [done|]. intros Hin.
      assert (is_Some (mem c !! a)) as [? ?]; [apply (inv_dom _ _ Hc); set_solver|].
      by rewrite Hfresh in *.
    + eexists None, _. split; [done|]. split_and!; auto using keeps_refl.
  - destruct (inv_uncache a rest held c Hc Hsc) as (s & Hs & Hid & Hinv).
    edestruct (alloc_with_id_spec (new_ids o) a held) as (r & c' & Heq & ? & K & Hr);
      [exact Hinv|apply lookup_delete_eq|exact Hid|].
    unfold set_mem in Heq. unfold upd_mem, upd_schedccnt, upd_schedc in *; simpl in *.
    rewrite insert_delete_id in Heq by done. rewrite Heq. eexists _, _. split; [done|].
    assert (a ∉ elems c ++ held) as Hfr.
    { pose proof (inv_nodup _ _ Hc) as Hnd. rewrite Hsc in Hnd.
      rewrite <- !Permutation_middle in Hnd. apply NoDup_cons in Hnd as [Hfr Hnd]. set_solver. }
    split_and!; auto.
    + destruct K; constructor; auto. unfold elems in *; simpl in *. intros b Hb.
      rewrite keeps_mem0 by done. rewrite lookup_delete_ne by set_solver. done.
    + destruct r; [|naive_solver]. destruct Hr as (-> & ? & _). done.
Qed.

(** *** The abstract view *)

(** The scheduled tasks by identifier. *)
Definition pending c : gmap Z sched :=
  list_to_map (omap (λ a, s ← mem c !! a; i ← sched_id s; Some (i, s)) (elems c)).

Lemma pending_lookup held c i s :
  sched_inv held c →
  pending c !! i = Some s ↔ ∃ a, a ∈ elems c ∧ mem c !! a = Some s ∧ sched_id s = Some i.
Proof.
  intros Hc. unfold pending. rewrite <- elem_of_list_to_map.
  - rewrite list_elem_of_omap. split.
    + intros (a & Ha & (r & Hr & (j & Hj & [= -> ->])%bind_Some)%bind_Some). eauto.
    + intros (a & Ha & Hs & Hi). exists a. rewrite Hs; simpl. rewrite Hi. done.
  - assert (∀ l, (omap (λ a, s ← mem c !! a; i ← sched_id s; Some (i, s)) l).*1
      = ids_of (mem c) l) as ->.
    { induction l as [|a l IH]; [done|]. unfold ids_of. csimpl.
      destruct (mem c !! a) as [r|]; csimpl; [|done].
      destruct (sched_id r) as [j|]; csimpl; [by f_equal|done]. }
    pose proof (inv_ids_NoDup _ _ Hc) as (_ & _ & Hnd)%NoDup_app.
    rewrite ids_of_app in Hnd. by apply NoDup_app in Hnd as (? & _ & _).
Qed.

Lemma pending_None held c i :
  sched_inv held c →
  pending c !! i = None ↔ ∀ a s, a ∈ elems c → mem c !! a = Some s → sched_id s ≠ Some i.
Proof.
  intros Hc. split.
  - intros Hn a s Ha Hs Hi. assert (pending c !! i = Some s); [|congruence].
    apply (pending_lookup held); eauto.
  - intros Hn. apply eq_None_not_Some. intros [s (a & ? & ? & ?)%(pending_lookup held)]; [|done].
    naive_solver.
Qed.

(** The view only depends on the queued records. *)
Lemma pending_frame held c c' :
  sched_inv held c → (∀ a, a ∈ elems c' ↔ a ∈ elems c) →
  (∀ a, a ∈ elems c → mem c' !! a = mem c !! a) →
  ∀ held', sched_inv held' c' → pending c' = pending c.
Proof.
  intros Hc He Hm held' Hc'. apply map_eq. intros i. apply option_eq. intros s.
  rewrite (pending_lookup _ c'), (pending_lookup _ c) by done. split.
  - intros (a & Ha & Hs & Hi). exists a. rewrite He in Ha. by rewrite <- Hm.
  - intros (a & Ha & Hs & Hi). exists a. rewrite He, Hm by done. done.
Qed.

(** A queued record more is a binding more ... *)
Lemma pending_insert held held' c c' a s i :
  sched_inv held c → sched_inv held' c' → a ∉ elems c → elems c' ≡ₚ a :: elems c →
  (∀ b, b ∈ elems c → mem c' !! b = mem c !! b) →
  mem c' !! a = Some s → sched_id s = Some i →
  pending c !! i = None ∧ pending c' = <[i := s]> (pending c).
Proof.
  intros Hc Hc' Hfr He Hm Hs Hi.
  assert (pending c !! i = None) as Hn.
  { apply (pending_None held); [done|]. intros b r Hb Hr Hj.
    assert (a = b); [|set_solver].
    apply (inv_id_inj held' c' a b s r i); auto; [rewrite He; set_solver..|by rewrite Hm]. }
  split; [done|]. apply map_eq. intros j. apply option_eq. intros r.
  rewrite (pending_lookup _ c') by done.
  destruct (decide (i = j)) as [->|Hne].
  - rewrite lookup_insert_eq. split.
    + intros (b & Hb & Hr & Hj). assert (a = b) as <-; [|congruence].
      apply (inv_id_inj held' c' a b s r j); auto; [rewrite He; set_solver|set_solver].
    + intros [= <-]. exists a. rewrite He. split; [set_solver|done].
  - rewrite lookup_insert_ne, (pending_lookup _ c) by done. split.
    + intros (b & Hb & Hr & Hj). assert (a ≠ b) by (intros <-; congruence).
      rewrite He in Hb. exists b. rewrite Hm in Hr by set_solver. split; [set_solver|done].
    + intros (b & Hb & Hr & Hj). exists b. rewrite He, Hm by done. split; [set_solver|done].
Qed.

(** ... and one less, a binding less. *)
Lemma pending_delete held held' c c' a s i :
  sched_inv held c → sched_inv held' c' → elems c ≡ₚ a :: elems c' →
  (∀ b, b ∈ elems c' → mem c' !! b = mem c !! b) →
  mem c !! a = Some s → sched_id s = Some i →
  pending c !! i = Some s ∧ pending c' = delete i (pending c).
Proof.
  intros Hc Hc' He Hm Hs Hi.
  assert (a ∉ elems c').
  { pose proof (pq_elems_NoDup _ _ _ (inv_heap _ _ Hc)) as Hnd. fold (elems c) in Hnd.
    rewrite He in Hnd. by apply NoDup_cons in Hnd as [? _]. }
  split; [apply (pending_lookup held); [done|]; exists a; rewrite He; split; [set_solver|done]|].
  apply map_eq. intros j. apply option_eq. intros r.
  rewrite (pending_lookup _ c') by done. rewrite lookup_delete_Some, (pending_lookup _ c) by done.
  split.
  - intros (b & Hb & Hr & Hj). rewrite Hm in Hr by done. split.
    + intros <-. assert (a = b); [|set_solver].
      apply (inv_id_inj held c a b s r i); auto; rewrite He; set_solver.
    + exists b. rewrite He. split; [set_solver|done].
  - intros (Hne & b & Hb & Hr & Hj). assert (a ≠ b) by (intros <-; congruence).
    rewrite He in Hb. exists b. rewrite Hm by set_solver. split; [set_solver|done].
Qed.

(** *** Queueing *)

(** A held record that enters the heap with a fresh tie breaker [T]. *)
Lemma inv_enqueue a held c c' s T :
  sched_inv (a :: held) c → mem c !! a = Some s →
  mem c' = <[a := set_tie T s]> (mem c) → elems c' ≡ₚ a :: elems c →
  pq_inv (cmp_of c') (task_ok (mem c') (tie_breaker c')) (sched_heap c') →
  0 <= tie_breaker c' < 2 ^ 31 →
  (∀ b r, b ∈ elems c → mem c !! b = Some r → s_tie_breaker r < T) →
  now c' = now c → schedc c' = schedc c → schedccnt c' = schedccnt c →
  id_queue c' = id_queue c → id_queue_size c' = id_queue_size c → sched_inv held c'.
Proof.
  intros Hc Hs Hm He Hq HT Hlt En Es Ecn Eq Eqs.
  assert (elems c' ++ held ≡ₚ elems c ++ a :: held) as Hall.
  { rewrite He. simpl. apply Permutation_middle. }
  assert (elems c' ++ held ++ schedc c ≡ₚ elems c ++ (a :: held) ++ schedc c) as Hall'.
  { by rewrite !(assoc_L (++)), Hall. }
  destruct (inv_set_held a held c s (set_tie T s) Hc Hs eq_refl) as [Hc2 _].
  pose proof (inv_nodup _ _ Hc) as Hnd. rewrite Permutation_middle_app in Hnd.
  apply NoDup_cons in Hnd as [Hfr _].
  destruct Hc2. constructor; rewrite ?En, ?Es, ?Ecn, ?Eq, ?Eqs; auto.
  - by rewrite Hall'.
  - intros b. rewrite Hall', Hm. apply inv_dom0.
  - intros b r. rewrite Hall, Hm. apply inv_live0.
  - intros b r. rewrite Hm. apply inv_cached0.
  - by rewrite Hall, Hm.
  - intros b b' r r'. rewrite He, Hm. intros [->|Hb]%elem_of_cons [->|Hb']%elem_of_cons; auto;
      rewrite ?lookup_insert_eq.
    + rewrite lookup_insert_ne by set_solver. intros [= <-] Hr'. simpl.
      specialize (Hlt _ _ Hb' Hr'). lia.
    + rewrite lookup_insert_ne by set_solver. intros Hr [= <-]. simpl.
      specialize (Hlt _ _ Hb Hr). lia.
    + intros Hr Hr'. by apply inv_ties0.
Qed.

(** A record that gets a tie breaker but not into the heap. *)
Lemma inv_unqueued a held c c' s T :
  sched_inv (a :: held) c → mem c !! a = Some s →
  mem c' = <[a := set_tie T s]> (mem c) → sched_heap c' = sched_heap c →
  pq_inv (cmp_of c') (task_ok (mem c') (tie_breaker c')) (sched_heap c') →
  0 <= tie_breaker c' < 2 ^ 31 →
  now c' = now c → schedc c' = schedc c → schedccnt c' = schedccnt c →
  id_queue c' = id_queue c → id_queue_size c' = id_queue_size c → sched_inv (a :: held) c'.
Proof.
  intros Hc Hs Hm Hh Hq HT En Es Ecn Eq Eqs.
  destruct (inv_set_held a held c s (set_tie T s) Hc Hs eq_refl) as [Hc2 _].
  assert (elems c' = elems c) as He by (unfold elems; by rewrite Hh).
  destruct Hc2. constructor; rewrite ?En, ?Es, ?Ecn, ?Eq, ?Eqs, ?He, ?Hm; auto.
  by rewrite <- Hm.
Qed.

Lemma schedule_spec g a held c s :
  sched_inv (a :: held) c → mem c !! a = Some s → tv_ok (when s) → deleted s = false →
  tie_breaker c + 1 < 2 ^ 31 →
  ∃ c', schedule g c a = Some c' ∧
    (sched_inv held c' ∧ elems c' ≡ₚ a :: elems c ∨
     g = false ∧ sched_inv (a :: held) c' ∧ elems c' = elems c) ∧
    mem c' = <[a := set_tie (tie_breaker c') s]> (mem c) ∧
    now c' = now c ∧ currently_executing c' = currently_executing c ∧
    executing_thread_id c' = executing_thread_id c ∧
    (∀ b r, b ∈ elems c → mem c !! b = Some r → s_tie_breaker r < tie_breaker c') ∧
    tie_breaker c' <= tie_breaker c + 1 ∧ id_queue_size c' = id_queue_size c.
Proof.
  intros Hc Hs Hw Hd HT. pose proof (inv_tie _ _ Hc) as Htie.
  pose proof (inv_size_bound _ _ Hc) as Hsz. unfold INT_MAX in Hsz.
  pose proof (inv_nodup _ _ Hc) as Hnd. rewrite Permutation_middle_app in Hnd.
  apply NoDup_cons in Hnd as [Hfr Hnd].
  unfold schedule.
  set (c1 := if highwater c <=? _ then _ else c).
  set (c2 := if negb _ then upd_tie_breaker _ c1 else _).
  assert (mem c2 = mem c ∧ sched_heap c2 = sched_heap c ∧ now c2 = now c ∧
    currently_executing c2 = currently_executing c ∧
    executing_thread_id c2 = executing_thread_id c ∧ schedc c2 = schedc c ∧
    schedccnt c2 = schedccnt c ∧ id_queue c2 = id_queue c ∧
    id_queue_size c2 = id_queue_size c) as (E1&E2&E3&E4&E5&E6&E7&E8&E9)
    by (unfold c2, c1; repeat case_match; done).
  assert (0 <= tie_breaker c2 <= tie_breaker c + 1 ∧
    (∀ b r, b ∈ elems c → mem c !! b = Some r → s_tie_breaker r < tie_breaker c2)) as [HT2 Hlt].
  { assert (tie_breaker c1 = tie_breaker c) as Ec1 by (unfold c1; case_match; done).
    assert (∀ b r, b ∈ elems c → mem c !! b = Some r → s_tie_breaker r <= tie_breaker c).
    { intros b r Hb Hr. destruct (inv_elem _ _ b Hc Hb) as (r' & ? & ? & ? & _ & ? & _).
      simplify_eq. lia. }
    unfold c2. destruct (Z.eqb_spec (pq_size (sched_heap c)) 0) as [H0|H0]; simpl.
    - split; [lia|]. rewrite (pq_size_elems _ _ _ (inv_heap _ _ Hc)) in H0.
      fold (elems c) in H0. destruct (elems c); [set_solver|simpl in *; lia].
    - rewrite Ec1, uwrap_small by lia. split; [lia|]. intros. assert (s_tie_breaker r <= tie_breaker c); eauto; lia. }
  clearbody c2. clear c1. rewrite E1, Hs. cbn [mbind option_bind]. unfold cmp_of, set_mem. simpl.
  rewrite E1, E2.
  set (m' := <[a := _]> (mem c)).
  assert (∀ b, b ∈ elems c → m' !! b = mem c !! b) as Hm'.
  { intros b Hb. unfold m'. rewrite lookup_insert_ne by set_solver. done. }
  pose proof (cmp_order m' (tie_breaker c2)) as Hord.
  destruct (pq_push_ok (sched_time_cmp m') (task_ok m' (tie_breaker c2)) (CmpOrder0 := Hord ltac:(lia))
    g (sched_heap c) a) as (rc & q & -> & Hq & Hcase).
  - apply (heap_retie (mem c) _ (tie_breaker c)); [apply (inv_heap _ _ Hc)|done|].
    intros b r Hb Hr. specialize (Hlt b r Hb Hr). lia.
  - exists (set_tie (tie_breaker c2) s). split; [apply lookup_insert_eq|].
    unfold rec_ok; simpl. split_and!; done || lia.
  - unfold elems in *. set_solver.
  - eexists. split; [done|]. split; [|split_and!; auto; simpl; try congruence; try lia].
    destruct Hcase as [[-> Hperm]|(_ & -> & ->)]; [left; fold (elems c) in Hperm|right].
    + split; [|done].
      apply (inv_enqueue a held c _ s (tie_breaker c2)); simpl; try done; try congruence; try lia.
      unfold cmp_of; simpl. by rewrite E1.
    + split; [done|]. split; [|done].
      apply (inv_unqueued a held c _ s (tie_breaker c2)); simpl; try done; try congruence; try lia.
      unfold cmp_of; simpl. by rewrite E1.
Qed.

Lemma inv_dequeue a held c q :
  sched_inv held c → elems c ≡ₚ a :: pq_elems q →
  pq_inv (cmp_of c) (task_ok (mem c) (tie_breaker c)) q →
  sched_inv (a :: held) (upd_sched_heap (λ _, q) c).
Proof.
  intros Hc He Hq.
  assert (elems c ++ held ≡ₚ pq_elems q ++ a :: held) as Hall.
  { rewrite He. simpl. apply Permutation_middle. }
  assert (elems c ++ held ++ schedc c ≡ₚ pq_elems q ++ (a :: held) ++ schedc c) as Hall'.
  { by rewrite !(assoc_L (++)), Hall. }
  destruct Hc. constructor; simpl; auto; fold (elems c) in *.
  - by rewrite <- Hall'.
  - intros b. rewrite inv_dom0. by rewrite Hall'.
  - intros b r Hb. apply inv_live0. by rewrite Hall.
  - by rewrite <- Hall.
  - intros b b' r r' Hb Hb'. apply inv_ties0; rewrite He; set_solver.
Qed.

(** What an addition does: [lost] is the record that did not get into the heap,
    for want of memory, and keeps its identifier. *)
Definition add_post o held c iv cb dat var (id : Z) c' (lost : list addr) : Prop :=
    sched_inv (lost ++ held) c' ∧
    now c' = now c ∧ currently_executing c' = currently_executing c ∧
    executing_thread_id c' = executing_thread_id c ∧
    (∀ a, a ∈ elems c ++ held → mem c' !! a = mem c !! a) ∧
    (∀ a, a ∈ elems c → a ∈ elems c') ∧
    (id = -1 ∧ lost = [] ∧ pending c' = pending c ∧ elems c' = elems c ∧
       (schedc c = [] ∧ new_sched o = None ∨ id_queue c = []) ∨
     1 <= id ∧ pending c !! id = None ∧ (id ∉ ids_of (mem c) held) ∧
     (heap_grows o = false ∧ (∃ a, lost = [a]) ∧ pending c' = pending c ∨
      lost = [] ∧ ∃ s, pending c' = <[id := s]> (pending c) ∧ callback s = cb ∧ data s = dat ∧
       resched s = iv ∧ variable s = var ∧ deleted s = false ∧ tv_ok (when s) ∧
       usecs (when s) = usecs (now c) + iv * 1000 ∧
       (∀ j r, pending c !! j = Some r → s_tie_breaker r < s_tie_breaker s))).

Lemma ast_sched_add_variable_spec o held c iv cb dat var :
  sched_inv held c → (∀ a, new_sched o = Some a → mem c !! a = None) →
  tie_breaker c + 1 < 2 ^ 31 → 0 <= iv < 2 ^ 31 →
  ∃ id c' lost, ast_sched_add_variable o c iv cb dat var = Some (id, c') ∧
    add_post o held c iv cb dat var id c' lost.
Proof.
  intros Hc Hfresh HT Hiv. unfold ast_sched_add_variable, add_post.
  destruct (sched_alloc_spec o held c Hc Hfresh) as (r & c1 & -> & Hh1 & K1 & Hr).
  cbn [mbind option_bind]. destruct r as [a|].
  2:{ destruct Hr as [H1 Hfail]. exists (-1), c1, []. split; [done|].
      assert (elems c1 = elems c) as He by (unfold elems; by rewrite Hh1).
      split; [done|]. destruct K1 as [Km Kn Ke Kt Etie]. split_and!; auto; [by rewrite He|].
      left. split_and!; auto. apply (pending_frame held c c1 Hc) with (held' := held); auto.
      - by rewrite He.
      - intros b Hb. apply Km. set_solver. }
  destruct Hr as [H1 Hna]. destruct K1 as [Km Kn Ke Kt Etie].
  assert (elems c1 = elems c) as He1 by (unfold elems; by rewrite Hh1).
  destruct (inv_held _ _ a H1) as (s & i & Hs & Hi); [set_solver|]. simpl. rewrite Hs. simpl.
  set (t := sched_settime _ _ _).
  destruct (sched_settime_spec (now c1) (Tv 0 0) iv) as [Ht Htu];
    [rewrite Kn; apply (inv_now _ _ Hc)|done|lia|]. fold t in Ht, Htu.
  set (s' := Sched _ t _ _ _ _ _ _ _).
  assert (sched_inv (a :: held) (upd_eventcnt (λ n, u32 (n + 1)) c1)) as H1' by
    (destruct H1; constructor; done).
  destruct (inv_set_held a held _ s s' H1' Hs eq_refl) as [H2 Hm2].
  destruct (schedule_spec (heap_grows o) a held _ s' H2) as (c3 & Hsch & H3 & Hm3 & En3 & Ee3 & Et3 & Hlt & _ & _);
    [apply lookup_insert_eq|done|done|simpl; rewrite Etie; lia|].
  rewrite Hsch. cbn [mbind option_bind]. rewrite Hm3, lookup_insert_eq.
  cbn [mbind option_bind]. simpl sched_id. rewrite Hi. cbn [mbind option_bind].
  assert (∀ b, b ∈ elems c ++ held → mem c3 !! b = mem c !! b) as Hm.
  { intros b Hb. rewrite Hm3, lookup_insert_ne by set_solver. simpl.
    rewrite lookup_insert_ne by set_solver. by apply Km. }
  change (elems (set_mem _ _ _)) with (elems c1) in *. rewrite He1 in *.
  set (s3 := set_tie (tie_breaker c3) s') in *.
  assert (mem c3 !! a = Some s3) as Hs3 by (rewrite Hm3; apply lookup_insert_eq).
  assert (pending c !! i = None) as Hpn.
  { apply (pending_None held); [done|]. intros b r Hb Hr Hj.
    assert (b ∈ elems c ++ held) as Hbh by (apply elem_of_app; by left).
    assert (a = b) as <-; [|done]. apply (inv_id_inj (a :: held) c1 a b s r i); auto.
    - apply elem_of_app. right. apply list_elem_of_here.
    - rewrite He1. apply elem_of_app. by left.
    - by rewrite Km. }
  assert (1 <= i) as Hi1.
  { apply (inv_id_range (a :: held) c1 i H1). rewrite ids_of_app.
    rewrite (ids_of_cons _ _ _ _ _ Hs Hi). set_solver. }
  assert (i ∉ ids_of (mem c) held) as Hih.
  { pose proof (inv_ids_NoDup _ _ H1) as Hnd. rewrite ids_of_app, (ids_of_cons _ _ _ _ _ Hs Hi) in Hnd.
    rewrite <- !Permutation_middle in Hnd. apply NoDup_cons in Hnd as [Hnd _].
    rewrite <- (ids_of_frame (mem c) (mem c1)) by set_solver. set_solver. }
  destruct H3 as [[H3 He3]|(Hg & H3 & He3)].
  - destruct (pending_insert held held c c3 a s3 i) as [_ Hpi]; auto; [set_solver|set_solver|].
    exists i, c3, []. split; [done|]. split; [done|].
    split_and!; [simpl in *; congruence..|done|intros b Hb; rewrite He3; set_solver|].
    right. split_and!; [done..|]. right. split; [done|]. exists s3. split_and!; try done.
    + unfold s3, s'; simpl. rewrite Htu. simpl. rewrite Kn. lia.
    + intros j r (b & Hb & Hr & _)%(pending_lookup held); [|done]. unfold s3; simpl.
      apply (Hlt b r); [done|]. simpl. rewrite lookup_insert_ne by set_solver.
      rewrite Km by set_solver. done.
  - exists i, c3, [a]. split; [done|]. split; [done|].
    split_and!; [simpl in *; congruence..|done|intros b Hb; by rewrite He3|].
    right. split_and!; [done..|]. left. split; [done|]. split; [by exists a|].
    apply (pending_frame held c c3 Hc) with (held' := a :: held); [|set_solver|done].
    intros b. by rewrite He3.
Qed.

(** With memory for the heap nothing is lost. *)
Lemma ast_sched_add_grows o held c iv cb dat var :
  sched_inv held c → (∀ a, new_sched o = Some a → mem c !! a = None) →
  heap_grows o = true → tie_breaker c + 1 < 2 ^ 31 → 0 <= iv < 2 ^ 31 →
  ∃ id c', ast_sched_add_variable o c iv cb dat var = Some (id, c') ∧
    add_post o held c iv cb dat var id c' [].
Proof.
  intros Hc Hf Hg HT Hiv.
  destruct (ast_sched_add_variable_spec o held c iv cb dat var Hc Hf HT Hiv) as (id & c' & lost & E & Hpost).
  exists id, c'. split; [done|]. assert (lost = []) as ->; [|done].
  destruct Hpost as (_ & _ & _ & _ & _ & _ & [(_ & ? & _)|(_ & _ & _ & [[? _]|[? _]])]); congruence.
Qed.

(** *** Looking a task up *)

Lemma find_from_spec held c id n x :
  sched_inv held c → 1 <= x → x - 1 + Z.of_nat n = Z.of_nat (length (elems c)) →
  ∃ r, find_from n x c id = Some r ∧
    match r with
    | Some a => a ∈ elems c ∧ ∃ s, mem c !! a = Some s ∧ sched_id s = Some id
    | None => ∀ a s, a ∈ drop (Z.to_nat (x - 1)) (elems c) → mem c !! a = Some s →
                sched_id s ≠ Some id
    end.
Proof.
  intros Hc. revert x. induction n as [|n IH]; intros x Hx Hlen; simpl.
  - exists None. split; [done|]. rewrite drop_ge by lia. set_solver.
  - rewrite (pq_peek_elems _ _ _ _ (inv_heap _ _ Hc)) by lia. fold (elems c).
    destruct (lookup_lt_is_Some_2 (elems c) (Z.to_nat (x - 1))) as [a Ha]; [lia|].
    rewrite Ha. cbn [mbind option_bind]. pose proof (list_elem_of_lookup_2 _ _ _ Ha) as Hin.
    destruct (inv_elem _ _ a Hc Hin) as (s & i & Hs & Hi & _). rewrite Hs. cbn [mbind option_bind].
    rewrite Hi. cbn [mbind option_bind]. destruct (Z.eqb_spec i id) as [->|Hne].
    + exists (Some a). split; [done|]. eauto.
    + destruct (IH (x + 1)) as (r & -> & Hr); [lia..|]. exists r. split; [done|].
      destruct r; [done|]. intros b s' Hb. rewrite (drop_S _ _ _ Ha) in Hb.
      apply elem_of_cons in Hb as [->|Hb]; [congruence|].
      apply Hr. by replace (Z.to_nat (x + 1 - 1)) with (S (Z.to_nat (x - 1))) by lia.
Qed.

Lemma sched_find_spec held c id :
  sched_inv held c →
  ∃ r, sched_find c id = Some r ∧
    match r with
    | Some a => a ∈ elems c ∧ ∃ s, mem c !! a = Some s ∧ sched_id s = Some id ∧
                  pending c !! id = Some s
    | None => pending c !! id = None
    end.
Proof.
  intros Hc. unfold sched_find. pose proof (pq_size_elems _ _ _ (inv_heap _ _ Hc)) as Hsz.
  destruct (find_from_spec held c id (Z.to_nat (pq_size (sched_heap c))) 1) as (r & -> & Hr);
    [done|lia|unfold elems; lia|].
  exists r. split; [done|]. destruct r as [a|].
  - destruct Hr as (Ha & s & Hs & Hi). split; [done|]. exists s. split_and!; auto.
    apply (pending_lookup held); eauto.
  - apply (pending_None held); auto.
Qed.

(** *** Removing a queued task *)

Lemma dequeue_release_spec held c a s id :
  sched_inv held c → a ∈ elems c → mem c !! a = Some s → sched_id s = Some id →
  ∃ q c', pq_remove (cmp_of c) (sched_heap c) a = Some (Some a, q) ∧
    sched_release (upd_sched_heap (λ _, q) c) a = Some c' ∧ sched_inv held c' ∧
    elems c ≡ₚ a :: elems c' ∧ keeps (elems c' ++ held) c c' ∧
    pending c' = delete id (pending c).
Proof.
  intros Hc Ha Hs Hi. pose proof (inv_tie _ _ Hc) as Htie.
  pose proof (inv_size_bound _ _ Hc) as Hsz. unfold INT_MAX in Hsz.
  pose proof (cmp_order (mem c) (tie_breaker c)) as Hord.
  destruct (pq_remove_ok (cmp_of c) (task_ok (mem c) (tie_breaker c))
    (CmpOrder0 := Hord ltac:(lia)) (sched_heap c) a) as (q & Hrem & Hq & Hperm);
    [apply (inv_heap _ _ Hc)|done|lia|].
  pose proof (inv_dequeue a held c q Hc Hperm Hq) as H1.
  destruct (sched_release_spec a held _ H1) as (c' & Hrel & H2 & Hh & K).
  assert (elems c' = pq_elems q) as He by (unfold elems; by rewrite Hh).
  exists q, c'. rewrite He. split_and!; auto.
  - destruct K; by constructor.
  - eapply (pending_delete held held c c' a s id); eauto.
    + by rewrite He.
    + intros b Hb. destruct K as [Km _ _ _ _]. rewrite Km; [done|].
      rewrite He in Hb. unfold elems; simpl. set_solver.
Qed.

Lemma inv_last_del held c m : sched_inv held c → sched_inv held (upd_last_del_id m c).
Proof. intros []. by constructor. Qed.

Lemma inv_exec held c e t :
  sched_inv held c →
  sched_inv held (upd_executing_thread_id t (upd_currently_executing e c)).
Proof. intros []. by constructor. Qed.

(** A deletion that finds nothing only changes the per-thread record. *)
Lemma del_return_unfound held c self id :
  sched_inv held c →
  ∃ c', del_return self id 0 false c = (-1, c') ∧ sched_inv held c' ∧
    elems c' = elems c ∧ mem c' = mem c ∧ pending c' = pending c ∧
    keeps (elems c ++ held) c c'.
Proof.
  intros Hc. unfold del_return; simpl. case_match; (eexists; split; [done|]);
    split_and!; auto using inv_last_del, keeps_refl; by constructor.
Qed.

(** The identifier of the executing task, when there is one. *)
Definition executing_id c : option Z :=
  e ← currently_executing c; s ← mem c !! e; sched_id s.

Inductive del_post (held : list addr) (self : tid) (id : Z) c : del_result Q → Prop :=
  | DelNegative : id < 0 → del_post held self id c (DelDone 0 c)
  | DelQueued c' s : pending c !! id = Some s → sched_inv held c' →
      pending c' = delete id (pending c) → keeps (elems c' ++ held) c c' →
      del_post held self id c (DelDone 0 c')
  | DelNothing c' : 0 <= id → pending c !! id = None →
      (executing_id c ≠ Some id ∨ executing_thread_id c = self) →
      sched_inv held c' → pending c' = pending c → keeps (elems c ++ held) c c' →
      elems c' = elems c → mem c' = mem c →
      del_post held self id c (DelDone (-1) c')
  | DelRunning e s : currently_executing c = Some e → mem c !! e = Some s →
      sched_id s = Some id → executing_thread_id c ≠ self → pending c !! id = None →
      sched_inv held (set_mem e (set_deleted true s) c) →
      pending (set_mem e (set_deleted true s) c) = pending c →
      del_post held self id c (DelWait e (set_mem e (set_deleted true s) c)).

Lemma inv_perm held held' c : held ≡ₚ held' → sched_inv held c → sched_inv held' c.
Proof.
  intros Hp []. constructor; auto.
  - by rewrite <- Hp.
  - intros a. by rewrite <- Hp.
  - intros a s. rewrite <- Hp. eauto.
  - by rewrite <- Hp.
Qed.

Lemma inv_set_member e held c s s' :
  sched_inv held c → e ∈ held → mem c !! e = Some s → sched_id s' = sched_id s →
  sched_inv held (set_mem e s' c) ∧ pending (set_mem e s' c) = pending c.
Proof.
  intros Hc He Hs Hid. apply elem_of_Permutation in He as (l & Hl).
  pose proof (inv_perm _ _ _ Hl Hc) as Hc'.
  destruct (inv_set_held e l c s s') as [H1 Hm]; auto.
  split; [by eapply inv_perm|]. refine (pending_frame held c _ Hc _ _ _ H1); [done|].
  intros a Ha. apply Hm. intros <-.
  pose proof (inv_nodup _ _ Hc') as Hnd. rewrite Permutation_middle_app in Hnd.
  apply NoDup_cons in Hnd as [Hfr _]. set_solver.
Qed.

Lemma ast_sched_del_nonrunning_spec held self c id :
  sched_inv held c → (∀ e, currently_executing c = Some e → e ∈ held) →
  ∃ r, ast_sched_del_nonrunning self c id = Some r ∧ del_post held self id c r.
Proof.
  intros Hc Hex. unfold ast_sched_del_nonrunning.
  destruct (Z.ltb_spec id 0); [eexists; split; [done|by apply DelNegative]|].
  destruct (sched_find_spec held c id Hc) as (r & -> & Hr). cbn [mbind option_bind].
  destruct r as [a|].
  - destruct Hr as (Ha & s & Hs & Hi & Hp).
    destruct (dequeue_release_spec held c a s id) as (q & c' & -> & Hrel & H' & ? & ? & ?); auto.
    cbn [mbind option_bind]. rewrite Hrel. cbn [mbind option_bind]. simpl.
    eexists. split; [done|]. by eapply DelQueued.
  - destruct (del_return_unfound held c self id Hc) as (c' & Hdr & ? & ? & ? & ? & ?).
    destruct (currently_executing c) as [e|] eqn:Ee.
    + destruct (inv_held held c e Hc) as (s & i & Hs & Hi); [by apply Hex|].
      rewrite Hs. cbn [mbind option_bind]. rewrite Hi. cbn [mbind option_bind].
      destruct (Z.eqb_spec id i) as [<-|Hne]; [case_bool_decide|].
      * rewrite Hdr. eexists; split; [done|]. apply DelNothing; auto.
      * eexists; split; [done|].
        destruct (inv_set_member e held c s (set_deleted true s)); auto.
        by apply DelRunning.
      * rewrite Hdr. eexists; split; [done|]. apply DelNothing; auto. left.
        unfold executing_id. rewrite Ee; simpl. rewrite Hs; simpl. congruence.
    + rewrite Hdr. eexists; split; [done|]. apply DelNothing; auto. left.
      unfold executing_id. by rewrite Ee.
Qed.

(** *** Running *)

Definition due (limit : timeval) (s : sched) : Prop := usecs (when s) < usecs limit.

#[export] Instance due_dec limit s : Decision (due limit s).
Proof. unfold due. apply _. Defined.

Lemma runq_take_spec held self limit c :
  sched_inv held c → tv_ok limit →
  ∃ r c', runq_take self limit c = Some (r, c') ∧
    match r with
    | None => c' = c ∧ ∀ i s, pending c !! i = Some s → ¬ due limit s
    | Some a => ∃ i s, a ∈ elems c ∧ mem c !! a = Some s ∧ sched_id s = Some i ∧
        pending c !! i = Some s ∧ due limit s ∧
        (∀ j r, pending c !! j = Some r → sooner s r) ∧
        sched_inv (a :: held) c' ∧ pending c' = delete i (pending c) ∧
        mem c' = mem c ∧ now c' = now c ∧ tie_breaker c' = tie_breaker c ∧
        elems c ≡ₚ a :: elems c' ∧
        currently_executing c' = Some a ∧ executing_thread_id c' = self ∧
        deleted s = false ∧ tv_ok (when s)
    end.
Proof.
  intros Hc Hl. unfold runq_take. pose proof (inv_tie _ _ Hc) as Htie.
  pose proof (cmp_order (mem c) (tie_breaker c)) as Hord.
  destruct (pq_pop_ok (cmp_of c) (task_ok (mem c) (tie_breaker c))
    (CmpOrder0 := Hord ltac:(lia)) (sched_heap c)) as (r & q & Hpop & Hq & Hr);
    [apply (inv_heap _ _ Hc)|].
  rewrite Hpop. destruct r as [a|].
  2:{ destruct Hr as [He ->]. rewrite (pq_peek_elems _ _ _ _ (inv_heap _ _ Hc)), He by lia.
      simpl. exists None, c. split; [done|]. split; [done|].
      intros i s (a & Ha & _)%(pending_lookup held); [|done]. unfold elems in Ha.
      rewrite He in Ha. set_solver. }
  destruct Hr as (Hpk & Hperm & Hmax). rewrite Hpk.
  assert (a ∈ elems c) as Ha by (unfold elems; rewrite Hperm; set_solver).
  destruct (inv_elem _ _ a Hc Ha) as (s & i & Hs & Hi & Hok). rewrite Hs. cbn [mbind option_bind].
  assert (pending c !! i = Some s) as Hp by (apply (pending_lookup held); eauto).
  assert (∀ j r, pending c !! j = Some r → sooner s r) as Hsoon.
  { intros j r (b & Hb & Hbr & _)%(pending_lookup held); [|done].
    destruct (inv_elem _ _ b Hc Hb) as (r' & ? & ? & _ & Hokr). simplify_eq.
    apply (proj1 (sched_time_cmp_sooner (mem c) (tie_breaker c) a b s r ltac:(lia) Hs Hbr Hok Hokr)).
    by apply Hmax. }
  destruct Hok as (Hw & Ht & Hd). rewrite ast_tvcmp_usecs by done.
  destruct (Z.sgn_spec (usecs (when s) - usecs limit)) as [[Hlt ->]|[[Hlt ->]|[Hlt ->]]]; simpl.
  1, 2: exists None, c; split; [done|]; split; [done|]; intros j r Hj; unfold due;
    destruct (Hsoon j r Hj); lia.
  eexists (Some a), _. split; [done|]. exists i, s.
  assert (sched_inv (a :: held) (upd_sched_heap (λ _, q) c)) as H1 by (by apply inv_dequeue).
  split_and!; auto.
  - unfold due. lia.
  - by apply inv_exec.
  - destruct (pending_delete held (a :: held) c (upd_sched_heap (λ _, q) c) a s i); auto.
Qed.

Lemma runq_return_release a held c s i :
  sched_inv (a :: held) c → mem c !! a = Some s → sched_id s = Some i → deleted s = false →
  ∀ grows, ∃ c', runq_return grows c a 0 = Some c' ∧ sched_inv held c' ∧
    elems c' = elems c ∧ pending c' = pending c ∧ currently_executing c' = None ∧
    now c' = now c ∧ tie_breaker c' = tie_breaker c ∧
    (∀ b, b ∈ elems c ++ held → mem c' !! b = mem c !! b).
Proof.
  intros Hc Hs Hi Hd grows. unfold runq_return; simpl. rewrite Hs; simpl. rewrite Hd; simpl.
  assert (sched_inv (a :: held) (upd_currently_executing (λ _, None) c)) as H1
    by (destruct Hc; by constructor).
  destruct (sched_release_spec a held _ H1) as (c' & -> & H2 & Hh & [Km Kn Ke Kt Kti]).
  assert (elems c' = elems c) as He by (unfold elems; by rewrite Hh).
  eexists. split; [done|]. split_and!; auto.
  eapply (pending_frame (a :: held) c); [done|by rewrite He|set_solver|done].
Qed.

Lemma runq_return_resched a held c s i res :
  sched_inv (a :: held) c → mem c !! a = Some s → sched_id s = Some i → deleted s = false →
  tv_ok (when s) → res ≠ 0 → tie_breaker c + 1 < 2 ^ 31 →
  0 <= (if negb (variable s =? 0) then res else resched s) < 2 ^ 31 →
  ∃ c' s', runq_return true c a res = Some c' ∧ sched_inv held c' ∧
    elems c' ≡ₚ a :: elems c ∧ mem c' = <[a := s']> (mem c) ∧
    pending c !! i = None ∧ pending c' = <[i := s']> (pending c) ∧
    currently_executing c' = None ∧ now c' = now c ∧
    tie_breaker c' <= tie_breaker c + 1 ∧
    sched_id s' = sched_id s ∧ callback s' = callback s ∧ data s' = data s ∧
    resched s' = resched s ∧ variable s' = variable s ∧ deleted s' = false ∧
    tv_ok (when s') ∧
    usecs (when s') = Z.max (usecs (now c))
      ((if ast_tvzero (when s) then usecs (now c) else usecs (when s)) +
       (if negb (variable s =? 0) then res else resched s) * 1000) ∧
    (∀ j r, pending c !! j = Some r → s_tie_breaker r < s_tie_breaker s').
Proof.
  intros Hc Hs Hi Hd Hw Hres HT Hiv. unfold runq_return; simpl. rewrite Hs; simpl. rewrite Hd; simpl.
  rewrite (proj2 (Z.eqb_neq res 0)) by done. cbn [negb].
  set (iv := if negb (variable s =? 0) then res else resched s) in *. clearbody iv.
  destruct (sched_settime_spec (now c) (when s) iv) as [Ht Htu]; [apply (inv_now _ _ Hc)|done|lia|].
  set (t := sched_settime _ _ _) in *. clearbody t.
  assert (sched_inv (a :: held) (upd_currently_executing (λ _, None) c)) as H1
    by (destruct Hc; by constructor).
  destruct (inv_set_held a held _ s (set_when t s) H1 Hs eq_refl) as [H2 Hm2].
  destruct (schedule_spec true a held _ (set_when t s) H2) as
    (c3 & -> & [[H3 He3]|[? _]] & Hm3 & En3 & Ee3 & Et3 & Hlt & Htie3 & _);
    [apply lookup_insert_eq|done|done|done| |done].
  change (elems (set_mem _ _ _)) with (elems c) in *.
  pose proof (inv_nodup _ _ Hc) as Hnd. rewrite Permutation_middle_app in Hnd.
  apply NoDup_cons in Hnd as [Hfr _].
  simpl in Hm3. rewrite insert_insert_eq in Hm3.
  destruct (pending_insert (a :: held) held c c3 a (set_tie (tie_breaker c3) (set_when t s)) i)
    as [Hpn Hpi]; auto.
  { set_solver. }
  { intros b Hb. rewrite Hm3. by rewrite lookup_insert_ne by set_solver. }
  { rewrite Hm3. apply lookup_insert_eq. }
  eexists c3, _. split; [done|]. split_and!; try done.
  intros j r (b & Hb & Hr & _)%(pending_lookup (a :: held)); [|done]. simpl.
  apply (Hlt b r); [done|]. simpl. by rewrite lookup_insert_ne by set_solver.
Qed.

End Inv.
