(* ===== verification/SchedRuns.v ===== *)
(** * The scheduler's guarantees: [main/sched.c]

    Built on the invariant of Sched.v:

    - [Loops]: [ast_sched_runq], [ast_sched_clean_by_callback] and
      [ast_sched_context_destroy] terminate, and what they do to the pending
      tasks;
    - [Threads]: the operations of several threads interleaved at lock
      granularity, and the invariant of every reachable state;
    - [Properties]: the theorems. *)

From stdpp Require Import base numbers list gmap sorting relations.
From Stdlib Require Import ZArith Lia.
From S2P Require Import Prelude Timeval Heap Sched.

Section Loops.
Context {Q : Type} `{!PrioQueue addr Q} `{!PrioQueueLaws addr Q}.
Implicit Types c : ast_sched_context Q.

Lemma sooner_trans s1 s2 s3 : sooner s1 s2 → sooner s2 s3 → sooner s1 s3.
Proof. unfold sooner. lia. Qed.

(** What a run of one-shot tasks does to the context [c]: the tasks of the
    addresses [l], with records [recs], have run. *)
Record ran_oneshot (limit : timeval) c (l : list addr) (recs : list sched) c' : Prop := {
  ran_recs : Forall2 (λ a s, a ∈ elems c ∧ mem c !! a = Some s) l recs;
  ran_sorted : StronglySorted sooner recs;
  ran_nodup : NoDup l;
  ran_due s : s ∈ recs ↔ ∃ i, pending c !! i = Some s ∧ due limit s;
  ran_rest i s : pending c' !! i = Some s ↔ pending c !! i = Some s ∧ ¬ due limit s;
}.

Lemma runq_loop_oneshot call grows self limit :
  (∀ cb d c, call cb d c = (0, c)) → tv_ok limit →
  ∀ fuel c held, sched_inv held c → (length (elems c) < fuel)%nat →
  ∃ l recs c', runq_loop call grows fuel self limit c = Some (l, c') ∧
    sched_inv held c' ∧ ran_oneshot limit c l recs c'.
Proof.
  intros Hcall Hl. induction fuel as [|fuel IH]; intros c held Hc Hf; [lia|]. simpl.
  destruct (runq_take_spec held self limit c Hc Hl) as (r & c1 & -> & Hr).
  cbn [mbind option_bind]. destruct r as [a|].
  2:{ destruct Hr as [-> Hnd]. exists [], [], c. split; [done|]. split; [done|].
      constructor; [constructor..| |].
      - intros s. split; [set_solver|]. intros (i & Hi & Hdue). by destruct (Hnd i s).
      - intros i s. split; [eauto|by intros []]. }
  destruct Hr as (i & s & Ha & Hs & Hi & Hp & Hdue & Hsoon & H1 & Hp1 & Hm1 & Hn1 & Ht1 & He1 &
    Hx1 & Hy1 & Hd & Hw).
  rewrite Hm1, Hs. cbn [mbind option_bind]. rewrite Hcall.
  destruct (runq_return_release a held c1 s i) with (grows := grows c1)
    as (c2 & -> & H2 & He2 & Hp2 & Hx2 & Hn2 & Ht2 & Hm2); auto; [by rewrite Hm1|].
  cbn [mbind option_bind].
  destruct (IH c2 held H2) as (l & recs & c3 & -> & H3 & [R1 R2 R3 R4 R5]).
  { rewrite He2. apply Permutation_length in He1. simpl in He1. lia. }
  cbn [mbind option_bind]. exists (a :: l), (s :: recs), c3. split; [done|]. split; [done|].
  assert (∀ r, r ∈ recs → ∃ j, pending c !! j = Some r) as Hsub.
  { intros r (j & Hj & _)%R4. rewrite Hp2, Hp1 in Hj. apply lookup_delete_Some in Hj as [_ Hj].
    eauto. }
  constructor.
  - constructor; [done|]. eapply Forall2_impl; [exact R1|]. intros b r [Hb Hr].
    rewrite He2 in Hb. rewrite Hm2, Hm1 in Hr by set_solver. split; [|done]. rewrite He1. set_solver.
  - constructor; [done|]. apply Forall_forall. intros r [j Hj]%Hsub. eauto.
  - constructor; [|done]. intros Hal. apply list_elem_of_lookup in Hal as [n Hn].
    destruct (Forall2_lookup_l _ _ _ _ _ R1 Hn) as (r & _ & Hb & _). rewrite He2 in Hb.
    pose proof (pq_elems_NoDup _ _ _ (inv_heap _ _ Hc)) as Hnd. fold (elems c) in Hnd.
    rewrite He1 in Hnd. by apply NoDup_cons in Hnd as [? _].
  - intros r. rewrite elem_of_cons, R4, Hp2, Hp1. split.
    + intros [->|(j & [_ Hj]%lookup_delete_Some & Hdr)]; eauto.
    + intros (j & Hj & Hdr). destruct (decide (i = j)) as [->|Hne]; [left; congruence|right].
      exists j. by rewrite lookup_delete_ne.
  - intros j r. rewrite R5, Hp2, Hp1, lookup_delete_Some. split; [naive_solver|].
    intros [Hj Hnd]. split_and!; auto. intros ->. naive_solver.
Qed.

(** ** Tasks that reschedule themselves *)

(** The interval a task asks for when its callback returns [res]. *)
Definition next_interval (s : sched) (res : Z) : Z :=
  if negb (variable s =? 0) then res else resched s.

(** How often a task can still run before [nw + 1ms]. *)
Definition runs_left (nw : timeval) (s : sched) : nat :=
  if decide (usecs (when s) < usecs nw) then 2
  else if decide (usecs (when s) < usecs nw + 1000) then 1 else 0.

Definition total_runs (nw : timeval) (m : gmap addr sched) (l : list addr) : nat :=
  sum_list_with (λ a, from_option (runs_left nw) 0%nat (m !! a)) l.

#[local] Instance total_runs_perm nw m : Proper ((≡ₚ) ==> (=)) (total_runs nw m).
Proof. intros l l' H. unfold total_runs. induction H; simpl; lia. Qed.

Lemma total_runs_frame nw m m' l :
  (∀ a, a ∈ l → m' !! a = m !! a) → total_runs nw m' l = total_runs nw m l.
Proof.
  unfold total_runs. induction l as [|a l IH]; intros Hm; simpl; [done|].
  rewrite Hm, IH by set_solver. done.
Qed.

Lemma total_runs_bound nw m l : (total_runs nw m l <= 2 * length l)%nat.
Proof.
  unfold total_runs. induction l as [|a l IH]; simpl; [lia|].
  assert (from_option (runs_left nw) 0%nat (m !! a) <= 2)%nat; [|lia].
  destruct (m !! a); simpl; [|lia]. unfold runs_left. repeat case_decide; lia.
Qed.

(** The tasks may ask for any interval of at least one millisecond. *)
Definition intervals_ok (f : Z → Z → Z) c : Prop :=
  ∀ i s, pending c !! i = Some s → f (callback s) (data s) ≠ 0 →
    1 <= next_interval s (f (callback s) (data s)) < 2 ^ 31.

Lemma runq_loop_resched (f : Z → Z → Z) self nw limit :
  tv_ok limit → usecs limit = usecs nw + 1000 →
  ∀ fuel c held, sched_inv held c → now c = nw → intervals_ok f c →
  (total_runs nw (mem c) (elems c) < fuel)%nat →
  tie_breaker c + Z.of_nat (total_runs nw (mem c) (elems c)) < 2 ^ 31 →
  ∃ l c', runq_loop (λ cb d c, (f cb d, c)) (λ _, true) fuel self limit c = Some (l, c') ∧
    sched_inv held c' ∧ now c' = nw ∧
    (length l <= total_runs nw (mem c) (elems c))%nat ∧
    (∀ i s, pending c' !! i = Some s → ¬ due limit s) ∧
    dom (pending c') ⊆ dom (pending c).
Proof.
  intros Hl Hlim. induction fuel as [|fuel IH]; intros c held Hc Hnow Hiv Hf HT; [lia|]. simpl.
  destruct (runq_take_spec held self limit c Hc Hl) as (r & c1 & -> & Hr).
  cbn [mbind option_bind]. destruct r as [a|].
  2:{ destruct Hr as [-> Hnd]. exists [], c. split; [done|]. split_and!; simpl; auto; lia. }
  destruct Hr as (i & s & Ha & Hs & Hi & Hp & Hdue & _ & H1 & Hp1 & Hm1 & Hn1 & Ht1 & He1 &
    Hx1 & Hy1 & Hd & Hw).
  rewrite Hm1, Hs. cbn [mbind option_bind].
  assert (total_runs nw (mem c) (elems c) =
    runs_left nw s + total_runs nw (mem c) (elems c1))%nat as Hsum.
  { rewrite He1. unfold total_runs; simpl. by rewrite Hs. }
  assert (1 <= runs_left nw s)%nat as Hrl.
  { unfold runs_left, due in *. repeat case_decide; lia. }
  destruct (decide (f (callback s) (data s) = 0)) as [Hf0|Hf0].
  - rewrite Hf0. destruct (runq_return_release a held c1 s i) with (grows := true)
      as (c2 & -> & H2 & He2 & Hp2 & Hx2 & Hn2 & Ht2 & Hm2); auto; [by rewrite Hm1|].
    cbn [mbind option_bind].
    assert (total_runs nw (mem c2) (elems c2) = total_runs nw (mem c) (elems c1)) as Hsum2.
    { rewrite He2. apply total_runs_frame. intros b Hb. by rewrite Hm2, Hm1 by set_solver. }
    destruct (IH c2 held H2) as (l & c3 & -> & H3 & Hn3 & Hlen & Hnd & Hsub);
      [congruence| |lia|lia|].
    + intros j r Hj. rewrite Hp2, Hp1 in Hj. apply lookup_delete_Some in Hj as [_ Hj]. eauto.
    + cbn [mbind option_bind]. eexists _, c3. split; [done|]. split_and!; auto; [simpl; lia|].
      rewrite Hp2, Hp1, dom_delete_L in Hsub. set_solver.
  - destruct (runq_return_resched a held c1 s i (f (callback s) (data s))) as
      (c2 & s' & -> & H2 & He2 & Hm2 & Hpn & Hp2 & Hx2 & Hn2 & Ht2 & Es1 & Es2 & Es3 & Es4 & Es5 &
       Es6 & Es7 & Es8 & _); auto; [by rewrite Hm1|lia|
       pose proof (Hiv i s Hp Hf0); unfold next_interval in *; lia|].
    cbn [mbind option_bind].
    fold (next_interval s (f (callback s) (data s))) in Es8.
    pose proof (Hiv i s Hp Hf0) as Hiv'. rewrite Hn1, Hnow in Es8.
    assert (runs_left nw s' < runs_left nw s)%nat as Hless.
    { unfold runs_left, due in *. destruct (ast_tvzero (when s)); repeat case_decide; lia. }
    assert (a ∉ elems c1) as Hna.
    { pose proof (pq_elems_NoDup _ _ _ (inv_heap _ _ Hc)) as Hnd. fold (elems c) in Hnd.
      rewrite He1 in Hnd. by apply NoDup_cons in Hnd as [? _]. }
    assert (total_runs nw (mem c2) (elems c2) =
      runs_left nw s' + total_runs nw (mem c) (elems c1))%nat as Hsum2.
    { rewrite He2. unfold total_runs; simpl. rewrite Hm2, lookup_insert_eq. simpl. f_equal.
      apply (total_runs_frame nw (mem c)). intros b Hb. rewrite lookup_insert_ne by set_solver.
      by rewrite Hm1. }
    assert (pending c2 = <[i := s']> (pending c)) as Hp2'.
    { rewrite Hp2, Hp1. apply insert_delete_eq. }
    destruct (IH c2 held H2) as (l & c3 & -> & H3 & Hn3 & Hlen & Hnd & Hsub);
      [congruence| |lia|lia|].
    + intros j r Hj. rewrite Hp2' in Hj. destruct (decide (i = j)) as [<-|Hne].
      * rewrite lookup_insert_eq in Hj. simplify_eq. rewrite Es2, Es3.
        unfold next_interval in *. rewrite Es4, Es5. eauto.
      * rewrite lookup_insert_ne in Hj by done. eauto.
    + cbn [mbind option_bind]. eexists _, c3. split; [done|]. split_and!; auto; [simpl; lia|].
      rewrite Hp2', dom_insert_L in Hsub. apply elem_of_dom_2 in Hp. set_solver.
Qed.

(** ** Cleaning by callback *)

(** The loop removes only matching tasks, hands each removed task's data to
    the cleanup callback once, in order, and keeps the others. *)
Record cleaned (match_ : Z) c (ds : list Z) c' : Prop := {
  cl_removed : ∃ l recs, Forall2 (λ a s, a ∈ elems c ∧ mem c !! a = Some s ∧ callback s = match_) l recs ∧
    elems c ≡ₚ l ++ elems c' ∧ ds = data <$> recs;
  cl_sub : pending c' ⊆ pending c;
  cl_kept i s : pending c !! i = Some s → callback s ≠ match_ → pending c' !! i = Some s;
  cl_mem a : a ∈ elems c' → mem c' !! a = mem c !! a;
}.

Lemma clean_loop_spec match_ : ∀ fuel i c held,
  sched_inv held c → 1 <= i → (Z.to_nat i <= length (elems c) + 1)%nat →
  (length (elems c) + 2 <= fuel + Z.to_nat i)%nat →
  ∃ ds c', clean_loop fuel i c match_ = Some (ds, c') ∧ sched_inv held c' ∧
    cleaned match_ c ds c'.
Proof.
  induction fuel as [|fuel IH]; intros i c held Hc Hi Hle Hf; [lia|].
  simpl. rewrite (pq_peek_elems _ _ _ _ (inv_heap _ _ Hc)) by lia. fold (elems c).
  destruct (elems c !! Z.to_nat (i - 1)) as [a|] eqn:Ha.
  2:{ exists [], c. split; [done|]. split; [done|]. constructor; auto.
      exists [], []. by split_and!. }
  pose proof (list_elem_of_lookup_2 _ _ _ Ha) as Hin. apply lookup_lt_Some in Ha.
  destruct (inv_elem _ _ a Hc Hin) as (s & j & Hs & Hj & _). rewrite Hs. cbn [mbind option_bind].
  destruct (Z.eqb_spec (callback s) match_) as [Hm|Hm]; simpl.
  2:{ apply (IH (i + 1) c held); [done|lia..]. }
  destruct (dequeue_release_spec held c a s j) as (q & c1 & -> & Hrel & H1 & He1 & [Km _ _ _ _] & Hp1);
    auto.
  cbn [mbind option_bind]. rewrite Hrel. cbn [mbind option_bind].
  destruct (IH i c1 held) as (ds & c2 & -> & H2 & [(l & recs & Hl & Hel & ->) Hsub Hkept Hmem]);
    [done|done|apply Permutation_length in He1; simpl in He1; lia..|].
  cbn [mbind option_bind]. eexists _, c2. split; [done|]. split; [done|].
  constructor.
  - exists (a :: l), (s :: recs). split_and!.
    + constructor; [done|]. eapply Forall2_impl; [exact Hl|].
      intros b r (Hb & Hr & Hcb). rewrite Km in Hr by set_solver. split_and!; auto.
      rewrite He1. set_solver.
    + rewrite He1, Hel. done.
    + done.
  - rewrite Hsub, Hp1. apply delete_subseteq.
  - intros k r Hk Hr. apply Hkept; [|done]. rewrite Hp1, lookup_delete_ne; [done|].
    intros <-. assert (pending c !! j = Some s) by (apply (pending_lookup held); eauto). congruence.
  - intros b Hb. rewrite Hmem by done. apply Km. rewrite Hel. set_solver.
Qed.

(** ** Destruction *)

Lemma free_popped_spec T : T < 2 ^ 31 → ∀ fuel c,
  pq_inv (cmp_of c) (task_ok (mem c) T) (sched_heap c) → (length (elems c) < fuel)%nat →
  ∃ c', free_popped fuel c = Some c' ∧ elems c' = [] ∧ schedc c' = schedc c ∧
    (∀ a, is_Some (mem c' !! a) ↔ is_Some (mem c !! a) ∧ a ∉ elems c).
Proof.
  intros HT. induction fuel as [|fuel IH]; intros c Hq Hf; [lia|]. simpl.
  destruct (pq_pop_ok (cmp_of c) (task_ok (mem c) T)
    (CmpOrder0 := cmp_order (mem c) T HT) (sched_heap c) Hq) as (r & q & -> & Hq' & Hr).
  cbn [mbind option_bind]. destruct r as [a|].
  2:{ destruct Hr as [He ->]. eexists. split; [done|]. unfold elems; simpl. rewrite He.
      split_and!; auto. intros a. split; [|by intros []]. intros; split; [done|set_solver]. }
  destruct Hr as (_ & Hperm & _). fold (elems c) in Hperm.
  pose proof (pq_elems_NoDup _ _ _ Hq) as Hnd. fold (elems c) in Hnd. rewrite Hperm in Hnd.
  apply NoDup_cons in Hnd as [Hfr _].
  destruct (IH (sched_free (upd_sched_heap (λ _, q) c) a)) as (c' & -> & He' & Hs' & Hdom).
  - apply (heap_frame (mem c)); [done|]. intros b Hb; simpl. apply lookup_delete_ne. set_solver.
  - unfold elems in *; simpl. apply Permutation_length in Hperm. simpl in Hperm. lia.
  - exists c'. split_and!; auto. intros b. rewrite Hdom; simpl.
    rewrite lookup_delete_is_Some. unfold elems at 1; simpl. rewrite Hperm. set_solver.
Qed.

Lemma foldl_sched_free l c :
  foldl sched_free c l = upd_mem (λ m, foldl (λ m a, delete a m) m l) c.
Proof.
  revert c. induction l as [|a l IH]; intros c; simpl; [by destruct c|]. by rewrite IH.
Qed.

Lemma foldl_delete_lookup (l : list addr) (m : gmap addr sched) b :
  is_Some (foldl (λ m a, delete a m) m l !! b) ↔ is_Some (m !! b) ∧ b ∉ l.
Proof.
  revert m. induction l as [|a l IH]; intros m; simpl; [set_solver|].
  rewrite IH, lookup_delete_is_Some. set_solver.
Qed.

Lemma foldl_delete_frame (l : list addr) (m : gmap addr sched) b :
  b ∉ l → foldl (λ m a, delete a m) m l !! b = m !! b.
Proof.
  revert m. induction l as [|a l IH]; intros m Hb; simpl; [done|].
  rewrite IH by set_solver. apply lookup_delete_ne. set_solver.
Qed.

Lemma ast_sched_context_destroy_spec c :
  sched_inv [] c →
  ∃ c', ast_sched_context_destroy c = Some c' ∧ mem c' = ∅ ∧ id_queue c' = [] ∧
    schedc c' = [] ∧ elems c' = [].
Proof.
  intros Hc. unfold ast_sched_context_destroy. rewrite foldl_sched_free.
  pose proof (inv_nodup _ _ Hc) as Hnd. simpl in Hnd. apply NoDup_app in Hnd as (_ & Hdisj & _).
  pose proof (inv_tie _ _ Hc) as Htie.
  set (c1 := upd_schedc _ _).
  destruct (free_popped_spec (tie_breaker c) ltac:(lia) (S (Z.to_nat (pq_size (sched_heap c1)))) c1)
    as (c2 & -> & He2 & Hs2 & Hdom).
  - apply (heap_frame (mem c)); [apply (inv_heap _ _ Hc)|].
    intros b Hb; simpl. apply foldl_delete_frame. by apply Hdisj.
  - change (sched_heap c1) with (sched_heap c). change (elems c1) with (elems c).
    rewrite (pq_size_elems _ _ _ (inv_heap _ _ Hc)). unfold elems. lia.
  - cbn [mbind option_bind]. eexists. split; [done|]. simpl. split_and!; auto.
    apply map_empty. intros a. apply eq_None_not_Some. rewrite Hdom. simpl.
    rewrite foldl_delete_lookup, (inv_dom _ _ Hc). unfold elems; simpl. set_solver.
Qed.

(** ** Waiting *)

Lemma ast_sched_wait_spec held c :
  sched_inv held c →
  ∃ ms, ast_sched_wait c = Some ms ∧
    ((ms = -1 ∧ pending c = ∅) ∨
     ∃ i s, pending c !! i = Some s ∧ (∀ j r, pending c !! j = Some r → sooner s r) ∧
       ms = Z.max 0 (s32 ((usecs (when s) - usecs (now c)) / 1000))).
Proof.
  intros Hc. unfold ast_sched_wait. pose proof (inv_tie _ _ Hc) as Htie.
  destruct (pq_pop_ok (cmp_of c) (task_ok (mem c) (tie_breaker c))
    (CmpOrder0 := cmp_order (mem c) (tie_breaker c) ltac:(lia)) (sched_heap c)
    (inv_heap _ _ Hc)) as (r & q & _ & _ & Hr).
  destruct r as [a|].
  - destruct Hr as (Hpk & Hperm & Hmax). rewrite Hpk.
    assert (a ∈ elems c) as Ha by (unfold elems; rewrite Hperm; set_solver).
    destruct (inv_elem _ _ a Hc Ha) as (s & i & Hs & Hi & Hok). rewrite Hs. cbn [mbind option_bind].
    eexists. split; [done|]. right. exists i, s. split_and!.
    + apply (pending_lookup held); eauto.
    + intros j r (b & Hb & Hbr & _)%(pending_lookup held); [|done].
      destruct (inv_elem _ _ b Hc Hb) as (r' & ? & ? & _ & Hokr). simplify_eq.
      apply (proj1 (sched_time_cmp_sooner (mem c) (tie_breaker c) a b s r ltac:(lia)
        Hs Hbr Hok Hokr)). by apply Hmax.
    + destruct Hok as (Hw & _). rewrite ast_tvdiff_ms_floor by (done || apply (inv_now _ _ Hc)).
      case_match; lia.
  - destruct Hr as [He _]. rewrite (pq_peek_elems _ _ _ _ (inv_heap _ _ Hc)), He by lia. simpl.
    eexists. split; [done|]. left. split; [done|]. unfold pending, elems. by rewrite He.
Qed.

End Loops.

(** ** Threads

    A state is a context and the threads blocked in [ast_sched_del], each with
    the identifier and the record it waits for.  A step is a stretch of code
    run with the context's lock held.  One thread runs the queue; the task of
    the callback it is in is [currently_executing].  The steps assume what the
    code needs: the heap can grow, intervals are not negative, fewer than
    [2^31] tasks are queued between two moments when the heap is empty, and no
    two threads delete the same executing task at once. *)
Section Threads.
Context {Q : Type} `{!PrioQueue addr Q} `{!PrioQueueLaws addr Q}.
Implicit Types c : ast_sched_context Q.

Abbreviation waiter := (tid * Z * addr)%type.

Definition addrs (ws : list waiter) : list addr := ws.*2.

(** The records in no list of the context. *)
Definition held_of c (ws : list waiter) : list addr :=
  match currently_executing c with
  | Some e => e :: filter (λ a, a ≠ e) (addrs ws)
  | None => addrs ws
  end.

Inductive sched_step :
    ast_sched_context Q * list waiter → ast_sched_context Q * list waiter → Prop :=
  | StepTick c ws t : tv_ok t → sched_step (c, ws) (upd_now (λ _, t) c, ws)
  | StepAdd c ws o iv cb dat var id c' :
      (∀ a, new_sched o = Some a → mem c !! a = None) → heap_grows o = true →
      tie_breaker c + 1 < 2 ^ 31 → 0 <= iv < 2 ^ 31 →
      ast_sched_add_variable o c iv cb dat var = Some (id, c') →
      sched_step (c, ws) (c', ws)
  | StepDel c ws self id res c' :
      ast_sched_del_nonrunning self c id = Some (DelDone res c') →
      sched_step (c, ws) (c', ws)
  | StepDelWait c ws self id e c' :
      ast_sched_del_nonrunning self c id = Some (DelWait e c') → e ∉ addrs ws →
      sched_step (c, ws) (c', (self, id, e) :: ws)
  | StepWake c ws1 ws2 self id a res c' :
      del_must_wait c id = Some false → del_wakeup self c id a = Some (res, c') →
      sched_step (c, ws1 ++ (self, id, a) :: ws2) (c', ws1 ++ ws2)
  | StepTake c ws self limit a c' :
      currently_executing c = None → tv_ok limit →
      runq_take self limit c = Some (Some a, c') →
      sched_step (c, ws) (c', ws)
  | StepReturn c ws e s res c' :
      currently_executing c = Some e → mem c !! e = Some s →
      tie_breaker c + 1 < 2 ^ 31 → (res ≠ 0 → 0 <= next_interval s res < 2 ^ 31) →
      runq_return true c e res = Some c' →
      sched_step (c, ws) (c', ws).

Record threads_inv c (ws : list waiter) : Prop := {
  ti_inv : sched_inv (held_of c ws) c;
  ti_nodup : NoDup (addrs ws);
  ti_ids t id a : (t, id, a) ∈ ws →
    ∃ s, mem c !! a = Some s ∧ sched_id s = Some id ∧ deleted s = true;
  ti_exec e s : currently_executing c = Some e → mem c !! e = Some s →
    tv_ok (when s) ∧ (deleted s = true → e ∈ addrs ws);
}.

Lemma elem_of_addrs ws a : a ∈ addrs ws ↔ ∃ t id, (t, id, a) ∈ ws.
Proof.
  unfold addrs. rewrite list_elem_of_fmap. split.
  - intros ([[t id] a'] & -> & H). eauto.
  - intros (t & id & H). by exists (t, id, a).
Qed.

Lemma addrs_held c ws a : a ∈ addrs ws → a ∈ held_of c ws.
Proof.
  intros Ha. unfold held_of. destruct (currently_executing c) as [e|]; [|done].
  destruct (decide (a = e)) as [->|]; [set_solver|].
  apply elem_of_cons. right. by apply list_elem_of_filter.
Qed.

Lemma exec_held c ws e : currently_executing c = Some e → e ∈ held_of c ws.
Proof. intros He. unfold held_of. rewrite He. set_solver. Qed.

Lemma filter_ne_absent (e : addr) (l : list addr) : e ∉ l → filter (λ a, a ≠ e) l = l.
Proof.
  induction l as [|a l IH]; intros He; [done|]. rewrite filter_cons_True by set_solver.
  f_equal. apply IH. set_solver.
Qed.

Lemma filter_ne_present (e : addr) (l : list addr) :
  NoDup l → e ∈ l → l ≡ₚ e :: filter (λ a, a ≠ e) l.
Proof.
  induction 1 as [|a l Ha Hnd IH]; intros He; [set_solver|].
  destruct (decide (a = e)) as [->|Hne].
  - rewrite filter_cons_False by naive_solver. by rewrite filter_ne_absent.
  - rewrite filter_cons_True by done. rewrite IH at 1 by set_solver. apply perm_swap.
Qed.

(** An operation that keeps the held records and the executing task. *)
Lemma threads_inv_keep c c' ws :
  threads_inv c ws → sched_inv (held_of c ws) c' →
  currently_executing c' = currently_executing c →
  (∀ a, a ∈ held_of c ws → mem c' !! a = mem c !! a) → threads_inv c' ws.
Proof.
  intros [Hi Hnd Hid Hex] Hi' Ee Hm.
  assert (held_of c' ws = held_of c ws) as Hh by (unfold held_of; by rewrite Ee).
  constructor; [by rewrite Hh|done| |].
  - intros t id a Ha. rewrite Hm; [eauto|]. apply addrs_held, elem_of_addrs. eauto.
  - intros e s He. rewrite Ee in He. rewrite Hm by (by apply exec_held). eauto.
Qed.

Lemma inv_tick held c t : sched_inv held c → tv_ok t → sched_inv held (upd_now (λ _, t) c).
Proof. intros [] ?. by constructor. Qed.

Lemma step_del_inv c ws self id res c' :
  threads_inv c ws → ast_sched_del_nonrunning self c id = Some (DelDone res c') →
  threads_inv c' ws.
Proof.
  intros Hi Hdel. pose proof (ti_inv _ _ Hi) as Hc.
  destruct (ast_sched_del_nonrunning_spec (held_of c ws) self c id Hc) as (r & Hr & Hpost).
  { intros e He. by apply exec_held. }
  rewrite Hr in Hdel. simplify_eq.
  inversion Hpost as [|c1 s Hp H1 Hp1 [Km _ Ke _ _]|c1 ? Hp Hx H1 Hp1 [Km _ Ke _ _]|]; simplify_eq;
    [done|eapply threads_inv_keep; eauto; set_solver..].
Qed.

Lemma step_del_wait_inv c ws self id e c' :
  threads_inv c ws → ast_sched_del_nonrunning self c id = Some (DelWait e c') →
  e ∉ addrs ws → threads_inv c' ((self, id, e) :: ws).
Proof.
  intros Hi Hdel He. pose proof (ti_inv _ _ Hi) as Hc.
  destruct (ast_sched_del_nonrunning_spec (held_of c ws) self c id Hc) as (r & Hr & Hpost).
  { intros e' He'. by apply exec_held. }
  rewrite Hr in Hdel. simplify_eq.
  inversion Hpost as [| | |? s Hex Hs Hid Htid Hpn H1 Hp1]; simplify_eq.
  destruct Hi as [_ Hnd Hids Hexec]. constructor.
  - unfold held_of in *; simpl. rewrite Hex in *. rewrite filter_cons_False by naive_solver. done.
  - simpl. by constructor.
  - intros t i a [[= -> -> ->]|Ha]%elem_of_cons; simpl.
    + rewrite lookup_insert_eq. eexists; by split_and!.
    + rewrite lookup_insert_ne; [eauto|]. intros <-. apply He, elem_of_addrs. eauto.
  - intros e' s' He'. simpl in He'. rewrite Hex in He'. injection He' as <-.
    simpl. rewrite lookup_insert_eq. intros [= <-]. simpl.
    destruct (Hexec e s) as [? _]; auto. split; [done|]. set_solver.
Qed.

Lemma step_wake_inv c ws1 ws2 self id a res c' :
  threads_inv c (ws1 ++ (self, id, a) :: ws2) → del_must_wait c id = Some false →
  del_wakeup self c id a = Some (res, c') → threads_inv c' (ws1 ++ ws2).
Proof.
  intros [Hi Hnd Hids Hex] Hw Hdw.
  destruct (Hids self id a) as (s & Hs & Hid & Hd); [set_solver|].
  assert (currently_executing c ≠ Some a) as Hne.
  { intros He. unfold del_must_wait in Hw. rewrite He, Hs in Hw; simpl in Hw.
    rewrite Hid in Hw; simpl in Hw. rewrite Z.eqb_refl in Hw. done. }
  assert (addrs (ws1 ++ (self, id, a) :: ws2) ≡ₚ a :: addrs (ws1 ++ ws2)) as Hadd.
  { unfold addrs. rewrite !fmap_app. simpl. by rewrite Permutation_middle. }
  rewrite Hadd in Hnd. apply NoDup_cons in Hnd as [Hfr Hnd].
  assert (held_of c (ws1 ++ (self, id, a) :: ws2) ≡ₚ a :: held_of c (ws1 ++ ws2)) as Hh.
  { unfold held_of. case_match; [|done]. rewrite Hadd, filter_cons_True by congruence. apply perm_swap. }
  apply (inv_perm _ _ _ Hh) in Hi.
  unfold del_wakeup in Hdw. rewrite Hs in Hdw; simpl in Hdw.
  destruct (sched_release_spec a _ c Hi) as (c1 & Hrel & H1 & Hh1 & [Km Kn Ke Kt _]).
  rewrite Hrel in Hdw; simpl in Hdw.
  assert (mem c' = mem c1 ∧ currently_executing c' = currently_executing c1 ∧
    (∀ held, sched_inv held c1 → sched_inv held c')) as (Em & Ee & Hinv).
  { unfold del_return in Hdw. repeat case_match; simplify_eq; eauto using inv_last_del. }
  constructor; [|done| |].
  - apply Hinv. unfold held_of in *. by rewrite Ee, Ke.
  - intros t i b Hb. rewrite Em, Km; [apply (Hids t i b); set_solver|].
    apply elem_of_app; right. apply addrs_held, elem_of_addrs. eauto.
  - intros e r He Hr. rewrite Ee, Ke in He. rewrite Em, Km in Hr.
    + destruct (Hex e r He Hr) as [? Hdel]. split; [done|]. intros Hd'.
      specialize (Hdel Hd'). rewrite Hadd in Hdel. apply elem_of_cons in Hdel as [->|]; [done|done].
    + apply elem_of_app; right. by apply exec_held.
Qed.

Lemma step_take_inv c ws self limit a c' :
  threads_inv c ws → currently_executing c = None → tv_ok limit →
  runq_take self limit c = Some (Some a, c') → threads_inv c' ws.
Proof.
  intros [Hi Hnd Hids Hex] Hx Hl Ht.
  destruct (runq_take_spec _ self limit c Hi Hl) as (r & c1 & Ht' & Hr).
  rewrite Ht in Ht'. simplify_eq.
  destruct Hr as (i & s & Ha & Hs & Hid & Hp & Hdue & _ & H1 & Hp1 & Hm1 & Hn1 & Ht1 & He1 &
    Hx1 & Hy1 & Hd & Hw).
  assert (a ∉ addrs ws) as Hna.
  { pose proof (inv_nodup _ _ Hi) as (_ & Hdisj & _)%NoDup_app. unfold held_of in Hdisj.
    rewrite Hx in Hdisj. specialize (Hdisj a Ha). set_solver. }
  constructor; [|done| |].
  - unfold held_of in *. rewrite Hx in *. rewrite Hx1, filter_ne_absent by done. done.
  - rewrite Hm1. done.
  - intros e r. rewrite Hx1, Hm1. intros [= <-] Hr. simplify_eq. split; [done|congruence].
Qed.

Lemma step_return_inv c ws e s res c' :
  threads_inv c ws → currently_executing c = Some e → mem c !! e = Some s →
  tie_breaker c + 1 < 2 ^ 31 → (res ≠ 0 → 0 <= next_interval s res < 2 ^ 31) →
  runq_return true c e res = Some c' → threads_inv c' ws.
Proof.
  intros [Hi Hnd Hids Hex] Hx Hs HT Hiv Hret. unfold held_of in Hi. rewrite Hx in Hi.
  destruct (inv_held _ _ e Hi) as (s0 & i & Hs0 & Hid); [set_solver|]. simplify_eq.
  destruct (Hex e s Hx Hs) as [Hw Hdel]. destruct (deleted s) eqn:Hd.
  - unfold runq_return in Hret; simpl in Hret. rewrite Hs in Hret; simpl in Hret.
    rewrite Hd in Hret; simplify_eq/=.
    assert (sched_inv (addrs ws) (upd_currently_executing (λ _, None) c)) as H1.
    { eapply inv_perm; [symmetry; apply filter_ne_present; auto|]. destruct Hi; by constructor. }
    destruct (inv_set_member e _ _ s (set_rescheduled (negb (res =? 0)) s) H1) as [H2 _]; auto.
    constructor; simpl; [done|done| |done].
    intros t j a Ha. destruct (Hids t j a Ha) as (r & Hr & ? & ?).
    destruct (decide (e = a)) as [<-|]; [|rewrite lookup_insert_ne by done; eauto].
    rewrite lookup_insert_eq. simplify_eq. eexists; by split_and!.
  - assert (e ∉ addrs ws) as Hne.
    { intros (t & j & Hj)%elem_of_addrs. destruct (Hids t j e Hj) as (r & ? & ? & ?). congruence. }
    rewrite filter_ne_absent in Hi by done.
    assert (sched_inv (addrs ws) c' ∧ currently_executing c' = None ∧
      ∀ a, a ∈ addrs ws → mem c' !! a = mem c !! a) as (H1 & Hx1 & Hm).
    { destruct (decide (res = 0)) as [->|Hr0].
      - destruct (runq_return_release e _ c s i Hi Hs Hid Hd true)
          as (c1 & Hr & ? & _ & _ & ? & _ & _ & Hm). simplify_eq.
        split_and!; auto. intros a Ha. apply Hm. set_solver.
      - destruct (runq_return_resched e _ c s i res Hi Hs Hid Hd Hw Hr0 HT (Hiv Hr0))
          as (c1 & s' & Hr & ? & _ & Hm & _ & _ & ? & _). simplify_eq.
        split_and!; auto. intros a Ha. rewrite Hm. apply lookup_insert_ne. set_solver. }
    constructor; [unfold held_of; by rewrite Hx1|done| |intros ? ?; by rewrite Hx1].
    intros t j a Ha. rewrite Hm; [eauto|]. apply elem_of_addrs. eauto.
Qed.

Lemma sched_step_inv c ws c' ws' :
  sched_step (c, ws) (c', ws') → threads_inv c ws → threads_inv c' ws'.
Proof.
  intros Hstep Hi. inversion Hstep; simplify_eq.
  - apply (threads_inv_keep c); auto. apply inv_tick; [apply Hi|done].
  - destruct (ast_sched_add_grows o _ c iv cb dat var (ti_inv _ _ Hi))
      as (id' & c1 & Hadd & H1 & _ & Ee & _ & Hm & _); auto. simplify_eq.
    apply (threads_inv_keep c); auto. intros a Ha. apply Hm. apply elem_of_app. by right.
  - eauto using step_del_inv.
  - eauto using step_del_wait_inv.
  - eauto using step_wake_inv.
  - eauto using step_take_inv.
  - eauto using step_return_inv.
Qed.

End Threads.

(** A context created around an empty heap. *)
Lemma create_inv {Q : Type} `{!PrioQueue addr Q} `{!PrioQueueLaws addr Q} (q : Q) t c :
  pq_inv (sched_time_cmp ∅) (task_ok ∅ 0) q → pq_elems q = [] → tv_ok t →
  ast_sched_context_create (Some q) t = Some c → sched_inv [] c.
Proof.
  intros Hq He Ht [= <-]. constructor; simpl; unfold elems; simpl; rewrite ?He; auto;
    try (by intros; set_solver); try lia.
  - constructor.
  - intros a. rewrite lookup_empty. split; [by intros []|set_solver].
  - unfold INT_MAX. lia.
  - unfold SCHED_MAX_CACHE. simpl. lia.
Qed.

(** The heap [ast_heap_create(8, sched_time_cmp, ...)] returns. *)
Definition empty_heap : ast_heap addr := Heap 88 0 255 ∅ ∅.

Lemma empty_heap_create cmp : _ast_heap_create true 8 (Some cmp) 88 ∅ = Some empty_heap.
Proof. reflexivity. Qed.

Lemma empty_heap_inv cmp P : pq_inv cmp P empty_heap ∧ pq_elems empty_heap = [].
Proof.
  split; [|done]. simpl. split_and!; [constructor; simpl; intros; lia| |done].
  intros j ?. simpl in *. lia.
Qed.

Module Properties.
Section Claims.
Context {Q : Type} `{!PrioQueue addr Q} `{!PrioQueueLaws addr Q}.
Implicit Types c : ast_sched_context Q.

(** C24: scheduling a task that is not due in the past, while the tie breakers
    do not overflow.  It may return [-1] and leave the pending tasks alone, only
    when there is no record (none cached, none allocated) or no free identifier.
    Otherwise it returns an identifier that no pending or held task has, and adds
    exactly that task, due [iv] milliseconds from now and after every pending task
    that is due at the same time - but when the heap is refused memory to grow, it
    may be that no task is added under the identifier returned, and that its record
    stays allocated without an owner. *)
Theorem ast_sched_add_correct o held c iv cb dat :
  sched_inv held c → (∀ a, new_sched o = Some a → mem c !! a = None) →
  tie_breaker c + 1 < 2 ^ 31 → 0 <= iv < 2 ^ 31 →
  ∃ id c' lost, ast_sched_add o c iv cb dat = Some (id, c') ∧ sched_inv (lost ++ held) c' ∧
    (id = -1 ∧ lost = [] ∧ pending c' = pending c ∧
       (schedc c = [] ∧ new_sched o = None ∨ id_queue c = []) ∨
     1 <= id ∧ pending c !! id = None ∧ (id ∉ ids_of (mem c) held) ∧
     (heap_grows o = false ∧ (∃ a, lost = [a]) ∧ pending c' = pending c ∨
      lost = [] ∧
      ∃ s, pending c' = <[id := s]> (pending c) ∧ callback s = cb ∧ data s = dat ∧
        resched s = iv ∧ usecs (when s) = usecs (now c) + iv * 1000 ∧
        (∀ j r, pending c !! j = Some r → usecs (when r) <= usecs (when s) → sooner r s))).
Proof.
  intros Hc Hf HT Hiv.
  destruct (ast_sched_add_variable_spec o held c iv cb dat 0 Hc Hf HT Hiv) as
    (id & c' & lost & Hadd & H' & _ & _ & _ & _ & _ & Hcase).
  exists id, c', lost. split; [done|]. split; [done|].
  destruct Hcase as [(? & ? & ? & _ & ?)|(? & ? & ? & [Hl|(? & s & ? & ? & ? & ? & _ & _ & _ & ? & Htie)])];
    [by left|right; split_and!; auto..]. right. split; [done|]. exists s. split_and!; auto.
  intros j r Hj Hle. specialize (Htie j r Hj). unfold sooner. lia.
Qed.

(** C25: deleting an identifier removes the pending task that has it and no
    other; an identifier that no task has is refused; the deletion of a task
    that another thread executes marks it and waits. *)
Theorem ast_sched_del_correct held self c id :
  sched_inv held c → (∀ e, currently_executing c = Some e → e ∈ held) → 0 <= id →
  ∃ r, ast_sched_del self c id = Some r ∧
    match r with
    | DelDone res c' => sched_inv held c' ∧ now c' = now c ∧
        (res = 0 ∧ is_Some (pending c !! id) ∧ pending c' = delete id (pending c) ∨
         res = -1 ∧ pending c !! id = None ∧ pending c' = pending c ∧ mem c' = mem c ∧
           (executing_id c ≠ Some id ∨ executing_thread_id c = self))
    | DelWait e c' => sched_inv held c' ∧ pending c' = pending c ∧
        currently_executing c = Some e ∧ executing_id c = Some id ∧
        executing_thread_id c ≠ self ∧ (deleted <$> mem c' !! e) = Some true
    end.
Proof.
  intros Hc Hex Hid. unfold ast_sched_del.
  destruct (ast_sched_del_nonrunning_spec held self c id Hc Hex) as (r & -> & Hpost).
  cbn [mbind option_bind].
  destruct Hpost as [|c' s Hp H1 Hp1 [_ Kn _ _ _]|c' ? Hp Hx H1 Hp1 [_ Kn _ _ _] ? ?
    |e s He Hs Hi Ht Hp H1 Hp1]; [lia|..]; (eexists; split; [done|]); simpl; split_and!; eauto.
  - right. by split_and!.
  - unfold executing_id. rewrite He; simpl. rewrite Hs; simpl. done.
  - by rewrite lookup_insert_eq.
Qed.

(** C23: when the callbacks of the due tasks ask for no rescheduling, running
    the queue returns, has run each task due within the next millisecond
    exactly once, soonest first and in the order of scheduling among those due
    at the same time, and leaves exactly the others pending. *)
Theorem ast_sched_runq_correct call grows self held c fuel :
  sched_inv held c → (∀ cb d c, call cb d c = (0, c)) → (length (elems c) < fuel)%nat →
  ∃ l recs c', ast_sched_runq call grows fuel self c = Some (Z.of_nat (length l), l, c') ∧
    sched_inv held c' ∧ ran_oneshot (ast_tvadd (now c) (ast_tv 0 1000)) c l recs c'.
Proof.
  intros Hc Hcall Hf. unfold ast_sched_runq.
  destruct (runq_loop_oneshot call grows self (ast_tvadd (now c) (ast_tv 0 1000)) Hcall
    (ast_tvadd_ok _ _) fuel c held Hc Hf) as (l & recs & c' & -> & ? & ?).
  cbn [mbind option_bind]. by exists l, recs, c'.
Qed.

(** Tasks that reschedule themselves at intervals of at least one
    millisecond cannot keep the queue running for ever: with [n] tasks queued
    it returns after at most [2 n] callbacks, and no pending task is due then. *)
Theorem ast_sched_runq_terminates (f : Z → Z → Z) self held c fuel :
  sched_inv held c → intervals_ok f c → (2 * length (elems c) < fuel)%nat →
  tie_breaker c + 2 * Z.of_nat (length (elems c)) < 2 ^ 31 →
  ∃ n l c', ast_sched_runq (λ cb d c, (f cb d, c)) (λ _, true) fuel self c = Some (n, l, c') ∧
    0 <= n <= 2 * Z.of_nat (length (elems c)) ∧ sched_inv held c' ∧
    (∀ i s, pending c' !! i = Some s → usecs (now c) + 1000 <= usecs (when s)) ∧
    dom (pending c') ⊆ dom (pending c).
Proof.
  intros Hc Hiv Hf HT. unfold ast_sched_runq.
  pose proof (total_runs_bound (now c) (mem c) (elems c)) as Hb.
  assert (usecs (ast_tvadd (now c) (ast_tv 0 1000)) = usecs (now c) + 1000) as Hlim.
  { rewrite ast_tvadd_usecs; [done|apply (inv_now _ _ Hc)|done]. }
  destruct (runq_loop_resched f self (now c) (ast_tvadd (now c) (ast_tv 0 1000))
    (ast_tvadd_ok _ _) Hlim fuel c held Hc) as (l & c' & -> & ? & ? & ? & Hnd & ?);
    [done|done|lia|lia|].
  cbn [mbind option_bind]. eexists _, l, c'. split; [done|]. split_and!; auto; [lia..|].
  intros i s Hi. specialize (Hnd i s Hi). unfold due in Hnd. lia.
Qed.

(** C7: threads that add, delete and run tasks in any interleaving, where the
    heap finds memory, no interval is negative, tie breakers do not overflow, one
    thread at a time runs the queue and no two threads delete the task that is being executed at the same time (see
    [ast_sched_del_twice_double_release]): in every reachable state the records
    are owned once, the identifiers in use and the free ones are exactly
    [1 .. n], the heap is ordered, and no thread can follow an invalid pointer: a
    deletion, a run of the queue and a woken deletion all succeed. *)
Theorem sched_threads_safe (c0 c : ast_sched_context Q) ws :
  sched_inv [] c0 → currently_executing c0 = None →
  rtc sched_step (c0, []) (c, ws) →
  sched_inv (held_of c ws) c ∧
  (∀ self id, is_Some (ast_sched_del_nonrunning self c id)) ∧
  (∀ self limit, tv_ok limit → is_Some (runq_take self limit c)) ∧
  (∀ self id a, (self, id, a) ∈ ws →
     pending c !! id = None ∧ (id ∉ id_queue c) ∧ is_Some (del_wakeup self c id a)).
Proof.
  intros H0 He Hrtc.
  assert (threads_inv c ws) as Hi.
  { assert (threads_inv c0 []) as Hi0.
    { constructor; [unfold held_of; by rewrite He|constructor|set_solver|congruence]. }
    remember (c0, @nil (tid * Z * addr)) as p0 eqn:Ep0. remember (c, ws) as p eqn:Ep.
    clear H0 He. revert c0 c ws Ep0 Ep Hi0. generalize (@nil (tid * Z * addr)) as ws0.
    induction Hrtc as [p|p [c1 ws1] p' Hs _ IH]; intros ws0 c0 c ws -> Ep Hi0; [by simplify_eq|].
    eapply IH; eauto using sched_step_inv. }
  destruct Hi as [Hc Hnd Hids Hex]. split_and!; [done|..].
  - intros self id. destruct (ast_sched_del_nonrunning_spec _ self c id Hc) as (r & -> & _); [|done].
    intros e ?. by apply exec_held.
  - intros self limit Hl. by destruct (runq_take_spec _ self limit c Hc Hl) as (r & c' & -> & _).
  - intros self id a Hw. destruct (Hids self id a Hw) as (s & Hs & Hid & _).
    assert (a ∈ held_of c ws) as Ha by (apply addrs_held, elem_of_addrs; eauto).
    pose proof (inv_ids_NoDup _ _ Hc) as (_ & Hdisj & _)%NoDup_app.
    split_and!.
    + apply (pending_None _ _ _ Hc). intros b r Hb Hr Hi.
      assert (a = b) by (eapply (inv_id_inj _ c a b s r id Hc); eauto; set_solver). subst b.
      pose proof (inv_nodup _ _ Hc) as (_ & Hd & _)%NoDup_app. specialize (Hd a Hb). set_solver.
    + intros Hq. apply (Hdisj id Hq), elem_of_ids_of. exists a, s. split_and!; auto. set_solver.
    + unfold del_wakeup. rewrite Hs; simpl.
      apply elem_of_Permutation in Ha as (l & Hl). apply (inv_perm _ _ _ Hl) in Hc.
      destruct (sched_release_spec a l c Hc) as (c' & -> & _). done.
Qed.

(** Cleaning by callback returns, unschedules only tasks of that callback,
    hands the data of each to the cleanup function, and keeps every other task. *)
Theorem ast_sched_clean_by_callback_sound held c match_ :
  sched_inv held c →
  ∃ ds c', ast_sched_clean_by_callback c match_ = Some (ds, c') ∧ sched_inv held c' ∧
    cleaned match_ c ds c'.
Proof.
  intros Hc. unfold ast_sched_clean_by_callback.
  apply (clean_loop_spec match_ _ 1 c held Hc); [lia..|].
  rewrite (pq_size_elems _ _ _ (inv_heap _ _ Hc)). unfold elems. lia.
Qed.

(** The time to wait is that of the soonest pending task, never negative,
    and [-1] exactly when nothing is pending. *)
Theorem ast_sched_wait_correct held c :
  sched_inv held c →
  ∃ ms, ast_sched_wait c = Some ms ∧
    ((ms = -1 ∧ pending c = ∅) ∨
     ∃ i s, pending c !! i = Some s ∧ (∀ j r, pending c !! j = Some r → sooner s r) ∧
       ms = Z.max 0 (s32 ((usecs (when s) - usecs (now c)) / 1000))).
Proof. apply ast_sched_wait_spec. Qed.

(** Destroying a context in which no task is executing frees every
    record and every identifier. *)
Theorem ast_sched_context_destroy_frees c :
  sched_inv [] c →
  ∃ c', ast_sched_context_destroy c = Some c' ∧ mem c' = ∅ ∧ id_queue c' = [].
Proof.
  intros Hc. destruct (ast_sched_context_destroy_spec c Hc) as (c' & -> & ? & ? & _). eauto.
Qed.

End Claims.
(** *** Concrete contexts *)

Definition demo0 : ast_sched_context (ast_heap addr) :=
  SchedContext 1 0 0 empty_heap None 1%positive [] 0 [] 0 ∅ (Tv 1000 0) ∅.

Definition add_to (c : ast_sched_context (ast_heap addr)) (t : addr * Z * Z * Z) :
    ast_sched_context (ast_heap addr) :=
  let '(a, iv, cb, dat) := t in
  match ast_sched_add (Allocs (Some a) 16 true) c iv cb dat with
  | Some (_, c) => c
  | None => c
  end.

(** Six tasks: address, interval, callback, data. *)
Definition demo_tasks : list (addr * Z * Z * Z) :=
  [(1%positive, 100, 1, 11); (2%positive, 1000, 1, 12); (3%positive, 200, 1, 13);
   (4%positive, 2000, 7, 14); (5%positive, 1100, 1, 15); (6%positive, 300, 7, 16)].

Definition demo : ast_sched_context (ast_heap addr) := foldl add_to demo0 demo_tasks.

Lemma demo0_inv : sched_inv [] demo0.
Proof.
  destruct (empty_heap_inv (sched_time_cmp ∅) (task_ok ∅ 0)) as [H1 H2].
  refine (create_inv empty_heap (Tv 1000 0) demo0 H1 H2 _ eq_refl).
  unfold tv_ok, ONE_MILLION; simpl. lia.
Qed.

Lemma add_to_inv c a iv cb dat :
  sched_inv [] c → mem c !! a = None → (tie_breaker c + 1 <? 2 ^ 31) = true →
  ((0 <=? iv) && (iv <? 2 ^ 31)) = true → sched_inv [] (add_to c (a, iv, cb, dat)).
Proof.
  intros Hc Ha HT Hiv. unfold add_to, ast_sched_add.
  destruct (ast_sched_add_variable_spec (Allocs (Some a) 16 true) [] c iv cb dat 0 Hc)
    as (id & c' & lost & -> & H' & _ & _ & _ & _ & _ & Hcase); [by intros ? [= <-]|lia|lia|].
  cbn [mbind option_bind]. destruct Hcase as [(_ & -> & _)|(_ & _ & _ & [[? _]|[-> _]])]; done.
Qed.

Lemma demo_inv : sched_inv [] demo.
Proof.
  unfold demo, demo_tasks; cbn [foldl].
  do 6 (apply add_to_inv; [|vm_compute; reflexivity..]). apply demo0_inv.
Qed.

Lemma ast_sched_add_correct_witness :
  ∃ id c' lost, ast_sched_add (Allocs (Some 7%positive) 16 true) demo 300 2 17 = Some (id, c') ∧
    sched_inv (lost ++ []) c'.
Proof.
  destruct (ast_sched_add_correct (Allocs (Some 7%positive) 16 true) [] demo 300 2 17)
    as (id & c' & lost & H & Hi & _); [apply demo_inv|
    |vm_compute; reflexivity|lia|exists id, c', lost; split; assumption].
  intros a [= <-]. vm_compute. reflexivity.
Defined.

Lemma ast_sched_del_correct_witness :
  ∃ r, ast_sched_del 1%positive demo 3 = Some r.
Proof.
  destruct (ast_sched_del_correct [] 1%positive demo 3) as (r & H & _);
    [apply demo_inv|intros e He; vm_compute in He; discriminate|lia|].
  exists r; exact H.
Defined.

Lemma ast_sched_runq_correct_witness :
  ∃ l recs c', ast_sched_runq (λ _ _ c, (0, c)) (λ _, true) 7 1%positive demo =
    Some (Z.of_nat (length l), l, c') ∧
    ran_oneshot (ast_tvadd (now demo) (ast_tv 0 1000)) demo l recs c'.
Proof.
  destruct (ast_sched_runq_correct (λ _ _ c, (0, c)) (λ _, true) 1%positive [] demo 7)
    as (l & recs & c' & H & _ & Hr); [apply demo_inv|reflexivity|vm_compute; lia|].
  exists l, recs, c'; split; assumption.
Defined.

(** The same context three seconds later: every task is due. *)
Definition demo_late : ast_sched_context (ast_heap addr) := upd_now (λ _, Tv 1003 0) demo.

Lemma demo_late_inv : sched_inv [] demo_late.
Proof.
  apply inv_tick; [apply demo_inv|]. unfold tv_ok, ONE_MILLION; simpl. lia.
Qed.

Lemma demo_late_intervals : intervals_ok (λ cb _, if cb =? 7 then 500 else 0) demo_late.
Proof.
  intros i s Hi Hf. cbn beta in *. destruct (callback s =? 7); [|exfalso; by apply Hf].
  unfold next_interval.
  destruct (negb (variable s =? 0)); [lia|].
  apply (pending_lookup [] demo_late) in Hi as (a & Ha & Hs & _); [|apply demo_late_inv].
  assert (Forall (λ a, from_option (λ s, (1 <=? resched s) && (resched s <? 2 ^ 31)) true
    (mem demo_late !! a) = true) (elems demo_late)) as Hall
    by (apply (bool_decide_unpack _); by vm_compute).
  rewrite Forall_forall in Hall. specialize (Hall a Ha). rewrite Hs in Hall. simpl in Hall. lia.
Qed.

Lemma ast_sched_runq_terminates_witness :
  ∃ n l c', ast_sched_runq (λ cb _ c, (if cb =? 7 then 500 else 0, c)) (λ _, true) 13
    1%positive demo_late = Some (n, l, c') ∧ 0 <= n <= 12.
Proof.
  destruct (ast_sched_runq_terminates (λ cb _, if cb =? 7 then 500 else 0) 1%positive []
    demo_late 13) as (n & l & c' & H & Hn & _);
    [apply demo_late_inv|apply demo_late_intervals|vm_compute; lia|vm_compute; reflexivity|].
  exists n, l, c'; split; assumption.
Defined.

(** A thread takes the first task and another one asks to delete it. *)
Definition exec_demo : ast_sched_context (ast_heap addr) :=
  match runq_take 1%positive (Tv 1001 0) demo with Some (_, c) => c | None => demo end.

Definition wait_demo : ast_sched_context (ast_heap addr) :=
  match ast_sched_del_nonrunning 2%positive exec_demo 1 with
  | Some (DelWait _ c) => c
  | _ => exec_demo
  end.

Lemma wait_demo_reachable :
  rtc sched_step (demo, []) (wait_demo, [(2%positive, 1, 1%positive)]).
Proof.
  eapply rtc_l; [eapply (StepTake demo [] 1%positive (Tv 1001 0) 1%positive exec_demo);
    [vm_compute; reflexivity|unfold tv_ok, ONE_MILLION; simpl; lia|vm_compute; reflexivity]|].
  eapply rtc_l; [eapply (StepDelWait exec_demo [] 2%positive 1 1%positive wait_demo);
    [vm_compute; reflexivity|apply not_elem_of_nil]|]. apply rtc_refl.
Qed.

Lemma sched_threads_safe_witness :
  sched_inv (held_of wait_demo [(2%positive, 1, 1%positive)]) wait_demo ∧
  is_Some (del_wakeup 2%positive wait_demo 1 1%positive).
Proof.
  destruct (sched_threads_safe demo wait_demo [(2%positive, 1, 1%positive)])
    as (H1 & _ & _ & H2); [apply demo_inv|vm_compute; reflexivity|apply wait_demo_reachable|].
  split; [exact H1|]. apply (H2 2%positive 1 1%positive). by constructor.
Defined.

Lemma ast_sched_clean_by_callback_sound_witness :
  ∃ ds c', ast_sched_clean_by_callback demo 7 = Some (ds, c') ∧ sched_inv [] c'.
Proof.
  destruct (ast_sched_clean_by_callback_sound [] demo 7) as (ds & c' & H & Hi & _);
    [apply demo_inv|].
  exists ds, c'; split; assumption.
Defined.

Lemma ast_sched_wait_correct_witness : ∃ ms, ast_sched_wait demo = Some ms.
Proof.
  destruct (ast_sched_wait_correct [] demo) as (ms & H & _); [apply demo_inv|].
  exists ms; exact H.
Defined.

Lemma ast_sched_context_destroy_frees_witness :
  ∃ c', ast_sched_context_destroy demo = Some c' ∧ mem c' = ∅.
Proof.
  destruct (ast_sched_context_destroy_frees demo) as (c' & H & Hm & _); [apply demo_inv|].
  exists c'; split; assumption.
Defined.

(** *** Behaviours the code does not guard against *)

(** Cleaning by callback can leave a task of that callback pending: when
    the removal moves the last node of the heap above the position being
    examined, that node is never looked at.  Here the tasks 4 and 6 match and
    only task 4 is removed. *)
Theorem ast_sched_clean_by_callback_misses :
  ∃ (c : ast_sched_context (ast_heap addr)) ds c' s,
    sched_inv [] c ∧ ast_sched_clean_by_callback c 7 = Some (ds, c') ∧
    ds = [14] ∧ pending c' !! 6 = Some s ∧ callback s = 7.
Proof.
  assert (∃ c', ast_sched_clean_by_callback demo 7 = Some ([14], c') ∧
    callback <$> pending c' !! 6 = Some 7) as (c' & Hc & Hp)
    by (eexists; split; vm_compute; reflexivity).
  apply fmap_Some in Hp as (s & Hs & Hcb). exists demo, [14], c', s.
  split; [apply demo_inv|]. split; [exact Hc|]. split; [reflexivity|]. split; [exact Hs|].
  symmetry; exact Hcb.
Qed.

(** Two threads that delete the same executing task both wait for it and
    both release it, so that the cache of records holds it twice and two later
    tasks would share one record. *)
Theorem ast_sched_del_twice_double_release :
  ∃ c1 c2 c3 c4 : ast_sched_context (ast_heap addr),
    ast_sched_del_nonrunning 2%positive exec_demo 1 = Some (DelWait 1%positive c1) ∧
    ast_sched_del_nonrunning 3%positive c1 1 = Some (DelWait 1%positive c2) ∧
    runq_return true c2 1%positive 0 = Some c3 ∧
    (r ← del_wakeup 2%positive c3 1 1%positive; del_wakeup 3%positive r.2 1 1%positive)
      = Some (-2, c4) ∧
    schedc c4 = [1%positive; 1%positive].
Proof.
  eexists _, _, _, _. split; [vm_compute; reflexivity|].
  split; [vm_compute; reflexivity|]. split; [vm_compute; reflexivity|].
  split; vm_compute; reflexivity.
Qed.

End Properties.
