(* ===== verification/FixedJb.v ===== *)
(** * The fixed-length jitter buffer ([main/fixedjitterbuf.c])

    [struct fixed_jb] keeps received frames in a doubly linked list sorted by
    delivery time; [frames] is its head and [tail] its last element.  The model
    keeps the list as a [list] from head to tail, so [tail] is its last
    element and a walk along [prev] is a walk along the reversed list.
    Time stamps and clock values are [long] milliseconds, modelled as [Z].
    [data] is an opaque pointer.  [fixed_jb_put], [fixed_jb_put_first] and
    [resynch_jb] call each other; the recursion is bounded by fuel and proved
    to need two activations of [fixed_jb_put]. *)

From stdpp Require Import base numbers list sorting relations.
From Stdlib Require Import ZArith Lia.
From S2P Require Import Prelude.

(** ** Data *)

Inductive fixed_jb_code :=
  | FIXED_JB_OK | FIXED_JB_DROP | FIXED_JB_INTERP | FIXED_JB_NOFRAME.

#[export] Instance fixed_jb_code_eq_dec : EqDecision fixed_jb_code.
Proof. solve_decision. Defined.

Definition FIXED_JB_SIZE_DEFAULT : Z := 200.
Definition FIXED_JB_RESYNCH_THRESHOLD_DEFAULT : Z := 1000.

Section Model.
Context {D : Type}.

Record fixed_jb_conf := FixedJbConf { jbsize : Z; resync_threshold : Z }.

Record fixed_jb_frame := FixedJbFrame {
  fdata : D;
  fts : Z;
  fms : Z;
  fdelivery : Z;
}.

Record fixed_jb := FixedJb {
  frames : list fixed_jb_frame;
  conf : fixed_jb_conf;
  rxcore : Z;
  delay : Z;
  next_delivery : Z;
  force_resynch : bool;
}.

Implicit Types (jb : fixed_jb) (f : fixed_jb_frame).

(** ** Field updates *)

Definition with_frames (l : list fixed_jb_frame) jb : fixed_jb :=
  FixedJb l (conf jb) (rxcore jb) (delay jb) (next_delivery jb) (force_resynch jb).
Definition with_rxcore (v : Z) jb : fixed_jb :=
  FixedJb (frames jb) (conf jb) v (delay jb) (next_delivery jb) (force_resynch jb).
Definition with_next (v : Z) jb : fixed_jb :=
  FixedJb (frames jb) (conf jb) (rxcore jb) (delay jb) v (force_resynch jb).
Definition with_force (b : bool) jb : fixed_jb :=
  FixedJb (frames jb) (conf jb) (rxcore jb) (delay jb) (next_delivery jb) b.

(** ** Operations *)

(** Unlink the head and move [next_delivery] past it; the caller has checked
    that there is a head ([None] stands for the null dereference). *)
Definition get_jb_head jb : option (fixed_jb_frame * fixed_jb) :=
  match frames jb with
  | [] => None
  | fr :: rest => Some (fr, with_next (fdelivery fr + fms fr) (with_frames rest jb))
  end.

Definition fixed_jb_new (c : fixed_jb_conf) : fixed_jb :=
  let size := if jbsize c <? 1 then FIXED_JB_SIZE_DEFAULT else jbsize c in
  let thr := if resync_threshold c <? 1 then FIXED_JB_RESYNCH_THRESHOLD_DEFAULT
             else resync_threshold c in
  FixedJb [] (FixedJbConf size thr) 0 size 0 false.

Definition fixed_jb_set_force_resynch jb : fixed_jb := with_force true jb.

(** The body of [fixed_jb_put_first], given the [fixed_jb_put] it calls. *)
Definition put_first_with
    (put : fixed_jb → D → Z → Z → Z → option (fixed_jb_code * fixed_jb))
    jb (data : D) (ms ts now : Z) : option (fixed_jb_code * fixed_jb) :=
  let jb := with_rxcore (now - ts) jb in
  let jb := with_next (now + delay jb) jb in
  put jb data ms ts now.

Definition shift_ts (offset : Z) f : fixed_jb_frame :=
  FixedJbFrame (fdata f) (fts f + offset) (fms f) (fdelivery f).

(** The body of [resynch_jb]. *)
Definition resynch_with
    (put : fixed_jb → D → Z → Z → Z → option (fixed_jb_code * fixed_jb))
    jb (data : D) (ms ts now : Z) : option (fixed_jb_code * fixed_jb) :=
  match last (frames jb) with
  | None => put_first_with put jb data ms ts now
  | Some tail =>
    let diff := ts - fts tail in
    let offset := diff - fms tail in
    if negb (force_resynch jb) &&
       ((offset <? resync_threshold (conf jb)) && (offset >? - resync_threshold (conf jb)))
    then Some (FIXED_JB_DROP, jb)
    else
      let jb := with_force false jb in
      let jb := with_rxcore (rxcore jb - offset) jb in
      let jb := with_frames (shift_ts offset <$> frames jb) jb in
      put jb data ms ts now
  end.

(** Walk from the tail along [prev] while the delivery time is later than
    [delivery]: the frames up to the one found (last first) and those after. *)
Fixpoint find_place (delivery : Z) (back : list fixed_jb_frame)
    (after : list fixed_jb_frame) : list fixed_jb_frame * list fixed_jb_frame :=
  match back with
  | [] => ([], after)
  | f :: back' =>
    if fdelivery f >? delivery then find_place delivery back' (f :: after)
    else (back, after)
  end.

(** The new delivery time is covered by the frame found or by its successor. *)
Definition covered (delivery ms : Z) (back after : list fixed_jb_frame) : bool :=
  match back with
  | [] => false
  | f :: _ =>
    (fdelivery f =? delivery) || (delivery <? fdelivery f + fms f) ||
    match after with
    | [] => false
    | nxt :: _ => delivery + ms >? fdelivery nxt
    end
  end.

Fixpoint put_fuel (fuel : nat) jb (data : D) (ms ts now : Z) :
    option (fixed_jb_code * fixed_jb) :=
  match fuel with
  | O => None
  | S fuel =>
    let delivery := rxcore jb + delay jb + ts in
    if delivery <? next_delivery jb then
      resynch_with (put_fuel fuel) jb data ms ts now
    else if delivery >? next_delivery jb + delay jb + resync_threshold (conf jb) then
      resynch_with (put_fuel fuel) jb data ms ts now
    else
      let '(back, after) := find_place delivery (rev (frames jb)) [] in
      if covered delivery ms back after then
        resynch_with (put_fuel fuel) jb data ms ts now
      else
        let jb := with_force false jb in
        let newframe := FixedJbFrame data ts ms delivery in
        Some (FIXED_JB_OK, with_frames (rev back ++ newframe :: after) jb)
  end.

Definition fixed_jb_put := put_fuel 2.
Definition fixed_jb_put_first := put_first_with fixed_jb_put.
Definition resynch_jb := resynch_with fixed_jb_put.

(** [fixed_jb_get] fills the caller's frame only when it returns one. *)
Definition fixed_jb_get jb (now interpl : Z) :
    option (fixed_jb_code * option fixed_jb_frame * fixed_jb) :=
  if now <? next_delivery jb then Some (FIXED_JB_NOFRAME, None, jb)
  else
    match frames jb with
    | [] => Some (FIXED_JB_INTERP, None, with_next (next_delivery jb + interpl) jb)
    | hd :: _ =>
      if now >? fdelivery hd + fms hd then
        '(fr, jb) ← get_jb_head jb; Some (FIXED_JB_DROP, Some fr, jb)
      else if now <? fdelivery hd then
        Some (FIXED_JB_INTERP, None, with_next (next_delivery jb + interpl) jb)
      else
        '(fr, jb) ← get_jb_head jb; Some (FIXED_JB_OK, Some fr, jb)
    end.

Definition fixed_jb_next jb : Z := next_delivery jb.

Definition fixed_jb_remove jb : option (fixed_jb_code * option fixed_jb_frame * fixed_jb) :=
  match frames jb with
  | [] => Some (FIXED_JB_NOFRAME, None, jb)
  | _ :: _ => '(fr, jb) ← get_jb_head jb; Some (FIXED_JB_OK, Some fr, jb)
  end.

Definition fixed_jb_is_late jb (ts : Z) : bool :=
  rxcore jb + delay jb + ts <? next_delivery jb.

End Model.

Arguments fixed_jb_frame D : clear implicits.
Arguments fixed_jb D : clear implicits.

(** ** Specification vocabulary *)

Section Spec.
Context {D : Type}.
Implicit Types (jb : fixed_jb D) (f g : fixed_jb_frame D) (l : list (fixed_jb_frame D)).

(** What [fixed_jb_new] establishes and nothing changes. *)
Definition conf_ok jb : Prop := 1 <= delay jb ∧ 1 <= resync_threshold (conf jb).

Definition by_delivery f g : Prop := fdelivery f < fdelivery g.

(** The invariant of the buffer: every queued frame is to be delivered at its
    time stamp translated to the receiver's clock, and the queue is strictly
    sorted by delivery time. *)
Record jb_inv jb : Prop := {
  inv_conf : conf_ok jb;
  inv_frame : ∀ f, f ∈ frames jb → fdelivery f = rxcore jb + delay jb + fts f ∧ 2 <= fms f;
  inv_sorted : StronglySorted by_delivery (frames jb);
}.

(** What [fixed_jb_put] does to the queue.  [k] is the time stamp offset a
    resynchronisation applied ([0] without one); delivery times of queued
    frames never change. *)
Inductive put_post jb (data : D) (ms ts now : Z) : fixed_jb_code → fixed_jb D → Prop :=
  | put_dropped k jb' :
      frames jb' = shift_ts k <$> frames jb →
      next_delivery jb' = next_delivery jb →
      put_post jb data ms ts now FIXED_JB_DROP jb'
  | put_inserted k l1 l2 f jb' :
      shift_ts k <$> frames jb = l1 ++ l2 →
      frames jb' = l1 ++ f :: l2 →
      fdata f = data → fms f = ms → fts f = ts →
      next_delivery jb' <= fdelivery f →
      (next_delivery jb' = next_delivery jb ∨
       frames jb = [] ∧ next_delivery jb' = now + delay jb) →
      force_resynch jb' = false →
      put_post jb data ms ts now FIXED_JB_OK jb'.

(** ** Lists sorted by delivery *)

Lemma find_place_spec d (back after back' after' : list (fixed_jb_frame D)) :
  find_place d back after = (back', after') →
  rev back ++ after = rev back' ++ after' ∧
  (∃ moved, after' = moved ++ after ∧ Forall (λ f, d < fdelivery f) moved) ∧
  (∀ f, head back' = Some f → fdelivery f <= d).
Proof.
  revert after. induction back as [|f back IH]; intros after Hfp; simpl in Hfp.
  { simplify_eq/=. split_and!; try done. by exists []. }
  destruct (fdelivery f >? d) eqn:Ef; [|simplify_eq/=].
  - destruct (IH (f :: after) Hfp) as (Heq & (moved & Hm1 & Hm2) & Hhd).
    split_and!; try done.
    + rewrite <- Heq. simpl. by rewrite <- (assoc_L app).
    + exists (moved ++ [f]). rewrite <- (assoc_L app). split; [done|].
      apply Forall_app; split; [done|]. constructor; [lia | done].
  - split_and!; try done; [by exists []|]. intros g [= <-]. lia.
Qed.

(** In a sorted list the last frame is the latest. *)
Lemma sorted_last_max l f g :
  StronglySorted by_delivery l → last l = Some f → g ∈ l → g = f ∨ by_delivery g f.
Proof.
  intros Hs Hl Hg. apply last_Some in Hl as [l' ->].
  apply elem_of_app in Hg as [Hg| ->%list_elem_of_singleton]; [right | by left].
  eapply StronglySorted_app_1_elem_of; eauto. by apply list_elem_of_singleton.
Qed.

Lemma shift_0 l : shift_ts 0 <$> l = l.
Proof.
  induction l as [|[] l IH]; csimpl; [done|]. rewrite IH.
  unfold shift_ts; simpl. by rewrite Z.add_0_r.
Qed.

Lemma sorted_shift k l :
  StronglySorted by_delivery l → StronglySorted by_delivery (shift_ts k <$> l).
Proof.
  induction 1 as [|f l Hs IH Hf]; csimpl; constructor; auto.
  apply Forall_fmap. eapply Forall_impl; [done|]. done.
Qed.

(** ** One activation of [fixed_jb_put] *)

(** The insertion branch keeps the invariant. *)
Lemma insert_inv jb data ms ts back after :
  jb_inv jb → 2 <= ms →
  find_place (rxcore jb + delay jb + ts) (rev (frames jb)) [] = (back, after) →
  covered (rxcore jb + delay jb + ts) ms back after = false →
  let f := FixedJbFrame data ts ms (rxcore jb + delay jb + ts) in
  frames jb = rev back ++ after ∧
  jb_inv (with_frames (rev back ++ f :: after) (with_force false jb)).
Proof.
  intros [Hconf Hfr Hs] Hms Hfp Hcov f.
  apply find_place_spec in Hfp as (Heq & (moved & Haft & Hmoved) & Hhd).
  rewrite rev_involutive, app_nil_r in *. simplify_eq.
  rewrite Heq in Hfr, Hs. apply StronglySorted_app in Hs as (Hs12 & Hs1 & Hs2).
  split; [done|]. constructor; simpl; [done| |].
  - intros g Hg. apply elem_of_app in Hg as [Hg|[->|Hg]%elem_of_cons];
      [apply Hfr; set_solver | done | apply Hfr; set_solver].
  - assert (∀ x, x ∈ rev back → by_delivery x f) as Hbefore.
    { destruct back as [|g back]; [intros x []%elem_of_nil|].
      specialize (Hhd g eq_refl). unfold covered in Hcov.
      assert (by_delivery g f) as Hgf.
      { unfold by_delivery; simpl. destruct (Hfr g) as [_ ?]; [simpl; set_solver|].
        destruct (fdelivery g =? rxcore jb + delay jb + ts) eqn:?; [done|]. lia. }
      intros x Hx. destruct (sorted_last_max (rev (g :: back)) g x) as [->|Hxg]; auto.
      - simpl. by rewrite last_snoc.
      - unfold by_delivery in *. lia. }
    apply StronglySorted_app_2; [|done|].
    + intros x y Hx [->|Hy]%elem_of_cons; auto.
    + constructor; [done|]. eapply Forall_impl; [apply Hmoved|]. done.
Qed.

(** The state [resynch_jb] hands to [fixed_jb_put]. *)
Definition resynced jb (offset : Z) : fixed_jb D :=
  with_frames (shift_ts offset <$> frames jb)
    (with_rxcore (rxcore jb - offset) (with_force false jb)).

Lemma resynced_inv jb k : jb_inv jb → jb_inv (resynced jb k).
Proof.
  intros [Hc Hf Hs]. constructor; simpl; [done| |by apply sorted_shift].
  intros f (g & -> & Hg)%list_elem_of_fmap. destruct (Hf g Hg). simpl. lia.
Qed.

Lemma put_S n jb data ms ts now :
  jb_inv jb → 2 <= ms →
  (∃ jb', put_fuel (S n) jb data ms ts now = Some (FIXED_JB_OK, jb') ∧
     jb_inv jb' ∧ delay jb' = delay jb ∧ put_post jb data ms ts now FIXED_JB_OK jb') ∨
  (put_fuel (S n) jb data ms ts now = resynch_with (put_fuel n) jb data ms ts now ∧
   (frames jb = [] → rxcore jb + delay jb + ts ≠ next_delivery jb)).
Proof.
  intros Hinv Hms. pose proof (inv_conf _ Hinv) as [Hd Ht]. cbn [put_fuel].
  destruct (_ <? next_delivery jb) eqn:E1; [right; split; [done|]; lia|].
  destruct (_ >? next_delivery jb + delay jb + _) eqn:E2; [right; split; [done|]; lia|].
  destruct (find_place _ _ _) as [back after] eqn:Efp.
  destruct (covered _ _ _ _) eqn:Ecov.
  { right. split; [done|]. intros Hnil. rewrite Hnil in Efp. simpl in Efp. by simplify_eq. }
  left. destruct (insert_inv jb data ms ts back after) as [Hfr Hinv']; auto.
  eexists; split_and!; try done.
  eapply (put_inserted _ _ _ _ _ 0 (rev back) after); simpl; try done.
  - by rewrite shift_0.
  - simpl. lia.
  - by left.
Qed.

(** More fuel does not change a result. *)
Lemma put_fuel_mono n k jb data ms ts now r :
  put_fuel n jb data ms ts now = Some r → put_fuel (n + k) jb data ms ts now = Some r.
Proof.
  revert jb. induction n as [|n IH]; intros jb; [done|]. cbn [put_fuel plus].
  assert (∀ jb, resynch_with (put_fuel n) jb data ms ts now = Some r →
    resynch_with (put_fuel (n + k)) jb data ms ts now = Some r) as Hres.
  { intros jb1. unfold resynch_with, put_first_with. repeat case_match; eauto. }
  repeat case_match; eauto.
Qed.

(** [fixed_jb_put] always returns, whatever the extra fuel, keeps the
    invariant and does to the queue what [put_post] says. *)
Lemma put_fuel_spec n jb data ms ts now :
  jb_inv jb → 2 <= ms →
  ∃ code jb', put_fuel (S (S n)) jb data ms ts now = Some (code, jb') ∧
    jb_inv jb' ∧ delay jb' = delay jb ∧ put_post jb data ms ts now code jb'.
Proof.
  intros Hinv Hms. pose proof (inv_conf _ Hinv) as [Hd Ht].
  destruct (put_S (S n) jb data ms ts now) as [(jb' & ? & ? & ? & ?)|[Hput0 Hne]];
    [done | done | by eexists _, _ |].
  setoid_rewrite Hput0. clear Hput0. unfold resynch_with. destruct (last (frames jb)) as [tail|] eqn:El.
  - case_match eqn:Ethr.
    { exists FIXED_JB_DROP, jb; split_and!; auto.
      apply (put_dropped _ _ _ _ _ 0); [by rewrite shift_0 | done]. }
    set (k := ts - fts tail - fms tail).
    assert (last (frames (resynced jb k)) = Some (shift_ts k tail)) as El'.
    { simpl. rewrite fmap_last, El. done. }
    destruct (put_S n (resynced jb k) data ms ts now)
      as [(jb' & Hput & Hinv' & Hdel & Hpost)|[Hput _]]; auto using resynced_inv.
    + exists FIXED_JB_OK, jb'. split_and!; auto.
      inversion Hpost as [|k' l1 l2 f ? Hl Hl' ? ? ? ? Hnext ?]; subst. simpl in *.
      rewrite <- list_fmap_compose in Hl.
      eapply (put_inserted _ _ _ _ _ (k + k') l1 l2); eauto.
      * rewrite <- Hl. apply list_fmap_ext. intros ? [] _. unfold shift_ts; simpl. f_equal. lia.
      * left. destruct Hnext as [|[Hnil _]]; [done|]. apply fmap_nil_inv in Hnil.
        by rewrite Hnil in El.
    + exists FIXED_JB_DROP, (resynced jb k). split_and!; auto using resynced_inv.
      * change (put_fuel (S n) (resynced jb k) data ms ts now = Some (FIXED_JB_DROP, resynced jb k)).
        rewrite Hput. unfold resynch_with. rewrite El'. simpl.
        replace (ts - (fts tail + k) - fms tail) with 0 by lia.
        by rewrite (proj2 (Z.ltb_lt _ _)), (proj2 (Z.gtb_lt _ _)) by lia.
      * by eapply (put_dropped _ _ _ _ _ k).
  - apply last_None in El. unfold put_first_with.
    set (jb1 := with_next _ _).
    assert (jb_inv jb1) as Hinv1.
    { constructor; simpl; rewrite ?El; [done| intros f []%elem_of_nil | constructor]. }
    destruct (put_S n jb1 data ms ts now) as [(jb' & Hput & Hinv' & Hdel & Hpost)|[_ Hbad]]; auto.
    + exists FIXED_JB_OK, jb'. split_and!; auto.
      inversion Hpost as [|k' l1 l2 f ? Hl Hl' ? ? ? ? Hnext ?]; subst. simpl in *.
      eapply (put_inserted _ _ _ _ _ k' l1 l2); eauto.
      right. split; [done|]. destruct Hnext as [|[_ ?]]; done.
    + exfalso. apply Hbad; simpl; [done | lia].
Qed.

End Spec.

(** ** Runs of the buffer

    The receiver puts frames as they arrive and asks for a frame at successive
    clock readings; [rs_last] is the delivery time of the last frame handed
    out by such a read.  Frames may also be removed without regard to the time. *)
Section Runs.
Context {D : Type}.
Implicit Types (jb : fixed_jb D) (f g : fixed_jb_frame D).

Record run_state := RunState {
  rs_jb : fixed_jb D;
  rs_now : Z;
  rs_last : option Z;
}.

Inductive fjb_step : run_state → run_state → Prop :=
  | step_put jb t lst data ms ts now code jb' :
      t <= now → 2 <= ms →
      fixed_jb_put jb data ms ts now = Some (code, jb') →
      fjb_step (RunState jb t lst) (RunState jb' now lst)
  | step_put_first jb t lst data ms ts now code jb' :
      t <= now → 2 <= ms → frames jb = [] →
      fixed_jb_put_first jb data ms ts now = Some (code, jb') →
      fjb_step (RunState jb t lst) (RunState jb' now lst)
  | step_get jb t lst now interpl code fo jb' :
      t <= now → 2 <= interpl →
      fixed_jb_get jb now interpl = Some (code, fo, jb') →
      fjb_step (RunState jb t lst)
        (RunState jb' now (match fo with Some f => Some (fdelivery f) | None => lst end))
  | step_remove jb t lst code fo jb' :
      fixed_jb_remove jb = Some (code, fo, jb') →
      fjb_step (RunState jb t lst) (RunState jb' t lst)
  | step_force jb t lst :
      fjb_step (RunState jb t lst) (RunState (fixed_jb_set_force_resynch jb) t lst).

Definition initial (c : fixed_jb_conf) (t : Z) : run_state := RunState (fixed_jb_new c) t None.

(** The queue lies after everything already handed out. *)
Definition run_inv (s : run_state) : Prop :=
  jb_inv (rs_jb s) ∧
  ∀ d, rs_last s = Some d →
    d <= rs_now s ∧ d < next_delivery (rs_jb s) ∧
    ∀ f, f ∈ frames (rs_jb s) → d < fdelivery f.

Lemma fixed_jb_new_inv c : jb_inv (fixed_jb_new (D := D) c).
Proof.
  constructor; simpl.
  - unfold conf_ok; simpl. unfold FIXED_JB_SIZE_DEFAULT, FIXED_JB_RESYNCH_THRESHOLD_DEFAULT.
    case_all; lia.
  - intros f []%elem_of_nil.
  - constructor.
Qed.

Lemma put_first_spec jb data ms ts now :
  jb_inv jb → 2 <= ms → frames jb = [] →
  ∃ jb', fixed_jb_put_first jb data ms ts now = Some (FIXED_JB_OK, jb') ∧ jb_inv jb' ∧
    delay jb' = delay jb ∧ next_delivery jb' = now + delay jb ∧
    frames jb' = [FixedJbFrame data ts ms (now + delay jb)].
Proof.
  intros [[Hd Ht] Hf Hs] Hms Hnil.
  unfold fixed_jb_put_first, put_first_with, fixed_jb_put. cbn [put_fuel]. simpl.
  rewrite Hnil; simpl. case_match; [lia|]. case_match; [lia|].
  eexists; split; [done|]. split_and!; simpl; try done.
  - constructor; simpl; [done| |repeat constructor].
    intros f Hf1. apply list_elem_of_singleton in Hf1 as ->. done.
  - do 2 f_equal. lia.
Qed.

Lemma put_post_queue jb data ms ts now code jb' (Q : Z → Prop) :
  put_post jb data ms ts now code jb' →
  (∀ f, f ∈ frames jb → Q (fdelivery f)) → (∀ d, next_delivery jb' <= d → Q d) →
  ∀ f, f ∈ frames jb' → Q (fdelivery f).
Proof.
  intros Hpost Hold Hnew f Hf. destruct Hpost as [k jb' Hfr _ | k l1 l2 g jb' Hl Hfr]; simpl in *.
  - rewrite Hfr in Hf. apply list_elem_of_fmap in Hf as (g & -> & Hg). exact (Hold g Hg).
  - assert (f = g ∨ f ∈ shift_ts k <$> frames jb) as [->|Hin]; [|by apply Hnew|].
    { rewrite Hfr in Hf. rewrite Hl, elem_of_app.
      apply elem_of_app in Hf as [Hf|[->|Hf]%elem_of_cons]; auto. }
    apply list_elem_of_fmap in Hin as (h & -> & Hh). exact (Hold h Hh).
Qed.

Lemma get_spec jb now interpl :
  jb_inv jb →
  ∃ code fo jb', fixed_jb_get jb now interpl = Some (code, fo, jb') ∧ jb_inv jb' ∧
    frames jb = option_list fo ++ frames jb' ∧
    match code, fo with
    | FIXED_JB_OK, Some f =>
        next_delivery jb <= now ∧ fdelivery f <= now <= fdelivery f + fms f ∧
        next_delivery jb' = fdelivery f + fms f ∧
        ∀ g, g ∈ frames jb' → fdelivery f < fdelivery g
    | FIXED_JB_DROP, Some f =>
        next_delivery jb <= now ∧ fdelivery f + fms f < now ∧
        next_delivery jb' = fdelivery f + fms f ∧
        ∀ g, g ∈ frames jb' → fdelivery f < fdelivery g
    | FIXED_JB_INTERP, None =>
        next_delivery jb <= now ∧ next_delivery jb' = next_delivery jb + interpl ∧
        ∀ g, g ∈ frames jb → now < fdelivery g
    | FIXED_JB_NOFRAME, None => now < next_delivery jb ∧ jb' = jb
    | _, _ => False
    end.
Proof.
  intros Hinv. pose proof Hinv as [Hc Hf Hs]. unfold fixed_jb_get.
  destruct (now <? next_delivery jb) eqn:E1.
  { eexists _, _, _; split; [done|]; simpl; split_and!; try done. lia. }
  destruct (frames jb) as [|hd tl] eqn:Efr.
  { eexists _, _, _; split; [done|]; simpl; split_and!; rewrite ?Efr; try done; try lia.
    - constructor; simpl; rewrite ?Efr; done.
    - intros g []%elem_of_nil. }
  apply StronglySorted_inv in Hs as [Hs Hhd]. rewrite Forall_forall in Hhd.
  assert (jb_inv (with_next (fdelivery hd + fms hd) (with_frames tl jb))) as Hinv'.
  { constructor; simpl; [done| |done]. intros g Hg. apply Hf. set_solver. }
  unfold get_jb_head. rewrite Efr.
  destruct (now >? fdelivery hd + fms hd) eqn:E2; [|destruct (now <? fdelivery hd) eqn:E3].
  - eexists _, _, _; split; [done|]; simpl; split_and!; try done; lia.
  - eexists _, _, _; split; [done|]; simpl; split_and!; rewrite ?Efr; try done; try lia.
    + constructor; simpl; rewrite ?Efr; try done. constructor; [done|]. by apply Forall_forall.
    + intros g [->|Hg]%elem_of_cons; [lia|]. specialize (Hhd g Hg). unfold by_delivery in Hhd. lia.
  - eexists _, _, _; split; [done|]; simpl; split_and!; try done; lia.
Qed.

Lemma remove_spec jb :
  jb_inv jb →
  ∃ code fo jb', fixed_jb_remove jb = Some (code, fo, jb') ∧ jb_inv jb' ∧
    frames jb = option_list fo ++ frames jb' ∧
    (next_delivery jb' = next_delivery jb ∨ ∃ f, fo = Some f ∧ next_delivery jb' = fdelivery f + fms f).
Proof.
  intros Hinv. pose proof Hinv as [Hc Hf Hs]. unfold fixed_jb_remove, get_jb_head.
  destruct (frames jb) as [|hd tl] eqn:Efr.
  { eexists _, _, _. split; [done|]. rewrite Efr. auto. }
  apply StronglySorted_inv in Hs as [Hs _]. simpl. eexists _, _, _. split; [done|].
  split_and!; [|done|right; by eexists].
  constructor; simpl; [done| |done]. intros g Hg. apply Hf. set_solver.
Qed.

Lemma run_step s s' : run_inv s → fjb_step s s' → run_inv s'.
Proof.
  intros [Hinv Hlast] Hstep. destruct Hstep as
    [jb t lst data ms ts now code jb' Ht Hms Hput
    |jb t lst data ms ts now code jb' Ht Hms Hnil Hput
    |jb t lst now interpl code fo jb' Ht Hi Hget|jb t lst code fo jb' Hrem|jb t lst]; simpl in *.
  - pose proof (inv_conf _ Hinv) as [Hd _].
    destruct (put_fuel_spec 0 jb data ms ts now) as (c & j & Hp & Hinv' & Hdel & Hpost); auto.
    unfold fixed_jb_put in Hput. rewrite Hput in Hp. injection Hp as <- <-. split; [done|]. intros d Hd'; simpl in *.
    destruct (Hlast d Hd') as (H1 & H2 & H3).
    assert (d < next_delivery jb') as Hnext by (destruct Hpost; naive_solver lia).
    split_and!; [lia | done|].
    apply (put_post_queue _ _ _ _ _ _ _ (λ x, d < x) Hpost); [done | lia].
  - pose proof (inv_conf _ Hinv) as [Hd _].
    destruct (put_first_spec jb data ms ts now) as (j & Hp & Hinv' & Hdel & Hnext & Hfr); auto.
    rewrite Hput in Hp. injection Hp as -> ->. split; [done|]. intros d Hd'; simpl in *.
    destruct (Hlast d Hd') as (H1 & H2 & H3). rewrite Hnext, Hfr. split_and!; [lia | lia|].
    intros f ->%list_elem_of_singleton. simpl. lia.
  - destruct (get_spec jb now interpl Hinv) as (c & fo' & j & Hg & Hinv' & Hfr & Hcase).
    rewrite Hget in Hg. injection Hg as <- <- <-. split; [done|]. intros d Hd'; simpl in *.
    destruct code, fo as [f|]; try done; simplify_eq/=.
    + destruct Hcase as (? & ? & -> & ?). destruct (inv_frame _ Hinv f); [rewrite Hfr; set_solver|].
      split_and!; [lia | lia | done].
    + destruct Hcase as (? & ? & -> & ?). destruct (inv_frame _ Hinv f); [rewrite Hfr; set_solver|].
      split_and!; [lia | lia | done].
    + destruct Hcase as (? & -> & ?). destruct (Hlast d) as (? & ? & H3); [done|].
      split_and!; [lia | lia |]. intros f Hf. apply H3. by rewrite Hfr.
    + destruct Hcase as (? & ->). destruct (Hlast d) as (? & ? & ?); [done|].
      split_and!; [lia | done | done].
  - destruct (remove_spec jb Hinv) as (c & fo' & j & Hr & Hinv' & Hfr & Hnext).
    rewrite Hrem in Hr. injection Hr as <- <- <-. split; [done|]. intros d Hd'; simpl in *.
    destruct (Hlast d Hd') as (H1 & H2 & H3). split; [done|]. split.
    + destruct Hnext as [->|(f & -> & ->)]; [done|]. simpl in Hfr.
      assert (f ∈ frames jb) as Hf by (rewrite Hfr; set_solver).
      specialize (H3 f Hf). destruct (inv_frame _ Hinv f Hf). lia.
    + intros f Hf. apply H3. rewrite Hfr. set_solver.
  - split; [|done]. destruct Hinv. by constructor.
Qed.

Lemma run_reachable c t s : rtc fjb_step (initial c t) s → run_inv s.
Proof.
  intros Hrtc. remember (initial c t) as s0 eqn:E0.
  assert (run_inv s0) as H0 by (subst; split; [apply fixed_jb_new_inv | done]).
  clear E0. induction Hrtc; eauto using run_step.
Qed.

End Runs.

Arguments run_state D : clear implicits.

(** ** Properties *)

Module Properties.
Section Claims.
Context {D : Type}.
Implicit Types (jb : fixed_jb D) (f g : fixed_jb_frame D).

(** [fixed_jb_put] and [resynch_jb] call each other, but on any buffer
    satisfying the invariant the call returns (the fuel of two activations
    is enough, and more fuel changes nothing), keeps the invariant (sorted
    queue, delivery times consistent with the receiver's clock base), and
    either drops the frame, leaving the queued frames' delivery times as they
    were, or inserts exactly one new frame, not earlier than the next
    delivery. *)
Theorem fixed_jb_put_correct jb data ms ts now :
  jb_inv jb → 2 <= ms →
  ∃ code jb', fixed_jb_put jb data ms ts now = Some (code, jb') ∧
    (∀ n, put_fuel (2 + n) jb data ms ts now = Some (code, jb')) ∧
    jb_inv jb' ∧ put_post jb data ms ts now code jb'.
Proof.
  intros Hinv Hms.
  destruct (put_fuel_spec 0 jb data ms ts now) as (code & jb' & Hp & Hinv' & _ & Hpost); auto.
  exists code, jb'. split_and!; auto. intros n. by apply put_fuel_mono.
Qed.

(** [fixed_jb_get] never dereferences an empty queue, keeps the invariant
    and the queued frames: a frame is played only inside its own time window
    and before every frame left; a frame is dropped only when its window is
    over; interpolation is requested only when no queued frame is due; and
    nothing is returned exactly before the next delivery time. *)
Theorem fixed_jb_get_correct jb now interpl :
  jb_inv jb →
  ∃ code fo jb', fixed_jb_get jb now interpl = Some (code, fo, jb') ∧ jb_inv jb' ∧
    frames jb = option_list fo ++ frames jb' ∧
    match code, fo with
    | FIXED_JB_OK, Some f =>
        next_delivery jb <= now ∧ fdelivery f <= now <= fdelivery f + fms f ∧
        next_delivery jb' = fdelivery f + fms f ∧
        ∀ g, g ∈ frames jb' → fdelivery f < fdelivery g
    | FIXED_JB_DROP, Some f =>
        next_delivery jb <= now ∧ fdelivery f + fms f < now ∧
        next_delivery jb' = fdelivery f + fms f ∧
        ∀ g, g ∈ frames jb' → fdelivery f < fdelivery g
    | FIXED_JB_INTERP, None =>
        next_delivery jb <= now ∧ next_delivery jb' = next_delivery jb + interpl ∧
        ∀ g, g ∈ frames jb → now < fdelivery g
    | FIXED_JB_NOFRAME, None => now < next_delivery jb ∧ jb' = jb
    | _, _ => False
    end.
Proof. apply get_spec. Qed.

(** C28: in every run of a new buffer under a clock that does not go back, with
    frames arriving in any order, and with resynchronisations forced and frames
    removed at any time, the frames that [fixed_jb_get] hands out (to be played or
    dropped) have strictly increasing delivery times. *)
Theorem fixed_jb_in_order c t (s : run_state D) now interpl code f jb' d :
  rtc fjb_step (initial c t) s →
  fixed_jb_get (rs_jb s) now interpl = Some (code, Some f, jb') →
  rs_last s = Some d → d < fdelivery f.
Proof.
  intros [Hinv Hlast]%run_reachable Hget Hd.
  destruct (get_spec (rs_jb s) now interpl Hinv) as (c' & fo & j & Hg & _ & Hfr & _).
  simplify_eq. apply (Hlast d Hd). rewrite Hfr. set_solver.
Qed.

(** The buffer imposes its configured delay: a first frame put at [now] is
    returned by a read at any instant of its window, which starts [delay]
    after [now], and no read before that returns anything. *)
Theorem fixed_jb_constant_delay jb data ms ts now t interpl :
  jb_inv jb → 2 <= ms → frames jb = [] →
  ∃ jb', fixed_jb_put_first jb data ms ts now = Some (FIXED_JB_OK, jb') ∧
    (t < now + delay jb → fixed_jb_get jb' t interpl = Some (FIXED_JB_NOFRAME, None, jb')) ∧
    (now + delay jb <= t <= now + delay jb + ms →
     ∃ jb2, fixed_jb_get jb' t interpl =
       Some (FIXED_JB_OK, Some (FixedJbFrame data ts ms (now + delay jb)), jb2) ∧
       frames jb2 = []).
Proof.
  intros Hinv Hms Hnil.
  destruct (put_first_spec jb data ms ts now) as (jb' & Hp & _ & _ & Hn & Hfr); auto.
  exists jb'. split_and!; auto; intros Ht; unfold fixed_jb_get, get_jb_head; rewrite Hn, Hfr; simpl.
  - case_match; [done | lia].
  - repeat (case_match; [lia|]). by eexists.
Qed.

End Claims.

(** *** Witnesses *)

Definition demo_jb : fixed_jb nat :=
  FixedJb [FixedJbFrame 1%nat 0 20 260; FixedJbFrame 2%nat 40 20 300]
    (FixedJbConf 200 1000) 60 200 260 false.

Lemma demo_jb_inv : jb_inv demo_jb.
Proof.
  constructor; simpl.
  - done.
  - intros f Hf. repeat (apply elem_of_cons in Hf as [->|Hf]; [done|]).
    by apply elem_of_nil in Hf.
  - repeat constructor.
Qed.

Lemma fixed_jb_put_correct_witness :
  ∃ code jb', fixed_jb_put demo_jb 3%nat 20 20 70 = Some (code, jb') ∧
    (∀ n, put_fuel (2 + n) demo_jb 3%nat 20 20 70 = Some (code, jb')) ∧
    jb_inv jb' ∧ put_post demo_jb 3%nat 20 20 70 code jb'.
Proof. apply (fixed_jb_put_correct demo_jb 3%nat 20 20 70 demo_jb_inv). lia. Defined.

Lemma fixed_jb_get_correct_witness :
  ∃ code fo jb', fixed_jb_get demo_jb 265 20 = Some (code, fo, jb') ∧ jb_inv jb'.
Proof.
  destruct (fixed_jb_get_correct demo_jb 265 20 demo_jb_inv) as (c & fo & jb' & H1 & H2 & _).
  by exists c, fo, jb'.
Defined.

(** A run: two frames arrive in the wrong order, the first is played, the next one removed. *)
Definition run_demo : option (run_state nat) :=
  let j0 := fixed_jb_new (FixedJbConf 50 100) in
  '(_, j1) ← fixed_jb_put_first j0 1%nat 20 100 0;
  '(_, j2) ← fixed_jb_put j1 3%nat 20 140 5;
  '(_, j3) ← fixed_jb_put j2 2%nat 20 120 8;
  '(_, fo, j4) ← fixed_jb_get j3 50 20;
  '(_, _, j5) ← fixed_jb_remove j4;
  Some (RunState j5 50 (fdelivery <$> fo)).

Lemma run_demo_reachable s :
  run_demo = Some s → rtc fjb_step (initial (FixedJbConf 50 100) 0) s.
Proof.
  intros Hs. vm_compute in Hs. injection Hs as <-.
  eapply rtc_l; [eapply (step_put_first _ _ _ 1%nat 20 100 0); done|].
  eapply rtc_l; [eapply (step_put _ _ _ 3%nat 20 140 5); done|].
  eapply rtc_l; [eapply (step_put _ _ _ 2%nat 20 120 8); done|].
  eapply rtc_l; [eapply (step_get _ _ _ 50 20); done|].
  eapply rtc_l; [eapply step_remove; done|].
  apply rtc_refl.
Qed.

Lemma fixed_jb_in_order_witness :
  ∃ s f jb', run_demo = Some s ∧
    fixed_jb_get (rs_jb s) 90 20 = Some (FIXED_JB_OK, Some f, jb') ∧
    rs_last s = Some 50 ∧ 50 < fdelivery f.
Proof.
  destruct run_demo as [s|] eqn:Es; [|done].
  pose proof (run_demo_reachable s Es) as Hr.
  vm_compute in Es. injection Es as <-. eexists _, _, _. split; [done|]. split; [done|].
  split; [done|].
  eapply (fixed_jb_in_order _ _ _ 90 20 _ _ _ _ Hr); done.
Defined.

Lemma fixed_jb_constant_delay_witness :
  ∃ jb', fixed_jb_put_first (fixed_jb_new (FixedJbConf 50 100)) 1%nat 20 7 1000
           = Some (FIXED_JB_OK, jb') ∧
    (1060 < 1000 + 50 → fixed_jb_get jb' 1060 20 = Some (FIXED_JB_NOFRAME, None, jb')) ∧
    (1000 + 50 <= 1060 <= 1000 + 50 + 20 →
     ∃ jb2, fixed_jb_get jb' 1060 20 =
       Some (FIXED_JB_OK, Some (FixedJbFrame 1%nat 7 20 (1000 + 50)), jb2) ∧ frames jb2 = []).
Proof.
  apply (fixed_jb_constant_delay (fixed_jb_new (FixedJbConf 50 100)) 1%nat 20 7 1000 1060 20);
    [apply fixed_jb_new_inv | lia | done].
Defined.

End Properties.
