(* ===== verification/JitterBuf.v ===== *)
(** * The adaptive jitter buffer ([main/jitterbuf.c], [include/jitterbuf.h])

    [jitterbuf] keeps the received frames in a circular list sorted by time
    stamp ([frames] is the earliest, [frames->prev] the latest), a history of
    the last 500 delays with two sorted buffers caching its 20 largest and 20
    smallest values, and the statistics and settings of [jb_info].  The model
    keeps the circular list as a [list], earliest first, the free list of
    frame structures as a [list], and the arrays as lists of fixed length.
    Time stamps, clock values and counters are [long]s, modelled as [Z]
    without wrap-around: they count milliseconds and frames.  [data] is an
    opaque pointer; the outcome of [ast_malloc] is an argument. *)

From stdpp Require Import base numbers list sorting relations.
From Stdlib Require Import ZArith Lia.
From S2P Require Import Prelude.
Local Open Scope cint_scope.

(** ** Configuration constants *)

Definition JB_HISTORY_SZ : Z := 500.
Definition JB_HISTORY_DROPPCT : Z := 3.
Definition JB_HISTORY_DROPPCT_MAX : Z := 4.
Definition JB_HISTORY_MAXBUF_SZ : Z := JB_HISTORY_SZ * JB_HISTORY_DROPPCT_MAX /c 100.
Definition JB_TARGET_EXTRA : Z := 40.
Definition JB_ADJUST_DELAY : Z := 40.
Definition JB_LONGMAX : Z := 2147483647.
Definition JB_LONGMIN : Z := - JB_LONGMAX - 1.

(** ** Data *)

Inductive jb_return_code :=
  | JB_OK | JB_EMPTY | JB_NOFRAME | JB_INTERP | JB_DROP | JB_SCHED.

Inductive jb_frame_type :=
  | JB_TYPE_CONTROL | JB_TYPE_VOICE | JB_TYPE_VIDEO | JB_TYPE_SILENCE.

#[export] Instance jb_return_code_eq_dec : EqDecision jb_return_code.
Proof. solve_decision. Defined.

#[export] Instance jb_frame_type_eq_dec : EqDecision jb_frame_type.
Proof. solve_decision. Defined.

Record jb_conf := JbConf {
  max_jitterbuf : Z;
  resync_threshold : Z;
  max_contig_interp : Z;
  target_extra : Z;
}.

Record jb_info := JbInfo {
  conf : jb_conf;
  frames_in : Z;
  frames_out : Z;
  frames_late : Z;
  frames_lost : Z;
  frames_dropped : Z;
  frames_ooo : Z;
  frames_cur : Z;
  jitter : Z;
  min : Z;
  current : Z;
  target : Z;
  losspct : Z;
  next_voice_ts : Z;
  last_voice_ms : Z;
  silence_begin_ts : Z;
  last_adjustment : Z;
  last_delay : Z;
  cnt_delay_discont : Z;
  resync_offset : Z;
  cnt_contig_interp : Z;
}.

(** Field updates of [jb_info]: [upd_f m] applies [m] to field [f]. *)

Definition upd_conf (m : jb_conf → jb_conf) (i : jb_info) : jb_info :=
  JbInfo (m (conf i)) (frames_in i) (frames_out i) (frames_late i) (frames_lost i)
    (frames_dropped i) (frames_ooo i) (frames_cur i) (jitter i) (min i) (current i)
    (target i) (losspct i) (next_voice_ts i) (last_voice_ms i) (silence_begin_ts i)
    (last_adjustment i) (last_delay i) (cnt_delay_discont i) (resync_offset i)
    (cnt_contig_interp i).

Definition upd_frames_in (m : Z → Z) (i : jb_info) : jb_info :=
  JbInfo (conf i) (m (frames_in i)) (frames_out i) (frames_late i) (frames_lost i)
    (frames_dropped i) (frames_ooo i) (frames_cur i) (jitter i) (min i) (current i)
    (target i) (losspct i) (next_voice_ts i) (last_voice_ms i) (silence_begin_ts i)
    (last_adjustment i) (last_delay i) (cnt_delay_discont i) (resync_offset i)
    (cnt_contig_interp i).

Definition upd_frames_out (m : Z → Z) (i : jb_info) : jb_info :=
  JbInfo (conf i) (frames_in i) (m (frames_out i)) (frames_late i) (frames_lost i)
    (frames_dropped i) (frames_ooo i) (frames_cur i) (jitter i) (min i) (current i)
    (target i) (losspct i) (next_voice_ts i) (last_voice_ms i) (silence_begin_ts i)
    (last_adjustment i) (last_delay i) (cnt_delay_discont i) (resync_offset i)
    (cnt_contig_interp i).

Definition upd_frames_late (m : Z → Z) (i : jb_info) : jb_info :=
  JbInfo (conf i) (frames_in i) (frames_out i) (m (frames_late i)) (frames_lost i)
    (frames_dropped i) (frames_ooo i) (frames_cur i) (jitter i) (min i) (current i)
    (target i) (losspct i) (next_voice_ts i) (last_voice_ms i) (silence_begin_ts i)
    (last_adjustment i) (last_delay i) (cnt_delay_discont i) (resync_offset i)
    (cnt_contig_interp i).

Definition upd_frames_lost (m : Z → Z) (i : jb_info) : jb_info :=
  JbInfo (conf i) (frames_in i) (frames_out i) (frames_late i) (m (frames_lost i))
    (frames_dropped i) (frames_ooo i) (frames_cur i) (jitter i) (min i) (current i)
    (target i) (losspct i) (next_voice_ts i) (last_voice_ms i) (silence_begin_ts i)
    (last_adjustment i) (last_delay i) (cnt_delay_discont i) (resync_offset i)
    (cnt_contig_interp i).

Definition upd_frames_dropped (m : Z → Z) (i : jb_info) : jb_info :=
  JbInfo (conf i) (frames_in i) (frames_out i) (frames_late i) (frames_lost i) (m (frames_dropped i)) (frames_ooo i) (frames_cur i) (jitter i) (min i) (current i)
    (target i) (losspct i) (next_voice_ts i) (last_voice_ms i) (silence_begin_ts i)
    (last_adjustment i) (last_delay i) (cnt_delay_discont i) (resync_offset i)
    (cnt_contig_interp i).

Definition upd_frames_ooo (m : Z → Z) (i : jb_info) : jb_info :=
  JbInfo (conf i) (frames_in i) (frames_out i) (frames_late i) (frames_lost i)
    (frames_dropped i) (m (frames_ooo i)) (frames_cur i) (jitter i) (min i) (current i)
    (target i) (losspct i) (next_voice_ts i) (last_voice_ms i) (silence_begin_ts i)
    (last_adjustment i) (last_delay i) (cnt_delay_discont i) (resync_offset i)
    (cnt_contig_interp i).

Definition upd_frames_cur (m : Z → Z) (i : jb_info) : jb_info :=
  JbInfo (conf i) (frames_in i) (frames_out i) (frames_late i) (frames_lost i)
    (frames_dropped i) (frames_ooo i) (m (frames_cur i)) (jitter i) (min i) (current i)
    (target i) (losspct i) (next_voice_ts i) (last_voice_ms i) (silence_begin_ts i)
    (last_adjustment i) (last_delay i) (cnt_delay_discont i) (resync_offset i)
    (cnt_contig_interp i).

Definition upd_jitter (m : Z → Z) (i : jb_info) : jb_info :=
  JbInfo (conf i) (frames_in i) (frames_out i) (frames_late i) (frames_lost i)
    (frames_dropped i) (frames_ooo i) (frames_cur i) (m (jitter i)) (min i) (current i)
    (target i) (losspct i) (next_voice_ts i) (last_voice_ms i) (silence_begin_ts i)
    (last_adjustment i) (last_delay i) (cnt_delay_discont i) (resync_offset i)
    (cnt_contig_interp i).

Definition upd_min (m : Z → Z) (i : jb_info) : jb_info :=
  JbInfo (conf i) (frames_in i) (frames_out i) (frames_late i) (frames_lost i)
    (frames_dropped i) (frames_ooo i) (frames_cur i) (jitter i) (m (min i)) (current i)
    (target i) (losspct i) (next_voice_ts i) (last_voice_ms i) (silence_begin_ts i)
    (last_adjustment i) (last_delay i) (cnt_delay_discont i) (resync_offset i)
    (cnt_contig_interp i).

Definition upd_current (m : Z → Z) (i : jb_info) : jb_info :=
  JbInfo (conf i) (frames_in i) (frames_out i) (frames_late i) (frames_lost i)
    (frames_dropped i) (frames_ooo i) (frames_cur i) (jitter i) (min i) (m (current i))
    (target i) (losspct i) (next_voice_ts i) (last_voice_ms i) (silence_begin_ts i)
    (last_adjustment i) (last_delay i) (cnt_delay_discont i) (resync_offset i)
    (cnt_contig_interp i).

Definition upd_target (m : Z → Z) (i : jb_info) : jb_info :=
  JbInfo (conf i) (frames_in i) (frames_out i) (frames_late i) (frames_lost i)
    (frames_dropped i) (frames_ooo i) (frames_cur i) (jitter i) (min i) (current i) (m (target i)) (losspct i) (next_voice_ts i) (last_voice_ms i) (silence_begin_ts i)
    (last_adjustment i) (last_delay i) (cnt_delay_discont i) (resync_offset i)
    (cnt_contig_interp i).

Definition upd_losspct (m : Z → Z) (i : jb_info) : jb_info :=
  JbInfo (conf i) (frames_in i) (frames_out i) (frames_late i) (frames_lost i)
    (frames_dropped i) (frames_ooo i) (frames_cur i) (jitter i) (min i) (current i)
    (target i) (m (losspct i)) (next_voice_ts i) (last_voice_ms i) (silence_begin_ts i)
    (last_adjustment i) (last_delay i) (cnt_delay_discont i) (resync_offset i)
    (cnt_contig_interp i).

Definition upd_next_voice_ts (m : Z → Z) (i : jb_info) : jb_info :=
  JbInfo (conf i) (frames_in i) (frames_out i) (frames_late i) (frames_lost i)
    (frames_dropped i) (frames_ooo i) (frames_cur i) (jitter i) (min i) (current i)
    (target i) (losspct i) (m (next_voice_ts i)) (last_voice_ms i) (silence_begin_ts i)
    (last_adjustment i) (last_delay i) (cnt_delay_discont i) (resync_offset i)
    (cnt_contig_interp i).

Definition upd_last_voice_ms (m : Z → Z) (i : jb_info) : jb_info :=
  JbInfo (conf i) (frames_in i) (frames_out i) (frames_late i) (frames_lost i)
    (frames_dropped i) (frames_ooo i) (frames_cur i) (jitter i) (min i) (current i)
    (target i) (losspct i) (next_voice_ts i) (m (last_voice_ms i)) (silence_begin_ts i)
    (last_adjustment i) (last_delay i) (cnt_delay_discont i) (resync_offset i)
    (cnt_contig_interp i).

Definition upd_silence_begin_ts (m : Z → Z) (i : jb_info) : jb_info :=
  JbInfo (conf i) (frames_in i) (frames_out i) (frames_late i) (frames_lost i)
    (frames_dropped i) (frames_ooo i) (frames_cur i) (jitter i) (min i) (current i)
    (target i) (losspct i) (next_voice_ts i) (last_voice_ms i) (m (silence_begin_ts i))
    (last_adjustment i) (last_delay i) (cnt_delay_discont i) (resync_offset i)
    (cnt_contig_interp i).

Definition upd_last_adjustment (m : Z → Z) (i : jb_info) : jb_info :=
  JbInfo (conf i) (frames_in i) (frames_out i) (frames_late i) (frames_lost i)
    (frames_dropped i) (frames_ooo i) (frames_cur i) (jitter i) (min i) (current i)
    (target i) (losspct i) (next_voice_ts i) (last_voice_ms i) (silence_begin_ts i) (m (last_adjustment i)) (last_delay i) (cnt_delay_discont i) (resync_offset i)
    (cnt_contig_interp i).

Definition upd_last_delay (m : Z → Z) (i : jb_info) : jb_info :=
  JbInfo (conf i) (frames_in i) (frames_out i) (frames_late i) (frames_lost i)
    (frames_dropped i) (frames_ooo i) (frames_cur i) (jitter i) (min i) (current i)
    (target i) (losspct i) (next_voice_ts i) (last_voice_ms i) (silence_begin_ts i)
    (last_adjustment i) (m (last_delay i)) (cnt_delay_discont i) (resync_offset i)
    (cnt_contig_interp i).

Definition upd_cnt_delay_discont (m : Z → Z) (i : jb_info) : jb_info :=
  JbInfo (conf i) (frames_in i) (frames_out i) (frames_late i) (frames_lost i)
    (frames_dropped i) (frames_ooo i) (frames_cur i) (jitter i) (min i) (current i)
    (target i) (losspct i) (next_voice_ts i) (last_voice_ms i) (silence_begin_ts i)
    (last_adjustment i) (last_delay i) (m (cnt_delay_discont i)) (resync_offset i)
    (cnt_contig_interp i).

Definition upd_resync_offset (m : Z → Z) (i : jb_info) : jb_info :=
  JbInfo (conf i) (frames_in i) (frames_out i) (frames_late i) (frames_lost i)
    (frames_dropped i) (frames_ooo i) (frames_cur i) (jitter i) (min i) (current i)
    (target i) (losspct i) (next_voice_ts i) (last_voice_ms i) (silence_begin_ts i)
    (last_adjustment i) (last_delay i) (cnt_delay_discont i) (m (resync_offset i))
    (cnt_contig_interp i).

Definition upd_cnt_contig_interp (m : Z → Z) (i : jb_info) : jb_info :=
  JbInfo (conf i) (frames_in i) (frames_out i) (frames_late i) (frames_lost i)
    (frames_dropped i) (frames_ooo i) (frames_cur i) (jitter i) (min i) (current i)
    (target i) (losspct i) (next_voice_ts i) (last_voice_ms i) (silence_begin_ts i)
    (last_adjustment i) (last_delay i) (cnt_delay_discont i) (resync_offset i) (m (cnt_contig_interp i)).

(** Assignment: the new value whatever the old one. *)
Definition const_ {A} (v : A) : A → A := λ _, v.
Arguments const_ {A} v _ /.

Section Model.
Context {D : Type}.

Record jb_frame := JbFrame { fdata : D; fts : Z; fms : Z; ftype : jb_frame_type }.

Record jitterbuf := Jitterbuf {
  info :> jb_info;
  history : list Z;
  hist_ptr : Z;
  hist_maxbuf : list Z;
  hist_minbuf : list Z;
  hist_maxbuf_valid : bool;
  dropem : bool;
  frames : list jb_frame;
  free : list jb_frame;
}.

Definition upd_info (m : jb_info → jb_info) (jb : jitterbuf) : jitterbuf :=
  Jitterbuf (m (info jb)) (history jb) (hist_ptr jb) (hist_maxbuf jb) (hist_minbuf jb)
    (hist_maxbuf_valid jb) (dropem jb) (frames jb) (free jb).

Definition upd_history (m : list Z → list Z) (jb : jitterbuf) : jitterbuf :=
  Jitterbuf (info jb) (m (history jb)) (hist_ptr jb) (hist_maxbuf jb) (hist_minbuf jb)
    (hist_maxbuf_valid jb) (dropem jb) (frames jb) (free jb).

Definition upd_hist_ptr (m : Z → Z) (jb : jitterbuf) : jitterbuf :=
  Jitterbuf (info jb) (history jb) (m (hist_ptr jb)) (hist_maxbuf jb) (hist_minbuf jb)
    (hist_maxbuf_valid jb) (dropem jb) (frames jb) (free jb).

Definition upd_hist_maxbuf (m : list Z → list Z) (jb : jitterbuf) : jitterbuf :=
  Jitterbuf (info jb) (history jb) (hist_ptr jb) (m (hist_maxbuf jb)) (hist_minbuf jb)
    (hist_maxbuf_valid jb) (dropem jb) (frames jb) (free jb).

Definition upd_hist_minbuf (m : list Z → list Z) (jb : jitterbuf) : jitterbuf :=
  Jitterbuf (info jb) (history jb) (hist_ptr jb) (hist_maxbuf jb) (m (hist_minbuf jb))
    (hist_maxbuf_valid jb) (dropem jb) (frames jb) (free jb).

Definition upd_hist_maxbuf_valid (m : bool → bool) (jb : jitterbuf) : jitterbuf :=
  Jitterbuf (info jb) (history jb) (hist_ptr jb) (hist_maxbuf jb) (hist_minbuf jb) (m (hist_maxbuf_valid jb)) (dropem jb) (frames jb) (free jb).

Definition upd_dropem (m : bool → bool) (jb : jitterbuf) : jitterbuf :=
  Jitterbuf (info jb) (history jb) (hist_ptr jb) (hist_maxbuf jb) (hist_minbuf jb)
    (hist_maxbuf_valid jb) (m (dropem jb)) (frames jb) (free jb).

Definition upd_frames (m : list jb_frame → list jb_frame) (jb : jitterbuf) : jitterbuf :=
  Jitterbuf (info jb) (history jb) (hist_ptr jb) (hist_maxbuf jb) (hist_minbuf jb)
    (hist_maxbuf_valid jb) (dropem jb) (m (frames jb)) (free jb).

Definition upd_free (m : list jb_frame → list jb_frame) (jb : jitterbuf) : jitterbuf :=
  Jitterbuf (info jb) (history jb) (hist_ptr jb) (hist_maxbuf jb) (hist_minbuf jb)
    (hist_maxbuf_valid jb) (dropem jb) (frames jb) (m (free jb)).

(** [jb->info.f = v] and [jb->info.f op= v] *)
Definition ii (f : jb_info → jb_info) : jitterbuf → jitterbuf := upd_info f.

Implicit Types (jb : jitterbuf) (fr : jb_frame).

(** ** Loss statistics, reset, creation *)

Definition increment_losspct jb : jitterbuf :=
  ii (upd_losspct (λ l, (100000 + 499 * l) /c 500)) jb.

Definition decrement_losspct jb : jitterbuf :=
  ii (upd_losspct (λ l, (499 * l) /c 500)) jb.

Definition zero_info : jb_info :=
  JbInfo (JbConf 0 0 0 0) 0 0 0 0 0 0 0 0 0 0 0 0 0 0 0 0 0 0 0 0.

Definition zero_jb : jitterbuf :=
  Jitterbuf zero_info (replicate (Z.to_nat JB_HISTORY_SZ) 0) 0
    (replicate (Z.to_nat JB_HISTORY_MAXBUF_SZ) 0)
    (replicate (Z.to_nat JB_HISTORY_MAXBUF_SZ) 0) false false [] [].

Definition jb_reset jb : jitterbuf :=
  let s := conf jb in
  let fr := free jb in
  let jb := zero_jb in
  let jb := ii (upd_conf (const_ s)) jb in
  let jb := upd_free (const_ fr) jb in
  let jb := ii (upd_conf (λ c, JbConf (max_jitterbuf c) (resync_threshold c)
                                (max_contig_interp c) JB_TARGET_EXTRA)) jb in
  let jb := ii (upd_target (const_ JB_TARGET_EXTRA)) jb in
  let jb := ii (upd_current (const_ JB_TARGET_EXTRA)) jb in
  ii (upd_silence_begin_ts (const_ (-1))) jb.

Definition jb_new (alloc_ok : bool) : option jitterbuf :=
  if alloc_ok then Some (jb_reset zero_jb) else None.

(** ** Discontinuities *)

(** Returns the C result, the updated [*delay] and the buffer. *)
Definition check_resync jb (ts now : Z) (type : jb_frame_type) (delay : Z) :
    Z * Z * jitterbuf :=
  let threshold := 2 * jitter jb + resync_threshold (conf jb) in
  let numts := match head (frames jb), last (frames jb) with
               | Some f, Some l => fts l - fts f
               | _, _ => 0
               end in
  if numts >=? max_jitterbuf (conf jb) then
    let jb := if negb (dropem jb) then upd_dropem (const_ true) jb else jb in
    (-1, delay, ii (upd_frames_dropped (λ n, n + 1)) jb)
  else
    let jb := upd_dropem (const_ false) jb in
    if negb (resync_threshold (conf jb) =? -1) then
      if Z.abs (delay - last_delay jb) >? threshold then
        let jb := ii (upd_cnt_delay_discont (λ n, n + 1)) jb in
        if (cnt_delay_discont jb >? 3) || bool_decide (type = JB_TYPE_CONTROL) then
          let jb := ii (upd_cnt_delay_discont (const_ 0)) jb in
          let jb := upd_hist_ptr (const_ 0) jb in
          let jb := upd_hist_maxbuf_valid (const_ false) jb in
          let jb := ii (upd_resync_offset (const_ (ts - now))) jb in
          let jb := ii (upd_last_delay (const_ 0)) jb in
          (0, 0, jb)
        else (-1, delay, ii (upd_frames_dropped (λ n, n + 1)) jb)
      else
        let jb := ii (upd_last_delay (const_ delay)) jb in
        (0, delay, ii (upd_cnt_delay_discont (const_ 0)) jb)
    else (0, delay, jb).

(** ** Delay history *)

Definition hist_idx (i : Z) : nat := Z.to_nat (i %c JB_HISTORY_SZ).

Definition maxbuf_last (buf : list Z) : Z := buf !!! Z.to_nat (JB_HISTORY_MAXBUF_SZ - 1).

Definition history_put jb (ts delay : Z) : jitterbuf :=
  if ts <=? 0 then jb
  else
    let kicked := history jb !!! hist_idx (hist_ptr jb) in
    let jb := upd_history <[hist_idx (hist_ptr jb) := delay]> jb in
    let jb := upd_hist_ptr (λ p, p + 1) jb in
    if negb (hist_maxbuf_valid jb) then jb
    else if hist_ptr jb <? JB_HISTORY_SZ then upd_hist_maxbuf_valid (const_ false) jb
    else if delay <? maxbuf_last (hist_minbuf jb) then upd_hist_maxbuf_valid (const_ false) jb
    else if delay >? maxbuf_last (hist_maxbuf jb) then upd_hist_maxbuf_valid (const_ false) jb
    else if kicked <=? maxbuf_last (hist_minbuf jb) then upd_hist_maxbuf_valid (const_ false) jb
    else if kicked >=? maxbuf_last (hist_maxbuf jb) then upd_hist_maxbuf_valid (const_ false) jb
    else jb.

(** The inner loops of [history_calc_maxbuf]: insert [toins] before the first
    entry it beats, moving the rest over and losing the last entry. *)
Fixpoint ins_buf (beats : Z → Z → bool) (toins : Z) (buf : list Z) : list Z :=
  match buf with
  | [] => []
  | b :: rest =>
    if beats toins b then toins :: removelast (b :: rest)
    else b :: ins_buf beats toins rest
  end.

Definition ins_maxbuf (toins : Z) (buf : list Z) : list Z :=
  if toins >? maxbuf_last buf then ins_buf Z.gtb toins buf else buf.

Definition ins_minbuf (toins : Z) (buf : list Z) : list Z :=
  if toins <? maxbuf_last buf then ins_buf Z.ltb toins buf else buf.

(** The history entries the loop visits, oldest first. *)
Definition hist_window (hist : list Z) (ptr : Z) : list Z :=
  let i0 := if ptr >? JB_HISTORY_SZ then ptr - JB_HISTORY_SZ else 0 in
  (λ i, hist !!! hist_idx i) <$> seqZ i0 (ptr - i0).

Definition history_calc_maxbuf jb : jitterbuf :=
  if hist_ptr jb =? 0 then jb
  else
    let jb := upd_hist_maxbuf (const_ (replicate (Z.to_nat JB_HISTORY_MAXBUF_SZ) JB_LONGMIN)) jb in
    let jb := upd_hist_minbuf (const_ (replicate (Z.to_nat JB_HISTORY_MAXBUF_SZ) JB_LONGMAX)) jb in
    let w := hist_window (history jb) (hist_ptr jb) in
    let jb := upd_hist_maxbuf (λ b, foldl (λ b x, ins_maxbuf x b) b w) jb in
    let jb := upd_hist_minbuf (λ b, foldl (λ b x, ins_minbuf x b) b w) jb in
    upd_hist_maxbuf_valid (const_ true) jb.

Definition history_get jb : jitterbuf :=
  let jb := if negb (hist_maxbuf_valid jb) then history_calc_maxbuf jb else jb in
  let count := if hist_ptr jb <? JB_HISTORY_SZ then hist_ptr jb else JB_HISTORY_SZ in
  let idx := count * JB_HISTORY_DROPPCT /c 100 in
  let idx := if idx >? JB_HISTORY_MAXBUF_SZ - 1 then JB_HISTORY_MAXBUF_SZ - 1 else idx in
  if idx <? 0 then
    ii (upd_jitter (const_ 0)) (ii (upd_min (const_ 0)) jb)
  else
    let max := hist_maxbuf jb !!! Z.to_nat idx in
    let min := hist_minbuf jb !!! Z.to_nat idx in
    let jitter := max - min in
    ii (upd_jitter (const_ jitter)) (ii (upd_min (const_ min)) jb).

(** ** The frame queue *)

(** The walk from the latest frame along [prev] to the insertion point: insert
    after the last frame whose time stamp is not larger, in the list taken
    latest first.  It stops at the earliest frame. *)
Fixpoint insert_back (fr : jb_frame) (back : list jb_frame) : list jb_frame :=
  match back with
  | [] => [fr]
  | p :: back' => if fts fr <? fts p then p :: insert_back fr back' else fr :: back
  end.

(** Returns 1 when the frame became the head of the queue. *)
Definition queue_put (alloc_ok : bool) jb (data : D) (type : jb_frame_type) (ms ts : Z) :
    Z * jitterbuf :=
  let resync_ts := ts - resync_offset jb in
  let got := match free jb with
             | _ :: rest => Some (upd_free (const_ rest) jb)
             | [] => if alloc_ok then Some jb else None
             end in
  match got with
  | None => (0, jb)
  | Some jb =>
    let jb := ii (upd_frames_cur (λ n, n + 1)) jb in
    let frame := JbFrame data resync_ts ms type in
    match frames jb, last (frames jb) with
    | f0 :: _, Some l =>
      if resync_ts <? fts f0 then
        let jb := ii (upd_frames_ooo (λ n, n + 1)) jb in
        (1, upd_frames (λ q, frame :: q) jb)
      else
        let jb := if resync_ts <? fts l then ii (upd_frames_ooo (λ n, n + 1)) jb else jb in
        (0, upd_frames (λ q, rev (insert_back frame (rev q))) jb)
    | _, _ => (1, upd_frames (const_ [frame]) jb)
    end
  end.

Definition queue_next jb : Z := match head (frames jb) with Some f => fts f | None => -1 end.
Definition queue_last jb : Z := match last (frames jb) with Some f => fts f | None => -1 end.

Definition _queue_get jb (ts : Z) (all : bool) : option jb_frame * jitterbuf :=
  match frames jb with
  | [] => (None, jb)
  | frame :: rest =>
    if all || (ts >=? fts frame) then
      let jb := upd_frames (const_ rest) jb in
      let jb := upd_free (λ l, frame :: l) jb in
      let jb := ii (upd_frames_cur (λ n, n - 1)) jb in
      (Some frame, jb)
    else (None, jb)
  end.

Definition queue_get jb (ts : Z) : option jb_frame * jitterbuf := _queue_get jb ts false.
Definition queue_getall jb : option jb_frame * jitterbuf := _queue_get jb 0 true.

(** ** Putting a frame *)

Definition jb_put (alloc_ok : bool) jb (data : D) (type : jb_frame_type) (ms ts now : Z) :
    jb_return_code * jitterbuf :=
  let delay := now - (ts - resync_offset jb) in
  let '(rc, delay, jb) := check_resync jb ts now type delay in
  if negb (rc =? 0) then (JB_DROP, jb)
  else
    let jb := if bool_decide (type = JB_TYPE_VOICE) then history_put jb ts delay else jb in
    let jb := ii (upd_frames_in (λ n, n + 1)) jb in
    let '(head, jb) := queue_put alloc_ok jb data type ms ts in
    if negb (head =? 0) then (JB_SCHED, jb) else (JB_OK, jb).

(** ** Getting a frame *)

(** After [max_contig_interp] interpolated frames in a row the buffer goes
    into silence at the time reached. *)
Definition enter_silence_if_due jb : jitterbuf :=
  if negb (max_contig_interp (conf jb) =? 0) &&
     (cnt_contig_interp jb >=? max_contig_interp (conf jb))
  then ii (upd_silence_begin_ts (const_ (next_voice_ts jb - current jb))) jb
  else jb.

(** The new target and the hard clamp. *)
Definition set_target jb : jitterbuf :=
  let jb := ii (upd_target (const_ (jitter jb + min jb + target_extra (conf jb)))) jb in
  if negb (max_jitterbuf (conf jb) =? 0) &&
     (target jb - min jb >? max_jitterbuf (conf jb))
  then ii (upd_target (const_ (min jb + max_jitterbuf (conf jb)))) jb
  else jb.

(** The non-silent branch once a frame ([frame], possibly none) was taken. *)
Definition get_voiced jb (frame : option jb_frame) (now interpl diff : Z) :
    jb_return_code * option jb_frame * jitterbuf :=
  let no_frame := bool_decide (frame = None) in
  (* keep track of frame sizes *)
  let jb := match frame with
            | Some fr => if fms fr >? 0 then ii (upd_last_voice_ms (const_ (fms fr))) jb else jb
            | None => jb
            end in
  if (diff <? - target_extra (conf jb)) &&
     ((no_frame && (last_adjustment jb + 80 <? now)) || (last_adjustment jb + 500 <? now))
  then
    let jb := ii (upd_last_adjustment (const_ now)) jb in
    let jb := ii (upd_cnt_contig_interp (const_ 0)) jb in
    match frame with
    | Some fr =>
      let jb := ii (upd_current (λ c, c - fms fr)) jb in
      let jb := ii (upd_frames_out (λ n, n + 1)) jb in
      let jb := decrement_losspct jb in
      (JB_DROP, Some fr, ii (upd_frames_dropped (λ n, n + 1)) jb)
    | None =>
      let jb := ii (upd_current (λ c, c - last_voice_ms jb)) jb in
      let jb := ii (upd_frames_lost (λ n, n + 1)) jb in
      (JB_NOFRAME, None, increment_losspct jb)
    end
  else
    match frame with
    | None =>
      let jb := ii (upd_frames_lost (λ n, n + 1)) jb in
      let jb := increment_losspct jb in
      let jb := ii (upd_next_voice_ts (λ t, t + interpl)) jb in
      let jb := ii (upd_last_voice_ms (const_ interpl)) jb in
      let jb := ii (upd_cnt_contig_interp (λ n, n + 1)) jb in
      (JB_INTERP, None, enter_silence_if_due jb)
    | Some fr =>
      let jb := ii (upd_next_voice_ts (λ t, t + fms fr)) jb in
      let jb := ii (upd_frames_out (λ n, n + 1)) jb in
      let jb := ii (upd_cnt_contig_interp (const_ 0)) jb in
      (JB_OK, Some fr, decrement_losspct jb)
    end.

(** The non-silent case. *)
Definition get_nonsilent jb (now interpl diff : Z) :
    jb_return_code * option jb_frame * jitterbuf :=
  if (diff >? 0) &&
     ((last_adjustment jb + JB_ADJUST_DELAY <? now) ||
      (diff >? queue_last jb - queue_next jb))
  then
    let jb := ii (upd_current (λ c, c + interpl)) jb in
    let jb := ii (upd_next_voice_ts (λ t, t + interpl)) jb in
    let jb := ii (upd_last_voice_ms (const_ interpl)) jb in
    let jb := ii (upd_last_adjustment (const_ now)) jb in
    let jb := ii (upd_cnt_contig_interp (λ n, n + 1)) jb in
    (JB_INTERP, None, enter_silence_if_due jb)
  else
    let '(frame, jb) := queue_get jb (next_voice_ts jb - current jb) in
    match frame with
    | None => get_voiced jb None now interpl diff
    | Some fr =>
      if negb (bool_decide (ftype fr = JB_TYPE_VOICE)) then
        let jb := if bool_decide (ftype fr = JB_TYPE_SILENCE) then
                    ii (upd_cnt_contig_interp (const_ 0))
                      (ii (upd_silence_begin_ts (const_ (fts fr))) jb)
                  else jb in
        (JB_OK, Some fr, ii (upd_frames_out (λ n, n + 1)) jb)
      else if fts fr + current jb <? next_voice_ts jb then
        if fts fr + current jb >? next_voice_ts jb - last_voice_ms jb then
          let jb := ii (upd_next_voice_ts (const_ (fts fr + current jb + fms fr))) jb in
          let jb := ii (upd_frames_out (λ n, n + 1)) jb in
          let jb := decrement_losspct jb in
          (JB_OK, Some fr, ii (upd_cnt_contig_interp (const_ 0)) jb)
        else
          let jb := ii (upd_frames_out (λ n, n + 1)) jb in
          let jb := decrement_losspct jb in
          let jb := ii (upd_frames_late (λ n, n + 1)) jb in
          (JB_DROP, Some fr, ii (upd_frames_lost (λ n, n - 1)) jb)
      else get_voiced jb (Some fr) now interpl diff
    end.

(** The silent case. *)
Definition get_silent jb (now interpl diff : Z) :
    jb_return_code * option jb_frame * jitterbuf :=
  let jb := if (diff <? - target_extra (conf jb)) && (last_adjustment jb + 10 <=? now) then
              ii (upd_last_adjustment (const_ now)) (ii (upd_current (λ c, c - interpl)) jb)
            else jb in
  let '(frame, jb) := queue_get jb (now - current jb) in
  match frame with
  | None => (JB_NOFRAME, None, jb)
  | Some fr =>
    if negb (bool_decide (ftype fr = JB_TYPE_VOICE)) then
      (JB_OK, Some fr, ii (upd_frames_out (λ n, n + 1)) jb)
    else if fts fr <? silence_begin_ts jb then
      let jb := ii (upd_frames_out (λ n, n + 1)) jb in
      let jb := decrement_losspct jb in
      let jb := ii (upd_frames_late (λ n, n + 1)) jb in
      (JB_DROP, Some fr, ii (upd_frames_lost (λ n, n - 1)) jb)
    else
      let jb := ii (upd_current (const_ (target jb))) jb in
      let jb := ii (upd_silence_begin_ts (const_ 0)) jb in
      let jb := ii (upd_next_voice_ts (const_ (fts fr + current jb + fms fr))) jb in
      let jb := ii (upd_last_voice_ms (const_ (fms fr))) jb in
      let jb := ii (upd_frames_out (λ n, n + 1)) jb in
      (JB_OK, Some fr, decrement_losspct jb)
  end.

(** The frame, if any, is what [*frameout] is set to. *)
Definition _jb_get jb (now interpl : Z) : jb_return_code * option jb_frame * jitterbuf :=
  let jb := history_get jb in
  let jb := set_target jb in
  let diff := target jb - current jb in
  if silence_begin_ts jb =? 0 then get_nonsilent jb now interpl diff
  else get_silent jb now interpl diff.

Definition jb_next jb : Z * jitterbuf :=
  if negb (silence_begin_ts jb =? 0) then
    match frames jb with
    | _ :: _ =>
      let next := queue_next jb in
      let jb := history_get jb in
      if target jb - current jb <? - target_extra (conf jb) then (last_adjustment jb + 10, jb)
      else (next + target jb, jb)
    | [] => (JB_LONGMAX, jb)
    end
  else (next_voice_ts jb, jb).

(** [frameout] is the caller's frame; it is overwritten by a returned frame,
    and gets the length to interpolate with [JB_INTERP]. *)
Definition jb_get jb (frameout : jb_frame) (now interpl : Z) :
    jb_return_code * jb_frame * jitterbuf :=
  let '(ret, fr, jb) := _jb_get jb now interpl in
  let frameout := default frameout fr in
  if bool_decide (ret = JB_INTERP) then
    (ret, JbFrame (fdata frameout) (fts frameout) (last_voice_ms jb) (ftype frameout), jb)
  else (ret, frameout, jb).

Definition jb_getall jb : jb_return_code * option jb_frame * jitterbuf :=
  let '(frame, jb) := queue_getall jb in
  match frame with
  | None => (JB_NOFRAME, None, jb)
  | Some fr => (JB_OK, Some fr, jb)
  end.

Definition jb_getinfo jb : jb_return_code * jb_info * jitterbuf :=
  let jb := history_get jb in (JB_OK, info jb, jb).

Definition jb_setconf jb (c : jb_conf) : jb_return_code * jitterbuf :=
  let extra := if target_extra c =? -1 then JB_TARGET_EXTRA else target_extra c in
  let jb := ii (upd_conf (const_ (JbConf (max_jitterbuf c) (resync_threshold c)
                                   (max_contig_interp c) extra))) jb in
  let jb := ii (upd_current (const_ extra)) jb in
  (JB_OK, ii (upd_target (const_ extra)) jb).

Definition jb_is_late jb (ts : Z) : bool := ts + current jb <? next_voice_ts jb.

End Model.

Arguments jb_frame D : clear implicits.
Arguments jitterbuf D : clear implicits.

(** ** The sorted buffers hold the extreme delays

    [R] is the order of a buffer, best entry first; [beats] its strict part as
    the code tests it. *)
Section TopBuffer.
Context (beats : Z → Z → bool) (R : Z → Z → Prop)
  `{!Transitive R} `{!AntiSymm (=) R}
  (beats_spec : ∀ x y, beats x y = true ↔ ¬ R y x)
  (R_total : ∀ x y, R x y ∨ R y x).

(** Insertion that keeps every entry: the reference the buffer truncates. *)
Fixpoint insert_all (x : Z) (l : list Z) : list Z :=
  match l with
  | [] => [x]
  | b :: rest => if beats x b then x :: b :: rest else b :: insert_all x rest
  end.

Lemma not_beats x y : beats x y = false → R y x.
Proof.
  intros Hb. destruct (R_total y x) as [|Hxy]; [done|].
  destruct (decide (x = y)) as [->|Hne]; [done|].
  assert (beats x y = true); [|congruence]. apply beats_spec.
  intros Hyx. apply Hne. by apply (anti_symm R).
Qed.

Lemma beats_R x y : beats x y = true → R x y.
Proof. intros Hb%beats_spec. by destruct (R_total x y). Qed.

Lemma insert_all_perm x l : insert_all x l ≡ₚ x :: l.
Proof.
  induction l as [|b l IH]; simpl; [done|]. case_match; [done|].
  rewrite IH. apply Permutation_swap.
Qed.

Lemma insert_all_sorted x l : StronglySorted R l → StronglySorted R (insert_all x l).
Proof.
  induction 1 as [|b l Hs IH Hb]; simpl; [repeat constructor|]. case_match eqn:E.
  - constructor; [by constructor|]. apply beats_R in E. constructor; [done|].
    eapply Forall_impl; [done|]. intros y Hy. by etrans.
  - constructor; [done|]. rewrite insert_all_perm. constructor; [by apply not_beats | done].
Qed.

Lemma ins_buf_take n x l :
  (n <= length l)%nat → ins_buf beats x (take n l) = take n (insert_all x l).
Proof.
  revert n. induction l as [|b l IH]; intros n Hn; simpl in Hn.
  { by destruct n; [|lia]. }
  destruct n as [|n]; [done|]. cbn [take ins_buf insert_all]. case_match.
  - cbn [take]. f_equal. change (b :: take n l) with (take (S n) (b :: l)).
    apply removelast_firstn. simpl. lia.
  - cbn [take]. f_equal. apply IH. lia.
Qed.

(** [buf] lists the [n] best entries of [l], completed with [pad]. *)
Definition is_top (n : nat) (pad : Z) (buf l : list Z) : Prop :=
  ∃ s, StronglySorted R s ∧ s ≡ₚ l ++ replicate n pad ∧ buf = take n s.

Lemma is_top_length n pad buf l : is_top n pad buf l → length buf = n.
Proof.
  intros (s & _ & Hp & ->). rewrite length_take, Hp, length_app, length_replicate. lia.
Qed.

Lemma is_top_nil n pad : is_top n pad (replicate n pad) [].
Proof.
  exists (replicate n pad). split_and!; [|done|by rewrite take_ge by (rewrite length_replicate; lia)].
  induction n as [|n IH]; simpl; constructor; [done|].
  apply Forall_replicate. by destruct (R_total pad pad).
Qed.

Lemma is_top_unique n pad buf buf' l l' :
  is_top n pad buf l → is_top n pad buf' l' → l ≡ₚ l' → buf = buf'.
Proof.
  intros (s & Hs & Hp & ->) (s' & Hs' & Hp' & ->) Hl. f_equal.
  apply (StronglySorted_unique R); [done..|]. by rewrite Hp, Hp', Hl.
Qed.

(** In a sorted list the first [n] entries are at least as good as the rest,
    and as the [n]-th. *)
Lemma sorted_take_drop n s x y :
  StronglySorted R s → x ∈ take n s → y ∈ drop n s → R x y.
Proof.
  intros Hs Hx Hy. rewrite <- (take_drop n s) in Hs.
  eapply StronglySorted_app_1_elem_of; eauto.
Qed.

Lemma sorted_take_last n s x :
  StronglySorted R s → (0 < n <= length s)%nat → x ∈ take n s →
  R x (take n s !!! (n - 1)%nat).
Proof.
  intros Hs Hn Hx.
  assert (take n s = take (n - 1) (take n s) ++ [take n s !!! (n - 1)%nat]) as Heq.
  { rewrite <- (take_drop (n - 1) (take n s)) at 1. f_equal.
    assert (n - 1 < length (take n s))%nat as Hlt by (rewrite length_take; lia).
    destruct (lookup_lt_is_Some_2 _ _ Hlt) as [z Hz].
    rewrite (list_lookup_total_correct _ _ _ Hz).
    rewrite (drop_S _ _ _ Hz). rewrite drop_ge; [done|]. rewrite length_take; lia. }
  assert (StronglySorted R (take n s)) as Hst.
  { rewrite <- (take_drop n s) in Hs. by apply StronglySorted_app_1_l in Hs. }
  rewrite Heq in Hx, Hst. apply elem_of_app in Hx as [Hx| ->%list_elem_of_singleton].
  - eapply StronglySorted_app_1_elem_of; eauto. by apply list_elem_of_singleton.
  - destruct (R_total (take n s !!! (n - 1)%nat) (take n s !!! (n - 1)%nat)); done.
Qed.

(** Offering one more entry. *)
Lemma is_top_insert n pad buf l x :
  is_top n pad buf l → is_top n pad (ins_buf beats x buf) (l ++ [x]).
Proof.
  intros (s & Hs & Hp & ->). exists (insert_all x s). split_and!.
  - by apply insert_all_sorted.
  - rewrite insert_all_perm, Hp. solve_Permutation.
  - apply ins_buf_take. rewrite Hp, length_app, length_replicate. lia.
Qed.

(** The code's guard: nothing to do when the last entry is not beaten. *)
Lemma ins_buf_guard n pad buf l x :
  (0 < n)%nat → is_top n pad buf l → beats x (buf !!! (n - 1)%nat) = false →
  ins_buf beats x buf = buf.
Proof.
  intros Hn (s & Hs & Hp & ->) Hb.
  assert (n <= length s)%nat as Hlen by (rewrite Hp, length_app, length_replicate; lia).
  assert (∀ b, b ∈ take n s → beats x b = false) as Hall.
  { intros b Hbin. destruct (beats x b) eqn:E; [|done]. apply beats_spec in E.
    destruct E. apply not_beats in Hb. etrans; [|done]. by apply sorted_take_last. }
  clear Hb. induction (take n s) as [|b buf IH]; simpl; [done|].
  rewrite Hall by set_solver. f_equal. apply IH. set_solver.
Qed.

(** An entry that does not beat the last one leaves the buffer right. *)
Lemma is_top_add n pad buf l x :
  (0 < n)%nat → is_top n pad buf l → R (buf !!! (n - 1)%nat) x → is_top n pad buf (l ++ [x]).
Proof.
  intros Hn Htop HR. rewrite <- (ins_buf_guard n pad buf l x) by
    (done || (destruct (beats x _) eqn:E; [|done]; by apply beats_spec in E)).
  by apply is_top_insert.
Qed.

(** Losing an entry that the last one beats leaves the buffer right. *)
Lemma is_top_remove n pad buf l k :
  (0 < n)%nat → is_top n pad buf (k :: l) → beats (buf !!! (n - 1)%nat) k = true →
  is_top n pad buf l.
Proof.
  intros Hn (s & Hs & Hp & ->) Hb%beats_spec.
  assert (n <= length s)%nat as Hlen
    by (rewrite Hp; simpl; rewrite length_app, length_replicate; lia).
  assert (k ∈ s) as Hk by (rewrite Hp; set_solver).
  rewrite <- (take_drop n s), elem_of_app in Hk. destruct Hk as [Hk|Hk].
  { destruct Hb. by apply sorted_take_last. }
  apply list_elem_of_split in Hk as (d1 & d2 & Hd).
  exists (take n s ++ d1 ++ d2). split_and!.
  - rewrite <- (take_drop n s), Hd in Hs.
    rewrite !StronglySorted_app, StronglySorted_cons in Hs. rewrite !StronglySorted_app.
    set_solver.
  - apply (Permutation_cons_inv (a := k)). rewrite app_comm_cons, <- Hp.
    rewrite <- (take_drop n s) at 2. rewrite Hd. solve_Permutation.
  - rewrite take_app_le by (rewrite length_take; lia).
    by rewrite take_take, Nat.min_id.
Qed.

(** The order of the entries does not matter. *)
#[export] Instance is_top_proper n pad buf : Proper ((≡ₚ) ==> iff) (is_top n pad buf).
Proof.
  intros l l' Hl. unfold is_top. split; intros (s & Hs & Hp & ->); exists s;
    (split_and!; [done| |done]).
  - by rewrite Hp, Hl.
  - by rewrite Hp, <- Hl.
Qed.

End TopBuffer.

(** ** The cached buffers and the history *)

#[local] Instance Zge_trans : Transitive Z.ge.
Proof. intros x y z. lia. Qed.
#[local] Instance Zge_antisymm : AntiSymm (=) Z.ge.
Proof. intros x y. lia. Qed.
#[local] Instance Zle_trans : Transitive Z.le.
Proof. intros x y z. lia. Qed.
#[local] Instance Zle_antisymm : AntiSymm (=) Z.le.
Proof. intros x y. lia. Qed.

Lemma gtb_ge x y : (x >? y) = true ↔ ¬ y >= x.
Proof. lia. Qed.
Lemma ltb_le x y : (x <? y) = true ↔ ¬ y <= x.
Proof. lia. Qed.
Lemma ge_total x y : x >= y ∨ y >= x.
Proof. lia. Qed.
Lemma le_total x y : x <= y ∨ y <= x.
Proof. lia. Qed.

(** The 20 largest and the 20 smallest entries of a list of delays. *)
Definition top_max : list Z → list Z → Prop := is_top Z.ge 20 JB_LONGMIN.
Definition top_min : list Z → list Z → Prop := is_top Z.le 20 JB_LONGMAX.

#[export] Instance Zge_dec : RelDecision Z.ge.
Proof. intros x y. destruct (decide (y <= x)); [left|right]; lia. Defined.

(** The delays in descending and in ascending order. *)
Definition sort_desc (w : list Z) : list Z := merge_sort Z.ge w.
Definition sort_asc (w : list Z) : list Z := merge_sort Z.le w.

Section Cache.
Context {D : Type}.
Implicit Types (jb : jitterbuf D).

(** The invariant of the history: array sizes, and the cached buffers, when
    marked valid, are the extreme delays of the current history window. *)
Record cache_ok jb : Prop := {
  co_hist : length (history jb) = 500%nat;
  co_max : length (hist_maxbuf jb) = 20%nat;
  co_min : length (hist_minbuf jb) = 20%nat;
  co_ptr : 0 <= hist_ptr jb;
  co_valid : hist_maxbuf_valid jb = true →
    0 < hist_ptr jb ∧
    top_max (hist_maxbuf jb) (hist_window (history jb) (hist_ptr jb)) ∧
    top_min (hist_minbuf jb) (hist_window (history jb) (hist_ptr jb));
}.

Lemma hist_idx_spec i : 0 <= i → Z.of_nat (hist_idx i) = i mod 500.
Proof.
  intros Hi. unfold hist_idx, JB_HISTORY_SZ. rewrite Z.rem_mod_nonneg by lia.
  pose proof (Z.mod_pos_bound i 500). lia.
Qed.

Lemma hist_idx_lt i : 0 <= i → (hist_idx i < 500)%nat.
Proof.
  intros Hi. pose proof (hist_idx_spec i Hi). pose proof (Z.mod_pos_bound i 500). lia.
Qed.

Lemma hist_idx_ne i j : 0 <= i → 0 < j - i < 500 → hist_idx i ≠ hist_idx j.
Proof.
  intros Hi Hj Heq. pose proof (hist_idx_spec i Hi). pose proof (hist_idx_spec j).
  assert (i mod 500 = j mod 500) as Hm by (rewrite Heq in *; lia).
  pose proof (Z.div_mod i 500). pose proof (Z.div_mod j 500). lia.
Qed.

Lemma hist_idx_add i : 0 <= i → hist_idx (i + 500) = hist_idx i.
Proof.
  intros Hi. apply Nat2Z.inj. rewrite !hist_idx_spec by lia.
  rewrite <- (Z.mod_add i 1 500) by lia. f_equal.
Qed.

(** Entries of the window other than the one written are unchanged. *)
Lemma window_insert_ne (hist : list Z) ptr delay i0 n :
  length hist = 500%nat → 0 <= i0 → i0 + n <= ptr → ptr - i0 < 500 →
  ((λ i, <[hist_idx ptr := delay]> hist !!! hist_idx i) <$> seqZ i0 n : list Z) =
  (λ i, hist !!! hist_idx i) <$> seqZ i0 n.
Proof.
  intros Hlen H0 Hn Hd. apply list_fmap_ext. intros k i Hi.
  apply lookup_seqZ in Hi as [-> Hk].
  apply list_lookup_total_insert_ne. symmetry. apply hist_idx_ne; lia.
Qed.

(** Writing the next entry while the array fills appends to the window. *)
Lemma window_fill (hist : list Z) ptr delay :
  length hist = 500%nat → 0 <= ptr < 500 →
  hist_window (<[hist_idx ptr := delay]> hist) (ptr + 1) = hist_window hist ptr ++ [delay].
Proof.
  intros Hlen Hp. unfold hist_window, JB_HISTORY_SZ.
  rewrite Z.gtb_ltb, (proj2 (Z.ltb_ge _ _)) by lia.
  rewrite Z.gtb_ltb, (proj2 (Z.ltb_ge _ _)) by lia.
  replace (ptr + 1 - 0) with (ptr + 1) by lia. rewrite Z.sub_0_r.
  rewrite seqZ_app, fmap_app by lia.
  rewrite window_insert_ne by lia. f_equal.
  rewrite seqZ_cons, seqZ_nil by lia. simpl.
  rewrite list_lookup_total_insert_eq; [done|]. rewrite Hlen. apply hist_idx_lt. lia.
Qed.

(** Once the array is full it also drops the oldest entry, the one kicked. *)
Lemma window_slide (hist : list Z) ptr delay :
  length hist = 500%nat → 500 <= ptr →
  ∃ rest, hist_window hist ptr = hist !!! hist_idx ptr :: rest ∧
    hist_window (<[hist_idx ptr := delay]> hist) (ptr + 1) = rest ++ [delay].
Proof.
  intros Hlen Hp. unfold hist_window, JB_HISTORY_SZ.
  rewrite (Z.gtb_ltb (ptr + 1)), (proj2 (Z.ltb_lt 500 _)) by lia.
  assert ((if ptr >? 500 then ptr - 500 else 0) = ptr - 500) as -> by (case_match; lia).
  replace (ptr - (ptr - 500)) with (1 + 499) by lia.
  replace (ptr + 1 - (ptr + 1 - 500)) with (499 + 1) by lia.
  rewrite !seqZ_app, !fmap_app by lia.
  exists ((λ i, hist !!! hist_idx i) <$> seqZ (ptr - 500 + 1) 499). split.
  - rewrite seqZ_cons, seqZ_nil by lia. simpl. f_equal.
    rewrite <- hist_idx_add by lia. do 2 f_equal. lia.
  - replace (ptr + 1 - 500) with (ptr - 500 + 1) by lia.
    rewrite window_insert_ne by lia. f_equal.
    rewrite seqZ_cons, seqZ_nil by lia. simpl.
    replace (ptr - 500 + 1 + 499) with ptr by lia.
    rewrite list_lookup_total_insert_eq; [done|]. rewrite Hlen. apply hist_idx_lt. lia.
Qed.

Lemma maxbuf_last_19 (buf : list Z) : maxbuf_last buf = buf !!! (20 - 1)%nat.
Proof. done. Qed.

Lemma top_max_slide buf kicked rest delay :
  top_max buf (kicked :: rest) → delay <= maxbuf_last buf → kicked < maxbuf_last buf →
  top_max buf (rest ++ [delay]).
Proof.
  rewrite maxbuf_last_19. intros Htop Hd Hk.
  apply (is_top_add Z.gtb Z.ge gtb_ge ge_total); [lia| |lia].
  apply (is_top_remove Z.gtb Z.ge gtb_ge ge_total) with kicked; [lia|done|lia].
Qed.

Lemma top_min_slide buf kicked rest delay :
  top_min buf (kicked :: rest) → maxbuf_last buf <= delay → maxbuf_last buf < kicked →
  top_min buf (rest ++ [delay]).
Proof.
  rewrite maxbuf_last_19. intros Htop Hd Hk.
  apply (is_top_add Z.ltb Z.le ltb_le le_total); [lia| |lia].
  apply (is_top_remove Z.ltb Z.le ltb_le le_total) with kicked; [lia|done|lia].
Qed.

Lemma invalid_cache_ok jb :
  cache_ok jb → ∀ h p, length h = 500%nat → 0 <= p →
  cache_ok (upd_hist_maxbuf_valid (const_ false) (upd_hist_ptr (const_ p)
             (upd_history (const_ h) jb))).
Proof. intros [] h p Hh Hp. by constructor. Qed.

(** The shortcut of [history_put] is sound: when it leaves the buffers marked
    valid they are those of the new window. *)
Lemma history_put_cache jb ts delay : cache_ok jb → cache_ok (history_put jb ts delay).
Proof.
  intros Hok. pose proof Hok as [Hh Hmax Hmin Hp Hv]. unfold history_put.
  case_match; [done|]. set (h' := <[hist_idx (hist_ptr jb) := delay]> (history jb)).
  assert (length h' = 500%nat) as Hh' by (unfold h'; by rewrite length_insert).
  pose proof (invalid_cache_ok jb Hok h' (hist_ptr jb + 1) Hh' ltac:(lia)) as Hinv.
  cbn -[JB_HISTORY_SZ]. destruct (hist_maxbuf_valid jb) eqn:Ev; cbn -[JB_HISTORY_SZ].
  2:{ constructor; simpl; auto; [lia | congruence]. }
  destruct (Hv eq_refl) as (Hpos & Htmax & Htmin).
  repeat (case_match; [exact Hinv|]). unfold JB_HISTORY_SZ in *.
  constructor; simpl; auto; [lia|]. intros _. fold h'.
  destruct (decide (hist_ptr jb < 500)) as [Hlt|Hge].
  - unfold h'. rewrite window_fill by (done || lia). split_and!; [lia| |].
    + apply (is_top_add Z.gtb Z.ge gtb_ge ge_total); [lia|done|].
      rewrite <- maxbuf_last_19. lia.
    + apply (is_top_add Z.ltb Z.le ltb_le le_total); [lia|done|].
      rewrite <- maxbuf_last_19. lia.
  - destruct (window_slide (history jb) (hist_ptr jb) delay) as (rest & Hw & Hw'); [done|lia|].
    rewrite Hw in Htmax, Htmin. unfold h'. rewrite Hw'. split_and!; [lia| |].
    + apply top_max_slide with (history jb !!! hist_idx (hist_ptr jb)); [done|lia..].
    + apply top_min_slide with (history jb !!! hist_idx (hist_ptr jb)); [done|lia..].
Qed.

Lemma foldl_ins_max w buf l :
  top_max buf l → top_max (foldl (λ b x, ins_maxbuf x b) buf w) (l ++ w).
Proof.
  revert buf l. induction w as [|x w IH]; intros buf l Htop; simpl.
  { by rewrite app_nil_r. }
  rewrite cons_middle, (assoc_L app). apply IH. unfold ins_maxbuf. case_match eqn:E.
  - by apply (is_top_insert Z.gtb Z.ge gtb_ge ge_total).
  - apply (is_top_add Z.gtb Z.ge gtb_ge ge_total); [lia|done|].
    rewrite <- maxbuf_last_19. lia.
Qed.

Lemma foldl_ins_min w buf l :
  top_min buf l → top_min (foldl (λ b x, ins_minbuf x b) buf w) (l ++ w).
Proof.
  revert buf l. induction w as [|x w IH]; intros buf l Htop; simpl.
  { by rewrite app_nil_r. }
  rewrite cons_middle, (assoc_L app). apply IH. unfold ins_minbuf. case_match eqn:E.
  - by apply (is_top_insert Z.ltb Z.le ltb_le le_total).
  - apply (is_top_add Z.ltb Z.le ltb_le le_total); [lia|done|].
    rewrite <- maxbuf_last_19. lia.
Qed.

Lemma history_calc_cache jb :
  cache_ok jb →
  cache_ok (history_calc_maxbuf jb) ∧ hist_ptr (history_calc_maxbuf jb) = hist_ptr jb ∧
  history (history_calc_maxbuf jb) = history jb ∧
  (0 < hist_ptr jb → hist_maxbuf_valid (history_calc_maxbuf jb) = true).
Proof.
  intros Hok. pose proof Hok as [Hh Hmax Hmin Hp Hv]. unfold history_calc_maxbuf.
  case_match; [split_and!; try done; lia|].
  set (w := hist_window (history jb) (hist_ptr jb)).
  assert (top_max (foldl (λ b x, ins_maxbuf x b) (replicate 20 JB_LONGMIN) w) w) as H1.
  { apply (foldl_ins_max w _ []). apply is_top_nil, ge_total. }
  assert (top_min (foldl (λ b x, ins_minbuf x b) (replicate 20 JB_LONGMAX) w) w) as H2.
  { apply (foldl_ins_min w _ []). apply is_top_nil, le_total. }
  split_and!; try done. constructor; simpl; try done.
  - by eapply is_top_length, H1.
  - by eapply is_top_length, H2.
  - intros _. split_and!; [lia | done | done].
Qed.

(** A buffer entry is the entry of that rank in the sorted history, when the
    padding values are outside the range of the delays. *)
Lemma is_top_nth (R : Z → Z → Prop) `{!RelDecision R} `{!Transitive R} `{!AntiSymm (=) R}
    `{!Total R} pad buf w idx :
  is_top R 20 pad buf w → Forall (λ d, R d pad) w → (idx < length w)%nat → (idx < 20)%nat →
  buf !!! idx = merge_sort R w !!! idx.
Proof.
  intros (s & Hs & Hp & ->) Hw Hidx H20.
  assert (s = merge_sort R w ++ replicate 20 pad) as ->.
  { apply (StronglySorted_unique R); [done| |by rewrite Hp, merge_sort_Permutation].
    apply StronglySorted_app_2.
    - intros x y Hx Hy%elem_of_replicate. destruct Hy as [-> _].
      rewrite merge_sort_Permutation in Hx. rewrite Forall_forall in Hw. by apply Hw.
    - by apply (StronglySorted_merge_sort R).
    - assert (R pad pad) by (by destruct (total R pad pad)).
      generalize 20%nat. intros n. induction n; simpl; constructor; [done|].
      by apply Forall_replicate. }
  rewrite lookup_total_take, decide_True by lia. apply lookup_total_app_l.
  by rewrite merge_sort_Permutation.
Qed.

#[local] Instance Zge_total : Total Z.ge.
Proof. intros x y. lia. Qed.
#[local] Instance Zle_total : Total Z.le.
Proof. intros x y. lia. Qed.

Lemma hist_window_length (hist : list Z) ptr :
  0 <= ptr → length (hist_window hist ptr) = Z.to_nat (Z.min ptr 500).
Proof.
  intros. unfold hist_window, JB_HISTORY_SZ. rewrite length_fmap, length_seqZ.
  case_match; f_equal; lia.
Qed.

(** The rank [history_get] looks at: 3 percent of the entries. *)
Definition drop_rank (ptr : Z) : nat := Z.to_nat (Z.min ptr 500 * 3 / 100).

Lemma history_get_spec jb :
  cache_ok jb →
  let jb' := history_get jb in
  cache_ok jb' ∧ hist_ptr jb' = hist_ptr jb ∧ history jb' = history jb ∧
  (0 < hist_ptr jb →
   Forall (λ d, JB_LONGMIN <= d <= JB_LONGMAX) (hist_window (history jb) (hist_ptr jb)) →
   min jb' = sort_asc (hist_window (history jb) (hist_ptr jb)) !!! drop_rank (hist_ptr jb) ∧
   jitter jb' = sort_desc (hist_window (history jb) (hist_ptr jb)) !!! drop_rank (hist_ptr jb)
                - min jb').
Proof.
  intros Hok. unfold history_get.
  set (jb1 := if negb (hist_maxbuf_valid jb) then history_calc_maxbuf jb else jb).
  assert (cache_ok jb1 ∧ hist_ptr jb1 = hist_ptr jb ∧ history jb1 = history jb ∧
          (0 < hist_ptr jb → hist_maxbuf_valid jb1 = true)) as (Hok1 & Hp1 & Hh1 & Hv1).
  { unfold jb1. destruct (hist_maxbuf_valid jb) eqn:E; simpl.
    - done.
    - by apply history_calc_cache. }
  clearbody jb1. pose proof (co_ptr _ Hok1) as Hp0.
  set (idx := (if hist_ptr jb1 <? JB_HISTORY_SZ then hist_ptr jb1 else JB_HISTORY_SZ)
              * JB_HISTORY_DROPPCT /c 100).
  assert (idx = Z.min (hist_ptr jb) 500 * 3 / 100 ∧ 0 <= idx <= 15) as [Hidx Hidx15].
  { unfold idx, JB_HISTORY_SZ, JB_HISTORY_DROPPCT.
    assert ((if hist_ptr jb1 <? 500 then hist_ptr jb1 else 500) = Z.min (hist_ptr jb) 500) as ->
      by (case_match; lia).
    rewrite Z.quot_div_nonneg by lia. split; [done|].
    split; [apply Z.div_pos; lia | apply Z.div_le_upper_bound; lia]. }
  change (JB_HISTORY_MAXBUF_SZ - 1) with 19.
  rewrite Z.gtb_ltb, (proj2 (Z.ltb_ge 19 idx)), (proj2 (Z.ltb_ge idx 0)) by lia.
  simpl. split_and!; try done.
  - destruct Hok1. by constructor.
  - intros Hpos Hrange. destruct (co_valid _ Hok1 (Hv1 Hpos)) as (_ & Hmax & Hmin).
    rewrite Hh1, Hp1 in *. rewrite Hidx.
    assert (drop_rank (hist_ptr jb) < length (hist_window (history jb) (hist_ptr jb)))%nat as Hlt.
    { rewrite hist_window_length by lia. unfold drop_rank.
      apply Z2Nat.inj_lt; [apply Z.div_pos; lia | lia |]. apply Z.div_lt_upper_bound; lia. }
    assert (drop_rank (hist_ptr jb) < 20)%nat as H20 by (unfold drop_rank; rewrite <- Hidx; lia).
    fold (drop_rank (hist_ptr jb)). unfold sort_asc, sort_desc. split.
    + apply (is_top_nth Z.le JB_LONGMAX); auto. eapply Forall_impl; [done|]. simpl. lia.
    + f_equal. apply (is_top_nth Z.ge JB_LONGMIN); auto. eapply Forall_impl; [done|]. simpl. lia.
Qed.

End Cache.

(** ** The queue *)

Section Queue.
Context {D : Type}.
Implicit Types (jb : jitterbuf D) (fr f g : jb_frame D).

Definition by_ts f g : Prop := fts f <= fts g.

(** The invariant of the buffer: history cache right, queue sorted by time
    stamp, and [frames_cur] its length. *)
Record jb_ok jb : Prop := {
  ok_cache : cache_ok jb;
  ok_sorted : StronglySorted by_ts (frames jb);
  ok_cur : frames_cur jb = Z.of_nat (length (frames jb));
}.

Lemma insert_back_perm fr back : insert_back fr back ≡ₚ fr :: back.
Proof.
  induction back as [|p back IH]; simpl; [done|]. case_match; [|done].
  rewrite IH. apply Permutation_swap.
Qed.

Lemma insert_back_sorted fr back :
  StronglySorted (flip by_ts) back → StronglySorted (flip by_ts) (insert_back fr back).
Proof.
  induction 1 as [|p back Hs IH Hp]; simpl; [repeat constructor|].
  unfold by_ts in *; simpl in *. case_match.
  - constructor; [done|]. rewrite insert_back_perm. constructor; [simpl; lia | done].
  - constructor; [by constructor|]. constructor; [simpl; lia|].
    eapply Forall_impl; [done|]. simpl. lia.
Qed.

Lemma insert_queue_perm fr (q : list (jb_frame D)) : rev (insert_back fr (rev q)) ≡ₚ fr :: q.
Proof. by rewrite <- Permutation_rev, insert_back_perm, <- Permutation_rev. Qed.

Lemma insert_queue_sorted fr (q : list (jb_frame D)) :
  StronglySorted by_ts q → StronglySorted by_ts (rev (insert_back fr (rev q))).
Proof.
  intros Hq. apply StronglySorted_rev, insert_back_sorted, StronglySorted_rev. done.
Qed.

(** A frame structure can be had: from the free list or from the allocator. *)
Definition can_alloc (alloc_ok : bool) jb : bool :=
  alloc_ok || negb (bool_decide (free jb = [])).

(** What [queue_put] leaves alone. *)
Record put_frame_of jb jb' : Prop := {
  pf_cache : cache_ok jb → cache_ok jb';
  pf_in : frames_in jb' = frames_in jb;
  pf_out : frames_out jb' = frames_out jb;
  pf_loss : losspct jb' = losspct jb;
  pf_off : resync_offset jb' = resync_offset jb;
  pf_conf : conf jb' = conf jb;
}.

Lemma queue_put_spec alloc_ok jb data type ms ts :
  jb_ok jb →
  let fr := JbFrame data (ts - resync_offset jb) ms type in
  let r := queue_put alloc_ok jb data type ms ts in
  jb_ok r.2 ∧ put_frame_of jb r.2 ∧
  if can_alloc alloc_ok jb then
    (r.1 = 1 ∧ frames r.2 = fr :: frames jb ∧ (∀ f, f ∈ frames jb → fts fr < fts f)) ∨
    (r.1 = 0 ∧ frames r.2 ≡ₚ fr :: frames jb ∧ ∃ f, f ∈ frames jb ∧ fts f <= fts fr)
  else frames r.2 = frames jb ∧ r.1 = 0.
Proof.
  intros Hok fr r. pose proof Hok as [Hc Hs Hcur]. unfold r, queue_put, can_alloc.
  assert (∃ fl, match free jb with
      | _ :: rest => Some (upd_free (const_ rest) jb)
      | [] => if alloc_ok then Some jb else None
      end = (if alloc_ok || negb (bool_decide (free jb = [])) then Some (upd_free (const_ fl) jb)
             else None)) as [fl ->].
  { destruct (free jb) as [|f0 rest] eqn:Ef; simpl.
    - exists []. rewrite orb_false_r. case_match; [|done]. f_equal. destruct jb; simpl in *. by subst.
    - exists rest. by rewrite orb_true_r. }
  destruct (alloc_ok || _) eqn:Ealloc; [|by split_and!; auto; constructor].
  simpl. destruct (frames jb) as [|f0 q] eqn:Efr; simpl.
  { split_and!.
    - constructor; simpl; [destruct Hc; by constructor| repeat constructor | simpl in Hcur; lia].
    - constructor; auto. intros []. by constructor.
    - left. split_and!; auto. intros f []%elem_of_nil. }
  destruct (last (f0 :: q)) as [l|] eqn:El; [|by apply last_None in El].
  apply StronglySorted_cons in Hs as [Hf0 Hs]. rewrite Forall_forall in Hf0.
  destruct (ts - resync_offset jb <? fts f0) eqn:Ehd; simpl.
  { assert (∀ f, f ∈ f0 :: q → fts fr < fts f) as Hall.
    { intros f [->|Hf]%elem_of_cons; simpl; [lia|].
      specialize (Hf0 f Hf). unfold by_ts in Hf0. lia. }
    split_and!.
    - constructor; simpl; [destruct Hc; by constructor| | rewrite Efr; simpl in *; lia].
      rewrite Efr. constructor; [constructor; [done|by apply Forall_forall]|].
      apply Forall_forall. intros f Hf. specialize (Hall f Hf).
      unfold by_ts, fr in *; simpl in *. lia.
    - constructor; auto. intros []. by constructor.
    - left. by rewrite Efr. }
  assert (∀ q0 : list (jb_frame D), length (rev (insert_back fr (rev q0))) = S (length q0)) as Hlen
    by (intros; by rewrite insert_queue_perm).
  assert (StronglySorted by_ts (rev (insert_back fr (rev (f0 :: q))))) as Hsort.
  { apply insert_queue_sorted. constructor; [done|]. by apply Forall_forall. }
  split_and!.
  - case_match; constructor; simpl; rewrite ?Efr; auto; try (destruct Hc; by constructor);
      rewrite Hlen; simpl in *; lia.
  - case_match; (constructor; auto; intros []; by constructor).
  - right. split_and!; auto.
    + case_match; simpl; rewrite Efr; apply insert_queue_perm.
    + exists f0. split; [set_solver|]. simpl. lia.
Qed.

End Queue.

(** ** [jb_put] *)

Section Put.
Context {D : Type}.
Implicit Types (jb : jitterbuf D) (fr f g : jb_frame D).

(** Everything but the history, the drop flag and the delay statistics. *)
Record same_queue jb jb' : Prop := {
  sq_frames : frames jb' = frames jb;
  sq_free : free jb' = free jb;
  sq_conf : conf jb' = conf jb;
  sq_in : frames_in jb' = frames_in jb;
  sq_out : frames_out jb' = frames_out jb;
  sq_cur : frames_cur jb' = frames_cur jb;
  sq_loss : losspct jb' = losspct jb;
}.

Lemma check_resync_spec jb ts now type delay :
  let r := check_resync jb ts now type delay in
  (cache_ok jb → cache_ok r.2) ∧ same_queue jb r.2 ∧
  ((r.1.1 = 0 ∧ frames_dropped r.2 = frames_dropped jb) ∨
   (r.1.1 = -1 ∧ frames_dropped r.2 = frames_dropped jb + 1 ∧
    resync_offset r.2 = resync_offset jb)).
Proof.
  simpl. unfold check_resync.
  repeat case_match; simpl; (split_and!; [intros []; constructor; simpl; try done; lia
    | by constructor | by auto]).
Qed.

Lemma history_put_queue jb ts delay :
  same_queue jb (history_put jb ts delay) ∧
  resync_offset (history_put jb ts delay) = resync_offset jb ∧
  frames_dropped (history_put jb ts delay) = frames_dropped jb.
Proof. unfold history_put. repeat case_match; simpl; (split_and!; [by constructor | done | done]). Qed.

Lemma same_queue_ok jb jb' : same_queue jb jb' → cache_ok jb' → jb_ok jb → jb_ok jb'.
Proof.
  intros [Hf _ _ _ _ Hc _] Hcache [_ Hs Hn]. constructor; [done| |]; rewrite ?Hc, ?Hf; done.
Qed.

Lemma jb_put_spec alloc_ok jb data type ms ts now :
  jb_ok jb →
  let r := jb_put alloc_ok jb data type ms ts now in
  jb_ok r.2 ∧ frames_out r.2 = frames_out jb ∧ losspct r.2 = losspct jb ∧
  conf r.2 = conf jb ∧
  match r.1 with
  | JB_DROP => frames r.2 = frames jb ∧ frames_in r.2 = frames_in jb
  | JB_SCHED =>
      let fr := JbFrame data (ts - resync_offset r.2) ms type in
      frames_in r.2 = frames_in jb + 1 ∧ can_alloc alloc_ok jb = true ∧
      frames r.2 = fr :: frames jb ∧ (∀ f, f ∈ frames jb → fts fr < fts f)
  | JB_OK =>
      let fr := JbFrame data (ts - resync_offset r.2) ms type in
      frames_in r.2 = frames_in jb + 1 ∧
      if can_alloc alloc_ok jb then
        frames r.2 ≡ₚ fr :: frames jb ∧ ∃ f, f ∈ frames jb ∧ fts f <= fts fr
      else frames r.2 = frames jb
  | _ => False
  end.
Proof.
  intros Hok. pose proof (check_resync_spec jb ts now type (now - (ts - resync_offset jb)))
    as (Hc1 & Hq1 & Hrc). simpl. unfold jb_put.
  destruct (check_resync _ _ _ _ _) as [[rc delay] jb1] eqn:Echk. simpl in *.
  pose proof (same_queue_ok _ _ Hq1 (Hc1 (ok_cache _ Hok)) Hok) as Hok1.
  destruct Hrc as [(-> & _)|(-> & _)]; simpl.
  2:{ destruct Hq1. split_and!; done. }
  set (jb2 := if bool_decide (type = JB_TYPE_VOICE) then history_put jb1 ts delay else jb1).
  assert (same_queue jb1 jb2 ∧ cache_ok jb2) as [Hq2 Hc2].
  { unfold jb2. case_match; [|split; [done | apply Hok1]].
    split; [apply history_put_queue | apply history_put_cache, Hok1]. }
  pose proof (same_queue_ok _ _ Hq2 Hc2 Hok1) as Hok2. clearbody jb2.
  set (jb3 := ii (upd_frames_in (λ n, n + 1)) jb2).
  assert (jb_ok jb3) as Hok3 by (destruct Hok2 as [[] ? ?]; constructor; [constructor|..]; done).
  pose proof (queue_put_spec alloc_ok jb3 data type ms ts Hok3) as (Hok4 & Hpf & Hcase).
  destruct (queue_put _ _ _ _ _ _) as [hd jb4]. simpl in *.
  destruct Hq1 as [F1 R1 C1 I1 O1 _ L1], Hq2 as [F2 R2 C2 I2 O2 _ L2], Hpf as [_ I4 O4 L4 S4 C4].
  simpl in *.
  assert (can_alloc alloc_ok jb3 = can_alloc alloc_ok jb) as Hca
    by (unfold can_alloc; simpl; by rewrite R2, R1).
  rewrite Hca, F2, F1 in Hcase. rewrite <- S4 in Hcase.
  destruct (can_alloc alloc_ok jb) eqn:Eca.
  - destruct Hcase as [(-> & Hfr & Hall)|(-> & Hfr & Hex)]; simpl;
      split_and!; done || congruence || lia.
  - destruct Hcase as (Hfr & ->). simpl. split_and!; done || congruence || lia.
Qed.

End Put.

(** ** [jb_get] *)

Section Get.
Context {D : Type}.
Implicit Types (jb : jitterbuf D) (fr f g : jb_frame D) (fo : option (jb_frame D)).

Definition taken fo : Z := Z.of_nat (length (option_list fo)).

(** The loss percentage after a lost or a received frame. *)
Definition loss_up (l : Z) : Z := (100000 + 499 * l) /c 500.
Definition loss_down (l : Z) : Z := (499 * l) /c 500.

(** What a read does to the buffer, whatever it returns. *)
Record get_post jb (code : jb_return_code) fo jb' : Prop := {
  gp_frames : frames jb = option_list fo ++ frames jb';
  gp_free : free jb' = option_list fo ++ free jb;
  gp_hist : history jb' = history jb ∧ hist_ptr jb' = hist_ptr jb ∧
    hist_maxbuf jb' = hist_maxbuf jb ∧ hist_minbuf jb' = hist_minbuf jb ∧
    hist_maxbuf_valid jb' = hist_maxbuf_valid jb;
  gp_cur : frames_cur jb' = frames_cur jb - taken fo;
  gp_in : frames_in jb' = frames_in jb;
  gp_out : frames_out jb' = frames_out jb + taken fo;
  gp_conf : conf jb' = conf jb;
  gp_min : min jb' = min jb;
  gp_target : target jb' = target jb;
  gp_loss : losspct jb' = losspct jb ∨ losspct jb' = loss_up (losspct jb) ∨
            losspct jb' = loss_down (losspct jb);
  gp_code : match code, fo with
            | JB_OK, Some _ | JB_DROP, Some _ => True
            | JB_INTERP, None | JB_NOFRAME, None => True
            | _, _ => False
            end;
}.

Lemma queue_get_spec jb ts :
  let r := queue_get jb ts in
  (∀ f, r.1 = Some f → fts f <= ts) ∧
  r.2 = match r.1 with
        | None => jb
        | Some _ => ii (upd_frames_cur (λ n, n - 1))
                      (upd_free (λ l, option_list r.1 ++ l) (upd_frames (λ q, tail q) jb))
        end ∧
  frames jb = option_list r.1 ++ frames r.2.
Proof.
  simpl. unfold queue_get, _queue_get. destruct (frames jb) as [|f0 q] eqn:Ef; simpl.
  { by rewrite Ef. }
  case_match eqn:E; simpl; split_and!; try done.
  - intros f [= <-]. lia.
  - unfold ii, upd_info, upd_frames, upd_free. simpl. by rewrite Ef.
Qed.

(** Close a branch of a read: every field is a projection of an update. *)
Ltac get_branch := constructor; simpl; unfold taken; simpl; try done; try lia; auto.

Lemma get_voiced_spec jb fo now interpl diff :
  let r := get_voiced jb fo now interpl diff in
  frames r.2 = frames jb ∧ free r.2 = free jb ∧
  (history r.2 = history jb ∧ hist_ptr r.2 = hist_ptr jb ∧
   hist_maxbuf r.2 = hist_maxbuf jb ∧ hist_minbuf r.2 = hist_minbuf jb ∧
   hist_maxbuf_valid r.2 = hist_maxbuf_valid jb) ∧
  frames_cur r.2 = frames_cur jb ∧ frames_in r.2 = frames_in jb ∧
  frames_out r.2 = frames_out jb + taken fo ∧
  conf r.2 = conf jb ∧ min r.2 = min jb ∧ target r.2 = target jb ∧
  (losspct r.2 = losspct jb ∨ losspct r.2 = loss_up (losspct jb) ∨
   losspct r.2 = loss_down (losspct jb)) ∧
  r.1.2 = fo ∧
  match r.1.1, fo with
  | JB_OK, Some _ | JB_DROP, Some _ => True
  | JB_INTERP, None | JB_NOFRAME, None => True
  | _, _ => False
  end.
Proof.
  simpl. unfold get_voiced, enter_silence_if_due, taken, loss_up, loss_down.
  repeat case_match; simplify_eq/=; split_and!; try done; try lia; auto.
Qed.

Lemma get_nonsilent_spec jb now interpl diff :
  let r := get_nonsilent jb now interpl diff in get_post jb r.1.1 r.1.2 r.2.
Proof.
  simpl. unfold get_nonsilent. case_match eqn:Egrow.
  { unfold enter_silence_if_due. case_match; get_branch. }
  pose proof (queue_get_spec jb (next_voice_ts jb - current jb)) as (_ & Hjb & Hfr).
  destruct (queue_get _ _) as [[fr|] jb1]; simpl in *; subst jb1.
  - repeat case_match; try (by get_branch).
    pose proof (get_voiced_spec (ii (upd_frames_cur (λ n, n - 1))
      (upd_free (λ l, fr :: l) (upd_frames (λ q, tail q) jb))) (Some fr) now interpl diff)
      as (F & R & Hh & C & I & O & Cf & M & T & L & -> & Code); simpl in *.
    constructor; simpl; rewrite ?F, ?R, ?C, ?I, ?O, ?Cf, ?M, ?T; unfold taken; simpl; done || lia.
  - pose proof (get_voiced_spec jb None now interpl diff)
      as (F & R & Hh & C & I & O & Cf & M & T & L & -> & Code); simpl in *.
    constructor; simpl; rewrite ?F, ?R, ?C, ?I, ?O, ?Cf, ?M, ?T; unfold taken; simpl; done || lia.
Qed.

Lemma get_silent_spec jb now interpl diff :
  let r := get_silent jb now interpl diff in get_post jb r.1.1 r.1.2 r.2.
Proof.
  simpl. unfold get_silent.
  set (jb0 := if _ && _ then _ else jb).
  assert (frames jb0 = frames jb ∧ free jb0 = free jb ∧ history jb0 = history jb ∧
    hist_ptr jb0 = hist_ptr jb ∧ hist_maxbuf jb0 = hist_maxbuf jb ∧
    hist_minbuf jb0 = hist_minbuf jb ∧ hist_maxbuf_valid jb0 = hist_maxbuf_valid jb ∧
    frames_cur jb0 = frames_cur jb ∧ frames_in jb0 = frames_in jb ∧
    frames_out jb0 = frames_out jb ∧ conf jb0 = conf jb ∧ min jb0 = min jb ∧
    target jb0 = target jb ∧ losspct jb0 = losspct jb) as Hsame
    by (unfold jb0; case_match; done).
  clearbody jb0. destruct Hsame as (F & R & H1 & H2 & H3 & H4 & H5 & C & I & O & Cf & M & T & L).
  pose proof (queue_get_spec jb0 (now - current jb0)) as (_ & Hjb & Hfr).
  destruct (queue_get _ _) as [[fr|] jb1]; simpl in *; subst jb1;
    repeat case_match; constructor; simpl in *;
    unfold taken, loss_up, loss_down in *; simpl;
    rewrite <- ?F, <- ?R, <- ?H1, <- ?H2, <- ?H3, <- ?H4, <- ?H5, <- ?C, <- ?I, <- ?O, <- ?Cf,
      <- ?M, <- ?T, <- ?L; split_and?; try done; try lia; auto.
Qed.

Lemma history_get_frame jb :
  same_queue jb (history_get jb) ∧ resync_offset (history_get jb) = resync_offset jb.
Proof.
  unfold history_get, history_calc_maxbuf.
  repeat case_match; simpl; (split; [by constructor | done]).
Qed.

Lemma set_target_spec jb :
  let jb' := set_target jb in
  same_queue jb jb' ∧ (cache_ok jb → cache_ok jb') ∧ min jb' = min jb ∧ jitter jb' = jitter jb ∧
  target jb' = (if negb (max_jitterbuf (conf jb) =? 0)
                then Z.min (jitter jb + min jb + target_extra (conf jb))
                           (min jb + max_jitterbuf (conf jb))
                else jitter jb + min jb + target_extra (conf jb)).
Proof.
  simpl. unfold set_target. simpl.
  destruct (max_jitterbuf (conf jb) =? 0); simpl; [|case_match];
    (split_and!; [by constructor | intros []; by constructor | done | done | simpl; lia]).
Qed.

(** The state in which a read takes its decision. *)
Definition get_prep jb : jitterbuf D := set_target (history_get jb).

Lemma get_prep_spec jb :
  same_queue jb (get_prep jb) ∧ (cache_ok jb → cache_ok (get_prep jb)).
Proof.
  destruct (history_get_frame jb) as [[] _].
  destruct (set_target_spec (history_get jb)) as ([] & Hc & _). split.
  - constructor; unfold get_prep; congruence.
  - intros Hok. apply Hc. by apply history_get_spec.
Qed.

Lemma _jb_get_spec jb now interpl :
  let r := _jb_get jb now interpl in get_post (get_prep jb) r.1.1 r.1.2 r.2.
Proof.
  cbv zeta. unfold _jb_get. change (set_target (history_get jb)) with (get_prep jb).
  case_match.
  - apply get_nonsilent_spec.
  - apply get_silent_spec.
Qed.

Lemma _jb_get_ok jb now interpl :
  jb_ok jb →
  let r := _jb_get jb now interpl in
  jb_ok r.2 ∧ frames jb = option_list r.1.2 ++ frames r.2 ∧
  frames_in r.2 = frames_in jb ∧ frames_out r.2 = frames_out jb + taken r.1.2 ∧
  conf r.2 = conf jb.
Proof.
  intros [Hc Hs Hn]. cbv zeta. pose proof (_jb_get_spec jb now interpl) as Hp. cbv zeta in Hp.
  destruct (get_prep_spec jb) as [[F R Cf I O C L] Hcache].
  destruct Hp as [Gf Gr (G1 & G2 & G3 & G4 & G5) Gc Gi Go Gcf Gm Gt _ _].
  rewrite F in Gf. rewrite Gf in Hs, Hn. rewrite length_app in Hn.
  split_and!; try congruence.
  - constructor.
    + destruct (Hcache Hc) as [K1 K2 K3 K4 K5]. constructor; rewrite ?G1, ?G2, ?G3, ?G4, ?G5; done.
    + by apply StronglySorted_app_1_r in Hs.
    + rewrite Gc, C. unfold taken in *. lia.
Qed.

End Get.

(** ** Runs of the buffer *)

Section Runs.
Context {D : Type}.
Implicit Types (jb : jitterbuf D) (fr f g : jb_frame D).

(** A run, with two numbers the buffer does not keep: the frames it accepted
    without memory for a frame structure, and those that [jb_getall] took out;
    both since the last reset, which also sets its counters to 0. *)
Record jb_run := JbRun { the_jb : jitterbuf D; no_memory : Z; emptied : Z }.

(** One call on the buffer. *)
Inductive jb_step : jb_run → jb_run → Prop :=
  | jb_step_put t alloc_ok data type ms ts now code jb' :
      jb_put alloc_ok (the_jb t) data type ms ts now = (code, jb') →
      let lost := negb (can_alloc alloc_ok (the_jb t)) && negb (bool_decide (code = JB_DROP)) in
      jb_step t (JbRun jb' (no_memory t + if lost then 1 else 0) (emptied t))
  | jb_step_get t frameout now interpl code fr jb' :
      jb_get (the_jb t) frameout now interpl = (code, fr, jb') →
      jb_step t (JbRun jb' (no_memory t) (emptied t))
  | jb_step_getall t code fo jb' :
      jb_getall (the_jb t) = (code, fo, jb') →
      jb_step t (JbRun jb' (no_memory t) (emptied t + taken fo))
  | jb_step_next t time jb' :
      jb_next (the_jb t) = (time, jb') → jb_step t (JbRun jb' (no_memory t) (emptied t))
  | jb_step_info t code i jb' :
      jb_getinfo (the_jb t) = (code, i, jb') → jb_step t (JbRun jb' (no_memory t) (emptied t))
  | jb_step_conf t c code jb' :
      jb_setconf (the_jb t) c = (code, jb') → jb_step t (JbRun jb' (no_memory t) (emptied t))
  | jb_step_reset t : jb_step t (JbRun (jb_reset (the_jb t)) 0 0).

Record run_ok (t : jb_run) : Prop := {
  ro_ok : jb_ok (the_jb t);
  ro_count : frames_in (the_jb t)
             = frames_out (the_jb t) + frames_cur (the_jb t) + no_memory t + emptied t;
  ro_loss : 0 <= losspct (the_jb t) <= 100000;
}.

Lemma loss_up_range l : 0 <= l <= 100000 → 0 <= loss_up l <= 100000.
Proof.
  intros Hl. unfold loss_up. rewrite Z.quot_div_nonneg by lia. split.
  - apply Z.div_pos; lia.
  - apply Z.div_le_upper_bound; lia.
Qed.

Lemma loss_down_range l : 0 <= l <= 100000 → 0 <= loss_down l <= 100000.
Proof.
  intros Hl. unfold loss_down. rewrite Z.quot_div_nonneg by lia. split.
  - apply Z.div_pos; lia.
  - apply Z.div_le_upper_bound; lia.
Qed.

Lemma jb_get_inner jb frameout now interpl code fr jb' :
  jb_get jb frameout now interpl = (code, fr, jb') →
  code = (_jb_get jb now interpl).1.1 ∧ jb' = (_jb_get jb now interpl).2.
Proof.
  unfold jb_get. destruct (_jb_get jb now interpl) as [[c fo] j]. simpl.
  case_match; intros; by simplify_eq.
Qed.

Lemma run_ok_same t jb' : same_queue (the_jb t) jb' → cache_ok jb' → run_ok t →
  run_ok (JbRun jb' (no_memory t) (emptied t)).
Proof.
  intros Hq Hc [Hok Hn Hl]. constructor; cbn [the_jb no_memory emptied];
    [by apply (same_queue_ok (the_jb t))|..]; destruct Hq as [_ _ _ I O C L]; lia.
Qed.

Lemma jb_reset_run_ok jb : run_ok (JbRun (jb_reset jb) 0 0).
Proof.
  constructor; simpl; [|lia|lia]. constructor; simpl; [|constructor|done]. by constructor.
Qed.

Lemma jb_new_run_ok jb : jb_new true = Some jb → run_ok (JbRun jb 0 0).
Proof. intros [= <-]. apply jb_reset_run_ok. Qed.

Lemma jb_step_ok t t' : run_ok t → jb_step t t' → run_ok t'.
Proof.
  intros Hrun Hstep. pose proof Hrun as [Hok Hn Hl]. destruct Hstep as
    [t alloc_ok data type ms ts now code jb' Hput lost
    |t frameout now interpl code fr jb' Hget|t code fo jb' Hall|t time jb' Hnext|t code i jb' Hinfo
    |t c code jb' Hconf|t].
  - pose proof (jb_put_spec alloc_ok (the_jb t) data type ms ts now Hok) as (Hok' & O & L & _ & Hcase).
    rewrite Hput in *. cbn [fst snd] in *. constructor; cbn [the_jb no_memory emptied]; [done| |lia].
    rewrite O, (ok_cur _ Hok'). rewrite (ok_cur _ Hok) in Hn. unfold lost. clear lost.
    destruct code; try done; cbn [bool_decide negb].
    + destruct Hcase as (I & Hcase). destruct (can_alloc _ _).
      * destruct Hcase as [Hp _]. rewrite Hp. simpl. lia.
      * rewrite Hcase. simpl. lia.
    + destruct Hcase as (F & I). rewrite F, andb_false_r. lia.
    + destruct Hcase as (I & -> & F & _). rewrite F. simpl. lia.
  - apply jb_get_inner in Hget as [-> ->].
    pose proof (_jb_get_ok (the_jb t) now interpl Hok) as (Hok' & F & I & O & _).
    pose proof (_jb_get_spec (the_jb t) now interpl) as [_ _ _ _ _ _ _ _ _ L _].
    destruct (get_prep_spec (the_jb t)) as [[_ _ _ _ _ _ Lp] _]. rewrite Lp in L.
    constructor; cbn [the_jb no_memory emptied]; [done| |].
    + rewrite I, O, (ok_cur _ Hok'). rewrite (ok_cur _ Hok), F, length_app in Hn.
      unfold taken in *. lia.
    + destruct L as [-> | [-> | ->]]; auto using loss_up_range, loss_down_range.
  - unfold jb_getall, queue_getall, _queue_get in Hall. destruct Hok as [Hc Hs Hcur].
    destruct (frames (the_jb t)) as [|hd tl] eqn:Ef; cbn in Hall; simplify_eq.
    + constructor; cbn [the_jb no_memory emptied]; [constructor; rewrite ?Ef; done| |done].
      unfold taken. cbn. lia.
    + apply StronglySorted_cons in Hs as [_ Hs]. simpl in Hcur.
      constructor; cbn; [constructor; cbn; [destruct Hc; by constructor|done|lia]|unfold taken; cbn; lia|lia].
  - unfold jb_next in Hnext. pose proof (history_get_frame (the_jb t)) as [Hq _].
    pose proof (history_get_spec (the_jb t) (ok_cache _ Hok)) as (Hc & _).
    repeat case_match; simplify_eq; try (by destruct t); by apply run_ok_same.
  - unfold jb_getinfo in Hinfo. simplify_eq. pose proof (history_get_frame (the_jb t)) as [Hq _].
    pose proof (history_get_spec (the_jb t) (ok_cache _ Hok)) as (Hc & _). by apply run_ok_same.
  - unfold jb_setconf in Hconf. simplify_eq. constructor; simpl; [|lia|lia].
    destruct Hok as [[] Hs Hcur]. by constructor.
  - apply jb_reset_run_ok.
Qed.

(** Consecutive discontinuous delays. *)
Definition discontinuous jb (ts now : Z) : Prop :=
  Z.abs (now - (ts - resync_offset jb) - last_delay jb) >
  2 * jitter jb + resync_threshold (conf jb).

Definition queue_span jb : Z :=
  match head (frames jb), last (frames jb) with
  | Some f, Some l => fts l - fts f
  | _, _ => 0
  end.

(** The buffer after a resynchronisation on a frame. *)
Definition resynced_jb jb (ts now : Z) : jitterbuf D :=
  ii (upd_last_delay (const_ 0)) (ii (upd_resync_offset (const_ (ts - now)))
    (upd_hist_maxbuf_valid (const_ false) (upd_hist_ptr (const_ 0)
      (ii (upd_cnt_delay_discont (const_ 0))
        (ii (upd_cnt_delay_discont (λ n, n + 1)) (upd_dropem (const_ false) jb)))))).

Lemma check_resync_discont jb ts now type :
  queue_span jb < max_jitterbuf (conf jb) → resync_threshold (conf jb) ≠ -1 →
  discontinuous jb ts now → type ≠ JB_TYPE_CONTROL →
  check_resync jb ts now type (now - (ts - resync_offset jb)) =
  if cnt_delay_discont jb + 1 >? 3 then
    (0, 0, resynced_jb jb ts now)
  else
    (-1, now - (ts - resync_offset jb),
      ii (upd_frames_dropped (λ n, n + 1))
        (ii (upd_cnt_delay_discont (λ n, n + 1)) (upd_dropem (const_ false) jb))).
Proof.
  intros Hspan Hthr Hdis Htype. unfold check_resync. fold (queue_span jb).
  rewrite Z.geb_leb, (proj2 (Z.leb_gt _ _)) by done. simpl.
  rewrite (proj2 (Z.eqb_neq _ _)) by done. simpl.
  unfold discontinuous in Hdis. rewrite (proj2 (Z.gtb_lt _ _)) by lia.
  rewrite bool_decide_false by done. rewrite orb_false_r. by case_match.
Qed.

Lemma queue_put_offset alloc_ok jb data type ms ts :
  resync_offset (queue_put alloc_ok jb data type ms ts).2 = resync_offset jb.
Proof. unfold queue_put. destruct (free jb), alloc_ok; simpl; repeat case_match; done. Qed.

(** A frame that passes [check_resync] is accepted. *)
Lemma jb_put_accepted alloc_ok jb data type ms ts now delay jb1 :
  check_resync jb ts now type (now - (ts - resync_offset jb)) = (0, delay, jb1) →
  let r := jb_put alloc_ok jb data type ms ts now in
  (r.1 = JB_OK ∨ r.1 = JB_SCHED) ∧ resync_offset r.2 = resync_offset jb1.
Proof.
  intros Hchk. cbv zeta. unfold jb_put. rewrite Hchk. simpl.
  set (jb2 := if bool_decide (type = JB_TYPE_VOICE) then _ else _).
  assert (resync_offset jb2 = resync_offset jb1) as <-
    by (unfold jb2; case_match; [apply history_put_queue | done]).
  pose proof (queue_put_offset alloc_ok (ii (upd_frames_in (λ n, n + 1)) jb2) data type ms ts) as Hq.
  destruct (queue_put _ _ _ _ _ _) as [h jb3]. simpl in Hq. case_match; simpl; auto.
Qed.

(** The statistics a dropped discontinuous frame leaves for the next one. *)
Lemma jb_put_discont_drop alloc_ok jb data type ms ts now :
  queue_span jb < max_jitterbuf (conf jb) → resync_threshold (conf jb) ≠ -1 →
  discontinuous jb ts now → type ≠ JB_TYPE_CONTROL → cnt_delay_discont jb < 3 →
  let r := jb_put alloc_ok jb data type ms ts now in
  r.1 = JB_DROP ∧ cnt_delay_discont r.2 = cnt_delay_discont jb + 1 ∧
  resync_offset r.2 = resync_offset jb ∧ last_delay r.2 = last_delay jb ∧
  jitter r.2 = jitter jb ∧ conf r.2 = conf jb ∧ frames r.2 = frames jb.
Proof.
  intros H1 H2 H3 H4 H5. simpl. unfold jb_put. rewrite check_resync_discont by done.
  rewrite Z.gtb_ltb, (proj2 (Z.ltb_ge _ _)) by lia. simpl. done.
Qed.

End Runs.

(** ** Properties *)

Module Properties.
Section Claims.
Context {D : Type}.
Implicit Types (jb : jitterbuf D) (fr f g : jb_frame D).

(** [jb_put] keeps the buffer's invariant (queue sorted by time stamp, its
    length counted in [frames_cur], cached extreme delays right) and either
    drops the frame leaving the queue as it was, or accepts it: the queue is
    the old one plus exactly the new frame with its time stamp moved by the
    resynchronisation offset, [JB_SCHED] exactly when it precedes all others.
    Without memory for a frame structure the call reports [JB_OK] but the
    queue is unchanged. *)
Theorem jb_put_correct alloc_ok jb data type ms ts now :
  jb_ok jb →
  ∃ code jb', jb_put alloc_ok jb data type ms ts now = (code, jb') ∧ jb_ok jb' ∧
  match code with
  | JB_DROP => frames jb' = frames jb ∧ frames_in jb' = frames_in jb
  | JB_SCHED =>
      let fr := JbFrame data (ts - resync_offset jb') ms type in
      frames_in jb' = frames_in jb + 1 ∧ can_alloc alloc_ok jb = true ∧
      frames jb' = fr :: frames jb ∧ (∀ f, f ∈ frames jb → fts fr < fts f)
  | JB_OK =>
      let fr := JbFrame data (ts - resync_offset jb') ms type in
      frames_in jb' = frames_in jb + 1 ∧
      if can_alloc alloc_ok jb then
        frames jb' ≡ₚ fr :: frames jb ∧ ∃ f, f ∈ frames jb ∧ fts f <= fts fr
      else frames jb' = frames jb
  | _ => False
  end.
Proof.
  intros Hok. destruct (jb_put_spec alloc_ok jb data type ms ts now Hok)
    as (? & _ & _ & _ & ?). eexists _, _. split; [apply surjective_pairing|]. done.
Qed.

(** [jb_get] keeps the invariant; it hands out (to play or to drop) only
    the frame with the earliest time stamp, removes exactly that frame and
    counts it; [JB_INTERP] and [JB_NOFRAME] leave the queue alone, and no
    other code is returned (in particular never [JB_EMPTY]). *)
Theorem jb_get_correct jb frameout now interpl :
  jb_ok jb →
  ∃ code fr jb', jb_get jb frameout now interpl = (code, fr, jb') ∧ jb_ok jb' ∧
    frames_in jb' = frames_in jb ∧ conf jb' = conf jb ∧
    match code with
    | JB_OK | JB_DROP =>
        frames jb = fr :: frames jb' ∧ frames_out jb' = frames_out jb + 1 ∧
        ∀ g, g ∈ frames jb' → fts fr <= fts g
    | JB_INTERP => frames jb' = frames jb ∧ frames_out jb' = frames_out jb ∧
        fr = JbFrame (fdata frameout) (fts frameout) (last_voice_ms jb') (ftype frameout)
    | JB_NOFRAME => frames jb' = frames jb ∧ frames_out jb' = frames_out jb ∧ fr = frameout
    | _ => False
    end.
Proof.
  intros Hok. pose proof (_jb_get_ok jb now interpl Hok) as (Hok' & F & I & O & C).
  pose proof (_jb_get_spec jb now interpl) as [_ _ _ _ _ _ _ _ _ _ Hcode].
  unfold jb_get. destruct (_jb_get jb now interpl) as [[code fo] jb']. cbn [fst snd] in *.
  pose proof (ok_sorted _ Hok) as Hs.
  unfold taken in O. destruct code, fo as [f|]; try done; simpl in *;
    eexists _, _, _; (split; [done|]); split_and!; try done; try lia;
    rewrite F in Hs; apply StronglySorted_cons in Hs as [Hs _]; by rewrite Forall_forall in Hs.
Qed.

(** The shortcut in [history_put] is sound.  The delay history always is
    the window of the last 500 delays, and whenever the cached buffers stay
    marked valid after a put, without recomputation, they are the 20 largest
    and 20 smallest delays of the new window. *)
Theorem history_put_correct jb ts delay :
  cache_ok jb →
  cache_ok (history_put jb ts delay) ∧
  (0 < ts →
   hist_window (history (history_put jb ts delay)) (hist_ptr (history_put jb ts delay)) =
   (if decide (hist_ptr jb < 500)
    then hist_window (history jb) (hist_ptr jb)
    else tail (hist_window (history jb) (hist_ptr jb))) ++ [delay]).
Proof.
  intros Hok. split; [by apply history_put_cache|]. intros Hts.
  pose proof Hok as [Hh _ _ Hp _].
  assert (history (history_put jb ts delay) = <[hist_idx (hist_ptr jb) := delay]> (history jb) ∧
          hist_ptr (history_put jb ts delay) = hist_ptr jb + 1) as [-> ->].
  { unfold history_put. case_match; [lia|]. repeat case_match; done. }
  case_decide as H5.
  - by apply window_fill.
  - destruct (window_slide (history jb) (hist_ptr jb) delay) as (rest & -> & ->); auto. lia.
Qed.

(** [history_get] computes, through the cached buffers and whatever their
    state, the measure the header describes: with the 3 percent highest and
    lowest delays of the history dropped, [min] is the smallest remaining
    delay and [jitter] the distance to the largest. *)
Theorem history_get_correct jb :
  cache_ok jb → 0 < hist_ptr jb →
  Forall (λ d, JB_LONGMIN <= d <= JB_LONGMAX) (hist_window (history jb) (hist_ptr jb)) →
  let w := hist_window (history jb) (hist_ptr jb) in
  let k := Z.to_nat (Z.of_nat (length w) * 3 / 100) in
  min (history_get jb) = sort_asc w !!! k ∧
  jitter (history_get jb) = sort_desc w !!! k - sort_asc w !!! k.
Proof.
  intros Hok Hp Hr w k. destruct (history_get_spec jb Hok) as (_ & _ & _ & Hval).
  destruct (Hval Hp Hr) as [Hmin Hj].
  assert (k = drop_rank (hist_ptr jb)) as ->.
  { unfold k, w, drop_rank. rewrite hist_window_length, Z2Nat.id by lia. done. }
  rewrite Hj, Hmin. done.
Qed.

(** C29: from [jb_new], over any sequence of puts (with or without memory),
    reads, calls that empty the queue, queries, reconfigurations and resets,
    every frame accepted is accounted for: [frames_in] is the sum of
    [frames_out], the length of the queue, the frames accepted without memory
    and the frames taken by [jb_getall], which counts nothing out.  The queue is
    sorted, [frames_cur] is its length, and the loss percentage stays between 0
    and 100000. *)
Theorem jb_run_correct (jb0 jb : jitterbuf D) (no_mem getall : Z) :
  jb_new true = Some jb0 → rtc jb_step (JbRun jb0 0 0) (JbRun jb no_mem getall) →
  frames_in jb = frames_out jb + Z.of_nat (length (frames jb)) + no_mem + getall ∧
  frames_cur jb = Z.of_nat (length (frames jb)) ∧
  StronglySorted by_ts (frames jb) ∧ 0 <= losspct jb <= 100000.
Proof.
  intros H0%jb_new_run_ok Hrtc.
  assert (∀ t t' : jb_run (D := D), rtc jb_step t t' → run_ok t → run_ok t') as Hrun
    by (induction 1; eauto using jb_step_ok).
  destruct (Hrun _ _ Hrtc H0) as [[_ Hs Hc] Hn Hl]. cbn [the_jb no_memory emptied] in *.
  split_and!; try done; lia.
Qed.

(** The hard clamp: after a read with a maximum configured, the target
    adjustment exceeds the measured minimum by at most that maximum. *)
Theorem jb_get_target_clamped jb frameout now interpl :
  max_jitterbuf (conf jb) ≠ 0 →
  ∃ code fr jb', jb_get jb frameout now interpl = (code, fr, jb') ∧
    target jb' - min jb' <= max_jitterbuf (conf jb).
Proof.
  intros Hmax. destruct (jb_get jb frameout now interpl) as [[code fr] jb'] eqn:Hget.
  exists code, fr, jb'. split; [done|]. apply jb_get_inner in Hget as [_ ->].
  pose proof (_jb_get_spec jb now interpl) as [_ _ _ _ _ _ _ Hm Ht _ _].
  rewrite Hm, Ht. unfold get_prep.
  destruct (set_target_spec (history_get jb)) as (_ & _ & -> & _ & ->).
  destruct (history_get_frame jb) as [[_ _ -> _ _ _ _] _].
  rewrite (proj2 (Z.eqb_neq _ _)) by done. simpl. lia.
Qed.

(** Three consecutive frames with a discontinuous delay are dropped and
    the fourth resynchronises the buffer: it is accepted and the offset set
    so that it is exactly on time. *)
Theorem jb_resync_on_fourth jb alloc_ok (d1 d2 d3 d4 : D) type ms t1 n1 t2 n2 t3 n3 t4 n4 :
  queue_span jb < max_jitterbuf (conf jb) → resync_threshold (conf jb) ≠ -1 →
  cnt_delay_discont jb = 0 → type ≠ JB_TYPE_CONTROL →
  discontinuous jb t1 n1 → discontinuous jb t2 n2 →
  discontinuous jb t3 n3 → discontinuous jb t4 n4 →
  ∃ j1 j2 j3 c4 j4,
    jb_put alloc_ok jb d1 type ms t1 n1 = (JB_DROP, j1) ∧
    jb_put alloc_ok j1 d2 type ms t2 n2 = (JB_DROP, j2) ∧
    jb_put alloc_ok j2 d3 type ms t3 n3 = (JB_DROP, j3) ∧
    jb_put alloc_ok j3 d4 type ms t4 n4 = (c4, j4) ∧
    (c4 = JB_OK ∨ c4 = JB_SCHED) ∧ resync_offset j4 = t4 - n4.
Proof.
  intros Hspan Hthr H0 Htype D1 D2 D3 D4.
  set (r1 := jb_put alloc_ok jb d1 type ms t1 n1).
  set (r2 := jb_put alloc_ok r1.2 d2 type ms t2 n2).
  set (r3 := jb_put alloc_ok r2.2 d3 type ms t3 n3).
  destruct (jb_put_discont_drop alloc_ok jb d1 type ms t1 n1)
    as (E1 & C1 & O1 & L1 & J1 & F1 & Q1); auto; [lia|]. fold r1 in E1, C1, O1, L1, J1, F1, Q1.
  destruct (jb_put_discont_drop alloc_ok r1.2 d2 type ms t2 n2)
    as (E2 & C2 & O2 & L2 & J2 & F2 & Q2); auto;
    [by unfold queue_span in *; rewrite Q1, F1 | by rewrite F1
    | by unfold discontinuous in *; rewrite O1, L1, J1, F1 | lia |].
  fold r2 in E2, C2, O2, L2, J2, F2, Q2.
  destruct (jb_put_discont_drop alloc_ok r2.2 d3 type ms t3 n3)
    as (E3 & C3 & O3 & L3 & J3 & F3 & Q3); auto;
    [by unfold queue_span in *; rewrite Q2, Q1, F2, F1 | by rewrite F2, F1
    | by unfold discontinuous in *; rewrite O2, L2, J2, F2, O1, L1, J1, F1 | lia |].
  fold r3 in E3, C3, O3, L3, J3, F3, Q3.
  exists r1.2, r2.2, r3.2, (jb_put alloc_ok r3.2 d4 type ms t4 n4).1,
    (jb_put alloc_ok r3.2 d4 type ms t4 n4).2.
  split; [rewrite <- E1; apply surjective_pairing|].
  split; [rewrite <- E2; apply surjective_pairing|].
  split; [rewrite <- E3; apply surjective_pairing|].
  split; [apply surjective_pairing|].
  apply (jb_put_accepted alloc_ok r3.2 d4 type ms t4 n4 0 (resynced_jb r3.2 t4 n4)).
  rewrite check_resync_discont;
     [rewrite (proj2 (Z.gtb_lt _ _)) by lia; done
     |by unfold queue_span in *; rewrite Q3, Q2, Q1, F3, F2, F1
     |by rewrite F3, F2, F1
     |by unfold discontinuous in *; rewrite O3, L3, J3, F3, O2, L2, J2, F2, O1, L1, J1, F1
     |done].
Qed.

(** A queue that already spans [max_jitterbuf] or more accepts nothing:
    the frame is dropped and counted as dropped.  With [max_jitterbuf] 0 that
    is every frame, although [jb_get] takes 0 to mean that no maximum is set. *)
Theorem jb_put_overfull alloc_ok jb (data : D) type ms ts now :
  max_jitterbuf (conf jb) <= queue_span jb →
  ∃ jb', jb_put alloc_ok jb data type ms ts now = (JB_DROP, jb') ∧
    frames jb' = frames jb ∧ frames_dropped jb' = frames_dropped jb + 1.
Proof.
  intros Hspan. unfold jb_put, check_resync. fold (queue_span jb).
  rewrite Z.geb_leb, (proj2 (Z.leb_le _ _)) by done.
  destruct (dropem jb); by eexists.
Qed.

End Claims.

(** *** Witnesses: a configured buffer, then two voice frames in reverse order *)

Definition w0 : jitterbuf nat := jb_reset zero_jb.
Definition w1 : jitterbuf nat := (jb_setconf w0 (JbConf 1000 1000 5 (-1))).2.
Definition w2 : jitterbuf nat := (jb_put true w1 1%nat JB_TYPE_VOICE 20 40 60).2.
Definition w3 : jitterbuf nat := (jb_put true w2 2%nat JB_TYPE_VOICE 20 20 65).2.

(** A third frame finds no memory, then the first frame is taken out. *)
Definition w4 : jitterbuf nat := (jb_put false w3 3%nat JB_TYPE_VOICE 20 60 85).2.
Definition w5 : jitterbuf nat := (jb_getall w4).2.

Lemma w3_reachable : rtc jb_step (JbRun w0 0 0) (JbRun w3 0 0).
Proof.
  eapply rtc_l; [apply (jb_step_conf (JbRun w0 0 0) (JbConf 1000 1000 5 (-1)) JB_OK w1); reflexivity|].
  eapply rtc_l.
  { apply (jb_step_put (JbRun w1 0 0) true 1%nat JB_TYPE_VOICE 20 40 60 JB_SCHED w2).
    vm_compute. reflexivity. }
  eapply rtc_l; [|apply rtc_refl].
  apply (jb_step_put (JbRun w2 0 0) true 2%nat JB_TYPE_VOICE 20 20 65 JB_SCHED w3).
  vm_compute. reflexivity.
Qed.

Lemma w5_reachable : rtc jb_step (JbRun w0 0 0) (JbRun w5 1 1).
Proof.
  etrans; [apply w3_reachable|]. eapply rtc_l.
  { apply (jb_step_put (JbRun w3 0 0) false 3%nat JB_TYPE_VOICE 20 60 85 JB_OK w4).
    vm_compute. reflexivity. }
  eapply rtc_l; [|apply rtc_refl].
  apply (jb_step_getall (JbRun w4 1 0) JB_OK (Some (JbFrame 2%nat 20 20 JB_TYPE_VOICE)) w5).
  vm_compute. reflexivity.
Qed.

Lemma reached_ok (jb : jitterbuf nat) n m : rtc jb_step (JbRun w0 0 0) (JbRun jb n m) → jb_ok jb.
Proof.
  assert (∀ t t' : jb_run (D := nat), rtc jb_step t t' → run_ok t → run_ok t') as Hrun
    by (induction 1; eauto using jb_step_ok).
  intros Hr. apply (ro_ok _ (Hrun _ _ Hr (jb_new_run_ok w0 eq_refl))).
Qed.

Lemma w3_ok : jb_ok w3.
Proof. exact (reached_ok w3 0 0 w3_reachable). Qed.

Lemma jb_put_correct_witness :
  ∃ code jb', jb_put true w3 3%nat JB_TYPE_VOICE 20 10 66 = (code, jb') ∧ jb_ok jb' ∧
    code = JB_SCHED.
Proof.
  destruct (jb_put_correct true w3 3%nat JB_TYPE_VOICE 20 10 66 w3_ok)
    as (code & jb' & Hput & Hok & _).
  exists code, jb'. split; [exact Hput|]. split; [exact Hok|].
  vm_compute in Hput. injection Hput as <- _. reflexivity.
Defined.

Lemma jb_get_correct_witness :
  ∃ code fr jb', jb_get w3 (JbFrame 0%nat 0 0 JB_TYPE_VOICE) 90 20 = (code, fr, jb') ∧
    jb_ok jb' ∧ code = JB_OK ∧ fdata fr = 2%nat.
Proof.
  destruct (jb_get_correct w3 (JbFrame 0%nat 0 0 JB_TYPE_VOICE) 90 20 w3_ok)
    as (code & fr & jb' & Hget & Hok & _).
  exists code, fr, jb'. split; [exact Hget|]. split; [exact Hok|].
  vm_compute in Hget. injection Hget as <- <- <-. split; reflexivity.
Defined.

Lemma history_put_correct_witness :
  cache_ok (history_put w3 60 70) ∧
  hist_window (history (history_put w3 60 70)) (hist_ptr (history_put w3 60 70)) = [20; 45; 70].
Proof.
  destruct (history_put_correct w3 60 70 (ok_cache _ w3_ok)) as [H1 H2].
  split; [exact H1|]. rewrite H2 by lia. vm_compute. reflexivity.
Defined.

Lemma history_get_correct_witness :
  min (history_get w3) = 20 ∧ jitter (history_get w3) = 25.
Proof.
  assert (hist_window (history w3) (hist_ptr w3) = [20; 45]) as Hw by (vm_compute; reflexivity).
  destruct (history_get_correct w3 (ok_cache _ w3_ok)) as [H1 H2].
  - vm_compute. reflexivity.
  - rewrite Hw. unfold JB_LONGMIN, JB_LONGMAX. repeat constructor; lia.
  - rewrite H1, H2, Hw. split; reflexivity.
Defined.

Lemma jb_run_correct_witness :
  frames_in w5 = frames_out w5 + Z.of_nat (length (frames w5)) + 1 + 1 ∧
  frames_cur w5 = Z.of_nat (length (frames w5)) ∧
  StronglySorted by_ts (frames w5) ∧ 0 <= losspct w5 <= 100000.
Proof. exact (jb_run_correct w0 w5 1 1 eq_refl w5_reachable). Defined.

Lemma jb_get_target_clamped_witness :
  ∃ code fr jb', jb_get w3 (JbFrame 0%nat 0 0 JB_TYPE_VOICE) 90 20 = (code, fr, jb') ∧
    target jb' - min jb' <= max_jitterbuf (conf w3).
Proof. apply (jb_get_target_clamped w3). vm_compute. discriminate. Defined.

Lemma jb_resync_on_fourth_witness :
  ∃ j1 j2 j3 c4 j4,
    jb_put true w1 1%nat JB_TYPE_VOICE 20 20 5000 = (JB_DROP, j1) ∧
    jb_put true j1 2%nat JB_TYPE_VOICE 20 40 5020 = (JB_DROP, j2) ∧
    jb_put true j2 3%nat JB_TYPE_VOICE 20 60 5040 = (JB_DROP, j3) ∧
    jb_put true j3 4%nat JB_TYPE_VOICE 20 80 5060 = (c4, j4) ∧
    (c4 = JB_OK ∨ c4 = JB_SCHED) ∧ resync_offset j4 = 80 - 5060.
Proof.
  apply (jb_resync_on_fourth w1 true 1%nat 2%nat 3%nat 4%nat JB_TYPE_VOICE 20
           20 5000 40 5020 60 5040 80 5060);
    vm_compute; reflexivity || discriminate.
Defined.

Lemma jb_put_overfull_witness :
  ∃ jb', jb_put true w0 1%nat JB_TYPE_VOICE 20 20 30 = (JB_DROP, jb') ∧
    frames jb' = frames w0 ∧ frames_dropped jb' = frames_dropped w0 + 1.
Proof. apply (jb_put_overfull true w0). vm_compute. discriminate. Defined.

End Properties.
