(* ===== verification/DataBuffer.v ===== *)
(** * The data buffer: [main/data_buffer.c]

    A bounded buffer of payloads kept in the order of their positions (RTP
    sequence numbers), with a small cache of unused list entries.  The RTP
    engine keeps packets in it for retransmission and reordering.

    - [Model]: every operation.  A list entry that holds no payload has no
      content, so the cache is a number of entries; [nodes] counts the entries
      that are allocated, and [freed] lists the payloads given to [free_fn].
    - [Properties]: the operations against a finite map from position to
      payload, and the entry that [ast_data_buffer_put] loses.

    [None] is the use of a null pointer. *)

From stdpp Require Import base numbers list gmap sorting relations.
From Stdlib Require Import ZArith Lia.
From S2P Require Import Prelude.

Definition CACHED_PAYLOAD_MAX : Z := 5.

Section Model.
Context {P : Type}.

Record ast_data_buffer := DataBuffer {
  payloads : list (Z * P);
  cached_payloads : nat;
  count : Z;
  max_ : Z;
  cache_count : Z;
  freed : list P;
  nodes : Z;
}.

Definition upd_payloads (m : list (Z * P) → list (Z * P)) (b : ast_data_buffer) : ast_data_buffer :=
  DataBuffer (m (payloads b)) (cached_payloads b) (count b) (max_ b) (cache_count b)
    (freed b) (nodes b).

Definition upd_cached_payloads (m : nat → nat) (b : ast_data_buffer) : ast_data_buffer :=
  DataBuffer (payloads b) (m (cached_payloads b)) (count b) (max_ b) (cache_count b)
    (freed b) (nodes b).

Definition upd_count (m : Z → Z) (b : ast_data_buffer) : ast_data_buffer :=
  DataBuffer (payloads b) (cached_payloads b) (m (count b)) (max_ b) (cache_count b)
    (freed b) (nodes b).

Definition upd_max_ (m : Z → Z) (b : ast_data_buffer) : ast_data_buffer :=
  DataBuffer (payloads b) (cached_payloads b) (count b) (m (max_ b)) (cache_count b)
    (freed b) (nodes b).

Definition upd_cache_count (m : Z → Z) (b : ast_data_buffer) : ast_data_buffer :=
  DataBuffer (payloads b) (cached_payloads b) (count b) (max_ b) (m (cache_count b))
    (freed b) (nodes b).

Definition upd_freed (m : list P → list P) (b : ast_data_buffer) : ast_data_buffer :=
  DataBuffer (payloads b) (cached_payloads b) (count b) (max_ b) (cache_count b) (m
    (freed b)) (nodes b).

Definition upd_nodes (m : Z → Z) (b : ast_data_buffer) : ast_data_buffer :=
  DataBuffer (payloads b) (cached_payloads b) (count b) (max_ b) (cache_count b) (freed
    b) (m (nodes b)).
Implicit Types (b : ast_data_buffer) (pos : Z) (p : P).

(** Add entries to the cache; [allocs] allocations succeed. *)
Fixpoint cache_fill (allocs : nat) (space : Z) b : ast_data_buffer :=
  if (cache_count b <? CACHED_PAYLOAD_MAX) && (cache_count b <? space) then
    match allocs with
    | O => b
    | S allocs =>
      let b := upd_nodes (λ n, n + 1) (upd_cached_payloads S b) in
      cache_fill allocs space (upd_cache_count (λ n, n + 1) b)
    end
  else b.

(** Remove entries from the cache; [n] is the length of its list. *)
Fixpoint cache_drop (n : nat) (space : Z) b : ast_data_buffer :=
  if cache_count b >? space then
    match n with
    | O => b
    | S n =>
      let b := upd_nodes (λ n, n - 1) (upd_cached_payloads (λ _, n) b) in
      cache_drop n space (upd_cache_count (λ n, n - 1) b)
    end
  else b.

(** [buffer_space] is an [int] compared as a [size_t]. *)
Definition ast_data_buffer_cache_adjust (allocs : nat) b : ast_data_buffer :=
  let buffer_space := uwrap 64 (s32 (max_ b - count b)) in
  if cache_count b =? buffer_space then b
  else if cache_count b <? buffer_space then cache_fill allocs buffer_space b
  else cache_drop (cached_payloads b) buffer_space b.

Definition ast_data_buffer_alloc (alloc_ok : bool) (allocs : nat) (size : Z) :
    option ast_data_buffer :=
  if alloc_ok then Some (ast_data_buffer_cache_adjust allocs (DataBuffer [] 0 0 size 0 [] 0))
  else None.

(** The traversal of [ast_data_buffer_resize]. *)
Fixpoint remove_heads (l : list (Z * P)) (remove : Z) b : ast_data_buffer :=
  match l with
  | [] => b
  | (_, p) :: l =>
    if negb (remove =? 0) then
      let b := upd_payloads (λ _, l) b in
      let b := upd_freed (λ fs, fs ++ [p]) (upd_nodes (λ n, n - 1) b) in
      remove_heads l (remove - 1) (upd_count (λ n, n - 1) b)
    else b
  end.

Definition ast_data_buffer_resize (allocs : nat) b (size : Z) : ast_data_buffer :=
  if max_ b =? size then b
  else
    let b := if max_ b >? size then remove_heads (payloads b) (s32 (max_ b - size)) b else b in
    ast_data_buffer_cache_adjust allocs (upd_max_ (λ _, size) b).

(** Insertion before the first greater position; [None] when it is there. *)
Fixpoint insert_at (l : list (Z * P)) pos p : option (list (Z * P)) :=
  match l with
  | [] => Some [(pos, p)]
  | (pos', p') :: l' =>
    if pos' =? pos then None
    else if pos' >? pos then Some ((pos, p) :: l)
    else l' ← insert_at l' pos p; Some ((pos', p') :: l')
  end.

(** Find the place of an entry that was taken from the head or the cache. *)
Definition put_entry b pos p : Z * ast_data_buffer :=
  match insert_at (payloads b) pos p with
  | None => (-1, b)
  | Some l => (0, upd_count (λ n, n + 1) (upd_payloads (λ _, l) b))
  end.

Definition ast_data_buffer_put (allocs : nat) b pos p : option (Z * ast_data_buffer) :=
  if count b =? max_ b then
    match payloads b with
    | [] => None
    | (_, p0) :: l =>
      let b := upd_freed (λ fs, fs ++ [p0]) (upd_payloads (λ _, l) b) in
      Some (put_entry (upd_count (λ n, n - 1) b) pos p)
    end
  else
    let b := if cache_count b =? 0 then ast_data_buffer_cache_adjust allocs b else b in
    match cached_payloads b with
    | O => None
    | S n =>
      let b := upd_cache_count (λ n, n - 1) (upd_cached_payloads (λ _, n) b) in
      Some (put_entry b pos p)
    end.

Fixpoint ast_data_buffer_get_list (l : list (Z * P)) pos : option P :=
  match l with
  | [] => None
  | (pos', p) :: l => if pos' =? pos then Some p else ast_data_buffer_get_list l pos
  end.

Definition ast_data_buffer_get b pos : option P := ast_data_buffer_get_list (payloads b) pos.

Definition data_buffer_free_buffer_payload b : ast_data_buffer :=
  let b := upd_count (λ n, n - 1) b in
  if (cache_count b <? CACHED_PAYLOAD_MAX) && (cache_count b <? uwrap 64 (max_ b - count b))
  then upd_cache_count (λ n, n + 1) (upd_cached_payloads S b)
  else upd_nodes (λ n, n - 1) b.

(** The payload at a position, and the list without its entry. *)
Fixpoint take_out (l : list (Z * P)) pos : option (P * list (Z * P)) :=
  match l with
  | [] => None
  | (pos', p) :: l =>
    if pos' =? pos then Some (p, l)
    else '(q, l) ← take_out l pos; Some (q, (pos', p) :: l)
  end.

Definition ast_data_buffer_remove b pos : option P * ast_data_buffer :=
  match take_out (payloads b) pos with
  | Some (p, l) => (Some p, data_buffer_free_buffer_payload (upd_payloads (λ _, l) b))
  | None => (None, b)
  end.

Definition ast_data_buffer_remove_head b : option (option P * ast_data_buffer) :=
  if count b >? 0 then
    match payloads b with
    | [] => None
    | (_, p) :: l =>
      Some (Some p, data_buffer_free_buffer_payload (upd_payloads (λ _, l) b))
    end
  else Some (None, b).

(** What is left of the allocated entries, and the payloads freed. *)
Definition ast_data_buffer_free b : Z * list P :=
  (nodes b - Z.of_nat (length (payloads b)) - Z.of_nat (cached_payloads b),
   freed b ++ (payloads b).*2).

Definition ast_data_buffer_count b : Z := count b.
Definition ast_data_buffer_max b : Z := max_ b.

End Model.

Arguments ast_data_buffer P : clear implicits.

(** ** Invariant and view *)

Section Inv.
Context {P : Type}.
Implicit Types (b : ast_data_buffer P) (pos : Z) (p : P) (l : list (Z * P)).

Definition by_pos (x y : Z * P) : Prop := x.1 < y.1.

(** [lost]: the entries that no list holds any more. *)
Record db_inv (lost : Z) b : Prop := {
  db_sorted : StronglySorted by_pos (payloads b);
  db_count : count b = Z.of_nat (length (payloads b));
  db_max : count b <= max_ b;
  db_max_range : 1 <= max_ b < 2 ^ 31;
  db_cache : cache_count b = Z.of_nat (cached_payloads b);
  db_cache_max : cache_count b <= CACHED_PAYLOAD_MAX ∧ cache_count b <= max_ b - count b;
  db_nodes : nodes b = count b + cache_count b + lost;
}.

(** The payloads by position. *)
Definition view b : gmap Z P := list_to_map (payloads b).

Lemma sorted_nodup l : StronglySorted by_pos l → NoDup l.*1.
Proof.
  induction 1 as [|[k p] l _ IH Hk]; csimpl; constructor; [|done].
  intros ([k' p'] & -> & Hin)%list_elem_of_fmap. rewrite Forall_forall in Hk.
  specialize (Hk _ Hin). unfold by_pos in Hk. simpl in Hk. lia.
Qed.

Lemma get_list_map l pos : ast_data_buffer_get_list l pos = (list_to_map l : gmap Z P) !! pos.
Proof.
  induction l as [|[k p] l IH]; simpl; [done|]. destruct (Z.eqb_spec k pos) as [->|].
  - by rewrite lookup_insert_eq.
  - by rewrite lookup_insert_ne.
Qed.

Lemma insert_at_spec l pos p : StronglySorted by_pos l →
  match insert_at l pos p with
  | None => is_Some ((list_to_map l : gmap Z P) !! pos)
  | Some l' => (list_to_map l : gmap Z P) !! pos = None ∧ StronglySorted by_pos l' ∧
      l' ≡ₚ (pos, p) :: l ∧ length l' = S (length l)
  end.
Proof.
  induction 1 as [|[k q] l Hs IH Hk]; simpl.
  { split_and!; auto. repeat constructor. }
  destruct (Z.eqb_spec k pos) as [->|Hne]; [rewrite lookup_insert_eq; by eexists|].
  destruct (Z.gtb_spec k pos).
  - rewrite lookup_insert_ne by done. split_and!; auto.
    + apply not_elem_of_list_to_map_1. intros ([k' q'] & -> & Hin)%list_elem_of_fmap.
      rewrite Forall_forall in Hk. specialize (Hk _ Hin). unfold by_pos in Hk. simpl in *. lia.
    + constructor; [by constructor|]. constructor; [unfold by_pos; simpl; lia|].
      eapply Forall_impl; [exact Hk|]. unfold by_pos; simpl. lia.
  - rewrite lookup_insert_ne by done.
    destruct (insert_at l pos p) as [l'|]; simpl; [|done].
    destruct IH as (Hn & Hs' & Hp & Hl). split_and!; auto.
    + constructor; [done|]. rewrite Hp. constructor; [unfold by_pos; simpl; lia|done].
    + rewrite Hp. apply perm_swap.
Qed.

Lemma take_out_spec l pos : StronglySorted by_pos l →
  match take_out l pos with
  | None => (list_to_map l : gmap Z P) !! pos = None
  | Some (p, l') => StronglySorted by_pos l' ∧ l ≡ₚ (pos, p) :: l' ∧
      length l = S (length l') ∧ l' ⊆ l
  end.
Proof.
  induction 1 as [|[k q] l Hs IH Hk]; simpl; [done|].
  destruct (Z.eqb_spec k pos) as [->|Hne]; [split_and!; auto; set_solver|].
  rewrite lookup_insert_ne by done. destruct (take_out l pos) as [[p l']|]; simpl; [|done].
  destruct IH as (Hs' & Hp & Hl & Hsub). split_and!; auto.
  - constructor; [done|]. apply Forall_forall. intros x Hx. rewrite Forall_forall in Hk.
    apply Hk. set_solver.
  - rewrite Hp. apply perm_swap.
  - set_solver.
Qed.

(** *** The cache *)

Lemma cache_fill_spec space allocs b :
  0 <= cache_count b → cache_count b <= CACHED_PAYLOAD_MAX → cache_count b <= space →
  ∃ k, cache_fill allocs space b =
    upd_nodes (λ n, n + Z.of_nat k) (upd_cache_count (λ n, n + Z.of_nat k)
      (upd_cached_payloads (λ n, n + k)%nat b)) ∧
    cache_count b + Z.of_nat k <= CACHED_PAYLOAD_MAX ∧ cache_count b + Z.of_nat k <= space ∧
    (k <= allocs)%nat ∧
    (k = 0%nat → allocs = 0%nat ∨ cache_count b = CACHED_PAYLOAD_MAX ∨ cache_count b = space).
Proof.
  revert b. induction allocs as [|allocs IH]; intros b H0 H5 Hs; simpl.
  - exists 0%nat. split_and!; try lia. destruct b; unfold upd_nodes, upd_cache_count,
      upd_cached_payloads; simpl. rewrite !Z.add_0_r, Nat.add_0_r. by case_match.
  - destruct (_ && _) eqn:E.
    + apply andb_true_iff in E as [E1%Z.ltb_lt E2%Z.ltb_lt].
      edestruct IH as (k & -> & Hk1 & Hk2 & Hk3 & _); simpl; [lia..|]. simpl in *.
      exists (S k). split_and!; try lia.
      destruct b; unfold upd_nodes, upd_cache_count, upd_cached_payloads; simpl. f_equal; lia.
    + exists 0%nat. apply andb_false_iff in E. rewrite !Z.ltb_ge in E. split_and!; try lia.
      destruct b; unfold upd_nodes, upd_cache_count, upd_cached_payloads; simpl.
      f_equal; lia.
Qed.

Lemma cache_drop_spec space n b :
  cached_payloads b = n → cache_count b = Z.of_nat n → 0 <= space < Z.of_nat n →
  cache_drop n space b =
    upd_nodes (λ m, m - (Z.of_nat n - space)) (upd_cache_count (λ _, space)
      (upd_cached_payloads (λ _, Z.to_nat space) b)).
Proof.
  revert b. induction n as [|n IH]; intros b Hn Hc Hs; [lia|]. simpl.
  destruct (Z.gtb_spec (cache_count b) space); [|lia].
  destruct (decide (space = Z.of_nat n)) as [->|].
  - destruct n; simpl; destruct (Z.gtb_spec (cache_count b - 1) (Z.of_nat 0));
      try (destruct (Z.gtb_spec (cache_count b - 1) (Z.of_nat (S n))); [lia|]); try lia;
      destruct b; unfold upd_nodes, upd_cache_count, upd_cached_payloads in *; simpl in *; f_equal; lia.
  - rewrite IH; simpl; [|done|lia|lia].
    destruct b; unfold upd_nodes, upd_cache_count, upd_cached_payloads; simpl. f_equal; lia.
Qed.

(** Everything but the cache is kept. *)
Record same_data b b' : Prop := {
  sd_payloads : payloads b' = payloads b;
  sd_count : count b' = count b;
  sd_max : max_ b' = max_ b;
  sd_freed : freed b' = freed b;
}.

(** The adjustment restores the invariant of the cache. *)
Lemma cache_adjust_spec allocs lost b :
  StronglySorted by_pos (payloads b) → count b = Z.of_nat (length (payloads b)) →
  count b <= max_ b → 1 <= max_ b < 2 ^ 31 → cache_count b = Z.of_nat (cached_payloads b) →
  cache_count b <= CACHED_PAYLOAD_MAX → nodes b = count b + cache_count b + lost →
  db_inv lost (ast_data_buffer_cache_adjust allocs b) ∧
  same_data b (ast_data_buffer_cache_adjust allocs b) ∧
  (cache_count b = 0 → count b < max_ b → (0 < allocs)%nat →
     (0 < cached_payloads (ast_data_buffer_cache_adjust allocs b))%nat).
Proof.
  intros Hs Hc Hm Hr Hcc H5 Hn. unfold ast_data_buffer_cache_adjust.
  rewrite swrap_small, uwrap_small by lia.
  destruct (Z.eqb_spec (cache_count b) (max_ b - count b)).
  { split_and!; [constructor; auto; lia|by constructor|]. lia. }
  destruct (Z.ltb_spec (cache_count b) (max_ b - count b)).
  - destruct (cache_fill_spec (max_ b - count b) allocs b) as (k & -> & ? & ? & ? & Hk); try lia.
    split_and!; [constructor; simpl; auto; lia|by constructor|]. simpl. intros. unfold CACHED_PAYLOAD_MAX in *. lia.
  - rewrite cache_drop_spec by lia.
    split_and!; [constructor; simpl; auto; unfold CACHED_PAYLOAD_MAX in *; lia|by constructor|]. lia.
Qed.

Lemma db_inv_adjust allocs lost b : db_inv lost b →
  db_inv lost (ast_data_buffer_cache_adjust allocs b) ∧
  same_data b (ast_data_buffer_cache_adjust allocs b) ∧
  (cache_count b = 0 → count b < max_ b → (0 < allocs)%nat →
     (0 < cached_payloads (ast_data_buffer_cache_adjust allocs b))%nat).
Proof. intros [? ? ? ? ? [? ?] ?]. by apply cache_adjust_spec. Qed.

(** *** Operations *)

(** The smallest position, which is evicted from a full buffer. *)
Definition first_pos b : option Z := fst <$> head (payloads b).

(** What [ast_data_buffer_put] inserts into: a full buffer loses its head. *)
Definition put_base b : gmap Z P :=
  if count b =? max_ b then
    match first_pos b with Some k => delete k (view b) | None => view b end
  else view b.

Lemma put_entry_spec lost b pos p :
  StronglySorted by_pos (payloads b) → count b = Z.of_nat (length (payloads b)) →
  count b < max_ b → 1 <= max_ b < 2 ^ 31 → cache_count b = Z.of_nat (cached_payloads b) →
  cache_count b <= CACHED_PAYLOAD_MAX → cache_count b < max_ b - count b →
  nodes b = count b + cache_count b + lost + 1 →
  ∃ rc b', put_entry b pos p = (rc, b') ∧ freed b' = freed b ∧ max_ b' = max_ b ∧
    match view b !! pos with
    | None => rc = 0 ∧ db_inv lost b' ∧ view b' = <[pos := p]> (view b)
    | Some _ => rc = -1 ∧ db_inv (lost + 1) b' ∧ view b' = view b
    end.
Proof.
  intros Hs Hc Hm Hr Hcc H5 Hsp Hn. unfold put_entry, view.
  pose proof (insert_at_spec (payloads b) pos p Hs) as Hins.
  destruct (insert_at (payloads b) pos p) as [l|].
  - destruct Hins as (-> & Hs' & Hp & Hl). eexists _, _. split; [done|]. split_and!; auto.
    + constructor; simpl; auto; lia.
    + simpl. rewrite (list_to_map_proper l _ (sorted_nodup _ Hs') Hp). done.
  - destruct Hins as [x ->]. eexists _, _. split; [done|]. split_and!; auto.
    constructor; simpl; auto; lia.
Qed.

Lemma ast_data_buffer_put_spec allocs lost b pos p :
  db_inv lost b → (0 < allocs)%nat →
  ∃ rc b', ast_data_buffer_put allocs b pos p = Some (rc, b') ∧
    freed b' = freed b ++ (if count b =? max_ b then option_list (snd <$> head (payloads b)) else []) ∧
    match put_base b !! pos with
    | None => rc = 0 ∧ db_inv lost b' ∧ view b' = <[pos := p]> (put_base b)
    | Some _ => rc = -1 ∧ db_inv (lost + 1) b' ∧ view b' = put_base b
    end.
Proof.
  intros Hb Ha. unfold ast_data_buffer_put, put_base, first_pos.
  destruct (Z.eqb_spec (count b) (max_ b)) as [Hfull|Hnf].
  - destruct Hb as [Hs Hc Hm Hr Hcc [H5 Hsp] Hn]. unfold view.
    destruct (payloads b) as [|[k q] l] eqn:El; [simpl in Hc; lia|].
    apply StronglySorted_inv in Hs as [Hs Hk]. cbn [head fmap option_fmap option_map fst snd].
    set (b1 := upd_count _ _).
    destruct (put_entry_spec lost b1 pos p) as (rc & b' & -> & Hf & Hmx & Hcase);
      simpl; try done; try (simpl length in *; lia).
    assert (view b1 = delete k (list_to_map ((k, q) :: l))) as Hv.
    { unfold view; simpl. rewrite delete_insert_id; [done|]. apply not_elem_of_list_to_map_1.
      intros ([k' q'] & -> & Hin)%list_elem_of_fmap. rewrite Forall_forall in Hk.
      specialize (Hk _ Hin). unfold by_pos in Hk. simpl in Hk. lia. }
    rewrite Hv in Hcase. eexists _, _. split; [done|]. split; [by rewrite Hf|done].
  - set (b1 := if cache_count b =? 0 then _ else b).
    assert (db_inv lost b1 ∧ same_data b b1 ∧ (0 < cached_payloads b1)%nat) as (Hb1 & [E1 E2 E3 E4] & Hc1).
    { destruct (db_inv_adjust allocs lost b Hb) as (? & ? & Hpos).
      pose proof (db_max _ _ Hb). pose proof (db_cache _ _ Hb).
      unfold b1. destruct (Z.eqb_spec (cache_count b) 0).
      - split_and!; auto. apply Hpos; lia.
      - split_and!; [done|by constructor|lia]. }
    clearbody b1. destruct (cached_payloads b1) as [|n] eqn:En; [lia|].
    destruct Hb1 as [Hs Hc Hm Hr Hcc [H5 Hsp] Hn].
    set (b2 := upd_cache_count _ _).
    destruct (put_entry_spec lost b2 pos p) as (rc & b' & -> & Hf & Hmx & Hcase);
      simpl; try done; try lia.
    assert (view b2 = view b) as Hv by (unfold view; simpl; by rewrite E1).
    rewrite Hv in Hcase. eexists _, _. split; [done|].
    split; [rewrite Hf; simpl; by rewrite E4, app_nil_r|done].
Qed.

Lemma free_entry_spec lost b :
  StronglySorted by_pos (payloads b) → count b = Z.of_nat (S (length (payloads b))) →
  count b <= max_ b → 1 <= max_ b < 2 ^ 31 → cache_count b = Z.of_nat (cached_payloads b) →
  cache_count b <= CACHED_PAYLOAD_MAX → cache_count b <= max_ b - count b →
  nodes b = count b + cache_count b + lost →
  db_inv lost (data_buffer_free_buffer_payload b) ∧
  payloads (data_buffer_free_buffer_payload b) = payloads b ∧
  freed (data_buffer_free_buffer_payload b) = freed b.
Proof.
  intros Hs Hc Hm Hr Hcc H5 Hsp Hn. unfold data_buffer_free_buffer_payload. simpl.
  rewrite uwrap_small by lia. destruct (_ && _) eqn:E; simpl; split_and!; auto;
    [apply andb_true_iff in E as [E1%Z.ltb_lt E2%Z.ltb_lt]|
     apply andb_false_iff in E; rewrite !Z.ltb_ge in E];
    constructor; simpl; auto; lia.
Qed.

Lemma ast_data_buffer_remove_spec lost b pos :
  db_inv lost b →
  ∃ r b', ast_data_buffer_remove b pos = (r, b') ∧ r = view b !! pos ∧ db_inv lost b' ∧
    view b' = delete pos (view b) ∧ freed b' = freed b.
Proof.
  intros Hb. unfold ast_data_buffer_remove.
  pose proof (take_out_spec (payloads b) pos (db_sorted _ _ Hb)) as Ht.
  destruct (take_out (payloads b) pos) as [[p l]|].
  - destruct Ht as (Hs & Hp & Hl & _).
    pose proof (sorted_nodup _ (db_sorted _ _ Hb)) as Hnd.
    destruct Hb as [? Hc Hm Hr Hcc [H5 Hsp] Hn].
    destruct (free_entry_spec lost (upd_payloads (λ _, l) b)) as (Hinv & Hpl & Hfr);
      simpl; try done; try lia.
    eexists _, _. split; [done|].
    assert (view b = <[pos := p]> (list_to_map l)) as ->
      by (unfold view; by rewrite (list_to_map_proper _ _ Hnd Hp)).
    split_and!; auto; [by rewrite lookup_insert_eq|].
    unfold view. rewrite Hpl; simpl. symmetry. apply delete_insert_id.
    rewrite Hp in Hnd. apply NoDup_cons in Hnd as [Hni _]. by apply not_elem_of_list_to_map_1.
  - eexists _, _. split; [done|]. split_and!; auto. symmetry. by apply delete_id.
Qed.

Lemma ast_data_buffer_remove_head_spec lost b :
  db_inv lost b →
  ∃ r b', ast_data_buffer_remove_head b = Some (r, b') ∧ db_inv lost b' ∧ freed b' = freed b ∧
    match r with
    | None => view b = ∅ ∧ b' = b
    | Some p => ∃ k, view b !! k = Some p ∧ view b' = delete k (view b) ∧
        ∀ j, is_Some (view b !! j) → k <= j
    end.
Proof.
  intros Hb. unfold ast_data_buffer_remove_head, view.
  pose proof (db_count _ _ Hb) as Hc0. destruct (Z.gtb_spec (count b) 0).
  - destruct Hb as [Hs Hc Hm Hr Hcc [H5 Hsp] Hn].
    destruct (payloads b) as [|[k p] l] eqn:El; [simpl in *; lia|].
    apply StronglySorted_inv in Hs as [Hs Hk].
    destruct (free_entry_spec lost (upd_payloads (λ _, l) b)) as (Hinv & Hpl & Hfr);
      simpl; try done; try lia.
    eexists _, _. split; [done|]. split_and!; auto. exists k. simpl. split_and!.
    + apply lookup_insert_eq.
    + rewrite Hpl; simpl. symmetry. apply delete_insert_id. apply not_elem_of_list_to_map_1.
      intros ([k' q'] & -> & Hin)%list_elem_of_fmap. rewrite Forall_forall in Hk.
      specialize (Hk _ Hin). unfold by_pos in Hk. simpl in Hk. lia.
    + intros j [x [[-> _]|[_ Hj%elem_of_list_to_map_2]]%lookup_insert_Some]; [lia|].
      rewrite Forall_forall in Hk. specialize (Hk _ Hj). unfold by_pos in Hk. simpl in Hk. lia.
  - eexists _, _. split; [done|]. split_and!; auto.
    destruct (payloads b); [done|simpl in *; lia].
Qed.

(** Shrinking drops [max - size] payloads from the head. *)
Lemma remove_heads_spec lost (k : nat) b :
  (StronglySorted by_pos (payloads b) ∧ count b = Z.of_nat (length (payloads b)) ∧
   nodes b = count b + cache_count b + lost) →
  ∃ b', remove_heads (payloads b) (Z.of_nat k) b = b' ∧
    payloads b' = drop k (payloads b) ∧ freed b' = freed b ++ (take k (payloads b)).*2 ∧
    count b' = Z.of_nat (length (payloads b')) ∧ max_ b' = max_ b ∧
    cache_count b' = cache_count b ∧ cached_payloads b' = cached_payloads b ∧
    nodes b' = count b' + cache_count b' + lost ∧ StronglySorted by_pos (payloads b').
Proof.
  assert (∀ l k b, l = payloads b →
    (StronglySorted by_pos l ∧ count b = Z.of_nat (length l) ∧
     nodes b = count b + cache_count b + lost) →
    ∃ b', remove_heads l (Z.of_nat k) b = b' ∧
      payloads b' = drop k l ∧ freed b' = freed b ++ (take k l).*2 ∧
      count b' = Z.of_nat (length (payloads b')) ∧ max_ b' = max_ b ∧
      cache_count b' = cache_count b ∧ cached_payloads b' = cached_payloads b ∧
      nodes b' = count b' + cache_count b' + lost ∧ StronglySorted by_pos (payloads b')) as Hgen;
    [|intros ?; by apply Hgen].
  clear k b. induction l as [|[pos p] l IH]; intros k b Hl (Hs & Hc & Hn); cbn [remove_heads].
  - eexists. split; [done|]. rewrite <- Hl, drop_nil, take_nil. simpl.
    split_and!; auto. by rewrite app_nil_r.
  - destruct k as [|k]; simpl.
    + eexists. split; [done|]. rewrite <- Hl. split_and!; auto. by rewrite app_nil_r.
    + replace (Z.of_nat (S k) - 1) with (Z.of_nat k) by lia.
      apply StronglySorted_inv in Hs as [Hs _]. set (b1 := upd_count _ _).
      destruct (IH k b1) as (b' & Heq & ? & Hf & ? & ? & ? & ? & ? & ?);
        [done|simpl in *; split_and!; auto; lia|]. exists b'. split; [exact Heq|].
      split_and!; auto. rewrite Hf. simpl. by rewrite <- (assoc_L (++)).
Qed.

Lemma ast_data_buffer_resize_spec allocs lost b size :
  db_inv lost b → 1 <= size < 2 ^ 31 →
  db_inv lost (ast_data_buffer_resize allocs b size) ∧
  max_ (ast_data_buffer_resize allocs b size) = size ∧
  payloads (ast_data_buffer_resize allocs b size) =
    drop (Z.to_nat (max_ b - size)) (payloads b) ∧
  freed (ast_data_buffer_resize allocs b size) =
    freed b ++ (take (Z.to_nat (max_ b - size)) (payloads b)).*2.
Proof.
  intros Hb Hs. unfold ast_data_buffer_resize.
  destruct (Z.eqb_spec (max_ b) size) as [<-|Hne].
  { rewrite Z.sub_diag, drop_0, take_0. simpl. by rewrite app_nil_r. }
  destruct Hb as [Hso Hc Hm Hr Hcc [H5 Hsp] Hn]. destruct (Z.gtb_spec (max_ b) size).
  - rewrite swrap_small by lia.
    destruct (remove_heads_spec lost (Z.to_nat (max_ b - size)) b) as (b1 & Heq & Hp & Hf & Hc1 &
      Hm1 & Hcc1 & Hca1 & Hn1 & Hs1); [done|].
    rewrite Z2Nat.id in Heq by lia. rewrite Heq.
    destruct (cache_adjust_spec allocs lost (upd_max_ (λ _, size) b1)) as (Hinv & [E1 E2 E3 E4] & _);
      simpl; auto; try lia; [rewrite Hc1, Hp, length_drop; lia|].
    split_and!; auto; [by rewrite E1|by rewrite E4].
  - destruct (cache_adjust_spec allocs lost (upd_max_ (λ _, size) b)) as (Hinv & [E1 E2 E3 E4] & _);
      simpl; auto; try lia.
    replace (Z.to_nat (max_ b - size)) with 0%nat by lia. rewrite drop_0, take_0. simpl.
    split_and!; auto. by rewrite E4, app_nil_r.
Qed.

End Inv.

(** ** Runs *)

Section Runs.
Context {P : Type}.

(** A run, with what it did to memory: the refused puts so far, the payloads
    accepted, and those handed back to the client. *)
Record run := Run { buf : ast_data_buffer P; refused : Z; accepted : list P; handed : list P }.

(** The operations of a client; the memory for list entries suffices. *)
Inductive db_step : run → run → Prop :=
  | DbPut t allocs pos p b' : (0 < allocs)%nat →
      ast_data_buffer_put allocs (buf t) pos p = Some (0, b') →
      db_step t (Run b' (refused t) (accepted t ++ [p]) (handed t))
  | DbRefused t allocs pos p rc b' : (0 < allocs)%nat → rc ≠ 0 →
      ast_data_buffer_put allocs (buf t) pos p = Some (rc, b') →
      db_step t (Run b' (refused t + 1) (accepted t) (handed t))
  | DbRemove t pos r b' : ast_data_buffer_remove (buf t) pos = (r, b') →
      db_step t (Run b' (refused t) (accepted t) (handed t ++ option_list r))
  | DbRemoveHead t r b' : ast_data_buffer_remove_head (buf t) = Some (r, b') →
      db_step t (Run b' (refused t) (accepted t) (handed t ++ option_list r))
  | DbResize t allocs size : 1 <= size < 2 ^ 31 →
      db_step t (Run (ast_data_buffer_resize allocs (buf t) size) (refused t) (accepted t) (handed t)).

(** An entry is lost for each refused put, and no payload otherwise. *)
Record run_ok (t : run) : Prop := {
  run_inv : db_inv (refused t) (buf t);
  run_payloads : accepted t ≡ₚ handed t ++ freed (buf t) ++ (payloads (buf t)).*2;
}.

Lemma view_payloads lost (b : ast_data_buffer P) : db_inv lost b →
  (payloads b).*2 ≡ₚ (map_to_list (view b)).*2.
Proof.
  intros Hb. unfold view. by rewrite map_to_list_to_map by (apply sorted_nodup, (db_sorted _ _ Hb)).
Qed.

Lemma view_delete (m : gmap Z P) k p : m !! k = Some p →
  (map_to_list m).*2 ≡ₚ p :: (map_to_list (delete k m)).*2.
Proof. intros Hk. by rewrite <- (map_to_list_delete m k p Hk). Qed.

(** What a put evicts. *)
Lemma put_base_payloads lost (b : ast_data_buffer P) : db_inv lost b →
  (payloads b).*2 ≡ₚ (if count b =? max_ b then option_list (snd <$> head (payloads b)) else [])
    ++ (map_to_list (put_base b)).*2.
Proof.
  intros Hb. rewrite (view_payloads lost) by done. unfold put_base, first_pos.
  destruct (count b =? max_ b); [|done]. unfold view.
  destruct (payloads b) as [|[k p] l]; [done|]. cbn [head fmap option_fmap option_map fst snd option_list].
  rewrite (view_delete _ k p); [done|]. simpl. apply lookup_insert_eq.
Qed.

Lemma hand_over (l k m : list P) p : l ++ k ++ p :: m ≡ₚ (l ++ [p]) ++ k ++ m.
Proof. rewrite <- (assoc_L (++)). cbn [app]. by rewrite <- !Permutation_middle. Qed.

Lemma db_step_ok t t' : db_step t t' → run_ok t → run_ok t'.
Proof.
  intros Hs [Hb Hp]. destruct Hs as [t allocs pos p b' Ha Hput|t allocs pos p rc b' Ha Hrc Hput|t pos r b' Hr
    |t r b' Hr|t allocs size Hsz]; cbn [buf refused accepted handed] in *.
  - destruct (ast_data_buffer_put_spec allocs (refused t) (buf t) pos p Hb Ha) as (rc0 & b0 & E & Hf & Hcase).
    simplify_eq. destruct (put_base (buf t) !! pos) eqn:Epos; destruct Hcase as (? & Hb' & Hv); [done|].
    split; [done|]. cbn [buf accepted handed]. rewrite (view_payloads _ _ Hb'), Hv, map_to_list_insert by done.
    rewrite Hp, Hf, (put_base_payloads _ _ Hb). csimpl.
    by rewrite <- Permutation_cons_append, <- !(assoc_L (++)), <- !Permutation_middle.
  - destruct (ast_data_buffer_put_spec allocs (refused t) (buf t) pos p Hb Ha) as (rc0 & b0 & E & Hf & Hcase).
    simplify_eq. destruct (put_base (buf t) !! pos) eqn:Epos; destruct Hcase as (? & Hb' & Hv); [|done].
    split; [done|]. cbn [buf accepted handed]. rewrite (view_payloads _ _ Hb'), Hv.
    by rewrite Hp, Hf, (put_base_payloads _ _ Hb), <- !(assoc_L (++)).
  - destruct (ast_data_buffer_remove_spec (refused t) (buf t) pos Hb) as (r0 & b0 & E & -> & Hb' & Hv & Hf).
    rewrite E in Hr. simplify_eq. split; [done|]. cbn [buf accepted handed].
    rewrite Hp, Hf, (view_payloads _ _ Hb'), (view_payloads _ _ Hb), Hv.
    destruct (view (buf t) !! pos) as [p|] eqn:Epos; cbn [option_list].
    + rewrite (view_delete _ _ _ Epos). apply hand_over.
    + by rewrite delete_id, app_nil_r.
  - destruct (ast_data_buffer_remove_head_spec (refused t) (buf t) Hb) as (r0 & b0 & E & Hb' & Hf & Hcase).
    simplify_eq. split; [done|]. cbn [buf accepted handed].
    rewrite Hp, Hf, (view_payloads _ _ Hb'), (view_payloads _ _ Hb). destruct r as [p|]; cbn [option_list].
    + destruct Hcase as (k & Hk & -> & _). rewrite (view_delete _ _ _ Hk). apply hand_over.
    + destruct Hcase as [_ ->]. by rewrite app_nil_r.
  - destruct (ast_data_buffer_resize_spec allocs (refused t) (buf t) size Hb Hsz) as (? & _ & Epl & Ef).
    split; [done|]. cbn [buf accepted handed]. rewrite Hp, Ef, Epl, <- !(assoc_L (++)), <- fmap_app. by rewrite take_drop.
Qed.

End Runs.

(** ** Properties *)

Module Properties.
Section Claims.
Context {P : Type}.
Implicit Types b : ast_data_buffer P.

(** Putting a payload: a full buffer first frees the payload with the
    smallest position; a new position is then bound to the payload and the
    call returns 0; a position that is present is refused with -1, and the
    list entry taken for it is lost. *)
Theorem ast_data_buffer_put_correct allocs lost b pos p :
  db_inv lost b → (0 < allocs)%nat →
  ∃ rc b', ast_data_buffer_put allocs b pos p = Some (rc, b') ∧
    freed b' = freed b ++ (if count b =? max_ b then option_list (snd <$> head (payloads b)) else []) ∧
    match put_base b !! pos with
    | None => rc = 0 ∧ db_inv lost b' ∧ view b' = <[pos := p]> (put_base b) ∧
        ast_data_buffer_get b' pos = Some p
    | Some _ => rc = -1 ∧ db_inv (lost + 1) b' ∧ view b' = put_base b
    end.
Proof.
  intros Hb Ha. destruct (ast_data_buffer_put_spec allocs lost b pos p Hb Ha)
    as (rc & b' & -> & Hf & Hcase). exists rc, b'. split; [done|]. split; [done|].
  destruct (put_base b !! pos); [done|]. destruct Hcase as (? & ? & Hv). split_and!; auto.
  unfold ast_data_buffer_get. rewrite get_list_map. fold (view b'). by rewrite Hv, lookup_insert_eq.
Qed.

(** C30: in every run of puts, removals and resizings of a new buffer, with
    memory for list entries, the payloads are in the order of their positions
    and no more than the maximum; looking up, removing a position and removing
    the head agree with the finite map of the payloads.  Memory is accounted for
    exactly: when the buffer is destroyed, the list entries left allocated are
    one for each put that was refused, and the payloads accepted are those that
    were handed back or freed, each once. *)
Theorem ast_data_buffer_run_correct (b0 : ast_data_buffer P) (t : run) allocs size pos :
  1 <= size < 2 ^ 31 → ast_data_buffer_alloc true allocs size = Some b0 → rtc db_step (Run b0 0 [] []) t →
  let b := buf t in
  db_inv (refused t) b
  ∧ (ast_data_buffer_free b).1 = refused t
  ∧ accepted t ≡ₚ handed t ++ (ast_data_buffer_free b).2
  ∧ ast_data_buffer_get b pos = view b !! pos
  ∧ (ast_data_buffer_remove b pos).1 = view b !! pos
  ∧ view (ast_data_buffer_remove b pos).2 = delete pos (view b)
  ∧ ∃ r b', ast_data_buffer_remove_head b = Some (r, b')
    ∧ match r with
      | None => view b = ∅
      | Some p => ∃ k, view b !! k = Some p ∧ view b' = delete k (view b)
          ∧ ∀ j, is_Some (view b !! j) → k <= j
      end.
Proof.
  intros Hsz Halloc Hrtc. assert (run_ok t) as [Hb Hp].
  { assert (run_ok (Run b0 0 [] [])) as H0.
    { injection Halloc as <-.
      destruct (cache_adjust_spec allocs 0 (DataBuffer (@nil (Z * P)) 0 0 size 0 [] 0)) as (Hb0 & Hsd & _);
        simpl; try done; try lia; [constructor|]. split; [done|]. cbn. by destruct Hsd as [-> _ _ ->]. }
    induction Hrtc; eauto using db_step_ok. }
  cbn zeta. destruct (ast_data_buffer_remove_spec _ _ pos Hb) as (r & b1 & Hrem & Hr & _ & Hv & _).
  destruct (ast_data_buffer_remove_head_spec _ _ Hb) as (r2 & b2 & Hrh & _ & _ & Hcase).
  rewrite Hrem. split_and!; auto.
  - destruct Hb. simpl. lia.
  - unfold ast_data_buffer_get. apply get_list_map.
  - exists r2, b2. split; [done|]. destruct r2; naive_solver.
Qed.

(** Resizing keeps the invariant; shrinking by [n] frees the first [n]
    payloads, also when those present would fit. *)
Theorem ast_data_buffer_resize_correct allocs lost b size :
  db_inv lost b → 1 <= size < 2 ^ 31 →
  ∃ b', ast_data_buffer_resize allocs b size = b' ∧ db_inv lost b' ∧
    ast_data_buffer_max b' = size ∧
    payloads b' = drop (Z.to_nat (max_ b - size)) (payloads b) ∧
    freed b' = freed b ++ (take (Z.to_nat (max_ b - size)) (payloads b)).*2.
Proof.
  intros Hb Hs. destruct (ast_data_buffer_resize_spec allocs lost b size Hb Hs) as (? & ? & ? & ?).
  eexists. split; [done|]. by split_and!.
Qed.

End Claims.

Definition demo0 : ast_data_buffer nat :=
  default (DataBuffer [] 0 0 2 0 [] 0) (ast_data_buffer_alloc true 10 2).
Definition demo1 : ast_data_buffer nat :=
  default demo0 (snd <$> ast_data_buffer_put 10 demo0 7 1%nat).
Definition demo2 : ast_data_buffer nat :=
  default demo1 (snd <$> ast_data_buffer_put 10 demo1 5 2%nat).

Lemma demo2_inv : db_inv 0 demo2.
Proof.
  assert (demo2 = DataBuffer [(5, 2%nat); (7, 1%nat)] 0 2 2 0 [] 2) as -> by (vm_compute; reflexivity).
  constructor; simpl; try (unfold CACHED_PAYLOAD_MAX; lia).
  repeat constructor.
Qed.

Lemma ast_data_buffer_put_correct_witness :
  ∃ rc b', ast_data_buffer_put 10 demo2 9 3%nat = Some (rc, b').
Proof.
  destruct (ast_data_buffer_put_correct 10 0 demo2 9 3%nat) as (rc & b' & H & _);
    [apply demo2_inv|lia|]. exists rc, b'. exact H.
Defined.

Lemma ast_data_buffer_run_correct_witness :
  (ast_data_buffer_free demo2).1 = 0 ∧ [1%nat; 2%nat] ≡ₚ (ast_data_buffer_free demo2).2.
Proof.
  destruct (ast_data_buffer_run_correct demo0 (Run demo2 0 [1%nat; 2%nat] []) 10 2 5) as (_ & Hl & Ha & _).
  - lia.
  - vm_compute. reflexivity.
  - eapply rtc_l; [apply (DbPut (Run demo0 0 [] []) 10 7 1%nat demo1); [lia|vm_compute; reflexivity]|].
    eapply rtc_l; [apply (DbPut (Run demo1 0 [1%nat] []) 10 5 2%nat demo2); [lia|vm_compute; reflexivity]|].
    apply rtc_refl.
  - split; assumption.
Defined.

Lemma ast_data_buffer_resize_correct_witness :
  ∃ b', ast_data_buffer_resize 10 demo2 1 = b' ∧ ast_data_buffer_max b' = 1.
Proof.
  destruct (ast_data_buffer_resize_correct 10 0 demo2 1) as (b' & H & _ & Hm & _);
    [apply demo2_inv|lia|]. exists b'. split; assumption.
Defined.

End Properties.
