(* ===== verification/Udptl.v ===== *)
(** * T.38 fax over UDPTL: [main/udptl.c]

    The UDPTL layer wraps fax (IFP) packets in datagrams that also carry
    copies of earlier packets (redundancy) or their exclusive or (FEC), and
    on reception fills gaps of the packet sequence from them.

    - [Model]: the ASN.1 length and open-type coding, the reception and the
      construction of a packet, the size calculations and the session calls;
    - [Properties]: reception is memory safe on every datagram, coding round
      trips, a redundant packet lets the receiver recover the packets it missed,
      the parity repair restores the missing packet, and packets within the
      advertised size fit the datagram, with the case where they do not.

    Bytes are [Z].  An access outside a buffer is [None]; the result [-1] of
    the code is a value.  A received buffer is the list of its bytes; an output
    buffer of [cap] bytes is the list written so far. *)

From stdpp Require Import base numbers list gmap sorting.
From Stdlib Require Import ZArith Lia.
From S2P Require Import Prelude.
Local Open Scope cint_scope.

Inductive ast_t38_ec_modes :=
  | UDPTL_ERROR_CORRECTION_NONE | UDPTL_ERROR_CORRECTION_FEC
  | UDPTL_ERROR_CORRECTION_REDUNDANCY.

Definition LOCAL_FAX_MAX_DATAGRAM : Z := 1400.
Definition DEFAULT_FAX_MAX_DATAGRAM : Z := 400.
Definition FAX_MAX_DATAGRAM_LIMIT : Z := 1400.
Definition MAX_FEC_ENTRIES : Z := 5.
Definition MAX_FEC_SPAN : Z := 5.
Definition UDPTL_BUF_MASK : Z := 15.
(** [ARRAY_LEN(s->f)]. *)
Definition NFRAMES : Z := 16.

(** [udptl_fec_tx_buffer_t] *)
Record tx_buffer := TxBuffer { t_buf_len : Z; t_buf : list Z }.

(** [udptl_fec_rx_buffer_t] *)
Record rx_buffer := RxBuffer {
  r_buf_len : Z;
  r_buf : list Z;
  fec_len : list Z;
  fec : list (list Z);
  fec_span : Z;
  fec_entries : Z;
}.

(** The fields of the session the modelled code uses; [them] is the peer's
    address ([None] when null), [tag] says whether the tag is set. *)
Record ast_udptl := Udptl {
  error_correction_scheme : ast_t38_ec_modes;
  error_correction_entries : Z;
  error_correction_span : Z;
  far_max_datagram : Z;
  local_max_datagram : Z;
  far_max_ifp : Z;
  local_max_ifp : Z;
  tx_seq_no : Z;
  rx_seq_no : Z;
  tx : list tx_buffer;
  rx : list rx_buffer;
  them : option Z;
  u_nat : bool;
  tag : bool;
}.

(** A frame of the returned chain: its sequence number and its bytes. *)
Record udptl_frame := UdptlFrame { seqno : Z; fdata : list Z }.

Definition upd_r_buf_len (m : Z → Z) (b : rx_buffer) : rx_buffer :=
  RxBuffer (m (r_buf_len b)) (r_buf b) (fec_len b) (fec b) (fec_span b) (fec_entries b).

Definition upd_r_buf (m : list Z → list Z) (b : rx_buffer) : rx_buffer :=
  RxBuffer (r_buf_len b) (m (r_buf b)) (fec_len b) (fec b) (fec_span b) (fec_entries b).

Definition upd_fec_len (m : list Z → list Z) (b : rx_buffer) : rx_buffer :=
  RxBuffer (r_buf_len b) (r_buf b) (m (fec_len b)) (fec b) (fec_span b) (fec_entries b).

Definition upd_fec (m : list (list Z) → list (list Z)) (b : rx_buffer) : rx_buffer :=
  RxBuffer (r_buf_len b) (r_buf b) (fec_len b) (m (fec b)) (fec_span b) (fec_entries b).

Definition upd_fec_span (m : Z → Z) (b : rx_buffer) : rx_buffer :=
  RxBuffer (r_buf_len b) (r_buf b) (fec_len b) (fec b) (m (fec_span b)) (fec_entries b).

Definition upd_fec_entries (m : Z → Z) (b : rx_buffer) : rx_buffer :=
  RxBuffer (r_buf_len b) (r_buf b) (fec_len b) (fec b) (fec_span b) (m (fec_entries b)).

Definition upd_error_correction_scheme (m : ast_t38_ec_modes → ast_t38_ec_modes) (s : ast_udptl) : ast_udptl :=
  Udptl (m (error_correction_scheme s)) (error_correction_entries s)
    (error_correction_span s) (far_max_datagram s) (local_max_datagram s) (far_max_ifp
    s) (local_max_ifp s) (tx_seq_no s) (rx_seq_no s) (tx s) (rx s) (them s) (u_nat s) (tag
    s).

Definition upd_error_correction_entries (m : Z → Z) (s : ast_udptl) : ast_udptl :=
  Udptl (error_correction_scheme s) (m (error_correction_entries s))
    (error_correction_span s) (far_max_datagram s) (local_max_datagram s) (far_max_ifp
    s) (local_max_ifp s) (tx_seq_no s) (rx_seq_no s) (tx s) (rx s) (them s) (u_nat s) (tag
    s).

Definition upd_error_correction_span (m : Z → Z) (s : ast_udptl) : ast_udptl :=
  Udptl (error_correction_scheme s) (error_correction_entries s) (m
    (error_correction_span s)) (far_max_datagram s) (local_max_datagram s) (far_max_ifp
    s) (local_max_ifp s) (tx_seq_no s) (rx_seq_no s) (tx s) (rx s) (them s) (u_nat s) (tag
    s).

Definition upd_far_max_datagram (m : Z → Z) (s : ast_udptl) : ast_udptl :=
  Udptl (error_correction_scheme s) (error_correction_entries s) (error_correction_span
    s) (m (far_max_datagram s)) (local_max_datagram s) (far_max_ifp s) (local_max_ifp s)
    (tx_seq_no s) (rx_seq_no s) (tx s) (rx s) (them s) (u_nat s) (tag s).

Definition upd_local_max_datagram (m : Z → Z) (s : ast_udptl) : ast_udptl :=
  Udptl (error_correction_scheme s) (error_correction_entries s) (error_correction_span
    s) (far_max_datagram s) (m (local_max_datagram s)) (far_max_ifp s) (local_max_ifp s)
    (tx_seq_no s) (rx_seq_no s) (tx s) (rx s) (them s) (u_nat s) (tag s).

Definition upd_far_max_ifp (m : Z → Z) (s : ast_udptl) : ast_udptl :=
  Udptl (error_correction_scheme s) (error_correction_entries s) (error_correction_span
    s) (far_max_datagram s) (local_max_datagram s) (m (far_max_ifp s)) (local_max_ifp s)
    (tx_seq_no s) (rx_seq_no s) (tx s) (rx s) (them s) (u_nat s) (tag s).

Definition upd_local_max_ifp (m : Z → Z) (s : ast_udptl) : ast_udptl :=
  Udptl (error_correction_scheme s) (error_correction_entries s) (error_correction_span
    s) (far_max_datagram s) (local_max_datagram s) (far_max_ifp s) (m (local_max_ifp s))
    (tx_seq_no s) (rx_seq_no s) (tx s) (rx s) (them s) (u_nat s) (tag s).

Definition upd_tx_seq_no (m : Z → Z) (s : ast_udptl) : ast_udptl :=
  Udptl (error_correction_scheme s) (error_correction_entries s) (error_correction_span
    s) (far_max_datagram s) (local_max_datagram s) (far_max_ifp s) (local_max_ifp s) (m
    (tx_seq_no s)) (rx_seq_no s) (tx s) (rx s) (them s) (u_nat s) (tag s).

Definition upd_rx_seq_no (m : Z → Z) (s : ast_udptl) : ast_udptl :=
  Udptl (error_correction_scheme s) (error_correction_entries s) (error_correction_span
    s) (far_max_datagram s) (local_max_datagram s) (far_max_ifp s) (local_max_ifp s)
    (tx_seq_no s) (m (rx_seq_no s)) (tx s) (rx s) (them s) (u_nat s) (tag s).

Definition upd_tx (m : list tx_buffer → list tx_buffer) (s : ast_udptl) : ast_udptl :=
  Udptl (error_correction_scheme s) (error_correction_entries s) (error_correction_span
    s) (far_max_datagram s) (local_max_datagram s) (far_max_ifp s) (local_max_ifp s)
    (tx_seq_no s) (rx_seq_no s) (m (tx s)) (rx s) (them s) (u_nat s) (tag s).

Definition upd_rx (m : list rx_buffer → list rx_buffer) (s : ast_udptl) : ast_udptl :=
  Udptl (error_correction_scheme s) (error_correction_entries s) (error_correction_span
    s) (far_max_datagram s) (local_max_datagram s) (far_max_ifp s) (local_max_ifp s)
    (tx_seq_no s) (rx_seq_no s) (tx s) (m (rx s)) (them s) (u_nat s) (tag s).

Definition upd_them (m : option Z → option Z) (s : ast_udptl) : ast_udptl :=
  Udptl (error_correction_scheme s) (error_correction_entries s) (error_correction_span
    s) (far_max_datagram s) (local_max_datagram s) (far_max_ifp s) (local_max_ifp s)
    (tx_seq_no s) (rx_seq_no s) (tx s) (rx s) (m (them s)) (u_nat s) (tag s).

Definition upd_u_nat (m : bool → bool) (s : ast_udptl) : ast_udptl :=
  Udptl (error_correction_scheme s) (error_correction_entries s) (error_correction_span
    s) (far_max_datagram s) (local_max_datagram s) (far_max_ifp s) (local_max_ifp s)
    (tx_seq_no s) (rx_seq_no s) (tx s) (rx s) (them s) (m (u_nat s)) (tag s).

Definition upd_tag (m : bool → bool) (s : ast_udptl) : ast_udptl :=
  Udptl (error_correction_scheme s) (error_correction_entries s) (error_correction_span
    s) (far_max_datagram s) (local_max_datagram s) (far_max_ifp s) (local_max_ifp s)
    (tx_seq_no s) (rx_seq_no s) (tx s) (rx s) (them s) (u_nat s) (m (tag s)).
(** [memcpy] of the bytes [src] to the start of an array. *)
Definition copy_in (src arr : list Z) : option (list Z) :=
  if bool_decide (length src <= length arr)%nat then Some (src ++ drop (length src) arr)
  else None.

(** The bytes [off .. off + n) of a buffer. *)
Definition slice (buf : list Z) (off n : Z) : option (list Z) :=
  if (0 <=? off) && (0 <=? n) && (off + n <=? Z.of_nat (length buf))
  then Some (take (Z.to_nat n) (drop (Z.to_nat off) buf)) else None.

Definition byte_at (buf : list Z) (i : Z) : option Z :=
  if i <? 0 then None else buf !! Z.to_nat i.

(** ** Lengths and open types *)

(** Status, new position and value. *)
Definition decode_length (buf : list Z) (limit len : Z) : option (Z * Z * Z) :=
  if len >=? limit then Some (-1, len, 0)
  else
    b ← byte_at buf len;
    if Z.land b 0x80 =? 0 then Some (0, len + 1, b)
    else if Z.land b 0x40 =? 0 then
      if len =? u32 (limit - 1) then Some (-1, len, 0)
      else
        b' ← byte_at buf (len + 1);
        Some (0, len + 2, Z.lor (Z.shiftl (Z.land b 0x3F) 8) b')
    else Some (1, len + 1, Z.shiftl (Z.land b 0x3F) 14).

(** Status, new position, offset and length of the object. *)
Definition decode_open_type (buf : list Z) (limit len : Z) : option (Z * Z * Z * Z) :=
  '(st, len, octet_cnt) ← decode_length buf limit len;
  if negb (st =? 0) then Some (-1, len, 0, 0)
  else if u32 (len + octet_cnt) >? limit then Some (-1, len, 0, 0)
  else Some (0, len + octet_cnt, len, octet_cnt).

(** Append a byte to a buffer of [cap] bytes. *)
Definition put_byte (cap : Z) (out : list Z) (b : Z) : option (list Z) :=
  if Z.of_nat (length out) <? cap then Some (out ++ [u8 b]) else None.

(** The length encoded and the buffer. *)
Definition encode_length (cap : Z) (out : list Z) (value : Z) : option (Z * list Z) :=
  if value <? 0x80 then out ← put_byte cap out value; Some (value, out)
  else if value <? 0x4000 then
    out ← put_byte cap out (Z.land (Z.shiftr (Z.lor 0x8000 value) 8) 0xFF);
    out ← put_byte cap out (Z.land value 0xFF);
    Some (value, out)
  else
    let multiplier := if value <? 0x10000 then Z.shiftr value 14 else 4 in
    out ← put_byte cap out (Z.lor 0xC0 multiplier);
    Some (Z.shiftl multiplier 14, out).

Fixpoint encode_fragments (fuel : nat) (cap : Z) (out data : list Z) (num_octets : Z) :
    option (Z * list Z) :=
  match fuel with
  | O => None
  | S fuel =>
    '(enclen, out) ← encode_length cap out num_octets;
    if enclen + Z.of_nat (length out) >? cap then Some (-1, out)
    else
      chunk ← slice data 0 enclen;
      let out := out ++ chunk in
      if enclen >=? num_octets then Some (0, out)
      else encode_fragments fuel cap out (drop (Z.to_nat enclen) data) (num_octets - enclen)
  end.

(** Status and buffer; [num_octets] bytes of [data] are encoded. *)
Definition encode_open_type (cap : Z) (out data : list Z) (num_octets : Z) :
    option (Z * list Z) :=
  let '(data, num_octets) := if num_octets =? 0 then ([0], 1) else (data, num_octets) in
  encode_fragments (S (Z.to_nat (num_octets / 16384))) cap out data num_octets.

(** ** Receiving a packet *)

(** Link one more frame in the array of sixteen. *)
Definition push_frame (fs : list udptl_frame) (seq : Z) (bytes : list Z) :
    option (list udptl_frame) :=
  if Z.of_nat (length fs) <? NFRAMES then Some (fs ++ [UdptlFrame seq bytes]) else None.

(** The secondary packets of one count: [bufs] holds the offset and length of
    those kept, [bufs[0] .. bufs[total_count + i - 1]].  [inl] is [return -1]. *)
Fixpoint secondaries (fuel : nat) (buf : list Z) (len ptr i count total_count : Z)
    (bufs : list (Z * Z)) : option (Z + Z * Z * list (Z * Z)) :=
  match fuel with
  | O => None
  | S fuel =>
    if (i <? count) && (total_count + i <? NFRAMES - 1) then
      '(st, ptr, off, n) ← decode_open_type buf len ptr;
      if negb (st =? 0) then Some (inl (-1))
      else if n =? 0 then secondaries fuel buf len ptr i (count - 1) total_count bufs
      else secondaries fuel buf len ptr (i + 1) count total_count (bufs ++ [(off, n)])
    else Some (inr (ptr, i, bufs))
  end.

(** The [do ... while] loop over counts. *)
Fixpoint secondary_counts (fuel : nat) (buf : list Z) (len ptr total_count : Z)
    (bufs : list (Z * Z)) : option (Z + Z * list (Z * Z)) :=
  match fuel with
  | O => None
  | S fuel =>
    '(stat2, ptr, count) ← decode_length buf len ptr;
    if stat2 <? 0 then Some (inl (-1))
    else
      r ← secondaries (S (length buf)) buf len ptr 0 count total_count bufs;
      match r with
      | inl e => Some (inl e)
      | inr (ptr, i, bufs) =>
        let total_count := total_count + i in
        if (stat2 >? 0) && (total_count <? NFRAMES - 1)
        then secondary_counts fuel buf len ptr total_count bufs
        else Some (inr (total_count, bufs))
      end
  end.

(** Deliver the secondaries not seen before, oldest first: [i] counts down. *)
Fixpoint deliver_secondaries (i : nat) (buf : list Z) (seq_no rx_seq : Z)
    (bufs : list (Z * Z)) (fs : list udptl_frame) : option (list udptl_frame) :=
  match i with
  | O => Some fs
  | S i' =>
    fs ← (if u32 (seq_no - Z.of_nat i) >=? rx_seq then
            '(off, n) ← bufs !! i';
            bytes ← slice buf off n;
            push_frame fs (seq_no - Z.of_nat i) bytes
          else Some fs);
    deliver_secondaries i' buf seq_no rx_seq bufs fs
  end.

Definition rx_secondary (s : ast_udptl) (buf : list Z) (len ptr seq_no : Z) :
    option (Z + list udptl_frame) :=
  if u32 seq_no >? rx_seq_no s then
    r ← secondary_counts (S (length buf)) buf len ptr 0 [];
    match r with
    | inl e => Some (inl e)
    | inr (total_count, bufs) =>
      fs ← deliver_secondaries (Z.to_nat total_count) buf seq_no (rx_seq_no s) bufs [];
      Some (inr fs)
    end
  else Some (inr []).

(** *** Parity *)

Definition slot (i : Z) : nat := Z.to_nat (Z.land i UDPTL_BUF_MASK).

Definition upd_slot (i : Z) (f : rx_buffer → rx_buffer) : ast_udptl → ast_udptl :=
  upd_rx (alter f (slot i)).

(** Mark [n] missed packets. *)
Fixpoint mark_missed (n : nat) (s : ast_udptl) : ast_udptl :=
  match n with
  | O => s
  | S n =>
    let s := upd_slot (rx_seq_no s)
      (λ b, RxBuffer (-1) (r_buf b) (<[0%nat := 0]> (fec_len b)) (fec b) 0 0) s in
    mark_missed n (upd_rx_seq_no (λ q, u32 (q + 1)) s)
  end.

(** The parity entries of the packet, stored in slot [x].  The second
    component is the session also when the result is [return -1]. *)
Fixpoint fec_entries_loop (n : nat) (i : nat) (buf : list Z) (len ptr x : Z)
    (s : ast_udptl) : option (bool * ast_udptl) :=
  match n with
  | O => Some (true, s)
  | S n =>
    '(st, ptr, off, m) ← decode_open_type buf len ptr;
    if negb (st =? 0) then Some (false, s)
    else
      let s := upd_slot x (upd_fec_len <[i := m]>) s in
      if m >? LOCAL_FAX_MAX_DATAGRAM then Some (false, s)
      else
        data ← slice buf off m;
        b ← rx s !! slot x;
        arr ← fec b !! i;
        arr ← copy_in data arr;
        fec_entries_loop n (S i) buf len ptr x (upd_slot x (upd_fec <[i := arr]>) s)
  end.

(** The slots from [k] to [limit], [step] apart. *)
Fixpoint group (fuel : nat) (k limit step : Z) : option (list Z) :=
  match fuel with
  | O => None
  | S fuel =>
    if k =? limit then Some []
    else g ← group fuel (Z.land (k + step) UDPTL_BUF_MASK) limit step; Some (k :: g)
  end.

(** The one slot of a group without a packet: [-1] none, [-2] several. *)
Definition missing_one (r : list rx_buffer) (g : list Z) : option Z :=
  foldl (λ w k, w ← w; b ← r !! Z.to_nat k;
           Some (if r_buf_len b <=? 0 then if w =? -1 then k else -2 else w)) (Some (-1)) g.

(** Byte [j] of the repaired packet. *)
Definition repair_byte (r : list rx_buffer) (g : list Z) (parity : list Z) (j : nat) :
    option Z :=
  p ← parity !! j;
  foldl (λ v k, v ← v; b ← r !! Z.to_nat k;
           if r_buf_len b >? Z.of_nat j then c ← r_buf b !! j; Some (Z.lxor v c) else Some v)
    (Some p) g.

(** Use parity entry [m] of slot [l]; [repaired] has sixteen flags. *)
Definition try_repair (seq_no l m : Z) (st : ast_udptl * list bool) :
    option (ast_udptl * list bool) :=
  let '(s, repaired) := st in
  b ← rx s !! Z.to_nat l;
  let limit := Z.land (l + m) UDPTL_BUF_MASK in
  let se := u32 (fec_span b * fec_entries b) in
  if u32 seq_no <=? u32 (se - m) then Some (s, repaired)
  else
    g ← group 17 (Z.land (limit - se) UDPTL_BUF_MASK) limit (fec_entries b);
    which ← missing_one (rx s) g;
    if which >=? 0 then
      n ← fec_len b !! Z.to_nat m;
      parity ← fec b !! Z.to_nat m;
      bytes ← mapM (repair_byte (rx s) g parity) (seq 0 (Z.to_nat n));
      w ← rx s !! Z.to_nat which;
      arr ← copy_in bytes (r_buf w);
      Some (upd_slot which (λ w, upd_r_buf_len (λ _, n) (upd_r_buf (λ _, arr) w)) s,
            <[Z.to_nat which := true]> repaired)
    else Some (s, repaired).

Fixpoint try_entries (n : nat) (seq_no l m : Z) (st : ast_udptl * list bool) :
    option (ast_udptl * list bool) :=
  match n with
  | O => Some st
  | S n => st ← try_repair seq_no l m st; try_entries n seq_no l (m + 1) st
  end.

(** The hunt from slot [l] back to [stop]. *)
Fixpoint repair_loop (fuel : nat) (seq_no l stop : Z) (st : ast_udptl * list bool) :
    option (ast_udptl * list bool) :=
  match fuel with
  | O => None
  | S fuel =>
    if l =? stop then Some st
    else
      b ← rx st.1 !! Z.to_nat l;
      n0 ← fec_len b !! 0%nat;
      st ← (if n0 <=? 0 then Some st
            else try_entries (Z.to_nat (fec_entries b)) seq_no l 0 st);
      repair_loop fuel seq_no (Z.land (l - 1) UDPTL_BUF_MASK) stop st
  end.

(** Deliver the repaired packets, oldest first. *)
Fixpoint play_repaired (n : nat) (l j x : Z) (s : ast_udptl) (repaired : list bool)
    (fs : list udptl_frame) : option (list udptl_frame) :=
  match n with
  | O => Some fs
  | S n =>
    if l =? x then Some fs
    else
      rep ← repaired !! Z.to_nat l;
      fs ← (if (rep : bool) then
              b ← rx s !! Z.to_nat l;
              bytes ← slice (r_buf b) 0 (r_buf_len b);
              push_frame fs j bytes
            else Some fs);
      play_repaired n (Z.land (l + 1) UDPTL_BUF_MASK) (j + 1) x s repaired fs
  end.

Definition rx_fec (s : ast_udptl) (buf : list Z) (len ptr seq_no : Z) (ifp : list Z) :
    option ((Z + list udptl_frame) * ast_udptl) :=
  let ifp_len := Z.of_nat (length ifp) in
  if ifp_len >? LOCAL_FAX_MAX_DATAGRAM then Some (inl (-1), s)
  else
    let s := mark_missed (Z.to_nat (u32 seq_no - rx_seq_no s)) s in
    let x := Z.land seq_no UDPTL_BUF_MASK in
    b ← rx s !! slot x;
    arr ← copy_in ifp (r_buf b);
    let s := upd_slot x (λ b, upd_r_buf_len (λ _, ifp_len) (upd_r_buf (λ _, arr) b)) s in
    let repaired := <[slot x := true]> (replicate 16 false) in
    if u32 (ptr + 2) >? len then Some (inl (-1), s)
    else
      one ← byte_at buf ptr;
      if negb (one =? 1) then Some (inl (-1), s)
      else
        span ← byte_at buf (ptr + 1);
        let s := upd_slot x (upd_fec_span (λ _, span)) s in
        if u32 (ptr + 3) >? len then Some (inl (-1), s)
        else
          entries ← byte_at buf (ptr + 2);
          if entries >? MAX_FEC_ENTRIES then Some (inl (-1), s)
          else
            let s := upd_slot x (upd_fec_entries (λ _, entries)) s in
            '(ok, s) ← fec_entries_loop (Z.to_nat entries) 0 buf len (ptr + 3) x s;
            if negb ok then Some (inl (-1), s)
            else
              '(s, repaired) ← repair_loop 17 seq_no x
                (Z.land (x - (16 - span * entries)) UDPTL_BUF_MASK) (s, repaired);
              fs ← play_repaired 16 (Z.land (x + 1) UDPTL_BUF_MASK)
                     (seq_no - UDPTL_BUF_MASK) x s repaired [];
              Some (inr fs, s).

(** Deliver the packet itself unless it was seen already. *)
Definition rx_primary (s : ast_udptl) (seq_no : Z) (ifp : list Z) (fs : list udptl_frame) :
    option (Z * list udptl_frame * ast_udptl) :=
  fs ← (if u32 seq_no >=? rx_seq_no s then push_frame fs seq_no ifp else Some fs);
  Some (Z.of_nat (length fs), fs, upd_rx_seq_no (λ _, u32 (seq_no + 1)) s).

(** The result is [-1] or the number of frames, with the frames. *)
Definition udptl_rx_packet (s : ast_udptl) (buf : list Z) :
    option (Z * list udptl_frame * ast_udptl) :=
  let len := Z.of_nat (length buf) in
  if 2 >? len then Some (-1, [], s)
  else
    b0 ← byte_at buf 0;
    b1 ← byte_at buf 1;
    let seq_no := Z.lor (Z.shiftl b0 8) b1 in
    let '(seq_no, s) :=
      if (seq_no <? 0x000F) && (rx_seq_no s >? 0xFFF0) then (seq_no + 0x10000, s)
      else (seq_no, upd_rx_seq_no (λ q, Z.land q 0xFFFF) s) in
    '(stat1, ptr, off, ifp_len) ← decode_open_type buf len 2;
    if negb (stat1 =? 0) then Some (-1, [], s)
    else if u32 (ptr + 1) >? len then Some (-1, [], s)
    else
      mode ← byte_at buf ptr;
      ifp ← slice buf off ifp_len;
      '(r, s) ← (if Z.land mode 0x80 =? 0 then
                   r ← rx_secondary s buf len (ptr + 1) seq_no; Some (r, s)
                 else rx_fec s buf len (ptr + 1) seq_no ifp);
      match r with
      | inl e => Some (e, [], s)
      | inr fs => rx_primary s seq_no ifp fs
      end.

(** ** Building a packet *)

Fixpoint redundancy_loop (n : nat) (i entry cap : Z) (s : ast_udptl) (out : list Z) :
    option (option (list Z)) :=
  match n with
  | O => Some (Some out)
  | S n =>
    b ← tx s !! slot (entry - i - 1);
    '(st, out) ← encode_open_type cap out (t_buf b) (u32 (t_buf_len b));
    if st <? 0 then Some None else redundancy_loop n (i + 1) entry cap s out
  end.

(** One packet of a group enters the parity [acc], which holds the bytes below
    the high tide. *)
Definition xor_in (acc : list Z) (b : tx_buffer) : option (list Z) :=
  let n := Z.to_nat (t_buf_len b) in
  src ← slice (t_buf b) 0 (Z.of_nat n);
  let common := zip_with Z.lxor acc src in
  if bool_decide (length acc < n)%nat then Some (common ++ drop (length acc) src)
  else Some (common ++ drop n acc).

Definition parity_of (s : ast_udptl) (g : list Z) : option (list Z) :=
  foldl (λ acc i, acc ← acc; b ← tx s !! Z.to_nat i; xor_in acc b) (Some []) g.

Fixpoint fec_loop (n : nat) (m entry span entries cap : Z) (s : ast_udptl)
    (out : list Z) : option (option (list Z)) :=
  match n with
  | O => Some (Some out)
  | S n =>
    let limit := Z.land (entry + m) UDPTL_BUF_MASK in
    g ← group 17 (Z.land (limit - span * entries) UDPTL_BUF_MASK) limit entries;
    parity ← parity_of s g;
    '(st, out) ← encode_open_type cap out parity (Z.of_nat (length parity));
    if st <? 0 then Some None else fec_loop n (m + 1) entry span entries cap s out
  end.

(** [Some None] in the middle component is [return -1]. *)
Definition udptl_build_packet (s : ast_udptl) (cap : Z) (ifp : list Z) :
    option (option (list Z) * ast_udptl) :=
  let ifp_len := Z.of_nat (length ifp) in
  let seq := Z.land (tx_seq_no s) 0xFFFF in
  let entry := Z.land seq UDPTL_BUF_MASK in
  b ← tx s !! Z.to_nat entry;
  arr ← copy_in ifp (t_buf b);
  let s := upd_tx (insert (Z.to_nat entry) (TxBuffer ifp_len arr)) s in
  out ← put_byte cap [] (Z.land (Z.shiftr seq 8) 0xFF);
  out ← put_byte cap out (Z.land seq 0xFF);
  '(st, out) ← encode_open_type cap out ifp ifp_len;
  if st <? 0 then Some (None, s)
  else
    r ← match error_correction_scheme s with
        | UDPTL_ERROR_CORRECTION_NONE =>
          out ← put_byte cap out 0x00;
          '(_, out) ← encode_length cap out 0;
          Some (Some out)
        | UDPTL_ERROR_CORRECTION_REDUNDANCY =>
          out ← put_byte cap out 0x00;
          let entries := if tx_seq_no s >? error_correction_entries s
                         then error_correction_entries s else tx_seq_no s in
          '(_, out) ← encode_length cap out entries;
          redundancy_loop (Z.to_nat entries) 0 entry cap s out
        | UDPTL_ERROR_CORRECTION_FEC =>
          let '(entries, span) :=
            if seq <? u32 (error_correction_span s * error_correction_entries s) then
              (seq /c error_correction_span s,
               if seq <? error_correction_span s then 0 else error_correction_span s)
            else (error_correction_entries s, error_correction_span s) in
          out ← put_byte cap out 0x80;
          out ← put_byte cap out 1;
          out ← put_byte cap out span;
          out ← put_byte cap out entries;
          fec_loop (Z.to_nat entries) 0 entry span entries cap s out
        end;
    match r with
    | None => Some (None, s)
    | Some out => Some (Some out, upd_tx_seq_no (λ n, u32 (n + 1)) s)
    end.

(** ** Sizes *)

(** Conversion of a [double] to [int]: out of range it gives the x86 value. *)
Definition double_to_int (x : Z) : Z := if x <=? 2147483647 then x else -2147483648.

(** [new_max * 1.05] and [new_max * 0.95] are doubles; for a 32-bit operand
    their integer parts are those of the exact products, because the constants
    are within less than half a unit in the last place. *)
Definition times_1_05 (n : Z) : Z := n * 21 / 20.
Definition times_0_95 (n : Z) : Z := n * 19 / 20.

Definition calculate_local_max_datagram (s : ast_udptl) : ast_udptl :=
  if local_max_ifp s =? -1 then upd_local_max_datagram (λ _, -1) s
  else
    let ifp := local_max_ifp s in
    let new_max :=
      match error_correction_scheme s with
      | UDPTL_ERROR_CORRECTION_NONE => u32 (5 + ifp)
      | UDPTL_ERROR_CORRECTION_REDUNDANCY => u32 (5 + ifp + 2 + 3 * ifp)
      | UDPTL_ERROR_CORRECTION_FEC => u32 (5 + ifp + 4 + ifp)
      end in
    upd_local_max_datagram (λ _, Z.min (times_1_05 new_max) LOCAL_FAX_MAX_DATAGRAM) s.

(** The loop that gives up entries: the new maximum and the entries left. *)
Fixpoint reduce_entries (fuel : nat) (dg entries : Z) : Z * Z :=
  let new_max := u32 (dg - 8) /c (entries + 1) in
  match fuel with
  | O => (new_max, entries)
  | S fuel =>
    if (new_max <? 80) && (entries >? 1) then reduce_entries fuel dg (entries - 1)
    else (new_max, entries)
  end.

Definition calculate_far_max_ifp (s : ast_udptl) : ast_udptl :=
  if far_max_datagram s =? -1 then upd_far_max_ifp (λ _, -1) s
  else
    let dg := far_max_datagram s in
    let '(new_max, entries) :=
      match error_correction_scheme s with
      | UDPTL_ERROR_CORRECTION_NONE => (u32 (dg - 5), error_correction_entries s)
      | UDPTL_ERROR_CORRECTION_REDUNDANCY =>
        reduce_entries (Z.to_nat (error_correction_entries s)) dg (error_correction_entries s)
      | UDPTL_ERROR_CORRECTION_FEC => (u32 ((dg - 10) /c 2), error_correction_entries s)
      end in
    upd_far_max_ifp (λ _, double_to_int (times_0_95 new_max))
      (upd_error_correction_entries (λ _, entries) s).

Definition ast_udptl_set_error_correction_scheme (s : ast_udptl) (ec : ast_t38_ec_modes) :
    ast_udptl :=
  let s := upd_error_correction_scheme (λ _, ec) s in
  let entries3 s := if error_correction_entries s =? 0
                    then upd_error_correction_entries (λ _, 3) s else s in
  let s := match ec with
           | UDPTL_ERROR_CORRECTION_FEC =>
             let s := entries3 s in
             if error_correction_span s =? 0 then upd_error_correction_span (λ _, 3) s else s
           | UDPTL_ERROR_CORRECTION_REDUNDANCY => entries3 s
           | UDPTL_ERROR_CORRECTION_NONE => s
           end in
  upd_far_max_ifp (λ _, -1) (upd_local_max_datagram (λ _, -1) s).

Definition ast_udptl_set_local_max_ifp (s : ast_udptl) (max_ifp : Z) : ast_udptl :=
  if s32 max_ifp >? 0 then
    upd_local_max_datagram (λ _, -1) (upd_local_max_ifp (λ _, s32 max_ifp) s)
  else s.

Definition ast_udptl_get_local_max_datagram (s : ast_udptl) : Z * ast_udptl :=
  let s := if local_max_datagram s =? -1 then calculate_local_max_datagram s else s in
  (if local_max_datagram s <? 0 then 0 else local_max_datagram s, s).

Definition ast_udptl_set_far_max_datagram (s : ast_udptl) (max_datagram : Z) : ast_udptl :=
  let s := if (max_datagram =? 0) || (max_datagram >? FAX_MAX_DATAGRAM_LIMIT)
           then upd_far_max_datagram (λ _, DEFAULT_FAX_MAX_DATAGRAM) s
           else upd_far_max_datagram (λ _, max_datagram) s in
  upd_far_max_ifp (λ _, -1) s.

Definition ast_udptl_get_far_max_datagram (s : ast_udptl) : Z :=
  if far_max_datagram s <? 0 then 0 else far_max_datagram s.

Definition ast_udptl_get_far_max_ifp (s : ast_udptl) : Z * ast_udptl :=
  let s := if far_max_ifp s =? -1 then calculate_far_max_ifp s else s in
  (if far_max_ifp s <? 0 then 0 else far_max_ifp s, s).

(** ** Sending and receiving *)

(** What the frame given to [ast_udptl_write] is: T.38 data or not. *)
Definition ast_udptl_write (s : ast_udptl) (is_t38 : bool) (data : list Z) :
    option (Z * option (list Z) * ast_udptl) :=
  let len := Z.of_nat (length data) in
  let bufsize := if far_max_datagram s >? 0 then far_max_datagram s
                 else DEFAULT_FAX_MAX_DATAGRAM in
  match them s with
  | None => Some (0, None, s)
  | Some _ =>
    if len =? 0 then Some (0, None, s)
    else if negb is_t38 then Some (-1, None, s)
    else
      let len := if len >? u32 (far_max_ifp s) then far_max_ifp s else len in
      '(pkt, s) ← udptl_build_packet s bufsize (take (Z.to_nat len) data);
      Some (0, pkt, s)
  end.

(** [received] is what [ast_recvfrom] gives: the sender and the datagram. *)
Definition ast_udptl_read (s : ast_udptl) (received : option (Z * list Z)) :
    option (list udptl_frame * ast_udptl) :=
  match received, them s with
  | None, _ | _, None => Some ([], s)
  | Some (addr, buf), Some peer =>
    if negb (tag s) then Some ([], s)
    else
      let s := if u_nat s then if negb (peer =? addr) then upd_them (λ _, Some addr) s else s
               else s in
      '(n, fs, s) ← udptl_rx_packet s buf;
      Some (if n <? 1 then [] else fs, s)
  end.

(** A new session: empty buffers, the configured parity parameters. *)
Definition udptl_new (fecspan fecentries : Z) : ast_udptl :=
  Udptl UDPTL_ERROR_CORRECTION_NONE fecentries fecspan (-1) (-1) (-1) (-1) 0 0
    (replicate 16 (TxBuffer (-1) (replicate 1400 0)))
    (replicate 16 (RxBuffer (-1) (replicate 1400 0) (replicate 5 0)
                     (replicate 5 (replicate 1400 0)) 0 0))
    None false false.

(** ** Memory safety of reception *)

Definition is_byte (b : Z) : Prop := 0 <= b < 256.

(** A slot as the code keeps it: the arrays have their sizes and every length
    is within its array. *)
Record rx_ok (b : rx_buffer) : Prop := {
  ok_buf : length (r_buf b) = 1400%nat;
  ok_len : -1 <= r_buf_len b <= 1400;
  ok_fec_lens : length (fec_len b) = 5%nat ∧ Forall (λ n, 0 <= n <= 1400) (fec_len b);
  ok_fecs : length (fec b) = 5%nat ∧ Forall (λ a, length a = 1400%nat) (fec b);
  ok_span : 0 <= fec_span b < 256;
  ok_entries : 0 <= fec_entries b <= 5;
}.

Record session_ok (s : ast_udptl) : Prop := {
  so_rx : length (rx s) = 16%nat ∧ Forall rx_ok (rx s);
  so_seq : 0 <= rx_seq_no s < 2 ^ 31;
}.

Lemma land_mask i : Z.land i UDPTL_BUF_MASK = i mod 16.
Proof. apply (Z.land_ones i 4). lia. Qed.

Lemma slot_lt i : (slot i < 16)%nat.
Proof. unfold slot. rewrite land_mask. pose proof (Z.mod_pos_bound i 16). lia. Qed.

Lemma byte_at_lt buf i : 0 <= i < Z.of_nat (length buf) → is_Some (byte_at buf i).
Proof. intros. unfold byte_at. case_match; [lia|]. apply lookup_lt_is_Some. lia. Qed.

Lemma byte_at_byte buf i b : Forall is_byte buf → byte_at buf i = Some b → is_byte b.
Proof. unfold byte_at. intros Hb H. case_match; [done|]. by eapply Forall_lookup_1. Qed.

Lemma slice_ok buf off n :
  0 <= off → 0 <= n → off + n <= Z.of_nat (length buf) →
  ∃ l, slice buf off n = Some l ∧ Z.of_nat (length l) = n.
Proof.
  intros. unfold slice. case_match; [|lia]. eexists. split; [done|].
  rewrite length_take, length_drop. lia.
Qed.

Lemma copy_in_ok src arr : (length src <= length arr)%nat →
  ∃ l, copy_in src arr = Some l ∧ length l = length arr.
Proof.
  intros. unfold copy_in. rewrite bool_decide_true by done. eexists. split; [done|].
  rewrite length_app, length_drop. lia.
Qed.

Section Decode.
Context (buf : list Z) (Hbytes : Forall is_byte buf)
  (Hlen : Z.of_nat (length buf) < 2 ^ 30).
Abbreviation limit := (Z.of_nat (length buf)).

Lemma decode_length_ok len :
  0 <= len →
  ∃ st len' v, decode_length buf limit len = Some (st, len', v) ∧
    (st = -1 ∨ (st = 0 ∨ st = 1) ∧ len < len' <= limit ∧ 0 <= v < 2 ^ 20).
Proof.
  intros Hl. unfold decode_length. destruct (Z.geb_spec len limit).
  { eexists _, _, _. split; [done|]. by left. }
  destruct (byte_at_lt buf len) as [b Hb]; [lia|]. rewrite Hb. cbn [mbind option_bind].
  pose proof (byte_at_byte _ _ _ Hbytes Hb) as Hbb. unfold is_byte in Hbb.
  assert (0 <= Z.land b 0x3F < 2 ^ 6) as Hland.
  { change 0x3F with (Z.ones 6). rewrite Z.land_ones by lia. by apply Z.mod_pos_bound. }
  case_match.
  { eexists _, _, _. split; [done|]. right. split_and!; lia. }
  case_match.
  - rewrite uwrap_small by lia. destruct (Z.eqb_spec len (limit - 1)).
    { eexists _, _, _. split; [done|]. by left. }
    destruct (byte_at_lt buf (len + 1)) as [b' Hb']; [lia|]. rewrite Hb'. cbn [mbind option_bind].
    pose proof (byte_at_byte _ _ _ Hbytes Hb') as Hbb'. unfold is_byte in Hbb'.
    eexists _, _, _. split; [done|]. right. rewrite lor_shiftl_add by lia. split_and!; lia.
  - eexists _, _, _. split; [done|]. right. rewrite Z.shiftl_mul_pow2 by lia. split_and!; lia.
Qed.

Lemma decode_open_type_ok len :
  0 <= len →
  ∃ st len' off n, decode_open_type buf limit len = Some (st, len', off, n) ∧
    (st = -1 ∨ st = 0 ∧ len < off ∧ 0 <= n ∧ len' = off + n ∧ len' <= limit).
Proof.
  intros Hl. unfold decode_open_type.
  destruct (decode_length_ok len Hl) as (st & len' & v & -> & Hst). cbn [mbind option_bind].
  destruct (Z.eqb_spec st 0) as [->|]; simpl.
  2:{ eexists _, _, _, _. split; [done|]. by left. }
  destruct Hst as [|(_ & ? & ?)]; [lia|]. rewrite uwrap_small by lia.
  destruct (Z.gtb_spec (len' + v) limit); (eexists _, _, _, _; split; [done|]); [by left|].
  right. split_and!; lia.
Qed.

(** The slices the code keeps lie in the packet. *)
Definition slices_ok (bufs : list (Z * Z)) : Prop :=
  Forall (λ p, 0 <= p.1 ∧ 0 <= p.2 ∧ p.1 + p.2 <= limit) bufs.

Lemma secondaries_ok : ∀ fuel ptr i count total bufs,
  0 <= ptr <= limit → 0 <= i → 0 <= total → total + i <= 15 →
  Z.of_nat (length bufs) = total + i → slices_ok bufs →
  (Z.to_nat (limit - ptr) < fuel)%nat →
  ∃ r, secondaries fuel buf limit ptr i count total bufs = Some r ∧
    match r with
    | inl e => e = -1
    | inr (ptr', i', bufs') => ptr <= ptr' <= limit ∧ 0 <= i' ∧ total + i' <= 15 ∧
        Z.of_nat (length bufs') = total + i' ∧ slices_ok bufs'
    end.
Proof.
  induction fuel as [|fuel IH]; intros ptr i count total bufs Hp Hi Ht Hti Hlb Hs Hf; [lia|].
  simpl. unfold NFRAMES. destruct ((i <? count) && (total + i <? 16 - 1)) eqn:Ec.
  2:{ eexists. split; [done|]. simpl. split_and!; auto; lia. }
  destruct (decode_open_type_ok ptr) as (st & ptr' & off & n & -> & Hst); [lia|].
  cbn [mbind option_bind]. destruct (Z.eqb_spec st 0) as [->|]; simpl; [|by eexists].
  destruct Hst as [|(_ & ? & ? & ? & ?)]; [lia|].
  destruct (Z.eqb_spec n 0) as [->|].
  - destruct (IH ptr' i (count - 1) total bufs) as (r & -> & Hr); try done; try lia.
    exists r. split; [done|]. destruct r as [|[[??]?]]; [done|]. destruct Hr. split; [lia|done].
  - destruct (IH ptr' (i + 1) count total (bufs ++ [(off, n)])) as (r & -> & Hr); try lia.
    + rewrite length_app; simpl. lia.
    + apply Forall_app. split; [done|]. repeat constructor; simpl; lia.
    + exists r. split; [done|]. destruct r as [|[[??]?]]; [done|]. destruct Hr. split; [lia|done].
Qed.

Lemma secondary_counts_ok : ∀ fuel ptr total bufs,
  0 <= ptr <= limit → 0 <= total <= 15 → Z.of_nat (length bufs) = total → slices_ok bufs →
  (Z.to_nat (limit - ptr) < fuel)%nat →
  ∃ r, secondary_counts fuel buf limit ptr total bufs = Some r ∧
    match r with
    | inl e => e = -1
    | inr (total', bufs') => 0 <= total' <= 15 ∧ Z.of_nat (length bufs') = total' ∧
        slices_ok bufs'
    end.
Proof.
  induction fuel as [|fuel IH]; intros ptr total bufs Hp Ht Hlb Hs Hf; [lia|]. simpl.
  destruct (decode_length_ok ptr) as (st & ptr1 & count & -> & Hst); [lia|].
  cbn [mbind option_bind]. destruct (Z.ltb_spec st 0); [by eexists|].
  destruct Hst as [|(_ & ? & _)]; [lia|].
  destruct (secondaries_ok (S (length buf)) ptr1 0 count total bufs) as (r & Hr & Hres);
    try done; try lia.
  simpl in Hr. rewrite Hr. cbn [mbind option_bind].
  destruct r as [e|[[ptr2 i] bufs']]; [by eexists|]. destruct Hres as (? & ? & ? & ? & ?).
  destruct ((st >? 0) && _).
  - apply IH; auto; lia.
  - eexists. split; [done|]. simpl. split_and!; auto; lia.
Qed.

Lemma deliver_secondaries_ok seq_no rx_seq bufs : slices_ok bufs →
  ∀ i fs, (i <= length bufs)%nat → (length fs + i <= 15)%nat →
  ∃ fs', deliver_secondaries i buf seq_no rx_seq bufs fs = Some fs' ∧
    (length fs' <= length fs + i)%nat.
Proof.
  intros Hs. induction i as [|i IH]; intros fs Hi Hfs; [exists fs; split; [done|lia]|].
  cbn [deliver_secondaries]. case_match.
  - destruct (lookup_lt_is_Some_2 bufs i) as [[off n] Hp]; [lia|]. rewrite Hp.
    cbn [mbind option_bind]. pose proof (Forall_lookup_1 _ _ _ _ Hs Hp) as (? & ? & ?). simpl in *.
    destruct (slice_ok buf off n) as (l & -> & _); [lia..|]. cbn [mbind option_bind].
    unfold push_frame, NFRAMES. case_match; [|lia]. cbn [mbind option_bind].
    destruct (IH (fs ++ [UdptlFrame (seq_no - Z.of_nat (S i)) l])) as (fs' & -> & Hl);
      [lia|rewrite length_app; simpl; lia|]. exists fs'. split; [done|].
    rewrite length_app in Hl; simpl in Hl. lia.
  - cbn [mbind option_bind]. destruct (IH fs) as (fs' & -> & Hl); [lia..|].
    exists fs'. split; [done|]. lia.
Qed.

Lemma rx_secondary_ok s ptr seq_no :
  0 <= ptr <= limit →
  ∃ r, rx_secondary s buf limit ptr seq_no = Some r ∧
    match r with inl e => e = -1 | inr fs => (length fs <= 15)%nat end.
Proof.
  intros Hp. unfold rx_secondary. case_match; [|eexists; split; [done|]; simpl; lia].
  destruct (secondary_counts_ok (S (length buf)) ptr 0 []) as (r & Hr & Hres);
    try done; try lia; [constructor|].
  rewrite Hr. cbn [mbind option_bind]. destruct r as [e|[total bufs]]; [by eexists|].
  destruct Hres as (? & ? & ?).
  destruct (deliver_secondaries_ok seq_no (rx_seq_no s) bufs H2 (Z.to_nat total) [])
    as (fs & -> & Hl); [lia|simpl; lia|].
  cbn [mbind option_bind]. eexists. split; [done|]. simpl in *. lia.
Qed.

End Decode.

(** *** Parity *)

Lemma session_slot s i : session_ok s → ∃ b, rx s !! slot i = Some b ∧ rx_ok b.
Proof.
  intros [[Hl Hf] _]. destruct (lookup_lt_is_Some_2 (rx s) (slot i)) as [b Hb];
    [rewrite Hl; apply slot_lt|]. exists b. split; [done|]. by eapply Forall_lookup_1.
Qed.

Lemma session_slot_nat s (i : Z) : session_ok s → 0 <= i < 16 →
  ∃ b, rx s !! Z.to_nat i = Some b ∧ rx_ok b.
Proof.
  intros Hs Hi. destruct (session_slot s i Hs) as (b & Hb & ?). exists b. split; [|done].
  rewrite <- Hb. f_equal. unfold slot. rewrite land_mask, Z.mod_small; lia.
Qed.

Lemma upd_slot_ok s i f : session_ok s →
  (∀ b, rx s !! slot i = Some b → rx_ok b → rx_ok (f b)) → session_ok (upd_slot i f s).
Proof.
  intros [[Hl Hf] Hq] Hb. constructor; simpl; [|done]. rewrite length_alter. split; [done|].
  apply Forall_lookup_2. intros k b Hk. destruct (decide (slot i = k)) as [<-|].
  - rewrite list_lookup_alter_eq in Hk. apply fmap_Some in Hk as (b0 & Hb0 & ->).
    apply Hb; [done|]. by eapply Forall_lookup_1.
  - rewrite list_lookup_alter_ne in Hk by done. by eapply Forall_lookup_1.
Qed.

Lemma mark_missed_ok n s : session_ok s → rx_seq_no s + Z.of_nat n < 2 ^ 31 →
  session_ok (mark_missed n s) ∧ rx_seq_no (mark_missed n s) = rx_seq_no s + Z.of_nat n.
Proof.
  revert s. induction n as [|n IH]; intros s Hs Hn; [simpl; split; [done|lia]|].
  cbn [mark_missed]. pose proof (so_seq _ Hs) as Hq.
  set (s1 := upd_slot _ _ s).
  assert (session_ok s1) as H1.
  { apply upd_slot_ok; [done|]. intros b _ []. constructor; simpl; auto; try lia.
    rewrite length_insert. destruct ok_fec_lens0. split; [done|]. apply Forall_insert; [done|lia]. }
  destruct (IH (upd_rx_seq_no (λ q, u32 (q + 1)) s1)) as [? Hr].
  - destruct H1 as [? ?]. constructor; simpl; [done|]. rewrite uwrap_small; lia.
  - simpl. rewrite uwrap_small; lia.
  - split; [done|]. rewrite Hr. simpl. rewrite uwrap_small; lia.
Qed.

Lemma fec_entries_loop_ok buf : Forall is_byte buf → Z.of_nat (length buf) < 2 ^ 30 →
  ∀ n i ptr x s, session_ok s → 0 <= ptr → (n + i <= 5)%nat →
  ∃ ok s', fec_entries_loop n i buf (Z.of_nat (length buf)) ptr x s = Some (ok, s') ∧
    (ok = true → session_ok s' ∧ rx_seq_no s' = rx_seq_no s ∧
      (∀ j b, rx s !! j = Some b → ∃ b', rx s' !! j = Some b' ∧ r_buf_len b' = r_buf_len b)).
Proof.
  intros Hb Hl. induction n as [|n IH]; intros i ptr x s Hs Hp Hi.
  { exists true, s. split; [done|]. intros _. split_and!; eauto. }
  cbn [fec_entries_loop].
  destruct (decode_open_type_ok buf Hb Hl ptr Hp) as (st & ptr' & off & m & -> & Hst).
  cbn [mbind option_bind]. destruct (Z.eqb_spec st 0) as [->|]; simpl negb; cbn iota.
  2:{ eexists _, _. split; [done|done]. }
  destruct Hst as [|(_ & ? & ? & ? & ?)]; [lia|].
  unfold LOCAL_FAX_MAX_DATAGRAM. destruct (Z.gtb_spec m 1400).
  { eexists _, _. split; [done|done]. }
  set (s1 := upd_slot x (upd_fec_len <[i := m]>) s).
  assert (session_ok s1) as Hs1.
  { apply upd_slot_ok; [done|]. intros b _ []. constructor; simpl; auto.
    rewrite length_insert. destruct ok_fec_lens0. split; [done|]. apply Forall_insert; [done|lia]. }
  destruct (slice_ok buf off m) as (data & -> & Hd); [lia..|]. cbn [mbind option_bind].
  destruct (session_slot s1 x Hs1) as (b & Hbx & Hok). rewrite Hbx. cbn [mbind option_bind].
  destruct (ok_fecs _ Hok) as [Hfl Hfa].
  destruct (lookup_lt_is_Some_2 (fec b) i) as [arr Harr]; [lia|]. rewrite Harr.
  cbn [mbind option_bind]. pose proof (Forall_lookup_1 _ _ _ _ Hfa Harr) as Hal. cbv beta in Hal.
  destruct (copy_in_ok data arr) as (arr' & -> & Hal'); [lia|]. cbn [mbind option_bind].
  set (s2 := upd_slot x (upd_fec <[i := arr']>) s1).
  assert (session_ok s2) as Hs2.
  { apply upd_slot_ok; [done|]. intros b' _ []. constructor; simpl; auto.
    rewrite length_insert. destruct ok_fecs0. split; [done|]. apply Forall_insert; [done|lia]. }
  destruct (IH (S i) ptr' x s2 Hs2) as (ok & s3 & -> & Hs3); [lia..|].
  exists ok, s3. split; [done|]. intros Hok3. destruct (Hs3 Hok3) as (? & Hq & Hlens).
  split_and!; [done|by rewrite Hq|]. intros j b0 Hj.
  assert (∃ b2, rx s2 !! j = Some b2 ∧ r_buf_len b2 = r_buf_len b0) as (b2 & Hb2 & E2).
  { simpl. destruct (decide (slot x = j)) as [<-|].
    - rewrite !list_lookup_alter_eq, Hj. simpl. eauto.
    - rewrite !list_lookup_alter_ne by done. eauto. }
  destruct (Hlens j b2 Hb2) as (b3 & ? & ?). exists b3. split; [done|congruence].
Qed.

(** Walking the ring of sixteen slots from [n] steps before [limit] reaches it. *)
Lemma group_ok step limit : 0 <= limit < 16 → ∀ (n fuel : nat),
  (n < fuel)%nat →
  ∃ g, group fuel ((limit - Z.of_nat n * step) mod 16) limit step = Some g ∧
    Forall (λ k, 0 <= k < 16) g.
Proof.
  intros Hl. induction n as [|n IH]; intros [|fuel] Hf; try lia; cbn [group].
  - rewrite Z.mul_0_l, Z.sub_0_r, Z.mod_small, Z.eqb_refl by lia. by exists [].
  - case_match; [by exists []|]. rewrite land_mask, Zplus_mod_idemp_l.
    replace (limit - Z.of_nat (S n) * step + step) with (limit - Z.of_nat n * step) by lia.
    destruct (IH fuel) as (g & -> & Hg); [lia|]. cbn [mbind option_bind].
    eexists. split; [done|]. constructor; [|done]. by apply Z.mod_pos_bound.
Qed.

(** The number of steps is taken modulo sixteen. *)
Lemma group_start limit span step :
  Z.land (limit - span * step) UDPTL_BUF_MASK =
    (limit - Z.of_nat (Z.to_nat (span mod 16)) * step) mod 16.
Proof.
  rewrite land_mask, Z2Nat.id by (by apply Z.mod_pos_bound).
  rewrite (Z.div_mod span 16) at 1 by lia.
  replace (limit - (16 * (span / 16) + span mod 16) * step)
    with (limit - span mod 16 * step + (- (span / 16) * step) * 16) by lia.
  by rewrite Z.mod_add.
Qed.

Lemma group17_ok limit span step : 0 <= limit < 16 → 
  ∃ g, group 17 (Z.land (limit - span * step) UDPTL_BUF_MASK) limit step = Some g ∧
    Forall (λ k, 0 <= k < 16) g.
Proof.
  intros Hl. rewrite group_start. apply group_ok; [done|].
  pose proof (Z.mod_pos_bound span 16). lia.
Qed.

Lemma missing_one_ok r g : length r = 16%nat → Forall (λ k, 0 <= k < 16) g →
  ∃ w, missing_one r g = Some w ∧ (w < 0 ∨ 0 <= w < 16).
Proof.
  intros Hr. unfold missing_one.
  assert (∀ w0, (w0 < 0 ∨ 0 <= w0 < 16) → Forall (λ k, 0 <= k < 16) g →
    ∃ w, foldl (λ w k, w ← w; b ← r !! Z.to_nat k;
           Some (if r_buf_len b <=? 0 then if w =? -1 then k else -2 else w)) (Some w0) g = Some w
      ∧ (w < 0 ∨ 0 <= w < 16)) as Hgen; [|intros; apply Hgen; auto; lia].
  induction g as [|k g IH]; intros w0 Hw Hg; simpl; [eauto|].
  apply Forall_cons in Hg as [Hk Hg].
  destruct (lookup_lt_is_Some_2 r (Z.to_nat k)) as [b Hb]; [lia|]. rewrite Hb. simpl.
  apply IH; [|done]. repeat case_match; lia.
Qed.

Lemma repair_byte_ok r g parity j : length r = 16%nat → Forall rx_ok r →
  Forall (λ k, 0 <= k < 16) g → (j < length parity)%nat →
  is_Some (repair_byte r g parity j).
Proof.
  intros Hr Hok Hg Hj. unfold repair_byte.
  destruct (lookup_lt_is_Some_2 parity j) as [p ->]; [done|]. cbn [mbind option_bind].
  revert p. induction g as [|k g IH]; intros p; simpl; [eauto|].
  apply Forall_cons in Hg as [Hk Hg].
  destruct (lookup_lt_is_Some_2 r (Z.to_nat k)) as [b Hb]; [lia|]. rewrite Hb. simpl.
  pose proof (Forall_lookup_1 _ _ _ _ Hok Hb) as [Hbl Hbn _ _ _ _].
  case_match; [|by apply IH].
  destruct (lookup_lt_is_Some_2 (r_buf b) j) as [c ->]; [lia|]. simpl. by apply IH.
Qed.

(** The state of the repair loops. *)
Definition repair_inv (st : ast_udptl * list bool) : Prop :=
  session_ok st.1 ∧ length st.2 = 16%nat ∧
  ∀ j b, st.2 !! j = Some true → rx st.1 !! j = Some b → 0 <= r_buf_len b.

Lemma try_repair_ok seq_no l m st :
  repair_inv st → 0 <= l < 16 → 0 <= m < 5 →
  ∃ st', try_repair seq_no l m st = Some st' ∧ repair_inv st' ∧
    rx_seq_no st'.1 = rx_seq_no st.1.
Proof.
  destruct st as [s rep]. intros (Hs & Hrl & Hrep) Hl Hm. unfold try_repair. cbn [fst snd] in *.
  destruct (session_slot_nat s l Hs Hl) as (b & Hb & Hok). rewrite Hb. cbn [mbind option_bind].
  destruct (ok_span _ Hok), (ok_entries _ Hok).
  rewrite (uwrap_small 32 (fec_span b * fec_entries b)) by nia.
  case_match; [by eexists|].
  destruct (group17_ok (Z.land (l + m) UDPTL_BUF_MASK) (fec_span b) (fec_entries b))
    as (g & -> & Hg); [rewrite land_mask; by apply Z.mod_pos_bound|].
  cbn [mbind option_bind]. destruct (so_rx _ Hs) as [Hlen Hall].
  destruct (missing_one_ok (rx s) g Hlen Hg) as (w & -> & Hw). cbn [mbind option_bind].
  destruct (Z.geb_spec w 0) as [Hw0|]; [|by eexists].
  destruct (ok_fec_lens _ Hok) as [Hfl Hfn], (ok_fecs _ Hok) as [Hfel Hfe].
  destruct (lookup_lt_is_Some_2 (fec_len b) (Z.to_nat m)) as [n Hn]; [lia|].
  destruct (lookup_lt_is_Some_2 (fec b) (Z.to_nat m)) as [parity Hp]; [lia|].
  rewrite Hn, Hp. cbn [mbind option_bind].
  pose proof (Forall_lookup_1 _ _ _ _ Hfn Hn) as Hn'. cbv beta in Hn'.
  pose proof (Forall_lookup_1 _ _ _ _ Hfe Hp) as Hp'. cbv beta in Hp'.
  assert (is_Some (mapM (repair_byte (rx s) g parity) (seq 0 (Z.to_nat n)))) as [bytes Hbytes].
  { apply mapM_is_Some_2, Forall_forall. intros j Hj%elem_of_seq.
    apply repair_byte_ok; auto. lia. }
  rewrite Hbytes. cbn [mbind option_bind]. apply length_mapM in Hbytes. rewrite length_seq in Hbytes.
  destruct (session_slot_nat s w Hs) as (bw & Hbw & Hokw); [lia|]. rewrite Hbw.
  cbn [mbind option_bind].
  destruct (copy_in_ok bytes (r_buf bw)) as (arr & -> & Harr); [rewrite (ok_buf _ Hokw); lia|].
  cbn [mbind option_bind]. eexists. split; [done|].
  assert (slot w = Z.to_nat w) as Ew by (unfold slot; rewrite land_mask, Z.mod_small; lia).
  split; [|done]. split_and!; simpl.
  - apply upd_slot_ok; [done|]. rewrite Ew, Hbw. intros b' [= <-] []. constructor; simpl; auto; try lia.
  - by rewrite length_insert.
  - rewrite Ew. intros j b' Hj Hb'. destruct (decide (Z.to_nat w = j)) as [<-|].
    + rewrite list_lookup_alter_eq, Hbw in Hb'. simplify_eq/=. lia.
    + rewrite list_lookup_insert_ne in Hj by done. rewrite list_lookup_alter_ne in Hb' by done. eauto.
Qed.

Lemma try_entries_ok seq_no l : 0 <= l < 16 → ∀ n m st,
  repair_inv st → 0 <= m → m + Z.of_nat n <= 5 →
  ∃ st', try_entries n seq_no l m st = Some st' ∧ repair_inv st' ∧
    rx_seq_no st'.1 = rx_seq_no st.1.
Proof.
  intros Hl. induction n as [|n IH]; intros m st Hst Hm Hn; [by eexists|]. simpl.
  destruct (try_repair_ok seq_no l m st) as (st1 & -> & H1 & E1); auto; [lia|].
  cbn [mbind option_bind]. destruct (IH (m + 1) st1) as (st2 & -> & H2 & E2); auto; [lia..|].
  eexists. split; [done|]. split; [done|congruence].
Qed.

Lemma repair_loop_ok seq_no stop : 0 <= stop < 16 → ∀ (d fuel : nat) st,
  (d < fuel)%nat → repair_inv st →
  ∃ st', repair_loop fuel seq_no ((stop + Z.of_nat d) mod 16) stop st = Some st' ∧
    repair_inv st' ∧ rx_seq_no st'.1 = rx_seq_no st.1.
Proof.
  intros Hs. induction d as [|d IH]; intros [|fuel] st Hf Hst; try lia; cbn [repair_loop].
  - rewrite Z.add_0_r, Z.mod_small, Z.eqb_refl by lia. by eexists.
  - case_match; [by eexists|].
    pose proof (Z.mod_pos_bound (stop + Z.of_nat (S d)) 16) as Hb.
    destruct st as [s rep]. destruct Hst as (Hs1 & Hst2).
    destruct (session_slot_nat s ((stop + Z.of_nat (S d)) mod 16) Hs1) as (b & Hbx & Hok); [lia|].
    cbn [fst snd]. rewrite Hbx. cbn [mbind option_bind]. destruct (ok_fec_lens _ Hok) as [Hfl Hfn].
    destruct (lookup_lt_is_Some_2 (fec_len b) 0) as [n0 ->]; [lia|]. cbn [mbind option_bind].
    assert (∃ st1, (if n0 <=? 0 then Some (s, rep)
      else try_entries (Z.to_nat (fec_entries b)) seq_no ((stop + Z.of_nat (S d)) mod 16) 0 (s, rep))
      = Some st1 ∧ repair_inv st1 ∧ rx_seq_no st1.1 = rx_seq_no s) as (st1 & -> & H1 & E1).
    { case_match; [by eexists|]. destruct (ok_entries _ Hok).
      refine (try_entries_ok seq_no _ _ _ 0 (s, rep) _ _ _); [lia|done|lia|lia]. }
    cbn [mbind option_bind]. rewrite land_mask, Zminus_mod_idemp_l.
    replace (stop + Z.of_nat (S d) - 1) with (stop + Z.of_nat d) by lia.
    destruct (IH fuel st1) as (st2 & -> & H2 & E2); [lia|done|]. eexists. split; [done|].
    split; [done|congruence].
Qed.

Lemma play_repaired_ok s rep x : repair_inv (s, rep) → 0 <= x < 16 →
  ∀ (d fuel : nat) j fs, (d < fuel)%nat → (length fs + d <= 15)%nat →
  ∃ fs', play_repaired fuel ((x - Z.of_nat d) mod 16) j x s rep fs = Some fs' ∧
    (length fs' <= length fs + d)%nat.
Proof.
  intros (Hs & Hrl & Hrep) Hx. simpl in *.
  induction d as [|d IH]; intros [|fuel] j fs Hf Hn; try lia; cbn [play_repaired].
  { rewrite Z.sub_0_r, Z.mod_small, Z.eqb_refl by lia. exists fs. split; [done|lia]. }
  case_match; [exists fs; split; [done|lia]|].
  pose proof (Z.mod_pos_bound (x - Z.of_nat (S d)) 16) as Hl.
  rewrite land_mask, Zplus_mod_idemp_l.
  replace (x - Z.of_nat (S d) + 1) with (x - Z.of_nat d) by lia.
  set (l := (x - Z.of_nat (S d)) mod 16) in *. clearbody l.
  destruct (lookup_lt_is_Some_2 rep (Z.to_nat l)) as [r Hr]; [lia|]. rewrite Hr.
  cbn [mbind option_bind].
  assert (∃ fs1, (if (r : bool) then b ← rx s !! Z.to_nat l;
      bytes ← slice (r_buf b) 0 (r_buf_len b); push_frame fs j bytes else Some fs) = Some fs1 ∧
      (length fs1 <= length fs + 1)%nat) as (fs1 & -> & Hl1).
  { destruct r; [|exists fs; split; [done|lia]].
    destruct (session_slot_nat s l Hs) as (b & Hb & Hok); [lia|]. rewrite Hb. cbn [mbind option_bind].
    pose proof (Hrep _ _ Hr Hb). pose proof (ok_buf _ Hok). pose proof (ok_len _ Hok).
    destruct (slice_ok (r_buf b) 0 (r_buf_len b)) as (bytes & -> & _); [lia..|].
    cbn [mbind option_bind]. unfold push_frame, NFRAMES. case_match; [|lia].
    eexists. split; [done|]. rewrite length_app. simpl. lia. }
  cbn [mbind option_bind].
  destruct (IH fuel (j + 1) fs1) as (fs2 & -> & ?); [lia|lia|]. eexists. split; [done|]. lia.
Qed.

Lemma rx_fec_ok s buf ptr seq_no ifp :
  session_ok s → Forall is_byte buf → Z.of_nat (length buf) < 2 ^ 30 → 0 <= ptr <= Z.of_nat (length buf) →
  0 <= seq_no < 2 ^ 30 →
  ∃ r s', rx_fec s buf (Z.of_nat (length buf)) ptr seq_no ifp = Some (r, s') ∧
    match r with
    | inl e => e = -1
    | inr fs => (length fs <= 15)%nat ∧ session_ok s'
    end.
Proof.
  intros Hs Hb Hl Hp Hq. unfold rx_fec, LOCAL_FAX_MAX_DATAGRAM.
  destruct (Z.gtb_spec (Z.of_nat (length ifp)) 1400); [by eexists _, _|].
  pose proof (so_seq _ Hs) as Hsq. rewrite (uwrap_small 32 seq_no) by lia.
  destruct (mark_missed_ok (Z.to_nat (seq_no - rx_seq_no s)) s Hs) as [Hs1 E1]; [lia|].
  set (s1 := mark_missed _ s) in *. clearbody s1.
  set (x := Z.land seq_no UDPTL_BUF_MASK).
  assert (0 <= x < 16) as Hx by (unfold x; rewrite land_mask; by apply Z.mod_pos_bound).
  destruct (session_slot s1 x Hs1) as (b & Hbx & Hok). rewrite Hbx. cbn [mbind option_bind].
  destruct (copy_in_ok ifp (r_buf b)) as (arr & -> & Harr); [rewrite (ok_buf _ Hok); lia|].
  cbn [mbind option_bind].
  set (s2 := upd_slot x _ s1).
  assert (session_ok s2) as Hs2.
  { apply upd_slot_ok; [done|]. rewrite Hbx. intros ? [= <-] []. constructor; simpl; auto; lia. }
  rewrite (uwrap_small 32 (ptr + 2)), (uwrap_small 32 (ptr + 3)) by lia.
  destruct (Z.gtb_spec (ptr + 2) (Z.of_nat (length buf))); [by eexists _, _|].
  destruct (byte_at_lt buf ptr) as [one ->]; [lia|]. cbn [mbind option_bind].
  destruct (negb (one =? 1)); [by eexists _, _|].
  destruct (byte_at_lt buf (ptr + 1)) as [span Hspan]; [lia|]. rewrite Hspan. cbn [mbind option_bind].
  pose proof (byte_at_byte _ _ _ Hb Hspan) as Hsp. unfold is_byte in Hsp.
  destruct (Z.gtb_spec (ptr + 3) (Z.of_nat (length buf))); [by eexists _, _|].
  destruct (byte_at_lt buf (ptr + 2)) as [entries Hent]; [lia|]. rewrite Hent. cbn [mbind option_bind].
  pose proof (byte_at_byte _ _ _ Hb Hent) as He. unfold is_byte in He. unfold MAX_FEC_ENTRIES.
  destruct (Z.gtb_spec entries 5); [by eexists _, _|].
  set (s3 := upd_slot x (upd_fec_entries _) _).
  assert (session_ok s3) as Hs3.
  { apply upd_slot_ok; [apply upd_slot_ok; [done|]|]; intros ? _ []; constructor; simpl; auto; lia. }
  destruct (fec_entries_loop_ok buf Hb Hl (Z.to_nat entries) 0 (ptr + 3) x s3 Hs3)
    as (ok & s4 & -> & Hs4); [lia..|]. cbn [mbind option_bind].
  destruct ok; simpl negb; cbn iota; [|by eexists _, _].
  destruct (Hs4 eq_refl) as (Hs4' & E4 & Hlens).
  set (stop := Z.land (x - (16 - span * entries)) UDPTL_BUF_MASK).
  assert (0 <= stop < 16) as Hstop by (unfold stop; rewrite land_mask; by apply Z.mod_pos_bound).
  set (rep := <[slot x := true]> (replicate 16 false)).
  assert (repair_inv (s4, rep)) as Hinv.
  { split_and!; cbn [fst snd]; [done|unfold rep; by rewrite length_insert, length_replicate|].
    intros j b' Hj Hb'. unfold rep in Hj. destruct (decide (slot x = j)) as [<-|].
    - destruct (Hlens (slot x) (upd_fec_entries (λ _, entries) (upd_fec_span (λ _, span)
        (upd_r_buf_len (λ _, Z.of_nat (length ifp)) (upd_r_buf (λ _, arr) b)))))
        as (b2 & Hb2 & E2).
      { simpl. by rewrite !list_lookup_alter_eq, Hbx. }
      simplify_eq. rewrite E2. simpl. lia.
    - rewrite list_lookup_insert_ne in Hj by done. by apply lookup_replicate_1 in Hj as [? _]. }
  destruct (repair_loop_ok seq_no stop Hstop (Z.to_nat ((x - stop) mod 16)) 17 (s4, rep))
    as ([s5 rep5] & Hrl & Hinv5 & E5);
    [pose proof (Z.mod_pos_bound (x - stop) 16); lia|done|].
  rewrite Z2Nat.id in Hrl by (by apply Z.mod_pos_bound).
  rewrite Zplus_mod_idemp_r in Hrl. replace (stop + (x - stop)) with x in Hrl by lia.
  rewrite (Z.mod_small x 16) in Hrl by lia. fold x stop rep. rewrite Hrl. cbn [mbind option_bind].
  destruct (play_repaired_ok s5 rep5 x Hinv5 Hx 15 16 (seq_no - UDPTL_BUF_MASK) [])
    as (fs & Hpl & Hfs); [lia|simpl; lia|].
  replace (Z.land (x + 1) UDPTL_BUF_MASK) with ((x - Z.of_nat 15) mod 16).
  2:{ rewrite land_mask. replace (x - Z.of_nat 15) with (x + 1 + (-1) * 16) by lia. by rewrite Z.mod_add. }
  rewrite Hpl. cbn [mbind option_bind]. eexists _, _. split; [done|]. simpl.
  destruct Hinv5 as (? & _). split; [simpl in Hfs; lia|done].
Qed.

Lemma udptl_rx_packet_ok s buf :
  session_ok s → Forall is_byte buf → Z.of_nat (length buf) < 2 ^ 30 →
  ∃ n fs s', udptl_rx_packet s buf = Some (n, fs, s') ∧
    (n = -1 ∧ fs = [] ∨ n = Z.of_nat (length fs) ∧ n <= 16 ∧ session_ok s').
Proof.
  intros Hs Hb Hl. unfold udptl_rx_packet, rx_primary.
  destruct (Z.gtb_spec 2 (Z.of_nat (length buf))); [eexists _, _, _; split; [done|]; by left|].
  destruct (byte_at_lt buf 0) as [b0 H0]; [lia|]. destruct (byte_at_lt buf 1) as [b1 H1]; [lia|].
  rewrite H0, H1. cbn [mbind option_bind].
  pose proof (byte_at_byte _ _ _ Hb H0) as Hb0. pose proof (byte_at_byte _ _ _ Hb H1) as Hb1.
  unfold is_byte in *. rewrite lor_shiftl_add by lia.
  set (seq := b0 * 2 ^ 8 + b1). assert (0 <= seq < 2 ^ 16) as Hq by (unfold seq; lia).
  clearbody seq.
  assert (∃ q s1, (if (seq <? 15) && (rx_seq_no s >? 65520) then (seq + 65536, s)
      else (seq, upd_rx_seq_no (λ q, Z.land q 65535) s)) = (q, s1) ∧ 0 <= q < 2 ^ 17 ∧
      session_ok s1) as (q & s1 & -> & Hq' & Hs1).
  { case_match; (eexists _, _; split; [done|]); (split; [lia|]); [done|].
    destruct Hs. constructor; simpl; [done|].
    change 65535 with (Z.ones 16). rewrite Z.land_ones by lia.
    pose proof (Z.mod_pos_bound (rx_seq_no s) (2 ^ 16)). lia. }
  destruct (decode_open_type_ok buf Hb Hl 2) as (st & ptr & off & n & -> & Hst); [lia|].
  cbn [mbind option_bind]. destruct (Z.eqb_spec st 0) as [->|]; simpl negb; cbn iota.
  2:{ eexists _, _, _; split; [done|]; by left. }
  destruct Hst as [|(_ & ? & ? & ? & ?)]; [lia|]. rewrite (uwrap_small 32 (ptr + 1)) by lia.
  destruct (Z.gtb_spec (ptr + 1) (Z.of_nat (length buf))); [eexists _, _, _; split; [done|]; by left|].
  destruct (byte_at_lt buf ptr) as [mode ->]; [lia|]. cbn [mbind option_bind].
  destruct (slice_ok buf off n) as (ifp & -> & Hifp); [lia..|]. cbn [mbind option_bind].
  assert (∃ r s2, (if Z.land mode 128 =? 0 then
      r ← rx_secondary s1 buf (Z.of_nat (length buf)) (ptr + 1) q; Some (r, s1)
    else rx_fec s1 buf (Z.of_nat (length buf)) (ptr + 1) q ifp) = Some (r, s2) ∧
    match r with inl e => e = -1 | inr fs => (length fs <= 15)%nat ∧ session_ok s2 end)
    as (r & s2 & -> & Hr).
  { case_match.
    - destruct (rx_secondary_ok buf Hb Hl s1 (ptr + 1) q) as (r & -> & Hr); [lia|].
      cbn [mbind option_bind]. eexists _, _. split; [done|]. destruct r; [done|]. by split.
    - apply rx_fec_ok; auto; lia. }
  cbn [mbind option_bind]. destruct r as [e|fs]; [subst e; eexists _, _, _; split; [done|]; by left|].
  destruct Hr as [Hfs Hs2]. rewrite (uwrap_small 32 q), (uwrap_small 32 (q + 1)) by lia.
  assert (∃ fs', (if q >=? rx_seq_no s2 then push_frame fs q ifp else Some fs) = Some fs' ∧
    (length fs' <= 16)%nat) as (fs' & -> & Hfs').
  { case_match; [|eexists; split; [done|lia]]. unfold push_frame, NFRAMES. case_match; [|lia].
    eexists. split; [done|]. rewrite length_app; simpl. lia. }
  cbn [mbind option_bind]. eexists _, _, _. split; [done|]. right. split_and!; [done|lia|].
  destruct Hs2. constructor; simpl; [done|lia].
Qed.

(** ** Coding round trips *)

(** [lia] with the equations of quotients and remainders. *)
#[local] Ltac dlia := Z.to_euclidean_division_equations; lia.

(** The length field of an object shorter than 16K, and the coded object. *)
Definition len_bytes (n : Z) : list Z :=
  if n <? 128 then [n] else [128 + n / 256; n mod 256].

Definition coded (d : list Z) : list Z := len_bytes (Z.of_nat (length d)) ++ d.

Lemma length_len_bytes n : (1 <= length (len_bytes n) <= 2)%nat.
Proof. unfold len_bytes. case_match; simpl; lia. Qed.

Lemma length_coded d : (length d + 1 <= length (coded d) <= length d + 2)%nat.
Proof. unfold coded. rewrite length_app. pose proof (length_len_bytes (Z.of_nat (length d))). lia. Qed.

Lemma put_byte_ok cap out b :
  Z.of_nat (length out) < cap → 0 <= b < 256 → put_byte cap out b = Some (out ++ [b]).
Proof. intros. unfold put_byte. case_match; [|exfalso; lia]. by rewrite uwrap_small. Qed.

Lemma encode_length_ok cap out n :
  0 <= n < 16384 → Z.of_nat (length out) + Z.of_nat (length (len_bytes n)) <= cap →
  encode_length cap out n = Some (n, out ++ len_bytes n).
Proof.
  intros Hn Hc. unfold encode_length, len_bytes in *. destruct (Z.ltb_spec n 128); simpl in Hc.
  { rewrite put_byte_ok by lia. done. }
  destruct (Z.ltb_spec n 16384); [|lia].
  assert (Z.land (Z.shiftr (Z.lor 32768 n) 8) 255 = 128 + n / 256) as ->.
  { change 32768 with (Z.shiftl 2 14). rewrite lor_shiftl_add by lia.
    rewrite Z.shiftr_div_pow2 by lia. change 255 with (Z.ones 8). rewrite Z.land_ones by lia.
    change (2 ^ 8) with 256. change (2 * 2 ^ 14) with 32768. dlia. }
  rewrite put_byte_ok by dlia. cbn [mbind option_bind].
  change 255 with (Z.ones 8). rewrite Z.land_ones by lia. change (2 ^ 8) with 256.
  rewrite put_byte_ok by (rewrite ?length_app; cbn [length]; dlia). cbn [mbind option_bind].
  by rewrite <- (assoc_L (++)).
Qed.

Lemma slice_app (a b c : list Z) :
  slice (a ++ b ++ c) (Z.of_nat (length a)) (Z.of_nat (length b)) = Some b.
Proof.
  unfold slice. rewrite !length_app. case_match.
  2:{ rewrite !andb_false_iff, !Z.leb_gt in H. lia. }
  rewrite !Nat2Z.id, drop_app_length, take_app_length. done.
Qed.

Lemma slice_all (a b : list Z) : slice (a ++ b) 0 (Z.of_nat (length a)) = Some a.
Proof. apply (slice_app [] a b). Qed.

(** Encoding appends the coded object when it fits. *)
Lemma encode_open_type_ok cap out d rest :
  (0 < length d)%nat → Z.of_nat (length d) < 16384 →
  Z.of_nat (length out) + Z.of_nat (length (coded d)) <= cap →
  encode_open_type cap out (d ++ rest) (Z.of_nat (length d)) = Some (0, out ++ coded d).
Proof.
  intros Hd Hs Hc. unfold encode_open_type. destruct (Z.eqb_spec (Z.of_nat (length d)) 0); [lia|].
  cbn [encode_fragments]. unfold coded in *. rewrite length_app in Hc.
  rewrite encode_length_ok by lia. cbn [mbind option_bind]. rewrite length_app.
  destruct (Z.gtb_spec (Z.of_nat (length d) + Z.of_nat (length out + length (len_bytes (Z.of_nat (length d))))) cap);
    [lia|].
  rewrite slice_all. cbn [mbind option_bind]. case_match; [|exfalso; lia].
  by rewrite <- (assoc_L (++)).
Qed.

Section Read.
Context (buf : list Z).
Abbreviation limit := (Z.of_nat (length buf)).

Lemma byte_at_drop i b l :
  0 <= i → drop (Z.to_nat i) buf = b :: l → byte_at buf i = Some b ∧ i < limit ∧
    drop (Z.to_nat (i + 1)) buf = l.
Proof.
  intros Hi Hd. assert (buf !! Z.to_nat i = Some b) as Hb.
  { rewrite <- (Nat.add_0_r (Z.to_nat i)), <- lookup_drop, Hd. done. }
  unfold byte_at. destruct (Z.ltb_spec i 0); [lia|]. split; [done|].
  pose proof (lookup_lt_Some _ _ _ Hb). split; [lia|].
  rewrite (drop_S _ _ _ Hb) in Hd. injection Hd as <-. f_equal. lia.
Qed.

Lemma slice_drop i d l :
  0 <= i <= limit → drop (Z.to_nat i) buf = d ++ l →
  slice buf i (Z.of_nat (length d)) = Some d ∧ i + Z.of_nat (length d) <= limit ∧
  drop (Z.to_nat (i + Z.of_nat (length d))) buf = l.
Proof.
  intros Hi Hd. pose proof (f_equal length Hd) as Hl. rewrite length_drop, length_app in Hl.
  split_and!; [|lia|].
  - unfold slice. case_match; [|exfalso; lia]. by rewrite Hd, Nat2Z.id, take_app_length.
  - replace (Z.to_nat (i + Z.of_nat (length d))) with (Z.to_nat i + length d)%nat by lia.
    by rewrite <- drop_drop, Hd, drop_app_length.
Qed.

Lemma decode_length_coded len n l :
  0 <= len → limit < 2 ^ 30 → 0 <= n < 16384 → drop (Z.to_nat len) buf = len_bytes n ++ l →
  decode_length buf limit len = Some (0, len + Z.of_nat (length (len_bytes n)), n) ∧
  len + Z.of_nat (length (len_bytes n)) <= limit ∧
  drop (Z.to_nat (len + Z.of_nat (length (len_bytes n)))) buf = l.
Proof.
  intros Hl Hlim Hn Hd. unfold decode_length, len_bytes in *.
  destruct (Z.ltb_spec n 128); cbn [length app] in *.
  - destruct (byte_at_drop len n l Hl Hd) as (-> & Hlt & Hr). cbn [mbind option_bind].
    destruct (Z.geb_spec len limit); [lia|].
    assert (Z.land n 128 = 0) as ->; [|split_and!; [done|lia|done]].
    rewrite <- (Z.mod_small n (2 ^ 7)), <- Z.land_ones, <- Z.land_assoc by lia. apply Z.land_0_r.
  - destruct (byte_at_drop len _ _ Hl Hd) as (-> & Hlt & Hr). cbn [mbind option_bind].
    destruct (byte_at_drop (len + 1) _ _ ltac:(lia) Hr) as (-> & Hlt' & Hr'). cbn [mbind option_bind].
    destruct (Z.geb_spec len limit); [lia|].
    set (q := n / 256). assert (0 <= q < 64) as Hq by (unfold q; dlia).
    assert (128 + q = Z.lor (Z.shiftl 1 7) q) as E1 by (rewrite lor_shiftl_add; lia).
    assert (∀ m, 0 <= m → Z.land q (Z.shiftl m 6) = 0) as Ez.
    { intros m Hm. rewrite <- (Z.mod_small q (2 ^ 6)), <- Z.land_ones by lia.
      apply Z.bits_inj'. intros k Hk. rewrite !Z.land_spec, Z.bits_0.
      destruct (decide (k < 6)).
      - by rewrite Z.shiftl_spec_low, andb_false_r.
      - rewrite (Z.ones_spec_high 6 k), andb_false_r by lia. done. }
    assert (Z.land (128 + q) 128 = 128) as ->.
    { rewrite E1, Z.land_lor_distr_l. change 128 with (Z.shiftl 2 6) at 2.
      rewrite Ez by lia. done. }
    assert (Z.land (128 + q) 64 = 0) as ->.
    { rewrite E1, Z.land_lor_distr_l. change 64 with (Z.shiftl 1 6) at 2.
      rewrite Ez by lia. done. }
    assert (Z.land (128 + q) 63 = q) as ->.
    { rewrite E1, Z.land_lor_distr_l. change 63 with (Z.ones 6). rewrite !Z.land_ones by lia.
      rewrite (Z.mod_small q) by lia. done. }
    simpl (128 =? 0). simpl (0 =? 0). cbn iota. rewrite uwrap_small by lia.
    destruct (Z.eqb_spec len (limit - 1)); [lia|].
    rewrite lor_shiftl_add by dlia. change (2 ^ 8) with 256.
    replace (len + Z.of_nat 2) with (len + 2) by lia.
    replace (len + 1 + 1) with (len + 2) in Hr' by lia.
    split_and!; [|lia|done]. unfold q. do 2 f_equal. dlia.
Qed.

Lemma decode_open_type_coded len d l :
  0 <= len → limit < 2 ^ 30 → Z.of_nat (length d) < 16384 →
  drop (Z.to_nat len) buf = coded d ++ l →
  ∃ off, decode_open_type buf limit len =
      Some (0, len + Z.of_nat (length (coded d)), off, Z.of_nat (length d)) ∧
    slice buf off (Z.of_nat (length d)) = Some d ∧
    len + Z.of_nat (length (coded d)) <= limit ∧
    drop (Z.to_nat (len + Z.of_nat (length (coded d)))) buf = l.
Proof.
  intros Hl Hlim Hn Hd. unfold coded in *. rewrite <- (assoc_L (++)) in Hd.
  destruct (decode_length_coded len (Z.of_nat (length d)) (d ++ l)) as (Hdl & Hle & Hr); [lia..|done|].
  unfold decode_open_type. rewrite Hdl. cbn [mbind option_bind]. simpl negb. cbn iota.
  destruct (slice_drop (len + Z.of_nat (length (len_bytes (Z.of_nat (length d))))) d l)
    as (Hs & Hle' & Hr'); [lia|done|].
  rewrite length_app. rewrite uwrap_small by lia.
  destruct (Z.gtb_spec (len + Z.of_nat (length (len_bytes (Z.of_nat (length d)))) + Z.of_nat (length d)) limit);
    [lia|].
  eexists. split_and!; [|exact Hs|lia|].
  - do 4 f_equal. lia.
  - rewrite <- Hr'. do 2 f_equal. lia.
Qed.
End Read.

(** ** Redundancy *)

Fixpoint send_all (s : ast_udptl) (cap : Z) (ifps : list (list Z)) : option (list (list Z)) :=
  match ifps with
  | [] => Some []
  | d :: ifps =>
    '(p, s) ← udptl_build_packet s cap d;
    p ← p;
    ps ← send_all s cap ifps;
    Some (p :: ps)
  end.

Fixpoint receive_all (s : ast_udptl) (pkts : list (list Z)) : option (list udptl_frame) :=
  match pkts with
  | [] => Some []
  | p :: pkts =>
    '(_, fs, s) ← udptl_rx_packet s p;
    fs' ← receive_all s pkts;
    Some (fs ++ fs')
  end.

(** The packets before the [q]th that its datagram carries, newest first. *)
Definition history (e : nat) (ifps : list (list Z)) (q : nat) :
    list (list Z) := take e (reverse (take q ifps)).

Fixpoint coded_all (ds : list (list Z)) : list Z :=
  match ds with
  | [] => []
  | d :: ds => coded d ++ coded_all ds
  end.

(** The datagram of the [q]th packet; its sequence number has 16 bits. *)
Definition packet (e : nat) (ifps : list (list Z)) (q : nat) (d : list Z) :
    list Z :=
  [Z.of_nat q mod 65536 / 256; Z.of_nat q mod 256] ++ coded d ++
  [0; Z.of_nat (length (history e ifps q))] ++ coded_all (history e ifps q).

(** The received positions, none more than [e] beyond the next expected one. *)
Fixpoint gaps_ok (e p : nat) (qs : list nat) : Prop :=
  match qs with
  | [] => True
  | q :: qs => (p <= q <= p + e)%nat ∧ gaps_ok e (S q) qs
  end.

(** The position expected after the positions [qs]. *)
Fixpoint next_after (p : nat) (qs : list nat) : nat :=
  match qs with
  | [] => p
  | q :: qs => next_after (S q) qs
  end.

(** The frames of the packets [p .. p + n). *)
Definition frames_of (ifps : list (list Z)) (p n : nat) : list udptl_frame :=
  (λ i, UdptlFrame (Z.of_nat i) (ifps !!! i)) <$> seq p n.

Definition ifp_ok (m : Z) (d : list Z) : Prop :=
  (0 < length d)%nat ∧ Z.of_nat (length d) <= m.

Section Recover.
Context (buf : list Z) (Hlim : Z.of_nat (length buf) < 2 ^ 30).
Abbreviation limit := (Z.of_nat (length buf)).
Abbreviation slices := (Forall2 (λ (p : Z * Z) d, slice buf p.1 p.2 = Some d)).

Lemma secondaries_coded total l : ∀ ds fuel ptr i bufs,
  Forall (ifp_ok 1400) ds → 0 <= ptr → 0 <= i → 0 <= total →
  total + i + Z.of_nat (length ds) <= 15 → (length ds < fuel)%nat →
  drop (Z.to_nat ptr) buf = coded_all ds ++ l →
  ∃ ptr' offs, secondaries fuel buf limit ptr i (i + Z.of_nat (length ds)) total bufs =
      Some (inr (ptr', i + Z.of_nat (length ds), bufs ++ offs)) ∧ slices offs ds.
Proof.
  induction ds as [|d ds IH]; intros [|fuel] ptr i bufs Hds Hp Hi Ht Hn Hf Hd; simpl in Hf; try lia.
  - cbn [secondaries length]. rewrite Z.add_0_r, Z.ltb_irrefl. simpl.
    exists ptr, []. rewrite app_nil_r. split; [done|constructor].
  - apply Forall_cons in Hds as [[Hd0 Hd1] Hds]. cbn [secondaries]. unfold NFRAMES.
    destruct ((i <? i + Z.of_nat (length (d :: ds))) && (total + i <? 16 - 1)) eqn:Ec.
    2:{ rewrite andb_false_iff, !Z.ltb_ge in Ec. simpl length in *. lia. }
    simpl in Hd. rewrite <- (assoc_L (++)) in Hd.
    destruct (decode_open_type_coded buf ptr d (coded_all ds ++ l))
      as (off & -> & Hsl & Hle & Hr); [lia..|done|].
    cbn [mbind option_bind]. simpl negb. cbn iota.
    destruct (Z.eqb_spec (Z.of_nat (length d)) 0); [lia|].
    simpl length. replace (i + Z.of_nat (S (length ds))) with (i + 1 + Z.of_nat (length ds)) by lia.
    destruct (IH fuel (ptr + Z.of_nat (length (coded d))) (i + 1) (bufs ++ [(off, Z.of_nat (length d))]))
      as (ptr' & offs & -> & Hsl'); try done; try lia.
    { simpl length in Hn. lia. }
    exists ptr', ((off, Z.of_nat (length d)) :: offs). rewrite <- (assoc_L (++)).
    split; [done|]. by constructor.
Qed.

(** The frames delivered for the first [k] packets of the history [h]. *)
Fixpoint lost_frames (q p : Z) (h : list (list Z)) (k : nat) : list udptl_frame :=
  match k with
  | O => []
  | S i =>
    (if q - Z.of_nat k >=? p then [UdptlFrame (q - Z.of_nat k) (h !!! i)] else []) ++
    lost_frames q p h i
  end.

Lemma deliver_coded q p bufs h : slices bufs h → ∀ k fs,
  (k <= length h)%nat → Z.of_nat k <= q → 0 <= q < 2 ^ 31 → (length fs + k <= 15)%nat →
  deliver_secondaries k buf q p bufs fs = Some (fs ++ lost_frames q p h k).
Proof.
  intros Hsl. induction k as [|k IH]; intros fs Hk Hq Hq2 Hfs.
  { simpl. by rewrite app_nil_r. }
  cbn [deliver_secondaries lost_frames]. rewrite uwrap_small by lia.
  destruct (Z.geb_spec (q - Z.of_nat (S k)) p).
  - destruct (lookup_lt_is_Some_2 h k) as [d Hd]; [lia|].
    destruct (Forall2_lookup_r _ _ _ _ _ Hsl Hd) as ([off n] & Hb & Hs). simpl in Hs.
    rewrite Hb. cbn [mbind option_bind]. rewrite Hs. cbn [mbind option_bind].
    unfold push_frame, NFRAMES. destruct (Z.ltb_spec (Z.of_nat (length fs)) 16); [|lia].
    cbn [mbind option_bind]. rewrite IH by (rewrite ?length_app; simpl; lia).
    rewrite (list_lookup_total_correct _ _ _ Hd). by rewrite <- (assoc_L (++)).
  - cbn [mbind option_bind]. by rewrite IH by lia.
Qed.
End Recover.

(** *** Sequence numbers *)

(** The sequence number of a datagram and the expected one, as the receiver
    reads them. *)
Definition unwrap (w r : Z) : Z * Z :=
  if (w <? 0x000F) && (r >? 0xFFF0) then (w + 0x10000, r) else (w, r mod 65536).

(** [r] stands for the position [p]: modulo 65536, up to 15 beyond the wrap, and
    exactly until the first packets have gone. *)
Definition seq_rep (p r : Z) : Prop :=
  0 <= r <= 65551 ∧ r mod 65536 = p mod 65536 ∧ (r = p ∨ 16 <= r).

(** Up to 15 packets after the expected one, both are read so that they differ
    as the positions do, on either side of the wrap. *)
Lemma unwrap_spec (p q r : Z) : seq_rep p r → 0 <= p <= q → q <= p + 15 →
  ∃ q' p', unwrap (q mod 65536) r = (q', p') ∧ q' - p' = q - p ∧ 0 <= p' <= q' ∧ q' <= 65550
    ∧ q' mod 65536 = q mod 65536 ∧ (q' = q ∨ 15 <= q') ∧ seq_rep (q + 1) (q' + 1).
Proof.
  unfold seq_rep, unwrap. intros (Hr&Hm&Hor) Hpq He.
  destruct ((q mod 65536 <? 15) && (r >? 65520)) eqn:E.
  - apply andb_true_iff in E as [E1%Z.ltb_lt E2%Z.gtb_lt].
    exists (q mod 65536 + 65536), r. split; [done|]. dlia.
  - apply andb_false_iff in E as [E%Z.ltb_ge|E].
    + exists (q mod 65536), (r mod 65536). split; [done|]. dlia.
    + assert (r <= 65520) by (by destruct (Z.gtb_spec r 65520)).
      exists (q mod 65536), (r mod 65536). split; [done|]. dlia.
Qed.

(** Receiving the datagram of the [q]th packet when the [p]th is expected. *)
Lemma rx_packet_redundant s d h (w q p : Z) :
  0 <= w < 65536 → unwrap w (rx_seq_no s) = (q, p) → 0 <= p <= q → q <= 65550 →
  Z.of_nat (length h) <= q → (length h <= 15)%nat → Forall (ifp_ok 1400) (d :: h) →
  udptl_rx_packet s ([w / 256; w mod 256] ++ coded d ++ [0; Z.of_nat (length h)] ++
    coded_all h) =
  let fs := (if q >? p then lost_frames q p h (length h) else []) ++ [UdptlFrame q d] in
  Some (Z.of_nat (length fs), fs, upd_rx_seq_no (λ _, q + 1) s).
Proof.
  intros Hw Hp Hpq Hq Hhq Hh15 Hok. cbv zeta.
  apply Forall_cons in Hok as [[Hd0 Hd1] Hh].
  set (tail := [0; Z.of_nat (length h)] ++ coded_all h).
  set (buf := [w / 256; w mod 256] ++ coded d ++ tail).
  assert (length (coded_all h) <= 15 * 1402)%nat as Hjoin.
  { assert (length (coded_all h) <= length h * 1402)%nat; [|lia].
    clear -Hh. induction Hh as [|x h [? ?] _ IH]; [simpl; lia|]. cbn [coded_all].
    rewrite length_app. pose proof (length_coded x). simpl length. lia. }
  pose proof (length_coded d) as Hcd.
  assert (Z.of_nat (length buf) < 2 ^ 30) as Hlim.
  { unfold buf, tail. rewrite !length_app. cbn [length]. lia. }
  assert (2 < Z.of_nat (length buf)) as Hlen.
  { unfold buf, tail. rewrite !length_app. cbn [length]. lia. }
  unfold udptl_rx_packet, rx_primary. destruct (Z.gtb_spec 2 (Z.of_nat (length buf))); [lia|].
  assert (byte_at buf 0 = Some (w / 256)) as -> by done.
  assert (byte_at buf 1 = Some (w mod 256)) as -> by done. cbn [mbind option_bind].
  rewrite lor_shiftl_add by dlia. change (2 ^ 8) with 256.
  replace (w / 256 * 256 + w mod 256) with w by dlia.
  assert (∃ s1, (if (w <? 15) && (rx_seq_no s >? 65520) then (w + 65536, s)
                 else (w, upd_rx_seq_no (λ q, Z.land q 65535) s)) = (q, s1)
    ∧ rx_seq_no s1 = p ∧ ∀ x, upd_rx_seq_no x s1 = upd_rx_seq_no (λ _, x p) s) as (s1 & -> & Hs1 & Hupd).
  { revert Hp. unfold unwrap. destruct (_ && _); intros [= <- <-]; eexists; (split; [done|]).
    - split; [done|]. intros x. by destruct s.
    - cbn [rx_seq_no upd_rx_seq_no]. change 65535 with (Z.ones 16). rewrite Z.land_ones by lia.
      split; [done|]. intros x. unfold upd_rx_seq_no; cbn. change 65535 with (Z.ones 16).
      by rewrite Z.land_ones by lia. }
  destruct (decode_open_type_coded buf 2 d tail) as (off & -> & Hsl & Hle & Hr); [lia|done|lia|done|].
  cbn [mbind option_bind]. simpl negb. cbn iota.
  set (ptr := 2 + Z.of_nat (length (coded d))) in *.
  destruct (byte_at_drop buf ptr 0 (Z.of_nat (length h) :: coded_all h))
    as (Hb & Hlt & Hr1); [lia|done|].
  rewrite uwrap_small by lia. destruct (Z.gtb_spec (ptr + 1) (Z.of_nat (length buf))); [lia|].
  rewrite Hb. cbn [mbind option_bind]. rewrite Hsl. cbn [mbind option_bind]. simpl (Z.land 0 128 =? 0).
  cbn iota. unfold rx_secondary. rewrite Hs1, !(uwrap_small 32 q) by lia.
  assert (∃ r, (if q >? p then
      r ← secondary_counts (S (length buf)) buf (Z.of_nat (length buf)) (ptr + 1) 0 [];
      match r with
      | inl e => Some (inl e)
      | inr (total_count, bufs) =>
        fs ← deliver_secondaries (Z.to_nat total_count) buf q p bufs []; Some (inr fs)
      end else Some (inr [])) = Some (inr r) ∧
      r = if q >? p then lost_frames q p h (length h) else []) as (r & -> & ->).
  { destruct (Z.gtb_spec q p); [|by eexists]. cbn [secondary_counts].
    destruct (decode_length_coded buf (ptr + 1) (Z.of_nat (length h)) (coded_all h))
      as (-> & Hle2 & Hr2); [lia|done|lia| |].
    { rewrite Hr1. unfold len_bytes. destruct (Z.ltb_spec (Z.of_nat (length h)) 128); [done|lia]. }
    cbn [mbind option_bind].
    destruct (secondaries_coded buf Hlim 0 [] h (S (length buf))
      (ptr + 1 + Z.of_nat (length (len_bytes (Z.of_nat (length h))))) 0 [])
      as (ptr' & offs & Hsec & Hoffs); try done; try lia.
    { unfold buf, tail. rewrite !length_app. cbn [length].
      assert (length h <= length (coded_all h))%nat; [|lia].
      clear. induction h as [|x h IH]; [simpl; lia|]. cbn [coded_all].
      rewrite length_app. pose proof (length_coded x). simpl length. lia. }
    { by rewrite app_nil_r. }
    cbn [app] in Hsec. rewrite !Z.add_0_l in Hsec. rewrite Hsec. cbn [mbind option_bind].
    change (0 <? 0) with false. change (0 >? 0) with false. cbn [andb mbind option_bind].
    rewrite Z.add_0_l, Nat2Z.id.
    rewrite (deliver_coded buf q p offs h Hoffs) by (simpl; lia).
    cbn [mbind option_bind app]. eexists; split; done. }
  cbn [mbind option_bind]. rewrite Hs1. destruct (Z.geb_spec q p); [|lia].
  unfold push_frame, NFRAMES.
  assert (length (if q >? p then lost_frames q p h (length h) else []) <= 15)%nat as Hll.
  { case_match; [|simpl; lia].
    assert (∀ k, length (lost_frames q p h k) <= k)%nat as Hk.
    { clear. induction k as [|k IH]; [done|]. cbn [lost_frames]. rewrite length_app.
      case_match; cbn [length]; lia. }
    specialize (Hk (length h)). lia. }
  set (r := if q >? p then lost_frames q p h (length h) else []) in *.
  destruct (Z.ltb_spec (Z.of_nat (length r)) 16); [|lia]. cbn [mbind option_bind].
  do 2 f_equal. rewrite uwrap_small by lia. apply Hupd.
Qed.

Lemma lost_frames_history e ifps (q p : nat) : (p <= q < length ifps)%nat → ∀ k,
  (k <= length (history e ifps q))%nat →
  lost_frames (Z.of_nat q) (Z.of_nat p) (history e ifps q) k =
    frames_of ifps (Nat.max p (q - k)) (Nat.min k (q - p)).
Proof.
  intros Hpq. unfold history. rewrite length_take, length_reverse, length_take.
  induction k as [|k IH]; intros Hk; [done|]. cbn [lost_frames].
  rewrite IH by lia. destruct (Z.geb_spec (Z.of_nat q - Z.of_nat (S k)) (Z.of_nat p)).
  - replace (Nat.min (S k) (q - p)) with (S (Nat.min k (q - p))) by lia.
    unfold frames_of. cbn [seq fmap list_fmap app].
    replace (Nat.max p (q - S k)) with (q - S k)%nat by lia.
    replace (S (q - S k)) with (Nat.max p (q - k))%nat by lia. f_equal. f_equal; [lia|].
    apply list_lookup_total_correct. rewrite lookup_take_lt by lia.
    rewrite reverse_lookup by (rewrite length_take; lia).
    rewrite length_take, lookup_take_lt by lia.
    replace (Nat.min q (length ifps) - S k)%nat with (q - S k)%nat by lia.
    apply list_lookup_lookup_total_lt. lia.
  - cbn [app]. f_equal; lia.
Qed.

Lemma length_history e ifps q : (q <= length ifps)%nat →
  length (history e ifps q) = Nat.min e q.
Proof. intros. unfold history. rewrite length_take, length_reverse, length_take. lia. Qed.

(** A frame with its sequence number reduced to 16 bits. *)
Definition wrap_seq (f : udptl_frame) : udptl_frame := UdptlFrame (seqno f mod 65536) (fdata f).

Lemma lost_frames_wrap (q p q' p' : Z) h k : q' - p' = q - p → q' mod 65536 = q mod 65536 →
  wrap_seq <$> lost_frames q' p' h k = wrap_seq <$> lost_frames q p h k.
Proof.
  intros Hd Hm. induction k as [|k IH]; [done|]. cbn [lost_frames]. rewrite !fmap_app, IH. f_equal.
  destruct (Z.geb_spec (q' - Z.of_nat (S k)) p'), (Z.geb_spec (q - Z.of_nat (S k)) p); try lia; [|done].
  cbn [fmap list_fmap]. unfold wrap_seq. cbn [seqno fdata]. do 2 f_equal. 
  by rewrite Zminus_mod, Hm, <- Zminus_mod.
Qed.

(** One datagram brings exactly the frames up to its own. *)
Lemma rx_packet_gap s e ifps (q p : nat) d :
  seq_rep (Z.of_nat p) (rx_seq_no s) → (p <= q <= p + e)%nat → (e <= 15)%nat →
  ifps !! q = Some d → Forall (ifp_ok 1400) ifps →
  ∃ n fs s', udptl_rx_packet s (packet e ifps q d) = Some (n, fs, s')
    ∧ wrap_seq <$> fs = wrap_seq <$> frames_of ifps p (S q - p)
    ∧ seq_rep (Z.of_nat (S q)) (rx_seq_no s').
Proof.
  intros Hs Hgap He Hd Hok. pose proof (lookup_lt_Some _ _ _ Hd) as Hq.
  pose proof (length_history e ifps q ltac:(lia)) as Hlh. unfold packet.
  destruct (unwrap_spec (Z.of_nat p) (Z.of_nat q) (rx_seq_no s) Hs ltac:(lia) ltac:(lia))
    as (q' & p' & Eu & Hd' & Hp' & Hq' & Hm & Hor & Hrep).
  replace (Z.of_nat q mod 256) with (Z.of_nat q mod 65536 mod 256) by dlia.
  rewrite (rx_packet_redundant s d (history e ifps q) (Z.of_nat q mod 65536) q' p'); try lia; try done.
  2:{ by apply Z.mod_pos_bound. }
  2:{ constructor; [by eapply Forall_lookup_1|]. unfold history.
      by apply Forall_take, Forall_reverse, Forall_take. }
  cbv zeta. eexists _, _, _. split; [done|]. split.
  2:{ cbn [rx_seq_no upd_rx_seq_no]. replace (Z.of_nat (S q)) with (Z.of_nat q + 1) by lia. done. }
  replace (S q - p)%nat with ((q - p) + 1)%nat by lia. unfold frames_of.
  rewrite seq_app, !fmap_app. replace (p + (q - p))%nat with q by lia. f_equal.
  - destruct (Z.gtb_spec q' p').
    + rewrite (lost_frames_wrap (Z.of_nat q) (Z.of_nat p)) by done.
      rewrite lost_frames_history by lia. unfold frames_of. rewrite Hlh. do 3 f_equal; lia.
    + replace (q - p)%nat with 0%nat by lia. done.
  - cbn [seq fmap list_fmap]. rewrite (list_lookup_total_correct _ _ _ Hd). unfold wrap_seq. cbn [seqno fdata].
    by rewrite Hm.
Qed.

(** What the receiver delivers for the received positions [qs]. *)
Lemma receive_all_gaps e ifps : (e <= 15)%nat →
  Forall (ifp_ok 1400) ifps → ∀ qs s (p : nat), seq_rep (Z.of_nat p) (rx_seq_no s) →
  gaps_ok e p qs → Forall (λ q, q < length ifps)%nat qs →
  ∃ fs, receive_all s ((λ q, packet e ifps q (ifps !!! q)) <$> qs) = Some fs
    ∧ wrap_seq <$> fs = wrap_seq <$> frames_of ifps p (next_after p qs - p).
Proof.
  intros He Hok. induction qs as [|q qs IH]; intros s p Hs Hg Hq.
  { exists []. simpl. by rewrite Nat.sub_diag. }
  destruct Hg as [Hgap Hg]. apply Forall_cons in Hq as [Hq0 Hq].
  destruct (rx_packet_gap s e ifps q p (ifps !!! q)) as (n & fs & s' & Hrx & Hfs & Hs'); auto.
  { apply list_lookup_lookup_total_lt. lia. }
  destruct (IH s' (S q) Hs' Hg Hq) as (fs' & Hrec & Hfs').
  exists (fs ++ fs'). split.
  { rewrite fmap_cons. cbn [receive_all]. rewrite Hrx. cbn [mbind option_bind]. by rewrite Hrec. }
  rewrite fmap_app, Hfs, Hfs', <- fmap_app. f_equal.
  cbn [next_after]. assert (S q <= next_after (S q) qs)%nat as Hlast.
  { clear -Hg. revert q Hg. induction qs as [|q' qs IH]; intros q Hg; [done|].
    destruct Hg as [? Hg]. specialize (IH q' Hg). cbn [next_after]. lia. }
  unfold frames_of. rewrite <- fmap_app. f_equal.
  replace (next_after (S q) qs - p)%nat with ((S q - p) + (next_after (S q) qs - S q))%nat by lia.
  rewrite seq_app. do 2 f_equal. lia.
Qed.

(** *** The sender *)

Record tx_inv (e : nat) (ifps : list (list Z)) (q : nat) (s : ast_udptl) :
    Prop := {
  tx_scheme : error_correction_scheme s = UDPTL_ERROR_CORRECTION_REDUNDANCY;
  tx_entries : error_correction_entries s = Z.of_nat e;
  tx_seq : tx_seq_no s = Z.of_nat q;
  tx_len : length (tx s) = 16%nat ∧ Forall (λ b, length (t_buf b) = 1400%nat) (tx s);
  tx_past i d : (i < q)%nat → (q <= i + 15)%nat → ifps !! i = Some d →
    ∃ rest, tx s !! slot (Z.of_nat i) = Some (TxBuffer (Z.of_nat (length d)) (d ++ rest));
}.

Lemma slot_mod i : slot i = Z.to_nat (i mod 16).
Proof. unfold slot. by rewrite land_mask. Qed.

Lemma slot_ne (i j : nat) : (i < j)%nat → (j <= i + 15)%nat →
  slot (Z.of_nat i) ≠ slot (Z.of_nat j).
Proof. rewrite !slot_mod. intros. dlia. Qed.

Lemma history_lookup e ifps q i :
  (q <= length ifps)%nat → (i < Nat.min e q)%nat →
  history e ifps q !! i = ifps !! (q - S i)%nat.
Proof.
  intros Hq Hi. unfold history. rewrite lookup_take_lt by lia.
  rewrite reverse_lookup by (rewrite length_take; lia).
  rewrite length_take, lookup_take_lt by lia. f_equal. lia.
Qed.

Lemma length_coded_all m ds : Forall (ifp_ok m) ds → 0 <= m →
  Z.of_nat (length (coded_all ds)) <= Z.of_nat (length ds) * (m + if m <? 128 then 1 else 2).
Proof.
  intros Hds Hm. induction Hds as [|d ds [? ?] _ IH]; [simpl; lia|]. cbn [coded_all].
  rewrite length_app. assert (Z.of_nat (length (coded d)) <= m + if m <? 128 then 1 else 2).
  { unfold coded, len_bytes. rewrite length_app.
    destruct (Z.ltb_spec (Z.of_nat (length d)) 128); destruct (Z.ltb_spec m 128); cbn [length]; lia. }
  simpl length. lia.
Qed.

Lemma coded_all_app a b : coded_all (a ++ b) = coded_all a ++ coded_all b.
Proof. induction a as [|d a IH]; [done|]. cbn [coded_all app]. by rewrite IH, (assoc_L (++)). Qed.

Lemma redundancy_loop_ok e ifps q s m cap :
  tx_inv e ifps q s → (q < length ifps)%nat → (e <= 15)%nat → Forall (ifp_ok m) ifps → m <= 1400 →
  ∀ (n i : nat) out, (i + n = Nat.min e q)%nat →
  Z.of_nat (length out) + Z.of_nat (length (coded_all (drop i (history e ifps q)))) <= cap →
  redundancy_loop n (Z.of_nat i) (Z.land (Z.of_nat q) UDPTL_BUF_MASK) cap s out =
    Some (Some (out ++ coded_all (drop i (history e ifps q)))).
Proof.
  intros Hs Hq He Hok Hm. pose proof (length_history e ifps q ltac:(lia)) as Hlh.
  induction n as [|n IH]; intros i out Hi Hc; cbn [redundancy_loop].
  { rewrite drop_ge by lia. simpl. by rewrite app_nil_r. }
  destruct (lookup_lt_is_Some_2 (history e ifps q) i) as [d Hd]; [lia|].
  pose proof Hd as Hd'. rewrite history_lookup in Hd' by lia.
  pose proof (Forall_lookup_1 _ _ _ _ Hok Hd') as [Hd0 Hd1].
  destruct (tx_past _ _ _ _ Hs (q - S i)%nat d) as (rest & Hb); [lia|lia|done|].
  assert (slot (Z.land (Z.of_nat q) UDPTL_BUF_MASK - Z.of_nat i - 1) = slot (Z.of_nat (q - S i)))
    as ->.
  { rewrite !slot_mod, land_mask. f_equal. dlia. }
  rewrite Hb. cbn [mbind option_bind t_buf t_buf_len].
  rewrite (drop_S _ _ _ Hd) in Hc |- *. cbn [coded_all] in Hc |- *. rewrite length_app in Hc.
  rewrite uwrap_small by lia. rewrite encode_open_type_ok by lia. cbn [mbind option_bind].
  change (0 <? 0) with false. cbn iota.
  replace (Z.of_nat i + 1) with (Z.of_nat (S i)) by lia.
  rewrite IH by (rewrite ?length_app; lia). by rewrite <- (assoc_L (++)).
Qed.

Lemma udptl_build_redundant e ifps q s m cap d :
  tx_inv e ifps q s → (e <= 15)%nat → Forall (ifp_ok m) ifps → m <= 1400 →
  Z.of_nat (length ifps) < 2 ^ 32 → ifps !! q = Some d →
  Z.of_nat (length (packet e ifps q d)) <= cap →
  ∃ s', udptl_build_packet s cap d = Some (Some (packet e ifps q d), s') ∧ tx_inv e ifps (S q) s'.
Proof.
  intros Hs He Hok Hm Hn Hd Hc. pose proof (lookup_lt_Some _ _ _ Hd) as Hq.
  pose proof (length_history e ifps q ltac:(lia)) as Hlh.
  pose proof (Forall_lookup_1 _ _ _ _ Hok Hd) as [Hd0 Hd1].
  destruct (tx_len _ _ _ _ Hs) as [Htl Htb].
  unfold udptl_build_packet. rewrite (tx_seq _ _ _ _ Hs).
  assert (Z.land (Z.of_nat q) 65535 = Z.of_nat q mod 65536) as ->.
  { change 65535 with (Z.ones 16). by rewrite Z.land_ones by lia. }
  assert (Z.land (Z.of_nat q mod 65536) UDPTL_BUF_MASK = Z.land (Z.of_nat q) UDPTL_BUF_MASK) as ->.
  { rewrite !land_mask. dlia. }
  set (entry := Z.land (Z.of_nat q) UDPTL_BUF_MASK).
  assert (0 <= entry < 16) as Hent by (unfold entry; rewrite land_mask; by apply Z.mod_pos_bound).
  destruct (lookup_lt_is_Some_2 (tx s) (Z.to_nat entry)) as [b Hb]; [lia|]. rewrite Hb.
  cbn [mbind option_bind]. pose proof (Forall_lookup_1 _ _ _ _ Htb Hb) as Hbl. cbv beta in Hbl.
  unfold copy_in. rewrite bool_decide_true by lia. cbn [mbind option_bind].
  set (arr := d ++ drop (length d) (t_buf b)).
  set (s1 := upd_tx _ s).
  assert (length arr = 1400%nat) as Hal.
  { unfold arr. rewrite length_app, length_drop. lia. }
  assert (slot (Z.of_nat q) = Z.to_nat entry) as Hslot by done.
  assert (tx_inv e ifps q s1) as Hs1.
  { destruct Hs as [? ? ? ? Hpast]. constructor; simpl; auto.
    - rewrite length_insert. split; [done|]. by apply Forall_insert.
    - intros i d' Hi Hi' Hd'. rewrite list_lookup_insert_ne; [by apply Hpast|].
      rewrite <- Hslot. apply not_eq_sym, slot_ne; lia. }
  assert (tx s1 !! Z.to_nat entry = Some (TxBuffer (Z.of_nat (length d)) arr)) as Hcur.
  { simpl. apply list_lookup_insert_eq. lia. }
  unfold packet in Hc. rewrite !length_app in Hc. cbn [length] in Hc.
  rewrite put_byte_ok.
  2:{ simpl. lia. }
  2:{ change 255 with (Z.ones 8). rewrite Z.land_ones by lia. by apply Z.mod_pos_bound. }
  cbn [mbind option_bind]. rewrite put_byte_ok.
  2:{ simpl. lia. }
  2:{ change 255 with (Z.ones 8). rewrite Z.land_ones by lia. by apply Z.mod_pos_bound. }
  cbn [mbind option_bind app].
  assert ([Z.land (Z.shiftr (Z.of_nat q mod 65536) 8) 255; Z.land (Z.of_nat q mod 65536) 255] =
    [Z.of_nat q mod 65536 / 256; Z.of_nat q mod 256]) as ->.
  { change 255 with (Z.ones 8). rewrite !Z.land_ones, Z.shiftr_div_pow2 by lia.
    change (2 ^ 8) with 256. f_equal; [apply Z.mod_small; dlia|]. f_equal. dlia. }
  pose proof (encode_open_type_ok cap [Z.of_nat q mod 65536 / 256; Z.of_nat q mod 256] d []) as Henc.
  rewrite app_nil_r in Henc. rewrite Henc by (cbn [length]; lia).
  cbn [mbind option_bind]. change (0 <? 0) with false. cbn iota.
  rewrite (tx_scheme _ _ _ _ Hs1), (tx_entries _ _ _ _ Hs1), (tx_seq _ _ _ _ Hs1).
  rewrite put_byte_ok by (rewrite ?length_app; cbn [length]; lia). cbn [mbind option_bind].
  assert ((if Z.of_nat q >? Z.of_nat e then Z.of_nat e else Z.of_nat q) =
    Z.of_nat (length (history e ifps q))) as ->.
  { rewrite Hlh. destruct (Z.gtb_spec (Z.of_nat q) (Z.of_nat e)); lia. }
  assert (len_bytes (Z.of_nat (length (history e ifps q))) = [Z.of_nat (length (history e ifps q))])
    as Hlb.
  { unfold len_bytes. destruct (Z.ltb_spec (Z.of_nat (length (history e ifps q))) 128); [done|lia]. }
  rewrite encode_length_ok by (rewrite ?Hlb, ?length_app; cbn [length]; lia).
  cbn [mbind option_bind]. rewrite Hlb, Nat2Z.id.
  match goal with |- context [redundancy_loop _ _ _ _ _ ?out] =>
    pose proof (redundancy_loop_ok e ifps q s1 m cap Hs1 Hq He Hok Hm
      (length (history e ifps q)) 0 out) as Hloop end.
  change (Z.of_nat 0) with 0 in Hloop. fold entry in Hloop. rewrite drop_0 in Hloop.
  rewrite Hloop by (rewrite ?length_app; cbn [length]; lia).
  cbn [mbind option_bind]. eexists. split.
  { unfold packet. rewrite <- !(assoc_L (++)). done. }
  destruct Hs1 as [? ? ? ? Hpast]. constructor; simpl; auto.
  - rewrite (tx_seq _ _ _ _ Hs), uwrap_small by lia. lia.
  - intros i d' Hi Hi' Hd'. destruct (decide (i = q)) as [->|]; [|apply Hpast; lia || done].
    simplify_eq. exists (drop (length d) (t_buf b)). rewrite Hslot. exact Hcur.
Qed.

Lemma send_all_ok e ifps m cap :
  (e <= 15)%nat → Forall (ifp_ok m) ifps → m <= 1400 → Z.of_nat (length ifps) < 2 ^ 32 →
  (∀ q d, ifps !! q = Some d → Z.of_nat (length (packet e ifps q d)) <= cap) →
  ∀ q s, tx_inv e ifps q s →
  send_all s cap (drop q ifps) =
    Some ((λ i, packet e ifps i (ifps !!! i)) <$> seq q (length ifps - q)).
Proof.
  intros He Hok Hm Hn Hcap q. remember (length ifps - q)%nat as k eqn:Ek. revert q Ek.
  induction k as [|k IH]; intros q Ek s Hs; [by rewrite drop_ge by lia|].
  destruct (lookup_lt_is_Some_2 ifps q) as [d Hd]; [lia|].
  rewrite (drop_S _ _ _ Hd). cbn [send_all seq fmap list_fmap].
  destruct (udptl_build_redundant e ifps q s m cap d) as (s' & -> & Hs'); auto.
  cbn [mbind option_bind]. rewrite (IH (S q) ltac:(lia) s' Hs'). cbn [mbind option_bind].
  by rewrite (list_lookup_total_correct _ _ _ Hd).
Qed.

(** *** Sizes *)

Lemma reduce_entries_spec dg : 8 <= dg < 2 ^ 31 → ∀ fuel entries,
  1 <= entries → Z.of_nat fuel >= entries →
  ∃ n e, reduce_entries fuel dg entries = (n, e) ∧ 1 <= e <= entries ∧
    n = (dg - 8) / (e + 1) ∧ (80 <= n ∨ e = 1).
Proof.
  intros Hdg. induction fuel as [|fuel IH]; intros entries He Hf; [lia|]. cbn [reduce_entries].
  rewrite uwrap_small by lia. rewrite Z.quot_div_nonneg by lia.
  destruct (_ && _) eqn:E.
  - apply andb_true_iff in E as [E1%Z.ltb_lt E2%Z.gtb_lt].
    destruct (IH (entries - 1)) as (n & e & -> & ? & ? & ?); [lia..|].
    exists n, e. split_and!; auto; lia.
  - exists ((dg - 8) / (entries + 1)), entries. split_and!; auto; [lia|].
    apply andb_false_iff in E as [E%Z.ltb_ge|E]; [by left|]. right. lia.
Qed.

(** Packets no longer than the calculated maximum fill no more than the
    datagram. *)
Lemma packet_fits e ifps q d F dg n :
  1 <= Z.of_nat e <= 5 → 8 <= dg → n = (dg - 8) / (Z.of_nat e + 1) →
  (80 <= n ∨ Z.of_nat e = 1) → F = n * 19 / 20 → 0 <= F →
  Forall (ifp_ok F) ifps → ifps !! q = Some d → (q < length ifps)%nat →
  Z.of_nat (length (packet e ifps q d)) <= dg.
Proof.
  intros He Hdg Hn Hor HF HF0 Hok Hd Hq.
  pose proof (length_history e ifps q ltac:(lia)) as Hlh.
  unfold packet. rewrite !length_app. cbn [length].
  assert (Forall (ifp_ok F) (history e ifps q)) as Hh
    by (unfold history; by apply Forall_take, Forall_reverse, Forall_take).
  pose proof (length_coded_all F (d :: history e ifps q)) as Hl. cbn [coded_all] in Hl.
  rewrite length_app in Hl. cbn [length] in Hl.
  specialize (Hl (Forall_cons_2 _ _ _ (Forall_lookup_1 _ _ _ _ Hok Hd) Hh) HF0).
  assert (Z.of_nat (S (length (history e ifps q))) * (F + if F <? 128 then 1 else 2) <=
    (Z.of_nat e + 1) * (F + if F <? 128 then 1 else 2)) as Hle.
  { apply Z.mul_le_mono_nonneg_r; [destruct (F <? 128); lia|lia]. }
  assert (20 * F <= 19 * n) by dlia. assert ((Z.of_nat e + 1) * n <= dg - 8) by (subst n; dlia).
  assert (1 <= Z.of_nat e ∧ Z.of_nat e <= 5) as [He1 He5] by lia.
  set (E := Z.of_nat e) in *. clearbody E.
  destruct (Z.ltb_spec F 128) as [HF1|HF1].
  - assert (20 * ((E + 1) * F) <= 19 * (dg - 8)) by nia. nia.
  - assert (20 * ((E + 1) * F) <= 19 * (dg - 8)) by nia. nia.
Qed.

(** ** Parity repair *)

(** Byte [j] of a packet padded with zeros, and the exclusive or of packets. *)
Definition at_ (d : list Z) (j : nat) : Z := default 0 (d !! j).

Definition xor_all (ds : list (list Z)) (j : nat) : Z :=
  foldr (λ d acc, Z.lxor (at_ d j) acc) 0 ds.

Definition max_length (ds : list (list Z)) : nat :=
  foldr (λ d n, Nat.max (length d) n) 0%nat ds.

Lemma at_ge d j : (length d <= j)%nat → at_ d j = 0.
Proof. intros. unfold at_. by rewrite lookup_ge_None_2. Qed.

Lemma at_app_l d rest j : (j < length d)%nat → at_ (d ++ rest) j = at_ d j.
Proof. intros. unfold at_. by rewrite lookup_app_l. Qed.

(** A transmit slot that holds the packet [d]. *)
Definition tx_holds (d : list Z) (b : tx_buffer) : Prop :=
  t_buf_len b = Z.of_nat (length d) ∧ ∃ rest, t_buf b = d ++ rest.

(** A receive slot that holds the packet [d]. *)
Definition rx_holds (d : list Z) (b : rx_buffer) : Prop :=
  r_buf_len b = Z.of_nat (length d) ∧ ∃ rest, r_buf b = d ++ rest.

Lemma xor_in_spec acc b d : tx_holds d b →
  ∃ acc', xor_in acc b = Some acc' ∧ length acc' = Nat.max (length acc) (length d) ∧
    ∀ j, at_ acc' j = Z.lxor (at_ acc j) (at_ d j).
Proof.
  intros [Hl (rest & Hb)]. unfold xor_in. rewrite Hl, Hb, Nat2Z.id, slice_all.
  cbn [mbind option_bind].
  assert (∀ j, at_ (zip_with Z.lxor acc d) j =
    if decide (j < length acc ∧ j < length d)%nat then Z.lxor (at_ acc j) (at_ d j) else 0) as Hz.
  { intros j. unfold at_. rewrite lookup_zip_with.
    destruct (acc !! j) as [x|] eqn:Ea; destruct (d !! j) as [y|] eqn:Ed; simpl;
      repeat match goal with H : _ !! _ = Some _ |- _ => apply lookup_lt_Some in H
        | H : _ !! _ = None |- _ => apply lookup_ge_None in H end; case_decide; try lia; done. }
  assert (∀ l2 j, at_ (zip_with Z.lxor acc d ++ l2) j =
    if decide (j < Nat.min (length acc) (length d))%nat then at_ (zip_with Z.lxor acc d) j
    else at_ l2 (j - Nat.min (length acc) (length d))) as Happ.
  { intros l2 j. unfold at_. case_decide.
    - rewrite lookup_app_l; [done|]. rewrite length_zip_with. lia.
    - rewrite lookup_app_r by (rewrite length_zip_with; lia). by rewrite length_zip_with. }
  case_bool_decide; (eexists; split; [done|]);
    (split; [rewrite length_app, length_zip_with, length_drop; lia|]);
    intros j; rewrite Happ, Hz; repeat case_decide; try lia; try done.
  - unfold at_ at 1. rewrite lookup_drop. rewrite (at_ge acc) by lia. rewrite Z.lxor_0_l.
    unfold at_. do 2 f_equal. lia.
  - unfold at_ at 1. rewrite lookup_drop. rewrite (at_ge d) by lia. rewrite Z.lxor_0_r.
    unfold at_. do 2 f_equal. lia.
Qed.

(** The parity the sender computes. *)
Lemma parity_of_spec s g ds :
  Forall2 (λ k d, ∃ b, tx s !! Z.to_nat k = Some b ∧ tx_holds d b) g ds →
  ∃ P, parity_of s g = Some P ∧ length P = max_length ds ∧ ∀ j, at_ P j = xor_all ds j.
Proof.
  intros H. unfold parity_of.
  assert (∀ acc, ∃ P,
    foldl (λ acc i, acc ← acc; b ← tx s !! Z.to_nat i; xor_in acc b) (Some acc) g = Some P ∧
    length P = Nat.max (length acc) (max_length ds) ∧
    ∀ j, at_ P j = Z.lxor (at_ acc j) (xor_all ds j)) as Hgen.
  { induction H as [|k d g ds (b & Hb & Hd) _ IH]; intros acc; simpl.
    - exists acc. split_and!; [done|lia|]. intros. by rewrite Z.lxor_0_r.
    - rewrite Hb. cbn [mbind option_bind].
      destruct (xor_in_spec acc b d Hd) as (acc' & -> & Hl & Hx).
      destruct (IH acc') as (P & -> & HlP & HxP). exists P. split_and!; [done|lia|].
      intros j. by rewrite HxP, Hx, Z.lxor_assoc. }
  destruct (Hgen []) as (P & -> & Hl & Hx). exists P. split_and!; [done|done|].
  intros j. rewrite Hx. apply Z.lxor_0_l.
Qed.

(** A group in which only slot [w], whose packet was [dw], is missing. *)
Definition rx_group (r : list rx_buffer) (w : Z) (k : Z) (d : list Z) : Prop :=
  ∃ b, r !! Z.to_nat k = Some b ∧
    if decide (k = w) then r_buf_len b <= 0 else rx_holds d b ∧ (0 < length d)%nat.

Lemma missing_one_spec r w g ds :
  Forall2 (rx_group r w) g ds → NoDup g → w ∈ g → 0 <= w → missing_one r g = Some w.
Proof.
  intros H Hnd Hw Hw0. unfold missing_one.
  set (f := λ (acc : option Z) k, w ← acc; b ← r !! Z.to_nat k;
           Some (if r_buf_len b <=? 0 then if w =? -1 then k else -2 else w)).
  assert (∀ acc g ds, Forall2 (rx_group r w) g ds → w ∉ g → foldl f (Some acc) g = Some acc)
    as Hnone.
  { intros acc g0 ds0 H0. induction H0 as [|k d g0 ds0 (b & Hb & Hd) _ IH]; intros Hn; [done|].
    cbn [foldl]. unfold f at 2. cbn [mbind option_bind]. rewrite Hb. cbn [mbind option_bind].
    rewrite decide_False in Hd by set_solver. destruct Hd as [[Hl _] ?].
    destruct (Z.leb_spec (r_buf_len b) 0); [lia|]. apply IH. set_solver. }
  induction H as [|k d g ds (b & Hb & Hd) Hg IH]; [set_solver|].
  apply NoDup_cons in Hnd as [Hk Hnd]. cbn [foldl]. unfold f at 2. cbn [mbind option_bind].
  rewrite Hb. cbn [mbind option_bind]. case_decide as Hkw.
  - subst k. destruct (Z.leb_spec (r_buf_len b) 0); [|lia]. simpl (-1 =? -1). cbn iota.
    by apply (Hnone _ _ ds).
  - destruct Hd as [[Hl _] ?]. destruct (Z.leb_spec (r_buf_len b) 0); [lia|].
    apply IH; [done|set_solver].
Qed.

Lemma repair_byte_spec r w g ds dw P j :
  Forall2 (rx_group r w) g ds → NoDup g → (w, dw) ∈ zip g ds →
  (j < length P)%nat → (∀ i, at_ P i = xor_all ds i) →
  repair_byte r g P j = Some (at_ dw j).
Proof.
  intros H Hnd Hw Hj HP. unfold repair_byte.
  destruct (lookup_lt_is_Some_2 P j Hj) as [p Hp]. rewrite Hp. cbn [mbind option_bind].
  assert (p = xor_all ds j) as -> by (rewrite <- HP; unfold at_; by rewrite Hp). clear Hp.
  set (f := λ (v : option Z) k, v ← v; b ← r !! Z.to_nat k;
           if r_buf_len b >? Z.of_nat j then c ← r_buf b !! j; Some (Z.lxor v c) else Some v).
  assert (∀ k d v, rx_group r w k d → k ≠ w → f (Some v) k = Some (Z.lxor v (at_ d j))) as Hf.
  { intros k d v (b & Hb & Hd) Hk. rewrite decide_False in Hd by done.
    destruct Hd as [[Hl (rest & Hr)] _]. unfold f. cbn [mbind option_bind]. rewrite Hb.
    cbn [mbind option_bind]. destruct (Z.gtb_spec (r_buf_len b) (Z.of_nat j)).
    - rewrite Hr, lookup_app_l by lia. destruct (lookup_lt_is_Some_2 d j) as [c Hc]; [lia|].
      rewrite Hc. cbn [mbind option_bind]. unfold at_. by rewrite Hc.
    - rewrite at_ge by lia. by rewrite Z.lxor_0_r. }
  assert (∀ d v, rx_group r w w d → f (Some v) w = Some v) as Hfw.
  { intros d v (b & Hb & Hd). rewrite decide_True in Hd by done. unfold f. cbn [mbind option_bind].
    rewrite Hb. cbn [mbind option_bind]. destruct (Z.gtb_spec (r_buf_len b) (Z.of_nat j)); [lia|done]. }
  assert (∀ g ds, Forall2 (rx_group r w) g ds → w ∉ g →
    ∀ v, foldl f (Some v) g = Some (Z.lxor v (xor_all ds j))) as Hrest.
  { intros g0 ds0 H0. induction H0 as [|k d g0 ds0 Hd _ IH]; intros Hn v; cbn [foldl xor_all foldr].
    - by rewrite Z.lxor_0_r.
    - rewrite (Hf k d v Hd) by set_solver. rewrite IH by set_solver. by rewrite Z.lxor_assoc. }
  assert (∀ v, foldl f (Some v) g = Some (Z.lxor v (Z.lxor (xor_all ds j) (at_ dw j)))) as Hall.
  { clear HP. induction H as [|k d g ds Hd Hg IH]; [by apply elem_of_nil in Hw|].
    apply NoDup_cons in Hnd as [Hk Hnd]. cbn [zip_with] in Hw. intros v. cbn [foldl xor_all foldr].
    fold (xor_all ds j). destruct (decide (k = w)) as [->|Hkw].
    - assert (d = dw) as ->.
      { apply elem_of_cons in Hw as [[= ->]|Hw]; [done|]. by apply elem_of_zip_l in Hw. }
      rewrite (Hfw dw v Hd), (Hrest g ds Hg Hk). f_equal. f_equal.
      by rewrite (Z.lxor_comm (at_ dw j)), Z.lxor_assoc, Z.lxor_nilpotent, Z.lxor_0_r.
    - apply elem_of_cons in Hw as [[= ? ?]|Hw]; [congruence|].
      rewrite (Hf k d v Hd Hkw), IH by done. f_equal. by rewrite !Z.lxor_assoc. }
  rewrite Hall, <- Z.lxor_assoc, Z.lxor_nilpotent, Z.lxor_0_l. done.
Qed.

(** The bytes written into the missing slot. *)
Lemma repair_bytes_spec r w g ds dw P :
  Forall2 (rx_group r w) g ds → NoDup g → (w, dw) ∈ zip g ds →
  length P = max_length ds → (∀ i, at_ P i = xor_all ds i) →
  mapM (repair_byte r g P) (seq 0 (length P)) =
    Some (dw ++ replicate (length P - length dw) 0).
Proof.
  intros H Hnd Hw Hl HP.
  assert (length dw <= length P)%nat as Hle.
  { rewrite Hl. apply elem_of_zip_r in Hw. clear -Hw. induction ds as [|d ds IH]; [set_solver|].
    apply elem_of_cons in Hw as [<-|Hw]; simpl; [lia|]. specialize (IH Hw). lia. }
  assert (dw ++ replicate (length P - length dw) 0 = at_ dw <$> seq 0 (length P)) as ->.
  { apply list_eq. intros j. rewrite list_lookup_fmap. destruct (decide (j < length P)%nat).
    - rewrite lookup_seq_lt by done. simpl. destruct (decide (j < length dw)%nat).
      + rewrite lookup_app_l by done. unfold at_. by destruct (lookup_lt_is_Some_2 dw j) as [x ->].
      + rewrite lookup_app_r, lookup_replicate_2, at_ge by lia. done.
    - rewrite lookup_ge_None_2 by (rewrite length_app, length_replicate; lia).
      by rewrite lookup_seq_ge by lia. }
  apply mapM_Some_2, Forall2_fmap_r. apply Forall_Forall2_diag, Forall_forall.
  intros j Hj%elem_of_seq. apply (repair_byte_spec r w g ds); auto. lia.
Qed.

(** ** Properties *)

Module Properties.

(** C27: on every datagram, a session whose stored lengths are within their
    arrays decodes without touching memory outside the datagram or its own
    arrays, delivers at most sixteen frames, and a packet that is not rejected
    leaves the session in such a state again. *)
Theorem udptl_rx_packet_safe s buf :
  session_ok s → Forall is_byte buf → Z.of_nat (length buf) <= 8192 →
  ∃ n fs s', udptl_rx_packet s buf = Some (n, fs, s') ∧
    (n = -1 ∧ fs = [] ∨ n = Z.of_nat (length fs) ∧ n <= 16 ∧ session_ok s').
Proof. intros Hs Hb Hl. apply udptl_rx_packet_ok; auto. lia. Qed.

(** C26: with redundancy, if the IFP packets are no larger than the calculated
    [far_max_ifp], every datagram fits the far end's buffer, and a receiver
    that loses at most as many datagrams in a row as there are redundant
    entries delivers every packet up to the last one received, exactly once
    and in order.  This holds over fewer than [2 ^ 32] packets from the start of
    a session: the 16 bit sequence numbers wrap around many times, and the
    frames carry theirs up to that. *)
Theorem udptl_redundancy_recovers s r dg ifps qs :
  error_correction_scheme s = UDPTL_ERROR_CORRECTION_REDUNDANCY →
  1 <= error_correction_entries s <= 5 → far_max_datagram s = dg → far_max_ifp s = -1 →
  8 <= dg <= 1400 → tx_seq_no s = 0 → rx_seq_no r = 0 →
  length (tx s) = 16%nat → Forall (λ b, length (t_buf b) = 1400%nat) (tx s) →
  Z.of_nat (length ifps) < 2 ^ 32 →
  Forall (ifp_ok (ast_udptl_get_far_max_ifp s).1) ifps →
  gaps_ok (Z.to_nat (error_correction_entries (ast_udptl_get_far_max_ifp s).2)) 0 qs →
  Forall (λ q, q < length ifps)%nat qs →
  ∃ pkts, send_all (ast_udptl_get_far_max_ifp s).2 dg ifps = Some pkts ∧
    length pkts = length ifps ∧ Forall (λ p, Z.of_nat (length p) <= dg) pkts ∧
    ∃ fs, receive_all r ((λ q, pkts !!! q) <$> qs) = Some fs ∧
      wrap_seq <$> fs = wrap_seq <$> frames_of ifps 0 (next_after 0 qs).
Proof.
  intros Hsch Hent Hdg Hfm Hdgr Htx Hrx Htl Htb Hn Hok Hgaps Hqs.
  unfold ast_udptl_get_far_max_ifp in *. rewrite Hfm in *. cbn [Z.eqb Pos.eqb] in *.
  unfold calculate_far_max_ifp in *. rewrite Hdg, Hsch in *.
  destruct (Z.eqb_spec dg (-1)) as [|_]; [lia|].
  destruct (reduce_entries_spec dg ltac:(lia) (Z.to_nat (error_correction_entries s))
    (error_correction_entries s)) as (n & e & Hred & He & Hne & Hor); [lia..|].
  rewrite Hred in *. unfold times_0_95 in *.
  assert (0 <= n <= 1400) as Hnb by (subst n; dlia).
  assert (0 <= n * 19 / 20 <= 1400) as HF by dlia.
  unfold double_to_int in *. destruct (Z.leb_spec (n * 19 / 20) 2147483647); [|lia].
  set (F := n * 19 / 20) in *. cbn [fst snd far_max_ifp upd_far_max_ifp] in *.
  destruct (Z.ltb_spec F 0); [lia|].
  set (s1 := upd_far_max_ifp _ _) in *.
  cbn [error_correction_entries s1 upd_far_max_ifp upd_error_correction_entries] in Hgaps.
  set (en := Z.to_nat e) in *. assert (Z.of_nat en = e) as Een by (unfold en; lia).
  assert (∀ q d, ifps !! q = Some d → Z.of_nat (length (packet en ifps q d)) <= dg) as Hfit.
  { intros q d Hq. apply (packet_fits en ifps q d F dg n); auto; try lia; try congruence.
    by eapply lookup_lt_Some. }
  assert (tx_inv en ifps 0 s1) as Hinv.
  { constructor; simpl; auto; lia. }
  pose proof (send_all_ok en ifps F dg ltac:(lia) Hok ltac:(lia) Hn Hfit 0 s1 Hinv) as Hsend.
  rewrite drop_0, Nat.sub_0_r in Hsend.
  eexists. split; [exact Hsend|]. split; [by rewrite length_fmap, length_seq|]. split.
  { apply Forall_fmap, Forall_forall. intros q Hq%elem_of_seq. simpl.
    apply Hfit, list_lookup_lookup_total_lt. lia. }
  assert ((λ q, ((λ i, packet en ifps i (ifps !!! i)) <$> seq 0 (length ifps)) !!! q) <$> qs =
    (λ q, packet en ifps q (ifps !!! q)) <$> qs) as ->.
  { apply list_fmap_ext. intros i q Hq. apply list_lookup_total_correct.
    rewrite list_lookup_fmap, lookup_seq_lt; [done|]. by apply (Forall_lookup_1 _ _ _ _ Hqs Hq). }
  destruct (receive_all_gaps en ifps ltac:(lia)) with (p := 0%nat) (qs := qs) (s := r) as (fs & Hfs & Efs); auto.
  - eapply Forall_impl; [exact Hok|]. intros d [? ?]. split; [done|lia].
  - rewrite Hrx. split; [lia|]. split; [done|by left].
  - exists fs. split; [exact Hfs|]. by rewrite Nat.sub_0_r in Efs.
Qed.

(** Parity repair: when the sender's parity covers a group of packets of
    which the receiver holds all but one, the repair finds that one and writes
    its bytes, padded with zeros to the length of the longest of the group. *)
Theorem udptl_fec_repair s r w g ds dw :
  Forall2 (λ k d, ∃ b, tx s !! Z.to_nat k = Some b ∧ tx_holds d b) g ds →
  Forall2 (rx_group r w) g ds → NoDup g → (w, dw) ∈ zip g ds → 0 <= w →
  ∃ P, parity_of s g = Some P ∧ missing_one r g = Some w ∧
    mapM (repair_byte r g P) (seq 0 (length P)) =
      Some (dw ++ replicate (max_length ds - length dw) 0).
Proof.
  intros Htx Hrx Hnd Hw Hw0. destruct (parity_of_spec s g ds Htx) as (P & HP & Hl & Hx).
  exists P. split; [done|]. split.
  - apply (missing_one_spec r w g ds); auto. by apply elem_of_zip_l in Hw.
  - rewrite <- Hl. by apply (repair_bytes_spec r w g ds).
Qed.

(** *** Concrete sessions *)

Definition demo_tx : ast_udptl :=
  ast_udptl_set_far_max_datagram
    (ast_udptl_set_error_correction_scheme (udptl_new 3 3) UDPTL_ERROR_CORRECTION_REDUNDANCY) 400.

Lemma udptl_new_ok : session_ok (udptl_new 3 3).
Proof.
  constructor; [|simpl; lia]. unfold udptl_new. cbn [rx].
  rewrite length_replicate. split; [done|]. apply Forall_replicate. constructor; cbn -[replicate].
  - apply length_replicate.
  - lia.
  - split; [apply length_replicate|]. apply Forall_replicate. lia.
  - split; [apply length_replicate|]. apply Forall_replicate, length_replicate.
  - lia.
  - lia.
Qed.

Lemma udptl_rx_packet_safe_witness :
  ∃ n fs s', udptl_rx_packet (udptl_new 3 3) [0; 0; 1; 7; 0; 0] = Some (n, fs, s').
Proof.
  destruct (udptl_rx_packet_safe (udptl_new 3 3) [0; 0; 1; 7; 0; 0]) as (n & fs & s' & H & _).
  - apply udptl_new_ok.
  - repeat constructor; lia.
  - simpl. lia.
  - exists n, fs, s'. exact H.
Defined.

Lemma gaps_ok_seq e n : ∀ p l, gaps_ok e (p + n) l → gaps_ok e p (seq p n ++ l).
Proof.
  induction n as [|n IH]; intros p l Hl; [by rewrite Nat.add_0_r in Hl|]. cbn [seq app gaps_ok].
  split; [lia|]. apply IH. by replace (S p + n)%nat with (p + S n)%nat by lia.
Qed.

(** Past the wrap: the datagrams 65530 to 65532 and 65534 to 65536 are lost. *)
Lemma udptl_redundancy_recovers_witness :
  let ifps := replicate (Z.to_nat 65540) [1; 2] in
  let qs := seq 0 (Z.to_nat 65530) ++ [Z.to_nat 65533; Z.to_nat 65537] in
  ∃ pkts fs, send_all (ast_udptl_get_far_max_ifp demo_tx).2 400 ifps = Some pkts ∧
    receive_all (udptl_new 3 3) ((λ q, pkts !!! q) <$> qs) = Some fs ∧
    wrap_seq <$> fs = wrap_seq <$> frames_of ifps 0 (next_after 0 qs).
Proof.
  intros ifps qs.
  assert ((ast_udptl_get_far_max_ifp demo_tx).1 = 93) as E1 by (vm_compute; reflexivity).
  assert (error_correction_entries (ast_udptl_get_far_max_ifp demo_tx).2 = 3) as E2 by (vm_compute; reflexivity).
  assert (length ifps = Z.to_nat 65540) as El by apply length_replicate.
  destruct (udptl_redundancy_recovers demo_tx (udptl_new 3 3) 400 ifps qs)
    as (pkts & H & _ & _ & fs & Hr & Hf).
  - reflexivity.
  - vm_compute. split; discriminate.
  - reflexivity.
  - reflexivity.
  - lia.
  - reflexivity.
  - reflexivity.
  - apply length_replicate.
  - apply Forall_replicate, length_replicate.
  - rewrite El. lia.
  - rewrite E1. apply Forall_replicate. unfold ifp_ok. cbn [length]. lia.
  - rewrite E2. apply gaps_ok_seq. cbn [gaps_ok]. lia.
  - rewrite El. apply Forall_app. split; [apply Forall_seq; lia|]. repeat constructor; lia.
  - exists pkts, fs. split_and!; assumption.
Defined.

Definition fec_tx : ast_udptl :=
  upd_tx (λ _, [TxBuffer 2 [1; 2]; TxBuffer 3 [3; 4; 5]; TxBuffer 1 [9]]) (udptl_new 3 3).
Definition fec_rx : list rx_buffer :=
  [RxBuffer 2 [1; 2] [] [] 0 0; RxBuffer (-1) [] [] [] 0 0; RxBuffer 1 [9] [] [] 0 0].

Lemma udptl_fec_repair_witness :
  ∃ P, parity_of fec_tx [0; 1; 2] = Some P ∧ missing_one fec_rx [0; 1; 2] = Some 1 ∧
    mapM (repair_byte fec_rx [0; 1; 2] P) (seq 0 (length P)) = Some ([3; 4; 5] ++ []).
Proof.
  apply (udptl_fec_repair fec_tx fec_rx 1 [0; 1; 2] [[1; 2]; [3; 4; 5]; [9]] [3; 4; 5]).
  - repeat constructor; (eexists; split; [reflexivity|]; split; [reflexivity|]; by exists []).
  - repeat constructor; (eexists; split; [reflexivity|]); simpl; try lia;
      (split; [split; [reflexivity|by exists []]|simpl; lia]).
  - apply (bool_decide_unpack _). vm_compute. exact I.
  - right. left.
  - lia.
Defined.

(** *** Where the code leaves its buffers *)

(** Datagrams in parity mode: one without parity entries, one whose second
    entry is longer than the array it is for, and an old one. *)
Definition plain_fec (q : Z) : list Z := [0; q; 1; q; 0x80; 1; 0; 0].
Definition oversized_fec : list Z :=
  [0; 10; 1; 10; 0x80; 1; 3; 2; 1; 77] ++ [0x85; 0xDC] ++ replicate 1500 5.
Definition old_fec : list Z := [0; 8; 1; 8; 0x80; 1; 1; 1; 1; 1].

Definition attack : list (list Z) :=
  (plain_fec <$> [1; 2; 3; 4; 6; 7; 8; 9]) ++ [oversized_fec; old_fec].

(** A rejected packet can leave a parity length beyond the array in the
    session ([fec_len] is stored before it is checked), and an older packet
    then makes the repair loop read and write past the end of the arrays. *)
Theorem udptl_stale_parity_length_overflow :
  Forall (Forall is_byte) attack ∧ Forall (λ p, Z.of_nat (length p) <= 8192) attack ∧
  is_Some (receive_all (udptl_new 3 3) (take 9 attack)) ∧
  receive_all (udptl_new 3 3) attack = None.
Proof.
  split_and!.
  - apply (bool_decide_unpack _). vm_compute. exact I.
  - apply (bool_decide_unpack _). vm_compute. exact I.
  - vm_compute. eexists. reflexivity.
  - vm_compute. reflexivity.
Qed.

(** A parity session towards a far end that accepts datagrams of 309 bytes. *)
Definition fec_session : ast_udptl :=
  (ast_udptl_get_far_max_ifp (ast_udptl_set_far_max_datagram
    (ast_udptl_set_error_correction_scheme (udptl_new 3 3) UDPTL_ERROR_CORRECTION_FEC) 309)).2.

(** The session after sending some packets. *)
Definition after_sends (s : ast_udptl) (cap : Z) (ifps : list (list Z)) : option ast_udptl :=
  foldl (λ s d, s ← s; '(p, s) ← udptl_build_packet s cap d; _ ← p; Some s) (Some s) ifps.

(** In parity mode [far_max_ifp] leaves room for one parity entry although
    more are sent: packets well below it fill the datagram exactly, and the
    next length is then written past the end of the buffer. *)
Theorem udptl_fec_packet_overflow :
  far_max_ifp fec_session = 141 ∧
  ∃ s9, after_sends fec_session 309 (replicate 9 (replicate 100 1)) = Some s9 ∧
    udptl_build_packet s9 309 (replicate 100 1) = None.
Proof.
  split; [vm_compute; reflexivity|].
  destruct (after_sends fec_session 309 (replicate 9 (replicate 100 1))) as [s9|] eqn:E.
  - exists s9. split; [reflexivity|].
    assert ((s ← Some s9; Some (udptl_build_packet s 309 (replicate 100 1))) = Some None) as H.
    { rewrite <- E. vm_compute. reflexivity. }
    exact (f_equal (default None) H).
  - exfalso. assert (is_Some (None : option ast_udptl)) as [? ?]; [|discriminate].
    rewrite <- E. vm_compute. eexists. reflexivity.
Qed.

End Properties.
