(* ===== verification/Frame.v ===== *)
(** * Media frames and their memory ([main/frame.c], [include/asterisk/frame.h])

    A frame is a header that may or may not be a heap block of its own, with
    pointers to a data buffer and to a source string that may be separate
    blocks; [mallocd] says which of the three the frame owns.  Media frames
    hold a reference on their format, [AST_CONTROL_ANSWER] frames one on a
    stream topology.

    [heap] is the part of the machine the functions act on: the blocks
    allocated and the references held, both as multisets, and the calling
    thread's cache of frame headers.  Freeing a block that is not allocated
    or dropping a reference nobody holds is undefined: [None].  The outcome
    of each allocation (the address, or a failure) is an argument, as are
    the presence of the thread's cache and [ast_opt_cache_media_frames]. *)

From stdpp Require Import base numbers list strings gmap gmultiset.
From Stdlib Require Import ZArith Lia.
From S2P Require Import Prelude Timeval.
Local Open Scope cint_scope.

(** ** Data *)

Inductive ast_frame_type :=
  | AST_FRAME_VOICE | AST_FRAME_VIDEO | AST_FRAME_IMAGE | AST_FRAME_TEXT | AST_FRAME_CONTROL
  | AST_FRAME_OTHER (n : Z).

#[export] Instance ast_frame_type_eq_dec : EqDecision ast_frame_type.
Proof. solve_decision. Defined.

(** [integer], and the union of a format and a topology pointer. *)
Record ast_frame_subclass := Subclass { integer : Z; object : option Z; frame_ending : Z }.

(** [AST_MALLOCD_HDR], [AST_MALLOCD_SRC], [AST_MALLOCD_DATA] *)
Record mallocd_flags := Mallocd { HDR : bool; SRC : bool; DATA : bool }.

#[export] Instance mallocd_flags_eq_dec : EqDecision mallocd_flags.
Proof. solve_decision. Defined.

(** The union [data]: an integer (0 is also the null pointer) or a pointer
    with the bytes it points to. *)
Inductive frame_data := DInt (uint32 : Z) | DPtr (ptr : Z) (bytes : list Z).

Record ast_frame := AstFrame {
  addr : Z;
  frametype : ast_frame_type;
  subclass : ast_frame_subclass;
  datalen : Z;
  samples : Z;
  mallocd : mallocd_flags;
  mallocd_hdr_len : Z;
  offset : Z;
  src : option (Z * string);
  data : frame_data;
  delivery : timeval;
  flag_has_timing_info : bool;
  flags_other : Z;
  ts : Z;
  len : Z;
  seqno : Z;
  stream_num : Z;
}.

Definition AST_FRIENDLY_OFFSET : Z := 64.
Definition AST_CONTROL_ANSWER : Z := 4.
Definition FRAME_CACHE_MAX_SIZE : Z := 10.

Definition no_mallocd : mallocd_flags := Mallocd false false false.
Definition hdr_mallocd : mallocd_flags := Mallocd true false false.

(** A zeroed header at [a]. *)
Definition zero_frame (a hdr_len : Z) : ast_frame :=
  AstFrame a (AST_FRAME_OTHER 0) (Subclass 0 None 0) 0 0 no_mallocd hdr_len 0 None (DInt 0)
    (ast_tv 0 0) false 0 0 0 0 0.

Definition set_mallocd (m : mallocd_flags) (f : ast_frame) : ast_frame :=
  AstFrame (addr f) (frametype f) (subclass f) (datalen f) (samples f) m (mallocd_hdr_len f)
    (offset f) (src f) (data f) (delivery f) (flag_has_timing_info f) (flags_other f) (ts f)
    (len f) (seqno f) (stream_num f).
Definition set_src (m : mallocd_flags) (s : option (Z * string)) (f : ast_frame) : ast_frame :=
  AstFrame (addr f) (frametype f) (subclass f) (datalen f) (samples f) m (mallocd_hdr_len f)
    (offset f) s (data f) (delivery f) (flag_has_timing_info f) (flags_other f) (ts f)
    (len f) (seqno f) (stream_num f).
Definition set_data (m : mallocd_flags) (off : Z) (d : frame_data) (f : ast_frame) : ast_frame :=
  AstFrame (addr f) (frametype f) (subclass f) (datalen f) (samples f) m (mallocd_hdr_len f)
    off (src f) d (delivery f) (flag_has_timing_info f) (flags_other f) (ts f)
    (len f) (seqno f) (stream_num f).

Definition with_src (b : bool) (m : mallocd_flags) : mallocd_flags := Mallocd (HDR m) b (DATA m).
Definition with_data (b : bool) (m : mallocd_flags) : mallocd_flags := Mallocd (HDR m) (SRC m) b.

Record heap := Heap {
  live : gmultiset Z;
  refs : gmultiset Z;
  cache : list ast_frame;
  cache_size : Z;
}.

Implicit Types (f fr out : ast_frame) (h : heap).

Definition set_live (l : gmultiset Z) h : heap := Heap l (refs h) (cache h) (cache_size h).
Definition set_refs (r : gmultiset Z) h : heap := Heap (live h) r (cache h) (cache_size h).
Definition set_cache (c : list ast_frame) (n : Z) h : heap := Heap (live h) (refs h) c n.

(** ** Blocks and references *)

Definition alloc (a : Z) h : heap := set_live ({[+ a +]} ⊎ live h) h.

Definition ast_free (a : Z) h : option heap :=
  if decide (a ∈ live h) then Some (set_live (live h ∖ {[+ a +]}) h) else None.

Definition ao2_bump (o : option Z) h : heap :=
  match o with Some x => set_refs ({[+ x +]} ⊎ refs h) h | None => h end.

Definition ao2_cleanup (o : option Z) h : option heap :=
  match o with
  | Some x => if decide (x ∈ refs h) then Some (set_refs (refs h ∖ {[+ x +]}) h) else None
  | None => Some h
  end.

(** ** The header cache *)

Definition is_media f : bool :=
  match frametype f with
  | AST_FRAME_VOICE | AST_FRAME_VIDEO | AST_FRAME_IMAGE => true
  | _ => false
  end.

Definition is_answer f : bool :=
  bool_decide (frametype f = AST_FRAME_CONTROL) && (integer (subclass f) =? AST_CONTROL_ANSWER).

Section Model.
(** [sizeof(struct ast_frame)]; the thread's cache could be had; the option. *)
Context (sizeof_frame : Z) (has_cache cache_opt : bool).

Definition ast_frame_header_new (a : option Z) h : option ast_frame * heap :=
  match (if has_cache then cache h else []) with
  | f :: rest =>
    (Some (zero_frame (addr f) (mallocd_hdr_len f)), set_cache rest (cache_size h - 1) h)
  | [] =>
    match a with
    | Some a => (Some (zero_frame a sizeof_frame), alloc a h)
    | None => (None, h)
    end
  end.

Fixpoint free_headers (l : list ast_frame) h : option heap :=
  match l with [] => Some h | f :: l => h ← ast_free (addr f) h; free_headers l h end.

Definition frame_cache_cleanup h : option heap :=
  h ← free_headers (cache h) h; Some (set_cache [] (cache_size h) h).

(** The references a header gives up. *)
Definition release_refs fr h : option heap :=
  if is_media fr then ao2_cleanup (object (subclass fr)) h
  else if is_answer fr then ao2_cleanup (object (subclass fr)) h
  else Some h.

(** Returns the frame as left in memory (when its header is not freed). *)
Definition __frame_free fr (use_cache : bool) h : option (ast_frame * heap) :=
  if bool_decide (mallocd fr = no_mallocd) then Some (fr, h)
  else if bool_decide (mallocd fr = hdr_mallocd) && use_cache && cache_opt && has_cache &&
          (cache_size h <? FRAME_CACHE_MAX_SIZE)
  then
    h ← release_refs fr h;
    Some (fr, set_cache (fr :: cache h) (cache_size h + 1) h)
  else
    h ← (if DATA (mallocd fr) then
           match data fr with
           | DPtr p _ => ast_free (p - offset fr) h
           | DInt u => if u =? 0 then Some h else None
           end
         else Some h);
    h ← (if SRC (mallocd fr) then
           match src fr with Some (p, _) => ast_free p h | None => Some h end
         else Some h);
    if HDR (mallocd fr) then
      h ← release_refs fr h;
      h ← ast_free (addr fr) h;
      Some (fr, h)
    else Some (set_mallocd no_mallocd fr, h).

(** A chain of frames linked by [frame_list]. *)
Fixpoint ast_frame_free (l : list ast_frame) (use_cache : bool) h : option heap :=
  match l with
  | [] => Some h
  | f :: l => '(_, h) ← __frame_free f use_cache h; ast_frame_free l use_cache h
  end.

(** ** Duplicating *)

(** The first cached header with room for [n] bytes, and the others. *)
Fixpoint take_cached (n : Z) (l : list ast_frame) : option (ast_frame * list ast_frame) :=
  match l with
  | [] => None
  | f :: l =>
    if mallocd_hdr_len f >=? n then Some (f, l)
    else match take_cached n l with Some (g, l') => Some (g, f :: l') | None => None end
  end.

Definition srclen f : Z :=
  match src f with Some (_, s) => Z.of_nat (String.length s) | None => 0 end.

Definition bytes_of (d : frame_data) : list Z := match d with DPtr _ b => b | DInt _ => [] end.

Definition ast_frdup (a : option Z) f h : option ast_frame * heap :=
  let len_ := sizeof_frame + AST_FRIENDLY_OFFSET + datalen f +
              (if srclen f >? 0 then srclen f + 1 else 0) in
  let got :=
    match take_cached len_ (if has_cache then cache h else []) with
    | Some (g, rest) =>
      Some (addr g, mallocd_hdr_len g, set_cache rest (cache_size h - 1) h)
    | None => match a with Some a => Some (a, len_, alloc a h) | None => None end
    end in
  match got with
  | None => (None, h)
  | Some (buf, hdr_len, h) =>
    let h := if is_media f then ao2_bump (object (subclass f)) h
             else if is_answer f then ao2_bump (object (subclass f)) h
             else h in
    let d := if negb (datalen f =? 0) || bool_decide (frametype f = AST_FRAME_TEXT)
             then DPtr (buf + sizeof_frame + AST_FRIENDLY_OFFSET) (take (Z.to_nat (datalen f)) (bytes_of (data f)))
             else DInt (match data f with DInt u => u | DPtr p _ => u32 p end) in
    let s := match src f with
             | Some (_, str) => if srclen f >? 0
                                then Some (buf + sizeof_frame + AST_FRIENDLY_OFFSET + datalen f, str)
                                else None
             | None => None
             end in
    (Some (AstFrame buf (frametype f) (subclass f) (datalen f) (samples f) hdr_mallocd hdr_len
             AST_FRIENDLY_OFFSET s d (delivery f) (flag_has_timing_info f) (flags_other f)
             (ts f) (len f) (seqno f) (stream_num f)), h)
  end.

(** ** Isolating *)

(** What [ast_frisolate] returns, with the original frame as it is left:
    null, the frame itself (changed in place), or a new frame. *)
Inductive isolated := IsoNull (fr : ast_frame) | IsoSame (fr : ast_frame)
  | IsoNew (out fr : ast_frame).

(** The new header's fields. *)
Definition copy_header fr (n : ast_frame) : ast_frame :=
  let t := flag_has_timing_info fr in
  AstFrame (addr n) (frametype fr) (subclass fr) (datalen fr) (samples fr) hdr_mallocd
    (mallocd_hdr_len n) (offset fr) None (DInt 0) (ast_tv 0 0) t (flags_other fr)
    (if t then ts fr else 0) (if t then len fr else 0) (if t then seqno fr else 0) (stream_num fr).

(** The source string: [None] when it could not be duplicated; otherwise the
    isolated frame, the original, and the heap.  [same] says that they are
    one. *)
Definition isolate_src (same : bool) (a : option Z) out fr h :
    option (ast_frame * ast_frame * heap) :=
  match src fr with
  | None => Some (out, fr, h)
  | Some (p, s) =>
    if negb (SRC (mallocd fr)) then
      match a with
      | None => None
      | Some a => Some (set_src (with_src true (mallocd out)) (Some (a, s)) out, fr, alloc a h)
      end
    else if negb same then
      Some (set_src (with_src true (mallocd out)) (Some (p, s)) out,
            set_src (with_src false (mallocd fr)) None fr, h)
    else Some (out, fr, h)
  end.

(** The data buffer; when [same] holds [out] is the frame to look at. *)
Definition isolate_data (same : bool) (a : option Z) out fr h :
    option (ast_frame * ast_frame * heap) :=
  if negb (DATA (mallocd fr)) then
    if (datalen fr =? 0) && negb (bool_decide (frametype fr = AST_FRAME_TEXT)) then
      if same then Some (out, fr, h)
      else
        Some (set_data (mallocd out) (offset out)
                (DInt (match data fr with DInt u => u | DPtr p _ => u32 p end)) out, fr, h)
    else
      match a with
      | None => None
      | Some a =>
        Some (set_data (with_data true (mallocd out)) AST_FRIENDLY_OFFSET
                (DPtr (a + AST_FRIENDLY_OFFSET) (take (Z.to_nat (datalen fr)) (bytes_of (data fr)))) out,
              fr, alloc a h)
      end
  else if negb same then
    Some (set_data (with_data true (mallocd out)) (offset out) (data fr) out,
          set_data (with_data false (mallocd fr)) (offset fr) (DInt 0) fr, h)
  else Some (out, fr, h).

Definition isolate_same (asrc adata : option Z) fr h : option (isolated * heap) :=
  match isolate_src true asrc fr fr h with
  | None => Some (IsoNull fr, h)
  | Some (fr, _, h) =>
    match isolate_data true adata fr fr h with
    | None => Some (IsoNull fr, h)
    | Some (fr, _, h) => Some (IsoSame fr, h)
    end
  end.

Definition isolate_new (asrc adata : option Z) out fr h : option (isolated * heap) :=
  match isolate_src false asrc out fr h with
  | None => '(_, h) ← __frame_free out false h; Some (IsoNull fr, h)
  | Some (out, fr, h) =>
    match isolate_data false adata out fr h with
    | None => '(_, h) ← __frame_free out false h; Some (IsoNull fr, h)
    | Some (out, fr, h) => Some (IsoNew out fr, h)
    end
  end.

Definition ast_frisolate (ahdr asrc adata : option Z) fr h : option (isolated * heap) :=
  if bool_decide (mallocd fr = no_mallocd) then
    match ast_frdup ahdr fr h with
    | (Some out, h) => Some (IsoNew out fr, h)
    | (None, h) => Some (IsoNull fr, h)
    end
  else if HDR (mallocd fr) && SRC (mallocd fr) && DATA (mallocd fr) then Some (IsoSame fr, h)
  else if negb (HDR (mallocd fr)) then
    match ast_frame_header_new ahdr h with
    | (None, h) => Some (IsoNull fr, h)
    | (Some n, h) =>
      let out := copy_header fr n in
      let h := if is_media fr then ao2_bump (object (subclass out)) h
               else if bool_decide (frametype fr = AST_FRAME_VOICE) &&
                       (integer (subclass fr) =? AST_CONTROL_ANSWER)
               then ao2_bump (object (subclass out)) h
               else h in
      isolate_new asrc adata out fr h
    end
  else isolate_same asrc adata fr h.

End Model.

(** ** Ownership *)

(** The blocks [__frame_free] gives back and the references it drops. *)
Definition data_block f : gmultiset Z :=
  if DATA (mallocd f) then match data f with DPtr p _ => {[+ p - offset f +]} | DInt _ => ∅ end
  else ∅.
Definition src_block f : gmultiset Z :=
  if SRC (mallocd f) then match src f with Some (p, _) => {[+ p +]} | None => ∅ end else ∅.
Definition hdr_block f : gmultiset Z := if HDR (mallocd f) then {[+ addr f +]} else ∅.
Definition blocks f : gmultiset Z := data_block f ⊎ src_block f ⊎ hdr_block f.

Definition obj_refs (o : option Z) : gmultiset Z :=
  match o with Some x => {[+ x +]} | None => ∅ end.
Definition holds f : gmultiset Z :=
  if HDR (mallocd f) && (is_media f || is_answer f) then obj_refs (object (subclass f)) else ∅.

(** An owned data buffer is a pointer or null. *)
Definition data_ok f : Prop :=
  DATA (mallocd f) = true → match data f with DInt u => u = 0 | DPtr _ _ => True end.

Definition cache_blocks h : gmultiset Z := list_to_set_disj (addr <$> cache h).

(** The heap accounts for the blocks [B] and references [R] held outside the
    header cache: nothing leaked, nothing freed twice. *)
Definition acct h (B R : gmultiset Z) : Prop := live h = B ⊎ cache_blocks h ∧ refs h = R.

(** Reduce the fields of updated heaps. *)
Ltac hs := cbn [live refs cache cache_size set_live set_refs set_cache] in *.

Section Blocks.
Implicit Types (B R : gmultiset Z).

Lemma ast_free_spec h a B R :
  acct h ({[+ a +]} ⊎ B) R → ∃ h', ast_free a h = Some h' ∧ acct h' B R ∧
    cache h' = cache h ∧ cache_size h' = cache_size h.
Proof.
  intros [Hl Hr]. unfold ast_free. rewrite decide_True by (rewrite Hl; multiset_solver).
  eexists. split; [reflexivity|]. split_and!; try done. split; [|done].
  hs. rewrite Hl. unfold cache_blocks. multiset_solver.
Qed.

Lemma ao2_cleanup_spec h o B R :
  acct h B (obj_refs o ⊎ R) → ∃ h', ao2_cleanup o h = Some h' ∧ acct h' B R ∧
    cache h' = cache h ∧ cache_size h' = cache_size h.
Proof.
  intros [Hl Hr]. unfold ao2_cleanup. destruct o as [x|]; cbn [obj_refs] in Hr.
  - rewrite decide_True by (rewrite Hr; multiset_solver).
    eexists. split; [reflexivity|]. split_and!; try done. split; [done|]. hs. rewrite Hr. multiset_solver.
  - exists h. split_and!; try done. split; [done|]. rewrite Hr. multiset_solver.
Qed.

Lemma ao2_bump_spec h o B R : acct h B R → acct (ao2_bump o h) B (obj_refs o ⊎ R).
Proof.
  intros [Hl Hr]. destruct o as [x|]; cbn [ao2_bump obj_refs]; split; try done; hs;
    rewrite Hr; multiset_solver.
Qed.

Lemma alloc_spec h a B R : acct h B R → acct (alloc a h) ({[+ a +]} ⊎ B) R.
Proof. intros [Hl Hr]. split; [|done]. unfold alloc. hs. rewrite Hl. unfold cache_blocks. multiset_solver. Qed.

(** Accounting does not depend on how the multisets are written. *)
Lemma acct_eq h B R B' R' : acct h B R → B = B' → R = R' → acct h B' R'.
Proof. by intros ? -> ->. Qed.
End Blocks.

Section Spec.
Context (sizeof_frame : Z) (has_cache cache_opt : bool).
Implicit Types (B R : gmultiset Z).

Lemma release_refs_spec f h B R :
  HDR (mallocd f) = true → acct h B (holds f ⊎ R) →
  ∃ h', release_refs f h = Some h' ∧ acct h' B R ∧
    cache h' = cache h ∧ cache_size h' = cache_size h.
Proof.
  intros Hh Ha. unfold release_refs, holds in *. rewrite Hh in Ha. cbn [andb] in Ha.
  destruct (is_media f); [by apply ao2_cleanup_spec|]. cbn [orb] in Ha.
  destruct (is_answer f); [by apply ao2_cleanup_spec|].
  exists h. split_and!; try done. eapply acct_eq; [done | done | multiset_solver].
Qed.

Lemma frame_free_spec f use_cache h B R :
  data_ok f → acct h (blocks f ⊎ B) (holds f ⊎ R) →
  ∃ f' h', __frame_free has_cache cache_opt f use_cache h = Some (f', h') ∧ acct h' B R.
Proof.
  intros Hok Ha. unfold __frame_free. case_bool_decide as H0.
  { exists f, h. split; [done|]. unfold blocks, data_block, src_block, hdr_block, holds in Ha.
    rewrite H0 in Ha. cbn [HDR SRC DATA no_mallocd andb] in Ha. eapply acct_eq; [done | multiset_solver | multiset_solver]. }
  case_match eqn:Ec.
  { rewrite !andb_true_iff in Ec. destruct Ec as ((((Hm%bool_decide_eq_true & _) & _) & _) & _).
    destruct (release_refs_spec f h (blocks f ⊎ B) R) as (h1 & -> & [Hl Hr] & Hc & _);
      [by rewrite Hm | done|]. cbn [mbind option_bind].
    eexists _, _. split; [reflexivity|]. split; [|done]. hs. rewrite Hl. unfold cache_blocks. hs.
    unfold blocks, data_block, src_block, hdr_block. rewrite Hm, Hc.
    cbn [HDR SRC DATA hdr_mallocd]. rewrite fmap_cons, list_to_set_disj_cons. multiset_solver. }
  assert (∃ h1, (if DATA (mallocd f) then match data f with
      | DPtr p _ => ast_free (p - offset f) h
      | DInt u => if u =? 0 then Some h else None end else Some h) = Some h1 ∧
      acct h1 (src_block f ⊎ hdr_block f ⊎ B) (holds f ⊎ R)) as (h1 & -> & Ha1).
  { unfold blocks, data_block in Ha. destruct (DATA (mallocd f)) eqn:Ed.
    - specialize (Hok Ed). destruct (data f) as [u|p b].
      + subst u. exists h. split; [done|]. eapply acct_eq; [done | multiset_solver | done].
      + edestruct ast_free_spec as (h1 & Hf & Ha1 & _);
          [eapply acct_eq; [exact Ha | | reflexivity]; rewrite <- !(assoc_L (⊎)); reflexivity|].
        exists h1. split; [done|]. eapply acct_eq; [done | multiset_solver | done].
    - exists h. split; [done|]. eapply acct_eq; [done | multiset_solver | done]. }
  cbn [mbind option_bind].
  assert (∃ h2, (if SRC (mallocd f) then match src f with Some (p, _) => ast_free p h1 | None => Some h1 end
      else Some h1) = Some h2 ∧ acct h2 (hdr_block f ⊎ B) (holds f ⊎ R)) as (h2 & -> & Ha2).
  { unfold src_block in Ha1. destruct (SRC (mallocd f)); [destruct (src f) as [[p s]|]|].
    - edestruct ast_free_spec as (h2 & Hf & Ha2 & _);
          [eapply acct_eq; [exact Ha1 | | reflexivity]; rewrite <- !(assoc_L (⊎)); reflexivity|].
      exists h2. split; [done|]. eapply acct_eq; [done | multiset_solver | done].
    - exists h1. split; [done|]. eapply acct_eq; [done | multiset_solver | done].
    - exists h1. split; [done|]. eapply acct_eq; [done | multiset_solver | done]. }
  cbn [mbind option_bind]. unfold hdr_block in Ha2. destruct (HDR (mallocd f)) eqn:Eh.
  - destruct (release_refs_spec f h2 _ _ Eh Ha2) as (h3 & -> & Ha3 & _). cbn [mbind option_bind].
    destruct (ast_free_spec h3 _ _ _ Ha3) as (h4 & -> & Ha4 & _). by eexists _, _.
  - eexists _, _. split; [reflexivity|]. unfold holds in Ha2. rewrite Eh in Ha2. cbn [andb] in Ha2.
    eapply acct_eq; [done | multiset_solver | multiset_solver].
Qed.

(** A whole chain. *)
Lemma ast_frame_free_spec l use_cache h B R :
  Forall data_ok l →
  acct h (foldr (λ f m, blocks f ⊎ m) B l) (foldr (λ f m, holds f ⊎ m) R l) →
  ∃ h', ast_frame_free has_cache cache_opt l use_cache h = Some h' ∧ acct h' B R.
Proof.
  intros Hl. revert h. induction Hl as [|f l Hf Hl IH]; intros h Ha; cbn in *; [by exists h|].
  destruct (frame_free_spec f use_cache h _ _ Hf Ha) as (f' & h1 & -> & Ha1).
  cbn [mbind option_bind]. by apply IH.
Qed.

Lemma frame_cache_cleanup_spec h B R :
  acct h B R → ∃ h', frame_cache_cleanup h = Some h' ∧ live h' = B ∧ refs h' = R ∧ cache h' = [].
Proof.
  intros [Hl Hr]. unfold frame_cache_cleanup.
  assert (∀ l h1, live h1 = B ⊎ list_to_set_disj (addr <$> l) → refs h1 = R →
    ∃ h2, free_headers l h1 = Some h2 ∧ live h2 = B ∧ refs h2 = R) as Hgo.
  { intros l. induction l as [|f l IH]; intros h1 Hl1 Hr1; cbn [free_headers];
      rewrite ?fmap_cons, ?list_to_set_disj_cons in Hl1.
    - exists h1. split_and!; [done | rewrite Hl1; multiset_solver | done].
    - unfold ast_free. rewrite decide_True by (rewrite Hl1; multiset_solver). cbn [mbind option_bind].
      apply IH; [|done]. hs. rewrite Hl1. multiset_solver. }
  destruct (Hgo (cache h) h Hl Hr) as (h2 & -> & Hl2 & Hr2). cbn [mbind option_bind].
  by eexists.
Qed.

(** *** Getting a header *)

Lemma header_new_spec a h B R :
  acct h B R →
  match ast_frame_header_new sizeof_frame has_cache a h with
  | (Some n, h') => n = zero_frame (addr n) (mallocd_hdr_len n) ∧ acct h' ({[+ addr n +]} ⊎ B) R
  | (None, h') => h' = h
  end.
Proof.
  intros Ha. unfold ast_frame_header_new.
  assert (∀ f rest, cache h = f :: rest →
    acct (set_cache rest (cache_size h - 1) h) ({[+ addr f +]} ⊎ B) R) as Hcache.
  { intros f rest E. destruct Ha as [Hl Hr]. split; [|done]. unfold cache_blocks in *. hs.
    rewrite Hl, E, fmap_cons, list_to_set_disj_cons. multiset_solver. }
  destruct has_cache; [destruct (cache h) as [|f rest] eqn:E|]; [destruct a| |destruct a]; try done;
    (split; [reflexivity|]); auto using alloc_spec. apply (Hcache f rest eq_refl).
Qed.

Lemma take_cached_spec n l g rest :
  take_cached n l = Some (g, rest) → l ≡ₚ g :: rest ∧ n <= mallocd_hdr_len g.
Proof.
  revert rest. induction l as [|f l IH]; intros rest; cbn; [done|]. case_match eqn:E.
  { intros [= <- <-]. split; [done | lia]. }
  destruct (take_cached n l) as [[g' l']|]; [|done]. intros [= <- <-].
  destruct (IH l' eq_refl) as [Hp Hn]. split; [|done]. rewrite Hp. apply Permutation_swap.
Qed.

(** *** Duplicating *)

(** What a duplicate shares with its original. *)
Record same_content f out : Prop := {
  sc_type : frametype out = frametype f;
  sc_subclass : subclass out = subclass f;
  sc_datalen : datalen out = datalen f;
  sc_samples : samples out = samples f;
  sc_bytes : datalen f ≠ 0 → bytes_of (data out) = take (Z.to_nat (datalen f)) (bytes_of (data f));
  sc_timing : flag_has_timing_info out = flag_has_timing_info f;
  sc_stream : stream_num out = stream_num f;
  sc_flags : flags_other out = flags_other f;
}.

Lemma ast_frdup_spec a f h B R :
  acct h B R →
  match ast_frdup sizeof_frame has_cache a f h with
  | (Some out, h') =>
      acct h' (blocks out ⊎ B) (holds out ⊎ R) ∧ data_ok out ∧ mallocd out = hdr_mallocd ∧
      same_content f out ∧ ts out = ts f ∧ len out = len f ∧ seqno out = seqno f ∧
      delivery out = delivery f ∧
      sizeof_frame + AST_FRIENDLY_OFFSET + datalen f +
        (if srclen f >? 0 then srclen f + 1 else 0) <= mallocd_hdr_len out
  | (None, h') => h' = h
  end.
Proof.
  intros Ha. unfold ast_frdup. set (n := sizeof_frame + _ + _ + _).
  set (got := match take_cached _ _ with Some _ => _ | None => _ end).
  assert (match got with
    | Some (buf, hl, h1) => acct h1 ({[+ buf +]} ⊎ B) R ∧ n <= hl
    | None => True end) as Hgot.
  { unfold got. destruct (take_cached n (if has_cache then cache h else [])) as [[g rest]|] eqn:E.
    - destruct has_cache; [|done]. apply take_cached_spec in E as [Hp Hn]. split; [|done].
      destruct Ha as [Hl Hr]. split; [|done]. unfold cache_blocks in *. hs.
      rewrite Hl, Hp, fmap_cons, list_to_set_disj_cons. multiset_solver.
    - destruct a; [|done]. split; [by apply alloc_spec | lia]. }
  clearbody got. destruct got as [[[buf hl] h1]|]; [|done]. destruct Hgot as [Ha1 Hn].
  split_and!; try done.
  - match goal with |- acct _ (blocks ?o ⊎ _) _ =>
      assert (blocks o = {[+ buf +]}) as -> by
        (unfold blocks, data_block, src_block, hdr_block; cbn [mallocd HDR SRC DATA hdr_mallocd addr];
         multiset_solver);
      assert (holds o = if is_media f || is_answer f then obj_refs (object (subclass f)) else ∅)
        as -> by reflexivity end.
    destruct (is_media f); [by apply ao2_bump_spec|]. cbn [orb].
    destruct (is_answer f); [by apply ao2_bump_spec|].
    eapply acct_eq; [done | done | multiset_solver].
  - constructor; cbn; try done. intros Hd. rewrite (proj2 (Z.eqb_neq _ _)) by done. done.
Qed.
(** *** Isolating *)

Lemma blocks_set_src b s f :
  blocks (set_src (with_src b (mallocd f)) s f) =
  data_block f ⊎ (if b then match s with Some (p, _) => {[+ p +]} | None => ∅ end else ∅) ⊎
  hdr_block f.
Proof. reflexivity. Qed.

Lemma blocks_set_data b o d f :
  blocks (set_data (with_data b (mallocd f)) o d f) =
  (if b then match d with DPtr p _ => {[+ p - o +]} | DInt _ => ∅ end else ∅) ⊎
  src_block f ⊎ hdr_block f.
Proof. reflexivity. Qed.

(** The steps that give [out] a part of its own leave the header and the
    content alone. *)
Record same_header f f' : Prop := {
  sh_addr : addr f' = addr f;
  sh_hdr : HDR (mallocd f') = HDR (mallocd f);
  sh_type : frametype f' = frametype f;
  sh_subclass : subclass f' = subclass f;
  sh_datalen : datalen f' = datalen f;
  sh_samples : samples f' = samples f;
  sh_timing : flag_has_timing_info f' = flag_has_timing_info f;
  sh_ts : ts f' = ts f;
  sh_len : len f' = len f;
  sh_seqno : seqno f' = seqno f;
  sh_stream : stream_num f' = stream_num f;
  sh_flags : flags_other f' = flags_other f;
}.

Lemma same_header_refl f : same_header f f.
Proof. by constructor. Qed.

Lemma same_header_trans f g k : same_header f g → same_header g k → same_header f k.
Proof. intros [] []. constructor; congruence. Qed.

Lemma same_header_holds f f' : same_header f f' → holds f' = holds f.
Proof. intros []. unfold holds, is_media, is_answer. by rewrite sh_hdr0, sh_type0, sh_subclass0. Qed.

(** A part of an isolated frame is its own block, or absent. *)
Lemma isolate_src_same a fr h B R :
  acct h (blocks fr ⊎ B) R →
  match isolate_src true a fr fr h with
  | Some (fr', _, h') => acct h' (blocks fr' ⊎ B) R ∧ same_header fr fr' ∧
      DATA (mallocd fr') = DATA (mallocd fr) ∧ data fr' = data fr ∧ offset fr' = offset fr ∧
      (SRC (mallocd fr') = true ∨ src fr' = None)
  | None => True
  end.
Proof.
  intros Ha. unfold isolate_src. destruct (src fr) as [[p s]|] eqn:Es.
  2:{ split_and!; auto using same_header_refl. }
  destruct (SRC (mallocd fr)) eqn:Em; cbn [negb].
  { split_and!; auto using same_header_refl. }
  destruct a as [a|]; [|done]. split_and!; try done; [|by left].
  rewrite blocks_set_src. eapply acct_eq; [by apply alloc_spec | | done].
  unfold blocks, src_block. rewrite Em. multiset_solver.
Qed.

Lemma isolate_data_same a fr h B R :
  data_ok fr → acct h (blocks fr ⊎ B) R →
  match isolate_data true a fr fr h with
  | Some (fr', _, h') => acct h' (blocks fr' ⊎ B) R ∧ same_header fr fr' ∧ data_ok fr' ∧
      bytes_of (data fr') `prefix_of` bytes_of (data fr)
  | None => True
  end.
Proof.
  intros Hok Ha. unfold isolate_data. destruct (DATA (mallocd fr)) eqn:Ed; cbn [negb].
  { split_and!; auto using same_header_refl. }
  destruct (_ && _). { split_and!; auto using same_header_refl. }
  destruct a as [a|]; [|done]. split_and!; try done; [|cbn; apply prefix_take].
  rewrite blocks_set_data. eapply acct_eq; [by apply alloc_spec | | done].
  unfold blocks, data_block. rewrite Ed.
  replace (a + AST_FRIENDLY_OFFSET - AST_FRIENDLY_OFFSET) with a by lia. multiset_solver.
Qed.

Lemma isolate_src_new a out fr h B R :
  SRC (mallocd out) = false → acct h (blocks out ⊎ (blocks fr ⊎ B)) R →
  match isolate_src false a out fr h with
  | Some (out', fr', h') =>
      acct h' (blocks out' ⊎ (blocks fr' ⊎ B)) R ∧ same_header out out' ∧ same_header fr fr' ∧
      src_block fr' = ∅ ∧ DATA (mallocd out') = DATA (mallocd out) ∧ offset out' = offset out ∧
      DATA (mallocd fr') = DATA (mallocd fr) ∧ data fr' = data fr ∧ offset fr' = offset fr ∧
      data out' = data out
  | None => True
  end.
Proof.
  intros Ho Ha. unfold isolate_src. destruct (src fr) as [[p s]|] eqn:Es.
  2:{ split_and!; auto using same_header_refl. unfold src_block. rewrite Es. by case_match. }
  destruct (SRC (mallocd fr)) eqn:Em; cbn [negb].
  - split_and!; try done. rewrite !blocks_set_src. eapply acct_eq; [done | | done].
    unfold blocks, src_block. rewrite Ho, Em, Es. multiset_solver.
  - destruct a as [a|]; [|done]. split_and!; auto using same_header_refl; try done.
    + rewrite blocks_set_src. eapply acct_eq; [by apply alloc_spec | | done].
      unfold blocks, src_block. rewrite Ho. multiset_solver.
    + unfold src_block. by rewrite Em.
Qed.

Lemma isolate_data_new a out fr h B R :
  data_ok fr → DATA (mallocd out) = false → offset out = offset fr →
  datalen out = datalen fr →
  acct h (blocks out ⊎ (blocks fr ⊎ B)) R →
  match isolate_data false a out fr h with
  | Some (out', fr', h') =>
      acct h' (blocks out' ⊎ (blocks fr' ⊎ B)) R ∧ same_header out out' ∧ same_header fr fr' ∧
      data_block fr' = ∅ ∧ src_block fr' = src_block fr ∧ data_ok out' ∧ DATA (mallocd fr') = false ∧
      (datalen fr ≠ 0 → bytes_of (data out') =
         (if DATA (mallocd fr) then bytes_of (data fr) else take (Z.to_nat (datalen fr)) (bytes_of (data fr))))
  | None => True
  end.
Proof.
  intros Hok Ho Hoff Hlen Ha. unfold isolate_data. destruct (DATA (mallocd fr)) eqn:Ed; cbn [negb].
  - specialize (Hok Ed). split_and!; try done.
    + rewrite !blocks_set_data. eapply acct_eq; [done | | done]. rewrite Hoff.
      unfold blocks, data_block. rewrite Ho, Ed. destruct (data fr); multiset_solver.
    + intros _. cbn. by destruct (data fr).
  - assert (data_block fr = ∅) as Hb by (unfold data_block; by rewrite Ed).
    destruct ((datalen fr =? 0) && _) eqn:Ez.
    + split_and!; auto using same_header_refl; try done.
      * eapply acct_eq; [done | | done]. unfold blocks, data_block. cbn. by rewrite Ho.
      * intros Hd. cbn in Hd. congruence.
      * apply andb_true_iff in Ez as [Ez _]. lia.
    + destruct a as [a|]; [|done]. split_and!; auto using same_header_refl; try done.
      rewrite blocks_set_data. eapply acct_eq; [by apply alloc_spec | | done].
      unfold blocks, data_block. rewrite Ho.
      replace (a + AST_FRIENDLY_OFFSET - AST_FRIENDLY_OFFSET) with a by lia. multiset_solver.
Qed.

(** What [ast_frisolate] promises of its result. *)
Definition iso_post fr h' B R (r : isolated) : Prop :=
  match r with
  | IsoNull fr' => acct h' (blocks fr' ⊎ B) (holds fr' ⊎ R) ∧ same_header fr fr' ∧ data_ok fr'
  | IsoSame fr' =>
      acct h' (blocks fr' ⊎ B) (holds fr' ⊎ R) ∧ same_header fr fr' ∧ data_ok fr' ∧
      HDR (mallocd fr) = true
  | IsoNew out fr' =>
      acct h' (blocks out ⊎ B) (holds out ⊎ R) ∧ blocks fr' = ∅ ∧ holds fr' = ∅ ∧ data_ok out ∧ data_ok fr' ∧
      HDR (mallocd fr) = false ∧ HDR (mallocd out) = true ∧
      frametype out = frametype fr ∧ subclass out = subclass fr ∧ datalen out = datalen fr ∧
      samples out = samples fr ∧ flag_has_timing_info out = flag_has_timing_info fr ∧
      stream_num out = stream_num fr ∧ flags_other out = flags_other fr ∧
      (datalen fr ≠ 0 →
       take (Z.to_nat (datalen fr)) (bytes_of (data out)) =
       take (Z.to_nat (datalen fr)) (bytes_of (data fr))) ∧
      (flag_has_timing_info fr = true →
       ts out = ts fr ∧ len out = len fr ∧ seqno out = seqno fr)
  end.

(** The one case in which the reference count goes wrong is left out: an
    answer frame that owns something but not its header. *)
Definition topology_counted fr : Prop :=
  is_answer fr = true → HDR (mallocd fr) = true ∨ mallocd fr = no_mallocd ∨
                        object (subclass fr) = None.

Lemma copy_header_blocks fr n : blocks (copy_header fr n) = {[+ addr n +]}.
Proof.
  unfold blocks, data_block, src_block, hdr_block. cbn [mallocd copy_header HDR SRC DATA hdr_mallocd addr].
  multiset_solver.
Qed.

Lemma isolate_same_spec asrc adata fr h B R :
  data_ok fr → HDR (mallocd fr) = true → acct h (blocks fr ⊎ B) (holds fr ⊎ R) →
  ∃ r h', isolate_same asrc adata fr h = Some (r, h') ∧ iso_post fr h' B R r.
Proof.
  intros Hok Hh Ha. unfold isolate_same.
  pose proof (isolate_src_same asrc fr h B _ Ha) as Hs.
  destruct (isolate_src true asrc fr fr h) as [[[fr1 x1] h1]|].
  2:{ eexists _, _. split; [reflexivity|]. cbn. split_and!; auto using same_header_refl. }
  destruct Hs as (Ha1 & Hsh1 & Hd1 & Hda1 & Hof1 & _).
  assert (data_ok fr1) as Hok1 by (unfold data_ok in *; rewrite Hd1, Hda1; done).
  pose proof (isolate_data_same adata fr1 h1 B _ Hok1 Ha1) as Hd.
  destruct (isolate_data true adata fr1 fr1 h1) as [[[fr2 x2] h2]|].
  - destruct Hd as (Ha2 & Hsh2 & Hok2 & _).
    pose proof (same_header_trans _ _ _ Hsh1 Hsh2) as Hsh.
    eexists _, _. split; [reflexivity|]. cbn. rewrite (same_header_holds _ _ Hsh). by split_and!.
  - eexists _, _. split; [reflexivity|]. cbn. rewrite (same_header_holds _ _ Hsh1). by split_and!.
Qed.

(** Freeing a header that was just made, and what it took over. *)
Lemma free_out out h B R :
  data_ok out → acct h (blocks out ⊎ B) (holds out ⊎ R) →
  ∃ x h', __frame_free has_cache cache_opt out false h = Some (x, h') ∧ acct h' B R.
Proof. apply frame_free_spec. Qed.

Lemma isolate_new_spec asrc adata out fr h B R :
  data_ok fr → mallocd out = hdr_mallocd → src out = None → offset out = offset fr →
  datalen out = datalen fr → HDR (mallocd fr) = false →
  frametype out = frametype fr → subclass out = subclass fr → samples out = samples fr →
  flag_has_timing_info out = flag_has_timing_info fr → stream_num out = stream_num fr →
  flags_other out = flags_other fr →
  (flag_has_timing_info fr = true → ts out = ts fr ∧ len out = len fr ∧ seqno out = seqno fr) →
  acct h (blocks out ⊎ (blocks fr ⊎ B)) (holds out ⊎ R) →
  ∃ r h', isolate_new has_cache cache_opt asrc adata out fr h = Some (r, h') ∧ iso_post fr h' B R r.
Proof.
  intros Hok Hm Hsrc Hoff Hlen Hh Hty Hsub Hsam Hti Hstr Hfl Hts Ha. unfold isolate_new.
  assert (data_ok out) as Hoko by (unfold data_ok; by rewrite Hm).
  assert (∀ f', same_header fr f' → holds f' = ∅) as Hnone
    by (intros f' Hs; rewrite (same_header_holds _ _ Hs); unfold holds; by rewrite Hh).
  assert (∀ f' h1, same_header fr f' → data_ok f' → acct h1 (blocks f' ⊎ B) R →
    iso_post fr h1 B R (IsoNull f')) as Hnull.
  { intros f' h1 Hs Hd Ha1. cbn. rewrite (Hnone f' Hs). split_and!; try done.
    eapply acct_eq; [done | done | multiset_solver]. }
  pose proof (isolate_src_new asrc out fr h B _ ltac:(by rewrite Hm) Ha) as Hs.
  destruct (isolate_src false asrc out fr h) as [[[out1 fr1] h1]|].
  2:{ destruct (free_out out h (blocks fr ⊎ B) R Hoko Ha) as (x & h' & -> & Ha').
      cbn [mbind option_bind]. eexists _, _. split; [reflexivity|].
      apply Hnull; auto using same_header_refl. }
  destruct Hs as (Ha1 & Hso1 & Hsf1 & Hsb1 & Hdo1 & Hoo1 & Hdf1 & Hda1 & Hof1 & Hdd1).
  assert (data_ok fr1) as Hok1 by (unfold data_ok in *; rewrite Hdf1, Hda1; done).
  assert (DATA (mallocd out1) = false) as Hd1 by (rewrite Hdo1, Hm; done).
  pose proof (isolate_data_new adata out1 fr1 h1 B _ Hok1 Hd1 ltac:(congruence)
    ltac:(rewrite (sh_datalen _ _ Hso1), (sh_datalen _ _ Hsf1); congruence) Ha1) as Hd.
  destruct (isolate_data false adata out1 fr1 h1) as [[[out2 fr2] h2]|].
  - destruct Hd as (Ha2 & Hso2 & Hsf2 & Hdb2 & Hsb2 & Hok2 & Hdf2 & Hby).
    pose proof (same_header_trans _ _ _ Hso1 Hso2) as Hso.
    pose proof (same_header_trans _ _ _ Hsf1 Hsf2) as Hsf.
    assert (blocks fr2 = ∅) as Hbl.
    { unfold blocks, hdr_block. rewrite Hdb2, Hsb2, Hsb1, (sh_hdr _ _ Hsf), Hh. multiset_solver. }
    eexists _, _. split; [reflexivity|]. cbn. rewrite Hbl in *.
    rewrite (same_header_holds _ _ Hso). destruct Hso as [Ea Eh Et Es El Esa Eti Ets Ele Ese Estr Efl].
    rewrite Eh, Hm, Et, Es, El, Esa, Eti, Estr, Efl, Ets, Ele, Ese.
    split_and!; try done.
    + eapply acct_eq; [done | multiset_solver | done].
    + by apply Hnone.
    + intros Hx. congruence.
    + intros Hnz. rewrite (sh_datalen _ _ Hsf1) in Hby. rewrite (Hby Hnz), Hda1.
      destruct (DATA (mallocd fr1)); [done|]. by rewrite take_take, Nat.min_id.
  - assert (data_ok out1) as Hoko1 by (unfold data_ok; by rewrite Hd1).
    destruct (free_out out1 h1 (blocks fr1 ⊎ B) R Hoko1) as (x & h' & -> & Ha').
    { by rewrite (same_header_holds _ _ Hso1). }
    cbn [mbind option_bind]. eexists _, _. split; [reflexivity|]. by apply Hnull.
Qed.

Lemma ast_frisolate_spec ahdr asrc adata fr h B R :
  data_ok fr → topology_counted fr → acct h (blocks fr ⊎ B) (holds fr ⊎ R) →
  ∃ r h', ast_frisolate sizeof_frame has_cache cache_opt ahdr asrc adata fr h = Some (r, h') ∧
    iso_post fr h' B R r.
Proof.
  intros Hok Htop Ha. unfold ast_frisolate. case_bool_decide as Hm.
  { assert (blocks fr = ∅) as Hb by (unfold blocks, data_block, src_block, hdr_block; by rewrite Hm).
    assert (holds fr = ∅) as Hho by (unfold holds; by rewrite Hm).
    pose proof (ast_frdup_spec ahdr fr h (blocks fr ⊎ B) (holds fr ⊎ R) Ha) as Hd.
    destruct (ast_frdup _ _ _ _ _) as [[out|] h'].
    - destruct Hd as (Ha' & Hok' & Hmo & [? ? ? ? Hby ? ? ?] & ? & ? & ? & _ & _).
      eexists _, _. split; [reflexivity|]. cbn. rewrite Hb, Hho, Hmo, Hm in *. split_and!; try done.
      + eapply acct_eq; [done | multiset_solver | multiset_solver].
      + intros Hnz. rewrite (Hby Hnz), take_take, Nat.min_id. done.
    - subst h'. eexists _, _. split; [reflexivity|]. cbn. split_and!; auto using same_header_refl. }
  destruct (HDR (mallocd fr) && _ && _) eqn:Eall.
  { apply andb_true_iff in Eall as [[Hh _]%andb_true_iff _].
    eexists _, _. split; [reflexivity|]. cbn. split_and!; auto using same_header_refl. }
  destruct (HDR (mallocd fr)) eqn:Hh; cbn [negb]; [by apply isolate_same_spec|].
  assert (holds fr = ∅) as Hho by (unfold holds; by rewrite Hh).
  pose proof (header_new_spec ahdr h _ _ Ha) as Hn.
  destruct (ast_frame_header_new _ _ _ _) as [[n|] h1].
  2:{ subst h1. eexists _, _. split; [reflexivity|]. cbn. split_and!; auto using same_header_refl. }
  destruct Hn as [_ Ha1]. rewrite Hho in Ha1.
  match goal with |- ∃ _ _, isolate_new _ _ _ _ (copy_header fr n) fr ?hh = _ ∧ _ => set (h2 := hh) end.
  assert (acct h2 (blocks (copy_header fr n) ⊎ (blocks fr ⊎ B)) (holds (copy_header fr n) ⊎ R)) as Ha2.
  { rewrite copy_header_blocks.
    assert (holds (copy_header fr n) =
      if is_media fr || is_answer fr then obj_refs (object (subclass fr)) else ∅) as -> by reflexivity.
    unfold h2. destruct (is_media fr) eqn:Em; cbn [orb].
    - eapply acct_eq; [by apply ao2_bump_spec | done | cbn [subclass copy_header]; multiset_solver].
    - rewrite bool_decide_false by (intros E; unfold is_media in Em; by rewrite E in Em). cbn [andb].
      destruct (is_answer fr) eqn:Ea.
      + destruct (Htop Ea) as [?|[?|Hobj]]; [congruence | done|]. rewrite Hobj. cbn [obj_refs].
        eapply acct_eq; [done | done | multiset_solver].
      + eapply acct_eq; [done | done | multiset_solver]. }
  apply isolate_new_spec; try done. intros Ht. cbn. by rewrite Ht.
Qed.
End Spec.

(** With memory, isolation succeeds. *)
Lemma ast_frisolate_some sizeof_frame has_cache cache_opt a1 a2 a3 fr h r h' :
  ast_frisolate sizeof_frame has_cache cache_opt (Some a1) (Some a2) (Some a3) fr h = Some (r, h') →
  match r with IsoNull _ => False | _ => True end.
Proof.
  assert (∀ same out fr h, isolate_src same (Some a2) out fr h ≠ None) as Hs
    by (intros; unfold isolate_src; repeat case_match; done).
  assert (∀ same out fr h, isolate_data same (Some a3) out fr h ≠ None) as Hd
    by (intros; unfold isolate_data; repeat case_match; done).
  assert (∀ out fr h r h', isolate_new has_cache cache_opt (Some a2) (Some a3) out fr h = Some (r, h') →
    match r with IsoNull _ => False | _ => True end) as Hnew.
  { intros out fr0 h0 r0 h0'. unfold isolate_new. specialize (Hs false out fr0 h0).
    destruct (isolate_src _ _ _ _ _) as [[[o1 f1] h1]|]; [|done]. specialize (Hd false o1 f1 h1).
    destruct (isolate_data _ _ _ _ _) as [[[o2 f2] h2]|]; [|done]. by intros [= <- <-]. }
  unfold ast_frisolate. case_bool_decide.
  { unfold ast_frdup. destruct (take_cached _ _) as [[g l]|]; intros; simplify_eq; done. }
  destruct (_ && _ && _); [by intros [= <- <-]|]. destruct (HDR (mallocd fr)); cbn [negb].
  - unfold isolate_same. specialize (Hs true fr fr h).
    destruct (isolate_src _ _ _ _ _) as [[[o1 f1] h1]|]; [|done]. specialize (Hd true o1 o1 h1).
    destruct (isolate_data _ _ _ _ _) as [[[o2 f2] h2]|]; [|done]. by intros [= <- <-].
  - unfold ast_frame_header_new. case_match eqn:E; destruct (if has_cache then cache h else []);
      simplify_eq; apply Hnew.
Qed.

(** The frames a caller of [ast_frisolate] is left with. *)
Definition left_frames (r : isolated) : list ast_frame :=
  match r with IsoNull fr | IsoSame fr => [fr] | IsoNew out fr => [out; fr] end.

(** ** Properties *)

Module Properties.
Section Claims.
Context (sizeof_frame : Z) (has_cache cache_opt : bool).
Implicit Types (B R : gmultiset Z).

(** Isolating a frame keeps every block and every reference accounted
    for, whatever allocation fails: the result is the frame itself (when its
    header is on the heap), or a new frame with the same content that has
    taken over all the original owned, or null with the original still whole;
    with memory it is not null. *)
Theorem ast_frisolate_correct ahdr asrc adata fr h B R :
  data_ok fr → topology_counted fr → acct h (blocks fr ⊎ B) (holds fr ⊎ R) →
  ∃ r h', ast_frisolate sizeof_frame has_cache cache_opt ahdr asrc adata fr h = Some (r, h') ∧
    iso_post fr h' B R r ∧
    (is_Some ahdr → is_Some asrc → is_Some adata →
     match r with IsoNull _ => False | _ => True end).
Proof.
  intros Hok Htop Ha.
  destruct (ast_frisolate_spec sizeof_frame has_cache cache_opt ahdr asrc adata fr h B R Hok Htop Ha)
    as (r & h' & E & Hp).
  exists r, h'. split_and!; [done | done|]. intros [a1 ->] [a2 ->] [a3 ->].
  eapply ast_frisolate_some. exact E.
Qed.

(** Isolating a frame and then freeing everything the caller is left
    with, through the header cache or not, gives back every block and drops
    every reference the frame owned, none twice and none missed; emptying the
    cache then leaves exactly what belongs to others. *)
Theorem frisolate_free_roundtrip ahdr asrc adata fr h B R use_cache :
  data_ok fr → topology_counted fr → acct h (blocks fr ⊎ B) (holds fr ⊎ R) →
  ∃ r h1 h2 h3,
    ast_frisolate sizeof_frame has_cache cache_opt ahdr asrc adata fr h = Some (r, h1) ∧
    ast_frame_free has_cache cache_opt (left_frames r) use_cache h1 = Some h2 ∧
    frame_cache_cleanup h2 = Some h3 ∧ live h3 = B ∧ refs h3 = R ∧ cache h3 = [].
Proof.
  intros Hok Htop Ha.
  destruct (ast_frisolate_spec sizeof_frame has_cache cache_opt ahdr asrc adata fr h B R Hok Htop Ha)
    as (r & h1 & E & Hp).
  assert (∃ h2, ast_frame_free has_cache cache_opt (left_frames r) use_cache h1 = Some h2 ∧
    acct h2 B R) as (h2 & E2 & Ha2).
  { apply ast_frame_free_spec.
    - destruct r; cbn in Hp |- *; repeat constructor; tauto.
    - destruct r as [f1|f1|out f1]; cbn in Hp |- *; [apply Hp | apply Hp|].
      destruct Hp as (Ha1 & Hb & Hho & _). rewrite Hb, Hho.
      eapply acct_eq; [exact Ha1 | multiset_solver | multiset_solver]. }
  destruct (frame_cache_cleanup_spec h2 B R Ha2) as (h3 & E3 & Hl & Hr & Hc).
  by exists r, h1, h2, h3.
Qed.

(** An answer frame that owns its data but not its header is isolated
    without taking a reference on its topology, and freeing the isolated frame
    drops one: the reference of the topology's owner is gone. *)
Theorem frisolate_answer_drops_reference ahdr asrc adata fr h t out fr' h1 f2 h2 :
  is_answer fr = true → object (subclass fr) = Some t → mallocd fr = Mallocd false false true →
  src fr = None →
  ast_frisolate sizeof_frame has_cache cache_opt ahdr asrc adata fr h = Some (IsoNew out fr', h1) →
  __frame_free has_cache cache_opt out false h1 = Some (f2, h2) →
  refs h1 = refs h ∧ refs h2 = refs h ∖ {[+ t +]}.
Proof.
  intros Hans Hobj Hm Hsrc Hiso Hfree. unfold ast_frisolate in Hiso. rewrite Hm in Hiso.
  rewrite bool_decide_false in Hiso by done. cbn [HDR SRC DATA andb negb] in Hiso.
  assert (is_media fr = false) as Hmed.
  { unfold is_answer, is_media in *. apply andb_true_iff in Hans as [Hc%bool_decide_eq_true _].
    by rewrite Hc. }
  assert (frametype fr = AST_FRAME_CONTROL) as Hctl.
  { unfold is_answer in Hans. by apply andb_true_iff in Hans as [Hc%bool_decide_eq_true _]. }
  rewrite Hmed, Hctl, bool_decide_false in Hiso by done. cbn [andb] in Hiso.
  destruct (ast_frame_header_new _ _ _ _) as [[n|] h0] eqn:Eh; [|done].
  assert (refs h0 = refs h) as Hr0.
  { unfold ast_frame_header_new in Eh. repeat case_match; by simplify_eq. }
  unfold isolate_new, isolate_src, isolate_data in Hiso. rewrite Hsrc, Hm in Hiso.
  cbn [DATA negb] in Hiso. simplify_eq. split; [done|].
  revert Hfree. unfold __frame_free. cbn [set_data mallocd with_data copy_header hdr_mallocd HDR SRC DATA].
  rewrite bool_decide_false by done. rewrite bool_decide_false by done. cbn [andb].
  unfold release_refs.
  assert (∀ m o d, is_media (set_data m o d (copy_header fr n)) = is_media fr) as -> by done.
  assert (∀ m o d, is_answer (set_data m o d (copy_header fr n)) = is_answer fr) as -> by done.
  rewrite Hmed, Hans. cbn [subclass set_data copy_header]. rewrite Hobj. unfold ao2_cleanup, ast_free.
  intros Hfree. repeat (case_match; cbn [mbind option_bind] in Hfree; simplify_eq); hs; congruence.
Qed.
End Claims.

(** *** Witnesses *)

(** A voice frame on somebody's stack with a data buffer of its own. *)
Definition w_frame : ast_frame :=
  AstFrame 9000 AST_FRAME_VOICE (Subclass 0 (Some 50) 0) 3 3 (Mallocd false false true) 0 64
    (Some (8000, "mgcp"%string)) (DPtr 1064 [1; 2; 3]) (ast_tv 0 0) true 0 40 20 7 0.
Definition w_heap : heap :=
  Heap (blocks w_frame ⊎ {[+ 77 +]}) {[+ 50 +]} [] 0.

Lemma w_frame_ok : data_ok w_frame ∧ topology_counted w_frame ∧
  acct w_heap (blocks w_frame ⊎ {[+ 77 +]}) (holds w_frame ⊎ {[+ 50 +]}).
Proof.
  split; [intros _; exact Logic.I|]. split; [intros Hx; vm_compute in Hx; discriminate|].
  split.
  - unfold w_heap, cache_blocks. hs. rewrite fmap_nil, list_to_set_disj_nil. multiset_solver.
  - unfold holds. cbn [w_frame mallocd HDR andb]. unfold w_heap. hs. multiset_solver.
Qed.

Lemma ast_frisolate_correct_witness :
  ∃ r h', ast_frisolate 200 true true (Some 5000) (Some 6000) None w_frame w_heap = Some (r, h') ∧
    iso_post w_frame h' {[+ 77 +]} {[+ 50 +]} r.
Proof.
  destruct w_frame_ok as (H1 & H2 & H3).
  destruct (ast_frisolate_correct 200 true true (Some 5000) (Some 6000) None w_frame w_heap
    {[+ 77 +]} {[+ 50 +]} H1 H2 H3) as (r & h' & E & Hp & _).
  exists r, h'. split; [exact E | exact Hp].
Defined.

Lemma frisolate_free_roundtrip_witness :
  ∃ r h1 h2 h3,
    ast_frisolate 200 true true (Some 5000) (Some 6000) None w_frame w_heap = Some (r, h1) ∧
    ast_frame_free true true (left_frames r) true h1 = Some h2 ∧
    frame_cache_cleanup h2 = Some h3 ∧ live h3 = {[+ 77 +]} ∧ refs h3 = {[+ 50 +]}.
Proof.
  destruct w_frame_ok as (H1 & H2 & H3).
  destruct (frisolate_free_roundtrip 200 true true (Some 5000) (Some 6000) None w_frame w_heap
    {[+ 77 +]} {[+ 50 +]} true H1 H2 H3) as (r & h1 & h2 & h3 & E1 & E2 & E3 & E4 & E5 & _).
  exists r, h1, h2, h3. repeat (split; [assumption|]). assumption.
Defined.

(** An answer frame with a topology. *)
Definition w_answer : ast_frame :=
  AstFrame 9000 AST_FRAME_CONTROL (Subclass 4 (Some 60) 0) 3 0 (Mallocd false false true) 0 64
    None (DPtr 1064 [1; 2; 3]) (ast_tv 0 0) false 0 0 0 0 0.
Definition w_answer_heap : heap := Heap {[+ 1000 +]} {[+ 60 +]} [] 0.

Lemma frisolate_answer_drops_reference_witness :
  ∃ out fr' h1 f2 h2,
    ast_frisolate 200 false true (Some 5000) None None w_answer w_answer_heap = Some (IsoNew out fr', h1) ∧
    __frame_free false true out false h1 = Some (f2, h2) ∧
    refs h2 = {[+ 60 +]} ∖ {[+ 60 +]}.
Proof.
  destruct (ast_frisolate 200 false true (Some 5000) None None w_answer w_answer_heap)
    as [[[fr'|fr'|out fr'] h1]|] eqn:E1; try (vm_compute in E1; discriminate E1).
  destruct (__frame_free false true out false h1) as [[f2 h2]|] eqn:E2.
  2:{ exfalso. revert E2. cbn in E1. injection E1 as <- <- <-. vm_compute. discriminate. }
  exists out, fr', h1, f2, h2. split; [reflexivity|]. split; [exact E2|].
  exact (proj2 (frisolate_answer_drops_reference 200 false true (Some 5000) None None w_answer
    w_answer_heap 60 out fr' h1 f2 h2 eq_refl eq_refl eq_refl eq_refl E1 E2)).
Defined.

End Properties.
