(* ===== verification/AbstractJb.v ===== *)
(** * The abstract jitter buffer ([main/abstract_jb.c], [include/asterisk/abstract_jb.h])

    Channels see one jitter buffer interface, [struct ast_jb_impl], a table of
    function pointers over an opaque object; the fixed and the adaptive
    buffers implement it.  The opaque [void *] is the tagged union [jbobj]: a
    call through a table on an object of the other implementation is
    undefined, which the model writes [None] (as it does for a null
    dereference).  [JbImpl] states what a table promises to its callers; both
    tables are proved to keep the promise and the bridge side
    ([ast_jb_put], [jb_get_and_deliver], [ast_jb_destroy], ...) is verified
    against the promise alone.

    A frame is a heap object with an identity [fr_id]; operations that free
    frames return the list of the frames they freed, in order.  Outcomes of
    allocations ([ast_frdup], [ast_calloc]) and readings of the clock are
    arguments.  Flag words are records of booleans; the frame log file is not
    modelled. *)

From stdpp Require Import base numbers list strings sorting relations.
From Stdlib Require Import ZArith Lia Ascii.
From S2P Require Import Prelude Timeval FixedJb JitterBuf.
Local Open Scope cint_scope.

(** ** Frames *)

(** The fields of [struct ast_codec] and [struct ast_format] in use. *)
Record ast_format := AstFormat {
  format_id : Z;
  default_ms : Z;
  sample_rate : Z;
  is_g722 : bool;  (* compares equal to ast_format_g722 *)
}.

Inductive ast_control_frame_type :=
  | AST_CONTROL_HOLD | AST_CONTROL_UNHOLD | AST_CONTROL_T38_PARAMETERS
  | AST_CONTROL_SRCUPDATE | AST_CONTROL_SRCCHANGE | AST_CONTROL_OTHER (n : Z).

(** [sender_information] of an RTCP report. *)
Record rtcp_sender_info := RtcpSenderInfo { rtp_timestamp : Z; ntp_timestamp : timeval }.

(** [frametype] with the part of [subclass] and [data] that goes with it. *)
Inductive ast_frame_type :=
  | AST_FRAME_VOICE (format : ast_format)
  | AST_FRAME_VIDEO
  | AST_FRAME_DTMF
  | AST_FRAME_NULL
  | AST_FRAME_CONTROL (c : ast_control_frame_type)
  | AST_FRAME_RTCP (sr : option rtcp_sender_info)
  | AST_FRAME_OTHER (n : Z).

Record ast_frame := AstFrame {
  fr_id : Z;
  frametype : ast_frame_type;
  fr_ts : Z;
  fr_len : Z;
  has_timing_info : bool;
  fr_requeued : bool;
  stream_num : Z;
  (* [mallocd & AST_MALLOCD_HDR]: the header is on the heap *)
  mallocd_hdr : bool;
}.

#[export] Instance ast_format_eq_dec : EqDecision ast_format.
Proof. solve_decision. Defined.
#[export] Instance ast_control_frame_type_eq_dec : EqDecision ast_control_frame_type.
Proof. solve_decision. Defined.
#[export] Instance rtcp_sender_info_eq_dec : EqDecision rtcp_sender_info.
Proof. solve_decision. Defined.
#[export] Instance ast_frame_type_eq_dec : EqDecision ast_frame_type.
Proof. solve_decision. Defined.
#[export] Instance ast_frame_eq_dec : EqDecision ast_frame.
Proof. solve_decision. Defined.

Definition ast_null_frame : ast_frame := AstFrame 0 AST_FRAME_NULL 0 0 false false 0 false.

Definition is_voice (f : ast_frame) : bool :=
  match frametype f with AST_FRAME_VOICE _ => true | _ => false end.

(** [f->subclass.format], null unless the frame carries media. *)
Definition frame_format (f : ast_frame) : option ast_format :=
  match frametype f with AST_FRAME_VOICE fmt => Some fmt | _ => None end.

(** [ast_frdup]: a heap copy, at the address the allocator returned. *)
Definition ast_frdup (addr : option Z) (f : ast_frame) : option ast_frame :=
  a ← addr;
  Some (AstFrame a (frametype f) (fr_ts f) (fr_len f)
          (has_timing_info f) (fr_requeued f) (stream_num f) true).

(** ** Configuration *)

Record ast_jb_conf := AstJbConf {
  AST_JB_ENABLED : bool;
  AST_JB_FORCED : bool;
  AST_JB_LOG : bool;
  AST_JB_SYNC_VIDEO : bool;
  max_size : Z;
  resync_threshold : Z;
  impl : string;
  target_extra : Z;
}.

Inductive ast_jb_type := AST_JB_FIXED | AST_JB_ADAPTIVE.

Inductive jb_impl_code :=
  | AST_JB_IMPL_OK | AST_JB_IMPL_DROP | AST_JB_IMPL_INTERP | AST_JB_IMPL_NOFRAME.

#[export] Instance ast_jb_type_eq_dec : EqDecision ast_jb_type.
Proof. solve_decision. Defined.
#[export] Instance jb_impl_code_eq_dec : EqDecision jb_impl_code.
Proof. solve_decision. Defined.

(** ** Implementations *)

(** What a [void *jb] may point to. *)
Inductive jbobj :=
  | FixedObj (j : fixed_jb ast_frame)
  | AdaptiveObj (j : jitterbuf ast_frame).

Definition as_fixed (o : jbobj) : option (fixed_jb ast_frame) :=
  match o with FixedObj j => Some j | _ => None end.
Definition as_adaptive (o : jbobj) : option (jitterbuf ast_frame) :=
  match o with AdaptiveObj j => Some j | _ => None end.

Record ast_jb_impl := AstJbImpl {
  name : string;
  type : ast_jb_type;
  create : bool → ast_jb_conf → option jbobj;
  destroy : jbobj → option (list ast_frame);
  put_first : bool → jbobj → ast_frame → Z → option (jb_impl_code * jbobj);
  put : bool → jbobj → ast_frame → Z → option (jb_impl_code * jbobj);
  get : jbobj → Z → Z → option (jb_impl_code * ast_frame * jbobj);
  next : jbobj → option (Z * jbobj);
  remove : jbobj → option (jb_impl_code * option ast_frame * jbobj);
  force_resync : jbobj → option jbobj;
  empty_and_reset : jbobj → option (list ast_frame * jbobj);
  is_late : jbobj → Z → option bool;
}.

(** The loops that take frames out one by one until there is none and free
    each: [step] returns the next frame, or none. *)
Fixpoint remove_all {J A} (step : J → option (option A * J)) (fuel : nat) (j : J) :
    option (list A * J) :=
  match fuel with
  | O => None
  | S fuel =>
    '(fo, j) ← step j;
    match fo with
    | None => Some ([], j)
    | Some f => '(fs, j) ← remove_all step fuel j; Some (f :: fs, j)
    end
  end.

(** *** fixed *)

Definition fixed_to_abstract_code (c : fixed_jb_code) : jb_impl_code :=
  match c with
  | FIXED_JB_OK => AST_JB_IMPL_OK
  | FIXED_JB_DROP => AST_JB_IMPL_DROP
  | FIXED_JB_INTERP => AST_JB_IMPL_INTERP
  | FIXED_JB_NOFRAME => AST_JB_IMPL_NOFRAME
  end.

Definition jb_create_fixed (alloc_ok : bool) (c : ast_jb_conf) : option jbobj :=
  if alloc_ok then Some (FixedObj (fixed_jb_new (FixedJbConf (max_size c) (resync_threshold c))))
  else None.

Definition fixed_remove_step (j : fixed_jb ast_frame) :
    option (option ast_frame * fixed_jb ast_frame) :=
  '(code, fr, j) ← fixed_jb_remove j;
  Some (if bool_decide (code = FIXED_JB_OK) then option_map FixedJb.fdata fr else None, j).

Definition jb_empty_and_reset_fixed (jb : jbobj) : option (list ast_frame * jbobj) :=
  fixedjb ← as_fixed jb;
  '(freed, fixedjb) ←
    remove_all fixed_remove_step (S (length (FixedJb.frames fixedjb))) fixedjb;
  Some (freed, FixedObj fixedjb).

(** [fixed_jb_destroy] asserts that the queue is empty. *)
Definition jb_destroy_fixed (jb : jbobj) : option (list ast_frame) :=
  '(freed, jb) ← jb_empty_and_reset_fixed jb;
  fixedjb ← as_fixed jb;
  if bool_decide (length (FixedJb.frames fixedjb) = 0%nat) then Some freed else None.

Definition jb_put_first_fixed (_ : bool) (jb : jbobj) (fin : ast_frame) (now : Z) :
    option (jb_impl_code * jbobj) :=
  fixedjb ← as_fixed jb;
  '(res, fixedjb) ← fixed_jb_put_first fixedjb fin (fr_len fin) (fr_ts fin) now;
  Some (fixed_to_abstract_code res, FixedObj fixedjb).

Definition jb_put_fixed (_ : bool) (jb : jbobj) (fin : ast_frame) (now : Z) :
    option (jb_impl_code * jbobj) :=
  fixedjb ← as_fixed jb;
  '(res, fixedjb) ← fixed_jb_put fixedjb fin (fr_len fin) (fr_ts fin) now;
  Some (fixed_to_abstract_code res, FixedObj fixedjb).

Definition jb_get_fixed (jb : jbobj) (now interpl : Z) :
    option (jb_impl_code * ast_frame * jbobj) :=
  fixedjb ← as_fixed jb;
  '(res, frame, fixedjb) ← fixed_jb_get fixedjb now interpl;
  Some (fixed_to_abstract_code res, default ast_null_frame (option_map FixedJb.fdata frame),
        FixedObj fixedjb).

Definition jb_next_fixed (jb : jbobj) : option (Z * jbobj) :=
  fixedjb ← as_fixed jb; Some (fixed_jb_next fixedjb, jb).

Definition jb_remove_fixed (jb : jbobj) : option (jb_impl_code * option ast_frame * jbobj) :=
  fixedjb ← as_fixed jb;
  '(res, frame, fixedjb) ← fixed_jb_remove fixedjb;
  Some (fixed_to_abstract_code res, option_map FixedJb.fdata frame, FixedObj fixedjb).

Definition jb_force_resynch_fixed (jb : jbobj) : option jbobj :=
  fixedjb ← as_fixed jb; Some (FixedObj (fixed_jb_set_force_resynch fixedjb)).

Definition jb_is_late_fixed (jb : jbobj) (ts : Z) : option bool :=
  fixedjb ← as_fixed jb; Some (fixed_jb_is_late fixedjb ts).

(** *** adaptive *)

Definition adaptive_to_abstract_code (c : jb_return_code) : jb_impl_code :=
  match c with
  | JB_OK => AST_JB_IMPL_OK
  | JB_EMPTY => AST_JB_IMPL_NOFRAME
  | JB_NOFRAME => AST_JB_IMPL_NOFRAME
  | JB_INTERP => AST_JB_IMPL_INTERP
  | JB_DROP => AST_JB_IMPL_DROP
  | JB_SCHED => AST_JB_IMPL_OK
  end.

Definition jb_create_adaptive (alloc_ok : bool) (c : ast_jb_conf) : option jbobj :=
  adaptivejb ← jb_new alloc_ok;
  let jbconf := JbConf (max_size c) (resync_threshold c) 10 (target_extra c) in
  Some (AdaptiveObj (jb_setconf adaptivejb jbconf).2).

(** [jb_destroy] gives back the frame structures of the free list; it does not
    look at the queue. *)
Definition jb_destroy_adaptive (jb : jbobj) : option (list ast_frame) :=
  adaptivejb ← as_adaptive jb; Some [].

Definition jb_put_adaptive (alloc_ok : bool) (jb : jbobj) (fin : ast_frame) (now : Z) :
    option (jb_impl_code * jbobj) :=
  adaptivejb ← as_adaptive jb;
  let '(res, adaptivejb) :=
    jb_put alloc_ok adaptivejb fin JB_TYPE_VOICE (fr_len fin) (fr_ts fin) now in
  Some (adaptive_to_abstract_code res, AdaptiveObj adaptivejb).

Definition jb_put_first_adaptive (alloc_ok : bool) (jb : jbobj) (fin : ast_frame) (now : Z) :
    option (jb_impl_code * jbobj) :=
  jb_put_adaptive alloc_ok jb fin now.

Definition jb_get_adaptive (jb : jbobj) (now interpl : Z) :
    option (jb_impl_code * ast_frame * jbobj) :=
  adaptivejb ← as_adaptive jb;
  let frame := JbFrame ast_null_frame 0 0 JB_TYPE_CONTROL in
  let '(res, frame, adaptivejb) := jb_get adaptivejb frame now interpl in
  Some (adaptive_to_abstract_code res, JitterBuf.fdata frame, AdaptiveObj adaptivejb).

Definition jb_next_adaptive (jb : jbobj) : option (Z * jbobj) :=
  adaptivejb ← as_adaptive jb;
  let '(t, adaptivejb) := jb_next adaptivejb in Some (t, AdaptiveObj adaptivejb).

Definition jb_remove_adaptive (jb : jbobj) :
    option (jb_impl_code * option ast_frame * jbobj) :=
  adaptivejb ← as_adaptive jb;
  let '(res, frame, adaptivejb) := jb_getall adaptivejb in
  Some (adaptive_to_abstract_code res, option_map JitterBuf.fdata frame, AdaptiveObj adaptivejb).

Definition jb_force_resynch_adaptive (jb : jbobj) : option jbobj := Some jb.

Definition adaptive_remove_step (j : jitterbuf ast_frame) :
    option (option ast_frame * jitterbuf ast_frame) :=
  let '(code, fr, j) := jb_getall j in
  Some (if bool_decide (code = JB_OK) then option_map JitterBuf.fdata fr else None, j).

Definition jb_empty_and_reset_adaptive (jb : jbobj) : option (list ast_frame * jbobj) :=
  adaptivejb ← as_adaptive jb;
  '(freed, adaptivejb) ←
    remove_all adaptive_remove_step (S (length (JitterBuf.frames adaptivejb))) adaptivejb;
  Some (freed, AdaptiveObj (jb_reset adaptivejb)).

Definition jb_is_late_adaptive (jb : jbobj) (ts : Z) : option bool :=
  adaptivejb ← as_adaptive jb; Some (jb_is_late adaptivejb ts).

(** *** The table of implementations *)

Definition fixed_impl : ast_jb_impl :=
  AstJbImpl "fixed" AST_JB_FIXED jb_create_fixed jb_destroy_fixed jb_put_first_fixed
    jb_put_fixed jb_get_fixed jb_next_fixed jb_remove_fixed jb_force_resynch_fixed
    jb_empty_and_reset_fixed jb_is_late_fixed.

Definition adaptive_impl : ast_jb_impl :=
  AstJbImpl "adaptive" AST_JB_ADAPTIVE jb_create_adaptive jb_destroy_adaptive
    jb_put_first_adaptive jb_put_adaptive jb_get_adaptive jb_next_adaptive
    jb_remove_adaptive jb_force_resynch_adaptive jb_empty_and_reset_adaptive
    jb_is_late_adaptive.

Definition avail_impl : list ast_jb_impl := [fixed_impl; adaptive_impl].
Definition default_impl : nat := 0.

Definition ast_jb_get_impl (t : ast_jb_type) : option ast_jb_impl :=
  head (filter (λ i, type i = t) avail_impl).

(** ** Reading the configuration *)

Definition conf_enabled (b : bool) (c : ast_jb_conf) : ast_jb_conf :=
  AstJbConf b (AST_JB_FORCED c) (AST_JB_LOG c) (AST_JB_SYNC_VIDEO c) (max_size c)
    (resync_threshold c) (impl c) (target_extra c).
Definition conf_forced (b : bool) (c : ast_jb_conf) : ast_jb_conf :=
  AstJbConf (AST_JB_ENABLED c) b (AST_JB_LOG c) (AST_JB_SYNC_VIDEO c) (max_size c)
    (resync_threshold c) (impl c) (target_extra c).
Definition conf_log (b : bool) (c : ast_jb_conf) : ast_jb_conf :=
  AstJbConf (AST_JB_ENABLED c) (AST_JB_FORCED c) b (AST_JB_SYNC_VIDEO c) (max_size c)
    (resync_threshold c) (impl c) (target_extra c).
Definition conf_sync_video (b : bool) (c : ast_jb_conf) : ast_jb_conf :=
  AstJbConf (AST_JB_ENABLED c) (AST_JB_FORCED c) (AST_JB_LOG c) b (max_size c)
    (resync_threshold c) (impl c) (target_extra c).
Definition conf_max_size (n : Z) (c : ast_jb_conf) : ast_jb_conf :=
  AstJbConf (AST_JB_ENABLED c) (AST_JB_FORCED c) (AST_JB_LOG c) (AST_JB_SYNC_VIDEO c) n
    (resync_threshold c) (impl c) (target_extra c).
Definition conf_resync (n : Z) (c : ast_jb_conf) : ast_jb_conf :=
  AstJbConf (AST_JB_ENABLED c) (AST_JB_FORCED c) (AST_JB_LOG c) (AST_JB_SYNC_VIDEO c)
    (max_size c) n (impl c) (target_extra c).
Definition conf_impl (s : string) (c : ast_jb_conf) : ast_jb_conf :=
  AstJbConf (AST_JB_ENABLED c) (AST_JB_FORCED c) (AST_JB_LOG c) (AST_JB_SYNC_VIDEO c)
    (max_size c) (resync_threshold c) s (target_extra c).
Definition conf_target_extra (n : Z) (c : ast_jb_conf) : ast_jb_conf :=
  AstJbConf (AST_JB_ENABLED c) (AST_JB_FORCED c) (AST_JB_LOG c) (AST_JB_SYNC_VIDEO c)
    (max_size c) (resync_threshold c) (impl c) n.

(** C strings: comparison up to ASCII case, and decimal numbers as [strtol]
    reads them (saturating at the range of [long]). *)
Definition tolower (c : ascii) : ascii :=
  let n := nat_of_ascii c in
  if (65 <=? n)%nat && (n <=? 90)%nat then ascii_of_nat (n + 32) else c.

Definition strcasecmp_eq (s t : string) : bool :=
  bool_decide (tolower <$> String.list_ascii_of_string s = tolower <$> String.list_ascii_of_string t).

Definition isspace (c : ascii) : bool :=
  let n := nat_of_ascii c in ((9 <=? n)%nat && (n <=? 13)%nat) || (n =? 32)%nat.

Fixpoint skip_spaces (l : list ascii) : list ascii :=
  match l with c :: r => if isspace c then skip_spaces r else l | [] => [] end.

Definition digit_of (c : ascii) : option Z :=
  let n := Z.of_nat (nat_of_ascii c) in
  if (48 <=? n) && (n <=? 57) then Some (n - 48) else None.

Fixpoint scan_digits (acc : option Z) (l : list ascii) : option Z :=
  match l with
  | c :: r => match digit_of c with
              | Some d => scan_digits (Some (default 0 acc * 10 + d)) r
              | None => acc
              end
  | [] => acc
  end.

Definition scan_decimal (width : nat) (s : string) : option Z :=
  match take width (skip_spaces (String.list_ascii_of_string s)) with
  | "-"%char :: r => Z.opp <$> scan_digits None r
  | "+"%char :: r => scan_digits None r
  | l => scan_digits None l
  end.

Definition long_to_int (n : Z) : Z := s32 (Z.max (- 2 ^ 63) (Z.min (2 ^ 63 - 1) n)).

Definition atoi (s : string) : Z :=
  default 0 (long_to_int <$> scan_decimal (String.length s) s).
Definition sscanf_30d (s : string) : option Z := long_to_int <$> scan_decimal 30 s.

Definition ast_true (s : string) : bool :=
  if bool_decide (s = ""%string) then false
  else strcasecmp_eq s "yes" || strcasecmp_eq s "true" || strcasecmp_eq s "y" ||
       strcasecmp_eq s "t" || strcasecmp_eq s "1" || strcasecmp_eq s "on".

Definition AST_JB_IMPL_NAME_SIZE : nat := 12.

(** Returns the C result and the configuration. *)
Definition ast_jb_read_conf (conf : ast_jb_conf) (varname value : string) : Z * ast_jb_conf :=
  if negb (strcasecmp_eq "jb" (String.substring 0 2 varname)) then (-1, conf)
  else
    let name := String.substring 2 (String.length varname - 2) varname in
    if strcasecmp_eq name "enable" then (0, conf_enabled (ast_true value) conf)
    else if strcasecmp_eq name "force" then (0, conf_forced (ast_true value) conf)
    else if strcasecmp_eq name "maxsize" then
      let tmp := atoi value in (0, if tmp >? 0 then conf_max_size tmp conf else conf)
    else if strcasecmp_eq name "resyncthreshold" then
      let tmp := atoi value in (0, if tmp >? 0 then conf_resync tmp conf else conf)
    else if strcasecmp_eq name "impl" then
      (0, if bool_decide (value = ""%string) then conf
          else conf_impl (String.substring 0 (AST_JB_IMPL_NAME_SIZE - 1) value) conf)
    else if strcasecmp_eq name "targetextra" then
      (0, match sscanf_30d value with Some tmp => conf_target_extra tmp conf | None => conf end)
    else if strcasecmp_eq name "log" then (0, conf_log (ast_true value) conf)
    else if strcasecmp_eq name "syncvideo" then (0, conf_sync_video (ast_true value) conf)
    else (-1, conf).

Definition ast_jb_conf_default : ast_jb_conf :=
  AstJbConf false false false false 200 1000 "fixed" 40.

(** ** The buffer of a channel *)

Record ast_jb := AstJb {
  jb_config : ast_jb_conf;
  jb_impl : option ast_jb_impl;
  jb_object : option jbobj;
  jb_timebase : timeval;
  jb_next_time : Z;
  jb_last_format : option ast_format;
  JB_USE : bool;
  JB_TIMEBASE_INITIALIZED : bool;
  JB_CREATED : bool;
}.

Implicit Types (jb : ast_jb) (f : ast_frame) (o : jbobj).

Definition set_config (c : ast_jb_conf) jb : ast_jb :=
  AstJb c (jb_impl jb) (jb_object jb) (jb_timebase jb) (jb_next_time jb) (jb_last_format jb)
    (JB_USE jb) (JB_TIMEBASE_INITIALIZED jb) (JB_CREATED jb).
Definition set_impl (i : ast_jb_impl) jb : ast_jb :=
  AstJb (jb_config jb) (Some i) (jb_object jb) (jb_timebase jb) (jb_next_time jb)
    (jb_last_format jb) (JB_USE jb) (JB_TIMEBASE_INITIALIZED jb) (JB_CREATED jb).
Definition set_object (x : option jbobj) jb : ast_jb :=
  AstJb (jb_config jb) (jb_impl jb) x (jb_timebase jb) (jb_next_time jb)
    (jb_last_format jb) (JB_USE jb) (JB_TIMEBASE_INITIALIZED jb) (JB_CREATED jb).
Definition set_timebase (t : timeval) jb : ast_jb :=
  AstJb (jb_config jb) (jb_impl jb) (jb_object jb) t (jb_next_time jb)
    (jb_last_format jb) (JB_USE jb) true (JB_CREATED jb).
Definition set_next (n : Z) jb : ast_jb :=
  AstJb (jb_config jb) (jb_impl jb) (jb_object jb) (jb_timebase jb) n
    (jb_last_format jb) (JB_USE jb) (JB_TIMEBASE_INITIALIZED jb) (JB_CREATED jb).
Definition set_last_format (x : option ast_format) jb : ast_jb :=
  AstJb (jb_config jb) (jb_impl jb) (jb_object jb) (jb_timebase jb) (jb_next_time jb)
    x (JB_USE jb) (JB_TIMEBASE_INITIALIZED jb) (JB_CREATED jb).
Definition set_use (b : bool) jb : ast_jb :=
  AstJb (jb_config jb) (jb_impl jb) (jb_object jb) (jb_timebase jb) (jb_next_time jb)
    (jb_last_format jb) b (JB_TIMEBASE_INITIALIZED jb) (JB_CREATED jb).
Definition set_created (b : bool) jb : ast_jb :=
  AstJb (jb_config jb) (jb_impl jb) (jb_object jb) (jb_timebase jb) (jb_next_time jb)
    (jb_last_format jb) (JB_USE jb) (JB_TIMEBASE_INITIALIZED jb) b.

Definition ast_jb_configure jb (c : ast_jb_conf) : ast_jb := set_config c jb.
Definition ast_jb_get_config jb : ast_jb_conf := jb_config jb.

Definition jb_choose_impl jb : ast_jb :=
  let dflt := nth default_impl avail_impl fixed_impl in
  let jb := set_impl dflt jb in
  if bool_decide (impl (jb_config jb) = ""%string) then jb
  else
    match head (filter (λ i, strcasecmp_eq (impl (jb_config jb)) (name i)) avail_impl) with
    | Some test_impl => set_impl test_impl jb
    | None => jb
    end.

Definition get_now jb (when : timeval) : Z := ast_tvdiff_ms when (jb_timebase jb).

(** *** Deciding whether a bridge needs buffers *)

(** A channel: two properties of its technology, and its buffer. *)
Record ast_channel := AstChannel {
  AST_CHAN_TP_WANTSJITTER : bool;
  AST_CHAN_TP_CREATESJITTER : bool;
  chan_jb : ast_jb;
}.

(** One side: the audio going to [jb]'s channel comes from the other one.
    [peer_base] is the other side's time base if it was initialised when the
    check began. *)
Definition usecheck_side (wants forced peer_creates : bool) jb (peer_base : option timeval)
    (clock : timeval) : bool * ast_jb :=
  if ((negb wants && peer_creates) || (forced && peer_creates)) &&
     AST_JB_ENABLED (jb_config jb)
  then
    let created := JB_CREATED jb in
    let jb1 := set_use true jb in
    let jb2 := if negb (JB_TIMEBASE_INITIALIZED jb) then
                 set_timebase (default clock peer_base) jb1
               else jb1 in
    (true, if negb created then jb_choose_impl jb2 else jb2)
  else (false, jb).

(** [clock0] and [clock1] are the readings of the two [gettimeofday] calls. *)
Definition ast_jb_do_usecheck (c0 c1 : ast_channel) (clock0 clock1 : timeval) :
    bool * ast_jb * ast_jb :=
  let jb0 := chan_jb c0 in
  let jb1 := chan_jb c1 in
  let base j := if JB_TIMEBASE_INITIALIZED j then Some (jb_timebase j) else None in
  let '(use0, jb0') :=
    usecheck_side (AST_CHAN_TP_WANTSJITTER c0) (AST_JB_FORCED (jb_config jb0))
      (AST_CHAN_TP_CREATESJITTER c1) jb0 (base jb1) clock0 in
  let '(use1, jb1') :=
    usecheck_side (AST_CHAN_TP_WANTSJITTER c1) (AST_JB_FORCED (jb_config jb1))
      (AST_CHAN_TP_CREATESJITTER c0) jb1 (base jb0) clock1 in
  (use0 || use1, jb0', jb1').

Definition INT_MAX : Z := 2147483647.

Definition ast_jb_get_when_to_wakeup (jb0 jb1 : ast_jb) (time_left : Z) (tv_now : timeval) : Z :=
  let time_left := if time_left <? 0 then INT_MAX else time_left in
  let side j := if JB_USE j && JB_CREATED j then s32 (jb_next_time j - get_now j tv_now)
                else time_left in
  let wait0 := side jb0 in
  let wait1 := side jb1 in
  let wait := if wait0 <? wait1 then wait0 else wait1 in
  let wait := if wait <? time_left then wait else time_left in
  if wait =? INT_MAX then -1
  else if wait <? 1 then 1 else wait.

(** *** Putting a frame *)

(** Returns the C result, the frames freed and the buffer. *)
Definition create_jb (create_ok put_ok : bool) (clock : timeval) jb (frr : ast_frame) :
    option (Z * list ast_frame * ast_jb) :=
  jbimpl ← jb_impl jb;
  match create jbimpl create_ok (jb_config jb) with
  | None => Some (-1, [], set_object None jb)
  | Some jbobj =>
    let now := get_now jb clock in
    '(res, jbobj) ← put_first jbimpl put_ok jbobj frr now;
    '(nxt, jbobj) ← next jbimpl jbobj;
    let jb := set_last_format (frame_format frr) (set_next nxt (set_object (Some jbobj) jb)) in
    Some (0, if bool_decide (res = AST_JB_IMPL_OK) then [] else [frr], jb)
  end.

Definition ast_jb_put (dup_addr : option Z) (create_ok put_ok : bool) (clock : timeval) jb f :
    option (Z * list ast_frame * ast_jb) :=
  if negb (JB_USE jb) then Some (-1, [], jb)
  else if negb (is_voice f) then
    if bool_decide (frametype f = AST_FRAME_DTMF) && JB_CREATED jb then
      jbimpl ← jb_impl jb;
      jbobj ← jb_object jb;
      jbobj ← force_resync jbimpl jbobj;
      Some (-1, [], set_object (Some jbobj) jb)
    else Some (-1, [], jb)
  else if negb (has_timing_info f) || (fr_len f <? 2) || (fr_ts f <? 0) then Some (-1, [], jb)
  else
    match ast_frdup dup_addr f with
    | None => Some (-1, [], jb)
    | Some frr =>
      if negb (JB_CREATED jb) then
        '(rc, freed, jb) ← create_jb create_ok put_ok clock jb frr;
        if negb (rc =? 0) then Some (-1, freed ++ [frr], set_use false jb)
        else Some (0, freed, set_created true jb)
      else
        jbimpl ← jb_impl jb;
        jbobj ← jb_object jb;
        '(res, jbobj) ← put jbimpl put_ok jbobj frr (get_now jb clock);
        let jb := set_object (Some jbobj) jb in
        if negb (bool_decide (res = AST_JB_IMPL_OK)) then Some (0, [frr], jb)
        else
          '(nxt, jbobj) ← next jbimpl jbobj;
          Some (0, [], set_next nxt (set_object (Some jbobj) jb))
    end.

(** *** Delivering *)

(** What is written to the channel. *)
Inductive jb_write :=
  | Deliver (f : ast_frame)
  | Interpolate (format : option ast_format) (samples : Z) (delivery : timeval).

(** The loop: what was written, the frames freed, and the buffer. *)
Fixpoint deliver_loop (fuel : nat) (now : Z) jb : option (list jb_write * list ast_frame * ast_jb) :=
  match fuel with
  | O => None
  | S fuel =>
    if now <? jb_next_time jb then Some ([], [], jb)
    else
      jbimpl ← jb_impl jb;
      jbobj ← jb_object jb;
      last_format ← jb_last_format jb;
      let interpolation_len := default_ms last_format in
      '(res, f, jbobj) ← get jbimpl jbobj now interpolation_len;
      let jb := set_object (Some jbobj) jb in
      let go (w : list jb_write) (freed : list ast_frame) jb :=
        '(nxt, jbobj) ← next jbimpl jbobj;
        '(ws, fs, jb) ← deliver_loop fuel now (set_next nxt (set_object (Some jbobj) jb));
        Some (w ++ ws, freed ++ fs, jb) in
      match res with
      | AST_JB_IMPL_OK => go [Deliver f] [f] (set_last_format (frame_format f) jb)
      | AST_JB_IMPL_DROP => go [] [f] (set_last_format (frame_format f) jb)
      | AST_JB_IMPL_INTERP =>
        go [Interpolate (Some last_format) (interpolation_len * 8)
              (ast_tvadd (jb_timebase jb) (ast_samp2tv_1000 (jb_next_time jb)))] [] jb
      | AST_JB_IMPL_NOFRAME =>
        '(_, jbobj) ← next jbimpl jbobj;
        Some ([], [], set_object (Some jbobj) jb)
      end
  end.

Definition jb_get_and_deliver (fuel : nat) (clock : timeval) jb :
    option (list jb_write * list ast_frame * ast_jb) :=
  let now := get_now jb clock in
  jbimpl ← jb_impl jb;
  jbobj ← jb_object jb;
  '(nxt, jbobj) ← next jbimpl jbobj;
  let jb := set_next nxt (set_object (Some jbobj) jb) in
  if now <? nxt then Some ([], [], jb) else deliver_loop fuel now jb.

Definition ast_jb_get_and_deliver (fuel : nat) (clock0 clock1 : timeval) (jb0 jb1 : ast_jb) :
    option (list jb_write * list jb_write * list ast_frame * ast_jb * ast_jb) :=
  let side clock (j : ast_jb) :=
    if JB_USE j && JB_CREATED j then jb_get_and_deliver fuel clock j else Some ([], [], j) in
  '(w0, f0, jb0) ← side clock0 jb0;
  '(w1, f1, jb1) ← side clock1 jb1;
  Some (w0, w1, f0 ++ f1, jb0, jb1).

(** *** Emptying and destroying *)

(** The frames an object holds. *)
Definition obj_queued (o : jbobj) : list ast_frame :=
  match o with
  | FixedObj j => FixedJb.fdata <$> FixedJb.frames j
  | AdaptiveObj j => JitterBuf.fdata <$> JitterBuf.frames j
  end.

Definition impl_remove_step (i : ast_jb_impl) (o : jbobj) : option (option ast_frame * jbobj) :=
  '(res, f, o) ← remove i o;
  Some (if bool_decide (res = AST_JB_IMPL_OK) then f else None, o).

(** Returns the frames freed. *)
Definition ast_jb_destroy jb : option (list ast_frame * ast_jb) :=
  if JB_CREATED jb then
    jbimpl ← jb_impl jb;
    jbobj ← jb_object jb;
    '(freed, jbobj) ← remove_all (impl_remove_step jbimpl) (S (length (obj_queued jbobj))) jbobj;
    more ← destroy jbimpl jbobj;
    Some (freed ++ more, set_created false (set_object None jb))
  else Some ([], jb).

(** One side of [ast_jb_empty_and_reset]. *)
Definition reset_side jb : option (list ast_frame * ast_jb) :=
  if JB_USE jb && JB_CREATED jb then
    jbimpl ← jb_impl jb;
    jbobj ← jb_object jb;
    '(freed, jbobj) ← empty_and_reset jbimpl jbobj;
    Some (freed, set_object (Some jbobj) jb)
  else Some ([], jb).

Definition ast_jb_empty_and_reset (jb0 jb1 : ast_jb) :
    option (list ast_frame * ast_jb * ast_jb) :=
  '(f0, jb0) ← reset_side jb0;
  '(f1, jb1) ← reset_side jb1;
  Some (f0 ++ f1, jb0, jb1).

(** ** What an implementation promises *)

(** Nothing in the queue is due at [now], although the next delivery time may say
    so: only the adaptive buffer comes to this, in silence, or when it skips a
    frame of its length to shrink. *)
Definition nothing_due (now : Z) (o : jbobj) : Prop :=
  match o with
  | FixedObj _ => False
  | AdaptiveObj j =>
      Forall (λ fr, if silence_begin_ts j =? 0
                    then next_voice_ts j < JitterBuf.fts fr + current j + last_voice_ms j
                    else now < JitterBuf.fts fr + current j) (JitterBuf.frames j)
  end.

(** [obj_ok] is the invariant of the implementation's objects, [due o now] a
    consequence of "the next delivery time is not after [now]", and [pending]
    bounds the number of interpolations in a row at [now]. *)
Class JbImpl (I : ast_jb_impl) := {
  obj_ok : jbobj → Prop;
  due : jbobj → Z → Prop;
  pending : jbobj → Z → nat;
  create_law al c :
    match create I al c with
    | Some o => al = true ∧ obj_ok o ∧ obj_queued o = []
    | None => al = false
    end;
  put_law al o f now :
    obj_ok o → 2 <= fr_len f →
    ∃ code o', put I al o f now = Some (code, o') ∧ obj_ok o' ∧
      match code with
      | AST_JB_IMPL_OK => obj_queued o' ≡ₚ f :: obj_queued o ∨
                          al = false ∧ obj_queued o' = obj_queued o
      | AST_JB_IMPL_DROP => obj_queued o' = obj_queued o
      | _ => False
      end;
  put_first_law al o f now :
    obj_ok o → 2 <= fr_len f → obj_queued o = [] →
    ∃ code o', put_first I al o f now = Some (code, o') ∧ obj_ok o' ∧
      match code with
      | AST_JB_IMPL_OK => obj_queued o' = [f] ∨ al = false ∧ obj_queued o' = []
      | AST_JB_IMPL_DROP => obj_queued o' = []
      | _ => False
      end;
  get_law o now interpl :
    obj_ok o →
    ∃ code f o', get I o now interpl = Some (code, f, o') ∧ obj_ok o' ∧
      match code with
      | AST_JB_IMPL_OK | AST_JB_IMPL_DROP => obj_queued o = f :: obj_queued o'
      | AST_JB_IMPL_INTERP =>
          f = ast_null_frame ∧ obj_queued o' = obj_queued o ∧
          (due o now → 0 < interpl → (pending o' now < pending o now)%nat)
      | AST_JB_IMPL_NOFRAME =>
          f = ast_null_frame ∧ obj_queued o' = obj_queued o ∧
          (due o now → nothing_due now o')
      end;
  next_law o :
    obj_ok o →
    ∃ t o', next I o = Some (t, o') ∧ obj_ok o' ∧ obj_queued o' = obj_queued o ∧
      ∀ now, pending o' now = pending o now ∧ (t <= now → due o' now)
             ∧ (nothing_due now o → nothing_due now o');
  remove_law o :
    obj_ok o →
    match obj_queued o with
    | [] => ∃ code fo, remove I o = Some (code, fo, o) ∧ code ≠ AST_JB_IMPL_OK
    | f :: q => ∃ o', remove I o = Some (AST_JB_IMPL_OK, Some f, o') ∧ obj_ok o' ∧
                      obj_queued o' = q
    end;
  force_law o :
    obj_ok o → ∃ o', force_resync I o = Some o' ∧ obj_ok o' ∧ obj_queued o' = obj_queued o;
  reset_law o :
    obj_ok o → ∃ o', empty_and_reset I o = Some (obj_queued o, o') ∧ obj_ok o' ∧
                     obj_queued o' = [];
  destroy_law o : obj_ok o → obj_queued o = [] → destroy I o = Some [];
  is_late_law o ts : obj_ok o → is_Some (is_late I o ts);
}.

(** *** Taking everything out *)

Section RemoveAll.
Context {J A : Type} (ok : J → Prop) (q : J → list A) (step : J → option (option A * J)).
Hypothesis step_law : ∀ j, ok j →
  match q j with
  | [] => step j = Some (None, j)
  | x :: l => ∃ j', step j = Some (Some x, j') ∧ ok j' ∧ q j' = l
  end.

(** One round more than there are elements is enough. *)
Lemma remove_all_spec fuel j :
  ok j → (length (q j) < fuel)%nat →
  ∃ j', remove_all step fuel j = Some (q j, j') ∧ ok j' ∧ q j' = [].
Proof.
  revert j. induction fuel as [|fuel IH]; intros j Hok Hlen; [lia|]. cbn [remove_all].
  pose proof (step_law j Hok) as Hs. destruct (q j) as [|x l] eqn:Eq.
  - rewrite Hs. cbn. by exists j.
  - destruct Hs as (j' & -> & Hok' & <-). cbn in Hlen |- *.
    destruct (IH j' Hok') as (j2 & -> & ? & ?); [lia|]. by exists j2.
Qed.
End RemoveAll.

(** *** The fixed buffer keeps the promise *)

Lemma shift_ts_data k (l : list (fixed_jb_frame ast_frame)) :
  FixedJb.fdata <$> (shift_ts k <$> l) = FixedJb.fdata <$> l.
Proof. rewrite <- list_fmap_compose. by apply list_fmap_ext. Qed.

Lemma fixed_remove_inv (j : fixed_jb ast_frame) hd tl :
  jb_inv j → FixedJb.frames j = hd :: tl →
  jb_inv (with_next (fdelivery hd + FixedJb.fms hd) (with_frames tl j)).
Proof.
  intros [Hc Hf Hs] E. rewrite E in Hf, Hs. apply StronglySorted_cons in Hs as [_ Hs].
  constructor; simpl; [done| |done]. intros g Hg. apply Hf. by right.
Qed.

Lemma fixed_remove_law (j : fixed_jb ast_frame) :
  jb_inv j →
  match FixedJb.fdata <$> FixedJb.frames j with
  | [] => fixed_remove_step j = Some (None, j)
  | x :: l => ∃ j', fixed_remove_step j = Some (Some x, j') ∧ jb_inv j' ∧
                    FixedJb.fdata <$> FixedJb.frames j' = l
  end.
Proof.
  intros Hinv. unfold fixed_remove_step, fixed_jb_remove, get_jb_head.
  destruct (FixedJb.frames j) as [|hd tl] eqn:E; [done|]. cbn.
  eexists. split; [done|]. split; [by apply fixed_remove_inv | done].
Qed.

Lemma fixed_put_data (j j' : fixed_jb ast_frame) f ms ts now code :
  put_post j f ms ts now code j' →
  match code with
  | FIXED_JB_OK => obj_queued (FixedObj j') ≡ₚ f :: obj_queued (FixedObj j)
  | FIXED_JB_DROP => obj_queued (FixedObj j') = obj_queued (FixedObj j)
  | _ => False
  end.
Proof.
  intros [k j1 E _|k l1 l2 g j1 El E Hd _ _ _ _ _]; simpl.
  - by rewrite E, shift_ts_data.
  - rewrite E, <- (shift_ts_data k (FixedJb.frames j)), El, !fmap_app. csimpl. rewrite Hd.
    symmetry. apply Permutation_middle.
Qed.

Definition fixed_ok (o : jbobj) : Prop :=
  match o with FixedObj j => jb_inv j | AdaptiveObj _ => False end.
Definition fixed_due (o : jbobj) (now : Z) : Prop :=
  match o with FixedObj j => next_delivery j <= now | AdaptiveObj _ => False end.
Definition fixed_pending (o : jbobj) (now : Z) : nat :=
  match o with FixedObj j => Z.to_nat (now + 1 - next_delivery j) | AdaptiveObj _ => O end.

#[export] Program Instance fixed_impl_laws : JbImpl fixed_impl :=
  {| obj_ok := fixed_ok; due := fixed_due; pending := fixed_pending |}.
Next Obligation.
  intros [] c; simpl; [|done]. split_and!; [done | apply fixed_jb_new_inv | done].
Qed.
Next Obligation.
  intros al [j|j] f now Hok Hlen; [|done].
  destruct (put_fuel_spec 0 j f (fr_len f) (fr_ts f) now Hok Hlen)
    as (code & j' & Hp & Hok' & _ & Hpost).
  cbn -[put_fuel obj_queued]. unfold fixed_jb_put. rewrite Hp. cbn -[obj_queued]. eexists _, _. split; [done|]. split; [done|].
  apply fixed_put_data in Hpost. destruct code; cbn; try done. by left.
Qed.
Next Obligation.
  intros al [j|j] f now Hok Hlen Hq; [|done]. apply fmap_nil_inv in Hq.
  destruct (put_first_spec j f (fr_len f) (fr_ts f) now Hok Hlen Hq)
    as (j' & Hp & Hok' & _ & _ & Hfr).
  cbn -[fixed_jb_put_first obj_queued]. rewrite Hp. cbn. eexists _, _. split; [done|]. split; [done|].
  left. simpl. by rewrite Hfr.
Qed.
Next Obligation.
  intros [j|j] now interpl Hok; [|done].
  destruct (get_spec j now interpl Hok) as (code & fo & j' & Hg & Hok' & Hfr & Hcase).
  cbn -[fixed_jb_get]. rewrite Hg. cbn. eexists _, _, _. split; [done|]. split; [done|].
  rewrite Hfr. destruct code, fo as [g|]; simpl in *; try done.
  - split_and!; [done | done|]. destruct Hcase as (? & -> & _). lia.
  - split_and!; [done | by destruct Hcase as [_ ->]|]. lia.
Qed.
Next Obligation.
  intros [j|j] Hok; [|done]. cbn. eexists _, _. split; [done|]. split_and!; try done.
Qed.
Next Obligation.
  intros [j|j] Hok; [|done]. cbn. unfold fixed_jb_remove, get_jb_head, jb_remove_fixed. cbn.
  unfold fixed_jb_remove, get_jb_head.
  destruct (FixedJb.frames j) as [|hd tl] eqn:E; cbn.
  - by eexists _, _.
  - eexists. split; [done|]. split; [by apply fixed_remove_inv | done].
Qed.
Next Obligation.
  intros [j|j] Hok; [|done]. cbn. eexists. split; [done|]. split; [|done].
  destruct Hok. by constructor.
Qed.
Next Obligation.
  intros [j|j] Hok; [|done]. cbn -[remove_all].
  destruct (remove_all_spec jb_inv _ _ fixed_remove_law
    (S (length (FixedJb.frames j))) j Hok) as (j' & -> & Hok' & Hq').
  { rewrite length_fmap. lia. }
  cbn. by eexists.
Qed.
Next Obligation.
  intros [j|j] Hok Hq; [|done]. cbn -[remove_all]. cbn in Hq.
  unfold jb_destroy_fixed. cbn -[remove_all].
  destruct (remove_all_spec jb_inv _ _ fixed_remove_law
    (S (length (FixedJb.frames j))) j Hok) as (j' & -> & _ & Hq').
  { rewrite length_fmap. lia. }
  cbn. apply fmap_nil_inv in Hq' as ->. by rewrite Hq.
Qed.
Next Obligation. intros [j|j] ts Hok; [|done]. by eexists. Qed.

(** *** The adaptive buffer keeps the promise *)

Section Adaptive.
Implicit Types (j : jitterbuf ast_frame).

Lemma history_get_voice j :
  silence_begin_ts (history_get j) = silence_begin_ts j ∧
  next_voice_ts (history_get j) = next_voice_ts j.
Proof. unfold history_get, history_calc_maxbuf. by repeat case_match. Qed.

Lemma set_target_voice j :
  silence_begin_ts (set_target j) = silence_begin_ts j ∧
  next_voice_ts (set_target j) = next_voice_ts j.
Proof. unfold set_target. by repeat case_match. Qed.

Lemma enter_silence_voice j : next_voice_ts (enter_silence_if_due j) = next_voice_ts j.
Proof. unfold enter_silence_if_due. by case_match. Qed.

(** An interpolation happens outside silence only and moves the voice time
    stamp on. *)
Lemma get_interp_voice j now interpl fo j' :
  _jb_get j now interpl = (JB_INTERP, fo, j') →
  silence_begin_ts j = 0 ∧ next_voice_ts j' = next_voice_ts j + interpl.
Proof.
  unfold _jb_get. destruct (history_get_voice j) as [S1 N1].
  destruct (set_target_voice (history_get j)) as [S2 N2].
  revert S2 N2. generalize (set_target (history_get j)) as j2. intros j2 S2 N2.
  rewrite <- S1, <- S2, <- N1, <- N2. clear S1 N1 S2 N2. case_match eqn:E.
  - intros Hg. split; [lia|]. revert Hg. unfold get_nonsilent. case_match.
    { intros [= <- <-]. by rewrite enter_silence_voice. }
    pose proof (queue_get_spec j2 (next_voice_ts j2 - current j2)) as (_ & Hj & _).
    destruct (queue_get _ _) as [[fr|] j3]; simpl in *; subst j3.
    + unfold get_voiced. repeat case_match; intros; simplify_eq.
    + unfold get_voiced. repeat case_match; intros; simplify_eq; simpl in *; simplify_eq;
        rewrite ?enter_silence_voice; done.
  - unfold get_silent. destruct (queue_get _ _) as [[fr|] j3]; repeat case_match; intros; simplify_eq.
Qed.

Lemma adaptive_remove_ok j hd tl :
  jb_ok j → JitterBuf.frames j = hd :: tl →
  jb_ok (ii (upd_frames_cur (λ n, n - 1)) (upd_free (λ l, hd :: l) (upd_frames (const_ tl) j))).
Proof.
  intros [Hc Hs Hn] E. rewrite E in Hs, Hn. apply StronglySorted_cons in Hs as [_ Hs].
  constructor; simpl; [destruct Hc; by constructor | done|]. simpl in Hn. lia.
Qed.

Lemma adaptive_remove_law j :
  jb_ok j →
  match JitterBuf.fdata <$> JitterBuf.frames j with
  | [] => adaptive_remove_step j = Some (None, j)
  | x :: l => ∃ j', adaptive_remove_step j = Some (Some x, j') ∧ jb_ok j' ∧
                    JitterBuf.fdata <$> JitterBuf.frames j' = l
  end.
Proof.
  intros Hok. unfold adaptive_remove_step, jb_getall, queue_getall, _queue_get.
  destruct (JitterBuf.frames j) as [|hd tl] eqn:E; cbn; [done|].
  eexists. split; [done|]. split; [by apply adaptive_remove_ok | done].
Qed.

Lemma jb_reset_ok j : jb_ok (jb_reset j).
Proof. constructor; simpl; [|constructor|done]. by constructor. Qed.

Lemma jb_setconf_ok j c : jb_ok j → jb_ok (jb_setconf j c).2.
Proof. intros [[] Hs Hcur]. by constructor. Qed.

Lemma later_frames j ts : StronglySorted by_ts (JitterBuf.frames j) → (queue_get j ts).1 = None →
  Forall (λ fr, ts < JitterBuf.fts fr) (JitterBuf.frames j).
Proof.
  intros Hs. unfold queue_get, _queue_get. destruct (JitterBuf.frames j) as [|hd tl]; [constructor|].
  case_match eqn:E; [done|]. intros _. apply StronglySorted_cons in Hs as [Hhd _]. cbn [orb] in E.
  constructor; [lia|]. eapply Forall_impl; [exact Hhd|]. unfold by_ts. intros; lia.
Qed.

(** What decides which frame is due. *)
Definition playout j : list (jb_frame ast_frame) * Z * Z * Z * Z :=
  (JitterBuf.frames j, silence_begin_ts j, next_voice_ts j, current j, last_voice_ms j).

Lemma history_get_playout j : playout (history_get j) = playout j.
Proof. unfold history_get, history_calc_maxbuf, playout. by repeat case_match. Qed.

Lemma set_target_playout j : playout (set_target j) = playout j.
Proof. unfold set_target, playout. by repeat case_match. Qed.

Lemma nothing_due_playout now j j' : playout j' = playout j →
  nothing_due now (AdaptiveObj j) → nothing_due now (AdaptiveObj j').
Proof. unfold playout, nothing_due. intros [= -> -> -> -> ->]. done. Qed.

(** Without a frame the buffer had none to give. *)
Lemma get_noframe_due j now interpl fo j' : StronglySorted by_ts (JitterBuf.frames j) →
  _jb_get j now interpl = (JB_NOFRAME, fo, j') → nothing_due now (AdaptiveObj j').
Proof.
  unfold _jb_get. intros Hs. set (j2 := set_target (history_get j)).
  assert (StronglySorted by_ts (JitterBuf.frames j2)) as Hs2.
  { change (StronglySorted by_ts (playout j2).1.1.1.1). unfold j2.
    by rewrite set_target_playout, history_get_playout. }
  clearbody j2. destruct (silence_begin_ts j2 =? 0) eqn:Esil.
  - unfold get_nonsilent. case_match; [done|].
    pose proof (later_frames j2 (next_voice_ts j2 - current j2) Hs2) as Hl.
    pose proof (queue_get_spec j2 (next_voice_ts j2 - current j2)) as (_ & Hj & _).
    destruct (queue_get _ _) as [[fr|] j3]; cbn [fst snd] in *; subst j3.
    + unfold get_voiced. repeat case_match; intros; simplify_eq.
    + specialize (Hl eq_refl). unfold get_voiced. repeat case_match; intros; simplify_eq.
      unfold nothing_due, increment_losspct. cbn. rewrite Esil.
      eapply Forall_impl; [exact Hl|]. cbn. intros; lia.
  - unfold get_silent. set (j3 := if _ : bool then _ else _).
    assert (StronglySorted by_ts (JitterBuf.frames j3) ∧ silence_begin_ts j3 = silence_begin_ts j2) as [Hs3 E3]
      by (unfold j3; by case_match).
    clearbody j3. pose proof (later_frames j3 (now - current j3) Hs3) as Hl.
    pose proof (queue_get_spec j3 (now - current j3)) as (_ & Hj & _).
    destruct (queue_get _ _) as [[fr|] j4]; cbn [fst snd] in *; subst j4; [repeat case_match; intros; simplify_eq|].
    intros; simplify_eq. unfold nothing_due. rewrite E3, Esil.
    eapply Forall_impl; [exact (Hl eq_refl)|]. cbn. intros; lia.
Qed.

Lemma jb_next_playout j : playout (jb_next j).2 = playout j.
Proof. unfold jb_next. pose proof (history_get_playout j). by repeat case_match. Qed.

Lemma jb_next_spec j :
  jb_ok j →
  let r := jb_next j in
  jb_ok r.2 ∧ JitterBuf.frames r.2 = JitterBuf.frames j ∧
  silence_begin_ts r.2 = silence_begin_ts j ∧ next_voice_ts r.2 = next_voice_ts j ∧
  (silence_begin_ts j = 0 → r.1 = next_voice_ts j).
Proof.
  intros Hok. cbv zeta. unfold jb_next. destruct (silence_begin_ts j =? 0) eqn:E; cbn [negb].
  { by split_and!. }
  destruct (history_get_voice j) as [S1 N1]. destruct (history_get_frame j) as [Hq _].
  pose proof (history_get_spec j (ok_cache _ Hok)) as (Hc & _).
  pose proof (same_queue_ok _ _ Hq Hc Hok) as Hok'. pose proof (sq_frames _ _ Hq) as Hf.
  repeat case_match; simpl; split_and!; auto; lia.
Qed.
End Adaptive.

Definition adaptive_ok (o : jbobj) : Prop :=
  match o with AdaptiveObj j => jb_ok j | FixedObj _ => False end.
Definition adaptive_due (o : jbobj) (now : Z) : Prop :=
  match o with
  | AdaptiveObj j => silence_begin_ts j = 0 → next_voice_ts j <= now
  | FixedObj _ => False
  end.
(** In silence nothing is interpolated. *)
Definition adaptive_pending (o : jbobj) (now : Z) : nat :=
  match o with
  | AdaptiveObj j =>
    if silence_begin_ts j =? 0 then S (Z.to_nat (now + 1 - next_voice_ts j)) else O
  | FixedObj _ => O
  end.

Lemma adaptive_put_law al o f now :
  adaptive_ok o →
  ∃ code o', jb_put_adaptive al o f now = Some (code, o') ∧ adaptive_ok o' ∧
    match code with
    | AST_JB_IMPL_OK => obj_queued o' ≡ₚ f :: obj_queued o ∨
                        al = false ∧ obj_queued o' = obj_queued o
    | AST_JB_IMPL_DROP => obj_queued o' = obj_queued o
    | _ => False
    end.
Proof.
  destruct o as [j|j]; intros Hok; [done|]. unfold jb_put_adaptive. cbn [as_adaptive mbind option_bind].
  pose proof (jb_put_spec al j f JB_TYPE_VOICE (fr_len f) (fr_ts f) now Hok)
    as (Hok' & _ & _ & _ & Hcase).
  destruct (jb_put _ _ _ _ _ _ _) as [res j']. cbn [fst snd] in *.
  eexists _, _. split; [done|]. split; [done|]. cbn [obj_queued].
  destruct res; cbn [adaptive_to_abstract_code]; try done.
  - destruct Hcase as [_ Hcase]. destruct (can_alloc al j) eqn:Ec.
    + left. destruct Hcase as [Hp _]. by rewrite Hp.
    + right. unfold can_alloc in Ec. apply orb_false_iff in Ec as [-> _]. by rewrite Hcase.
  - by destruct Hcase as [-> _].
  - destruct Hcase as (_ & _ & -> & _). by left.
Qed.

#[export] Program Instance adaptive_impl_laws : JbImpl adaptive_impl :=
  {| obj_ok := adaptive_ok; due := adaptive_due; pending := adaptive_pending |}.
Next Obligation.
  intros [] c; [|exact eq_refl]. cbn [create adaptive_impl].
  unfold jb_create_adaptive, jb_new. cbn [mbind option_bind].
  split; [exact eq_refl|]. split; [apply jb_setconf_ok, jb_reset_ok | exact eq_refl].
Qed.
Next Obligation. intros al o f now Hok _. by apply adaptive_put_law. Qed.
Next Obligation.
  intros al o f now Hok _ Hq.
  destruct (adaptive_put_law al o f now Hok) as (code & o' & Hp & Hok' & Hcase).
  exists code, o'. split; [exact Hp|]. split; [done|]. rewrite Hq in Hcase.
  destruct code; try done. destruct Hcase as [Hcase|[-> Hcase]]; [left | by right].
  by apply Permutation_singleton_r.
Qed.
Next Obligation.
  intros [j|j] now interpl Hok; [done|].
  pose proof (_jb_get_ok j now interpl Hok) as (Hok' & F & _).
  pose proof (_jb_get_spec j now interpl) as [_ _ _ _ _ _ _ _ _ _ Hcode].
  cbn -[_jb_get jb_get]. unfold jb_get.
  destruct (_jb_get j now interpl) as [[code fo] j'] eqn:Eg. cbn [fst snd] in *.
  destruct code, fo as [fr|]; try done; cbn -[obj_queued]; (eexists _, _, _; split; [done|]);
    (split; [done|]); cbn [obj_queued adaptive_to_abstract_code]; rewrite ?F; cbn -[nothing_due]; try done.
  { split_and!; [done | done|]. intros _. eapply get_noframe_due; [apply Hok|exact Eg]. }
  split_and!; [done | done|]. intros Hdue Hi.
  destruct (get_interp_voice _ _ _ _ _ Eg) as [Hs ->]. specialize (Hdue Hs).
  rewrite Hs. cbn. case_match; lia.
Qed.
Next Obligation.
  intros [j|j] Hok; [done|]. cbn -[jb_next].
  pose proof (jb_next_spec j Hok) as (Hok' & F & S1 & N1 & Ht). pose proof (jb_next_playout j) as Hpl.
  destruct (jb_next j) as [t j']. cbn [fst snd] in *.
  eexists _, _. split; [done|]. split; [done|]. cbn -[nothing_due]. rewrite F. split; [done|].
  intros now. rewrite S1, N1. split; [done|]. split; [|by apply nothing_due_playout].
  intros Hle Hs. rewrite <- Ht by done. lia.
Qed.
Next Obligation.
  intros [j|j] Hok; [done|]. cbn. unfold jb_remove_adaptive, jb_getall, queue_getall, _queue_get. cbn.
  destruct (JitterBuf.frames j) as [|hd tl] eqn:E; cbn.
  - eexists _, _. split; [reflexivity | discriminate].
  - eexists. split; [done|]. split; [by apply adaptive_remove_ok | done].
Qed.
Next Obligation. intros [j|j] Hok; [done|]. cbn. by eexists. Qed.
Next Obligation.
  intros [j|j] Hok; [done|]. cbn -[remove_all jb_reset].
  destruct (remove_all_spec jb_ok _ _ adaptive_remove_law
    (S (length (JitterBuf.frames j))) j Hok) as (j' & -> & Hok' & Hq').
  { rewrite length_fmap. lia. }
  cbn -[jb_reset]. eexists. split; [done|]. split; [apply jb_reset_ok | done].
Qed.
Next Obligation. intros [j|j] Hok Hq; [done|]. done. Qed.
Next Obligation. intros [j|j] ts Hok; [done|]. by eexists. Qed.

(** Both tables of the program keep the promise. *)
Lemma avail_impl_laws I : I ∈ avail_impl → ∃ _ : JbImpl I, True.
Proof.
  intros [->|[->|[]%elem_of_nil]%elem_of_cons]%elem_of_cons.
  - by exists fixed_impl_laws.
  - by exists adaptive_impl_laws.
Qed.

(** ** The bridge side, against the promise *)

(** A frame that can be queued: voice, in a format with a packet length. *)
Definition frame_ok (f : ast_frame) : Prop :=
  ∃ fmt, frame_format f = Some fmt ∧ 0 < default_ms fmt.

Definition delivered (w : jb_write) : option ast_frame :=
  match w with Deliver f => Some f | Interpolate _ _ _ => None end.

(** The frames a channel's buffer holds. *)
Definition jb_queued jb : list ast_frame := default [] (obj_queued <$> jb_object jb).

Section Bridge.
Context (I : ast_jb_impl) `{!JbImpl I}.

(** The state of a channel's buffer once its implementation is chosen. *)
Record jb_wf jb : Prop := {
  wf_impl : jb_impl jb = Some I;
  wf_state : if JB_CREATED jb then
               ∃ o fmt, jb_object jb = Some o ∧ obj_ok o ∧ Forall frame_ok (obj_queued o) ∧
                 jb_last_format jb = Some fmt ∧ 0 < default_ms fmt
             else jb_object jb = None;
}.

Lemma jb_wf_created jb o fmt :
  JB_CREATED jb = true → jb_impl jb = Some I → jb_object jb = Some o → obj_ok o →
  Forall frame_ok (obj_queued o) → jb_last_format jb = Some fmt → 0 < default_ms fmt → jb_wf jb.
Proof. intros Hc. constructor; [done|]. rewrite Hc. by exists o, fmt. Qed.

(** *** Delivering *)

(** The outcome of a delivery round at [now] that started with the frames
    [q]: the frames taken are a prefix of [q], all of them freed, those
    written in their order; the round ends before the next delivery time, or with
    nothing due. *)
Record deliver_post (now : Z) (q : list ast_frame) jb (ws : list jb_write) (fs : list ast_frame)
    (jb' : ast_jb) : Prop := {
  dp_wf : jb_wf jb';
  dp_created : JB_CREATED jb' = true;
  dp_use : JB_USE jb' = JB_USE jb;
  dp_frames : q = fs ++ jb_queued jb';
  dp_written : omap delivered ws `sublist_of` fs;
  dp_next : now < jb_next_time jb' ∨ ∃ o, jb_object jb' = Some o ∧ nothing_due now o;
}.

Definition loops_to (now : Z) (jb jb1 : ast_jb) ws fs jb' : Prop :=
  (∃ n, ∀ k, (n <= k)%nat → deliver_loop k now jb1 = Some (ws, fs, jb')) ∧
  deliver_post now (jb_queued jb1) jb ws fs jb'.

Lemma deliver_loop_spec now (n p : nat) : ∀ jb o,
  jb_wf jb → JB_CREATED jb = true → jb_object jb = Some o →
  (jb_next_time jb <= now → due o now) →
  length (obj_queued o) = n → pending o now = p →
  ∃ ws fs jb', loops_to now jb jb ws fs jb'.
Proof.
  revert p. induction n as [n IHn] using lt_wf_ind.
  intros p. induction p as [p IHp] using lt_wf_ind. intros jb o Hwf Hc Ho Hdue Hn Hp.
  destruct (decide (now < jb_next_time jb)) as [Hlt|Hge].
  { exists [], [], jb. split.
    - exists 1%nat. intros [|k] ?; [lia|]. cbn [deliver_loop]. by rewrite (proj2 (Z.ltb_lt _ _)).
    - constructor; auto. }
  pose proof Hwf as [Himpl Hst]. rewrite Hc in Hst.
  destruct Hst as (o' & fmt & Ho' & Hok & Hfr & Hfmt & Hms). rewrite Ho in Ho'.
  injection Ho' as <-.
  destruct (get_law o now (default_ms fmt) Hok) as (code & f & o1 & Hg & Hok1 & Hcase).
  destruct (next_law o1 Hok1) as (t & o2 & Hnx & Hok2 & Hq2 & Hp2).
  assert (∀ k, deliver_loop (S k) now jb =
    match code with
    | AST_JB_IMPL_NOFRAME => Some ([], [], set_object (Some o2) jb)
    | _ =>
      let jb1 := match code with
                 | AST_JB_IMPL_INTERP => jb | _ => set_last_format (frame_format f) jb end in
      let w := match code with
               | AST_JB_IMPL_OK => [Deliver f]
               | AST_JB_IMPL_INTERP =>
                   [Interpolate (Some fmt) (default_ms fmt * 8)
                      (ast_tvadd (jb_timebase jb) (ast_samp2tv_1000 (jb_next_time jb)))]
               | _ => [] end in
      let fs1 := match code with AST_JB_IMPL_INTERP => [] | _ => [f] end in
      '(ws, fs, jb') ← deliver_loop k now (set_next t (set_object (Some o2) jb1));
      Some (w ++ ws, fs1 ++ fs, jb')
    end) as Hunf.
  { intros k. cbn [deliver_loop]. rewrite (proj2 (Z.ltb_ge _ _)) by lia.
    rewrite Himpl, Ho, Hfmt. cbn [mbind option_bind]. rewrite Hg. cbn [mbind option_bind].
    destruct code; cbv zeta; rewrite Hnx; reflexivity. }
  destruct code.
  1, 2: (* a frame was taken *)
    rewrite Hcase in Hfr, Hn; apply Forall_cons in Hfr as [(fmt' & Hf' & Hms') Hfr];
    cbn [length] in Hn;
    destruct (IHn (length (obj_queued o2)) ltac:(rewrite Hq2; lia) (pending o2 now)
      (set_next t (set_object (Some o2) (set_last_format (frame_format f) jb))) o2)
      as (ws & fs & jb' & (m & Hm) & [W C U F D N]);
    [apply (jb_wf_created _ o2 fmt'); rewrite ?Hq2; done | done | done | apply Hp2 | done | done |];
    cbv zeta in Hunf; eexists _, (f :: fs), jb'; (split;
      [ exists (S m); intros [|k] ?; [lia|]; rewrite Hunf, Hm by lia; reflexivity
      | constructor; auto;
        [ unfold jb_queued in *; rewrite Ho; cbn in F |- *; rewrite Hcase, <- Hq2, F; done
        | cbn; first [by apply sublist_skip | by apply sublist_cons]] ]).
  - (* interpolation *)
    destruct Hcase as (_ & Hq1 & Hdec). specialize (Hdec (Hdue ltac:(lia)) Hms).
    destruct (IHp (pending o2 now) ltac:(rewrite (proj1 (Hp2 now)); lia)
      (set_next t (set_object (Some o2) jb)) o2)
      as (ws & fs & jb' & (m & Hm) & [W C U F D N]);
    [apply (jb_wf_created _ o2 fmt); rewrite ?Hq2, ?Hq1; done | done | done | apply Hp2
    | by rewrite Hq2, Hq1 | done |].
    cbv zeta in Hunf. eexists _, fs, jb'. split.
    + exists (S m). intros [|k] ?; [lia|]. rewrite Hunf, Hm by lia. reflexivity.
    + constructor; auto. unfold jb_queued in *. rewrite Ho. cbn in F |- *. by rewrite <- Hq1, <- Hq2, F.
  - (* nothing *)
    destruct Hcase as (_ & Hq1 & Hty). eexists [], [], _. split.
    + exists 1%nat. intros [|k] ?; [lia|]. apply Hunf.
    + constructor; auto.
      * apply (jb_wf_created _ o2 fmt); rewrite ?Hq2, ?Hq1; done.
      * unfold jb_queued. rewrite Ho. cbn. by rewrite Hq2, Hq1.
      * right. exists o2. split; [done|]. apply Hp2, Hty, Hdue. lia.
Qed.

Lemma jb_get_and_deliver_spec clock jb :
  jb_wf jb → JB_CREATED jb = true →
  ∃ ws fs jb', (∃ n, ∀ k, (n <= k)%nat → jb_get_and_deliver k clock jb = Some (ws, fs, jb')) ∧
    deliver_post (get_now jb clock) (jb_queued jb) jb ws fs jb'.
Proof.
  intros Hwf Hc. pose proof Hwf as [Himpl Hst]. rewrite Hc in Hst.
  destruct Hst as (o & fmt & Ho & Hok & Hfr & Hfmt & Hms).
  destruct (next_law o Hok) as (t & o1 & Hnx & Hok1 & Hq1 & Hp1).
  assert (jb_queued jb = obj_queued o1) as Hq by (unfold jb_queued; by rewrite Ho).
  set (jb1 := set_next t (set_object (Some o1) jb)).
  destruct (deliver_loop_spec (get_now jb clock) (length (obj_queued o1))
    (pending o1 (get_now jb clock)) jb1 o1) as (ws & fs & jb' & (n & Hn) & Hpost);
    [apply (jb_wf_created _ o1 fmt); rewrite ?Hq1; done | done | done | apply Hp1 | done | done |].
  unfold jb_get_and_deliver. rewrite Himpl, Ho. cbn [mbind option_bind].
  rewrite Hnx. cbn [mbind option_bind]. fold jb1.
  destruct (get_now jb clock <? t) eqn:E.
  - exists [], [], jb1. split; [by exists O|]. constructor; auto.
    + apply (jb_wf_created _ o1 fmt); rewrite ?Hq1; done.
    + left. simpl. lia.
  - exists ws, fs, jb'. split; [exists n; auto|]. destruct Hpost as [W C U F D N]. constructor; auto.
    rewrite Hq. apply F.
Qed.

(** *** Putting *)

(** The frames [ast_jb_put] makes a copy of. *)
Definition jb_takes jb f : bool :=
  JB_USE jb && is_voice f && has_timing_info f && (2 <=? fr_len f) && (0 <=? fr_ts f).

Definition put_copy (dup_addr : option Z) jb f : option ast_frame :=
  if jb_takes jb f then ast_frdup dup_addr f else None.

Lemma ast_frdup_ok addr f frr :
  ast_frdup addr f = Some frr → frame_ok f → frame_ok frr ∧ fr_len frr = fr_len f.
Proof. unfold ast_frdup. destruct addr; [|done]. cbn. intros [= <-] [fmt Hf]. split; [by exists fmt | done]. Qed.

(** What is left of a copy that is neither queued nor freed: nothing, when the
    buffer has memory for it. *)
Definition lost_copy (put_ok : bool) (copy lost : list ast_frame) : Prop :=
  lost = [] ∨ put_ok = false ∧ lost = copy.

Lemma create_jb_spec create_ok put_ok clock jb frr :
  jb_wf jb → JB_CREATED jb = false → frame_ok frr → 2 <= fr_len frr →
  ∃ rc freed jb', create_jb create_ok put_ok clock jb frr = Some (rc, freed, jb') ∧
    JB_USE jb' = JB_USE jb ∧
    if create_ok then
      rc = 0 ∧ jb_wf (set_created true jb') ∧
      ∃ lost, lost_copy put_ok [frr] lost ∧ [frr] ≡ₚ freed ++ jb_queued jb' ++ lost
    else rc = -1 ∧ freed = [] ∧ jb' = jb.
Proof.
  intros [Himpl Hst] Hc Hfr Hlen. rewrite Hc in Hst. unfold create_jb. rewrite Himpl.
  cbn [mbind option_bind]. pose proof (create_law create_ok (jb_config jb)) as Hcr.
  destruct (create I create_ok (jb_config jb)) as [o|].
  - destruct Hcr as (-> & Hok & Hq).
    destruct (put_first_law put_ok o frr (get_now jb clock) Hok Hlen Hq)
      as (code & o1 & -> & Hok1 & Hcase). cbn [mbind option_bind].
    destruct (next_law o1 Hok1) as (t & o2 & -> & Hok2 & Hq2 & _). cbn [mbind option_bind].
    destruct Hfr as (fmt & Hfmt & Hms).
    eexists _, _, _. split; [reflexivity|]. split; [done|]. split; [done|].
    assert (obj_queued o2 = [frr] ∨ obj_queued o2 = []) as Hq3.
    { rewrite Hq2. destruct code; try done; [|by right]. destruct Hcase as [?|[_ ?]]; auto. }
    split.
    + apply (jb_wf_created _ o2 fmt); try done. destruct Hq3 as [-> | ->]; [|constructor].
      constructor; [by exists fmt | constructor].
    + unfold jb_queued. cbn. rewrite Hq2. destruct code; try done.
      * destruct Hcase as [-> |[-> ->]]; [exists []; by split; [left|]|].
        exists [frr]. by split; [right|].
      * exists []. rewrite Hcase. by split; [left|].
  - subst create_ok. eexists _, _, _. split; [reflexivity|]. split; [done|]. split_and!; try done.
    destruct jb; cbn in *. by subst.
Qed.

Lemma ast_jb_put_spec dup_addr create_ok put_ok clock jb f :
  jb_wf jb → (is_voice f = true → frame_ok f) →
  ∃ rc freed jb', ast_jb_put dup_addr create_ok put_ok clock jb f = Some (rc, freed, jb') ∧
    jb_wf jb' ∧
    rc = (if jb_takes jb f && bool_decide (is_Some dup_addr) && (JB_CREATED jb || create_ok)
          then 0 else -1) ∧
    (rc = -1 → jb_queued jb' = jb_queued jb) ∧
    ∃ lost, lost_copy put_ok (option_list (put_copy dup_addr jb f)) lost ∧
      option_list (put_copy dup_addr jb f) ++ jb_queued jb ≡ₚ freed ++ jb_queued jb' ++ lost.
Proof.
  intros Hwf Hfok.
  assert (∀ copy freed q q' : list ast_frame, copy ++ q = freed ++ q' →
    ∃ lost, lost_copy put_ok copy lost ∧ copy ++ q ≡ₚ freed ++ q' ++ lost) as Hkeep.
  { intros copy freed q q' E. exists []. rewrite app_nil_r, E. by split; [left|]. }
  pose proof Hwf as [Himpl Hst]. unfold ast_jb_put, put_copy, jb_takes.
  destruct (JB_USE jb) eqn:Euse; cbn [negb andb].
  2:{ eexists _, _, _. split; [reflexivity|]. split_and!; [done..|by apply Hkeep]. }
  destruct (is_voice f) eqn:Ev; cbn [negb andb].
  2:{ destruct (JB_CREATED jb) eqn:Ec; rewrite ?andb_false_r, ?andb_true_r.
      2:{ eexists _, _, _. split; [reflexivity|]. split_and!; [done..|by apply Hkeep]. }
      case_bool_decide; [|eexists _, _, _; split; [reflexivity|]; split_and!; [done..|by apply Hkeep]].
      destruct Hst as (o & fmt & Ho & Hok & Hfr & Hfmt & Hms). rewrite Himpl, Ho. cbn [mbind option_bind].
      destruct (force_law o Hok) as (o' & -> & Hok' & Hq'). cbn [mbind option_bind].
      eexists _, _, _. split; [reflexivity|].
      assert (jb_queued (set_object (Some o') jb) = jb_queued jb) as E
        by (unfold jb_queued; cbn; by rewrite Ho, Hq').
      split_and!; [|done|done|apply Hkeep; by rewrite E].
      apply (jb_wf_created _ o' fmt); rewrite ?Hq'; done. }
  specialize (Hfok eq_refl).
  assert (negb (has_timing_info f) || (fr_len f <? 2) || (fr_ts f <? 0) =
    negb (has_timing_info f && (2 <=? fr_len f) && (0 <=? fr_ts f))) as ->.
  { rewrite !negb_andb, <- !Z.ltb_antisym. done. }
  destruct (has_timing_info f && (2 <=? fr_len f) && (0 <=? fr_ts f)) eqn:Et; cbn [negb andb].
  2:{ eexists _, _, _. split; [reflexivity|]. split_and!; [done..|by apply Hkeep]. }
  apply andb_true_iff in Et as [[_ Hlen]%andb_true_iff _]. apply Z.leb_le in Hlen.
  destruct (ast_frdup dup_addr f) as [frr|] eqn:Edup.
  2:{ assert (dup_addr = None) as -> by (by destruct dup_addr).
      eexists _, _, _. split; [reflexivity|]. split_and!; [done..|by apply Hkeep]. }
  rewrite bool_decide_true by (destruct dup_addr; [by eexists | done]).
  destruct (ast_frdup_ok _ _ _ Edup Hfok) as [Hfok' Hlen'].
  destruct (JB_CREATED jb) eqn:Ec; cbn [negb orb andb].
  - destruct Hst as (o & fmt & Ho & Hok & Hfr & Hfmt & Hms). rewrite Himpl, Ho. cbn [mbind option_bind].
    destruct (put_law put_ok o frr (get_now jb clock) Hok ltac:(lia))
      as (code & o1 & -> & Hok1 & Hcase). cbn [mbind option_bind].
    destruct (next_law o1 Hok1) as (t & o2 & Hnx & Hok2 & Hq2 & _).
    assert (jb_queued jb = obj_queued o) as Eq by (unfold jb_queued; by rewrite Ho).
    assert (Forall frame_ok (obj_queued o1)) as Hfr1.
    { destruct code; try done; [|by rewrite Hcase].
      destruct Hcase as [Hp|[_ ->]]; [|done]. rewrite Hp. by constructor. }
    case_bool_decide as Hcode; cbn [negb].
    + subst code. rewrite Hnx. cbn [mbind option_bind].
      eexists _, _, _. split; [reflexivity|]. split_and!; [|done|done|].
      * apply (jb_wf_created _ o2 fmt); rewrite ?Hq2; done.
      * unfold jb_queued at 2. cbn. rewrite Hq2, Eq. destruct Hcase as [Hp|[-> ->]].
        -- exists []. rewrite Hp. split; [by left|]. by rewrite app_nil_r.
        -- exists [frr]. split; [by right|]. apply Permutation_cons_append.
    + eexists _, _, _. split; [reflexivity|]. split_and!; [|done|done|].
      * apply (jb_wf_created _ o1 fmt); done.
      * apply Hkeep. unfold jb_queued at 2. cbn. destruct code; try done. by rewrite Hcase, Eq.
  - destruct (create_jb_spec create_ok put_ok clock jb frr Hwf Ec Hfok' ltac:(lia))
      as (rc & freed & jb' & -> & Huse & Hcase). cbn [mbind option_bind].
    assert (jb_queued jb = []) as Eq by (unfold jb_queued; by rewrite Hst).
    destruct create_ok.
    + destruct Hcase as (-> & Hwf' & Hp). cbn [negb Z.eqb].
      eexists _, _, _. split; [reflexivity|]. split_and!; [done|done|done|].
      rewrite Eq. exact Hp.
    + destruct Hcase as (-> & -> & ->). cbn [negb Z.eqb].
      eexists _, _, _. split; [reflexivity|]. split_and!; [|done|done|by apply Hkeep].
      constructor; [done|]. cbn. by rewrite Ec.
Qed.

(** *** Emptying and destroying *)

Lemma impl_remove_law o :
  obj_ok o →
  match obj_queued o with
  | [] => impl_remove_step I o = Some (None, o)
  | x :: l => ∃ o', impl_remove_step I o = Some (Some x, o') ∧ obj_ok o' ∧ obj_queued o' = l
  end.
Proof.
  intros Hok. pose proof (remove_law o Hok) as Hr. unfold impl_remove_step.
  destruct (obj_queued o) as [|x l].
  - destruct Hr as (code & fo & -> & Hne). cbn [mbind option_bind]. by rewrite bool_decide_false.
  - destruct Hr as (o' & -> & Hok' & Hq'). cbn [mbind option_bind].
    rewrite bool_decide_true by done. by exists o'.
Qed.

Lemma ast_jb_destroy_spec jb :
  jb_wf jb →
  ∃ jb', ast_jb_destroy jb = Some (jb_queued jb, jb') ∧ jb_wf jb' ∧
    JB_CREATED jb' = false ∧ jb_queued jb' = [].
Proof.
  intros Hwf. pose proof Hwf as [Himpl Hst]. unfold ast_jb_destroy.
  destruct (JB_CREATED jb) eqn:Ec.
  - destruct Hst as (o & fmt & Ho & Hok & _). rewrite Himpl, Ho. cbn [mbind option_bind].
    destruct (remove_all_spec obj_ok obj_queued (impl_remove_step I) impl_remove_law
      (S (length (obj_queued o))) o Hok ltac:(lia)) as (o' & -> & Hok' & Hq').
    cbn [mbind option_bind]. rewrite (destroy_law o' Hok' Hq'). cbn [mbind option_bind].
    eexists. rewrite app_nil_r. unfold jb_queued at 1. rewrite Ho. split; [reflexivity|].
    split_and!; [|done|done]. by constructor.
  - exists jb. unfold jb_queued. rewrite Hst. split_and!; done.
Qed.

Lemma reset_side_spec jb :
  jb_wf jb →
  ∃ freed jb', reset_side jb = Some (freed, jb') ∧ jb_wf jb' ∧
    jb_queued jb = freed ++ jb_queued jb' ∧ (JB_USE jb = true → jb_queued jb' = []).
Proof.
  intros Hwf. pose proof Hwf as [Himpl Hst]. unfold reset_side.
  destruct (JB_USE jb) eqn:Eu; cbn [andb].
  2:{ eexists _, _. split; [reflexivity|]. by split_and!. }
  destruct (JB_CREATED jb) eqn:Ec.
  - destruct Hst as (o & fmt & Ho & Hok & Hfr & Hfmt & Hms). rewrite Himpl, Ho. cbn [mbind option_bind].
    destruct (reset_law o Hok) as (o' & -> & Hok' & Hq'). cbn [mbind option_bind].
    eexists _, _. split; [reflexivity|]. split_and!.
    + apply (jb_wf_created _ o' fmt); rewrite ?Hq'; done.
    + unfold jb_queued. rewrite Ho. cbn. by rewrite Hq', app_nil_r.
    + intros _. unfold jb_queued. cbn. by rewrite Hq'.
  - eexists _, _. split; [reflexivity|]. split_and!; [done|done|].
    intros _. unfold jb_queued. by rewrite Hst.
Qed.

End Bridge.

(** *** Runs of a channel's buffer *)

(** The buffer, the frames copied for it, the frames freed so far, and the copies
    put while the buffer had no memory for a list entry. *)
Definition bridge_state : Type := ast_jb * list ast_frame * list ast_frame * list ast_frame.

Inductive bridge_step : bridge_state → bridge_state → Prop :=
  | bs_put jb al fr no_mem dup_addr create_ok put_ok clock f rc freed jb' :
      (is_voice f = true → frame_ok f) →
      ast_jb_put dup_addr create_ok put_ok clock jb f = Some (rc, freed, jb') →
      let copy := option_list (put_copy dup_addr jb f) in
      bridge_step (jb, al, fr, no_mem) (jb', al ++ copy, fr ++ freed, no_mem ++ if put_ok then [] else copy)
  | bs_deliver jb al fr no_mem clock fuel ws freed jb' :
      JB_CREATED jb = true →
      jb_get_and_deliver fuel clock jb = Some (ws, freed, jb') →
      bridge_step (jb, al, fr, no_mem) (jb', al, fr ++ freed, no_mem)
  | bs_reset jb al fr no_mem freed jb' :
      reset_side jb = Some (freed, jb') →
      bridge_step (jb, al, fr, no_mem) (jb', al, fr ++ freed, no_mem)
  | bs_destroy jb al fr no_mem freed jb' :
      ast_jb_destroy jb = Some (freed, jb') →
      bridge_step (jb, al, fr, no_mem) (jb', al, fr ++ freed, no_mem).

Section Run.
Context (I : ast_jb_impl) `{!JbImpl I}.

Definition bridge_inv (s : bridge_state) : Prop :=
  jb_wf I s.1.1.1 ∧ ∃ lost, lost `sublist_of` s.2 ∧ s.1.1.2 ≡ₚ s.1.2 ++ jb_queued s.1.1.1 ++ lost.

Lemma deliver_fuel_mono n k now jb r :
  deliver_loop n now jb = Some r → (n <= k)%nat → deliver_loop k now jb = Some r.
Proof.
  revert k jb r. induction n as [|n IH]; intros k jb r Hl Hk; [done|].
  destruct k as [|k]; [lia|]. revert Hl. cbn [deliver_loop]. case_match; [done|].
  destruct (jb_impl jb) as [i|]; [|done]. destruct (jb_object jb) as [o|]; [|done].
  destruct (jb_last_format jb) as [fmt|]; [|done]. cbn [mbind option_bind].
  destruct (get _ _ _ _) as [[[code f] o1]|]; [|done]. cbn [mbind option_bind].
  destruct code; try done; destruct (next i o1) as [[t o2]|]; try done; cbn [mbind option_bind];
    destruct (deliver_loop n _ _) as [[[ws fs] j]|] eqn:E; try done;
    (rewrite (IH k _ _ E) by lia); done.
Qed.

Lemma bridge_step_inv s s' : bridge_inv s → bridge_step s s' → bridge_inv s'.
Proof.
  intros [Hwf (lost & Hl & Hp)] Hs. destruct Hs as
    [jb al fr no_mem dup_addr create_ok put_ok clock f rc freed jb' Hfok Hput copy
    |jb al fr no_mem clock fuel ws freed jb' Hc Hdel|jb al fr no_mem freed jb' Hr|jb al fr no_mem freed jb' Hd];
    unfold bridge_inv in *; cbn [fst snd] in *.
  - destruct (ast_jb_put_spec I dup_addr create_ok put_ok clock jb f Hwf Hfok)
      as (rc' & freed' & j & Hput' & Hwf' & _ & _ & lost' & Hl' & Hperm). rewrite Hput in Hput'. simplify_eq.
    split; [done|]. exists (lost ++ lost'). fold copy in Hperm, Hl'. split.
    + apply sublist_app; [done|]. destruct Hl' as [-> | [-> ->]]; [apply sublist_nil_l|done].
    + clear -Hp Hperm. perm_lia.
  - destruct (jb_get_and_deliver_spec I clock jb Hwf Hc) as (ws' & fs' & j & (n & Hn) & [W _ _ F _ _]).
    specialize (Hn (n + fuel)%nat ltac:(lia)).
    assert (jb_get_and_deliver (n + fuel) clock jb = Some (ws, freed, jb')) as E.
    { revert Hdel. unfold jb_get_and_deliver.
      destruct (jb_impl jb) as [i|]; [|done]. destruct (jb_object jb) as [o|]; [|done].
      cbn [mbind option_bind]. destruct (next i o) as [[t o1]|]; [|done]. cbn [mbind option_bind].
      case_match; [done|]. intros Hloop. eapply deliver_fuel_mono; [exact Hloop | lia]. }
    rewrite Hn in E. simplify_eq. split; [done|]. exists lost. split; [done|].
    clear -Hp F. rewrite F in Hp. perm_lia.
  - destruct (reset_side_spec I jb Hwf) as (fs & j & E & Hwf' & F & _). rewrite Hr in E. simplify_eq.
    split; [done|]. exists lost. split; [done|]. clear -Hp F. rewrite F in Hp. perm_lia.
  - destruct (ast_jb_destroy_spec I jb Hwf) as (j & E & Hwf' & _ & Hq). rewrite Hd in E. simplify_eq.
    split; [done|]. exists lost. split; [done|]. clear -Hp Hq. rewrite Hq. perm_lia.
Qed.
End Run.

Lemma choose_impl_laws jb :
  ∃ I, I ∈ avail_impl ∧ jb_choose_impl jb = set_impl I jb.
Proof.
  unfold jb_choose_impl, avail_impl, default_impl. cbn [nth].
  case_bool_decide; [eexists; split; [left | done]|]. cbn [jb_config set_impl].
  rewrite !filter_cons, filter_nil. repeat case_decide; cbn [head].
  all: first [ exists fixed_impl; split; [left | done]
             | exists adaptive_impl; split; [right; left | done] ].
Qed.

(** The buffer of a new channel. *)
Definition new_jb (c : ast_jb_conf) : ast_jb :=
  AstJb c None None (ast_tv 0 0) 0 None false false false.

Lemma usecheck_wf wants forced creates c base clock jb :
  usecheck_side wants forced creates (new_jb c) base clock = (true, jb) →
  ∃ I (_ : JbImpl I), I ∈ avail_impl ∧ jb_wf I jb ∧ jb_queued jb = [].
Proof.
  unfold usecheck_side. case_match; [|done]. cbn [new_jb JB_CREATED JB_TIMEBASE_INITIALIZED negb].
  destruct (choose_impl_laws (set_timebase (default clock base) (set_use true (new_jb c))))
    as (I & HI & ->). intros [= <-]. destruct (avail_impl_laws I HI) as [Hlaws _].
  exists I, Hlaws. split; [done|]. split; [by constructor | done].
Qed.

(** ** Properties *)

Module Properties.


(** [ast_jb_put] never runs into a null pointer or an object of the other
    implementation; it reports success exactly for a voice frame with timing
    information, of at least 2 ms, on a channel that uses a buffer, when the
    copy (and, the first time, the buffer) could be allocated; otherwise the
    queue is untouched.  When the buffer has memory, the copy it made is
    either in the queue or freed. *)
Theorem ast_jb_put_correct (I : ast_jb_impl) `{!JbImpl I} dup_addr create_ok put_ok clock jb f :
  jb_wf I jb → (is_voice f = true → frame_ok f) →
  ∃ rc freed jb', ast_jb_put dup_addr create_ok put_ok clock jb f = Some (rc, freed, jb') ∧
    jb_wf I jb' ∧
    rc = (if jb_takes jb f && bool_decide (is_Some dup_addr) && (JB_CREATED jb || create_ok)
          then 0 else -1) ∧
    (rc = -1 → jb_queued jb' = jb_queued jb) ∧
    (put_ok = true →
     option_list (put_copy dup_addr jb f) ++ jb_queued jb ≡ₚ freed ++ jb_queued jb').
Proof.
  intros Hwf Hfok. destruct (ast_jb_put_spec I dup_addr create_ok put_ok clock jb f Hwf Hfok)
    as (rc & freed & jb' & E & Hwf' & Hrc & Hq & lost & Hl & Hp).
  exists rc, freed, jb'. split_and!; try done. intros ->. destruct Hl as [-> |[? _]]; [|done].
  by rewrite app_nil_r in Hp.
Qed.

(** C32: over the life of a channel's buffer, from the check that put it into
    use through any sequence of puts (of voice frames in formats with a packet
    length, or other frames), deliveries, resets and destructions,
    destroying it succeeds and leaves it empty, and then every copy ever made
    has been freed exactly once, but for copies put while there was no memory for
    a list entry: [jb_put] of the adaptive buffer reports success for those and
    may keep no pointer to them. *)
Theorem ast_jb_run_frees c0 c1 conf t0 t1 b jb0 jb1 jb al fr no_mem :
  chan_jb c0 = new_jb conf →
  ast_jb_do_usecheck c0 c1 t0 t1 = (b, jb0, jb1) → JB_USE jb0 = true →
  rtc bridge_step (jb0, [], [], []) (jb, al, fr, no_mem) →
  ∃ fs jb' lost, ast_jb_destroy jb = Some (fs, jb') ∧ jb_queued jb' = [] ∧
    al ≡ₚ fr ++ fs ++ lost ∧ lost `sublist_of` no_mem.
Proof.
  intros Hnew Hchk Huse Hrun. unfold ast_jb_do_usecheck in Hchk. rewrite Hnew in Hchk.
  destruct (usecheck_side _ _ _ (new_jb conf) _ _) as [use0 j0] eqn:E0.
  destruct (usecheck_side _ _ _ (chan_jb c1) _ _) as [use1 j1]. simplify_eq.
  assert (use0 = true) as ->.
  { unfold usecheck_side in E0. case_match; by simplify_eq. }
  destruct (usecheck_wf _ _ _ _ _ _ _ E0) as (I & HI & _ & Hwf & Hq).
  assert (∀ s s', bridge_inv I s → rtc bridge_step s s' → bridge_inv I s') as Hinv.
  { intros s s' H. induction 1; eauto using bridge_step_inv. }
  destruct (Hinv (jb0, [], [], []) (jb, al, fr, no_mem)) as [Hwf' (lost & Hl & Hp)]; [|done|].
  { split; [done|]. exists []. cbn. by rewrite Hq. }
  destruct (ast_jb_destroy_spec I jb Hwf') as (jb' & Hd & _ & _ & Hq').
  by exists (jb_queued jb), jb', lost.
Qed.

(** The time a bridge sleeps is -1 (no limit) or at least 1 ms, never 0;
    it is no longer than the bridge's own time limit and, for each side whose
    buffer is active, no longer than the time to its next delivery; with no
    active buffer it is the limit. *)
Theorem ast_jb_get_when_to_wakeup_correct jb0 jb1 time_left tv_now :
  - 2 ^ 31 <= time_left <= INT_MAX →
  let r := ast_jb_get_when_to_wakeup jb0 jb1 time_left tv_now in
  let active j := JB_USE j && JB_CREATED j in
  (r = -1 ∨ 1 <= r < INT_MAX) ∧
  (0 <= time_left < INT_MAX → 1 <= r <= Z.max 1 time_left) ∧
  (∀ j, j = jb0 ∨ j = jb1 → active j = true →
     - 2 ^ 31 <= jb_next_time j - get_now j tv_now < INT_MAX →
     1 <= r <= Z.max 1 (jb_next_time j - get_now j tv_now)) ∧
  (active jb0 = false → active jb1 = false →
     r = if (time_left <? 0) || (time_left =? INT_MAX) then -1 else Z.max 1 time_left).
Proof.
  intros Ht. cbv zeta. unfold ast_jb_get_when_to_wakeup, INT_MAX in *.
  pose proof (swrap_range 32 (jb_next_time jb0 - get_now jb0 tv_now) ltac:(lia)) as R0.
  pose proof (swrap_range 32 (jb_next_time jb1 - get_now jb1 tv_now) ltac:(lia)) as R1.
  assert (∀ j, - 2 ^ 31 <= jb_next_time j - get_now j tv_now < 2147483647 →
    s32 (jb_next_time j - get_now j tv_now) = jb_next_time j - get_now j tv_now) as Hs
    by (intros; apply swrap_small; lia).
  split_and!.
  - repeat case_match; lia.
  - intros. repeat case_match; lia.
  - intros j [-> | ->] Ha Hr; rewrite Ha, (Hs _ Hr); repeat case_match; lia.
  - intros -> ->. repeat case_match; lia.
Qed.

(** *** Witnesses *)

Definition ulaw : ast_format := AstFormat 1 20 8000 false.
Definition voice (i ts : Z) : ast_frame :=
  AstFrame i (AST_FRAME_VOICE ulaw) ts 20 true false 0 false.
Definition w_conf (i : string) : ast_jb_conf := AstJbConf true false false false 40 1000 i 40.
Definition w_chan (i : string) : ast_channel := AstChannel false true (new_jb (w_conf i)).
Definition w_jb (i : string) : ast_jb :=
  (ast_jb_do_usecheck (w_chan i) (w_chan i) (ast_tv 100 0) (ast_tv 100 0)).1.2.

Lemma voice_ok i ts : frame_ok (voice i ts).
Proof. by exists ulaw. Qed.

Lemma w_jb_wf : jb_wf fixed_impl (w_jb "fixed").
Proof. by constructor. Qed.

(** The buffer after its first frame, at 100.010 s. *)
Definition w_put : option (Z * list ast_frame * ast_jb) :=
  ast_jb_put (Some 7) true true (ast_tv 100 10000) (w_jb "fixed") (voice 1 0).




Lemma ast_jb_put_correct_witness :
  ∃ rc freed jb, w_put = Some (rc, freed, jb) ∧ jb_wf fixed_impl jb ∧ rc = 0.
Proof.
  destruct (ast_jb_put_correct fixed_impl (Some 7) true true (ast_tv 100 10000)
    (w_jb "fixed") (voice 1 0) w_jb_wf (λ _, voice_ok 1 0)) as (rc & freed & jb & E & Hwf & -> & _).
  exists 0, freed, jb. split_and!; [exact E | exact Hwf | reflexivity].
Defined.

Lemma w_adaptive_freed :
  option_map (λ r, r.1.2)
    (ast_jb_put (Some 7) true true (ast_tv 100 10000) (w_jb "adaptive") (voice 1 0)) = Some [].
Proof. vm_compute. reflexivity. Qed.

Lemma ast_jb_run_frees_witness :
  let copy := AstFrame 7 (AST_FRAME_VOICE ulaw) 0 20 true false 0 true in
  ∃ jb, rtc bridge_step (w_jb "adaptive", [], [], []) (jb, [copy], [], []) ∧
  ∃ fs jb' lost, ast_jb_destroy jb = Some (fs, jb') ∧ jb_queued jb' = [] ∧
    [copy] ≡ₚ [] ++ fs ++ lost ∧ lost `sublist_of` [].
Proof.
  intros copy. pose proof w_adaptive_freed as Hf.
  destruct (ast_jb_put (Some 7) true true (ast_tv 100 10000) (w_jb "adaptive") (voice 1 0))
    as [[[rc freed] jb]|] eqn:E; [|discriminate Hf].
  injection Hf as ->.
  assert (rtc bridge_step (w_jb "adaptive", [], [], []) (jb, [copy], [], [])) as Hr.
  { eapply rtc_l; [|apply rtc_refl].
    exact (bs_put _ [] [] [] (Some 7) true true (ast_tv 100 10000) (voice 1 0) rc [] jb
      (λ _, voice_ok 1 0) E). }
  exists jb. split; [exact Hr|].
  exact (ast_jb_run_frees (w_chan "adaptive") (w_chan "adaptive") (w_conf "adaptive")
    (ast_tv 100 0) (ast_tv 100 0) true (w_jb "adaptive") (w_jb "adaptive") jb _ _ _
    eq_refl eq_refl eq_refl Hr).
Defined.

Lemma ast_jb_get_when_to_wakeup_correct_witness :
  ast_jb_get_when_to_wakeup (w_jb "fixed") (w_jb "fixed") (-1) (ast_tv 100 0) = -1 ∧
  (0 <= 5 < INT_MAX →
   1 <= ast_jb_get_when_to_wakeup (w_jb "fixed") (w_jb "fixed") 5 (ast_tv 100 0) <= Z.max 1 5).
Proof.
  split; [reflexivity|].
  apply (ast_jb_get_when_to_wakeup_correct (w_jb "fixed") (w_jb "fixed") 5 (ast_tv 100 0)).
  unfold INT_MAX. lia.
Defined.

End Properties.
