(* ===== verification/JbFramehook.v ===== *)
(** * The jitter buffer frame hook ([main/abstract_jb.c])

    A channel can carry a jitter buffer as a frame hook: every frame read
    from the channel goes through [hook_event_cb], which stores voice frames
    in the buffer, returns the frame that is due, and (with video
    synchronisation) holds video frames back until the audio they belong to
    is played.  [struct jb_framedata] is the record [jb_framedata]; its timer
    is represented by the acknowledgement's outcome, an argument.

    The model runs one call of the handler: the clock reading, the outcomes
    of the allocations and the addresses of the copies made are arguments.
    [None] is a run into undefined behaviour: a null dereference or an
    integer division by zero.  Besides the frame returned (with the chain of
    frames hung on it) the handler's result lists the frames it freed and the
    frames it allocated, so that ownership can be accounted for. *)

From stdpp Require Import base numbers list strings relations.
From Stdlib Require Import ZArith Lia SpecFloat.
From S2P Require Import Prelude Timeval FixedJb JitterBuf AbstractJb.
Local Open Scope cint_scope.

(** [ast_samp2tv] at the rates of the handler, which are not zero. *)
Definition samp2tv (nsamp rate : Z) : timeval := default (ast_tv (nsamp /c rate) 0) (ast_samp2tv nsamp rate).

(** ** State *)

Record jb_stream_sync := JbStreamSync { sync_timestamp : Z; sync_ntp : timeval }.

Record jb_framedata := JbFramedata {
  fd_impl : ast_jb_impl;
  fd_conf : ast_jb_conf;
  start_tv : timeval;
  fd_last_format : option ast_format;
  timer_interval : Z;
  first : bool;
  audio_stream_id : Z;
  audio_stream_sync : jb_stream_sync;
  video_stream_id : Z;
  video_stream_sync : jb_stream_sync;
  early_frames : list ast_frame;
  early_frame_count : Z;
  last_audio_ntp_timestamp : timeval;
  audio_flowing : bool;
  jb_obj : option jbobj;
}.

Definition set_fd_last_format (v : option ast_format) (d : jb_framedata) : jb_framedata :=
  JbFramedata (fd_impl d) (fd_conf d) (start_tv d) v (timer_interval d) (first d)
    (audio_stream_id d) (audio_stream_sync d) (video_stream_id d) (video_stream_sync d)
    (early_frames d) (early_frame_count d) (last_audio_ntp_timestamp d) (audio_flowing
    d) (jb_obj d).
Definition set_timer_interval (v : Z) (d : jb_framedata) : jb_framedata :=
  JbFramedata (fd_impl d) (fd_conf d) (start_tv d) (fd_last_format d) v (first d)
    (audio_stream_id d) (audio_stream_sync d) (video_stream_id d) (video_stream_sync d)
    (early_frames d) (early_frame_count d) (last_audio_ntp_timestamp d) (audio_flowing
    d) (jb_obj d).
Definition set_first (v : bool) (d : jb_framedata) : jb_framedata :=
  JbFramedata (fd_impl d) (fd_conf d) (start_tv d) (fd_last_format d) (timer_interval d)
    v (audio_stream_id d) (audio_stream_sync d) (video_stream_id d) (video_stream_sync
    d) (early_frames d) (early_frame_count d) (last_audio_ntp_timestamp d)
    (audio_flowing d) (jb_obj d).
Definition set_audio_stream_id (v : Z) (d : jb_framedata) : jb_framedata :=
  JbFramedata (fd_impl d) (fd_conf d) (start_tv d) (fd_last_format d) (timer_interval d)
    (first d) v (audio_stream_sync d) (video_stream_id d) (video_stream_sync d)
    (early_frames d) (early_frame_count d) (last_audio_ntp_timestamp d) (audio_flowing
    d) (jb_obj d).
Definition set_audio_stream_sync (v : jb_stream_sync) (d : jb_framedata) : jb_framedata :=
  JbFramedata (fd_impl d) (fd_conf d) (start_tv d) (fd_last_format d) (timer_interval d)
    (first d) (audio_stream_id d) v (video_stream_id d) (video_stream_sync d)
    (early_frames d) (early_frame_count d) (last_audio_ntp_timestamp d) (audio_flowing
    d) (jb_obj d).
Definition set_video_stream_id (v : Z) (d : jb_framedata) : jb_framedata :=
  JbFramedata (fd_impl d) (fd_conf d) (start_tv d) (fd_last_format d) (timer_interval d)
    (first d) (audio_stream_id d) (audio_stream_sync d) v (video_stream_sync d)
    (early_frames d) (early_frame_count d) (last_audio_ntp_timestamp d) (audio_flowing
    d) (jb_obj d).
Definition set_video_stream_sync (v : jb_stream_sync) (d : jb_framedata) : jb_framedata :=
  JbFramedata (fd_impl d) (fd_conf d) (start_tv d) (fd_last_format d) (timer_interval d)
    (first d) (audio_stream_id d) (audio_stream_sync d) (video_stream_id d) v
    (early_frames d) (early_frame_count d) (last_audio_ntp_timestamp d) (audio_flowing
    d) (jb_obj d).
Definition set_early_frames (v : list ast_frame) (d : jb_framedata) : jb_framedata :=
  JbFramedata (fd_impl d) (fd_conf d) (start_tv d) (fd_last_format d) (timer_interval d)
    (first d) (audio_stream_id d) (audio_stream_sync d) (video_stream_id d)
    (video_stream_sync d) v (early_frame_count d) (last_audio_ntp_timestamp d)
    (audio_flowing d) (jb_obj d).
Definition set_early_frame_count (v : Z) (d : jb_framedata) : jb_framedata :=
  JbFramedata (fd_impl d) (fd_conf d) (start_tv d) (fd_last_format d) (timer_interval d)
    (first d) (audio_stream_id d) (audio_stream_sync d) (video_stream_id d)
    (video_stream_sync d) (early_frames d) v (last_audio_ntp_timestamp d) (audio_flowing
    d) (jb_obj d).
Definition set_last_audio_ntp_timestamp (v : timeval) (d : jb_framedata) : jb_framedata :=
  JbFramedata (fd_impl d) (fd_conf d) (start_tv d) (fd_last_format d) (timer_interval d)
    (first d) (audio_stream_id d) (audio_stream_sync d) (video_stream_id d)
    (video_stream_sync d) (early_frames d) (early_frame_count d) v (audio_flowing d)
    (jb_obj d).
Definition set_audio_flowing (v : bool) (d : jb_framedata) : jb_framedata :=
  JbFramedata (fd_impl d) (fd_conf d) (start_tv d) (fd_last_format d) (timer_interval d)
    (first d) (audio_stream_id d) (audio_stream_sync d) (video_stream_id d)
    (video_stream_sync d) (early_frames d) (early_frame_count d)
    (last_audio_ntp_timestamp d) v (jb_obj d).
Definition set_jb_obj (v : option jbobj) (d : jb_framedata) : jb_framedata :=
  JbFramedata (fd_impl d) (fd_conf d) (start_tv d) (fd_last_format d) (timer_interval d)
    (first d) (audio_stream_id d) (audio_stream_sync d) (video_stream_id d)
    (video_stream_sync d) (early_frames d) (early_frame_count d)
    (last_audio_ntp_timestamp d) (audio_flowing d) v.

Implicit Types (d : jb_framedata) (f : ast_frame).

(** ** Frames and their ownership *)

(** [ast_frfree]: a frame whose header is not on the heap is left alone. *)
Definition ast_frfree f : list ast_frame := if mallocd_hdr f then [f] else [].

(** [ast_frisolate] on a frame with timing information: the frame itself when
    its header is on the heap, otherwise a heap copy, which takes over the
    parts the frame owned; null when memory is short. *)
Definition ast_frisolate (ok : bool) (addr : Z) f : option ast_frame :=
  if negb ok then None
  else if mallocd_hdr f then Some f
  else Some (AstFrame addr (frametype f) (fr_ts f) (fr_len f) (has_timing_info f)
               (fr_requeued f) (stream_num f) true).

(** The new heap frame of a call of [ast_frisolate], if it made one. *)
Definition isolate_alloc f (jbframe : ast_frame) : list ast_frame :=
  if mallocd_hdr f then [] else [jbframe].

Definition is_video f : bool := match frametype f with AST_FRAME_VIDEO => true | _ => false end.
Definition is_null f : bool := match frametype f with AST_FRAME_NULL => true | _ => false end.

(** ** Video synchronisation *)

Definition ast_format_get_sample_rate (fmt : ast_format) : Z :=
  if sample_rate fmt =? 0 then 8000 else sample_rate fmt.

Definition ast_rtp_get_rate (fmt : ast_format) : Z :=
  if is_g722 fmt then 8000 else s32 (ast_format_get_sample_rate fmt).

(** The NTP time of a frame from its time stamp. *)
Definition jitterbuffer_frame_get_ntp_timestamp (s : jb_stream_sync) f : timeval :=
  if ast_tvzero (sync_ntp s) then ast_tv 0 0
  else
    let '(rate, timestamp_diff) :=
      match frametype f with
      | AST_FRAME_VOICE fmt =>
        let rate := u32 (ast_rtp_get_rate fmt) in
        (rate, s32 (fr_ts f * (rate /c 1000) - sync_timestamp s))
      | _ => (90000, s32 (fr_ts f - sync_timestamp s))
      end in
    if timestamp_diff <? 0 then
      ast_tvsub (sync_ntp s) (samp2tv (u32 (Z.abs timestamp_diff)) rate)
    else ast_tvadd (sync_ntp s) (samp2tv (u32 timestamp_diff) rate).

Definition MAXIMUM_EARLY_FRAME_COUNT : Z := 200.

(** ** The handler *)

Inductive ast_framehook_event :=
  | AST_FRAMEHOOK_EVENT_READ | AST_FRAMEHOOK_EVENT_WRITE
  | AST_FRAMEHOOK_EVENT_ATTACHED | AST_FRAMEHOOK_EVENT_DETACHED.

(** What a call meets: whether the timer woke the channel and could not be
    acknowledged, the clock, and the outcomes of allocations. *)
Record hook_env := HookEnv {
  ack_failed : bool;
  now_tv : timeval;
  isolate_ok : bool;
  isolate_addr : Z;
  put_ok : bool;
  dup_addr : option Z;
}.

(** What a call gives: the frame returned (null included), the frames chained
    to it, those freed, those allocated, and the hook's data. *)
Record hook_result := HookResult {
  hr_frame : option ast_frame;
  hr_more : list ast_frame;
  hr_freed : list ast_frame;
  hr_alloc : list ast_frame;
  hr_data : jb_framedata;
}.

(** A frame passed through unchanged. *)
Definition pass (fo : option ast_frame) d : option hook_result :=
  Some (HookResult fo [] [] [] d).

(** A video frame under synchronisation; every path returns. *)
Definition hook_video (e : hook_env) d f : option hook_result :=
  let d := set_video_stream_id (stream_num f) d in
  if negb (has_timing_info f) then pass (Some f) d
  else if audio_flowing d &&
          (ast_tvdiff_ms (last_audio_ntp_timestamp d)
             (jitterbuffer_frame_get_ntp_timestamp (video_stream_sync d) f) >=? 0)
  then pass (Some f) d
  else
    '(freed, d) ←
      (if early_frame_count d =? MAXIMUM_EARLY_FRAME_COUNT then
         match early_frames d with
         | jbframe :: rest =>
           Some (ast_frfree jbframe,
                 set_early_frame_count (u32 (early_frame_count d - 1)) (set_early_frames rest d))
         | [] => None
         end
       else Some ([], d));
    match ast_frisolate (isolate_ok e) (isolate_addr e) f with
    | None => Some (HookResult (Some f) [] freed [] d)
    | Some jbframe =>
      let d := set_early_frames (early_frames d ++ [jbframe]) d in
      let d := set_early_frame_count (u32 (early_frame_count d + 1)) d in
      Some (HookResult (Some ast_null_frame) [] freed (isolate_alloc f jbframe) d)
    end.

(** The bookkeeping of stream identifiers and sender reports. *)
Definition hook_sync d f : jb_framedata :=
  match frametype f with
  | AST_FRAME_VOICE _ => set_audio_stream_id (stream_num f) d
  | AST_FRAME_RTCP (Some sr) =>
    let s := JbStreamSync (rtp_timestamp sr) (ntp_timestamp sr) in
    if audio_stream_id d =? stream_num f then set_audio_stream_sync s d
    else if video_stream_id d =? stream_num f then set_video_stream_sync s d
    else d
  | _ => d
  end.

(** The timer is set to the length of the frames: [1000 / timer_interval] is
    its rate. *)
Definition hook_timer d f : option jb_framedata :=
  if negb (fr_len f =? 0) && negb (fr_len f =? timer_interval d) then
    let d := set_timer_interval (s32 (fr_len f)) d in
    if timer_interval d =? 0 then None else Some d
  else Some d.

(** The first frame starts the buffer. *)
Definition hook_store (e : hook_env) d (o : jbobj) (jbframe : ast_frame) (now : Z) :
    option (jb_impl_code * jbobj * jb_framedata) :=
  if negb (first d) then
    '(res, o) ← put_first (fd_impl d) (put_ok e) o jbframe now;
    Some (res, o, set_first true d)
  else
    '(res, o) ← put (fd_impl d) (put_ok e) o jbframe now;
    Some (res, o, d).

(** Storing a voice frame with timing information: the frame to go on with,
    the frames freed and allocated, and the data. *)
Definition hook_voice (e : hook_env) d f (relative_frame_start : Z) :
    option (ast_frame * list ast_frame * list ast_frame * jb_framedata) :=
  jbobj ← jb_obj d;
  let jbf := ast_frisolate (isolate_ok e) (isolate_addr e) f in
  let d := set_fd_last_format (frame_format f) d in
  d ← hook_timer d f;
  jbframe ← jbf;
  '(res, jbobj, d) ← hook_store e d jbobj jbframe relative_frame_start;
  let d := set_jb_obj (Some jbobj) d in
  let alloc := isolate_alloc f jbframe in
  if bool_decide (res = AST_JB_IMPL_OK) then
    Some (ast_null_frame, if mallocd_hdr f then [] else ast_frfree f, alloc, d)
  else Some (f, if mallocd_hdr f then [] else ast_frfree jbframe, alloc, d).

(** The part of the handler that asks the buffer for a frame, entered with a
    null frame.  [inl] is an early return. *)
Definition hook_get (e : hook_env) d f (putframe : bool) (relative_frame_start : Z) :
    option ((ast_frame + ast_frame) * list ast_frame * list ast_frame * jb_framedata) :=
  jbobj ← jb_obj d;
  '(nxt, jbobj) ← next (fd_impl d) jbobj;
  let d := set_jb_obj (Some jbobj) d in
  if (relative_frame_start <? nxt) &&
     (negb putframe || (nxt - relative_frame_start >=? timer_interval d))
  then Some (inl f, [], [], d)
  else
    let freed := ast_frfree f in
    '(res, frame, jbobj) ← get (fd_impl d) jbobj relative_frame_start (timer_interval d);
    let d := set_jb_obj (Some jbobj) d in
    match res with
    | AST_JB_IMPL_OK => Some (inr frame, freed, [], d)
    | AST_JB_IMPL_DROP => Some (inr ast_null_frame, freed ++ ast_frfree frame, [], d)
    | AST_JB_IMPL_INTERP =>
      match fd_last_format d with
      | Some fmt =>
        if timer_interval d =? 0 then None
        else if 1000 /c timer_interval d =? 0 then None
        else
          let tmp := AstFrame 0 (AST_FRAME_VOICE fmt) 0 0 false false 0 false in
          frame' ← ast_frdup (dup_addr e) tmp;
          Some (inr frame', freed ++ ast_frfree frame, [frame'], d)
      | None => Some (inr ast_null_frame, freed ++ ast_frfree frame, [], d)
      end
    | AST_JB_IMPL_NOFRAME => Some (inr ast_null_frame, freed ++ ast_frfree frame, [], d)
    end.

(** Control frames that announce a new source resynchronise the buffer and
    drop the video held back. *)
Definition is_resync (c : ast_control_frame_type) : bool :=
  match c with AST_CONTROL_OTHER _ => false | _ => true end.

Definition hook_control d f : option (list ast_frame * jb_framedata) :=
  match frametype f with
  | AST_FRAME_CONTROL c =>
    if is_resync c then
      jbobj ← jb_obj d;
      jbobj ← force_resync (fd_impl d) jbobj;
      let d := set_jb_obj (Some jbobj) d in
      let freed := mjoin (ast_frfree <$> early_frames d) in
      Some (freed, set_early_frame_count 0 (set_audio_flowing false (set_early_frames [] d)))
    else Some ([], d)
  | _ => Some ([], d)
  end.

(** The walk over the video frames held back: those not later than the audio
    are taken out in order, the others stay. *)
Fixpoint split_early (due : ast_frame → bool) (l : list ast_frame) :
    list ast_frame * list ast_frame :=
  match l with
  | [] => ([], [])
  | f :: l =>
    let '(out, rest) := split_early due l in
    if due f then (f :: out, rest) else (out, f :: rest)
  end.

(** A voice frame is going out: hang on it the video that belongs to it. *)
Definition hook_additional d f : list ast_frame * jb_framedata :=
  if AST_JB_SYNC_VIDEO (fd_conf d) && is_voice f then
    let ntp := jitterbuffer_frame_get_ntp_timestamp (audio_stream_sync d) f in
    let d := set_audio_flowing true (set_last_audio_ntp_timestamp ntp d) in
    let '(additional, rest) :=
      split_early (λ v, s32 (ast_tvdiff_ms ntp
        (jitterbuffer_frame_get_ntp_timestamp (video_stream_sync d) v)) >=? 0) (early_frames d) in
    (additional,
     set_early_frame_count (u32 (early_frame_count d - Z.of_nat (length additional)))
       (set_early_frames rest d))
  else ([], d).

(** From the control frame check to the end. *)
Definition hook_finish d f (freed alloc : list ast_frame) : option hook_result :=
  '(freed2, d) ← hook_control d f;
  let '(more, d) := hook_additional d f in
  Some (HookResult (Some f) more (freed ++ freed2) alloc d).

(** From the reading of the clock on. *)
Definition hook_main (e : hook_env) d f : option hook_result :=
  let relative_frame_start := ast_tvdiff_ms (now_tv e) (start_tv d) in
  if relative_frame_start <? 0 then pass (Some f) d
  else if is_voice f && (negb (has_timing_info f) || (fr_len f <? 2) || (fr_ts f <? 0))
  then pass (Some f) d
  else
    '(f1, freed1, alloc1, d) ←
      (if is_voice f then hook_voice e d f relative_frame_start else Some (f, [], [], d));
    if is_null f1 then
      '(r, freed2, alloc2, d) ← hook_get e d f1 (is_voice f) relative_frame_start;
      match r with
      | inl f2 => Some (HookResult (Some f2) [] (freed1 ++ freed2) (alloc1 ++ alloc2) d)
      | inr f2 => hook_finish d f2 (freed1 ++ freed2) (alloc1 ++ alloc2)
      end
    else hook_finish d f1 freed1 alloc1.

Definition hook_event_cb (ev : ast_framehook_event) (e : hook_env) d (frame : option ast_frame) :
    option hook_result :=
  match ev with
  | AST_FRAMEHOOK_EVENT_READ =>
    if ack_failed e then pass frame d
    else
      match frame with
      | None => pass None d
      | Some f =>
        late ← (if fr_requeued f then jbobj ← jb_obj d; is_late (fd_impl d) jbobj (fr_ts f)
                else Some false);
        if (late : bool) then pass (Some f) d
        else if AST_JB_SYNC_VIDEO (fd_conf d) then
          if is_video f then hook_video e d f else hook_main e (hook_sync d f) f
        else hook_main e d f
      end
  | _ => pass frame d
  end.

(** ** Creating and destroying the data *)

(** The timer could be opened; [create_ok] is the outcome of the buffer's
    allocation, which is not checked. *)
Definition jb_framedata_init (timer_ok create_ok : bool) (c : ast_jb_conf) (tv : timeval) :
    option jb_framedata :=
  ty ← (if bool_decide (impl c = ""%string) then Some AST_JB_FIXED
        else if strcasecmp_eq (impl c) "fixed" then Some AST_JB_FIXED
        else if strcasecmp_eq (impl c) "adaptive" then Some AST_JB_ADAPTIVE
        else None);
  i ← ast_jb_get_impl ty;
  if negb timer_ok then None
  else
    let zero := JbStreamSync 0 (ast_tv 0 0) in
    Some (JbFramedata i c tv None 20 false (-1) zero (-1) zero [] 0 (ast_tv 0 0) false
            (create i create_ok c)).

(** Returns the frames freed. *)
Definition jb_framedata_destroy d : option (list ast_frame) :=
  freed ← match jb_obj d with
          | Some jbobj =>
            '(freed, jbobj) ← remove_all (impl_remove_step (fd_impl d))
                                (S (length (obj_queued jbobj))) jbobj;
            more ← destroy (fd_impl d) jbobj;
            Some (freed ++ more)
          | None => Some []
          end;
  Some (mjoin (ast_frfree <$> freed) ++ mjoin (ast_frfree <$> early_frames d)).

(** ** Ownership *)

Definition owned (l : list ast_frame) : list ast_frame := mjoin (ast_frfree <$> l).

(** The frames the hook holds. *)
Definition held d : list ast_frame := default [] (obj_queued <$> jb_obj d) ++ early_frames d.

Definition on_heap (f : ast_frame) : Prop := mallocd_hdr f = true.

Lemma owned_heap l : Forall on_heap l → owned l = l.
Proof.
  induction 1 as [|f l Hf Hl IH]; [done|]. unfold owned in *. csimpl. rewrite IH.
  unfold ast_frfree. by rewrite Hf.
Qed.

Lemma split_early_spec due l :
  let r := split_early due l in l ≡ₚ r.1 ++ r.2 ∧ r.1 `sublist_of` l ∧ r.2 `sublist_of` l.
Proof.
  cbv zeta. induction l as [|f l (IH1 & IH2 & IH3)]; [done|]. cbn [split_early].
  destruct (split_early due l) as [out rest]. cbn [fst snd] in *.
  destruct (due f); cbn [fst snd]; split_and!; try (by constructor).
  rewrite IH1. apply Permutation_middle.
Qed.

Section Hook.
Context (I : ast_jb_impl) `{!JbImpl I}.

(** The invariant of the hook's data. *)
Record fd_wf d : Prop := {
  fw_impl : fd_impl d = I;
  fw_obj : ∃ o, jb_obj d = Some o ∧ obj_ok o ∧ Forall on_heap (obj_queued o) ∧
             (first d = false → obj_queued o = []);
  fw_early : Forall on_heap (early_frames d);
  fw_count : early_frame_count d = Z.of_nat (length (early_frames d));
  fw_max : early_frame_count d <= MAXIMUM_EARLY_FRAME_COUNT;
  fw_timer : 2 <= timer_interval d <= 1000;
}.

Lemma fd_wf_intro d o :
  fd_impl d = I → jb_obj d = Some o → obj_ok o → Forall on_heap (obj_queued o) →
  (first d = false → obj_queued o = []) →
  Forall on_heap (early_frames d) → early_frame_count d = Z.of_nat (length (early_frames d)) →
  early_frame_count d <= MAXIMUM_EARLY_FRAME_COUNT → 2 <= timer_interval d <= 1000 → fd_wf d.
Proof. intros. constructor; try done. by exists o. Qed.

(** *** The stages *)

Lemma hook_control_spec d f :
  fd_wf d →
  ∃ freed d', hook_control d f = Some (freed, d') ∧ fd_wf d' ∧ held d ≡ₚ freed ++ held d'.
Proof.
  intros Hwf. unfold hook_control. destruct (frametype f) as [| | | |c| |];
    try (by eexists _, _; split; [reflexivity|]; split).
  destruct (is_resync c); [|by eexists _, _; split; [reflexivity|]; split].
  destruct Hwf as [Hi (o & Ho & Hok & Hh & Hf) He Hc Hm Ht]. rewrite Ho, Hi. cbn [mbind option_bind].
  destruct (force_law o Hok) as (o' & -> & Hok' & Hq'). cbn [mbind option_bind].
  eexists _, _. split; [reflexivity|]. split.
  - apply (fd_wf_intro _ o'); cbn; rewrite ?Hq'; done.
  - unfold held. cbn. rewrite Ho, Hq'. change (mjoin _) with (owned (early_frames d)).
    rewrite owned_heap by done. cbn. perm_lia.
Qed.

Lemma hook_additional_spec d f :
  fd_wf d →
  let r := hook_additional d f in fd_wf r.2 ∧ held d ≡ₚ r.1 ++ held r.2 ∧ Forall on_heap r.1.
Proof.
  intros Hwf. cbv zeta. unfold hook_additional.
  destruct (AST_JB_SYNC_VIDEO _ && _); [|by split_and!].
  destruct Hwf as [Hi (o & Ho & Hok & Hh & Hf) He Hc Hm Ht]. cbn [early_frames set_audio_flowing set_last_audio_ntp_timestamp].
  match goal with |- context [split_early ?p ?l] =>
    pose proof (split_early_spec p l) as (Hp & Hs1 & Hs2); destruct (split_early p l) as [out rest] end.
  cbn [fst snd] in *. pose proof (Permutation_length Hp) as Hlen. rewrite length_app in Hlen.
  unfold MAXIMUM_EARLY_FRAME_COUNT in *. rewrite Hp in He. apply Forall_app in He as [He1 He2].
  split_and!; [|unfold held; cbn; rewrite Ho, Hp; cbn; perm_lia | done].
  apply (fd_wf_intro _ o); cbn; try done; rewrite Hc;
    (rewrite uwrap_small by (change (2 ^ 32) with 4294967296; lia)); unfold MAXIMUM_EARLY_FRAME_COUNT; lia.
Qed.

Lemma hook_finish_spec d f freed alloc :
  fd_wf d →
  ∃ r, hook_finish d f freed alloc = Some r ∧ fd_wf (hr_data r) ∧ hr_frame r = Some f ∧
    hr_alloc r = alloc ∧ freed ++ held d ≡ₚ hr_freed r ++ hr_more r ++ held (hr_data r).
Proof.
  intros Hwf. unfold hook_finish.
  destruct (hook_control_spec d f Hwf) as (fs & d1 & -> & Hwf1 & Hp1). cbn [mbind option_bind].
  pose proof (hook_additional_spec d1 f Hwf1) as (Hwf2 & Hp2 & _).
  destruct (hook_additional d1 f) as [more d2]. cbn [fst snd] in *.
  eexists. split; [reflexivity|]. cbn. split_and!; try done. perm_lia.
Qed.

Lemma fd_wf_same d d' :
  fd_wf d → fd_impl d' = fd_impl d → jb_obj d' = jb_obj d → first d' = first d →
  early_frames d' = early_frames d → early_frame_count d' = early_frame_count d →
  timer_interval d' = timer_interval d → fd_wf d'.
Proof.
  intros [Hi Ho He Hc Hm Ht] E1 E2 E3 E4 E5 E6.
  constructor; rewrite ?E1, ?E2, ?E3, ?E4, ?E5, ?E6; done.
Qed.

Lemma frisolate_spec e f :
  isolate_ok e = true →
  ∃ jbframe, ast_frisolate (isolate_ok e) (isolate_addr e) f = Some jbframe ∧
    on_heap jbframe ∧ fr_len jbframe = fr_len f ∧ frametype jbframe = frametype f ∧
    (mallocd_hdr f = true → jbframe = f) ∧ fr_ts jbframe = fr_ts f ∧
    ast_frfree f ++ isolate_alloc f jbframe ≡ₚ [jbframe].
Proof.
  intros ->. unfold ast_frisolate, isolate_alloc, ast_frfree, on_heap. cbn [negb].
  destruct (mallocd_hdr f) eqn:E; eexists; split; try reflexivity; by split_and!.
Qed.

(** The timer follows the frame length. *)
Lemma timer_step d f :
  fd_wf d → 2 <= fr_len f <= 1000 →
  ∃ d', hook_timer d f = Some d' ∧
    fd_wf d' ∧ jb_obj d' = jb_obj d ∧ early_frames d' = early_frames d ∧ first d' = first d.
Proof.
  intros [Hi (o & Ho & Hok & Hh & Hf) He Hc Hm Ht] Hl. unfold hook_timer.
  case_match eqn:E; cbn -[swrap]; rewrite ?swrap_small by (cbn; lia).
  - rewrite (proj2 (Z.eqb_neq _ _)) by lia. eexists. split; [reflexivity|]. split_and!; try done.
    by apply (fd_wf_intro _ o).
  - eexists. split; [reflexivity|]. split_and!; try done. by apply (fd_wf_intro _ o).
Qed.

(** Either way of storing keeps or refuses the frame. *)
Lemma hook_store_spec e d jbframe t :
  fd_wf d → put_ok e = true → on_heap jbframe → 2 <= fr_len jbframe →
  ∃ o res o' d', jb_obj d = Some o ∧
    hook_store e d o jbframe t = Some (res, o', d') ∧
    fd_wf (set_jb_obj (Some o') d') ∧ early_frames d' = early_frames d ∧
    (if bool_decide (res = AST_JB_IMPL_OK) then obj_queued o' ≡ₚ jbframe :: obj_queued o
     else obj_queued o' = obj_queued o).
Proof.
  intros [Hi (o & Ho & Hok & Hh & Hf) He Hc Hm Ht] Hput Hheap Hlen. unfold hook_store. rewrite Hi, Hput.
  destruct (first d) eqn:Ef; cbn [negb].
  - destruct (put_law true o jbframe t Hok Hlen) as (res & o' & Hp & Hok' & Hcase).
    exists o, res, o', d. split; [done|]. split; [by rewrite Hp|].
    assert (if bool_decide (res = AST_JB_IMPL_OK) then obj_queued o' ≡ₚ jbframe :: obj_queued o
            else obj_queued o' = obj_queued o) as Hq.
    { destruct res; try done. by destruct Hcase as [|[]]. }
    split_and!; try done. apply (fd_wf_intro _ o'); cbn; try done; [|by rewrite Ef].
    case_bool_decide; [|by rewrite Hq]. rewrite Hq. by constructor.
  - specialize (Hf eq_refl).
    destruct (put_first_law true o jbframe t Hok Hlen Hf) as (res & o' & Hp & Hok' & Hcase).
    exists o, res, o', (set_first true d). split; [done|]. split; [by rewrite Hp|]. rewrite Hf.
    assert (if bool_decide (res = AST_JB_IMPL_OK) then obj_queued o' ≡ₚ [jbframe]
            else obj_queued o' = []) as Hq.
    { destruct res; try done. rewrite bool_decide_true by done.
      destruct Hcase as [-> |[]]; done. }
    split_and!; try done. apply (fd_wf_intro _ o'); cbn; try done.
    case_bool_decide; [|by rewrite Hq]. rewrite Hq. by constructor.
Qed.

Lemma hook_voice_spec e d f t :
  fd_wf d → isolate_ok e = true → put_ok e = true → 2 <= fr_len f <= 1000 →
  ∃ f1 freed alloc d', hook_voice e d f t = Some (f1, freed, alloc, d') ∧ fd_wf d' ∧
    (f1 = ast_null_frame ∨ f1 = f) ∧
    ast_frfree f ++ held d ++ alloc ≡ₚ ast_frfree f1 ++ held d' ++ freed.
Proof.
  intros Hwf Hiso Hput Hlen. unfold hook_voice.
  destruct (frisolate_spec e f Hiso) as (jbf & Hjb & Hheap & Hjl & _ & Hsame & _ & Hal). rewrite Hjb.
  pose proof (fw_obj _ Hwf) as (o & Ho & _). rewrite Ho. cbn [mbind option_bind].
  assert (fd_wf (set_fd_last_format (frame_format f) d)) as Hwf0
    by (by apply (fd_wf_same d)).
  destruct (timer_step _ f Hwf0 Hlen) as (d1 & -> & Hwf1 & Ho1 & He1 & Hf1).
  cbn [mbind option_bind].
  destruct (hook_store_spec e d1 jbf t Hwf1 Hput Hheap ltac:(lia))
    as (o1 & res & o' & d' & Ho' & Hst & Hwf' & He' & Hq).
  assert (o1 = o) as -> by (rewrite Ho1 in Ho'; cbn in Ho'; congruence).
  rewrite Hst. cbn [mbind option_bind].
  case_bool_decide; (eexists _, _, _, _; split; [reflexivity|]);
    (split; [done|]); (split; [tauto|]); unfold held; cbn; rewrite Ho, He', He1; cbn.
  - assert ((if mallocd_hdr f then [] else ast_frfree f) = []) as ->
      by (unfold ast_frfree; by destruct (mallocd_hdr f)).
    perm_lia.
  - rewrite Hq. unfold ast_frfree, isolate_alloc in *. rewrite Hheap.
    destruct (mallocd_hdr f); perm_lia.
Qed.

Lemma hook_get_spec e d f putframe t :
  fd_wf d → is_Some (dup_addr e) →
  ∃ r freed alloc d', hook_get e d f putframe t = Some (r, freed, alloc, d') ∧ fd_wf d' ∧
    ast_frfree f ++ held d ++ alloc ≡ₚ
      ast_frfree (match r with inl g | inr g => g end) ++ held d' ++ freed.
Proof.
  intros [Hi (o & Ho & Hok & Hh & Hf) He Hc Hm Ht] [a Ha]. unfold hook_get. rewrite Ho, Hi.
  cbn [mbind option_bind].
  destruct (next_law o Hok) as (nx & o1 & -> & Hok1 & Hq1 & _). cbn [mbind option_bind].
  assert (held d = obj_queued o1 ++ early_frames d) as Hheld by (unfold held; by rewrite Ho, Hq1).
  rewrite Hheld. case_match.
  { eexists _, _, _, _. split; [reflexivity|]. split; [|unfold held; cbn; perm_lia].
    apply (fd_wf_intro _ o1); cbn; rewrite ?Hq1; done. }
  cbn [timer_interval set_jb_obj fd_last_format fd_impl]. rewrite ?Hi.
  destruct (get_law o1 t (timer_interval d) Hok1) as (res & g & o2 & -> & Hok2 & Hcase).
  cbn [mbind option_bind].
  assert (fd_wf (set_jb_obj (Some o2) (set_jb_obj (Some o1) d)) ∧
    Forall on_heap (obj_queued o1)) as [Hwf2 Hh1].
  { rewrite <- Hq1 in Hh, Hf. split; [|done]. apply (fd_wf_intro _ o2); cbn; try done.
    - destruct res; [rewrite Hcase in Hh|rewrite Hcase in Hh|..];
        [by apply Forall_cons in Hh as [_ ?] | by apply Forall_cons in Hh as [_ ?]
        | by destruct Hcase as (_ & -> & _) | by destruct Hcase as (_ & -> & _)].
    - intros E. specialize (Hf E).
      destruct res; [by rewrite Hcase in Hf | by rewrite Hcase in Hf
        | by destruct Hcase as (_ & -> & _) | by destruct Hcase as (_ & -> & _)]. }
  destruct res.
  1, 2: rewrite Hcase in Hh1; apply Forall_cons in Hh1 as [Hg _];
    (eexists _, _, _, _; split; [reflexivity|]; split; [done|]);
    unfold held; cbn; rewrite Hcase; unfold ast_frfree; rewrite Hg; cbn; perm_lia.
  all: destruct Hcase as (-> & Hq & _).
  2:{ eexists _, _, _, _. split; [reflexivity|]. split; [done|].
      unfold held; cbn; rewrite Hq; cbn; perm_lia. }
  destruct (fd_last_format d) as [fmt|].
  2:{ eexists _, _, _, _. split; [reflexivity|]. split; [done|].
      unfold held; cbn; rewrite Hq; cbn; perm_lia. }
  rewrite (proj2 (Z.eqb_neq (timer_interval d) 0)) by lia.
  rewrite (proj2 (Z.eqb_neq (1000 /c timer_interval d) 0)).
  2:{ rewrite Z.quot_div_nonneg by lia. assert (1 <= 1000 / timer_interval d); [|lia].
      apply Z.div_le_lower_bound; lia. }
  rewrite Ha. cbn. eexists _, _, _, _. split; [reflexivity|]. split; [done|].
  unfold held; cbn; rewrite Hq; cbn; perm_lia.
Qed.

Lemma hook_video_spec e d f :
  fd_wf d → isolate_ok e = true →
  ∃ r, hook_video e d f = Some r ∧ fd_wf (hr_data r) ∧
    ast_frfree f ++ held d ++ hr_alloc r ≡ₚ
      owned (option_list (hr_frame r)) ++ hr_more r ++ held (hr_data r) ++ hr_freed r.
Proof.
  intros Hwf Hiso. unfold hook_video, pass.
  set (d0 := set_video_stream_id (stream_num f) d).
  assert (fd_wf d0 ∧ held d0 = held d) as [Hwf0 <-]
    by (split; [by apply (fd_wf_same d) | done]).
  clearbody d0. clear d Hwf.
  assert (owned (option_list (Some f)) = ast_frfree f) as Hown
    by (unfold owned; cbn; by rewrite app_nil_r).
  destruct (has_timing_info f); cbn [negb].
  2:{ eexists. split; [reflexivity|]. cbn [hr_data hr_alloc hr_more hr_freed hr_frame]. rewrite Hown.
      split; [done|]. perm_lia. }
  case_match.
  { eexists. split; [reflexivity|]. cbn [hr_data hr_alloc hr_more hr_freed hr_frame]. rewrite Hown.
    split; [done|]. perm_lia. }
  assert (∃ freed d1, (if early_frame_count d0 =? MAXIMUM_EARLY_FRAME_COUNT then
      match early_frames d0 with
      | jbframe :: rest =>
        Some (ast_frfree jbframe,
          set_early_frame_count (u32 (early_frame_count d0 - 1)) (set_early_frames rest d0))
      | [] => None
      end else Some ([], d0)) = Some (freed, d1) ∧ fd_wf d1 ∧ held d0 ≡ₚ freed ++ held d1 ∧
      early_frame_count d1 < MAXIMUM_EARLY_FRAME_COUNT) as (freed & d1 & -> & Hwf1 & Hp1 & Hlt).
  { destruct Hwf0 as [Hi (o & Ho & Hok & Hh & Hf) He Hc Hm Ht]. unfold MAXIMUM_EARLY_FRAME_COUNT in *.
    case_match eqn:E.
    - destruct (early_frames d0) as [|g rest] eqn:Eg; [cbn in Hc; lia|].
      apply Forall_cons in He as [Hg He]. cbn in Hc.
      eexists _, _. split; [reflexivity|].
      rewrite uwrap_small by (change (2 ^ 32) with 4294967296; lia).
      split_and!; [|unfold held, ast_frfree; cbn; rewrite Ho, Eg, Hg; cbn; perm_lia | cbn; lia].
      apply (fd_wf_intro _ o); cbn; try done; unfold MAXIMUM_EARLY_FRAME_COUNT; lia.
    - eexists _, _. split; [reflexivity|]. split_and!; [by apply (fd_wf_intro _ o) | done | lia]. }
  cbn [mbind option_bind]. destruct (frisolate_spec e f Hiso) as (jbf & -> & Hheap & _ & _ & _ & _ & Hal).
  destruct Hwf1 as [Hi (o & Ho & Hok & Hh & Hf) He Hc Hm Ht]. unfold MAXIMUM_EARLY_FRAME_COUNT in *.
  eexists. split; [reflexivity|]. cbn. split.
  - apply (fd_wf_intro _ o); cbn; try done;
      rewrite ?uwrap_small by (change (2 ^ 32) with 4294967296; lia);
      [|rewrite length_app; cbn; lia | unfold MAXIMUM_EARLY_FRAME_COUNT; lia].
    apply Forall_app. split; [done|]. by constructor.
  - rewrite Hp1. unfold held. cbn. rewrite Ho.
    cbn. perm_lia.
Qed.

Lemma hook_sync_wf d f : fd_wf d → fd_wf (hook_sync d f) ∧ held (hook_sync d f) = held d.
Proof.
  intros Hwf. unfold hook_sync. repeat case_match; (split; [by apply (fd_wf_same d) | done]).
Qed.

Lemma hook_main_spec e d f :
  fd_wf d → isolate_ok e = true → put_ok e = true → is_Some (dup_addr e) →
  (is_voice f = true → fr_len f <= 1000) →
  ∃ r, hook_main e d f = Some r ∧ fd_wf (hr_data r) ∧
    ast_frfree f ++ held d ++ hr_alloc r ≡ₚ
      owned (option_list (hr_frame r)) ++ hr_more r ++ held (hr_data r) ++ hr_freed r.
Proof.
  intros Hwf Hiso Hput Hdup Hlen. unfold hook_main, pass. cbv zeta.
  assert (∀ g, owned (option_list (Some g)) = ast_frfree g) as Hown
    by (intros; unfold owned; cbn; by rewrite app_nil_r).
  destruct (_ <? 0).
  { eexists. split; [reflexivity|]. cbn [hr_data hr_alloc hr_more hr_freed hr_frame]. rewrite Hown.
    split; [done|]. perm_lia. }
  destruct (is_voice f && _) eqn:Ev.
  { eexists. split; [reflexivity|]. cbn [hr_data hr_alloc hr_more hr_freed hr_frame]. rewrite Hown.
    split; [done|]. perm_lia. }
  assert (∃ f1 freed alloc d1,
    (if is_voice f then hook_voice e d f (ast_tvdiff_ms (now_tv e) (start_tv d))
     else Some (f, [], [], d)) = Some (f1, freed, alloc, d1) ∧ fd_wf d1 ∧
    ast_frfree f ++ held d ++ alloc ≡ₚ ast_frfree f1 ++ held d1 ++ freed)
    as (f1 & freed & alloc & d1 & -> & Hwf1 & Hp1).
  { destruct (is_voice f); [|eexists _, _, _, _; split; [reflexivity|]; split; [done | perm_lia]].
    cbn [andb] in Ev. apply orb_false_iff in Ev as [[_ Ev]%orb_false_iff _]. specialize (Hlen eq_refl).
    destruct (hook_voice_spec e d f (ast_tvdiff_ms (now_tv e) (start_tv d)) Hwf Hiso Hput ltac:(lia))
      as (f1 & freed & alloc & d1 & E & Hwf1 & _ & Hp). by exists f1, freed, alloc, d1. }
  cbn [mbind option_bind]. destruct (is_null f1).
  - destruct (hook_get_spec e d1 f1 (is_voice f) (ast_tvdiff_ms (now_tv e) (start_tv d)) Hwf1 Hdup)
      as (r & freed2 & alloc2 & d2 & -> & Hwf2 & Hp2). cbn [mbind option_bind].
    destruct r as [f2|f2].
    + eexists. split; [reflexivity|]. cbn [hr_data hr_alloc hr_more hr_freed hr_frame]. rewrite Hown.
      split; [done|]. perm_lia.
    + destruct (hook_finish_spec d2 f2 (freed ++ freed2) (alloc ++ alloc2) Hwf2)
        as (r & -> & Hwf3 & Hfr & Hal & Hp3).
      eexists. split; [reflexivity|]. split; [done|]. rewrite Hfr, Hal, Hown. perm_lia.
  - destruct (hook_finish_spec d1 f1 freed alloc Hwf1) as (r & -> & Hwf3 & Hfr & Hal & Hp3).
    eexists. split; [reflexivity|]. split; [done|]. rewrite Hfr, Hal, Hown. perm_lia.
Qed.

Lemma hook_event_cb_spec ev e d frame :
  fd_wf d → isolate_ok e = true → put_ok e = true → is_Some (dup_addr e) →
  (∀ f, frame = Some f → is_voice f = true → fr_len f <= 1000) →
  ∃ r, hook_event_cb ev e d frame = Some r ∧ fd_wf (hr_data r) ∧
    owned (option_list frame) ++ held d ++ hr_alloc r ≡ₚ
      owned (option_list (hr_frame r)) ++ hr_more r ++ held (hr_data r) ++ hr_freed r.
Proof.
  intros Hwf Hiso Hput Hdup Hlen.
  assert (∃ r, pass frame d = Some r ∧ fd_wf (hr_data r) ∧
    owned (option_list frame) ++ held d ++ hr_alloc r ≡ₚ
      owned (option_list (hr_frame r)) ++ hr_more r ++ held (hr_data r) ++ hr_freed r) as Hpass.
  { eexists. split; [reflexivity|]. split; [done|]. cbn [hr_data hr_alloc hr_more hr_freed hr_frame].
    perm_lia. }
  destruct ev; try exact Hpass. unfold hook_event_cb. destruct (ack_failed e); [exact Hpass|].
  destruct frame as [f|]; [|exact Hpass].
  assert (∃ late, (if fr_requeued f then jbobj ← jb_obj d; is_late (fd_impl d) jbobj (fr_ts f)
    else Some false) = Some late) as [late ->].
  { destruct Hwf as [Hi (o & Ho & Hok & _) _ _ _ _]. rewrite Ho, Hi. cbn [mbind option_bind].
    destruct (is_late_law o (fr_ts f) Hok) as [b Hb]. destruct (fr_requeued f); eauto. }
  cbn [mbind option_bind]. destruct late; [exact Hpass|].
  assert (owned (option_list (Some f)) = ast_frfree f) as ->
    by (unfold owned; cbn; by rewrite app_nil_r).
  specialize (Hlen f eq_refl). destruct (AST_JB_SYNC_VIDEO _).
  - destruct (is_video f); [by apply hook_video_spec|].
    destruct (hook_sync_wf d f Hwf) as [Hwf' <-]. by apply hook_main_spec.
  - by apply hook_main_spec.
Qed.
End Hook.

(** *** Runs of the hook *)

(** The data, the frames received (handed in on the heap, or allocated), those
    handed to the channel, and those freed. *)
Definition hook_state : Type := jb_framedata * list ast_frame * list ast_frame * list ast_frame.

(** A call whose allocations succeed, on a frame of at most a second. *)
Definition admissible (e : hook_env) (frame : option ast_frame) : Prop :=
  isolate_ok e = true ∧ put_ok e = true ∧ is_Some (dup_addr e) ∧
  ∀ f, frame = Some f → is_voice f = true → fr_len f <= 1000.

Inductive hook_step : hook_state → hook_state → Prop :=
  | hook_step_call ev e frame d got given freed r :
      admissible e frame →
      hook_event_cb ev e d frame = Some r →
      hook_step (d, got, given, freed)
        (hr_data r, got ++ owned (option_list frame) ++ hr_alloc r,
         given ++ owned (option_list (hr_frame r)) ++ hr_more r, freed ++ hr_freed r).

Section HookRun.
Context (I : ast_jb_impl) `{!JbImpl I}.

Definition hook_inv (s : hook_state) : Prop :=
  let '(d, got, given, freed) := s in fd_wf I d ∧ got ≡ₚ given ++ freed ++ held d.

Lemma hook_step_inv s s' : hook_inv s → hook_step s s' → hook_inv s'.
Proof.
  intros Hinv Hst. destruct Hst as [ev e frame d got given freed r (Hiso & Hput & Hdup & Hlen) Hcb].
  cbn [hook_inv] in Hinv |- *. destruct Hinv as [Hwf Hp].
  destruct (hook_event_cb_spec I ev e d frame Hwf Hiso Hput Hdup Hlen) as (r' & E & Hwf' & Hp').
  rewrite Hcb in E. injection E as <-. split; [done|]. perm_lia.
Qed.

Lemma jb_framedata_destroy_spec d :
  fd_wf I d → ∃ fs, jb_framedata_destroy d = Some fs ∧ fs ≡ₚ held d.
Proof.
  intros [Hi (o & Ho & Hok & Hh & _) He _ _ _]. unfold jb_framedata_destroy, held.
  rewrite Ho, Hi. cbn [mbind option_bind].
  destruct (remove_all_spec obj_ok obj_queued (impl_remove_step I) (impl_remove_law I)
    (S (length (obj_queued o))) o Hok ltac:(lia)) as (o' & -> & Hok' & Hq').
  cbn [mbind option_bind]. rewrite (destroy_law o' Hok' Hq'). cbn [mbind option_bind].
  eexists. split; [reflexivity|]. rewrite app_nil_r.
  change (mjoin (ast_frfree <$> ?l)) with (owned l). by rewrite !owned_heap.
Qed.
End HookRun.

Lemma jb_framedata_init_wf c tv d :
  jb_framedata_init true true c tv = Some d →
  ∃ I (_ : JbImpl I), fd_wf I d ∧ held d = [].
Proof.
  unfold jb_framedata_init. intros Hd.
  assert (∃ ty, (let i := match ty with AST_JB_FIXED => fixed_impl | AST_JB_ADAPTIVE => adaptive_impl end in
    d = JbFramedata i c tv None 20 false (-1) (JbStreamSync 0 (ast_tv 0 0)) (-1)
      (JbStreamSync 0 (ast_tv 0 0)) [] 0 (ast_tv 0 0) false (create i true c))) as [ty ->].
  { destruct (bool_decide _); [|destruct (strcasecmp_eq _ _); [|destruct (strcasecmp_eq _ _)]];
      cbn [mbind option_bind negb] in Hd;
      [exists AST_JB_FIXED | exists AST_JB_FIXED | exists AST_JB_ADAPTIVE | done];
      injection Hd as <-; reflexivity. }
  clear Hd. destruct ty; [exists fixed_impl, fixed_impl_laws | exists adaptive_impl, adaptive_impl_laws].
  - pose proof (create_law (I := fixed_impl) true c) as Hc.
    destruct (create fixed_impl true c) as [o|] eqn:E; [|done]. destruct Hc as (_ & Hok & Hq).
    cbv zeta. rewrite ?E. split; [|unfold held; cbn; by rewrite Hq].
    apply (fd_wf_intro _ _ o); cbn; rewrite ?Hq; done.
  - pose proof (create_law (I := adaptive_impl) true c) as Hc.
    destruct (create adaptive_impl true c) as [o|] eqn:E; [|done]. destruct Hc as (_ & Hok & Hq).
    cbv zeta. rewrite ?E. split; [|unfold held; cbn [early_frames jb_obj]; cbn [fmap option_fmap option_map default]; by rewrite Hq].
    apply (fd_wf_intro _ _ o); cbn [fd_impl jb_obj first early_frames early_frame_count timer_interval]; rewrite ?Hq; done.
Qed.

(** ** Properties *)

Module Properties.

(** C33: from a successful initialisation, through any sequence of events on
    frames of at most a second whose allocations succeed, the handler never
    runs into undefined behaviour on a further such event; at most 200 video
    frames are held back and counted right; and every heap frame received or
    allocated is, once the hook's data is destroyed, either handed to the
    channel or freed, exactly once. *)
Theorem hook_run_frees c tv d0 d got given freed :
  jb_framedata_init true true c tv = Some d0 →
  rtc hook_step (d0, [], [], []) (d, got, given, freed) →
  (∀ ev e frame, admissible e frame → is_Some (hook_event_cb ev e d frame)) ∧
  early_frame_count d = Z.of_nat (length (early_frames d)) ∧
  early_frame_count d <= MAXIMUM_EARLY_FRAME_COUNT ∧
  ∃ fs, jb_framedata_destroy d = Some fs ∧ got ≡ₚ given ++ freed ++ fs.
Proof.
  intros Hinit Hrun. destruct (jb_framedata_init_wf c tv d0 Hinit) as (I & HI & Hwf0 & Hh0).
  assert (∀ s s', hook_inv I s → rtc hook_step s s' → hook_inv I s') as Hinv.
  { intros s s' H. induction 1; eauto using hook_step_inv. }
  destruct (Hinv (d0, [], [], []) (d, got, given, freed)) as [Hwf Hp]; [|done|].
  { split; [done|]. by rewrite Hh0. }
  split_and!.
  - intros ev e frame (Hiso & Hput & Hdup & Hlen).
    destruct (hook_event_cb_spec I ev e d frame Hwf Hiso Hput Hdup Hlen) as (r & -> & _). by eexists.
  - apply Hwf.
  - apply Hwf.
  - destruct (jb_framedata_destroy_spec I d Hwf) as (fs & Hd & Hfs). exists fs. split; [done|].
    perm_lia.
Qed.

(** The handler divides by [1000 / timer_interval]: once a voice frame
    longer than a second has set the timer interval, the first time the buffer
    asks for an interpolated frame the handler divides by zero. *)
Theorem hook_long_frame_divides_by_zero e d f j fmt :
  fd_impl d = fixed_impl → jb_obj d = Some (FixedObj j) → FixedJb.frames j = [] →
  fd_last_format d = Some fmt → 1000 < timer_interval d →
  ack_failed e = false → frametype f = AST_FRAME_NULL → fr_requeued f = false →
  0 <= ast_tvdiff_ms (now_tv e) (start_tv d) →
  next_delivery j <= ast_tvdiff_ms (now_tv e) (start_tv d) →
  hook_event_cb AST_FRAMEHOOK_EVENT_READ e d (Some f) = None.
Proof.
  intros Hi Ho Hfr Hfmt Hti Hack Hnull Hreq Ht Hdue. unfold hook_event_cb. rewrite Hack, Hreq.
  cbn [mbind option_bind].
  assert (∀ d', fd_impl d' = fd_impl d → jb_obj d' = jb_obj d →
    fd_last_format d' = fd_last_format d → timer_interval d' = timer_interval d →
    start_tv d' = start_tv d → hook_main e d' f = None) as Hmain.
  { intros d' E1 E2 E3 E4 E5. unfold hook_main. rewrite E5.
    rewrite (proj2 (Z.ltb_ge _ _)) by lia. unfold is_voice, is_null. rewrite Hnull.
    cbn [andb mbind option_bind]. unfold is_null. rewrite Hnull. unfold hook_get.
    rewrite E2, Ho, E1, Hi. cbn -[fixed_jb_get Z.quot].
    unfold fixed_jb_next. rewrite (proj2 (Z.ltb_ge _ _)) by lia. cbn [andb].
    rewrite E1, Hi. cbn [get fixed_impl].
    unfold jb_get_fixed, fixed_jb_get. cbn [as_fixed mbind option_bind].
    rewrite (proj2 (Z.ltb_ge _ _)), Hfr by lia. cbn -[Z.quot].
    rewrite E3, Hfmt, E4, (proj2 (Z.eqb_neq _ _)) by lia.
    rewrite Z.quot_small by lia. done. }
  case_match; [|by apply Hmain]. unfold is_video. rewrite Hnull.
  apply Hmain; unfold hook_sync; by rewrite Hnull.
Qed.

(** A voice frame the buffer refuses is not dropped: the handler returns
    it to the channel at once, as it returns a frame that never was to be
    buffered. *)
Theorem hook_refused_frame_passed e d f j j' :
  fd_impl d = fixed_impl → jb_obj d = Some (FixedObj j) → first d = true →
  AST_JB_SYNC_VIDEO (fd_conf d) = false →
  ack_failed e = false → fr_requeued f = false → is_voice f = true → has_timing_info f = true →
  2 <= fr_len f < 2 ^ 31 → 0 <= fr_ts f → isolate_ok e = true →
  let now := ast_tvdiff_ms (now_tv e) (start_tv d) in
  0 <= now →
  (∀ g, fixed_jb_put j g (fr_len f) (fr_ts f) now = Some (FIXED_JB_DROP, j')) →
  ∃ r, hook_event_cb AST_FRAMEHOOK_EVENT_READ e d (Some f) = Some r ∧ hr_frame r = Some f ∧
    jb_obj (hr_data r) = Some (FixedObj j').
Proof.
  intros Hi Ho Hfirst Hsync Hack Hreq Hv Hti Hlen Hts Hiso now Hnow Hput.
  unfold hook_event_cb. rewrite Hack, Hreq, Hsync. cbn [mbind option_bind].
  unfold hook_main. fold now. rewrite (proj2 (Z.ltb_ge now 0)), Hv, Hti by lia.
  rewrite (proj2 (Z.ltb_ge (fr_len f) 2)), (proj2 (Z.ltb_ge (fr_ts f) 0)) by lia.
  cbn [negb orb andb]. unfold hook_voice. rewrite Ho. cbn [mbind option_bind].
  assert (∃ d1, hook_timer (set_fd_last_format (frame_format f) d) f = Some d1 ∧
    fd_impl d1 = fixed_impl ∧ first d1 = true ∧ fd_conf d1 = fd_conf d) as (d1 & -> & Hi1 & Hf1 & Hc1).
  { unfold hook_timer. case_match; [|by eexists].
    rewrite swrap_small by (cbn; lia). cbn. rewrite (proj2 (Z.eqb_neq _ _)) by lia. by eexists. }
  cbn [mbind option_bind].
  destruct (frisolate_spec e f Hiso) as (g & -> & _ & Hl & Hty & _ & Hg & _). cbn [mbind option_bind].
  unfold hook_store. rewrite Hf1, Hi1. cbn -[fixed_jb_put]. rewrite Hl, Hg, Hput.
  cbn [fst snd mbind option_bind fixed_to_abstract_code].
  rewrite bool_decide_false by done. cbn [mbind option_bind].
  unfold is_null, is_voice in *. destruct (frametype f) eqn:Ef; try done.
  unfold hook_finish, hook_control, hook_additional. rewrite Ef. cbn [mbind option_bind].
  cbn [fd_conf set_jb_obj]. rewrite Hc1, Hsync. cbn [andb].
  eexists. split; [reflexivity|]. done.
Qed.

(** *** Witnesses *)

Definition h_conf : ast_jb_conf := AstJbConf true false false false 40 1000 "fixed" 40.
Definition h_env (ms : Z) : hook_env :=
  HookEnv false (ast_tv 100 (ms * 1000)) true 50 true (Some 60).
Definition h_voice (i ts len : Z) : ast_frame :=
  AstFrame i (AST_FRAME_VOICE (AstFormat 1 20 8000 false)) ts len true false 0 true.
Definition h_init : option jb_framedata := jb_framedata_init true true h_conf (ast_tv 100 0).

Definition zero_sync : jb_stream_sync := JbStreamSync 0 (ast_tv 0 0).
Definition h_d0 : jb_framedata :=
  JbFramedata fixed_impl h_conf (ast_tv 100 0) None 20 false (-1) zero_sync (-1) zero_sync [] 0
    (ast_tv 0 0) false (create fixed_impl true h_conf).

(** The data with the given format, timer interval and buffer. *)
Definition h_data (fmt : option ast_format) (ti : Z) (q : list (fixed_jb_frame ast_frame))
    (rx nx : Z) : jb_framedata :=
  JbFramedata fixed_impl h_conf (ast_tv 100 0) fmt ti true (-1) zero_sync (-1) zero_sync [] 0
    (ast_tv 0 0) false (Some (FixedObj (FixedJb q (FixedJbConf 40 1000) rx 40 nx false))).

Definition h_fmt : ast_format := AstFormat 1 20 8000 false.

(** The data after a first frame of [len] ms, put at 5 ms. *)
Definition h_d1 (len : Z) : jb_framedata :=
  h_data (Some h_fmt) len [FixedJbFrame (h_voice 1 0 len) 0 len 45] 5 45.

Lemma h_first len :
  len = 20 ∨ len = 1500 →
  hook_event_cb AST_FRAMEHOOK_EVENT_READ (h_env 5) h_d0 (Some (h_voice 1 0 len)) =
    Some (HookResult (Some ast_null_frame) [] [] [] (h_d1 len)).
Proof. intros [-> | ->]; reflexivity. Qed.

Lemma hook_run_frees_witness :
  ∃ fs, jb_framedata_destroy (h_d1 20) = Some fs ∧ [h_voice 1 0 20] ≡ₚ fs.
Proof.
  assert (admissible (h_env 5) (Some (h_voice 1 0 20))) as Ha.
  { split_and!; [reflexivity | reflexivity | eexists; reflexivity|]. intros f [= <-] _. simpl. lia. }
  destruct (hook_run_frees h_conf (ast_tv 100 0) h_d0 _ _ _ _ eq_refl
    (rtc_once _ _ (hook_step_call _ _ _ _ [] [] [] _ Ha (h_first 20 (or_introl eq_refl)))))
    as (_ & _ & _ & fs & Hd & Hp).
  exists fs. split; [exact Hd | exact Hp].
Defined.

(** A frame of 1.5 s is stored, played when due, and the next read crashes. *)
Definition h_d2 : jb_framedata := h_data (Some h_fmt) 1500 [] 5 1545.

Lemma h_second :
  hook_event_cb AST_FRAMEHOOK_EVENT_READ (h_env 100) (h_d1 1500) (Some ast_null_frame) =
    Some (HookResult (Some (h_voice 1 0 1500)) [] [] [] h_d2).
Proof. reflexivity. Qed.

Definition long_env : hook_env := HookEnv false (ast_tv 102 0) true 50 true (Some 60).

Lemma hook_long_frame_divides_by_zero_witness :
  hook_event_cb AST_FRAMEHOOK_EVENT_READ long_env h_d2 (Some ast_null_frame) = None.
Proof.
  apply (hook_long_frame_divides_by_zero long_env h_d2 ast_null_frame
    (FixedJb [] (FixedJbConf 40 1000) 5 40 1545 false) h_fmt);
    try reflexivity; vm_compute; discriminate.
Defined.

(** A second copy of the same frame is refused. *)
Lemma hook_refused_frame_passed_witness :
  ∃ r, hook_event_cb AST_FRAMEHOOK_EVENT_READ (h_env 6) (h_d1 20) (Some (h_voice 2 0 20)) = Some r ∧
    hr_frame r = Some (h_voice 2 0 20).
Proof.
  destruct (hook_refused_frame_passed (h_env 6) (h_d1 20) (h_voice 2 0 20)
    (FixedJb [FixedJbFrame (h_voice 1 0 20) 0 20 45] (FixedJbConf 40 1000) 5 40 45 false)
    (FixedJb [FixedJbFrame (h_voice 1 0 20) 0 20 45] (FixedJbConf 40 1000) 5 40 45 false))
    as (r & H1 & H2 & _); try reflexivity; try (simpl; lia).
  - vm_compute. discriminate.
  - exists r. split; [exact H1 | exact H2].
Defined.

End Properties.
