(* ===== verification/FrameRefine.v ===== *)
(** * The frames of the jitter buffers are the frames of [main/frame.c]

    [AbstractJb] and [JbFramehook] see a frame through the fields a jitter
    buffer reads, with one bit of ownership (is the header on the heap?) and
    the contracts of [ast_frdup], [ast_frisolate] and [ast_frfree] they rely
    on.  Here those contracts are derived from the model of [main/frame.c],
    in which a frame owns up to three blocks and a reference. *)

From stdpp Require Import base numbers list strings gmultiset.
From Stdlib Require Import ZArith Lia.
From S2P Require Import Prelude Timeval Frame AbstractJb JbFramehook.

Section Refine.
(** What a format object describes. *)
Context (format_of : Z → ast_format).

Definition kind_of (f : Frame.ast_frame) : AbstractJb.ast_frame_type :=
  match Frame.frametype f with
  | Frame.AST_FRAME_VOICE => AbstractJb.AST_FRAME_VOICE (format_of (default 0 (object (subclass f))))
  | Frame.AST_FRAME_VIDEO => AbstractJb.AST_FRAME_VIDEO
  | _ => AbstractJb.AST_FRAME_OTHER 0
  end.

(** [AST_FRFLAG_REQUEUED] is bit 1 of the flags. *)
Definition view (f : Frame.ast_frame) : AbstractJb.ast_frame :=
  AbstractJb.AstFrame (addr f) (kind_of f) (ts f) (len f) (flag_has_timing_info f)
    (Z.testbit (flags_other f) 1) (Frame.stream_num f) (HDR (mallocd f)).

Lemma view_same_header f f' : same_header f f' → view f' = view f.
Proof.
  intros [A B C D E F G H I J K L]. unfold view, kind_of. rewrite A, B, C, D, G, H, I, K, L. done.
Qed.

Lemma view_frdup sizeof_frame has_cache a f h out h' B R :
  acct h B R →
  Frame.ast_frdup sizeof_frame has_cache a f h = (Some out, h') →
  AbstractJb.ast_frdup (Some (addr out)) (view f) = Some (view out).
Proof.
  intros Ha E. pose proof (ast_frdup_spec sizeof_frame has_cache a f h B R Ha) as Hd.
  rewrite E in Hd. destruct Hd as (_ & _ & Hm & [C1 C2 C3 C4 C5 C6 C7 C8] & Hts & Hlen & _).
  unfold AbstractJb.ast_frdup, view, kind_of. cbn. rewrite C1, C2, C6, C7, C8, Hts, Hlen, Hm. done.
Qed.

End Refine.

Module Properties.

(** C34: the contract under which the jitter buffer hook is verified holds of
    the frame functions: on a frame with timing information [ast_frisolate]
    fails, or returns the frame itself when its header is on the heap, or a
    heap copy with the same time stamp, length, kind and flags; in the last
    case nothing is left in the original for [ast_frfree] to give back, and
    freeing it later changes neither blocks nor references. *)
Theorem frisolate_contract format_of sizeof_frame has_cache cache_opt ahdr asrc adata fr h B R :
  data_ok fr → topology_counted fr → flag_has_timing_info fr = true →
  acct h (blocks fr ⊎ B) (holds fr ⊎ R) →
  ∃ r h', Frame.ast_frisolate sizeof_frame has_cache cache_opt ahdr asrc adata fr h = Some (r, h') ∧
    match r with
    | IsoNull fr' =>
        JbFramehook.ast_frisolate false 0 (view format_of fr) = None ∧
        view format_of fr' = view format_of fr
    | IsoSame fr' =>
        JbFramehook.ast_frisolate true 0 (view format_of fr) = Some (view format_of fr')
    | IsoNew out fr' =>
        JbFramehook.ast_frisolate true (addr out) (view format_of fr) = Some (view format_of out) ∧
        ast_frfree (view format_of fr) = [] ∧
        ∀ use_cache, ∃ f2 h2, __frame_free has_cache cache_opt fr' use_cache h' = Some (f2, h2) ∧
          acct h2 (blocks out ⊎ B) (holds out ⊎ R)
    end.
Proof.
  intros Hok Htop Hti Ha.
  destruct (ast_frisolate_spec sizeof_frame has_cache cache_opt ahdr asrc adata fr h B R Hok Htop Ha)
    as (r & h' & E & Hp). exists r, h'. split; [done|].
  destruct r as [fr'|fr'|out fr']; cbn in Hp.
  - destruct Hp as (_ & Hs & _). split; [done | by apply view_same_header].
  - destruct Hp as (_ & Hs & _ & Hh). rewrite (view_same_header _ _ _ Hs).
    unfold JbFramehook.ast_frisolate, view. cbn. by rewrite Hh.
  - destruct Hp as (Ha' & Hb & Hho & _ & Hok' & Hh & Hh' & Ht & Hs & _ & _ & Hti' & Hst & Hfl & _ & Hts).
    destruct (Hts Hti) as (Hts1 & Hlen & _). split_and!.
    + unfold JbFramehook.ast_frisolate, view, kind_of. cbn.
      by rewrite Hh, Hh', Ht, Hs, Hti', Hst, Hfl, Hts1, Hlen.
    + unfold ast_frfree, view. cbn. by rewrite Hh.
    + intros use_cache. apply (frame_free_spec has_cache cache_opt fr' use_cache h'); [done|].
      rewrite Hb, Hho. eapply acct_eq; [exact Ha' | multiset_solver | multiset_solver].
Qed.

Lemma frisolate_contract_witness :
  ∃ r h', Frame.ast_frisolate 200 true true (Some 5000) (Some 6000) None
            Frame.Properties.w_frame Frame.Properties.w_heap = Some (r, h').
Proof.
  destruct Frame.Properties.w_frame_ok as (H1 & H2 & H3).
  destruct (frisolate_contract (λ _, AstFormat 1 20 8000 false) 200 true true (Some 5000) (Some 6000)
    None Frame.Properties.w_frame Frame.Properties.w_heap {[+ 77 +]} {[+ 50 +]} H1 H2 eq_refl H3)
    as (r & h' & E & _).
  exists r, h'. exact E.
Defined.

End Properties.
