(* ===== verification/Utf8.v ===== *)
(** * UTF-8 validation and repair ([main/utf8.c])

    The automaton of the file decides byte by byte whether a string is UTF-8;
    on it are built the validity tests, the incremental validator, the copy
    that keeps whole characters and the copy that replaces ill-formed
    sequences by U+FFFD.

    - [Model]: the functions of the file.  Bytes are [Z]s in [0, 256); an
      access outside an object is [None].  [size_t] positions wrap at 64 bits, the automaton's
      [uint32_t] arithmetic at 32.
    - [Spec]: UTF-8 as RFC 3629 defines it, by the encoding of Unicode scalar
      values, and the substitution of maximal subparts of the Unicode standard.
    - [Automaton]: the automaton accepts exactly the specification.
    - [Properties]: the theorems. *)

From stdpp Require Import base numbers list.
From Stdlib Require Import ZArith Lia.
From S2P Require Import Prelude.

Module Model.

Definition UTF8_ACCEPT : Z := 0.
Definition UTF8_REJECT : Z := 12.

(** [utf8d]: the class of each byte, then the transitions. *)
Definition utf8d : list Z :=
  [0;0;0;0;0;0;0;0;0;0;0;0;0;0;0;0;  0;0;0;0;0;0;0;0;0;0;0;0;0;0;0;0;
   0;0;0;0;0;0;0;0;0;0;0;0;0;0;0;0;  0;0;0;0;0;0;0;0;0;0;0;0;0;0;0;0;
   0;0;0;0;0;0;0;0;0;0;0;0;0;0;0;0;  0;0;0;0;0;0;0;0;0;0;0;0;0;0;0;0;
   0;0;0;0;0;0;0;0;0;0;0;0;0;0;0;0;  0;0;0;0;0;0;0;0;0;0;0;0;0;0;0;0;
   1;1;1;1;1;1;1;1;1;1;1;1;1;1;1;1;  9;9;9;9;9;9;9;9;9;9;9;9;9;9;9;9;
   7;7;7;7;7;7;7;7;7;7;7;7;7;7;7;7;  7;7;7;7;7;7;7;7;7;7;7;7;7;7;7;7;
   8;8;2;2;2;2;2;2;2;2;2;2;2;2;2;2;  2;2;2;2;2;2;2;2;2;2;2;2;2;2;2;2;
   10;3;3;3;3;3;3;3;3;3;3;3;3;4;3;3; 11;6;6;6;5;8;8;8;8;8;8;8;8;8;8;8;

   0;12;24;36;60;96;84;12;12;12;48;72; 12;12;12;12;12;12;12;12;12;12;12;12;
   12; 0;12;12;12;12;12; 0;12; 0;12;12; 12;24;12;12;12;12;12;24;12;24;12;12;
   12;12;12;12;12;12;12;24;12;12;12;12; 12;24;12;12;12;12;12;12;12;24;12;12;
   12;12;12;12;12;12;12;36;12;36;12;12; 12;36;12;12;12;12;12;36;12;36;12;12;
   12;36;12;12;12;12;12;12;12;12;12;12].

Definition decode (state byte : Z) : option Z :=
  type ← load utf8d byte; load utf8d (256 + state + type).

Fixpoint is_valid_loop (src : list Z) (state : Z) : option Z :=
  match src with
  | [] => None
  | c :: src => if c =? 0 then Some state else decode state c ≫= is_valid_loop src
  end.

Definition ast_utf8_is_valid (src : list Z) : option bool :=
  state ← is_valid_loop src UTF8_ACCEPT; Some (state =? UTF8_ACCEPT).

Fixpoint is_validn_loop (src : list Z) (size : nat) (state : Z) {struct size} : option Z :=
  match size with
  | O => Some state
  | S size =>
      match src with
      | [] => None
      | c :: src =>
          if c =? 0 then Some state
          else state ← decode state c; is_validn_loop src size state
      end
  end.

Definition ast_utf8_is_validn (src : list Z) (size : nat) : option bool :=
  state ← is_validn_loop src size UTF8_ACCEPT; Some (state =? UTF8_ACCEPT).

(** [dpos] and [last_good] are the pointers of the same names, relative to the
    start of the destination. *)
Fixpoint copy_loop (src dst : list Z) (size : nat) (state dpos last_good : Z)
    {struct size} : option (list Z * Z) :=
  match size with
  | O => Some (dst, last_good)
  | S size =>
      match src with
      | [] => None
      | c :: src =>
          if c =? 0 then Some (dst, last_good)
          else
            state ← decode state c;
            if state =? UTF8_REJECT then Some (dst, last_good)
            else
              dst ← store dst dpos [c];
              copy_loop src dst size state (dpos + 1)
                (if negb (size =? 0)%nat && (state =? UTF8_ACCEPT) then dpos + 1 else last_good)
      end
  end.

Definition ast_utf8_copy_string (dst src : list Z) (size : nat) : option (list Z) :=
  '(dst, last_good) ← copy_loop src dst size UTF8_ACCEPT 0 0;
  store dst last_good [0].

Definition REPL_SEQ : list Z := [239; 191; 189].
Definition REPL_SEQ_LEN : Z := 3.

(** [enum ast_utf8_replace_result] and [enum ast_utf8_validation_result]; the
    code assigns a value of the second to a variable of the first. *)
Definition AST_UTF8_REPLACE_VALID : Z := 0.
Definition AST_UTF8_REPLACE_INVALID : Z := 1.
Definition AST_UTF8_REPLACE_OVERRUN : Z := 2.

Definition AST_UTF8_VALID : Z := 0.
Definition AST_UTF8_INVALID : Z := 1.
Definition AST_UTF8_UNKNOWN : Z := 2.

(** The local variables of [ast_utf8_replace_invalid_chars]. *)
Record replace_vars := mk_vars {
  dst : option (list Z);
  src_pos : Z;
  dst_pos : Z;
  prev_state : Z;
  curr_state : Z;
  seq_len : Z;
  res : Z;
}.

(** [dst_pos -= (seq_len - (prev_state / 36))], the subtraction in [uint32_t]. *)
Definition back_up (dst_pos seq_len prev_state : Z) : Z :=
  uwrap 64 (dst_pos - u32 (seq_len - prev_state / 36)).

(** [if (dst) memcpy(&dst[pos], bs, n)]. *)
Definition store_dst (d : option (list Z)) (pos : Z) (bs : list Z) : option (option (list Z)) :=
  match d with
  | None => Some None
  | Some m => m ← store m pos bs; Some (Some m)
  end.

Definition has_dst (d : option (list Z)) : bool :=
  match d with Some _ => true | None => false end.

(** One turn of the loop: an early return, or the variables of the next turn. *)
Definition replace_body (dst_size : Z) (src : list Z) (v : replace_vars) :
    option (option (list Z) + replace_vars) :=
  c ← load src (src_pos v);
  rc ← decode (curr_state v) c;
  let next := src_pos v + 1 in
  if has_dst (dst v) && (uwrap 64 (dst_size - 1) <=? dst_pos v) then
    d ← store_dst (dst v)
          (if UTF8_REJECT <? prev_state v
           then back_up (dst_pos v) (seq_len v) (prev_state v) else dst_pos v) [0];
    Some (inl d)
  else if rc =? UTF8_ACCEPT then
    d ← store_dst (dst v) (dst_pos v) [c];
    Some (inr (mk_vars d next (uwrap 64 (dst_pos v + 1)) rc rc 0 (res v)))
  else if UTF8_REJECT <? rc then
    d ← store_dst (dst v) (dst_pos v) [c];
    Some (inr (mk_vars d next (uwrap 64 (dst_pos v + 1)) rc rc
                 (if prev_state v =? UTF8_ACCEPT then rc / 36 + 1 else seq_len v) (res v)))
  else if rc =? UTF8_REJECT then
    let again := negb (prev_state v =? UTF8_ACCEPT) in
    let pos := if again then back_up (dst_pos v) (seq_len v) (prev_state v) else dst_pos v in
    let next := if again then uwrap 64 (src_pos v - 1) + 1 else next in
    if has_dst (dst v) && (uwrap 64 (dst_size - 4) <? pos) then
      d ← store_dst (dst v) pos [0]; Some (inl d)
    else
      d ← store_dst (dst v) pos REPL_SEQ;
      Some (inr (mk_vars d next (uwrap 64 (pos + REPL_SEQ_LEN)) UTF8_ACCEPT UTF8_ACCEPT
                   (seq_len v) AST_UTF8_REPLACE_INVALID))
  else Some (inr (mk_vars (dst v) next (dst_pos v) rc rc (seq_len v) (res v))).

Fixpoint replace_loop (fuel : nat) (dst_size : Z) (src : list Z) (src_len : Z) (v : replace_vars) :
    option (option (list Z) + replace_vars) :=
  if src_pos v <? src_len then
    match fuel with
    | O => None
    | S fuel =>
        r ← replace_body dst_size src v;
        match r with
        | inl d => Some (inl d)
        | inr v => replace_loop fuel dst_size src src_len v
        end
    end
  else Some (inr v).

(** After the loop: the unfinished sequence at the end, and the terminator or
    the size.  The result: the return value, the destination and [*dst_size]. *)
Definition replace_end (dst_size : Z) (v : replace_vars) : option (Z * option (list Z) * Z) :=
  let finish r d pos :=
    match d with
    | Some m => m ← store m pos [0]; Some (r, Some m, dst_size)
    | None => Some (r, None, uwrap 64 (pos + 1))
    end in
  if negb (curr_state v =? UTF8_ACCEPT) then
    let pos := back_up (dst_pos v) (seq_len v) (prev_state v) in
    if has_dst (dst v) && (uwrap 64 (dst_size - 4) <? pos) then
      d ← store_dst (dst v) pos [0]; Some (AST_UTF8_REPLACE_OVERRUN, d, dst_size)
    else
      d ← store_dst (dst v) pos REPL_SEQ;
      finish AST_UTF8_INVALID d (uwrap 64 (pos + REPL_SEQ_LEN))
  else finish (res v) (dst v) (dst_pos v).

Definition ast_utf8_replace_invalid_chars (d : option (list Z)) (dst_size : Z)
    (src : option (list Z)) (src_len : Z) : option (Z * option (list Z) * Z) :=
  '(d, dst_size) ←
    match d with
    | Some m => m ← store m 0 (replicate (Z.to_nat dst_size) 0); Some (Some m, dst_size)
    | None => Some (None, 0)
    end;
  match src with
  | None => Some (AST_UTF8_REPLACE_VALID, d, dst_size)
  | Some src =>
      if src_len =? 0 then Some (AST_UTF8_REPLACE_VALID, d, dst_size)
      else
        r ← replace_loop (2 * Z.to_nat src_len) dst_size src src_len
              (mk_vars d 0 0 0 0 0 AST_UTF8_REPLACE_VALID);
        match r with
        | inl d => Some (AST_UTF8_REPLACE_OVERRUN, d, dst_size)
        | inr v => replace_end dst_size v
        end
  end.

(** [struct ast_utf8_validator] is its state. *)
Definition ast_utf8_validator_new (allocated : bool) : option Z :=
  if allocated then Some UTF8_ACCEPT else None.

Definition ast_utf8_validator_state (state : Z) : Z :=
  if state =? UTF8_ACCEPT then AST_UTF8_VALID
  else if state =? UTF8_REJECT then AST_UTF8_INVALID
  else AST_UTF8_UNKNOWN.

Definition ast_utf8_validator_feed (state : Z) (data : list Z) : option (Z * Z) :=
  state ← is_valid_loop data state; Some (ast_utf8_validator_state state, state).

Definition ast_utf8_validator_feedn (state : Z) (data : list Z) (size : nat) : option (Z * Z) :=
  state ← is_validn_loop data size state; Some (ast_utf8_validator_state state, state).

Definition ast_utf8_validator_reset (_ : Z) : Z := UTF8_ACCEPT.

End Model.

Module Spec.
Import Model.

Definition is_byte (b : Z) : Prop := 0 <= b < 256.

(** Unicode scalar values: code points that are not surrogates. *)
Definition scalar (cp : Z) : Prop := 0 <= cp < 55296 ∨ 57344 <= cp < 1114112.

(** Their encoding, as the table of RFC 3629, section 3, gives it. *)
Definition encode (cp : Z) : list Z :=
  if cp <? 128 then [cp]
  else if cp <? 2048 then [192 + cp / 64; 128 + cp mod 64]
  else if cp <? 65536 then [224 + cp / 4096; 128 + cp / 64 mod 64; 128 + cp mod 64]
  else [240 + cp / 262144; 128 + cp / 4096 mod 64; 128 + cp / 64 mod 64; 128 + cp mod 64].

(** A string is UTF-8 when it is the encoding of a list of scalar values. *)
Definition utf8 (s : list Z) : Prop := ∃ cps, Forall scalar cps ∧ s = concat (encode <$> cps).

(** A string that begins an encoded scalar value. *)
Definition begins (u : list Z) : Prop := ∃ cp, scalar cp ∧ u `prefix_of` encode cp.

(** [u] is a maximal subpart of the ill-formed string [u ++ s]: no encoded
    scalar value starts there, [u] is one byte or begins an encoded scalar
    value, and no longer prefix does. *)
Definition maximal_subpart (u s : list Z) : Prop :=
  (∀ cp, scalar cp → ¬ encode cp `prefix_of` u ++ s)
  ∧ (length u = 1%nat ∨ (u ≠ [] ∧ begins u))
  ∧ (∀ w, u `prefix_of` w → w `prefix_of` u ++ s → begins w → w = u).

(** [repaired s t k]: [t] is [s] with its [k] maximal ill-formed subparts
    replaced by U+FFFD and its encoded scalar values kept. *)
Inductive repaired : list Z → list Z → nat → Prop :=
| repaired_nil : repaired [] [] 0
| repaired_char cp s t k :
    scalar cp → repaired s t k → repaired (encode cp ++ s) (encode cp ++ t) k
| repaired_bad u s t k :
    maximal_subpart u s → repaired s t k → repaired (u ++ s) (REPL_SEQ ++ t) (S k).

End Spec.

Module Automaton.
Import Model Spec.

Definition in_range (lo hi b : Z) : bool := (lo <=? b) && (b <=? hi).

(** The transitions as ranges of bytes. *)
Definition next (state b : Z) : Z :=
  let cont lo hi state' := if in_range lo hi b then state' else UTF8_REJECT in
  if state =? 0 then
    if in_range 0 127 b then 0 else if in_range 194 223 b then 24
    else if b =? 224 then 48 else if b =? 237 then 60 else if in_range 225 239 b then 36
    else if b =? 240 then 72 else if in_range 241 243 b then 84 else if b =? 244 then 96
    else UTF8_REJECT
  else if state =? 24 then cont 128 191 0
  else if state =? 36 then cont 128 191 24
  else if state =? 48 then cont 160 191 24
  else if state =? 60 then cont 128 159 24
  else if state =? 72 then cont 144 191 36
  else if state =? 84 then cont 128 191 36
  else if state =? 96 then cont 128 143 36
  else UTF8_REJECT.

(** The states inside a character. *)
Definition live_states : list Z := [24; 36; 48; 60; 72; 84; 96].
Definition live (s : Z) : Prop := s ∈ live_states.
Definition state_ok (s : Z) : Prop := s ∈ [0; 12] ++ live_states.

Lemma decode_table :
  forallb (λ s, forallb (λ n, bool_decide (decode s (Z.of_nat n) = Some (next s (Z.of_nat n))))
                  (seq 0 256)) ([0; 12] ++ live_states) = true.
Proof. vm_compute. reflexivity. Qed.

(** The table of the code is the ranges. *)
Lemma decode_next s b : state_ok s → is_byte b → decode s b = Some (next s b).
Proof.
  intros Hs Hb. pose proof decode_table as H. rewrite forallb_forall in H.
  specialize (H s (proj1 (list_elem_of_In _ _) Hs)). rewrite forallb_forall in H.
  assert (In (Z.to_nat b) (seq 0 256)) as Hin
    by (apply in_seq; destruct Hb; lia).
  specialize (H _ Hin). apply bool_decide_eq_true in H.
  destruct Hb. by rewrite Z2Nat.id in H by lia.
Qed.

Lemma next_ok s b : state_ok (next s b).
Proof.
  unfold next, state_ok, live_states. cbn [app].
  repeat case_match; rewrite !elem_of_cons; unfold UTF8_REJECT; lia.
Qed.

Lemma next_reject b : next UTF8_REJECT b = UTF8_REJECT.
Proof. reflexivity. Qed.

Lemma state_ok_cases s : state_ok s ↔ s = 0 ∨ s = 12 ∨ live s.
Proof. unfold state_ok, live. rewrite elem_of_app, !elem_of_cons, elem_of_nil. tauto. Qed.

(** The state after a string. *)
Definition run (s : Z) (w : list Z) : Z := foldl next s w.

Lemma run_app s v w : run s (v ++ w) = run (run s v) w.
Proof. apply foldl_app. Qed.

Lemma run_ok s w : state_ok s → state_ok (run s w).
Proof.
  revert s. induction w as [|b w IH]; intros s Hs; [done|]. apply IH, next_ok.
Qed.

Lemma run_ok_0 w : state_ok (run 0 w).
Proof. apply run_ok, state_ok_cases. by left. Qed.

Lemma run_reject w : run UTF8_REJECT w = UTF8_REJECT.
Proof. induction w as [|b w IH]; [done|]. simpl. by rewrite next_reject. Qed.

(** [pending s p]: the bytes [p] of an unfinished character lead to state [s]. *)
Inductive pending : Z → list Z → Prop :=
| pending_start b : is_byte b → live (next 0 b) → pending (next 0 b) [b]
| pending_step s p b :
    is_byte b → pending s p → live (next s b) → pending (next s b) (p ++ [b]).

Ltac ranges :=
  unfold in_range, UTF8_REJECT, UTF8_ACCEPT, is_byte in *;
  repeat match goal with
  | H : context [if ?c then _ else _] |- _ => destruct c eqn:?
  | |- context [if ?c then _ else _] => destruct c eqn:?
  end; try lia.

(** What an unfinished character looks like in each state. *)
Definition shape (s : Z) (p : list Z) : Prop :=
  match p with
  | [a] =>
      s = 24 ∧ 194 <= a <= 223 ∨ s = 48 ∧ a = 224 ∨ s = 60 ∧ a = 237
      ∨ s = 36 ∧ 225 <= a <= 239 ∧ a ≠ 237
      ∨ s = 72 ∧ a = 240 ∨ s = 84 ∧ 241 <= a <= 243 ∨ s = 96 ∧ a = 244
  | [a; b] =>
      s = 24 ∧ (a = 224 ∧ 160 <= b <= 191 ∨ a = 237 ∧ 128 <= b <= 159
                ∨ 225 <= a <= 239 ∧ a ≠ 237 ∧ 128 <= b <= 191)
      ∨ s = 36 ∧ (a = 240 ∧ 144 <= b <= 191 ∨ 241 <= a <= 243 ∧ 128 <= b <= 191
                  ∨ a = 244 ∧ 128 <= b <= 143)
  | [a; b; c] =>
      s = 24 ∧ 128 <= c <= 191
      ∧ (a = 240 ∧ 144 <= b <= 191 ∨ 241 <= a <= 243 ∧ 128 <= b <= 191
         ∨ a = 244 ∧ 128 <= b <= 143)
  | _ => False
  end.

Lemma live_cases s :
  live s ↔ s = 24 ∨ s = 36 ∨ s = 48 ∨ s = 60 ∨ s = 72 ∨ s = 84 ∨ s = 96.
Proof. unfold live, live_states. rewrite !elem_of_cons, elem_of_nil. tauto. Qed.

Lemma pending_shape s p : pending s p → shape s p.
Proof.
  induction 1 as [b Hb Hl|s p b Hb Hp IH Hl].
  - rewrite live_cases in Hl. unfold next in *. simpl. ranges.
  - rewrite live_cases in Hl.
    destruct p as [|a1 [|a2 [|a3 [|]]]]; cbn [app shape] in *; try done;
      revert Hl; unfold next; ranges.
Qed.

Lemma pending_live s p : pending s p → live s.
Proof. by destruct 1. Qed.

(** The decoding of a complete character. *)
Lemma pending_complete s p b :
  is_byte b → pending s p → next s b = 0 → ∃ cp, scalar cp ∧ p ++ [b] = encode cp.
Proof.
  intros Hb Hp Hn. apply pending_shape in Hp. revert Hn.
  destruct p as [|a1 [|a2 [|a3 [|]]]]; cbn [app shape] in *; try done;
    unfold next; ranges; intros _.
  - exists ((a1 - 192) * 64 + (b - 128)). unfold scalar, encode. split; [lia|]. ranges.
    repeat f_equal; Z.div_mod_to_equations; lia.
  - exists ((a1 - 224) * 4096 + (a2 - 128) * 64 + (b - 128)).
    unfold scalar, encode. split; [lia|]. ranges.
    repeat f_equal; Z.div_mod_to_equations; lia.
  - exists ((a1 - 240) * 262144 + (a2 - 128) * 4096 + (a3 - 128) * 64 + (b - 128)).
    unfold scalar, encode. split; [lia|]. ranges.
    repeat f_equal; Z.div_mod_to_equations; lia.
Qed.


Lemma pending_run s p : pending s p → run 0 p = s.
Proof.
  induction 1 as [b ? ?|s p b ? Hp IH ?]; [done|]. rewrite run_app, IH. done.
Qed.

Lemma pending_bytes s p : pending s p → Forall is_byte p.
Proof. induction 1; [by apply Forall_singleton|]. by apply Forall_app; split; [|apply Forall_singleton]. Qed.

Lemma pending_nonempty s p : pending s p → p ≠ [].
Proof. destruct 1; [done|]. by destruct p. Qed.

Lemma pending_next s p b :
  is_byte b → pending s p →
  next s b = 0 ∨ next s b = UTF8_REJECT ∨ pending (next s b) (p ++ [b]).
Proof.
  intros Hb Hp. destruct (proj1 (state_ok_cases _) (next_ok s b)) as [?|[?|?]]; auto.
  right; right. by constructor.
Qed.

(** Every prefix of an unfinished character is one. *)
Lemma pending_prefix s p w : pending s p → w `prefix_of` p → w ≠ [] → pending (run 0 w) w.
Proof.
  intros Hp. revert w. induction Hp as [b ? ?|s p b ? Hp IH ?]; intros w Hw Hne.
  - destruct w as [|a w]; [done|]. pose proof (prefix_length _ _ Hw). simpl in *.
    destruct w; simpl in *; [|lia]. apply prefix_cons_inv_1 in Hw as ->. by constructor.
  - destruct (decide (w = p ++ [b])) as [->|Hd].
    + rewrite run_app, (pending_run _ _ Hp). by constructor.
    + apply IH; [|done]. destruct Hw as [k Hk].
      destruct k as [|x k _] using rev_ind; [by rewrite app_nil_r in Hk|].
      rewrite app_assoc in Hk. apply app_inj_tail in Hk as [-> _]. by exists k.
Qed.

Lemma pending_first a s : is_byte a → next 0 a = s → live s → pending s [a].
Proof. intros ? <- ?. by constructor. Qed.

Lemma pending_snoc s s' p b :
  is_byte b → pending s p → next s b = s' → live s' → pending s' (p ++ [b]).
Proof. intros ?? <- ?. by constructor. Qed.

(** Lead and continuation bytes; a shape is reached by its bytes. *)
Lemma shape_pending s p : shape s p → pending s p.
Proof.
  destruct p as [|a [|b [|c [|]]]]; cbn [shape]; try done; intros H.
  - apply pending_first; [unfold is_byte; lia| |apply live_cases; lia]. unfold next. ranges.
  - assert (∃ s1, shape s1 [a] ∧ next s1 b = s) as (s1 & H1 & H2).
    { destruct (decide (s = 24)).
      - exists (if a =? 224 then 48 else if a =? 237 then 60 else 36).
        split; [simpl; ranges|unfold next; ranges].
      - exists (if a =? 240 then 72 else if a =? 244 then 96 else 84).
        split; [simpl; ranges|unfold next; ranges]. }
    apply (pending_snoc s1 s [a]); [unfold is_byte; lia| |done|apply live_cases; lia].
    simpl in H1. apply pending_first; [unfold is_byte; lia| |apply live_cases; lia].
    unfold next. ranges.
  - apply (pending_snoc 36 s [a; b]);
      [unfold is_byte; lia| |unfold next; ranges|apply live_cases; lia].
    set (s1 := if a =? 240 then 72 else if a =? 244 then 96 else 84).
    assert (s1 = 72 ∨ s1 = 84 ∨ s1 = 96) by (unfold s1; ranges).
    apply (pending_snoc s1 36 [a]);
      [unfold is_byte; lia| |unfold s1, next; ranges|apply live_cases; lia].
    apply pending_first; [unfold is_byte; lia|unfold s1, next; ranges|apply live_cases; lia].
Qed.

(** An encoded scalar value: unfinished up to its last byte, then accepted. *)
Lemma encode_pending cp :
  scalar cp →
  Forall is_byte (encode cp) ∧
  ∃ p b, encode cp = p ++ [b] ∧ next (run 0 p) b = 0 ∧ (p = [] ∨ pending (run 0 p) p).
Proof.
  intros Hcp. unfold scalar, encode in *.
  assert (∀ s p b l, l = p ++ [b] → Forall is_byte l → shape s p → next s b = 0 →
    Forall is_byte l ∧
    ∃ p b, l = p ++ [b] ∧ next (run 0 p) b = 0 ∧ (p = [] ∨ pending (run 0 p) p)) as Hfin.
  { intros s p b l Hl Hb Hs Hn. split; [done|]. exists p, b.
    apply shape_pending in Hs. rewrite (pending_run _ _ Hs). auto. }
  ranges.
  - split; [repeat constructor; unfold is_byte; lia|].
    exists [], cp. split_and!; [done| |by left]. unfold run, next. simpl. ranges.
  - apply (Hfin 24 [192 + cp / 64] (128 + cp mod 64)); [done|..].
    + rewrite !Forall_cons. unfold is_byte. split_and!; try done; Z.div_mod_to_equations; lia.
    + simpl. Z.div_mod_to_equations; lia.
    + unfold next. simpl. ranges; Z.div_mod_to_equations; lia.
  - apply (Hfin 24 [224 + cp / 4096; 128 + cp / 64 mod 64] (128 + cp mod 64)); [done|..].
    + rewrite !Forall_cons. unfold is_byte. split_and!; try done; Z.div_mod_to_equations; lia.
    + simpl. Z.div_mod_to_equations; lia.
    + unfold next. simpl. ranges; Z.div_mod_to_equations; lia.
  - apply (Hfin 24 [240 + cp / 262144; 128 + cp / 4096 mod 64; 128 + cp / 64 mod 64]
      (128 + cp mod 64)); [done|..].
    + rewrite !Forall_cons. unfold is_byte. split_and!; try done; Z.div_mod_to_equations; lia.
    + simpl. Z.div_mod_to_equations; lia.
    + unfold next. simpl. ranges; Z.div_mod_to_equations; lia.
Qed.

Lemma encode_bytes cp : scalar cp → Forall is_byte (encode cp).
Proof. intros H. by destruct (encode_pending cp H). Qed.

Lemma encode_run cp : scalar cp → run 0 (encode cp) = 0.
Proof.
  intros H. destruct (encode_pending cp H) as (_ & p & b & -> & Hn & _).
  by rewrite run_app.
Qed.

Lemma encode_nonempty cp : encode cp ≠ [].
Proof. unfold encode. repeat case_match; done. Qed.

(** A proper prefix of an encoded scalar value is unfinished. *)
Lemma encode_prefix cp w :
  scalar cp → w `prefix_of` encode cp → w ≠ [] → w ≠ encode cp → pending (run 0 w) w.
Proof.
  intros H Hw Hne Hd. destruct (encode_pending cp H) as (_ & p & b & E & Hn & Hp).
  rewrite E in *. destruct Hw as [k Hk].
  destruct k as [|x k _] using rev_ind; [by rewrite app_nil_r in Hk|].
  rewrite app_assoc in Hk. apply app_inj_tail in Hk as [-> _].
  destruct Hp as [Hp|Hp].
  - by apply app_nil in Hp as [-> ->].
  - eapply pending_prefix; [done| |done]. by exists k.
Qed.

Lemma live_not_final s : live s → s ≠ 0 ∧ s ≠ UTF8_REJECT.
Proof. rewrite live_cases. unfold UTF8_REJECT. lia. Qed.

(** The beginnings of encoded scalar values are the strings that the automaton
    has not rejected within one character. *)
Lemma begins_prefix u w : begins w → u `prefix_of` w → begins u.
Proof. intros (cp & ? & ?) ?. exists cp. split; [done|]. by etrans. Qed.

Lemma begins_run w :
  begins w → w ≠ [] → run 0 w ≠ UTF8_REJECT.
Proof.
  intros (cp & Hcp & Hw) Hne. destruct (decide (w = encode cp)) as [->|Hd].
  - by rewrite encode_run.
  - apply (live_not_final (run 0 w)), (pending_live _ w), (encode_prefix cp); done.
Qed.

Lemma pending_begins_via s p b :
  is_byte b → pending s p → next s b = 0 ∨ begins (p ++ [b]) → begins p.
Proof.
  intros Hb Hp [Hn|Hw].
  - destruct (pending_complete s p b Hb Hp Hn) as (cp & ? & E). exists cp.
    split; [done|]. rewrite <- E. by apply prefix_app_r.
  - eapply begins_prefix; [done|]. by apply prefix_app_r.
Qed.

Lemma pending_begins s p : pending s p → begins p.
Proof.
  intros Hp. assert (∀ p, pending 24 p → begins p) as H24.
  { intros q Hq. apply (pending_begins_via 24 q 128); [done|done|by left]. }
  assert (∀ p, pending 36 p → begins p) as H36.
  { intros q Hq. apply (pending_begins_via 36 q 128); [done|done|right].
    apply H24, (pending_snoc 36); try done. apply live_cases; lia. }
  pose proof (pending_live _ _ Hp) as Hl. rewrite live_cases in Hl.
  destruct Hl as [->|[->|Hl]]; [auto..|].
  apply (pending_begins_via s p
           (if s =? 48 then 160 else if s =? 72 then 144 else 128)); [|done|right].
  { unfold is_byte. repeat case_match; lia. }
  assert (s = 48 ∨ s = 60 → begins (p ++ [if s =? 48 then 160 else if s =? 72 then 144 else 128])) as Ha.
  { intros Hs. apply H24, (pending_snoc s); [..|apply live_cases; lia]; try done;
      destruct Hs as [->| ->]; done. }
  destruct (decide (s = 48 ∨ s = 60)) as [Hs|Hs]; [auto|].
  apply H36, (pending_snoc s); [|done| |apply live_cases; lia];
    (destruct Hl as [->|[->|[->|[->| ->]]]]; try done; lia).
Qed.

(** ** Whole strings *)

Lemma utf8_nil : utf8 [].
Proof. by exists []. Qed.

Lemma utf8_app v w : utf8 v → utf8 w → utf8 (v ++ w).
Proof.
  intros (l & ? & ->) (k & ? & ->). exists (l ++ k).
  rewrite fmap_app, concat_app. split; [by apply Forall_app|done].
Qed.

Lemma utf8_encode cp : scalar cp → utf8 (encode cp).
Proof. intros H. exists [cp]. split; [by apply Forall_singleton|]. simpl. by rewrite app_nil_r. Qed.

Lemma utf8_run w : utf8 w → run 0 w = 0.
Proof.
  intros (l & Hl & ->). induction Hl as [|cp l Hcp _ IH]; [done|].
  csimpl. by rewrite run_app, (encode_run cp Hcp).
Qed.

(** Where the automaton stands after any string of bytes. *)
Lemma run_classify w :
  Forall is_byte w →
  (run 0 w = 0 ∧ utf8 w)
  ∨ (∃ v p, w = v ++ p ∧ utf8 v ∧ pending (run 0 w) p)
  ∨ run 0 w = UTF8_REJECT.
Proof.
  induction w as [|b w IH] using rev_ind; [left; split; [done|apply utf8_nil]|].
  rewrite Forall_app, Forall_singleton. intros [Hw Hb]. rewrite run_app. simpl.
  destruct (IH Hw) as [[E Hu]|[(v & p & -> & Hv & Hp)|E]].
  - rewrite E. destruct (proj1 (state_ok_cases _) (next_ok 0 b)) as [H0|[H0|H0]];
      [left|by right; right|right; left].
    + split; [done|]. apply utf8_app; [done|].
      assert (0 <= b < 128) by (revert H0; unfold next; simpl; ranges).
      replace [b] with (encode b) by (unfold encode; case_match; [done|lia]).
      apply utf8_encode. unfold scalar. lia.
    + exists w, [b]. by split_and!; [..|constructor].
  - destruct (pending_next _ _ b Hb Hp) as [H0|[H0|H0]]; [left|by right; right|right; left].
    + split; [done|]. destruct (pending_complete _ _ _ Hb Hp H0) as (cp & ? & E).
      rewrite <- app_assoc, E. by apply utf8_app, utf8_encode.
    + exists v, (p ++ [b]). by rewrite app_assoc.
  - right; right. rewrite E. apply next_reject.
Qed.

(** The automaton accepts exactly UTF-8. *)
Lemma run_utf8 w : Forall is_byte w → run 0 w = 0 ↔ utf8 w.
Proof.
  intros Hw. split; [|apply utf8_run]. intros E.
  destruct (run_classify w Hw) as [[_ ?]|[(v & p & -> & Hv & Hp)|E']]; [done| |by rewrite E in E'].
  apply pending_live, live_not_final in Hp. lia.
Qed.

(** A rejected string has no UTF-8 extension. *)
Lemma run_reject_dead w x : run 0 w = UTF8_REJECT → ¬ utf8 (w ++ x).
Proof.
  intros E Hu. apply utf8_run in Hu. by rewrite run_app, E, run_reject in Hu.
Qed.

(** An unfinished string has one. *)
Lemma run_live_extends w :
  Forall is_byte w → live (run 0 w) → ∃ x, Forall is_byte x ∧ utf8 (w ++ x).
Proof.
  intros Hw Hl. destruct (live_not_final _ Hl).
  destruct (run_classify w Hw) as [[? _]|[(v & p & -> & Hv & Hp)|?]]; [lia| |lia].
  destruct (pending_begins _ _ Hp) as (cp & Hcp & x & E). exists x.
  rewrite <- app_assoc, <- E. split.
  - pose proof (encode_bytes cp Hcp) as He. rewrite E, Forall_app in He. tauto.
  - by apply utf8_app, utf8_encode.
Qed.

(** ** Repair *)

Lemma maximal_intro u s :
  u ≠ [] →
  length u = 1%nat ∨ begins u →
  (∀ cp, scalar cp → ¬ encode cp `prefix_of` u) →
  (∀ b, head s = Some b → ¬ begins (u ++ [b])) →
  maximal_subpart u s.
Proof.
  intros Hne Hu Hno Hb.
  assert (∀ w, u `prefix_of` w → w `prefix_of` u ++ s → begins w → w = u) as Hmax.
  { intros w [k ->] Hw Hbeg. apply prefix_app_inv in Hw.
    destruct k as [|b k]; [by rewrite app_nil_r|]. destruct Hw as [l ->].
    destruct (Hb b); [done|]. eapply begins_prefix; [done|].
    apply prefix_app. exists k. done. }
  split_and!; [|destruct Hu; auto|done].
  intros cp Hcp Hp. destruct (prefix_weak_total _ u _ Hp) as [?|Hup]; [by exists s|by eapply Hno|].
  apply (Hno cp Hcp). rewrite (Hmax (encode cp) Hup Hp); [done|]. by exists cp.
Qed.

Lemma maximal_trunc u a b : maximal_subpart u (a ++ b) → maximal_subpart u a.
Proof.
  intros (H1 & H2 & H3). split_and!; [|done|].
  - intros cp Hcp Hp. apply (H1 cp Hcp). rewrite app_assoc. by apply prefix_app_r.
  - intros w ? ? ?. apply H3; [done| |done]. rewrite app_assoc. by apply prefix_app_r.
Qed.

Lemma pending_no_char s p cp : pending s p → scalar cp → ¬ encode cp `prefix_of` p.
Proof.
  intros Hp Hcp Hpre.
  pose proof (pending_prefix _ _ _ Hp Hpre (encode_nonempty cp)) as H.
  rewrite (encode_run cp Hcp) in H. by apply pending_live, live_not_final in H as [].
Qed.

(** The three places where the code writes a replacement. *)
Lemma maximal_cut s p b r :
  pending s p → next s b = UTF8_REJECT → maximal_subpart p (b :: r).
Proof.
  intros Hp Hn. apply maximal_intro.
  - by eapply pending_nonempty.
  - right. by eapply pending_begins.
  - intros cp. by eapply pending_no_char.
  - intros ? [= <-] H. apply begins_run in H; [|by destruct p].
    rewrite run_app, (pending_run _ _ Hp) in H. done.
Qed.

Lemma maximal_end s p : pending s p → maximal_subpart p [].
Proof.
  intros Hp. apply maximal_intro; [by eapply pending_nonempty| | |done].
  - right. by eapply pending_begins.
  - intros cp. by eapply pending_no_char.
Qed.

Lemma maximal_byte b r : next 0 b = UTF8_REJECT → maximal_subpart [b] r.
Proof.
  intros Hn. assert (¬ begins [b]) as Hb.
  { intros H. by apply begins_run in H. }
  apply maximal_intro; [done|by left| |].
  - intros cp Hcp Hp. apply Hb. exists cp. split; [done|].
    pose proof (prefix_length _ _ Hp) as Hl. pose proof (encode_nonempty cp).
    destruct (encode cp) as [|c [|]]; simpl in *; [done| |lia].
    by apply prefix_cons_inv_1 in Hp as ->.
  - intros c _ H. apply Hb. eapply begins_prefix; [done|]. by exists [c].
Qed.

Lemma repaired_bad_app u s t k n :
  maximal_subpart u s → repaired s t k → n = S k → repaired (u ++ s) (REPL_SEQ ++ t) n.
Proof. intros ? ? ->. by constructor. Qed.

(** A repaired string is UTF-8, and only ill-formed strings are changed. *)
Lemma repaired_utf8 s t k : repaired s t k → utf8 t.
Proof.
  induction 1 as [|cp s t k Hcp _ IH|u s t k _ _ IH].
  - apply utf8_nil.
  - by apply utf8_app; [apply utf8_encode|].
  - apply utf8_app; [|done]. apply (utf8_encode 65533). unfold scalar. lia.
Qed.

Lemma repaired_zero s t : repaired s t 0 → utf8 s ∧ t = s.
Proof.
  intros H. remember 0%nat as k eqn:E. induction H as [|cp s t k Hcp _ IH|]; [|destruct (IH E) as [? ->]|done].
  - split; [apply utf8_nil|done].
  - split; [by apply utf8_app; [apply utf8_encode|]|done].
Qed.

Lemma utf8_repaired s : utf8 s → repaired s s 0.
Proof.
  intros (l & Hl & ->). induction Hl as [|cp l ? _ IH]; csimpl; by constructor.
Qed.

Lemma char_head_unique cp cp' s s' :
  scalar cp → scalar cp' → encode cp ++ s = encode cp' ++ s' → encode cp = encode cp' ∧ s = s'.
Proof.
  intros H H' E. assert (encode cp = encode cp') as E'; [|rewrite E' in *; split; [done|by simplify_list_eq]].
  assert (∀ a b, scalar a → scalar b → encode a `prefix_of` encode b → encode a = encode b) as Hpf.
  { intros a b Ha Hb Hp. destruct (decide (encode a = encode b)); [done|].
    pose proof (encode_prefix b _ Hb Hp (encode_nonempty a) n) as Hq.
    rewrite (encode_run a Ha) in Hq. by apply pending_live, live_not_final in Hq as []. }
  destruct (prefix_weak_total (encode cp) (encode cp') (encode cp ++ s)) as [Hp|Hp];
    [by exists s|rewrite E; by exists s'|by apply Hpf|symmetry; by apply Hpf].
Qed.

Lemma maximal_unique u s u' s' :
  maximal_subpart u s → maximal_subpart u' s' → u ++ s = u' ++ s' → u = u' ∧ s = s'.
Proof.
  intros H H' E. assert (u = u') as ->; [|split; [done|by simplify_list_eq]].
  assert (∀ u s v r, maximal_subpart u s → maximal_subpart v r → u ++ s = v ++ r →
            u `prefix_of` v → u = v) as Hpf.
  { clear. intros u s v r (_ & Hu & Hmax) (_ & Hv & _) E Hp. destruct Hv as [Hv|[_ Hv]].
    - destruct Hp as [k ->]. assert (u ≠ []) by (destruct Hu as [Hu|[? _]]; [by destruct u|done]).
      rewrite length_app in Hv. destruct u; [done|]. destruct k; simpl in *; [by rewrite app_nil_r|lia].
    - symmetry. apply Hmax; [done| |done]. rewrite E. by exists r. }
  destruct (prefix_weak_total u u' (u ++ s)) as [Hp|Hp];
    [by exists s|rewrite E; by exists s'|by eapply Hpf|symmetry; by eapply Hpf].
Qed.

(** The specification determines the result. *)
Lemma repaired_functional s t k t' k' : repaired s t k → repaired s t' k' → t = t' ∧ k = k'.
Proof.
  intros H. revert t' k'. induction H as [|cp s t k Hcp _ IH|u s t k Hm _ IH]; intros t' k' H'.
  - inversion H' as [|cp ???? _ E|u ??? (_ & Hu & _) _ E]; subst; [done|..];
      apply app_nil in E as [E E']; [by destruct (encode_nonempty cp)|].
    rewrite E, E' in Hu. by destruct Hu as [Hu|[Hu _]].
  - inversion H' as [E|cp' s' ?? Hcp' Hr E|u' s' ?? Hm' Hr E]; subst.
    + symmetry in E. apply app_nil in E as [E _]. by destruct (encode_nonempty cp).
    + destruct (char_head_unique _ _ _ _ Hcp' Hcp E) as [-> ->].
      by destruct (IH _ _ Hr) as [-> ->].
    + destruct Hm' as (Hno & _). destruct (Hno cp Hcp). rewrite E. by apply prefix_app_r.
  - inversion H' as [E|cp' s' ?? Hcp' Hr E|u' s' ?? Hm' Hr E]; subst.
    + symmetry in E. apply app_nil in E as [-> _]. by destruct Hm as (_ & [?|[? _]] & _).
    + destruct Hm as (Hno & _). destruct (Hno cp' Hcp'). rewrite <- E. by apply prefix_app_r.
    + destruct (maximal_unique _ _ _ _ Hm' Hm E) as [-> ->].
      by destruct (IH _ _ Hr) as [-> ->].
Qed.

(** ** Steps of a repair

    [current s p]: the automaton stands in state [s] after the bytes [p] of the
    character being read. *)
Definition current (s : Z) (p : list Z) : Prop := (p = [] ∧ s = 0) ∨ pending s p.

Lemma current_ok s p : current s p → state_ok s.
Proof.
  intros [[_ ->]|H]; apply state_ok_cases; [by left|]. right; right. by eapply pending_live.
Qed.

Lemma current_nil : current 0 [].
Proof. by left. Qed.

Lemma pending_len s p : pending s p → (1 <= length p <= 3)%nat.
Proof.
  intros H. apply pending_shape in H. destruct p as [|? [|? [|? [|]]]]; simpl in *; try done; lia.
Qed.

(** The characters finished, continued and broken off by the next byte. *)
Lemma current_finish s p c r t k :
  is_byte c → current s p → next s c = 0 → repaired r t k → repaired (p ++ c :: r) (p ++ c :: t) k.
Proof.
  intros Hc Hp Hn Hr.
  assert (∃ cp, scalar cp ∧ p ++ [c] = encode cp) as (cp & Hcp & E).
  { destruct Hp as [[-> ->]|Hp]; [|by eapply pending_complete].
    exists c. assert (0 <= c < 128) by (revert Hn; unfold next; simpl; ranges).
    unfold scalar, encode. split; [lia|]. case_match; [done|lia]. }
  rewrite (cons_middle c p r), (cons_middle c p t), !app_assoc, E. by constructor.
Qed.

Lemma current_go s p c : is_byte c → current s p → live (next s c) → pending (next s c) (p ++ [c]).
Proof. intros Hc [[-> ->]|Hp] Hl; by constructor. Qed.

Lemma current_cut s p c r t k :
  pending s p → next s c = UTF8_REJECT → repaired (c :: r) t k →
  repaired (p ++ c :: r) (REPL_SEQ ++ t) (S k).
Proof. intros Hp Hn Hr. constructor; [by eapply maximal_cut|done]. Qed.

Lemma byte_cut c r t k :
  next 0 c = UTF8_REJECT → repaired r t k → repaired (c :: r) (REPL_SEQ ++ t) (S k).
Proof. intros Hn Hr. apply (repaired_bad [c]); [by apply maximal_byte|done]. Qed.

Lemma pending_cut s p : pending s p → repaired p REPL_SEQ 1.
Proof.
  intros Hp. rewrite <- (app_nil_r p). apply (repaired_bad p [] [] 0); [|constructor].
  by eapply maximal_end.
Qed.

(** Every string can be repaired, and what is being read needs room. *)
Lemma repair_exists r s p :
  Forall is_byte r → current s p →
  ∃ t k, repaired (p ++ r) t k ∧ (r ≠ [] → (length p < length t)%nat).
Proof.
  intros Hr Hp.
  remember (2 * length r + length (if decide (p = []) then [] else [tt]))%nat as n eqn:En.
  assert (2 * length r + length (if decide (p = []) then [] else [tt]) <= n)%nat as Hn by lia.
  clear En. revert r s p Hr Hp Hn. induction n as [n IH] using lt_wf_ind; intros r s p Hr Hp Hn.
  destruct r as [|c r].
  { rewrite app_nil_r. destruct Hp as [[-> _]|Hp]; [by exists [], 0%nat; split; [constructor|]|].
    exists REPL_SEQ, 1%nat. by split; [eapply pending_cut|]. }
  apply Forall_cons in Hr as [Hc Hr]. cbn [length] in Hn.
  destruct (proj1 (state_ok_cases _) (next_ok s c)) as [H0|[H0|H0]].
  - destruct (IH (2 * length r)%nat ltac:(lia) r 0 [] Hr current_nil ltac:(simpl; lia))
      as (t & k & Ht & _).
    exists (p ++ c :: t), k. split; [by eapply current_finish|].
    intros _. rewrite length_app. simpl. lia.
  - destruct Hp as [[-> ->]|Hp].
    + destruct (IH (2 * length r)%nat ltac:(lia) r 0 [] Hr current_nil ltac:(simpl; lia))
        as (t & k & Ht & _).
      exists (REPL_SEQ ++ t), (S k). split; [by apply byte_cut|]. simpl. lia.
    + pose proof (pending_nonempty _ _ Hp). rewrite decide_False in Hn by done. simpl in Hn.
      destruct (IH (2 * S (length r))%nat ltac:(lia) (c :: r) 0 []) as (t & k & Ht & Hl);
        [by constructor|apply current_nil|simpl; lia|].
      exists (REPL_SEQ ++ t), (S k). split; [by eapply current_cut|].
      intros _. specialize (Hl ltac:(done)). pose proof (pending_len _ _ Hp).
      rewrite length_app. simpl in *. lia.
  - pose proof (current_go s p c Hc Hp H0) as Hq.
    destruct (IH (2 * length r + 1)%nat ltac:(lia) r (next s c) (p ++ [c])) as (t & k & Ht & Hl);
      [done|by right|destruct (decide (p ++ [c] = [])); simpl; lia|].
    rewrite <- app_assoc in Ht. exists t, k. split; [done|]. intros _.
    rewrite length_app in Hl. simpl in Hl. destruct r as [|d r]; [|specialize (Hl ltac:(done)); lia].
    destruct (repaired_functional _ _ _ _ _ Ht (pending_cut _ _ Hq)) as [-> _].
    pose proof (pending_len _ _ Hq) as Hlen. rewrite length_app in Hlen. simpl in *. lia.
Qed.

End Automaton.

Module Strings.
Import Model Spec Automaton.

(** The C string that starts a piece of memory. *)
Fixpoint until_nul (mem : list Z) : list Z :=
  match mem with
  | [] => []
  | c :: mem => if c =? 0 then [] else c :: until_nul mem
  end.

Lemma until_nul_bytes mem : Forall is_byte mem → Forall is_byte (until_nul mem).
Proof. induction 1; simpl; [done|]. case_match; by constructor. Qed.

Lemma is_valid_loop_run mem s :
  Forall is_byte mem → 0 ∈ mem → state_ok s → is_valid_loop mem s = Some (run s (until_nul mem)).
Proof.
  intros Hb. revert s. induction Hb as [|c mem Hc Hb IH]; intros s H0 Hs;
    [by apply elem_of_nil in H0|]. simpl.
  destruct (Z.eqb_spec c 0); [done|]. rewrite decode_next by done. simpl.
  apply IH; [|apply next_ok]. by apply elem_of_cons in H0 as [?|?].
Qed.

Lemma is_validn_loop_run mem size s :
  Forall is_byte mem → 0 ∈ mem ∨ (size <= length mem)%nat → state_ok s →
  is_validn_loop mem size s = Some (run s (until_nul (take size mem))).
Proof.
  intros Hb. revert s size. induction Hb as [|c mem Hc Hb IH]; intros s [|size] H0 Hs; try done.
  { simpl in H0. destruct H0 as [H0|?]; [by apply elem_of_nil in H0|lia]. }
  simpl. destruct (Z.eqb_spec c 0); [done|]. rewrite decode_next by done. simpl.
  apply IH; [|apply next_ok]. destruct H0 as [H0|H0]; [left|right; simpl in H0; lia].
  by apply elem_of_cons in H0 as [?|?].
Qed.

(** ** The copy that keeps whole characters *)

(** [t] is the longest UTF-8 prefix of [s] of less than [n] bytes. *)
Definition longest_utf8 (s t : list Z) (n : nat) : Prop :=
  utf8 t ∧ t `prefix_of` s ∧ (length t < n)%nat
  ∧ ∀ u, utf8 u → u `prefix_of` s → (length u < n)%nat → u `prefix_of` t.

Lemma longest_snoc s c g n :
  Forall is_byte (s ++ [c]) → run 0 (s ++ [c]) ≠ UTF8_REJECT →
  longest_utf8 s g n →
  longest_utf8 (s ++ [c])
    (if (length s + 1 <? n)%nat && (run 0 (s ++ [c]) =? 0) then s ++ [c] else g) n.
Proof.
  intros Hb Hr (Hg & Hp & Hl & Hmax).
  destruct (Nat.ltb_spec (length s + 1) n); simpl.
  - destruct (Z.eqb_spec (run 0 (s ++ [c])) 0) as [E|E].
    + split_and!; [by apply run_utf8|done|rewrite length_app; simpl; lia|done].
    + split_and!; [done|by apply prefix_app_r|done|].
      intros u Hu Hpu Hlu. apply Hmax; [done| |done].
      destruct Hpu as [k Hk]. destruct k as [|x k _] using rev_ind.
      * rewrite app_nil_r in Hk. subst u. by apply utf8_run in Hu.
      * rewrite app_assoc in Hk. apply app_inj_tail in Hk as [-> _]. by exists k.
  - split_and!; [done|by apply prefix_app_r|done|].
    intros u Hu Hpu Hlu. apply Hmax; [done| |done].
    destruct Hpu as [k Hk]. destruct k as [|x k _] using rev_ind.
    + rewrite app_nil_r in Hk. subst u. rewrite length_app in Hlu. simpl in Hlu. lia.
    + rewrite app_assoc in Hk. apply app_inj_tail in Hk as [-> _]. by exists k.
Qed.

(** Nothing longer than the bytes read qualifies when the copy stops. *)
Lemma longest_stop s g n r :
  longest_utf8 s g n →
  (n <= length s)%nat ∨ (∀ c, head r = Some c → run 0 (s ++ [c]) = UTF8_REJECT) →
  longest_utf8 (s ++ r) g n.
Proof.
  intros (Hg & Hp & Hl & Hmax) Hstop.
  split_and!; [done|by apply prefix_app_r|done|]. intros u Hu Hpu Hlu.
  destruct (prefix_weak_total u s (s ++ r)) as [?|[k ->]]; [done|by apply prefix_app_r|by apply Hmax|].
  destruct k as [|c k]; [rewrite app_nil_r in *; by apply Hmax|].
  apply prefix_app_inv in Hpu. destruct Hpu as [l ->].
  destruct Hstop as [?|Hc]; [rewrite length_app in Hlu; simpl in *; lia|].
  destruct (run_reject_dead (s ++ [c]) k (Hc c eq_refl)). by rewrite <- app_assoc.
Qed.

Lemma copy_loop_correct rest s g dst size :
  Forall is_byte (s ++ rest) → (0 ∈ rest ∨ (size <= length rest)%nat) →
  (length s + size <= length dst)%nat → s `prefix_of` dst →
  run 0 s ≠ UTF8_REJECT →
  longest_utf8 s g (length s + size) →
  ∃ dst' g', copy_loop rest dst size (run 0 s) (Z.of_nat (length s)) (Z.of_nat (length g))
    = Some (dst', Z.of_nat (length g'))
    ∧ longest_utf8 (s ++ until_nul rest) g' (length s + size)
    ∧ g' `prefix_of` dst' ∧ length dst' = length dst
    ∧ drop (length s + size) dst' = drop (length s + size) dst.
Proof.
  revert rest s g dst. induction size as [|size IH]; intros rest s g dst Hb H0 Hd Hs Hr Hg.
  { exists dst, g. simpl. split_and!; try done.
    - apply longest_stop; [done|]. left. lia.
    - destruct Hg as (_ & ? & _). by etrans. }
  assert (g `prefix_of` dst) as Hgd by (destruct Hg as (_ & ? & _); by etrans).
  destruct rest as [|c rest].
  { destruct H0 as [H0|H0]; [by apply elem_of_nil in H0|simpl in H0; lia]. }
  simpl. destruct (Z.eqb_spec c 0).
  { exists dst, g. rewrite app_nil_r. by split_and!. }
  pose proof Hb as Hb'. apply Forall_app in Hb' as [Hbs [Hc Hbr]%Forall_cons].
  rewrite decode_next by (apply run_ok_0 || done). simpl.
  assert (next (run 0 s) c = run 0 (s ++ [c])) as E by by rewrite run_app.
  destruct (Z.eqb_spec (next (run 0 s) c) UTF8_REJECT) as [Ej|Ej].
  { exists dst, g. split_and!; try done. apply longest_stop; [done|].
    right. intros ? [= <-]. congruence. }
  destruct (store_prefix dst s [c]) as (y & Hst & Hlen & Hdrop); [done|simpl; lia|].
  rewrite Hst. simpl. rewrite E.
  replace (Z.of_nat (length s) + 1) with (Z.of_nat (length (s ++ [c])))
    by (rewrite length_app; simpl; lia).
  assert (Forall is_byte (s ++ [c])) as Hbsc by (apply Forall_app; split; [done|by apply Forall_singleton]).
  pose proof (longest_snoc s c g (length s + S size) Hbsc ltac:(by rewrite <- E) Hg) as Hg'.
  replace (if negb (size =? 0)%nat && (run 0 (s ++ [c]) =? UTF8_ACCEPT)
           then Z.of_nat (length (s ++ [c])) else Z.of_nat (length g))
    with (Z.of_nat (length (if (length s + 1 <? length s + S size)%nat && (run 0 (s ++ [c]) =? 0)
                            then s ++ [c] else g))).
  2: { unfold UTF8_ACCEPT. destruct (Nat.ltb_spec (length s + 1) (length s + S size)),
         (Nat.eqb_spec size 0); simpl; try lia; by repeat case_match. }
  assert (length (s ++ [c]) = length s + 1)%nat as Els by (rewrite length_app; done).
  destruct (IH rest (s ++ [c])
              (if (length s + 1 <? length s + S size)%nat && (run 0 (s ++ [c]) =? 0)
               then s ++ [c] else g) (s ++ c :: y)) as (dst' & g' & Hcopy & Hl & Hgp & Hln & Hdr).
  - by rewrite <- app_assoc.
  - destruct H0 as [H0|H0]; [left; by apply elem_of_cons in H0 as [?|?]|right; simpl in H0; lia].
  - simpl in Hlen. rewrite Els, Hlen. lia.
  - rewrite (cons_middle c s y), app_assoc. by apply prefix_app_r.
  - by rewrite <- E.
  - rewrite Els. by replace (length s + 1 + size)%nat with (length s + S size)%nat by lia.
  - exists dst', g'. rewrite Els in *. replace (length s + 1 + size)%nat with (length s + S size)%nat in * by lia.
    split_and!; try done.
    + by rewrite <- app_assoc in Hl.
    + simpl in Hlen. by rewrite Hln, Hlen.
    + rewrite Hdr. apply (Hdrop (length s + S size)%nat). simpl. lia.
Qed.

(** ** The incremental validator *)

Inductive feed :=
| Feed (data : list Z)
| Feedn (data : list Z) (size : nat)
| Reset.

(** The data must end with a zero or be as long as announced. *)
Definition feed_ok (f : feed) : Prop :=
  match f with
  | Feed data => Forall is_byte data ∧ 0 ∈ data
  | Feedn data size => Forall is_byte data ∧ (0 ∈ data ∨ (size <= length data)%nat)
  | Reset => True
  end.

(** One call on the validator; its state afterwards. *)
Definition feed_step (state : Z) (f : feed) : option Z :=
  match f with
  | Feed data => snd <$> ast_utf8_validator_feed state data
  | Feedn data size => snd <$> ast_utf8_validator_feedn state data size
  | Reset => Some (ast_utf8_validator_reset state)
  end.

Fixpoint feed_run (state : Z) (fs : list feed) : option Z :=
  match fs with
  | [] => Some state
  | f :: fs => state ← feed_step state f; feed_run state fs
  end.

(** The bytes consumed since the last reset. *)
Definition consumed (got : list Z) (f : feed) : list Z :=
  match f with
  | Feed data => got ++ until_nul data
  | Feedn data size => got ++ until_nul (take size data)
  | Reset => []
  end.

Lemma feed_run_correct fs got :
  Forall feed_ok fs → Forall is_byte got →
  feed_run (run 0 got) fs = Some (run 0 (foldl consumed got fs))
  ∧ Forall is_byte (foldl consumed got fs).
Proof.
  intros Hf. revert got. induction Hf as [|f fs Hok _ IH]; intros got Hd; [done|].
  assert (state_ok (run 0 got)) as Hs by apply run_ok_0.
  simpl. destruct f as [data|data size|]; simpl in *.
  - destruct Hok as [Hb H0]. unfold ast_utf8_validator_feed.
    rewrite is_valid_loop_run by done. simpl. rewrite <- run_app. apply IH.
    apply Forall_app; split; [done|by apply until_nul_bytes].
  - destruct Hok as [Hb H0]. unfold ast_utf8_validator_feedn.
    rewrite is_validn_loop_run by done. simpl. rewrite <- run_app. apply IH.
    apply Forall_app; split; [done|]. by apply until_nul_bytes, Forall_take.
  - apply (IH []). done.
Qed.

(** What the verdict says of the bytes consumed. *)
Lemma validator_state_correct w :
  Forall is_byte w →
  let v := ast_utf8_validator_state (run 0 w) in
  (v = AST_UTF8_VALID ↔ utf8 w)
  ∧ (v = AST_UTF8_INVALID ↔ ∀ x, ¬ utf8 (w ++ x))
  ∧ (v = AST_UTF8_UNKNOWN ↔ ¬ utf8 w ∧ ∃ x, utf8 (w ++ x)).
Proof.
  intros Hb v. unfold v, ast_utf8_validator_state, AST_UTF8_VALID, AST_UTF8_INVALID,
    AST_UTF8_UNKNOWN, UTF8_ACCEPT.
  assert (state_ok (run 0 w)) as Hs by apply run_ok_0.
  pose proof (run_utf8 w Hb) as Hu.
  apply state_ok_cases in Hs as [E|[E|Hl]].
  - rewrite E. simpl. assert (utf8 w) by by apply Hu. split_and!; split; try done; try tauto.
    intros Hno. destruct (Hno []). by rewrite app_nil_r.
  - pose proof (λ x, run_reject_dead w x E) as Hd. rewrite E. simpl.
    assert (¬ utf8 w) by (intros ?; destruct (Hd []); by rewrite app_nil_r).
    split_and!; split; try done; try tauto. intros (_ & x & Hx). by destruct (Hd x).
  - destruct (live_not_final _ Hl).
    destruct (Z.eqb_spec (run 0 w) 0); [done|]. destruct (Z.eqb_spec (run 0 w) UTF8_REJECT); [done|].
    destruct (run_live_extends w Hb Hl) as (x & _ & Hx).
    split_and!; split; try done; try tauto.
    + intros Hno. by destruct (Hno x).
    + intros _. split; [tauto|]. by exists x.
Qed.

End Strings.

Module Replacing.
Import Model Spec Automaton Strings.

Abbreviation len l := (Z.of_nat (length l)).

(** The destination, when there is one, has [n] bytes and starts with [t]. *)
Definition holds (n : Z) (d : option (list Z)) (t : list Z) : Prop :=
  match d with
  | None => True
  | Some m => len m = n ∧ t `prefix_of` m
  end.

Lemma holds_prefix n d t u : holds n d t → u `prefix_of` t → holds n d u.
Proof. destruct d as [m|]; [|done]. intros [? ?] ?. split; [done|]. by etrans. Qed.

Lemma store_dst_ok n d t bs :
  holds n d t → (has_dst d = true → len t + len bs <= n) →
  ∃ d', store_dst d (len t) bs = Some d' ∧ has_dst d' = has_dst d ∧ holds n d' (t ++ bs).
Proof.
  intros Hd Hb. destruct d as [m|]; [|by exists None].
  destruct Hd as [Hl Hp]. specialize (Hb eq_refl).
  destruct (store_prefix m t bs Hp) as (y & E & Hy & _); [lia|].
  exists (Some (t ++ bs ++ y)). unfold store_dst. rewrite E.
  split; [done|]. split; [done|]. split; [by rewrite Hy|]. rewrite app_assoc. by apply prefix_app_r.
Qed.

(** The return value when [k] sequences are replaced from here on. *)
Definition verdict (code : Z) (k : nat) : Z :=
  if (k =? 0)%nat then code else AST_UTF8_REPLACE_INVALID.

(** What the rest of the run owes to the input [inp] still to be processed,
    when [t0] has been written: the repaired input if it fits before a
    terminator, the repair of a part of it otherwise; without a destination,
    the size. *)
Definition outcome (n : Z) (has : bool) (t0 inp : list Z) (code : Z)
    (o : Z * option (list Z) * Z) : Prop :=
  ∃ t k, repaired inp t k ∧
    if has then
      ∃ m, len m = n ∧
        ((len t0 + len t < n ∧ o = (verdict code k, Some m, n) ∧ t0 ++ t ++ [0] `prefix_of` m)
         ∨ (n <= len t0 + len t ∧ o = (AST_UTF8_REPLACE_OVERRUN, Some m, n)
            ∧ ∃ a b t1 k1, inp = a ++ b ∧ repaired a t1 k1 ∧ t0 ++ t1 ++ [0] `prefix_of` m))
    else o = (verdict code k, None, len t0 + len t + 1).

(** Processing the segment [x] as [y] leaves the rest of the outcome. *)
Lemma outcome_shift n has t0 x y j s code code' o :
  (∀ a b t k, s = a ++ b → repaired a t k → repaired (x ++ a) (y ++ t) (j + k)) →
  (∀ k, verdict code (j + k) = verdict code' k) →
  outcome n has (t0 ++ y) s code' o → outcome n has t0 (x ++ s) code o.
Proof.
  intros Hseg Hv (t & k & Ht & Ho). exists (y ++ t), (j + k)%nat.
  split; [apply (Hseg s []); [by rewrite app_nil_r|done]|].
  rewrite Hv, length_app. rewrite length_app in Ho. destruct has.
  - destruct Ho as (m & Hm & [(? & -> & Hp)|(? & -> & a & b & t1 & k1 & -> & Hr & Hp)]); exists m;
      (split; [done|]); [left|right].
    + split_and!; [lia|done|]. by rewrite <- app_assoc in Hp |- *.
    + split_and!; [lia|done|]. exists (x ++ a), b, (y ++ t1), (j + k1)%nat.
      rewrite <- !app_assoc in *. split_and!; [done|by eapply Hseg|done].
  - rewrite Ho. do 2 f_equal. lia.
Qed.

Lemma outcome_char n has t0 s p c r code o :
  is_byte c → current s p → next s c = 0 →
  outcome n has (t0 ++ p ++ [c]) r code o → outcome n has t0 (p ++ c :: r) code o.
Proof.
  intros Hc Hp Hn Ho. rewrite (cons_middle c p r), app_assoc.
  eapply (outcome_shift _ _ _ (p ++ [c]) (p ++ [c]) 0); [|done|exact Ho].
  intros a b t k _ Ha. rewrite <- !app_assoc. by apply (current_finish s p c a t k).
Qed.

Lemma outcome_bad n has t0 u s code o :
  maximal_subpart u s →
  outcome n has (t0 ++ REPL_SEQ) s AST_UTF8_REPLACE_INVALID o → outcome n has t0 (u ++ s) code o.
Proof.
  intros Hm Ho. eapply (outcome_shift _ _ _ u REPL_SEQ 1); [| |exact Ho].
  - intros a b t k -> Ha. constructor; [by eapply maximal_trunc|done].
  - intros k. unfold verdict. simpl. by case_match.
Qed.

(** Stopping for want of room. *)
Lemma outcome_overrun n t0 s p r code m :
  Forall is_byte r → current s p → r ≠ [] →
  n <= len t0 + len p + 1 → len m = n → t0 ++ [0] `prefix_of` m →
  outcome n true t0 (p ++ r) code (AST_UTF8_REPLACE_OVERRUN, Some m, n).
Proof.
  intros Hr Hp Hne Hn Hm Hpre. destruct (repair_exists r s p Hr Hp) as (t & k & Ht & Hl).
  specialize (Hl Hne). exists t, k. split; [done|]. exists m. split; [done|]. right.
  split_and!; [lia|done|]. exists [], (p ++ r), [], 0%nat. by split_and!; [|constructor|].
Qed.

Lemma outcome_overrun_bad n t0 s u code m :
  Forall is_byte s → maximal_subpart u s → n <= len t0 + 3 → len m = n → t0 ++ [0] `prefix_of` m →
  outcome n true t0 (u ++ s) code (AST_UTF8_REPLACE_OVERRUN, Some m, n).
Proof.
  intros Hs Hu Hn Hm Hpre. destruct (repair_exists s 0 [] Hs current_nil) as (t & k & Ht & _).
  exists (REPL_SEQ ++ t), (S k). split; [by constructor|]. exists m. split; [done|]. right.
  split_and!; [rewrite length_app; simpl; lia|done|].
  exists [], (u ++ s), [], 0%nat. by split_and!; [|constructor|].
Qed.

(** The variables at the head of the loop: [s0] has been processed into [t0],
    and [p] is the beginning of the character being read. *)
Record loop_inv (n : Z) (mem s0 p rest extra t0 : list Z) (v : replace_vars) : Prop := {
  li_mem : mem = s0 ++ p ++ rest ++ extra;
  li_src : src_pos v = len s0 + len p;
  li_dst : dst_pos v = len t0 + len p;
  li_prev : prev_state v = curr_state v;
  li_cur : current (curr_state v) p;
  li_seq : p ≠ [] → seq_len v - curr_state v / 36 = len p;
  li_holds : holds n (dst v) (t0 ++ p);
  li_room : has_dst (dst v) = true → len t0 + len p < n;
  li_len : len t0 <= 3 * len s0;
}.

Lemma back_up_pending n mem s0 p rest extra t0 v :
  loop_inv n mem s0 p rest extra t0 v → p ≠ [] → len t0 + len p < 2 ^ 64 →
  back_up (dst_pos v) (seq_len v) (prev_state v) = len t0.
Proof.
  intros [] Hne Hb. unfold back_up. rewrite li_prev0, li_dst0, li_seq0 by done.
  destruct li_cur0 as [[? _]|Hp]; [done|]. pose proof (pending_len _ _ Hp).
  rewrite (uwrap_small 32) by lia. rewrite uwrap_small by lia. lia.
Qed.

(** The state counts the bytes still missing. *)
Lemma pending_countdown s p c :
  pending s p → pending (next s c) (p ++ [c]) → s / 36 = next s c / 36 + 1.
Proof.
  intros Hp Hq. apply pending_shape in Hp. apply pending_live in Hq. rewrite live_cases in Hq.
  revert Hq. unfold next.
  destruct p as [|? [|? [|? [|]]]]; cbn [shape] in Hp; try done;
    ranges; intros; (Z.div_mod_to_equations; lia).
Qed.

(** ** The loop *)

Section Loop.
Context (n : Z) (mem extra : list Z).
Context (Hmem : Forall is_byte mem) (Hlen : len mem < 2 ^ 61).

(** Sizes the code handles: a single byte, or room for a replacement. *)
Definition size_ok (has : bool) : Prop := has = true → n = 1 ∨ 4 <= n < 2 ^ 64.

Definition measure (rest p : list Z) : nat :=
  (2 * length rest + match p with [] => 0 | _ => 1 end)%nat.

(** A turn of the loop either returns with the outcome, or leads to variables
    from which the outcome follows. *)
Definition turn_ok t0 p rest (v : replace_vars) (r : option (list Z) + replace_vars) : Prop :=
  match r with
  | inl d =>
      outcome n (has_dst (dst v)) t0 (p ++ rest) (res v) (AST_UTF8_REPLACE_OVERRUN, d, n)
  | inr v' =>
      has_dst (dst v') = has_dst (dst v) ∧
      ∃ s0' p' rest' t0', loop_inv n mem s0' p' rest' extra t0' v'
        ∧ (measure rest' p' < measure rest p)%nat
        ∧ ∀ o, outcome n (has_dst (dst v)) t0' (p' ++ rest') (res v') o →
               outcome n (has_dst (dst v)) t0 (p ++ rest) (res v) o
  end.

Lemma loop_inv_bytes s0 p rest t0 v :
  loop_inv n mem s0 p rest extra t0 v →
  Forall is_byte rest ∧ len s0 + len p + len rest <= len mem.
Proof.
  intros [->]. rewrite !Forall_app in Hmem. rewrite !length_app. split; [tauto|lia].
Qed.

Lemma turn_overrun s0 p c r t0 v :
  size_ok (has_dst (dst v)) → loop_inv n mem s0 p (c :: r) extra t0 v →
  has_dst (dst v) = true → n - 1 <= dst_pos v →
  ∃ d, store_dst (dst v)
         (if UTF8_REJECT <? prev_state v
          then back_up (dst_pos v) (seq_len v) (prev_state v) else dst_pos v) [0] = Some d
    ∧ turn_ok t0 p (c :: r) v (inl d).
Proof.
  intros Hn Hi Hd Hpos. pose proof (loop_inv_bytes _ _ _ _ _ Hi) as [Hb Hbl]. simpl in Hbl.
  assert ((if UTF8_REJECT <? prev_state v
           then back_up (dst_pos v) (seq_len v) (prev_state v) else dst_pos v) = len t0) as ->.
  { destruct (li_cur _ _ _ _ _ _ _ _ Hi) as [[Hp E]|Hp].
    - rewrite (li_prev _ _ _ _ _ _ _ _ Hi), E, (li_dst _ _ _ _ _ _ _ _ Hi), Hp. simpl. lia.
    - pose proof (pending_live _ _ Hp) as Hl. rewrite live_cases in Hl.
      rewrite <- (li_prev _ _ _ _ _ _ _ _ Hi) in Hl.
      destruct (Z.ltb_spec UTF8_REJECT (prev_state v)); [|unfold UTF8_REJECT in *; lia].
      eapply back_up_pending; [done|by eapply pending_nonempty|].
      pose proof (li_len _ _ _ _ _ _ _ _ Hi). lia. }
  destruct Hi. destruct (store_dst_ok n (dst v) t0 [0]) as (d & E & Hhd & Hh).
  { by eapply holds_prefix, prefix_app_r. }
  { intros _. specialize (li_room0 Hd). simpl. lia. }
  exists d. split; [done|]. unfold turn_ok. rewrite Hd in *. destruct d as [m|]; [|done].
  destruct Hh as [Hm Hp]. eapply outcome_overrun; try done. lia.
Qed.

Lemma turn_write s0 p c r t0 v :
  size_ok (has_dst (dst v)) → loop_inv n mem s0 p (c :: r) extra t0 v → is_byte c →
  (has_dst (dst v) = true → dst_pos v < n - 1) →
  next (curr_state v) c ≠ UTF8_REJECT →
  let rc := next (curr_state v) c in
  ∃ d, store_dst (dst v) (dst_pos v) [c] = Some d
    ∧ (rc = 0 → turn_ok t0 p (c :: r) v
         (inr (mk_vars d (src_pos v + 1) (uwrap 64 (dst_pos v + 1)) rc rc 0 (res v))))
    ∧ (live rc → turn_ok t0 p (c :: r) v
         (inr (mk_vars d (src_pos v + 1) (uwrap 64 (dst_pos v + 1)) rc rc
            (if prev_state v =? UTF8_ACCEPT then rc / 36 + 1 else seq_len v) (res v)))).
Proof.
  intros Hn Hi Hc Hpos Hrej rc. pose proof (loop_inv_bytes _ _ _ _ _ Hi) as [Hb Hbl]. simpl in Hbl.
  destruct Hi. assert (dst_pos v = len (t0 ++ p)) as Edst by (rewrite length_app; lia).
  destruct (store_dst_ok n (dst v) (t0 ++ p) [c]) as (d & E & Hhd & Hh);
    [done|intros Hd; specialize (Hpos Hd); simpl; lia|].
  exists d. rewrite Edst. split; [done|]. rewrite <- app_assoc in Hh.
  rewrite uwrap_small by (rewrite length_app; lia).
  split; intros Hrc; (split; [done|]).
  - exists (s0 ++ p ++ [c]), [], r, (t0 ++ p ++ [c]). split_and!.
    + split; cbn [src_pos dst_pos prev_state curr_state seq_len dst res];
        rewrite ?length_app; simpl; try done; try lia.
      * by rewrite <- !app_assoc.
      * by left.
      * by rewrite app_nil_r.
      * intros Hd. rewrite Hhd in Hd. specialize (Hpos Hd). lia.
    + unfold measure. simpl. lia.
    + intros o Ho. by eapply outcome_char.
  - assert (pending rc (p ++ [c])) as Hq by by apply current_go.
    exists s0, (p ++ [c]), r, t0. split_and!.
    + split; cbn [src_pos dst_pos prev_state curr_state seq_len dst res];
        rewrite ?length_app; simpl; try done; try lia.
      * by rewrite <- !app_assoc.
      * by right.
      * intros _. rewrite li_prev0. destruct li_cur0 as [[-> E0]|Hp].
        -- rewrite E0. simpl. lia.
        -- pose proof (pending_live _ _ Hp) as Hl. apply live_not_final in Hl as [Hl _].
           destruct (Z.eqb_spec (curr_state v) UTF8_ACCEPT); [done|].
           pose proof (pending_countdown _ _ _ Hp Hq).
           rewrite <- Nat2Z.inj_add in *. specialize (li_seq0 (pending_nonempty _ _ Hp)).
           unfold rc in *. lia.
      * intros Hd. rewrite Hhd in Hd. specialize (Hpos Hd). lia.
    + unfold measure. simpl. destruct (p ++ [c]) eqn:Eq; [by destruct p|]. lia.
    + intros o Ho. by rewrite <- app_assoc in Ho.
Qed.

(** The position and the input of a rejection. *)
Lemma reject_segment s0 p c r t0 v :
  loop_inv n mem s0 p (c :: r) extra t0 v → is_byte c →
  next (curr_state v) c = UTF8_REJECT →
  let again := negb (prev_state v =? UTF8_ACCEPT) in
  ∃ u s, p ++ c :: r = u ++ s ∧ maximal_subpart u s ∧ Forall is_byte s
    ∧ (if again then back_up (dst_pos v) (seq_len v) (prev_state v) else dst_pos v) = len t0
    ∧ (if again then uwrap 64 (src_pos v - 1) + 1 else src_pos v + 1) = len s0 + len u
    ∧ (measure s [] < measure (c :: r) p)%nat
    ∧ mem = (s0 ++ u) ++ s ++ extra ∧ u ≠ [] .
Proof.
  intros Hi Hc Hrej again. pose proof (loop_inv_bytes _ _ _ _ _ Hi) as [Hb Hbl]. simpl in Hbl.
  pose proof (back_up_pending _ _ _ _ _ _ _ _ Hi) as Hback.
  destruct Hi. apply Forall_cons in Hb as [_ Hr].
  destruct li_cur0 as [[-> E0]|Hp].
  - assert (again = false) as -> by (unfold again; rewrite li_prev0, E0; done).
    exists [c], r. simpl in *. split_and!; try done; try lia.
    + apply maximal_byte. by rewrite <- E0.
    + unfold measure. simpl. lia.
    + by rewrite <- app_assoc.
  - pose proof (pending_live _ _ Hp) as Hl. apply live_not_final in Hl as [Hl _].
    assert (again = true) as ->.
    { unfold again. rewrite li_prev0. by destruct (Z.eqb_spec (curr_state v) UTF8_ACCEPT). }
    pose proof (pending_len _ _ Hp). pose proof (pending_nonempty _ _ Hp).
    exists p, (c :: r). split_and!; try done.
    + by eapply maximal_cut.
    + by constructor.
    + apply Hback; [done|]. lia.
    + rewrite uwrap_small by lia. lia.
    + unfold measure. destruct p; [done|]. simpl. lia.
    + by rewrite <- app_assoc.
Qed.

Lemma turn_reject s0 p c r t0 v :
  size_ok (has_dst (dst v)) → loop_inv n mem s0 p (c :: r) extra t0 v → is_byte c →
  (has_dst (dst v) = true → dst_pos v < n - 1) →
  next (curr_state v) c = UTF8_REJECT →
  let again := negb (prev_state v =? UTF8_ACCEPT) in
  let pos := if again then back_up (dst_pos v) (seq_len v) (prev_state v) else dst_pos v in
  let nxt := if again then uwrap 64 (src_pos v - 1) + 1 else src_pos v + 1 in
  ∃ x, (if has_dst (dst v) && (uwrap 64 (n - 4) <? pos) then
          d ← store_dst (dst v) pos [0]; Some (inl d)
        else
          d ← store_dst (dst v) pos REPL_SEQ;
          Some (inr (mk_vars d nxt (uwrap 64 (pos + REPL_SEQ_LEN)) UTF8_ACCEPT UTF8_ACCEPT
                       (seq_len v) AST_UTF8_REPLACE_INVALID))) = Some x
    ∧ turn_ok t0 p (c :: r) v x.
Proof.
  intros Hn Hi Hc Hpos Hrej again pos nxt.
  destruct (reject_segment _ _ _ _ _ _ Hi Hc Hrej) as (u & s & E & Hm & Hs & Ep & Ex & Hmeas & Emem & Hu).
  fold again in Ep, Ex. fold pos in Ep. fold nxt in Ex. rewrite Ep, Ex. clearbody again pos nxt. clear Ep Ex.
  destruct Hi. assert (holds n (dst v) t0) as Ht0 by (by eapply holds_prefix, prefix_app_r).
  assert (len s0 + len u <= len mem) as Hsu by (rewrite Emem, !length_app; lia).
  assert (0 < len u) as Hu0 by (destruct u; [done|simpl; lia]).
  destruct (has_dst (dst v)) eqn:Hd; simpl.
  - specialize (Hn eq_refl). specialize (Hpos eq_refl). rewrite uwrap_small by lia.
    destruct (Z.ltb_spec (n - 4) (len t0)).
    + destruct (store_dst_ok n (dst v) t0 [0] Ht0) as (d & Est & Hhd & Hh); [intros _; simpl; lia|].
      rewrite Est. simpl. eexists. split; [done|]. unfold turn_ok. rewrite Hd, E.
      rewrite Hd in Hhd. destruct d as [m|]; [|done]. destruct Hh as [Hl Hh].
      apply outcome_overrun_bad; try done. lia.
    + destruct (store_dst_ok n (dst v) t0 REPL_SEQ Ht0) as (d & Est & Hhd & Hh); [intros _; simpl; lia|].
      rewrite Est. simpl. eexists. split; [done|]. split; [done|].
      exists (s0 ++ u), [], s, (t0 ++ REPL_SEQ). unfold REPL_SEQ_LEN. rewrite uwrap_small by lia.
      split_and!; [|done|].
      * split; cbn [src_pos dst_pos prev_state curr_state seq_len dst res];
          rewrite ?length_app; try done; try (simpl; lia); [by left|by rewrite app_nil_r].
      * intros o Ho. rewrite Hd, E in *. by apply outcome_bad.
  - destruct (store_dst_ok n (dst v) t0 REPL_SEQ Ht0) as (d & Est & Hhd & Hh); [congruence|].
    rewrite Est. simpl. eexists. split; [done|]. split; [done|].
    exists (s0 ++ u), [], s, (t0 ++ REPL_SEQ). unfold REPL_SEQ_LEN. rewrite uwrap_small by lia.
    split_and!; [|done|].
    + split; cbn [src_pos dst_pos prev_state curr_state seq_len dst res];
        rewrite ?length_app; try done; try (simpl; lia);
        [by left|by rewrite app_nil_r|rewrite Hhd, Hd; done].
    + intros o Ho. rewrite Hd, E in *. by apply outcome_bad.
Qed.

Lemma replace_body_correct s0 p c r t0 v :
  size_ok (has_dst (dst v)) → loop_inv n mem s0 p (c :: r) extra t0 v →
  ∃ x, replace_body n mem v = Some x ∧ turn_ok t0 p (c :: r) v x.
Proof.
  intros Hn Hi. pose proof (loop_inv_bytes _ _ _ _ _ Hi) as [[Hc Hb]%Forall_cons _].
  unfold replace_body.
  assert (load mem (src_pos v) = Some c) as ->.
  { destruct Hi. rewrite li_mem0, li_src0, app_assoc, <- Nat2Z.inj_add, <- length_app.
    apply load_mid. }
  simpl. rewrite decode_next by (done || eapply current_ok, li_cur; done). simpl.
  assert (0 <= dst_pos v) by (destruct Hi; lia).
  destruct (has_dst (dst v) && (uwrap 64 (n - 1) <=? dst_pos v)) eqn:Hfull.
  { apply andb_prop in Hfull as [Hd Hfull]. specialize (Hn Hd) as Hn'.
    rewrite uwrap_small in Hfull by lia. apply Z.leb_le in Hfull.
    destruct (turn_overrun _ _ _ _ _ _ Hn Hi Hd Hfull) as (d & -> & Hok). by exists (inl d). }
  assert (has_dst (dst v) = true → dst_pos v < n - 1) as Hpos.
  { intros Hd. rewrite Hd in Hfull. simpl in Hfull. specialize (Hn Hd) as Hn'.
    rewrite uwrap_small in Hfull by lia. apply Z.leb_gt in Hfull. lia. }
  set (rc := next (curr_state v) c).
  destruct (proj1 (state_ok_cases _) (next_ok (curr_state v) c)) as [E|[E|E]].
  - destruct (turn_write _ _ _ _ _ _ Hn Hi Hc Hpos) as (d & -> & Hok & _); [by rewrite E|].
    unfold rc. rewrite E in *. simpl. eauto.
  - unfold rc. rewrite E. simpl. by eapply turn_reject.
  - destruct (live_not_final _ E) as [? ?].
    destruct (turn_write _ _ _ _ _ _ Hn Hi Hc Hpos) as (d & -> & _ & Hok); [done|].
    fold rc in E, Hok. rewrite live_cases in E.
    destruct (Z.eqb_spec rc UTF8_ACCEPT); [done|].
    destruct (Z.ltb_spec UTF8_REJECT rc); [|unfold UTF8_REJECT in *; lia]. simpl.
    rewrite <- live_cases in E. eauto.
Qed.

(** ** The end of the input *)

Definition wind_up (r : option (list Z) + replace_vars) : option (Z * option (list Z) * Z) :=
  match r with
  | inl d => Some (AST_UTF8_REPLACE_OVERRUN, d, n)
  | inr v => replace_end n v
  end.

(** The terminator, or the size. *)
Lemma outcome_finish has d t0 code m :
  has_dst d = has → holds n d t0 → (has = true → len t0 < n) → len t0 + 1 < 2 ^ 64 →
  d = m →
  ∃ o, match m with
       | Some m => m ← store m (len t0) [0]; Some (code, Some m, n)
       | None => Some (code, None, uwrap 64 (len t0 + 1))
       end = Some o ∧ outcome n has t0 [] code o.
Proof.
  intros Hd Hh Hroom Hlim <-. destruct d as [m|]; simpl in Hd; subst has.
  - destruct Hh as [Hl Hp]. specialize (Hroom eq_refl).
    destruct (store_prefix m t0 [0] Hp) as (y & -> & Hy & _); [simpl; lia|].
    simpl. eexists. split; [done|]. exists [], 0%nat. split; [constructor|].
    exists (t0 ++ 0 :: y). split; [simpl in Hy; by rewrite Hy|]. left. split_and!; [simpl; lia|done|].
    simpl. rewrite (cons_middle 0 t0 y), app_assoc. by apply prefix_app_r.
  - eexists. split; [done|]. exists [], 0%nat. split; [constructor|].
    rewrite uwrap_small by lia. simpl. do 2 f_equal. lia.
Qed.

Lemma replace_end_correct s0 p t0 v :
  size_ok (has_dst (dst v)) → loop_inv n mem s0 p [] extra t0 v →
  ∃ o, replace_end n v = Some o ∧ outcome n (has_dst (dst v)) t0 p (res v) o.
Proof.
  intros Hn Hi. pose proof (loop_inv_bytes _ _ _ _ _ Hi) as [_ Hbl].
  pose proof (back_up_pending _ _ _ _ _ _ _ _ Hi) as Hback.
  destruct Hi. unfold replace_end. destruct li_cur0 as [[-> E0]|Hp].
  - rewrite E0, li_dst0. simpl. rewrite Z.add_0_r in *. rewrite app_nil_r in *.
    eapply outcome_finish; try done. lia.
  - pose proof (pending_live _ _ Hp) as Hl. apply live_not_final in Hl as [Hl _].
    pose proof (pending_len _ _ Hp). pose proof (pending_nonempty _ _ Hp) as Hne.
    destruct (Z.eqb_spec (curr_state v) UTF8_ACCEPT); [done|]. simpl.
    rewrite Hback by (done || lia).
    assert (holds n (dst v) t0) as Ht0 by (by eapply holds_prefix, prefix_app_r).
    assert (∀ o, outcome n (has_dst (dst v)) (t0 ++ REPL_SEQ) [] AST_UTF8_REPLACE_INVALID o →
                 outcome n (has_dst (dst v)) t0 p (res v) o) as Hbad.
    { intros o Ho. rewrite <- (app_nil_r p). eapply outcome_bad; [by eapply maximal_end|done]. }
    destruct (has_dst (dst v)) eqn:Hd; simpl.
    + specialize (Hn eq_refl). specialize (li_room0 eq_refl). rewrite uwrap_small by lia.
      destruct (Z.ltb_spec (n - 4) (len t0)).
      * destruct (store_dst_ok n (dst v) t0 [0] Ht0) as (d & Est & Hhd & Hh); [intros _; simpl; lia|].
        rewrite Est. simpl. eexists. split; [done|]. rewrite Hd in Hhd.
        destruct d as [m|]; [|done]. destruct Hh as [Hlm Hh]. rewrite <- (app_nil_r p).
        apply outcome_overrun_bad; try done; [by eapply maximal_end|lia].
      * destruct (store_dst_ok n (dst v) t0 REPL_SEQ Ht0) as (d & Est & Hhd & Hh); [intros _; simpl; lia|].
        rewrite Est. simpl. unfold REPL_SEQ_LEN. rewrite uwrap_small by lia.
        destruct (outcome_finish true d (t0 ++ REPL_SEQ) AST_UTF8_INVALID d) as (o & Eo & Ho);
          [by rewrite Hhd|done|rewrite length_app; simpl; lia|rewrite length_app; simpl; lia|done|].
        rewrite length_app, Nat2Z.inj_add in Eo. exists o. split; [exact Eo|]. by apply Hbad.
    + destruct (store_dst_ok n (dst v) t0 REPL_SEQ Ht0) as (d & Est & Hhd & Hh); [congruence|].
      rewrite Est. simpl. unfold REPL_SEQ_LEN. rewrite uwrap_small by lia.
      destruct (outcome_finish false d (t0 ++ REPL_SEQ) AST_UTF8_INVALID d) as (o & Eo & Ho);
        [by rewrite Hhd|done|done|rewrite length_app; simpl; lia|done|].
      rewrite length_app, Nat2Z.inj_add in Eo. exists o. split; [exact Eo|]. by apply Hbad.
Qed.

Lemma replace_loop_correct fuel s0 p rest t0 v :
  size_ok (has_dst (dst v)) → loop_inv n mem s0 p rest extra t0 v →
  (measure rest p <= fuel)%nat →
  ∃ o, (r ← replace_loop fuel n mem (len mem - len extra) v; wind_up r) = Some o
    ∧ outcome n (has_dst (dst v)) t0 (p ++ rest) (res v) o.
Proof.
  revert s0 p rest t0 v. induction fuel as [|fuel IH]; intros s0 p rest t0 v Hn Hi Hf.
  - assert (rest = []) as -> by (destruct rest; [done|unfold measure in Hf; simpl in Hf; lia]).
    rewrite app_nil_r. simpl. destruct (Z.ltb_spec (src_pos v) (len mem - len extra)) as [Hlt|_].
    + destruct Hi. rewrite li_mem0, !length_app in Hlt. simpl in Hlt. lia.
    + by eapply replace_end_correct.
  - simpl. destruct rest as [|c r].
    + rewrite app_nil_r. destruct (Z.ltb_spec (src_pos v) (len mem - len extra)) as [Hlt|_].
      * destruct Hi. rewrite li_mem0, !length_app in Hlt. simpl in Hlt. lia.
      * by eapply replace_end_correct.
    + destruct (Z.ltb_spec (src_pos v) (len mem - len extra)) as [_|Hge].
      2: { destruct Hi. rewrite li_mem0, !length_app in Hge. simpl in Hge. lia. }
      destruct (replace_body_correct _ _ _ _ _ _ Hn Hi) as (x & -> & Hx). simpl.
      destruct x as [d|v']; simpl in Hx; [by eexists|].
      destruct Hx as (Hd & s0' & p' & rest' & t0' & Hi' & Hm & Ho).
      destruct (IH s0' p' rest' t0' v') as (o & Eo & Ho'); [by rewrite Hd|done|lia|].
      exists o. split; [done|]. apply Ho. by rewrite <- Hd.
Qed.

End Loop.
End Replacing.

Module Properties.
Import Model Spec Automaton Strings Replacing.

(** Both validity tests return on every readable string, and say yes
    exactly when the bytes up to the terminator (or to the given size) are the
    RFC 3629 encoding of a sequence of Unicode scalar values; in particular
    overlong forms, surrogates and values above U+10FFFF are refused. *)
Theorem ast_utf8_is_valid_correct (mem : list Z) (size : nat) :
  Forall is_byte mem →
  (0 ∈ mem →
     ∃ b, ast_utf8_is_valid mem = Some b ∧ (b = true ↔ utf8 (until_nul mem)))
  ∧ (0 ∈ mem ∨ (size <= length mem)%nat →
     ∃ b, ast_utf8_is_validn mem size = Some b ∧ (b = true ↔ utf8 (until_nul (take size mem)))).
Proof.
  intros Hb. assert (state_ok UTF8_ACCEPT) as Hs by (apply state_ok_cases; by left).
  split; intros H0; eexists.
  - unfold ast_utf8_is_valid. rewrite is_valid_loop_run by done. split; [done|].
    rewrite <- run_utf8 by by apply until_nul_bytes. apply Z.eqb_eq.
  - unfold ast_utf8_is_validn. rewrite is_validn_loop_run by done. split; [done|].
    rewrite <- run_utf8 by by apply until_nul_bytes, Forall_take. apply Z.eqb_eq.
Qed.

Lemma ast_utf8_is_valid_correct_witness :
  (∃ b, ast_utf8_is_valid [240; 159; 147; 158; 0] = Some b
        ∧ (b = true ↔ utf8 [240; 159; 147; 158]))
  ∧ ast_utf8_is_valid [240; 159; 147; 158; 0] = Some true
  ∧ ast_utf8_is_valid [237; 160; 128; 0] = Some false.
Proof.
  split; [|split; reflexivity].
  refine (proj1 (ast_utf8_is_valid_correct [240; 159; 147; 158; 0] 0 _) _).
  - repeat (apply Forall_cons; split; [split; [discriminate|reflexivity]|]). constructor.
  - do 4 right. left.
Defined.

(** [ast_utf8_copy_string] never leaves the [size] bytes of its
    destination and leaves there, terminated, the longest prefix of the source
    that is UTF-8 and shorter than [size]: characters are kept whole, and what
    follows an ill-formed sequence is dropped. *)
Theorem ast_utf8_copy_string_correct (dst src : list Z) (size : nat) :
  Forall is_byte src → 0 ∈ src ∨ (size <= length src)%nat →
  (0 < size <= length dst)%nat →
  ∃ dst' t, ast_utf8_copy_string dst src size = Some dst'
    ∧ length dst' = length dst ∧ drop size dst' = drop size dst
    ∧ t ++ [0] `prefix_of` dst' ∧ longest_utf8 (until_nul src) t size.
Proof.
  intros Hb H0 Hsz.
  destruct (copy_loop_correct src [] [] dst size) as (d & g & E & Hl & Hg & Hlen & Hdrop);
    try done.
  - simpl. lia.
  - apply prefix_nil.
  - split_and!; [apply utf8_nil|done|simpl; lia|done].
  - simpl in *. destruct Hl as (? & ? & Hgl & ?).
    destruct (store_prefix d g [0] Hg) as (y & Est & Hy & Hd); [simpl; lia|].
    exists (g ++ [0] ++ y), g. unfold ast_utf8_copy_string, UTF8_ACCEPT.
    change (Z.of_nat 0) with 0 in E. rewrite E. simpl in *.
    split_and!; [done|lia| | |done].
    + rewrite Hd by lia. done.
    + rewrite (cons_middle 0 g y), app_assoc. by apply prefix_app_r.
Qed.

Lemma ast_utf8_copy_string_correct_witness :
  (∃ dst' t, ast_utf8_copy_string [7; 7; 7; 7; 7] [97; 226; 130; 172; 0] 4 = Some dst'
     ∧ length dst' = 5%nat ∧ drop 4 dst' = [7]
     ∧ t ++ [0] `prefix_of` dst' ∧ longest_utf8 [97; 226; 130; 172] t 4)
  ∧ ast_utf8_copy_string [7; 7; 7; 7; 7] [97; 226; 130; 172; 0] 4 = Some [97; 0; 130; 172; 7].
Proof.
  split; [|reflexivity].
  refine (ast_utf8_copy_string_correct [7; 7; 7; 7; 7] [97; 226; 130; 172; 0] 4 _ _ _).
  - repeat (apply Forall_cons; split; [split; [discriminate|reflexivity]|]). constructor.
  - left. do 4 right. left.
  - simpl. lia.
Defined.

(** After any sequence of feeds and resets the incremental validator has
    a verdict on the bytes consumed since the last reset: VALID when they are
    UTF-8, INVALID when no continuation of them is, UNKNOWN when they are not
    but some continuation is. *)
Theorem ast_utf8_validator_correct (fs : list feed) :
  Forall feed_ok fs →
  let w := foldl consumed [] fs in
  ∃ state, ast_utf8_validator_new true ≫= (λ s, feed_run s fs) = Some state
    ∧ let v := ast_utf8_validator_state state in
      (v = AST_UTF8_VALID ↔ utf8 w)
      ∧ (v = AST_UTF8_INVALID ↔ ∀ x, ¬ utf8 (w ++ x))
      ∧ (v = AST_UTF8_UNKNOWN ↔ ¬ utf8 w ∧ ∃ x, utf8 (w ++ x)).
Proof.
  intros Hf w. destruct (feed_run_correct fs [] Hf) as [E Hb]; [done|].
  exists (run 0 w). split; [exact E|]. by apply validator_state_correct.
Qed.

Lemma ast_utf8_validator_correct_witness :
  ∃ state, ast_utf8_validator_new true
      ≫= (λ s, feed_run s [Feed [255; 0]; Reset; Feedn [226; 130; 172] 2]) = Some state
    ∧ let v := ast_utf8_validator_state state in
      (v = AST_UTF8_VALID ↔ utf8 [226; 130])
      ∧ (v = AST_UTF8_INVALID ↔ ∀ x, ¬ utf8 ([226; 130] ++ x))
      ∧ (v = AST_UTF8_UNKNOWN ↔ ¬ utf8 [226; 130] ∧ ∃ x, utf8 ([226; 130] ++ x)).
Proof.
  refine (ast_utf8_validator_correct [Feed [255; 0]; Reset; Feedn [226; 130; 172] 2] _).
  apply Forall_cons. split.
  { split; [repeat (apply Forall_cons; split; [split; [discriminate|reflexivity]|]); constructor|].
    right. left. }
  apply Forall_cons. split; [exact I|]. apply Forall_cons. split; [|constructor].
  split; [repeat (apply Forall_cons; split; [split; [discriminate|reflexivity]|]); constructor|].
  right. simpl. lia.
Defined.

(** C35: for every non-empty source, with [t] its repair (every maximal
    ill-formed subpart replaced by U+FFFD, everything else kept, so UTF-8):
    called without a destination [ast_utf8_replace_invalid_chars] reports the
    size of [t] and its terminator; called with a buffer of one byte or of at
    least four it terminates, stays within the buffer, writes exactly [t] when
    it fits, and otherwise returns OVERRUN and writes the repair of an initial
    part of the source. *)
Theorem ast_utf8_replace_invalid_chars_correct (src extra m : list Z) (n0 : Z) :
  Forall is_byte (src ++ extra) → len (src ++ extra) < 2 ^ 61 → src ≠ [] →
  len m = 1 ∨ 4 <= len m < 2 ^ 64 →
  ∃ t k, repaired src t k ∧ utf8 t
    ∧ let code := if (k =? 0)%nat then AST_UTF8_REPLACE_VALID else AST_UTF8_REPLACE_INVALID in
      ast_utf8_replace_invalid_chars None n0 (Some (src ++ extra)) (len src)
      = Some (code, None, len t + 1)
    ∧ ∃ m', len m' = len m ∧
      ((len t < len m
        ∧ ast_utf8_replace_invalid_chars (Some m) (len m) (Some (src ++ extra)) (len src)
          = Some (code, Some m', len m)
        ∧ t ++ [0] `prefix_of` m')
       ∨ (len m <= len t
          ∧ ast_utf8_replace_invalid_chars (Some m) (len m) (Some (src ++ extra)) (len src)
            = Some (AST_UTF8_REPLACE_OVERRUN, Some m', len m)
          ∧ ∃ a b t1 k1, src = a ++ b ∧ repaired a t1 k1 ∧ t1 ++ [0] `prefix_of` m')).
Proof.
  intros Hb Hl Hne Hm.
  assert (∀ d n, holds n d [] → (has_dst d = true → 0 < n) → size_ok n (has_dst d) →
    ∃ o, (r ← replace_loop (2 * Z.to_nat (len src)) n (src ++ extra) (len src)
            (mk_vars d 0 0 0 0 0 AST_UTF8_REPLACE_VALID); wind_up n r) = Some o
         ∧ outcome n (has_dst d) [] src AST_UTF8_REPLACE_VALID o) as Hrun.
  { intros d n Hh Hpos Hn.
    assert (len (src ++ extra) - len extra = len src) as Es by (rewrite length_app; lia).
    destruct (replace_loop_correct n (src ++ extra) extra Hb Hl (2 * Z.to_nat (len src)) [] [] src []
                (mk_vars d 0 0 0 0 0 AST_UTF8_REPLACE_VALID)) as (o & E & Ho);
      [done| |unfold measure; lia|rewrite Es in E; by exists o].
    split; try done. by left. }
  assert (len src ≠ 0) as H0 by (destruct src; simpl; [done|lia]).
  destruct (Hrun None 0) as (o1 & E1 & t & k & Ht & ->); [done..|].
  exists t, k. split; [done|]. split; [by eapply repaired_utf8|].
  unfold ast_utf8_replace_invalid_chars. simpl. destruct (Z.eqb_spec (len src) 0); [done|].
  split; [exact E1|].
  destruct (store_prefix m [] (replicate (length m) 0)) as (y & Est & Hy & _);
    [apply prefix_nil|rewrite length_replicate; simpl; lia|].
  simpl in Est. change (Z.of_nat 0) with 0 in Est. rewrite (Nat2Z.id (length m)), Est. simpl.
  destruct (Hrun (Some (replicate (length m) 0 ++ y)) (len m)) as (o2 & E2 & t' & k' & Ht' & m' & Hm' & Ho).
  { split; [f_equal; exact Hy|apply prefix_nil]. }
  { lia. }
  { intros _. exact Hm. }
  destruct (repaired_functional _ _ _ _ _ Ht Ht') as [<- <-].
  exists m'. split; [done|].
  destruct Ho as [(? & -> & ?)|(? & -> & ?)]; [left|right]; done.
Qed.

Lemma ast_utf8_replace_invalid_chars_correct_witness :
  (∃ t k, repaired [97; 226; 130; 98] t k ∧ utf8 t
    ∧ let code := if (k =? 0)%nat then AST_UTF8_REPLACE_VALID else AST_UTF8_REPLACE_INVALID in
      ast_utf8_replace_invalid_chars None 0 (Some ([97; 226; 130; 98] ++ [0])) 4
      = Some (code, None, len t + 1)
    ∧ ∃ m', len m' = 5 ∧
      ((len t < 5
        ∧ ast_utf8_replace_invalid_chars (Some [7; 7; 7; 7; 7]) 5
            (Some ([97; 226; 130; 98] ++ [0])) 4 = Some (code, Some m', 5)
        ∧ t ++ [0] `prefix_of` m')
       ∨ (5 <= len t
          ∧ ast_utf8_replace_invalid_chars (Some [7; 7; 7; 7; 7]) 5
              (Some ([97; 226; 130; 98] ++ [0])) 4 = Some (AST_UTF8_REPLACE_OVERRUN, Some m', 5)
          ∧ ∃ a b t1 k1, [97; 226; 130; 98] = a ++ b ∧ repaired a t1 k1 ∧ t1 ++ [0] `prefix_of` m')))
  ∧ ast_utf8_replace_invalid_chars None 0 (Some [97; 226; 130; 98; 0]) 4 = Some (1, None, 6)
  ∧ ast_utf8_replace_invalid_chars (Some [7; 7; 7; 7; 7; 7]) 6 (Some [97; 226; 130; 98; 0]) 4
    = Some (1, Some [97; 239; 191; 189; 98; 0], 6).
Proof.
  split; [|split; reflexivity].
  refine (ast_utf8_replace_invalid_chars_correct [97; 226; 130; 98] [0] [7; 7; 7; 7; 7] 0 _ _ _ _).
  - repeat (apply Forall_cons; split; [split; [discriminate|reflexivity]|]). constructor.
  - reflexivity.
  - discriminate.
  - simpl. lia.
Defined.

Lemma replace_loop_turn fuel n src src_len v :
  src_pos v < src_len →
  replace_loop (S fuel) n src src_len v
  = (r ← replace_body n src v;
     match r with inl d => Some (inl d) | inr v => replace_loop fuel n src src_len v end).
Proof. intros H. simpl. by destruct (Z.ltb_spec (src_pos v) src_len); [|lia]. Qed.

(** An ill-formed first byte, in a buffer too small for the test for room. *)
Lemma first_turn_reject n b r m code :
  decode UTF8_ACCEPT b = Some UTF8_REJECT → n = 2 ∨ n = 3 →
  replace_body n (b :: r) (mk_vars (Some m) 0 0 0 0 0 code)
  = (d ← store_dst (Some m) 0 REPL_SEQ; Some (inr (mk_vars d 1 3 0 0 0 AST_UTF8_REPLACE_INVALID))).
Proof.
  intros Hrej Hn. unfold replace_body. cbn [src_pos curr_state].
  change (load (b :: r) 0) with (Some b). cbn [mbind option_bind].
  change UTF8_ACCEPT with 0 in Hrej. rewrite Hrej. by destruct Hn as [->| ->].
Qed.

(** With a buffer of two or three bytes the test for room
    [dst_pos > *dst_size - 4] wraps around, so the replacement of an ill-formed
    first byte, or the terminator after it, is written past the buffer. *)
Theorem ast_utf8_replace_small_buffer_overflow (b : Z) (r m : list Z) :
  Forall is_byte (b :: r) → decode UTF8_ACCEPT b = Some UTF8_REJECT → len m = 2 ∨ len m = 3 →
  ast_utf8_replace_invalid_chars (Some m) (len m) (Some (b :: r)) (len (b :: r)) = None.
Proof.
  intros Hb Hrej Hm. unfold ast_utf8_replace_invalid_chars.
  destruct (store_prefix m [] (replicate (length m) 0)) as (y & Est & Hy & _);
    [apply prefix_nil|rewrite length_replicate; simpl; lia|].
  simpl in Est. change (Z.of_nat 0) with 0 in Est. rewrite (Nat2Z.id (length m)), Est. clear Est. cbn [mbind option_bind].
  set (m0 := replicate (length m) 0 ++ y) in *. assert (len m0 = len m) as Hm0 by (f_equal; exact Hy).
  clearbody m0. destruct (Z.eqb_spec (len (b :: r)) 0); [simpl in *; lia|].
  replace (2 * Z.to_nat (len (b :: r)))%nat with (S (S (2 * length r))) by (simpl; lia).
  destruct Hm as [Hm|Hm]; rewrite Hm in *.
  - destruct m0 as [|x1 [|x2 [|x3 m0]]]; simpl in Hm0; try lia.
    rewrite replace_loop_turn by (simpl; lia). rewrite (first_turn_reject 2 b r) by auto. reflexivity.
  - destruct m0 as [|x1 [|x2 [|x3 [|x4 m0]]]]; simpl in Hm0; try lia.
    rewrite replace_loop_turn by (simpl; lia). rewrite (first_turn_reject 3 b r) by auto.
    cbn [mbind option_bind store_dst]. change (store [x1; x2; x3] 0 REPL_SEQ) with (Some REPL_SEQ).
    cbn [mbind option_bind]. destruct r as [|c r]; [reflexivity|].
    rewrite replace_loop_turn by (simpl; lia).
    apply Forall_cons in Hb as [_ [Hc _]%Forall_cons].
    unfold replace_body. cbn [src_pos curr_state].
    change (load (b :: c :: r) 1) with (Some c). cbn [mbind option_bind].
    rewrite decode_next by (done || (apply state_ok_cases; by left)). reflexivity.
Qed.

Lemma ast_utf8_replace_small_buffer_overflow_witness :
  ast_utf8_replace_invalid_chars (Some [7; 7]) 2 (Some [255; 97]) 2 = None
  ∧ ast_utf8_replace_invalid_chars (Some [7; 7; 7; 7]) 4 (Some [255]) 1
    = Some (1, Some [239; 191; 189; 0], 4).
Proof.
  split; [|reflexivity].
  refine (ast_utf8_replace_small_buffer_overflow 255 [97] [7; 7] _ _ _).
  - repeat (apply Forall_cons; split; [split; [discriminate|reflexivity]|]). constructor.
  - reflexivity.
  - simpl. lia.
Defined.

End Properties.
