(* ===== verification/SlinFactory.v ===== *)
(** * The signed linear factory ([main/slinfactory.c])

    A factory turns the audio frames fed to it, translated to signed linear
    when needed, into a stream of samples that is read in pieces of any size:
    a queue of frames, and a hold of at most 1280 samples for the rest of a
    frame that was read in part.

    - [Model]: every operation.  A frame is its header's address, whether that
      header is a heap block ([ast_frisolate] then returns the frame itself,
      with the frames chained to it, and a new frame otherwise), its samples
      and its format.  The outcomes of the translation core
      ([ast_translator_build_path], [ast_translate]) and of the allocations are
      arguments.  The log lists, in order, the frames and translation paths
      obtained and freed.
    - [Stream]: the samples a factory holds, and what reading does to them.
    - [Runs]: any sequence of operations, against a queue of samples.
    - [Properties]: the theorems. *)

From stdpp Require Import base numbers list.
From Stdlib Require Import ZArith Lia.
From S2P Require Import Prelude.

Module Model.

Definition AST_SLINFACTORY_MAX_HOLD : Z := 1280.

Record ast_frame := mk_frame {
  fr_id : Z;
  fr_hdr : bool;
  fr_data : option (list Z);
  fr_samples : Z;
  fr_format : Z;
}.

(** A frame is known by the address of its header. *)
Inductive resource :=
| Frame (id : Z)
| Path (path : Z).

Inductive effect :=
| Got (r : resource)
| Free (r : resource).

Record ast_slinfactory := mk_factory {
  queue : list ast_frame;
  trans : option Z;
  hold : list Z;
  offset : Z;
  holdlen : Z;
  size : Z;
  format : option Z;
  output_format : option Z;
}.

Definition upd_queue (q : list ast_frame) sf :=
  mk_factory q (trans sf) (hold sf) (offset sf) (holdlen sf) (size sf) (format sf) (output_format sf).
Definition upd_trans (t : option Z) sf :=
  mk_factory (queue sf) t (hold sf) (offset sf) (holdlen sf) (size sf) (format sf) (output_format sf).
Definition upd_hold (h : list Z) (off len : Z) sf :=
  mk_factory (queue sf) (trans sf) h off len (size sf) (format sf) (output_format sf).
Definition upd_size (n : Z) sf :=
  mk_factory (queue sf) (trans sf) (hold sf) (offset sf) (holdlen sf) n (format sf) (output_format sf).
Definition upd_format (f : option Z) sf :=
  mk_factory (queue sf) (trans sf) (hold sf) (offset sf) (holdlen sf) (size sf) f (output_format sf).

(** [memset] and [sf->offset = sf->hold]. *)
Definition zeroed (out : option Z) : ast_slinfactory :=
  mk_factory [] None (replicate (Z.to_nat AST_SLINFACTORY_MAX_HOLD) 0) 0 0 0 None out.

Section Formats.
(** The format cache and [ast_format_cmp] of the format core. *)
Context (ast_format_slin : Z) (ast_format_cache_is_slinear : Z → bool)
  (format_equal : Z → Z → bool).

Definition ast_slinfactory_init : ast_slinfactory := zeroed (Some ast_format_slin).

Definition ast_slinfactory_init_with_format (slin_out : Z) : Z * ast_slinfactory :=
  if negb (ast_format_cache_is_slinear slin_out) then (-1, zeroed None)
  else (0, zeroed (Some slin_out)).

(** [ast_format_cmp(a, b) == AST_FORMAT_CMP_NOT_EQUAL]; a null format differs
    from every other. *)
Definition not_equal (a : Z) (b : option Z) : bool :=
  match b with Some b => negb (format_equal a b) | None => true end.

(** [if (sf->trans) { ast_translator_free_path(sf->trans); sf->trans = NULL; }] *)
Definition free_trans sf : list effect * ast_slinfactory :=
  match trans sf with
  | Some p => ([Free (Path p)], upd_trans None sf)
  | None => ([], sf)
  end.

Definition free_frames (fs : list ast_frame) : list effect := (λ f, Free (Frame (fr_id f))) <$> fs.
Definition got_frames (fs : list ast_frame) : list effect := (λ f, Got (Frame (fr_id f))) <$> fs.

Definition ast_slinfactory_destroy sf : list effect * ast_slinfactory :=
  let '(log, sf) := free_trans sf in
  (log ++ free_frames (queue sf),
   mk_factory [] (trans sf) (hold sf) (offset sf) (holdlen sf) (size sf) None None).

(** A copy of a frame under a new header. *)
Definition with_header (id : Z) (f : ast_frame) : ast_frame :=
  mk_frame id true (fr_data f) (fr_samples f) (fr_format f).

(** [ast_frisolate] of the first frame of a chain; [iso] is its outcome, a null
    pointer or the address of the header it allocates when it needs one. *)
Definition isolate (iso : option Z) (h : ast_frame) (rest : list ast_frame) :
    option (list ast_frame) :=
  match iso with
  | None => None
  | Some a => Some (if fr_hdr h then h :: rest else [with_header a h])
  end.

(** The outcomes of the calls of one feed. *)
Record feed_env := mk_feed_env {
  build_path : option Z;
  translate : option (ast_frame * list ast_frame);
  iso : option Z;
  dup : option Z;
}.

(** Insertion of the frames of a chain, and the count of their samples. *)
Fixpoint enqueue (fs : list ast_frame) sf : ast_slinfactory :=
  match fs with
  | [] => sf
  | f :: fs => enqueue fs (upd_size (u32 (size sf + fr_samples f)) (upd_queue (queue sf ++ [f]) sf))
  end.

Definition has_path sf : bool := match trans sf with Some _ => true | None => false end.

(** Translation: the frames to queue, or [None] when the feed ends early. *)
Definition feed_translate (env : feed_env) (f : ast_frame) sf :
    option (list ast_frame) * list effect * ast_slinfactory :=
  let '(log1, sf) :=
    if has_path sf && not_equal (fr_format f) (format sf)
    then free_trans sf else ([], sf) in
  let built :=
    match trans sf with
    | Some _ => Some ([], sf)
    | None =>
        match build_path env with
        | None => None
        | Some p => Some ([Got (Path p)], upd_format (Some (fr_format f)) (upd_trans (Some p) sf))
        end
    end in
  match built with
  | None => (None, log1, sf)
  | Some (log2, sf) =>
      match translate env with
      | None => (None, log1 ++ log2, sf)
      | Some (h, rest) =>
          let log := log1 ++ log2 ++ got_frames (h :: rest) in
          match isolate (iso env) h rest with
          | None => (None, log, sf)
          | Some fs =>
              (Some fs, log ++ (if fr_hdr h then [] else got_frames fs ++ free_frames (h :: rest)), sf)
          end
      end
  end.

Definition feed_copy (env : feed_env) (f : ast_frame) sf :
    option (list ast_frame) * list effect * ast_slinfactory :=
  let '(log, sf) := free_trans sf in
  match dup env with
  | None => (None, log, sf)
  | Some a => (Some [with_header a f], log ++ got_frames [with_header a f], sf)
  end.

Definition ast_slinfactory_feed (env : feed_env) (f : ast_frame) sf :
    Z * list effect * ast_slinfactory :=
  match fr_data f with
  | None => (0, [], sf)
  | Some _ =>
      let '(fs, log, sf) :=
        if not_equal (fr_format f) (output_format sf)
        then feed_translate env f sf else feed_copy env f sf in
      match fs with
      | None => (0, log, sf)
      | Some fs => (Z.of_nat (length (queue sf)), log, enqueue fs sf)
      end
  end.

(** The loop of [ast_slinfactory_read]: [buf] is the caller's buffer, [off] the
    position of [offset] in it. *)
Fixpoint read_loop (fuel : nat) (samples : Z) (buf : list Z) (off sofar : Z)
    (log : list effect) sf : option (list Z * Z * list effect * ast_slinfactory) :=
  if sofar <? samples then
    match fuel with
    | O => None
    | S fuel =>
        let ineed := u32 (samples - sofar) in
        if negb (holdlen sf =? 0) then
          if holdlen sf <=? ineed then
            d ← load_n (hold sf) (offset sf) (holdlen sf);
            buf ← store buf off d;
            read_loop fuel samples buf (off + holdlen sf) (u32 (sofar + holdlen sf)) log
              (upd_hold (hold sf) 0 0 sf)
          else
            d ← load_n (hold sf) (offset sf) ineed;
            buf ← store buf off d;
            read_loop fuel samples buf off (u32 (sofar + ineed)) log
              (upd_hold (hold sf) (offset sf + ineed) (holdlen sf - ineed) sf)
        else
          match queue sf with
          | [] => Some (buf, sofar, log, sf)
          | f :: q =>
              frame_data ← fr_data f;
              let sf := upd_queue q sf in
              if u32 (fr_samples f) <=? ineed then
                d ← load_n frame_data 0 (fr_samples f);
                buf ← store buf off d;
                read_loop fuel samples buf (off + fr_samples f) (u32 (sofar + fr_samples f))
                  (log ++ [Free (Frame (fr_id f))]) sf
              else
                let remain := u32 (fr_samples f - ineed) in
                d ← load_n frame_data 0 ineed;
                buf ← store buf off d;
                let remain :=
                  if AST_SLINFACTORY_MAX_HOLD - holdlen sf <? remain
                  then AST_SLINFACTORY_MAX_HOLD - holdlen sf else remain in
                d ← load_n frame_data ineed remain;
                h ← store (hold sf) 0 d;
                read_loop fuel samples buf off (u32 (sofar + ineed))
                  (log ++ [Free (Frame (fr_id f))]) (upd_hold h (offset sf) remain sf)
          end
    end
  else Some (buf, sofar, log, sf).

(** A turn on the hold and a turn on each frame, at most. *)
Definition read_fuel sf : nat := (2 * length (queue sf) + 2)%nat.

Definition ast_slinfactory_read (buf : list Z) (samples : Z) sf :
    option (list Z * Z * list effect * ast_slinfactory) :=
  '(buf, sofar, log, sf) ← read_loop (read_fuel sf) samples buf 0 0 [] sf;
  Some (buf, sofar, log, upd_size (u32 (size sf - sofar)) sf).

Definition ast_slinfactory_available sf : Z := size sf.

Definition ast_slinfactory_flush sf : list effect * ast_slinfactory :=
  let '(log, sf) := free_trans sf in
  (log ++ free_frames (queue sf), upd_size 0 (upd_hold (hold sf) 0 0 (upd_queue [] sf))).

End Formats.
End Model.

Module Stream.
Import Model.

Abbreviation len l := (Z.of_nat (length l)).

(** The samples of a frame. *)
Definition samples_of (f : ast_frame) : list Z :=
  take (Z.to_nat (fr_samples f)) (default [] (fr_data f)).

Definition good_frame (f : ast_frame) : Prop :=
  ∃ d, fr_data f = Some d ∧ 0 <= fr_samples f <= len d ∧ fr_samples f < 2 ^ 31.

(** A frame whose rest always fits the hold. *)
Definition small (f : ast_frame) : Prop := fr_samples f <= AST_SLINFACTORY_MAX_HOLD.

Definition held sf : list Z := take (Z.to_nat (holdlen sf)) (drop (Z.to_nat (offset sf)) (hold sf)).

Definition queued (q : list ast_frame) : list Z := concat (samples_of <$> q).

(** The samples a factory holds, in the order they are read. *)
Definition contents sf : list Z := held sf ++ queued (queue sf).

Record wf sf : Prop := {
  wf_hold : len (hold sf) = AST_SLINFACTORY_MAX_HOLD;
  wf_offset : 0 <= offset sf;
  wf_holdlen : 0 <= holdlen sf;
  wf_in : offset sf + holdlen sf <= AST_SLINFACTORY_MAX_HOLD;
  wf_reset : holdlen sf = 0 → offset sf = 0;
  wf_queue : Forall good_frame (queue sf);
}.

Lemma good_samples f : good_frame f → len (samples_of f) = fr_samples f.
Proof.
  intros (d & E & ? & ?). unfold samples_of. rewrite E. simpl. rewrite length_take. lia.
Qed.

Lemma held_length sf : wf sf → len (held sf) = holdlen sf.
Proof.
  intros []. unfold held. rewrite length_take, length_drop. lia.
Qed.

Lemma queued_cons f q : queued (f :: q) = samples_of f ++ queued q.
Proof. done. Qed.

Lemma queued_app p q : queued (p ++ q) = queued p ++ queued q.
Proof. unfold queued. by rewrite fmap_app, concat_app. Qed.

(** ** Reading *)

(** What a read of [n] samples leaves: the rest of the stream, less what the
    hold could not take of the last frame read. *)
Definition leaves (n : Z) (c c' : list Z) (all_small : Prop) : Prop :=
  ∃ h lost q, drop (Z.to_nat n) c = h ++ lost ++ q ∧ c' = h ++ q
    ∧ (lost = [] ∨ len h = AST_SLINFACTORY_MAX_HOLD) ∧ (all_small → lost = []).

Lemma leaves_exact n c c' P : c' = drop (Z.to_nat n) c → leaves n c c' P.
Proof. intros ->. exists [], [], (drop (Z.to_nat n) c). auto. Qed.

Lemma leaves_skip n x c c' P (P' : Prop) :
  (P' → P) → len x <= n → leaves (n - len x) c c' P → leaves n (x ++ c) c' P'.
Proof.
  intros HP Hx (h & lost & q & E & ? & ? & ?). exists h, lost, q.
  rewrite drop_app_ge by lia. replace (Z.to_nat n - length x)%nat with (Z.to_nat (n - len x)) by lia.
  split_and!; auto.
Qed.

(** The reading position after some turns of the loop. *)
Record read_ok (samples : Z) (buf out : list Z) sf (log : list effect)
    (r : option (list Z * Z * list effect * ast_slinfactory)) : Prop := {
  ro : ∃ buf' fs sf' out',
    r = Some (buf', len out', log ++ free_frames fs, sf')
    ∧ length buf' = length buf ∧ out' `prefix_of` buf'
    ∧ out' = out ++ take (Z.to_nat (samples - len out)) (contents sf)
    ∧ leaves (samples - len out) (contents sf) (contents sf') (Forall small (queue sf))
    ∧ wf sf' ∧ queue sf = fs ++ queue sf'
    ∧ trans sf' = trans sf ∧ size sf' = size sf ∧ output_format sf' = output_format sf
    ∧ format sf' = format sf;
}.

Definition read_measure sf : nat :=
  (2 * length (queue sf) + (if (holdlen sf =? 0)%Z then 0 else 1) + 1)%nat.

(** Nothing left to read. *)
Lemma read_done samples buf out sf log :
  wf sf → out `prefix_of` buf → samples <= len out ∨ contents sf = [] →
  read_ok samples buf out sf log (Some (buf, len out, log, sf)).
Proof.
  intros Hw Hp Hd. constructor. exists buf, [], sf, out.
  assert (take (Z.to_nat (samples - len out)) (contents sf) = []
          ∧ drop (Z.to_nat (samples - len out)) (contents sf) = contents sf) as [E1 E2].
  { destruct Hd as [Hd|Hd]; [|by rewrite Hd, take_nil, drop_nil].
    by replace (Z.to_nat (samples - len out)) with 0%nat by lia. }
  rewrite E1, !app_nil_r. split_and!; try done. by apply leaves_exact.
Qed.

(** The rest of the run after [x] was written from the front of the stream. *)
Lemma read_ok_step samples buf buf1 out x sf sf1 fs log r :
  length buf1 = length buf → len out + len x <= samples →
  contents sf = x ++ contents sf1 → queue sf = fs ++ queue sf1 →
  trans sf1 = trans sf → size sf1 = size sf → output_format sf1 = output_format sf →
  format sf1 = format sf →
  read_ok samples buf1 (out ++ x) sf1 (log ++ free_frames fs) r → read_ok samples buf out sf log r.
Proof.
  intros Hb Hx Hc Hq Ht Hs Ho Hf [(buf' & fs' & sf' & out' & -> & Hl & Hp & -> & Hlv & Hw & Hq' & ? & ? & ? & ?)].
  assert (samples - len (out ++ x) = samples - len out - len x) as El by (rewrite length_app; lia).
  rewrite El in *. constructor.
  exists buf', (fs ++ fs'), sf', ((out ++ x) ++ take (Z.to_nat (samples - len out - len x)) (contents sf1)).
  split_and!; try congruence; try done.
  - unfold free_frames. by rewrite fmap_app, app_assoc.
  - rewrite Hc, <- app_assoc. f_equal. rewrite take_app_ge by lia. f_equal. f_equal. lia.
  - rewrite Hc. eapply leaves_skip; [|lia|done]. rewrite Hq. by intros [_ ?]%Forall_app.
  - by rewrite <- app_assoc, <- Hq'.
Qed.

(** The turn that writes the last samples [x] from a stream [x ++ h ++ lost ++ q]. *)
Lemma read_ok_last samples buf buf1 out x h lost q sf sf1 fs log :
  length buf1 = length buf → len out + len x = samples → out ++ x `prefix_of` buf1 →
  contents sf = x ++ h ++ lost ++ q → contents sf1 = h ++ q →
  (lost = [] ∨ len h = AST_SLINFACTORY_MAX_HOLD) → (Forall small (queue sf) → lost = []) →
  wf sf1 → queue sf = fs ++ queue sf1 →
  trans sf1 = trans sf → size sf1 = size sf → output_format sf1 = output_format sf →
  format sf1 = format sf →
  read_ok samples buf out sf log (Some (buf1, samples, log ++ free_frames fs, sf1)).
Proof.
  intros Hb Hx Hp Hc Hc1 Hlost Hsm Hw Hq ????. constructor. exists buf1, fs, sf1, (out ++ x).
  assert (Z.to_nat (samples - len out) = length x) as E by lia.
  split_and!; try done.
  - rewrite length_app, Nat2Z.inj_add, Hx. done.
  - by rewrite E, Hc, take_app_length.
  - exists h, lost, q. by rewrite E, Hc, drop_app_length.
Qed.

Lemma take_drop_split {A} (l : list A) (i n k : nat) :
  (k <= n)%nat → take n (drop i l) = take k (drop i l) ++ take (n - k) (drop (i + k) l).
Proof.
  intros Hk. rewrite <- (take_drop k (take n (drop i l))). f_equal.
  - rewrite take_take. f_equal. lia.
  - rewrite skipn_firstn_comm, drop_drop. done.
Qed.

Lemma store_out (buf out d : list Z) :
  out `prefix_of` buf → len out + len d <= len buf →
  ∃ buf', store buf (len out) d = Some buf' ∧ length buf' = length buf ∧ out ++ d `prefix_of` buf'.
Proof.
  intros Hp Hl. destruct (store_prefix buf out d Hp) as (y & E & Hy & _); [lia|].
  exists (out ++ d ++ y). split_and!; [done|done|]. rewrite app_assoc. by apply prefix_app_r.
Qed.

Lemma load_held sf n :
  wf sf → 0 <= n <= holdlen sf →
  load_n (hold sf) (offset sf) n = Some (take (Z.to_nat n) (held sf)).
Proof.
  intros [] Hn. rewrite load_n_ok by lia. unfold held. rewrite take_take. f_equal. f_equal. lia.
Qed.

(** Taking [n] samples off the hold. *)
Lemma held_advance sf n sf' :
  wf sf → 0 <= n < holdlen sf →
  sf' = upd_hold (hold sf) (offset sf + n) (holdlen sf - n) sf →
  wf sf' ∧ held sf = take (Z.to_nat n) (held sf) ++ held sf'.
Proof.
  intros [] Hn ->. split; [split; simpl; lia || done|]. unfold held. simpl.
  rewrite (take_drop_split (hold sf) (Z.to_nat (offset sf)) (Z.to_nat (holdlen sf)) (Z.to_nat n)) by lia.
  f_equal.
  - rewrite take_app_le by (rewrite length_take, length_drop; lia). rewrite take_take. f_equal. lia.
  - f_equal; [lia|]. f_equal. lia.
Qed.

Lemma held_empty sf : wf sf → holdlen sf = 0 → held sf = [].
Proof. intros _ E. unfold held. by rewrite E. Qed.

(** A frame read in part: [n] samples are read, the hold takes what it can. *)
Lemma frame_split f n rest :
  good_frame f → 0 <= n < fr_samples f →
  rest = Z.min (fr_samples f - n) AST_SLINFACTORY_MAX_HOLD →
  ∃ d x h lost, fr_data f = Some d
    ∧ load_n d 0 n = Some x ∧ load_n d n rest = Some h ∧ samples_of f = x ++ h ++ lost
    ∧ len x = n ∧ len h = rest ∧ (lost = [] ∨ len h = AST_SLINFACTORY_MAX_HOLD)
    ∧ (small f → lost = []).
Proof.
  intros (d & E & Hs & Hw) Hn Hr. unfold AST_SLINFACTORY_MAX_HOLD, small in *.
  exists d, (take (Z.to_nat n) d), (take (Z.to_nat rest) (drop (Z.to_nat n) d)),
    (take (Z.to_nat (fr_samples f - n - rest)) (drop (Z.to_nat (n + rest)) d)).
  rewrite !load_n_ok by lia. split_and!; try done.
  - unfold samples_of. rewrite E. simpl.
    rewrite <- (drop_0 d) at 1. rewrite (take_drop_split d 0 (Z.to_nat (fr_samples f)) (Z.to_nat n)) by lia.
    f_equal. rewrite (take_drop_split d (0 + Z.to_nat n)%nat _ (Z.to_nat rest)) by lia.
    f_equal. f_equal; [lia|]. f_equal. lia.
  - rewrite length_take. lia.
  - rewrite length_take, length_drop. lia.
  - destruct (decide (rest = 1280)); [right; rewrite length_take, length_drop; unfold AST_SLINFACTORY_MAX_HOLD in *; lia|].
    left. by replace (Z.to_nat (fr_samples f - n - rest)) with 0%nat by lia.
  - unfold AST_SLINFACTORY_MAX_HOLD. intros Hsm.
    by replace (Z.to_nat (fr_samples f - n - rest)) with 0%nat by lia.
Qed.

Lemma frame_whole f : good_frame f → ∃ d, fr_data f = Some d ∧ load_n d 0 (fr_samples f) = Some (samples_of f).
Proof.
  intros (d & E & Hs & Hw). exists d. split; [done|]. rewrite load_n_ok by lia.
  unfold samples_of. by rewrite E.
Qed.

(** The hold after a partial read of a frame. *)
Lemma held_fill sf q h sf' :
  wf sf → Forall good_frame q → holdlen sf = 0 → len h <= AST_SLINFACTORY_MAX_HOLD →
  ∃ m, store (hold sf) 0 h = Some m
    ∧ (sf' = upd_hold m (offset sf) (len h) (upd_queue q sf) → wf sf' ∧ held sf' = h).
Proof.
  intros Hw Hq E0 Hl. destruct Hw.
  destruct (store_prefix (hold sf) [] h) as (y & E & Hy & _); [apply prefix_nil|simpl; lia|].
  exists (h ++ y). split; [exact E|]. intros ->. simpl in Hy. split.
  - split; cbn [hold offset holdlen queue upd_hold upd_queue]; rewrite ?wf_reset0 by done; try done; try lia.
  - unfold held. cbn [hold offset holdlen upd_hold upd_queue]. rewrite wf_reset0 by done.
    rewrite Nat2Z.id. simpl. apply take_app_length.
Qed.

(** Every read terminates and takes the first samples of the stream. *)
Lemma read_loop_ok fuel samples buf out log sf :
  wf sf → out `prefix_of` buf → len out <= samples → samples <= len buf → samples < 2 ^ 32 →
  (read_measure sf <= fuel)%nat →
  read_ok samples buf out sf log (read_loop fuel samples buf (len out) (len out) log sf).
Proof.
  revert buf out log sf. induction fuel as [|fuel IH]; intros buf out log sf Hw Hp Ho Hb Hlim Hf.
  { unfold read_measure in Hf. lia. }
  cbn [read_loop]. destruct (Z.ltb_spec (len out) samples) as [Hlt|?].
  2: { replace (len out) with samples at 2 by lia.
       rewrite <- (app_nil_r log) at 2. replace samples with (len out) at 2 by lia.
       rewrite app_nil_r. apply read_done; auto. }
  rewrite (uwrap_small 32 (samples - len out)) by lia.
  pose proof (held_length sf Hw) as Hhl. pose proof (wf_holdlen _ Hw).
  destruct (Z.eqb_spec (holdlen sf) 0) as [E0|E0]; simpl negb; cbn iota.
  - assert (held sf = []) as Eh by by apply held_empty.
    destruct (queue sf) as [|f q] eqn:Eq.
    { apply read_done; [done|done|]. right. unfold contents. by rewrite Eh, Eq. }
    pose proof (wf_queue _ Hw) as Hg. rewrite Eq in Hg. apply Forall_cons in Hg as [Hg Hgq].
    pose proof Hg as (d0 & Ed0 & Hs0 & Hs1).
    rewrite (uwrap_small 32 (fr_samples f)) by lia.
    assert (contents sf = samples_of f ++ queued q) as Ec
      by (unfold contents; rewrite Eh, Eq; done).
    destruct (Z.leb_spec (fr_samples f) (samples - len out)).
    + destruct (frame_whole f Hg) as (d & -> & El). simpl. rewrite El. simpl.
      pose proof (good_samples f Hg) as Hgs.
      destruct (store_out buf out (samples_of f) Hp) as (buf1 & -> & Hb1 & Hp1); [lia|]. simpl.
      rewrite uwrap_small by lia.
      replace (len out + fr_samples f) with (len (out ++ samples_of f)) by (rewrite length_app; lia).
      apply (read_ok_step samples buf buf1 out (samples_of f) sf (upd_queue q sf) [f]);
        try done; [lia| |].
      { rewrite Ec. unfold contents. change (held (upd_queue q sf)) with (held sf). by rewrite Eh. }
      apply IH; try done; [|rewrite length_app; lia|lia|].
      * destruct Hw. split; done.
      * unfold read_measure in *. rewrite Eq in Hf. simpl in *. lia.
    + rewrite (uwrap_small 32 (fr_samples f - _)) by lia. cbn [holdlen upd_queue]. rewrite E0, Z.sub_0_r.
      set (rest := if AST_SLINFACTORY_MAX_HOLD <? fr_samples f - (samples - len out)
                   then AST_SLINFACTORY_MAX_HOLD else fr_samples f - (samples - len out)).
      assert (rest = Z.min (fr_samples f - (samples - len out)) AST_SLINFACTORY_MAX_HOLD) as Er
        by (unfold rest; destruct (Z.ltb_spec AST_SLINFACTORY_MAX_HOLD (fr_samples f - (samples - len out))); lia).
      clearbody rest.
      destruct (frame_split f (samples - len out) rest Hg) as (d & x & h & lost & -> & Ex & Eh' & Es & Hx & Hh & Hlost & Hsm);
        [lia|done|]. simpl. rewrite Ex. simpl.
      destruct (store_out buf out x Hp) as (buf1 & -> & Hb1 & Hp1); [lia|]. simpl. rewrite Eh'. simpl.
      destruct (held_fill sf q h (upd_hold (default [] (store (hold sf) 0 h)) (offset sf) (len h) (upd_queue q sf)))
        as (m & Em & Hfill); [done|done|done|lia|].
      change (hold (upd_queue q sf)) with (hold sf). rewrite Em. simpl. rewrite Em in Hfill. simpl in Hfill.
      destruct (Hfill eq_refl) as [Hw1 Hh1]. rewrite Hh in Hw1, Hh1.
      rewrite uwrap_small by lia. replace (len out + (samples - len out)) with samples by lia.
      destruct fuel as [|fuel]; [unfold read_measure in Hf; rewrite Eq in Hf; simpl in Hf; lia|].
      cbn [read_loop]. rewrite Z.ltb_irrefl.
      apply (read_ok_last samples buf buf1 out x h lost (queued q) sf _ [f]); try done; [lia| | |].
      * by rewrite Ec, Es, <- !app_assoc.
      * unfold contents. by rewrite Hh1.
      * intros Ha. rewrite Eq in Ha. apply Forall_cons in Ha as [? _]. auto.
  - destruct (Z.leb_spec (holdlen sf) (samples - len out)).
    + rewrite load_held by (done || lia). simpl.
      rewrite take_ge by lia.
      destruct (store_out buf out (held sf) Hp) as (buf1 & -> & Hb1 & Hp1); [lia|]. simpl.
      rewrite uwrap_small by lia.
      replace (len out + holdlen sf) with (len (out ++ held sf)) by (rewrite length_app; lia).
      apply (read_ok_step samples buf buf1 out (held sf) sf (upd_hold (hold sf) 0 0 sf) []);
        try done; [lia|]. simpl. rewrite app_nil_r.
      apply IH; try done; [|rewrite length_app; lia|lia|].
      * destruct Hw. split; simpl; try done; lia.
      * unfold read_measure in *. destruct (Z.eqb_spec (holdlen sf) 0); [done|]. simpl in *. lia.
    + rewrite load_held by (done || lia). simpl.
      destruct (held_advance sf (samples - len out) _ Hw ltac:(lia) eq_refl) as [Hw1 Hh1].
      set (x := take (Z.to_nat (samples - len out)) (held sf)) in *.
      assert (len x = samples - len out) as Hx by (unfold x; rewrite length_take; lia).
      destruct (store_out buf out x Hp) as (buf1 & -> & Hb1 & Hp1); [lia|]. simpl.
      rewrite uwrap_small by lia. replace (len out + (samples - len out)) with samples by lia.
      destruct fuel as [|fuel].
      { unfold read_measure in Hf. destruct (Z.eqb_spec (holdlen sf) 0); [done|]. lia. }
      cbn [read_loop]. rewrite Z.ltb_irrefl. rewrite <- (app_nil_r log) at 2.
      eapply (read_ok_last samples buf buf1 out x _ [] (queued (queue sf)) sf _ []);
        try done; [lia|..|by left].
      unfold contents. rewrite Hh1, <- app_assoc. done.
Qed.

End Stream.

Module Runs.
Import Model Stream.

#[global] Instance resource_eq_dec : EqDecision resource.
Proof. solve_decision. Defined.

Definition gots (log : list effect) : list resource :=
  omap (λ e, match e with Got r => Some r | Free _ => None end) log.
Definition frees (log : list effect) : list resource :=
  omap (λ e, match e with Free r => Some r | Got _ => None end) log.

Lemma gots_app a b : gots (a ++ b) = gots a ++ gots b.
Proof. apply omap_app. Qed.

Lemma frees_app a b : frees (a ++ b) = frees a ++ frees b.
Proof. apply omap_app. Qed.

Definition frames (fs : list ast_frame) : list resource := (λ f, Frame (fr_id f)) <$> fs.

Lemma gots_free_frames fs : gots (free_frames fs) = [].
Proof. induction fs; csimpl; done. Qed.

Lemma frees_free_frames fs : frees (free_frames fs) = frames fs.
Proof. induction fs as [|f fs IH]; csimpl; [done|]. unfold frames in *. csimpl. by f_equal. Qed.

Lemma gots_got_frames fs : gots (got_frames fs) = frames fs.
Proof. induction fs as [|f fs IH]; csimpl; [done|]. unfold frames in *. csimpl. by f_equal. Qed.

Lemma frees_got_frames fs : frees (got_frames fs) = [].
Proof. induction fs; csimpl; done. Qed.

Lemma frames_app a b : frames (a ++ b) = frames a ++ frames b.
Proof. apply fmap_app. Qed.

(** What a factory must free. *)
Definition owed sf : list resource :=
  match trans sf with Some p => [Path p] | None => [] end ++ frames (queue sf).

(** Resources are conserved by an operation with log [log]. *)
Definition conserves sf (log : list effect) sf' : Prop :=
  owed sf ++ gots log ≡ₚ owed sf' ++ frees log.

Lemma conserves_trans sf1 sf2 sf3 log1 log2 :
  conserves sf1 log1 sf2 → conserves sf2 log2 sf3 → conserves sf1 (log1 ++ log2) sf3.
Proof.
  unfold conserves. rewrite gots_app, frees_app. intros. perm_lia.
Qed.

Ltac res_norm :=
  unfold conserves, owed;
  cbn [trans queue upd_queue upd_trans upd_hold upd_size upd_format];
  rewrite ?gots_app, ?frees_app, ?gots_free_frames, ?frees_free_frames, ?gots_got_frames,
    ?frees_got_frames, ?frames_app.

Lemma free_trans_ok sf :
  let '(log, sf') := free_trans sf in
  conserves sf log sf' ∧ trans sf' = None ∧ queue sf' = queue sf ∧ contents sf' = contents sf
  ∧ (wf sf → wf sf') ∧ size sf' = size sf ∧ output_format sf' = output_format sf
  ∧ format sf' = format sf.
Proof.
  unfold free_trans. destruct (trans sf) as [p|] eqn:E.
  - split_and!; try done.
    + res_norm. rewrite E. simpl. perm_lia.
    + intros []. by split.
  - split_and!; try done. res_norm. simpl. perm_lia.
Qed.

Lemma enqueue_fields fs sf :
  let sf' := enqueue fs sf in
  queue sf' = queue sf ++ fs ∧ trans sf' = trans sf ∧ format sf' = format sf
  ∧ output_format sf' = output_format sf ∧ hold sf' = hold sf ∧ offset sf' = offset sf
  ∧ holdlen sf' = holdlen sf.
Proof.
  revert sf. induction fs as [|f fs IH]; intros sf; simpl; [by rewrite app_nil_r|].
  destruct (IH (upd_size (u32 (size sf + fr_samples f)) (upd_queue (queue sf ++ [f]) sf)))
    as (-> & ? & ? & ? & ? & ? & ?).
  split_and!; try done. simpl. by rewrite <- app_assoc.
Qed.

(** The number of samples agrees with the stream, in [unsigned int]. *)
Definition exact sf : Prop := size sf = u32 (len (contents sf)).

Lemma u32_add a b : u32 (u32 a + b) = u32 (a + b).
Proof. unfold uwrap. by rewrite Zplus_mod_idemp_l. Qed.

Lemma u32_sub a b : u32 (u32 a - b) = u32 (a - b).
Proof. unfold uwrap. by rewrite Zminus_mod_idemp_l. Qed.

Lemma enqueue_stream fs sf :
  wf sf → Forall good_frame fs →
  wf (enqueue fs sf) ∧ contents (enqueue fs sf) = contents sf ++ queued fs
  ∧ size (enqueue fs sf) = match fs with [] => size sf | _ => u32 (size sf + len (queued fs)) end.
Proof.
  intros Hw Hf. destruct (enqueue_fields fs sf) as (Eq & _ & _ & _ & Eh & Eo & El).
  split_and!.
  - destruct Hw. split; rewrite ?Eh, ?Eo, ?El, ?Eq; try done. by apply Forall_app.
  - unfold contents, held. rewrite Eh, Eo, El, Eq, queued_app. by rewrite app_assoc.
  - clear -Hf. revert sf. induction Hf as [|f fs Hg _ IH]; intros sf; [done|].
    cbn [enqueue]. rewrite IH. cbn [size upd_size]. rewrite queued_cons, length_app, Nat2Z.inj_add.
    rewrite (good_samples f Hg). destruct fs; [simpl; by rewrite Z.add_0_r|].
    rewrite u32_add. f_equal. lia.
Qed.

(** ** The abstract factory: a queue of samples and the format converted from *)

Record astate := mk_astate { stream : list Z; conv : option Z }.

Definition abs sf : astate :=
  mk_astate (contents sf) (match trans sf with Some _ => format sf | None => None end).

Section Abstract.
Context (format_equal : Z → Z → bool).

(** The frames a feed adds, given the converter in place. *)
Definition converter (env : feed_env) (f : ast_frame) (c : option Z) : option Z :=
  match c with
  | Some c => if format_equal (fr_format f) c then Some c
              else (λ _, fr_format f) <$> build_path env
  | None => (λ _, fr_format f) <$> build_path env
  end.

Definition afeed (out : option Z) (env : feed_env) (f : ast_frame) (st : astate) :
    list ast_frame * astate :=
  match fr_data f with
  | None => ([], st)
  | Some _ =>
      let '(fs, c) :=
        if not_equal format_equal (fr_format f) out then
          let c := converter env f (conv st) in
          (match c, translate env with
           | Some _, Some (h, rest) => default [] (isolate (iso env) h rest)
           | _, _ => []
           end, c)
        else (match dup env with Some a => [with_header a f] | None => [] end, None) in
      (fs, mk_astate (stream st ++ queued fs) c)
  end.

(** A feed whose frames are well formed, none of which is lost on the way: the
    isolation of a translated frame succeeds. *)
Record feed_ok (env : feed_env) (f : ast_frame) : Prop := {
  fo_frame : fr_data f ≠ None → good_frame f;
  fo_trans : ∀ h rest, translate env = Some (h, rest) → Forall good_frame (h :: rest);
  fo_iso : ∀ h rest, translate env = Some (h, rest) → iso env ≠ None;
}.

Lemma with_header_good a f : good_frame f → good_frame (with_header a f).
Proof. by intros (d & ? & ?); exists d. Qed.

(** A path has a format. *)
Definition path_ok sf : Prop := trans sf ≠ None → format sf ≠ None.

(** The translation path in place before the translation. *)
Lemma path_step env f sf :
  wf sf → path_ok sf →
  let '(log1, sf1) :=
    if has_path sf && not_equal format_equal (fr_format f) (format sf)
    then free_trans sf else ([], sf) in
  let c := converter env f (conv (abs sf)) in
  let '(log2, sf2) :=
    match trans sf1, build_path env with
    | None, Some p => ([Got (Path p)], upd_format (Some (fr_format f)) (upd_trans (Some p) sf1))
    | _, _ => ([], sf1)
    end in
  (trans sf2 = None ↔ c = None) ∧ conv (abs sf2) = c ∧ path_ok sf2 ∧ wf sf2
  ∧ contents sf2 = contents sf ∧ queue sf2 = queue sf ∧ size sf2 = size sf
  ∧ output_format sf2 = output_format sf ∧ conserves sf (log1 ++ log2) sf2.
Proof.
  intros Hw Hpath. unfold path_ok, has_path, not_equal, abs, free_trans in *. cbn [conv].
  destruct (trans sf) as [p|] eqn:Et.
  - destruct (format sf) as [c|] eqn:Ef; [|by destruct Hpath]. simpl.
    destruct (format_equal (fr_format f) c) eqn:Ec; simpl.
    + rewrite Et. simpl. rewrite Et, Ef. split_and!; try done.
      res_norm. rewrite Et. simpl. perm_lia.
    + destruct (build_path env) as [b|] eqn:Eb; simpl; split_and!; try done;
        try (destruct Hw; by split); res_norm; rewrite Et; simpl; perm_lia.
  - simpl. rewrite Et. destruct (build_path env) as [b|] eqn:Eb; simpl; rewrite ?Et; split_and!; try done;
      try (destruct Hw; by split); res_norm; rewrite ?Et; simpl; perm_lia.
Qed.

Lemma feed_translate_ok env f sf :
  wf sf → path_ok sf → feed_ok env f →
  let '(fs, log, sf') := feed_translate format_equal env f sf in
  let c := converter env f (conv (abs sf)) in
  let added := match c, translate env with
               | Some _, Some (h, rest) => default [] (isolate (iso env) h rest)
               | _, _ => []
               end in
  added = default [] fs ∧ (fs = Some [] → False) ∧ Forall good_frame added
  ∧ conv (abs sf') = c ∧ path_ok sf' ∧ wf sf' ∧ contents sf' = contents sf
  ∧ queue sf' = queue sf ∧ size sf' = size sf ∧ output_format sf' = output_format sf
  ∧ owed sf ++ gots log ≡ₚ owed sf' ++ frames added ++ frees log.
Proof.
  intros Hw Hpath [_ Hgood Hiso]. pose proof (path_step env f sf Hw Hpath) as Hstep.
  unfold feed_translate.
  destruct (if has_path sf && not_equal format_equal (fr_format f) (format sf)
            then free_trans sf else ([], sf)) as [log1 sf1] eqn:E1.
  set (c := converter env f (conv (abs sf))) in *.
  assert (∃ log2 sf2,
    match trans sf1 with
    | Some _ => Some ([], sf1)
    | None =>
        match build_path env with
        | None => None
        | Some p => Some ([Got (Path p)], upd_format (Some (fr_format f)) (upd_trans (Some p) sf1))
        end
    end = (if decide (c = None) then None else Some (log2, sf2))
    ∧ (c = None → sf2 = sf1 ∧ log2 = [])
    ∧ conv (abs sf2) = c ∧ path_ok sf2 ∧ wf sf2
    ∧ contents sf2 = contents sf ∧ queue sf2 = queue sf ∧ size sf2 = size sf
    ∧ output_format sf2 = output_format sf ∧ conserves sf (log1 ++ log2) sf2) as
    (log2 & sf2 & -> & Hc & Hconv & Hp2 & Hw2 & Hct & Hq & Hsz & Hof & Hres).
  { destruct (trans sf1) as [p|] eqn:Et; [|destruct (build_path env) as [p|] eqn:Eb];
      eexists _, _; destruct Hstep as (Hiff & ? & ? & ? & ? & ? & ? & ? & ?).
    - rewrite decide_False by (rewrite <- Hiff, Et; done). split; [done|].
      split_and!; try done; intros E; exfalso; by rewrite <- Hiff, Et in E.
    - rewrite decide_False by (by rewrite <- Hiff). split; [done|].
      split_and!; try done; intros E; exfalso; by rewrite <- Hiff in E.
    - rewrite decide_True by (by rewrite <- Hiff). split; [done|]. by split_and!. }
  unfold conserves in Hres. clearbody c. destruct (decide (c = None)) as [->|Hn].
  { destruct (Hc eq_refl) as [-> ->]. rewrite app_nil_r in Hres. by split_and!. }
  destruct c as [c|]; [|done]. rewrite !gots_app, !frees_app in Hres.
  destruct (translate env) as [[h rest]|] eqn:Etr.
  2: { split_and!; try done. rewrite gots_app, frees_app. done. }
  specialize (Hgood h rest eq_refl). specialize (Hiso h rest eq_refl).
  unfold isolate. destruct (iso env) as [a|] eqn:Ei; [|done]. simpl default.
  split_and!; try done.
  - by destruct (fr_hdr h).
  - destruct (fr_hdr h); [done|]. apply Forall_cons in Hgood as [? _].
    apply Forall_singleton. by apply with_header_good.
  - rewrite !gots_app, !frees_app, gots_got_frames, frees_got_frames. destruct (fr_hdr h).
    + simpl gots. simpl frees. perm_lia.
    + rewrite gots_app, frees_app, gots_got_frames, gots_free_frames, frees_got_frames,
        frees_free_frames. perm_lia.
Qed.
(** Feeding: the frames delivered join the stream, every branch included. *)
Lemma feed_refines env f sf :
  wf sf → path_ok sf → feed_ok env f →
  let '(ret, log, sf') := ast_slinfactory_feed format_equal env f sf in
  let '(added, st) := afeed (output_format sf) env f (abs sf) in
  abs sf' = st ∧ wf sf' ∧ path_ok sf' ∧ queue sf' = queue sf ++ added
  ∧ (exact sf → exact sf') ∧ output_format sf' = output_format sf
  ∧ conserves sf log sf' ∧ Forall good_frame added
  ∧ ret = match added with [] => 0 | _ => len (queue sf) end.
Proof.
  intros Hw Hpath Hok. unfold ast_slinfactory_feed, afeed.
  destruct (fr_data f) as [d|] eqn:Ed.
  2: { rewrite app_nil_r. split_and!; try done. res_norm. simpl. perm_lia. }
  assert (good_frame f) as Hgf by (apply (fo_frame _ _ Hok); by rewrite Ed).
  destruct (not_equal format_equal (fr_format f) (output_format sf)).
  - pose proof (feed_translate_ok env f sf Hw Hpath Hok) as H.
    destruct (feed_translate format_equal env f sf) as [[fs log] sf1]. cbv zeta in H |- *.
    set (c := converter env f (conv (abs sf))) in *.
    set (added := match c, translate env with
                  | Some _, Some (h, rest) => default [] (isolate (iso env) h rest)
                  | _, _ => [] end) in *.
    destruct H as (Ea & Hne & Hg & Hc & Hp1 & Hw1 & Hct & Hq & Hsz & Hof & Hres).
    clearbody c added. subst added. destruct fs as [fs|]; simpl default in *.
    + destruct (enqueue_fields fs sf1) as (Eq & Et & Ef & Eo & _).
      destruct (enqueue_stream fs sf1 Hw1 Hg) as (Hw' & Hct' & Hsz').
      destruct fs as [|f1 fs]; [by destruct Hne|].
      set (sfe := enqueue (f1 :: fs) sf1) in *. clearbody sfe. split_and!; try done.
      * unfold abs in *. simpl conv in Hc. rewrite Et, Ef, Hct', Hct, Hc. done.
      * unfold path_ok. by rewrite Et, Ef.
      * by rewrite Eq, Hq.
      * unfold exact. intros E. rewrite Hsz', Hct', Hct, Hsz, E, u32_add, length_app. f_equal. lia.
      * by rewrite Eo.
      * unfold conserves, owed in *. rewrite Et, Eq. rewrite frames_app. perm_lia.
      * by rewrite Hq.
    + change (queued []) with (@nil Z). rewrite !app_nil_r. split_and!; try done.
      * unfold abs in *. simpl in Hc |- *. by rewrite Hct, Hc.
      * unfold exact. by rewrite Hsz, Hct.
  - unfold feed_copy. pose proof (free_trans_ok sf) as H. destruct (free_trans sf) as [log sf1].
    destruct H as (Hres & Et1 & Hq & Hct & Hw1 & Hsz & Hof & _). specialize (Hw1 Hw).
    destruct (dup env) as [a|].
    + set (g := with_header a f). assert (good_frame g) as Hg by by apply with_header_good.
      destruct (enqueue_fields [g] sf1) as (Eq & Et & Ef & Eo & _).
      destruct (enqueue_stream [g] sf1 Hw1) as (Hw' & Hct' & Hsz'); [by apply Forall_singleton|].
      set (sfe := enqueue [g] sf1) in *. clearbody sfe. split_and!; try done.
      * unfold abs. by rewrite Et, Et1, Hct', Hct.
      * unfold path_ok. by rewrite Et, Et1.
      * by rewrite Eq, Hq.
      * unfold exact. intros E. rewrite Hsz', Hct', Hct, Hsz, E, u32_add, length_app. f_equal. lia.
      * by rewrite Eo.
      * unfold conserves, owed in *. rewrite Et, Eq, frames_app, gots_app, frees_app,
          gots_got_frames, frees_got_frames. perm_lia.
      * by apply Forall_singleton.
      * by rewrite Hq.
    + change (queued []) with (@nil Z). rewrite !app_nil_r. split_and!; try done.
      * unfold abs. by rewrite Et1, Hct.
      * unfold path_ok. by rewrite Et1.
      * unfold exact. by rewrite Hsz, Hct.
Qed.

(** Reading: the first samples of the stream, into the caller's buffer. *)
Lemma read_refines buf n sf :
  wf sf → 0 <= n < 2 ^ 32 → n <= len buf →
  ∃ buf' log sf' out,
    ast_slinfactory_read buf n sf = Some (buf', len out, log, sf')
    ∧ out = take (Z.to_nat n) (contents sf) ∧ out `prefix_of` buf' ∧ length buf' = length buf
    ∧ leaves n (contents sf) (contents sf') (Forall small (queue sf))
    ∧ wf sf' ∧ trans sf' = trans sf ∧ format sf' = format sf
    ∧ output_format sf' = output_format sf ∧ conserves sf log sf'
    ∧ size sf' = u32 (size sf - len out) ∧ (∃ fs, queue sf = fs ++ queue sf')
    ∧ (Forall small (queue sf) → Forall small (queue sf')).
Proof.
  intros Hw Hn Hb. unfold ast_slinfactory_read.
  destruct (read_loop_ok (read_fuel sf) n buf [] [] sf Hw) as
    [(buf' & fs & sf' & out & E & Hl & Hp & Ho & Hlv & Hw' & Hq & Et & Es & Eo & Ef)];
    [apply prefix_nil|simpl; lia|done|lia|unfold read_measure, read_fuel; case_match; lia|].
  change (len (@nil Z)) with 0 in *. rewrite E. simpl.
  rewrite Z.sub_0_r in Ho, Hlv. simpl in Ho.
  eexists _, _, _, out. split; [done|]. split_and!; try done.
  - destruct Hw'. by split.
  - unfold conserves, owed. cbn [trans queue upd_size].
    rewrite Et, Hq, frames_app, gots_free_frames, frees_free_frames. perm_lia.
  - simpl. by rewrite Es.
  - by exists fs.
  - simpl. rewrite Hq. by intros [_ ?]%Forall_app.
Qed.

Lemma flush_refines sf :
  wf sf →
  let '(log, sf') := ast_slinfactory_flush sf in
  abs sf' = mk_astate [] None ∧ wf sf' ∧ path_ok sf' ∧ exact sf' ∧ queue sf' = []
  ∧ output_format sf' = output_format sf ∧ conserves sf log sf'.
Proof.
  intros Hw. unfold ast_slinfactory_flush. pose proof (free_trans_ok sf) as H.
  destruct (free_trans sf) as [log sf1].
  destruct H as (Hres & Et1 & Hq & Hct & Hw1 & Hsz & Hof & _). specialize (Hw1 Hw).
  unfold abs, path_ok, exact, contents, held. cbn [trans queue size holdlen offset hold output_format
    upd_queue upd_hold upd_size]. rewrite Et1. simpl. split_and!; try done.
  - destruct Hw1. split; simpl; try done; lia.
  - unfold conserves, owed in *. cbn [trans queue upd_queue upd_hold upd_size].
    rewrite Et1, gots_app, frees_app, gots_free_frames, frees_free_frames. simpl. rewrite Et1 in Hres.
    simpl in Hres. perm_lia.
Qed.

Lemma destroy_frees sf :
  let '(log, sf') := ast_slinfactory_destroy sf in
  conserves sf log sf' ∧ owed sf' = [].
Proof.
  unfold ast_slinfactory_destroy. pose proof (free_trans_ok sf) as H.
  destruct (free_trans sf) as [log sf1]. destruct H as (Hres & Et1 & Hq & _).
  unfold conserves, owed in *. cbn [trans queue]. rewrite Et1 in *. split; [|done].
  rewrite gots_app, frees_app, gots_free_frames, frees_free_frames. simpl in *. perm_lia.
Qed.

(** ** Runs *)

Inductive op :=
| Feed (env : feed_env) (f : ast_frame)
| Read (buf : list Z) (n : Z)
| Flush.

Definition op_ok (o : op) : Prop :=
  match o with
  | Feed env f =>
      feed_ok env f ∧ small f ∧ ∀ h rest, translate env = Some (h, rest) → Forall small (h :: rest)
  | Read buf n => 0 <= n < 2 ^ 32 ∧ n <= len buf
  | Flush => True
  end.

(** An operation on the factory: the samples it hands out, its log. *)
Definition step (o : op) sf : option (list Z * list effect * ast_slinfactory) :=
  match o with
  | Feed env f =>
      let '(_, log, sf) := ast_slinfactory_feed format_equal env f sf in Some ([], log, sf)
  | Read buf n =>
      '(buf, got, log, sf) ← ast_slinfactory_read buf n sf;
      Some (take (Z.to_nat got) buf, log, sf)
  | Flush => let '(log, sf) := ast_slinfactory_flush sf in Some ([], log, sf)
  end.

(** The same on the abstract factory. *)
Definition astep (out : option Z) (o : op) (st : astate) : list Z * astate :=
  match o with
  | Feed env f => ([], (afeed out env f st).2)
  | Read _ n => (take (Z.to_nat n) (stream st), mk_astate (drop (Z.to_nat n) (stream st)) (conv st))
  | Flush => ([], mk_astate [] None)
  end.

Fixpoint run (os : list op) sf : option (list (list Z) * list effect * ast_slinfactory) :=
  match os with
  | [] => Some ([], [], sf)
  | o :: os =>
      '(x, log, sf) ← step o sf; '(xs, log', sf) ← run os sf; Some (x :: xs, log ++ log', sf)
  end.

Fixpoint arun (out : option Z) (os : list op) (st : astate) : list (list Z) * astate :=
  match os with
  | [] => ([], st)
  | o :: os =>
      let '(x, st) := astep out o st in let '(xs, st) := arun out os st in (x :: xs, st)
  end.

Definition inv sf : Prop := wf sf ∧ path_ok sf ∧ exact sf ∧ Forall small (queue sf).

Lemma isolate_small i h rest : Forall small (h :: rest) → Forall small (default [] (isolate i h rest)).
Proof.
  intros H. destruct i as [a|]; simpl; [|done]. case_match; [done|].
  apply Forall_cons in H as [? _]. by apply Forall_singleton.
Qed.

Lemma afeed_small out env f st :
  op_ok (Feed env f) → Forall small (afeed out env f st).1.
Proof.
  intros (_ & Hf & Ht). unfold afeed. destruct (fr_data f); [|done].
  destruct (not_equal _ _ _); simpl.
  - destruct (converter env f (conv st)); [|done]. destruct (translate env) as [[h rest]|]; [|done].
    by apply isolate_small, Ht.
  - destruct (dup env); [|done]. by apply Forall_singleton.
Qed.

Lemma step_refines o sf :
  inv sf → op_ok o →
  ∃ x log sf', step o sf = Some (x, log, sf') ∧ (x, abs sf') = astep (output_format sf) o (abs sf)
    ∧ inv sf' ∧ output_format sf' = output_format sf ∧ conserves sf log sf'.
Proof.
  intros (Hw & Hp & He & Hs) Hok. destruct o as [env f|buf n|]; simpl.
  - pose proof (feed_refines env f sf Hw Hp (proj1 Hok)) as H.
    pose proof (afeed_small (output_format sf) env f (abs sf) Hok) as Hsm.
    destruct (ast_slinfactory_feed format_equal env f sf) as [[ret log] sf'].
    destruct (afeed (output_format sf) env f (abs sf)) as [added st]. simpl in *.
    destruct H as (<- & Hw' & Hp' & Hq & He' & Ho & Hc & _). eexists _, _, _. split; [done|].
    split_and!; try done. split_and!; auto. rewrite Hq. by apply Forall_app.
  - destruct Hok as [Hn Hb].
    destruct (read_refines buf n sf Hw Hn Hb) as
      (buf' & log & sf' & out & -> & Eo & Hpre & _ & Hlv & Hw' & Et & Ef & Eof & Hc & Es & _ & Hsm).
    simpl. eexists _, _, _. split; [done|]. rewrite Nat2Z.id.
    assert (contents sf' = drop (Z.to_nat n) (contents sf)) as Ec.
    { destruct Hlv as (h & lost & q & E & -> & _ & Hl). rewrite (Hl Hs) in E. by rewrite E. }
    split_and!; try done.
    + destruct Hpre as [k ->]. rewrite take_app_length, Eo. unfold abs. simpl. by rewrite Ec, Et, Ef.
    + split_and!; auto.
      * unfold path_ok. by rewrite Et, Ef.
      * unfold exact. rewrite Es, He, Ec, Eo, u32_sub, length_drop, length_take. f_equal. lia.
  - pose proof (flush_refines sf Hw) as H. destruct (ast_slinfactory_flush sf) as [log sf'].
    destruct H as (<- & ? & ? & ? & Hq & ? & ?). eexists _, _, _. split; [done|].
    split_and!; try done. split_and!; try done. by rewrite Hq.
Qed.

Lemma run_refines os sf :
  inv sf → Forall op_ok os →
  ∃ xs log sf', run os sf = Some (xs, log, sf') ∧ (xs, abs sf') = arun (output_format sf) os (abs sf)
    ∧ inv sf' ∧ conserves sf log sf'.
Proof.
  intros Hi Hos. revert sf Hi. induction Hos as [|o os Ho _ IH]; intros sf Hi; simpl.
  - exists [], [], sf. split_and!; try done. res_norm. simpl. perm_lia.
  - destruct (step_refines o sf Hi Ho) as (x & log & sf1 & -> & E1 & Hi1 & Eo & Hc1). simpl.
    destruct (IH sf1 Hi1) as (xs & log' & sf' & -> & E2 & Hi' & Hc2). simpl.
    eexists _, _, _. split; [done|]. rewrite <- E1. rewrite Eo in E2. rewrite <- E2.
    split_and!; try done. by eapply conserves_trans.
Qed.

Lemma zeroed_inv out : inv (zeroed out) ∧ abs (zeroed out) = mk_astate [] None ∧ owed (zeroed out) = [].
Proof.
  assert (wf (zeroed out)) as Hw 
    by (split; cbn [hold offset holdlen queue zeroed];
        [rewrite length_replicate; reflexivity|unfold AST_SLINFACTORY_MAX_HOLD; lia || constructor..]).
  split; [|split; reflexivity]. split; [exact Hw|]. split; [intros []; reflexivity|].
  split; [reflexivity|constructor].
Qed.

End Abstract.
End Runs.

Module Properties.
Import Model Stream Runs.

(** C36: a factory is a queue of samples.  From initialisation, over any
    sequence of feeds, reads of any size and flushes (frames of at most 1280
    samples, isolations that succeed), every operation succeeds, each read
    returns exactly the next samples of the stream of delivered frames, the
    converter is kept while its format is fed and replaced otherwise, the count
    of available samples is exact, and once the factory is destroyed every frame
    and translation path obtained has been freed exactly once. *)
Theorem slinfactory_run_correct (slin : Z) (is_slinear : Z → bool) (format_equal : Z → Z → bool)
    (o : Z) (sf0 : ast_slinfactory) (os : list op) :
  sf0 = ast_slinfactory_init slin ∨ sf0 = (ast_slinfactory_init_with_format is_slinear o).2 →
  Forall op_ok os →
  ∃ xs log sf, run format_equal os sf0 = Some (xs, log, sf)
    ∧ (xs, abs sf) = arun format_equal (output_format sf0) os (mk_astate [] None)
    ∧ ast_slinfactory_available sf = u32 (len (stream (abs sf)))
    ∧ let '(dlog, _) := ast_slinfactory_destroy sf in gots (log ++ dlog) ≡ₚ frees (log ++ dlog).
Proof.
  intros H0 Hos. assert (∃ out, sf0 = zeroed out) as [out ->].
  { destruct H0 as [->| ->]; [by eexists|]. unfold ast_slinfactory_init_with_format.
    case_match; by eexists. }
  destruct (zeroed_inv out) as (Hi & Ha & Hw0).
  destruct (run_refines format_equal os (zeroed out) Hi Hos) as (xs & log & sf & E & Er & (_ & _ & He & _) & Hc).
  exists xs, log, sf. rewrite <- Ha. split_and!; [done|done|done|].
  pose proof (destroy_frees sf) as Hd. destruct (ast_slinfactory_destroy sf) as [dlog sf'].
  destruct Hd as [Hd Hnil]. pose proof (conserves_trans _ _ _ _ _ Hc Hd) as Hall.
  unfold conserves in Hall. by rewrite Hw0, Hnil in Hall.
Qed.

Definition frame3 : ast_frame := mk_frame 1 false (Some [11; 12; 13]) 3 5.
Definition env3 : feed_env := mk_feed_env (Some 70) (Some (mk_frame 2 true (Some [21; 22]) 2 0, [])) (Some 3) (Some 4).

Lemma slinfactory_run_correct_witness :
  (∃ xs log sf, run Z.eqb [Feed env3 frame3; Read [0; 0] 1] (ast_slinfactory_init 0) = Some (xs, log, sf)
    ∧ (xs, abs sf) = arun Z.eqb (Some 0) [Feed env3 frame3; Read [0; 0] 1] (mk_astate [] None)
    ∧ ast_slinfactory_available sf = u32 (len (stream (abs sf)))
    ∧ let '(dlog, _) := ast_slinfactory_destroy sf in gots (log ++ dlog) ≡ₚ frees (log ++ dlog))
  ∧ (λ r, (r.1.1, gots r.1.2)) <$> run Z.eqb [Feed env3 frame3; Read [0; 0] 1] (ast_slinfactory_init 0)
    = Some ([[]; [21]], [Path 70; Frame 2]).
Proof.
  split; [|reflexivity].
  refine (slinfactory_run_correct 0 (λ _, true) Z.eqb 0 _ _ (or_introl eq_refl) _).
  apply Forall_cons. split.
  - assert (good_frame (mk_frame 2 true (Some [21; 22]) 2 0)).
    { exists [21; 22]. split; [reflexivity|simpl; lia]. }
    split; [split|split].
    + intros _. exists [11; 12; 13]. split; [reflexivity|simpl; lia].
    + intros h rest [= <- <-]. by apply Forall_singleton.
    + discriminate.
    + discriminate.
    + intros h rest [= <- <-]. apply Forall_singleton. discriminate.
  - apply Forall_singleton. simpl. lia.
Defined.

(** A read of [n] samples from any well-formed factory terminates, hands
    out the first [n] samples of the stream (all of them when there are fewer),
    writes nothing past them, frees the frames it used up, and leaves the rest of
    the stream; only what remains of the last frame read beyond the 1280 samples
    of the hold is lost, which cannot happen when no frame is longer. *)
Theorem ast_slinfactory_read_correct (buf : list Z) (n : Z) (sf : ast_slinfactory) :
  wf sf → 0 <= n < 2 ^ 32 → n <= len buf →
  ∃ buf' log sf' out,
    ast_slinfactory_read buf n sf = Some (buf', len out, log, sf')
    ∧ out = take (Z.to_nat n) (contents sf)
    ∧ out `prefix_of` buf' ∧ length buf' = length buf
    ∧ leaves n (contents sf) (contents sf') (Forall small (queue sf))
    ∧ wf sf' ∧ conserves sf log sf'
    ∧ ast_slinfactory_available sf' = u32 (ast_slinfactory_available sf - len out).
Proof.
  intros Hw Hn Hb. destruct (read_refines buf n sf Hw Hn Hb) as
    (buf' & log & sf' & out & E & Eo & Hp & Hl & Hlv & Hw' & _ & _ & _ & Hc & Hs & _).
  exists buf', log, sf', out. by split_and!.
Qed.

Lemma ast_slinfactory_read_correct_witness :
  ∃ buf' log sf' out,
    ast_slinfactory_read [0; 0; 0] 2 (enqueue [frame3] (zeroed None)) = Some (buf', len out, log, sf')
    ∧ out = take (Z.to_nat 2) (contents (enqueue [frame3] (zeroed None)))
    ∧ out `prefix_of` buf' ∧ length buf' = 3%nat
    ∧ leaves 2 (contents (enqueue [frame3] (zeroed None))) (contents sf')
        (Forall small (queue (enqueue [frame3] (zeroed None))))
    ∧ wf sf' ∧ conserves (enqueue [frame3] (zeroed None)) log sf'
    ∧ ast_slinfactory_available sf'
      = u32 (ast_slinfactory_available (enqueue [frame3] (zeroed None)) - len out).
Proof.
  refine (ast_slinfactory_read_correct [0; 0; 0] 2 (enqueue [frame3] (zeroed None)) _ _ _).
  - apply enqueue_stream; [apply zeroed_inv|]. apply Forall_singleton.
    exists [11; 12; 13]. split; [reflexivity|simpl; lia].
  - lia.
  - simpl. lia.
Defined.

(** Samples of a long frame are lost without being counted: after a frame
    of [s] samples is fed to an empty factory and [n] of them are read, with
    more than 1280 left, [ast_slinfactory_available] reports [s - n] samples,
    but a read of that many gets at most 1280. *)
Theorem slinfactory_long_frame_lost (slin a : Z) (env : feed_env) (f : ast_frame) (buf : list Z) (n : Z) :
  good_frame f → fr_format f = slin → dup env = Some a →
  0 < n <= len buf → AST_SLINFACTORY_MAX_HOLD < fr_samples f - n → fr_samples f - n <= len buf →
  let '(_, _, sf) := ast_slinfactory_feed Z.eqb env f (ast_slinfactory_init slin) in
  ∃ buf1 log1 sf1, ast_slinfactory_read buf n sf = Some (buf1, n, log1, sf1)
    ∧ ast_slinfactory_available sf1 = fr_samples f - n
    ∧ ∃ buf2 got log2 sf2,
        ast_slinfactory_read buf (ast_slinfactory_available sf1) sf1 = Some (buf2, got, log2, sf2)
        ∧ got <= AST_SLINFACTORY_MAX_HOLD < ast_slinfactory_available sf1.
Proof.
  intros Hg Hf Hd Hn Hlong Hb. pose proof Hg as (d & Ed & Hs & Hs31).
  unfold AST_SLINFACTORY_MAX_HOLD in Hlong.
  unfold ast_slinfactory_feed. rewrite Ed. simpl output_format. unfold not_equal.
  rewrite Hf, Z.eqb_refl. simpl negb. cbn iota. unfold feed_copy. simpl free_trans. rewrite Hd.
  set (g := with_header a f). set (sf := enqueue [g] (ast_slinfactory_init slin)).
  assert (good_frame g) as Hgg by by apply with_header_good.
  destruct (zeroed_inv (Some slin)) as ((Hw0 & _) & _).
  destruct (enqueue_stream [g] (zeroed (Some slin)) Hw0) as (Hw & Hc & Hsz); [by apply Forall_singleton|].
  change (enqueue [g] (zeroed (Some slin))) with sf in *.
  assert (contents sf = samples_of g) as Ec by (rewrite Hc; apply app_nil_r).
  assert (len (samples_of g) = fr_samples f) as Hlg by by rewrite good_samples.
  assert (size sf = fr_samples f) as Esz.
  { rewrite Hsz. change (size (zeroed (Some slin))) with 0. rewrite queued_cons, app_nil_r, Hlg.
    apply uwrap_small. lia. }
  destruct (read_refines buf n sf Hw) as
    (buf1 & log1 & sf1 & out & E & Eo & _ & _ & Hlv & Hw1 & _ & _ & _ & _ & Es & (fs & Hq) & _); [lia..|].
  assert (len out = n) as Hlo by (rewrite Eo, Ec, length_take; lia).
  rewrite Hlo in *. exists buf1, log1, sf1. split; [done|].
  assert (size sf1 = fr_samples f - n) as Es1 by (rewrite Es, Esz; apply uwrap_small; lia).
  split; [done|]. unfold ast_slinfactory_available. rewrite Es1.
  destruct (read_refines buf (fr_samples f - n) sf1 Hw1) as
    (buf2 & log2 & sf2 & out2 & E2 & Eo2 & _ & _ & _ & _); [lia..|].
  exists buf2, (len out2), log2, sf2. split; [done|]. split; [|unfold AST_SLINFACTORY_MAX_HOLD; lia].
  assert (len (contents sf1) <= AST_SLINFACTORY_MAX_HOLD) as Hmax; [|rewrite Eo2, length_take; lia].
  pose proof (held_length _ Hw1) as Hh. destruct Hw1.
  assert (queue sf1 = []) as Eq1.
  { destruct fs as [|x fs].
    - assert (queue sf1 = [g]) as Eq1 by (symmetry; exact Hq).
      destruct Hlv as (h & lost & q & El & El' & _). apply (f_equal length) in El.
      rewrite length_drop, Ec, !length_app in El. apply (f_equal length) in El'.
      unfold contents in El'. rewrite Eq1, queued_cons, !length_app in El'. lia.
    - change (queue sf) with [g] in Hq. injection Hq as _ Hq.
      symmetry in Hq. by apply app_nil in Hq as [_ ?]. }
  unfold contents. rewrite Eq1, app_nil_r. lia.
Qed.

Lemma slinfactory_long_frame_lost_witness :
  let '(_, _, sf) := ast_slinfactory_feed Z.eqb env3
    (mk_frame 1 false (Some (replicate 1400 7)) 1400 0) (ast_slinfactory_init 0) in
  ∃ buf1 log1 sf1, ast_slinfactory_read (replicate 1400 0) 1 sf = Some (buf1, 1, log1, sf1)
    ∧ ast_slinfactory_available sf1 = 1400 - 1
    ∧ ∃ buf2 got log2 sf2,
        ast_slinfactory_read (replicate 1400 0) (ast_slinfactory_available sf1) sf1
        = Some (buf2, got, log2, sf2)
        ∧ got <= AST_SLINFACTORY_MAX_HOLD < ast_slinfactory_available sf1.
Proof.
  refine (slinfactory_long_frame_lost 0 4 env3 (mk_frame 1 false (Some (replicate 1400 7)) 1400 0)
            (replicate 1400 0) 1 _ eq_refl eq_refl _ _ _).
  - exists (replicate 1400 7). rewrite length_replicate. split; [reflexivity|simpl fr_samples; lia].
  - rewrite length_replicate. lia.
  - reflexivity.
  - rewrite length_replicate. simpl fr_samples. lia.
Defined.

End Properties.
