(* ===== verification/Smoother.v ===== *)
(** * The smoother ([main/smoother.c])

    A smoother takes voice frames of varying sizes and gives frames of one size:
    a buffer of at most 8000 bytes, and, as an optimisation, one frame of exactly
    the right size that was fed to an empty smoother and is handed out as it is.

    - [Model]: every operation.  The bytes behind a frame's data pointer are a
      list; swapping a frame in place changes it.  The format core
      ([ast_format_cmp], [ast_format_get_sample_rate]) is a pair of arguments.
      The [float] arithmetic is that of Timeval.v.  [None] is an access outside a buffer or the conversion of a float that is
      not a number.
    - [Bytes]: the byte stream a smoother holds.
    - [Properties]: the theorems. *)

From stdpp Require Import base numbers list.
From Stdlib Require Import ZArith Lia SpecFloat.
From S2P Require Import Prelude Timeval.

Local Open Scope cint_scope.

Module Model.

Definition SMOOTHER_SIZE : Z := 8000.
Definition AST_FRIENDLY_OFFSET : Z := 64.
Definition AST_MIN_OFFSET : Z := 32.
Definition AST_SMOOTHER_FLAG_G729 : Z := 1.

Record ast_frame := mk_frame {
  voice : bool;
  fformat : option Z;
  fdata : list Z;
  datalen : Z;
  samples : Z;
  foffset : Z;
  fdelivery : timeval;
}.

Record ast_smoother := mk_smoother {
  size : Z;
  format : option Z;
  flags : Z;
  samplesperbyte : spec_float;
  opt_needs_swap : bool;
  delivery : timeval;
  data : list Z;
  framedata : list Z;
  opt : option ast_frame;
  len : Z;
}.

Definition upd_size (n : Z) s :=
  mk_smoother n (format s) (flags s) (samplesperbyte s) (opt_needs_swap s) (delivery s) (data s)
    (framedata s) (opt s) (len s).
Definition upd_format (f : option Z) (r : spec_float) s :=
  mk_smoother (size s) f (flags s) r (opt_needs_swap s) (delivery s) (data s)
    (framedata s) (opt s) (len s).
Definition upd_flags (n : Z) s :=
  mk_smoother (size s) (format s) n (samplesperbyte s) (opt_needs_swap s) (delivery s) (data s)
    (framedata s) (opt s) (len s).
Definition upd_opt (o : option ast_frame) (swap : bool) s :=
  mk_smoother (size s) (format s) (flags s) (samplesperbyte s) swap (delivery s) (data s)
    (framedata s) o (len s).
Definition upd_data (d : list Z) (n : Z) (t : timeval) s :=
  mk_smoother (size s) (format s) (flags s) (samplesperbyte s) (opt_needs_swap s) t d
    (framedata s) (opt s) n.
Definition upd_framedata (d : list Z) s :=
  mk_smoother (size s) (format s) (flags s) (samplesperbyte s) (opt_needs_swap s) (delivery s) (data s)
    d (opt s) (len s).
Definition upd_fdata (d : list Z) f :=
  mk_frame (voice f) (fformat f) d (datalen f) (samples f) (foffset f) (fdelivery f).

(** [ast_swapcopy_samples]: the two bytes of each of the samples are exchanged. *)
Fixpoint swap_bytes (l : list Z) : list Z :=
  match l with
  | a :: b :: l => b :: a :: swap_bytes l
  | _ => l
  end.

Definition ast_swapcopy_samples (dst : list Z) (pos : Z) (src : list Z) (n : Z) : option (list Z) :=
  d ← load_n src 0 (2 * Z.max n 0); store dst pos (swap_bytes d).

Section Formats.
(** [ast_format_cmp(a, b) != AST_FORMAT_CMP_NOT_EQUAL] and
    [ast_format_get_sample_rate]. *)
Context (format_equal : option Z → option Z → bool) (sample_rate : option Z → Z).

Definition g729 s : bool := negb (Z.land (flags s) AST_SMOOTHER_FLAG_G729 =? 0).

Definition smoother_frame_feed s (f : ast_frame) (swap : bool) : option (Z * ast_smoother) :=
  if g729 s && negb (len s %c 10 =? 0) then Some (0, s)
  else
    d ← (if swap then ast_swapcopy_samples (data s) (len s) (fdata f) (samples f)
         else b ← load_n (fdata f) 0 (datalen f); store (data s) (len s) b);
    let t := if (len s =? 0) || ast_tvzero (fdelivery f) || ast_tvzero (delivery s)
             then fdelivery f else delivery s in
    Some (0, upd_data d (len s + datalen f) t s).

Definition zeroed (bytes : Z) : ast_smoother :=
  mk_smoother bytes None 0 (S754_zero false) false (Tv 0 0)
    (replicate (Z.to_nat SMOOTHER_SIZE) 0)
    (replicate (Z.to_nat (SMOOTHER_SIZE + AST_FRIENDLY_OFFSET)) 0) None 0.

Definition ast_smoother_reset (s : ast_smoother) (bytes : Z) : ast_smoother := zeroed bytes.

Definition ast_smoother_reconfigure s (bytes : Z) : option ast_smoother :=
  if size s =? bytes then Some s
  else
    let s := upd_size bytes s in
    match opt s with
    | None => Some s
    | Some f =>
        '(_, s) ← smoother_frame_feed s f (opt_needs_swap s);
        Some (upd_opt None (opt_needs_swap s) s)
    end.

Definition ast_smoother_new (allocated : bool) (bytes : Z) : option ast_smoother :=
  if bytes <? 1 then None
  else if allocated then Some (ast_smoother_reset (zeroed 0) bytes) else None.

Definition ast_smoother_get_flags s : Z := flags s.
Definition ast_smoother_set_flags s (n : Z) : ast_smoother := upd_flags n s.
Definition ast_smoother_test_flag s (n : Z) : Z := Z.land (flags s) n.

(** Refused, or handed to the buffer or to the optimisation. *)
Definition __ast_smoother_feed s (f : ast_frame) (swap : bool) : option (Z * ast_smoother) :=
  if negb (voice f) then Some (-1, s)
  else
    let mismatch := match format s with Some _ => negb (format_equal (format s) (fformat f)) | None => false end in
    let s := match format s with
             | Some _ => s
             | None => upd_format (fformat f) (f32_div (f32_of_Z (samples f)) (f32_of_Z (datalen f))) s
             end in
    if mismatch then Some (-1, s)
    else if SMOOTHER_SIZE <? len s + datalen f then Some (-1, s)
    else if ((datalen f =? size s) || ((datalen f <? 10) && g729 s))
            && match opt s with None => true | Some _ => false end
            && (len s =? 0) && (AST_MIN_OFFSET <=? foffset f) then
      f ← (if swap then (λ d, upd_fdata d f) <$> ast_swapcopy_samples (fdata f) 0 (fdata f) (samples f)
           else Some f);
      Some (0, upd_opt (Some f) swap s)
    else smoother_frame_feed s f swap.

Definition ast_smoother_read s : option (option ast_frame * ast_smoother) :=
  match opt s with
  | Some f => Some (Some f, upd_opt None (opt_needs_swap s) s)
  | None =>
      if (len s <? size s) && negb (g729 s && negb (len s %c 10 =? 0)) then Some (None, s)
      else
        let n := if len s <? size s then len s else size s in
        smp ← f32_to_Z (f32_mul (f32_of_Z n) (samplesperbyte s));
        bytes ← load_n (data s) 0 n;
        fd ← store (framedata s) AST_FRIENDLY_OFFSET bytes;
        let f := mk_frame true (format s) bytes n smp AST_FRIENDLY_OFFSET (delivery s) in
        let s := upd_framedata fd s in
        let rest := len s - n in
        if rest =? 0 then Some (Some f, upd_data (data s) rest (delivery s) s)
        else
          b ← load_n (data s) n rest;
          d ← store (data s) 0 b;
          t ← (if ast_tvzero (delivery s) then Some (delivery s)
               else ast_tvadd (delivery s) <$> ast_samp2tv smp (sample_rate (format s)));
          Some (Some f, upd_data d rest t s)
  end.

End Formats.
End Model.

Module Bytes.
Import Model.

Abbreviation zlen l := (Z.of_nat (length l)).

Lemma swap_bytes_length l : length (swap_bytes l) = length l.
Proof.
  assert (∀ n l, (length l <= n)%nat → length (swap_bytes l) = length l) as H; [|by eapply H].
  induction n as [|n IH]; intros [|a [|b k]] Hk; simpl in *; try done; try lia.
  do 2 f_equal. apply IH. lia.
Qed.

Lemma swap_bytes_twice l : swap_bytes (swap_bytes l) = l.
Proof.
  assert (∀ n l, (length l <= n)%nat → swap_bytes (swap_bytes l) = l) as H; [|by eapply H].
  induction n as [|n IH]; intros [|a [|b k]] Hk; simpl in *; try done; try lia.
  do 2 f_equal. apply IH. lia.
Qed.

Definition frame_bytes (f : ast_frame) : list Z := take (Z.to_nat (datalen f)) (fdata f).

(** The bytes a frame contributes. *)
Definition payload (f : ast_frame) (swap : bool) : list Z :=
  if swap then swap_bytes (frame_bytes f) else frame_bytes f.

(** The bytes in the buffer, and all that a smoother holds. *)
Definition buffered s : list Z := take (Z.to_nat (len s)) (data s).
Definition contents s : list Z :=
  match opt s with Some f => frame_bytes f | None => [] end ++ buffered s.

(** A frame whose data is there; samples to swap are its 16-bit words. *)
Record frame_ok (f : ast_frame) (swap : bool) : Prop := {
  fo_len : 0 <= datalen f <= zlen (fdata f);
  fo_swap : swap = true → datalen f = 2 * samples f;
}.

Lemma payload_length f swap : frame_ok f swap → zlen (payload f swap) = datalen f.
Proof.
  intros [? _]. unfold payload. destruct swap; rewrite ?swap_bytes_length; unfold frame_bytes;
    rewrite length_take; lia.
Qed.

Section Formats.
Context (format_equal : option Z → option Z → bool) (sample_rate : option Z → Z).

(** The number and the duration of the samples of [n] bytes are defined. *)
Definition timed (n : Z) (ratio : spec_float) (fmt : option Z) : Prop :=
  ∃ c tv, f32_to_Z (f32_mul (f32_of_Z n) ratio) = Some c ∧ ast_samp2tv c (sample_rate fmt) = Some tv.

(** A smoother of [n]-byte frames that is not in G.729 mode. *)
Record wf (n : Z) s : Prop := {
  wf_size : size s = n;
  wf_pos : 1 <= n;
  wf_data : zlen (data s) = SMOOTHER_SIZE;
  wf_framedata : zlen (framedata s) = SMOOTHER_SIZE + AST_FRIENDLY_OFFSET;
  wf_len : 0 <= len s <= SMOOTHER_SIZE;
  wf_g729 : g729 s = false;
  wf_opt : ∀ f, opt s = Some f → datalen f = n ∧ n <= zlen (fdata f);
  wf_fresh : format s = None → len s = 0 ∧ opt s = None;
  wf_timed : format s ≠ None → timed n (samplesperbyte s) (format s);
}.

Lemma buffered_length n s : wf n s → zlen (buffered s) = len s.
Proof. intros []. unfold buffered, SMOOTHER_SIZE in *. rewrite length_take. lia. Qed.

Lemma swapcopy_ok dst t src n :
  t `prefix_of` dst → 0 <= n → 2 * n <= zlen src → zlen t + 2 * n <= zlen dst →
  ∃ y, ast_swapcopy_samples dst (zlen t) src n = Some (t ++ swap_bytes (take (Z.to_nat (2 * n)) src) ++ y)
    ∧ length (t ++ swap_bytes (take (Z.to_nat (2 * n)) src) ++ y) = length dst.
Proof.
  intros Hp Hn Hs Hd. unfold ast_swapcopy_samples. rewrite Z.max_l, load_n_ok by lia. simpl.
  assert (length (swap_bytes (take (Z.to_nat (2 * n)) src)) = Z.to_nat (2 * n)) as El
    by (rewrite swap_bytes_length, length_take; lia).
  destruct (store_prefix dst t (swap_bytes (take (Z.to_nat (2 * n)) src)) Hp) as (y & E & Hy & _); [lia|].
  by exists y.
Qed.

(** The write of a frame behind the bytes of the buffer. *)
Lemma feed_write n s f swap :
  wf n s → frame_ok f swap → len s + datalen f <= SMOOTHER_SIZE →
  ∃ d, (if swap then ast_swapcopy_samples (data s) (len s) (fdata f) (samples f)
        else b ← load_n (fdata f) 0 (datalen f); store (data s) (len s) b) = Some d
    ∧ length d = length (data s) ∧ take (Z.to_nat (len s + datalen f)) d = buffered s ++ payload f swap.
Proof.
  intros Hw Hf Hl. pose proof (buffered_length n s Hw) as Hb. pose proof (payload_length f swap Hf) as Hp.
  destruct Hf as [Hlen Hsw]. destruct Hw. rewrite <- Hb.
  assert (buffered s `prefix_of` data s) as Hpre by (exists (drop (Z.to_nat (len s)) (data s)); symmetry; apply take_drop).
  assert (∀ y, take (Z.to_nat (zlen (buffered s) + datalen f)) (buffered s ++ payload f swap ++ y)
               = buffered s ++ payload f swap) as Htake.
  { intros y. rewrite app_assoc. apply take_app_length'. rewrite length_app. lia. }
  destruct swap.
  - specialize (Hsw eq_refl). unfold payload, frame_bytes in *.
    destruct (swapcopy_ok (data s) (buffered s) (fdata f) (samples f) Hpre) as (y & E & Ey); [lia..|].
    rewrite <- Hsw in E, Ey. eexists. split; [exact E|]. split; [exact Ey|]. apply Htake.
  - rewrite load_n_ok by lia. simpl. fold (frame_bytes f). unfold payload in *.
    destruct (store_prefix (data s) (buffered s) (frame_bytes f) Hpre) as (y & E & Ey & _); [lia|].
    eexists. split; [exact E|]. split; [exact Ey|]. apply Htake.
Qed.

Lemma frame_feed_ok n s f swap :
  wf n s → frame_ok f swap → len s + datalen f <= SMOOTHER_SIZE → format s ≠ None →
  ∃ s', smoother_frame_feed s f swap = Some (0, s') ∧ wf n s' ∧ opt s' = opt s ∧ format s' = format s
    ∧ buffered s' = buffered s ++ payload f swap ∧ len s' = len s + datalen f.
Proof.
  intros Hw Hf Hl Hfmt. destruct (feed_write n s f swap Hw Hf Hl) as (d & E & Hd & Ht).
  unfold smoother_frame_feed. rewrite (wf_g729 _ _ Hw). simpl. rewrite E. simpl.
  eexists. split; [done|]. destruct Hw, Hf. split_and!; try done.
  split; simpl; try done; try lia.
Qed.

(** When a frame is refused. *)
Definition refused s (f : ast_frame) : bool :=
  negb (voice f)
  || match format s with Some _ => negb (format_equal (format s) (fformat f)) | None => false end
  || (SMOOTHER_SIZE <? len s + datalen f).

(** The first frame fixes the ratio of samples to bytes. *)
Definition first_ok (n : Z) (f : ast_frame) : Prop :=
  fformat f ≠ None ∧
  timed n (f32_div (f32_of_Z (samples f)) (f32_of_Z (datalen f))) (fformat f).

Lemma feed_ok n s f swap :
  wf n s → frame_ok f swap → (voice f = true → format s = None → first_ok n f) →
  ∃ s', __ast_smoother_feed format_equal s f swap = Some (if refused s f then -1 else 0, s')
    ∧ wf n s' ∧ contents s' = contents s ++ (if refused s f then [] else payload f swap)
    ∧ (voice f = true ∨ format s ≠ None → format s' ≠ None).
Proof.
  intros Hw Hf Hfirst. unfold __ast_smoother_feed, refused.
  destruct (voice f); simpl; [specialize (Hfirst eq_refl)|].
  2:{ exists s. rewrite app_nil_r. split_and!; try done. by intros [|]. }
  set (s1 := match format s with Some _ => s | None => upd_format _ _ s end).
  assert (wf n s1 ∧ contents s1 = contents s ∧ len s1 = len s ∧ opt s1 = opt s ∧ size s1 = size s
          ∧ format s1 ≠ None) as (Hw1 & Hc1 & Hl1 & Ho1 & Hs1 & Hf1).
  { unfold s1. destruct (format s) eqn:E; [by rewrite E|]. destruct (Hfirst eq_refl). split_and!; try done.
    destruct Hw. by split; simpl. }
  rewrite Hl1. clearbody s1.
  destruct (match format s with Some _ => _ | None => false end);
    [exists s1; rewrite app_nil_r; done|]. simpl.
  destruct (Z.ltb_spec SMOOTHER_SIZE (len s + datalen f)); [exists s1; rewrite app_nil_r; done|].
  rewrite (wf_g729 _ _ Hw1), andb_false_r, orb_false_r.
  destruct ((datalen f =? size s1) && match opt s1 with None => true | Some _ => false end
            && (len s =? 0) && (AST_MIN_OFFSET <=? foffset f)) eqn:Eopt.
  - apply andb_prop in Eopt as [[[E1%Z.eqb_eq E2]%andb_prop E3%Z.eqb_eq]%andb_prop _].
    destruct (opt s1) eqn:Eo; [done|].
    assert (contents s = []) as Hc0.
    { rewrite <- Hc1. unfold contents, buffered. by rewrite Eo, Hl1, E3. }
    assert (∃ f', (if swap then (λ d, upd_fdata d f) <$> ast_swapcopy_samples (fdata f) 0 (fdata f) (samples f)
                   else Some f) = Some f' ∧ datalen f' = datalen f ∧ length (fdata f') = length (fdata f)
                   ∧ frame_bytes f' = payload f swap) as (f' & -> & Ed & El & Ep).
    { pose proof (payload_length f swap Hf) as Hpl. destruct swap; [|by exists f].
      destruct Hf as [Hlen Hsw]. specialize (Hsw eq_refl).
      destruct (swapcopy_ok (fdata f) [] (fdata f) (samples f)) as (y & E & Ey);
        [apply prefix_nil|lia|lia|simpl; lia|].
      change (zlen (@nil Z)) with 0 in E. rewrite E. simpl in *. eexists. split; [done|].
      rewrite <- Hsw in *. split_and!; try done. unfold frame_bytes, payload in *. simpl.
      apply take_app_length'. unfold frame_bytes in Hpl. lia. }
    simpl. eexists. split; [done|]. destruct Hw1. split.
    + split; simpl; try done. intros g [= <-]. destruct Hf. lia.
    + split; [|done]. rewrite Hc0. unfold contents, buffered. simpl. rewrite Hl1, E3, Ep. simpl.
      by rewrite app_nil_r.
  - destruct (frame_feed_ok n s1 f swap Hw1 Hf) as (s' & -> & Hw' & Ho' & Hf' & Hb' & _); [lia|done|].
    exists s'. split; [done|]. split; [done|]. split; [|by rewrite Hf'].
    rewrite <- Hc1. unfold contents. by rewrite Ho', Hb', app_assoc.
Qed.

(** A read takes one frame of [n] bytes, when there is one. *)
Lemma read_ok n s :
  wf n s →
  if zlen (contents s) <? n then ast_smoother_read sample_rate s = Some (None, s)
  else ∃ f s', ast_smoother_read sample_rate s = Some (Some f, s') ∧ wf n s' ∧ format s' = format s
    ∧ datalen f = n ∧ frame_bytes f = take (Z.to_nat n) (contents s)
    ∧ contents s' = drop (Z.to_nat n) (contents s).
Proof.
  intros Hw. pose proof (buffered_length n s Hw) as Hb. unfold ast_smoother_read, contents.
  destruct (opt s) as [f|] eqn:Eo.
  - destruct (wf_opt _ _ Hw f Eo) as [Ed El].
    assert (zlen (frame_bytes f) = n) as Hfb by (unfold frame_bytes; rewrite length_take; pose proof (wf_pos _ _ Hw); lia).
    destruct (Z.ltb_spec (zlen (frame_bytes f ++ buffered s)) n); [rewrite length_app in *; lia|].
    eexists _, _. split; [done|]. split_and!; try done.
    + destruct Hw. split; simpl; try done. by intros [? ?]%wf_fresh0.
    + symmetry. apply take_app_length'. lia.
    + simpl. symmetry. apply drop_app_length'. lia.
  - simpl. rewrite Hb, (wf_g729 _ _ Hw). simpl. rewrite andb_true_r, (wf_size _ _ Hw).
    destruct (Z.ltb_spec (len s) n) as [|Hge]; [done|].
    destruct Hw. assert (format s ≠ None) as Hfmt by (intros [? _]%wf_fresh0; lia).
    destruct (wf_timed0 Hfmt) as (c & tv & Ec & Etv). rewrite Ec. simpl.
    unfold SMOOTHER_SIZE, AST_FRIENDLY_OFFSET in *. rewrite (load_n_ok (data s) 0 n) by lia. simpl.
    change (drop (Z.to_nat 0) (data s)) with (data s).
    set (b := take (Z.to_nat n) (data s)).
    assert (length b = Z.to_nat n) as Hlb by (unfold b; rewrite length_take; lia).
    destruct (store_prefix (framedata s) (take 64 (framedata s)) b) as (y & E & Ey & _).
    { exists (drop 64 (framedata s)). symmetry. apply take_drop. }
    { rewrite length_take. lia. }
    rewrite length_take, Nat.min_l in E by lia. change (Z.of_nat 64) with 64 in E. rewrite E. simpl.
    set (fd := take 64 (framedata s) ++ b ++ y) in *. clearbody fd.
    assert (frame_bytes (mk_frame true (format s) b n c 64 (delivery s)) = take (Z.to_nat n) (buffered s)) as Efb.
    { unfold frame_bytes, buffered. simpl. rewrite take_take, Nat.min_l by lia.
      rewrite <- Hlb at 1. rewrite take_ge by lia. done. }
    destruct (Z.eqb_spec (len s - n) 0) as [E0|E0].
    + eexists _, _. split; [done|]. split_and!; try done.
      * split; simpl; unfold SMOOTHER_SIZE, AST_FRIENDLY_OFFSET; try done; try lia; intros; congruence.
      * unfold contents, buffered. simpl. rewrite Eo, E0. simpl. symmetry. apply drop_ge. unfold buffered in Hb. lia.
    + rewrite (load_n_ok (data s) n) by lia. simpl.
      set (r := take (Z.to_nat (len s - n)) (drop (Z.to_nat n) (data s))).
      assert (zlen r = len s - n) as Hlr by (unfold r; rewrite length_take, length_drop; lia).
      destruct (store_prefix (data s) [] r) as (z & Ez & Hz & _); [apply prefix_nil|simpl; lia|].
      change (Z.of_nat (@length Z [])) with 0 in Ez. rewrite Ez. simpl in *.
      assert (∃ t, (if ast_tvzero (delivery s) then Some (delivery s)
                    else ast_tvadd (delivery s) <$> ast_samp2tv c (sample_rate (format s))) = Some t) as [t ->]
        by (rewrite Etv; case_match; by eexists).
      simpl. eexists _, _. split; [done|]. split_and!; try done.
      * split; simpl; unfold SMOOTHER_SIZE, AST_FRIENDLY_OFFSET; try done; try lia; intros; congruence.
      * unfold contents, buffered. simpl. rewrite Eo. simpl.
        rewrite take_app_length' by lia. unfold r. rewrite skipn_firstn_comm. f_equal. lia.
Qed.

(** ** Runs *)

Inductive op :=
| Feed (f : ast_frame) (swap : bool)
| Read.

(** Every frame fed has its data; the first voice frame, which fixes the format
    and the ratio, has one for which sample counts are defined. *)
Fixpoint ops_ok (n : Z) (begun : bool) (os : list op) : Prop :=
  match os with
  | [] => True
  | Feed f swap :: os =>
      frame_ok f swap ∧ (voice f = true → begun = false → first_ok n f) ∧ ops_ok n (begun || voice f) os
  | Read :: os => ops_ok n begun os
  end.

(** The bytes accepted by the smoother and the frames it gave, so far. *)
Record trace := mk_trace { accepted : list Z; given : list ast_frame }.

Definition step (o : op) (s : ast_smoother) (tr : trace) : option (ast_smoother * trace) :=
  match o with
  | Feed f swap =>
      '(ret, s) ← __ast_smoother_feed format_equal s f swap;
      Some (s, if ret =? 0 then mk_trace (accepted tr ++ payload f swap) (given tr) else tr)
  | Read =>
      '(r, s) ← ast_smoother_read sample_rate s;
      Some (s, match r with Some f => mk_trace (accepted tr) (given tr ++ [f]) | None => tr end)
  end.

Fixpoint run (os : list op) (s : ast_smoother) (tr : trace) : option (ast_smoother * trace) :=
  match os with
  | [] => Some (s, tr)
  | o :: os => '(s, tr) ← step o s tr; run os s tr
  end.

Record smooth (n : Z) (begun : bool) s (tr : trace) : Prop := {
  sm_wf : wf n s;
  sm_begun : begun = true → format s ≠ None;
  sm_bytes : accepted tr = concat (frame_bytes <$> given tr) ++ contents s;
  sm_given : Forall (λ f, datalen f = n ∧ zlen (frame_bytes f) = n) (given tr);
}.

Lemma feed_smooth n begun s tr f swap :
  smooth n begun s tr → frame_ok f swap → (voice f = true → begun = false → first_ok n f) →
  ∃ s' tr', step (Feed f swap) s tr = Some (s', tr') ∧ smooth n (begun || voice f) s' tr'.
Proof.
  intros [Hw Hb Ha Hg] Hf Hfo.
  destruct (feed_ok n s f swap Hw Hf) as (s' & E & Hw' & Hc & Hfmt).
  { intros Hv Hn. apply Hfo; [done|]. destruct begun; [by destruct (Hb eq_refl)|done]. }
  simpl. rewrite E. simpl. eexists _, _. split; [done|]. split; [done|..].
  - intros [Hx|Hv]%orb_prop; apply Hfmt; [right; by apply Hb|by left].
  - destruct (refused s f); simpl; [by rewrite Ha, Hc, app_nil_r|by rewrite Ha, Hc, app_assoc].
  - by destruct (refused s f).
Qed.

Lemma read_smooth n begun s tr :
  smooth n begun s tr → ∃ s' tr', step Read s tr = Some (s', tr') ∧ smooth n begun s' tr'.
Proof.
  intros [Hw Hb Ha Hg]. pose proof (read_ok n s Hw) as Hr. simpl.
  destruct (Z.ltb_spec (zlen (contents s)) n).
  - rewrite Hr. simpl. by eexists _, _.
  - destruct Hr as (f & s' & -> & Hw' & Hfmt & Hd & Hfb & Hc). simpl. eexists _, _. split; [done|].
    split; simpl; [done|by rewrite Hfmt|..].
    + rewrite fmap_app, concat_app. simpl. rewrite app_nil_r, <- app_assoc, Hfb, Hc, take_drop. done.
    + apply Forall_app. split; [done|]. apply Forall_singleton. split; [done|].
      rewrite Hfb, length_take. pose proof (wf_pos _ _ Hw). lia.
Qed.

Lemma run_smooth n begun os s tr :
  smooth n begun s tr → ops_ok n begun os →
  ∃ begun' s' tr', run os s tr = Some (s', tr') ∧ smooth n begun' s' tr'.
Proof.
  revert begun s tr. induction os as [|[f swap|] os IH]; intros begun s tr Hs Hos; cbn [run].
  - by eexists _, _, _.
  - destruct Hos as (Hf & Hfo & Hos).
    destruct (feed_smooth n begun s tr f swap Hs Hf Hfo) as (s1 & tr1 & -> & Hs1). by eapply IH.
  - destruct (read_smooth n begun s tr Hs) as (s1 & tr1 & -> & Hs1). by eapply IH.
Qed.

Lemma zeroed_wf n : 1 <= n → wf n (zeroed n).
Proof.
  intros Hn. split; cbn [size data framedata len opt format zeroed]; rewrite ?length_replicate;
    try reflexivity; try done.
Qed.

End Formats.
End Bytes.

Module Properties.
Import Model Bytes.

(** C37: a smoother that is not in G.729 mode neither loses, duplicates nor
    reorders bytes.  From creation with frame size [n], over any sequence of feeds
    (with or without byte swapping, accepted or refused) and reads, where every
    frame fed has the bytes its length says (16-bit samples when they are to be
    swapped) and the first voice frame has a format and a ratio of samples to
    bytes for which the samples of a frame are defined (not so for an empty one,
    see [smoother_empty_first_frame]), every operation succeeds; the
    bytes of the frames given out, followed by the bytes still held, are exactly
    the bytes of the accepted frames; every frame given out has [n] bytes; and a
    read gives nothing only when fewer than [n] bytes are held. *)
Theorem smoother_run_correct (format_equal : option Z → option Z → bool) (sample_rate : option Z → Z)
    (n : Z) (os : list op) :
  1 <= n → ops_ok sample_rate n false os →
  ∃ s0 s tr, ast_smoother_new true n = Some s0
    ∧ run format_equal sample_rate os s0 (mk_trace [] []) = Some (s, tr)
    ∧ accepted tr = concat (frame_bytes <$> given tr) ++ contents s
    ∧ Forall (λ f, datalen f = n ∧ zlen (frame_bytes f) = n) (given tr)
    ∧ ∃ r s', ast_smoother_read sample_rate s = Some (r, s') ∧ (r = None ↔ zlen (contents s) < n).
Proof.
  intros Hn Hos. exists (zeroed n).
  destruct (run_smooth format_equal sample_rate n false os (zeroed n) (mk_trace [] []))
    as (? & s & tr & E & [Hw _ Ha Hg]); [|done|].
  { split; [by apply zeroed_wf|done..]. }
  exists s, tr. split.
  { unfold ast_smoother_new. by destruct (Z.ltb_spec n 1); [lia|]. }
  split_and!; try done. pose proof (read_ok sample_rate n s Hw) as Hr.
  destruct (Z.ltb_spec (zlen (contents s)) n).
  - eexists _, _. by split.
  - destruct Hr as (f & s' & Er & _). eexists _, _. split; [done|]. split; [done|lia].
Qed.

Definition slin3 (b : list Z) : ast_frame := mk_frame true (Some 1) b 6 3 64 (Tv 0 0).

Lemma smoother_run_correct_witness :
  (∃ s0 s tr, ast_smoother_new true 4 = Some s0
    ∧ run (λ _ _, true) (λ _, 8000) [Feed (slin3 [1; 2; 3; 4; 5; 6]) true; Read; Read] s0 (mk_trace [] [])
      = Some (s, tr)
    ∧ accepted tr = concat (frame_bytes <$> given tr) ++ contents s
    ∧ Forall (λ f, datalen f = 4 ∧ zlen (frame_bytes f) = 4) (given tr)
    ∧ ∃ r s', ast_smoother_read (λ _, 8000) s = Some (r, s') ∧ (r = None ↔ zlen (contents s) < 4))
  ∧ (λ r, (frame_bytes <$> given r.2, samples <$> given r.2, contents r.1))
      <$> run (λ _ _, true) (λ _, 8000) [Feed (slin3 [1; 2; 3; 4; 5; 6]) true; Read; Read] (zeroed 4) (mk_trace [] [])
    = Some ([[2; 1; 4; 3]], [2], [6; 5]).
Proof.
  split; [|vm_compute; reflexivity].
  refine (smoother_run_correct (λ _ _, true) (λ _, 8000) 4
            [Feed (slin3 [1; 2; 3; 4; 5; 6]) true; Read; Read] _ _); [lia|].
  split; [split; [simpl; lia|reflexivity]|]. split; [|exact I]. intros _ _. split; [discriminate|].
  exists 2, (Tv 0 250). split; vm_compute; reflexivity.
Defined.

(** A first voice frame without data is accepted and makes the ratio infinite:
    the number of samples of the next frame read from the buffer is undefined. *)
Example smoother_empty_first_frame :
  let feeds := [Feed (mk_frame true (Some 1) [] 0 0 64 (Tv 0 0)) false; Feed (slin3 [1; 2; 3; 4; 5; 6]) false] in
  let start os := run (λ _ _, true) (λ _, 8000) os (zeroed 4) (mk_trace [] []) in
  ((λ r, contents r.1) <$> start feeds) = Some [1; 2; 3; 4; 5; 6] ∧ start (feeds ++ [Read]) = None.
Proof. split; vm_compute; reflexivity. Qed.

(** In G.729 mode a frame that comes while the buffer ends in a frame of silence
    (one of less than 10 bytes) is dropped, and the feed returns 0. *)
Example smoother_g729_drops_frame :
  let g729_frame (n : nat) := mk_frame true (Some 18) (replicate n 7) (Z.of_nat n) 80 64 (Tv 0 0) in
  let feed f s := '(ret, s) ← __ast_smoother_feed (λ _ _, true) s f false; Some (ret, len s, s) in
  let s0 := upd_flags AST_SMOOTHER_FLAG_G729 (zeroed 20) in
  ∃ s1 s2 s3, feed (g729_frame 10%nat) s0 = Some (0, 10, s1) ∧ feed (g729_frame 2%nat) s1 = Some (0, 12, s2)
    ∧ feed (g729_frame 10%nat) s2 = Some (0, 12, s3).
Proof. do 3 eexists. split_and!; vm_compute; reflexivity. Qed.

(** Codec frames as (samples, bytes): signed linear, G.711, 4-bit ADPCM, G.729,
    GSM, iLBC (20 and 30 ms) and G.723.1 (both rates). *)
Definition codec_frames : list (Z * Z) :=
  [(160, 320); (160, 160); (160, 80); (80, 10); (160, 33); (160, 38); (240, 50); (240, 24); (240, 20)].

Definition exact_count (smp bytes : Z) (k : nat) : bool :=
  let k := Z.of_nat k in
  match f32_to_Z (f32_mul (f32_of_Z (k * bytes)) (f32_div (f32_of_Z smp) (f32_of_Z bytes))) with
  | Some c => c =? k * smp
  | None => false
  end.

Lemma exact_counts :
  forallb (λ p, forallb (exact_count p.1 p.2) (seq 0 (S (Z.to_nat (SMOOTHER_SIZE / p.2))))) codec_frames = true.
Proof. vm_compute. reflexivity. Qed.

Lemma exact_count_ok smp bytes k :
  (smp, bytes) ∈ codec_frames → 0 <= k → k * bytes <= SMOOTHER_SIZE → 0 < bytes →
  f32_to_Z (f32_mul (f32_of_Z (k * bytes)) (f32_div (f32_of_Z smp) (f32_of_Z bytes))) = Some (k * smp).
Proof.
  intros Hin Hk Hle Hpos. pose proof exact_counts as H. rewrite forallb_forall in H.
  specialize (H _ (proj1 (list_elem_of_In _ _) Hin)). cbn [fst snd] in H. rewrite forallb_forall in H.
  assert (In (Z.to_nat k) (seq 0 (S (Z.to_nat (SMOOTHER_SIZE / bytes))))) as Hk'.
  { apply in_seq. assert (k <= SMOOTHER_SIZE / bytes) by (apply Z.div_le_lower_bound; lia). lia. }
  specialize (H _ Hk'). unfold exact_count in H. rewrite Z2Nat.id in H by lia.
  destruct (f32_to_Z _) as [c|]; [|done]. apply Z.eqb_eq in H. by subst.
Qed.

(** The sample counts, computed in [float], are exact for whole codec
    frames: when the ratio comes from one codec frame of signed linear, G.711,
    4-bit ADPCM, G.729, GSM, iLBC or G.723.1 and the frame size is [k] codec
    frames, every frame read from the buffer carries [k] times the samples of
    a codec frame (the multiplication never truncates one away). *)
Theorem smoother_samples_exact (sample_rate : option Z → Z) (smp bytes k : Z) (s : ast_smoother) :
  (smp, bytes) ∈ codec_frames → 0 < k → k * bytes <= SMOOTHER_SIZE →
  samplesperbyte s = f32_div (f32_of_Z smp) (f32_of_Z bytes) →
  wf sample_rate (k * bytes) s → opt s = None → k * bytes <= len s →
  ∃ f s', ast_smoother_read sample_rate s = Some (Some f, s')
    ∧ samples f = k * smp ∧ datalen f = k * bytes ∧ fdelivery f = delivery s.
Proof.
  intros Hin Hk Hle Hr Hw Ho Hl. pose proof (read_ok sample_rate _ s Hw) as Hread.
  pose proof (buffered_length _ _ _ Hw) as Hb.
  assert (0 < bytes) as Hpos by (pose proof (wf_pos _ _ _ Hw); nia).
  destruct (Z.ltb_spec (zlen (contents s)) (k * bytes)) as [Hlt|_].
  { unfold contents in Hlt. rewrite Ho in Hlt. simpl in Hlt. lia. }
  destruct Hread as (f & s' & E & _). exists f, s'. split; [done|]. revert E.
  unfold ast_smoother_read. rewrite Ho, (wf_size _ _ _ Hw).
  destruct (Z.ltb_spec (len s) (k * bytes)); [lia|]. simpl.
  rewrite Hr, (exact_count_ok smp bytes k) by (done || lia). simpl. intros E.
  repeat (case_match || (apply bind_Some in E as (? & _ & E))); by simplify_eq.
Qed.

Lemma smoother_samples_exact_witness :
  let s := mk_smoother 66 (Some 3) 0 (f32_div (f32_of_Z 160) (f32_of_Z 33)) false (Tv 5 0)
             (replicate (Z.to_nat 8000) 1) (replicate (Z.to_nat 8064) 0) None 100 in
  ∃ f s', ast_smoother_read (λ _, 8000) s = Some (Some f, s')
    ∧ samples f = 2 * 160 ∧ datalen f = 2 * 33 ∧ fdelivery f = Tv 5 0.
Proof.
  intros s. refine (smoother_samples_exact (λ _, 8000) 160 33 2 s _ _ _ _ _ _ _).
  - unfold codec_frames. do 4 right. left.
  - lia.
  - unfold SMOOTHER_SIZE. lia.
  - reflexivity.
  - split; try reflexivity.
    + lia.
    + simpl. unfold SMOOTHER_SIZE. lia.
    + discriminate.
    + discriminate.
    + intros _. exists 320, (Tv 0 40000). split; vm_compute; reflexivity.
  - reflexivity.
  - simpl. lia.
Defined.

(** Reconfiguring a smoother whose optimised frame is pending misplaces
    it: the frame's bytes, which come first in the stream, are put behind the
    bytes of the buffer, and if they were byte swapped when fed they are swapped
    again; when the buffer has no room for them the write leaves it. *)
Theorem ast_smoother_reconfigure_pending (sample_rate : option Z → Z) (n m : Z) (s : ast_smoother)
    (f : ast_frame) :
  wf sample_rate n s → opt s = Some f → frame_ok f (opt_needs_swap s) → m ≠ n →
  contents s = frame_bytes f ++ buffered s ∧
  if len s + n <=? SMOOTHER_SIZE then
    ∃ s', ast_smoother_reconfigure s m = Some s' ∧ size s' = m ∧ opt s' = None
      ∧ contents s' = buffered s ++ payload f (opt_needs_swap s)
  else ast_smoother_reconfigure s m = None.
Proof.
  intros Hw Ho Hf Hm. split; [unfold contents; by rewrite Ho|].
  assert (format s ≠ None) as Hfmt by (intros [_ ?]%(wf_fresh _ _ _ Hw); congruence).
  destruct (wf_opt _ _ _ Hw f Ho) as [Ed El].
  unfold ast_smoother_reconfigure. rewrite (wf_size _ _ _ Hw).
  destruct (Z.eqb_spec n m); [congruence|]. simpl. rewrite Ho.
  unfold smoother_frame_feed. change (g729 (upd_size m s)) with (g729 s).
  rewrite (wf_g729 _ _ _ Hw). simpl. destruct (Z.leb_spec (len s + n) SMOOTHER_SIZE).
  - destruct (feed_write sample_rate n s f (opt_needs_swap s) Hw Hf) as (d & -> & Hd & Ht); [lia|].
    simpl. eexists. split; [done|]. split_and!; try done.
  - destruct Hw, Hf. unfold store, ast_swapcopy_samples. destruct (opt_needs_swap s).
    + rewrite Z.max_l, load_n_ok by (specialize (fo_swap0 eq_refl); lia). simpl. unfold store.
      rewrite swap_bytes_length, length_take, length_drop.
      destruct (Z.leb_spec 0 (len s)); [|done]. simpl. specialize (fo_swap0 eq_refl).
      match goal with |- context [?a <=? ?b] => destruct (Z.leb_spec a b) as [Hc|]; [|done] end. lia.
    + rewrite load_n_ok by lia. simpl. rewrite length_take, length_drop.
      destruct (Z.leb_spec 0 (len s)); [|done]. simpl.
      match goal with |- context [?a <=? ?b] => destruct (Z.leb_spec a b) as [Hc|]; [|done] end. lia.
Qed.

Definition swapped_pending : ast_smoother :=
  mk_smoother 4 (Some 1) 0 (f32_div (f32_of_Z 2) (f32_of_Z 4)) true (Tv 0 0)
    (7 :: replicate (Z.to_nat 7999) 0) (replicate (Z.to_nat 8064) 0)
    (Some (mk_frame true (Some 1) [2; 1; 4; 3] 4 2 64 (Tv 0 0))) 1.

Lemma ast_smoother_reconfigure_pending_witness :
  let f := mk_frame true (Some 1) [2; 1; 4; 3] 4 2 64 (Tv 0 0) in
  (contents swapped_pending = frame_bytes f ++ buffered swapped_pending ∧
   if len swapped_pending + 4 <=? SMOOTHER_SIZE then
    ∃ s', ast_smoother_reconfigure swapped_pending 2 = Some s' ∧ size s' = 2 ∧ opt s' = None
      ∧ contents s' = buffered swapped_pending ++ payload f true
   else ast_smoother_reconfigure swapped_pending 2 = None)
  ∧ contents swapped_pending = [2; 1; 4; 3; 7]
  ∧ contents <$> ast_smoother_reconfigure swapped_pending 2 = Some [7; 1; 2; 3; 4].
Proof.
  intros f. split; [|split; vm_compute; reflexivity].
  refine (ast_smoother_reconfigure_pending (λ _, 8000) 4 2 swapped_pending f _ eq_refl _ _).
  - split; try reflexivity.
    + lia.
    + simpl. unfold SMOOTHER_SIZE. lia.
    + intros g [= <-]. split; [reflexivity|simpl; lia].
    + discriminate.
    + intros _. exists 2, (Tv 0 250). split; vm_compute; reflexivity.
  - split; [simpl; lia|reflexivity].
  - lia.
Defined.

End Properties.
