(* ===== verification/Audiohook.v ===== *)
(** * Audio hooks ([main/audiohook.c])

    A spy hook receives the audio of a channel: frames of each direction are
    written to a signed linear factory of their own, and a consumer reads either
    stream, or both mixed into one.  The file builds on SlinFactory.v.

    - [Model]: initialisation and destruction, the internal rate, writing and
      reading with their flags, volumes, mixing and translation.  The clock, the
      outcomes of allocations, of the translation core and of the format cache
      are arguments, as is the initial content of a local buffer.
    - [Mixing]: saturating arithmetic and what the buffers are used for.
    - [Hook]: the two streams a hook holds, and how the operations act on them.
    - [Properties]: the theorems.

    [None] is an access outside a buffer or a division by zero. *)

From stdpp Require Import base numbers list.
From Stdlib Require Import ZArith Lia.
From S2P Require Import Prelude Timeval SlinFactory.
Import SlinFactory.Model.

Local Open Scope cint_scope.

Module Model.

Definition AST_AUDIOHOOK_SYNC_TOLERANCE : Z := 100.
Definition AST_AUDIOHOOK_SMALL_QUEUE_TOLERANCE : Z := 100.
Definition AST_AUDIOHOOK_LONG_QUEUE_TOLERANCE : Z := 500.
Definition DEFAULT_INTERNAL_SAMPLE_RATE : Z := 8000.

Inductive ast_audiohook_type :=
| AST_AUDIOHOOK_TYPE_SPY
| AST_AUDIOHOOK_TYPE_WHISPER
| AST_AUDIOHOOK_TYPE_MANIPULATE.

Inductive ast_audiohook_status :=
| AST_AUDIOHOOK_STATUS_NEW
| AST_AUDIOHOOK_STATUS_RUNNING
| AST_AUDIOHOOK_STATUS_SHUTDOWN
| AST_AUDIOHOOK_STATUS_DONE.

Inductive ast_audiohook_direction :=
| AST_AUDIOHOOK_DIRECTION_READ
| AST_AUDIOHOOK_DIRECTION_WRITE
| AST_AUDIOHOOK_DIRECTION_BOTH.

#[global] Instance direction_eq_dec : EqDecision ast_audiohook_direction.
Proof. solve_decision. Defined.
#[global] Instance status_eq_dec : EqDecision ast_audiohook_status.
Proof. solve_decision. Defined.

Definition AST_AUDIOHOOK_TRIGGER_MODE : Z := 3.
Definition AST_AUDIOHOOK_TRIGGER_READ : Z := 1.
Definition AST_AUDIOHOOK_TRIGGER_WRITE : Z := 2.
Definition AST_AUDIOHOOK_TRIGGER_SYNC : Z := 8.
Definition AST_AUDIOHOOK_SMALL_QUEUE : Z := 16.
Definition AST_AUDIOHOOK_MUTE_READ : Z := 32.
Definition AST_AUDIOHOOK_MUTE_WRITE : Z := 64.
Definition AST_AUDIOHOOK_COMPATIBLE : Z := 128.
Definition AST_AUDIOHOOK_SUBSTITUTE_SILENCE : Z := 256.

Record ast_audiohook := mk_hook {
  type : ast_audiohook_type;
  status : ast_audiohook_status;
  flags : Z;
  read_factory : ast_slinfactory;
  write_factory : ast_slinfactory;
  read_time : timeval;
  write_time : timeval;
  hformat : option Z;
  trans_pvt : option Z;
  read_volume : Z;
  write_volume : Z;
  hook_internal_samp_rate : Z;
  direction : ast_audiohook_direction;
}.

Definition upd_factories (r w : ast_slinfactory) ah :=
  mk_hook (type ah) (status ah) (flags ah) r w (read_time ah) (write_time ah) (hformat ah)
    (trans_pvt ah) (read_volume ah) (write_volume ah) (hook_internal_samp_rate ah) (direction ah).
Definition upd_times (r w : timeval) ah :=
  mk_hook (type ah) (status ah) (flags ah) (read_factory ah) (write_factory ah) r w (hformat ah)
    (trans_pvt ah) (read_volume ah) (write_volume ah) (hook_internal_samp_rate ah) (direction ah).
Definition upd_trans_pvt (p : option Z) (f : option Z) ah :=
  mk_hook (type ah) (status ah) (flags ah) (read_factory ah) (write_factory ah) (read_time ah)
    (write_time ah) f p (read_volume ah) (write_volume ah) (hook_internal_samp_rate ah) (direction ah).
Definition upd_rate (n : Z) ah :=
  mk_hook (type ah) (status ah) (flags ah) (read_factory ah) (write_factory ah) (read_time ah)
    (write_time ah) (hformat ah) (trans_pvt ah) (read_volume ah) (write_volume ah) n (direction ah).
Definition upd_setup (t : ast_audiohook_type) (s : ast_audiohook_status) (d : ast_audiohook_direction) ah :=
  mk_hook t s (flags ah) (read_factory ah) (write_factory ah) (read_time ah)
    (write_time ah) (hformat ah) (trans_pvt ah) (read_volume ah) (write_volume ah)
    (hook_internal_samp_rate ah) d.

Definition test_flag ah (flag : Z) : Z := Z.land (flags ah) flag.
Definition has_flag ah (flag : Z) : bool := negb (test_flag ah flag =? 0).

(** ** Sample arithmetic ([include/asterisk/utils.h], [main/frame.c]) *)

Definition saturate (res : Z) : Z :=
  if 32767 <? res then 32767 else if res <? -32768 then -32768 else s16 res.

Definition ast_slinear_saturated_add (input value : Z) : Z := saturate (input + value).
Definition ast_slinear_saturated_multiply (input value : Z) : Z := saturate (input * value).
Definition ast_slinear_saturated_divide (input value : Z) : option Z :=
  if value =? 0 then None else Some (s16 (input /c value)).

(** The volume loop; [adjust_value] is a [short]. *)
Definition adjust (volume : Z) (buf : list Z) : option (list Z) :=
  let adjust_value := s16 (Z.abs volume) in
  mapM (λ x, if 0 <? volume then Some (ast_slinear_saturated_multiply x adjust_value)
             else if volume <? 0 then ast_slinear_saturated_divide x adjust_value
             else Some x) buf.

Section Formats.
(** The format core: [ast_format_cache_is_slinear], [ast_format_cmp],
    [ast_format_cache_get_slin_by_rate], [ast_format_get_sample_rate]. *)
Context (is_slinear : Z → bool) (format_equal : Z → Z → bool)
  (slin_by_rate : Z → Z) (sample_rate : Z → Z).

(** ** Setting up *)

Definition has_factories (t : ast_audiohook_type) : bool :=
  match t with AST_AUDIOHOOK_TYPE_MANIPULATE => false | _ => true end.

Definition audiohook_set_internal_rate ah (rate : Z) (reset : bool) : list effect * ast_audiohook :=
  if hook_internal_samp_rate ah =? u32 rate then ([], ah)
  else
    let ah := upd_rate (u32 rate) ah in
    let slin := slin_by_rate rate in
    if has_factories (type ah) then
      let log := if reset then (ast_slinfactory_destroy (read_factory ah)).1
                               ++ (ast_slinfactory_destroy (write_factory ah)).1
                 else [] in
      (log, upd_factories (ast_slinfactory_init_with_format is_slinear slin).2
              (ast_slinfactory_init_with_format is_slinear slin).2 ah)
    else ([], ah).

Definition ast_audiohook_init ah (t : ast_audiohook_type) : list effect * ast_audiohook :=
  let '(log, ah) :=
    audiohook_set_internal_rate (upd_setup t (status ah) AST_AUDIOHOOK_DIRECTION_BOTH ah)
      DEFAULT_INTERNAL_SAMPLE_RATE false in
  (log, upd_setup (type ah) AST_AUDIOHOOK_STATUS_NEW (direction ah) ah).

Definition ast_audiohook_destroy ah : list effect :=
  (if has_factories (type ah)
   then (ast_slinfactory_destroy (read_factory ah)).1 ++ (ast_slinfactory_destroy (write_factory ah)).1
   else [])
  ++ match trans_pvt ah with Some p => [Free (Path p)] | None => [] end.

Definition ast_audiohook_set_frame_feed_direction ah (d : ast_audiohook_direction) : Z * ast_audiohook :=
  if negb (bool_decide (status ah = AST_AUDIOHOOK_STATUS_NEW)) then (-1, ah)
  else (0, upd_setup (type ah) (status ah) d ah).

Definition SHOULD_MUTE ah (d : ast_audiohook_direction) : bool :=
  (has_flag ah AST_AUDIOHOOK_MUTE_READ && bool_decide (d = AST_AUDIOHOOK_DIRECTION_READ))
  || (has_flag ah AST_AUDIOHOOK_MUTE_WRITE && bool_decide (d = AST_AUDIOHOOK_DIRECTION_WRITE))
  || (test_flag ah (Z.lor AST_AUDIOHOOK_MUTE_READ AST_AUDIOHOOK_MUTE_WRITE)
      =? Z.lor AST_AUDIOHOOK_MUTE_READ AST_AUDIOHOOK_MUTE_WRITE).

(** ** Writing *)

Definition is_read (d : ast_audiohook_direction) : bool :=
  bool_decide (d = AST_AUDIOHOOK_DIRECTION_READ).

(** [factory] and [other_factory]. *)
Definition ours ah (d : ast_audiohook_direction) : ast_slinfactory :=
  if is_read d then read_factory ah else write_factory ah.
Definition others ah (d : ast_audiohook_direction) : ast_slinfactory :=
  if is_read d then write_factory ah else read_factory ah.
Definition set_ours (d : ast_audiohook_direction) (f other : ast_slinfactory) ah : ast_audiohook :=
  if is_read d then upd_factories f other ah else upd_factories other f ah.

Definition flush_both (d : ast_audiohook_direction) ah : list effect * ast_audiohook :=
  let '(log1, f) := ast_slinfactory_flush (ours ah d) in
  let '(log2, o) := ast_slinfactory_flush (others ah d) in
  (log1 ++ log2, set_ours d f o ah).

(** The flushes that keep the directions in step and the queues short. *)
Definition flush_stale (d : ast_audiohook_direction) (our_ms other_ms : Z) ah : list effect * ast_audiohook :=
  let '(log1, ah) :=
    if has_flag ah AST_AUDIOHOOK_TRIGGER_SYNC && (AST_AUDIOHOOK_SYNC_TOLERANCE <? s32 (our_ms - other_ms))
    then flush_both d ah else ([], ah) in
  let '(log2, ah) :=
    if has_flag ah AST_AUDIOHOOK_SMALL_QUEUE
       && ((AST_AUDIOHOOK_SMALL_QUEUE_TOLERANCE <? our_ms) || (AST_AUDIOHOOK_SMALL_QUEUE_TOLERANCE <? other_ms))
    then flush_both d ah
    else if (AST_AUDIOHOOK_LONG_QUEUE_TOLERANCE <? our_ms) || (AST_AUDIOHOOK_LONG_QUEUE_TOLERANCE <? other_ms)
    then flush_both d ah else ([], ah) in
  (log1 ++ log2, ah).

Definition ast_audiohook_write_frame (now : timeval) (env : feed_env) ah
    (d : ast_audiohook_direction) (f : ast_frame) : option (list effect * bool * ast_audiohook) :=
  if negb (bool_decide (direction ah = AST_AUDIOHOOK_DIRECTION_BOTH)) && negb (bool_decide (direction ah = d))
  then Some ([], false, ah)
  else
    let previous_time := if is_read d then read_time ah else write_time ah in
    let ah := if is_read d then upd_times now (write_time ah) ah else upd_times (read_time ah) now ah in
    let per_ms := hook_internal_samp_rate ah / 1000 in
    if per_ms =? 0 then None
    else
      let our_samples := s32 (ast_slinfactory_available (ours ah d)) in
      let our_ms := s32 (ast_tvdiff_ms now previous_time + u32 our_samples / per_ms) in
      let other_samples := s32 (ast_slinfactory_available (others ah d)) in
      let other_ms := s32 (u32 other_samples / per_ms) in
      let '(log1, ah) := flush_stale d our_ms other_ms ah in
      let '(_, log2, sf) := ast_slinfactory_feed format_equal env f (ours ah d) in
      let ah := set_ours d sf (others ah d) ah in
      let signal :=
        ((test_flag ah AST_AUDIOHOOK_TRIGGER_MODE =? AST_AUDIOHOOK_TRIGGER_READ) && is_read d)
        || ((test_flag ah AST_AUDIOHOOK_TRIGGER_MODE =? AST_AUDIOHOOK_TRIGGER_WRITE)
            && bool_decide (d = AST_AUDIOHOOK_DIRECTION_WRITE))
        || has_flag ah AST_AUDIOHOOK_TRIGGER_SYNC in
      Some (log1 ++ log2, signal, ah).

(** ** Reading *)

(** [ast_frame_clear] and [ast_frame_adjust_volume] of a frame of signed linear. *)
Definition ast_frame_adjust_volume (fmt : Z) (volume : Z) (buf : list Z) : option (list Z) :=
  if negb (is_slinear fmt) then Some buf else if volume =? 0 then Some buf else adjust volume buf.

Definition audiohook_read_frame_single ah (samples : Z) (d : ast_audiohook_direction)
    (buf : list Z) (duped : bool) : option (option (list Z) * list effect * ast_audiohook) :=
  let vol := if is_read d then read_volume ah else write_volume ah in
  if ast_slinfactory_available (ours ah d) <? samples then Some (None, [], ah)
  else
    '(buf, got, log, sf) ← ast_slinfactory_read buf samples (ours ah d);
    let ah := set_ours d sf (others ah d) ah in
    if got =? 0 then Some (None, log, ah)
    else
      buf ← (if SHOULD_MUTE ah d then Some ((λ _, 0) <$> buf)
             else if negb (vol =? 0)
             then ast_frame_adjust_volume (slin_by_rate (hook_internal_samp_rate ah)) vol buf
             else Some buf);
      Some (if duped then Some buf else None, log, ah).

(** One side of [audiohook_read_frame_both]: the buffer, if audio was read. *)
Definition read_side (usable mute : bool) (volume samples : Z) (buf : list Z) sf :
    option (option (list Z) * list effect * ast_slinfactory) :=
  if usable then
    '(buf, got, log, sf) ← ast_slinfactory_read buf samples sf;
    if got =? 0 then Some (None, log, sf)
    else
      buf ← (if mute : bool then Some ((λ _, 0) <$> buf)
             else if negb (volume =? 0) then adjust volume buf else Some buf);
      Some (Some buf, log, sf)
  else Some (None, [], sf).

(** The wait for a side that was heard from recently. *)
Definition wait_for (now last : timeval) (samples available : Z) : bool :=
  (uwrap 64 (ast_tvdiff_ms now last) <? samples / 8 * 4) && (available <? 4 * samples).

(** The combined frame, and the copies of each side. *)
Record both_frames := mk_both { mixed : option (list Z); read_copy : option (list Z); write_copy : option (list Z) }.

Definition no_frames : both_frames := mk_both None None None.

Definition silence (samples : Z) : list Z := replicate (Z.to_nat samples) 0.

(** Substitution of silence, the references and the mixing. *)
Definition combine (substitute read_reference write_reference : bool) (samples : Z)
    (read_buf write_buf : option (list Z)) (duped : bool * bool * bool) : both_frames :=
  let '(dup_r, dup_w, dup_m) := duped in
  let '(read_buf, write_buf) :=
    match read_buf, write_buf with
    | None, Some w => (if substitute && read_reference then Some (silence samples) else None, Some w)
    | Some r, None => (Some r, if substitute && write_reference then Some (silence samples) else None)
    | r, w => (r, w)
    end in
  mk_both
    (if dup_m : bool then
       match read_buf, write_buf with
       | Some r, Some w => Some (zip_with ast_slinear_saturated_add r w)
       | Some r, None => Some r
       | None, w => w
       end
     else None)
    (if read_reference && dup_r then read_buf else None)
    (if write_reference && dup_w then write_buf else None).

Definition audiohook_read_frame_both (now1 now2 : timeval) ah (samples : Z)
    (read_reference write_reference : bool) (buf1 buf2 : list Z) (duped : bool * bool * bool) :
    option (both_frames * list effect * ast_audiohook) :=
  let avail_r := ast_slinfactory_available (read_factory ah) in
  let avail_w := ast_slinfactory_available (write_factory ah) in
  let usable_read := samples <=? avail_r in
  let usable_write := samples <=? avail_w in
  if negb usable_read && negb usable_write then Some (no_frames, [], ah)
  else if usable_read && negb usable_write && wait_for now1 (write_time ah) samples avail_r
  then Some (no_frames, [], ah)
  else if usable_write && negb usable_read && wait_for now2 (read_time ah) samples avail_w
  then Some (no_frames, [], ah)
  else
    '(read_buf, log1, r) ←
      read_side usable_read (has_flag ah AST_AUDIOHOOK_MUTE_READ) (read_volume ah) samples buf1 (read_factory ah);
    '(write_buf, log2, w) ←
      read_side usable_write (has_flag ah AST_AUDIOHOOK_MUTE_WRITE) (write_volume ah) samples buf2 (write_factory ah);
    Some (combine (has_flag ah AST_AUDIOHOOK_SUBSTITUTE_SILENCE) read_reference write_reference samples
            read_buf write_buf duped, log1 ++ log2, upd_factories r w ah).

(** The outcomes of the calls of one read, and what the local buffers of a
    given size hold before it. *)
Record read_env := mk_read_env {
  clock1 : timeval; clock2 : timeval;
  stack1 : Z → list Z; stack2 : Z → list Z;
  duped_copies : bool * bool * bool;
  new_path : option Z;
  translated : list Z → option (list Z);
}.

(** What a read gives: frames of signed linear or translated to a format. *)
Inductive result :=
| Nothing
| Slinear (samples : list Z)
| Translated (fmt : Z) (data : option (list Z)).

(** [ast_translate(path, f, 1)]: without a path the frame comes back as it is. *)
Definition ast_translate (fmt : Z) (env : read_env) (path : option Z) (f : list Z) : result :=
  match path with
  | None => Slinear f
  | Some _ => Translated fmt (translated env f)
  end.

Definition audiohook_read_frame_helper (env : read_env) ah (samples : Z) (d : ast_audiohook_direction)
    (fmt : Z) (read_reference write_reference : bool) :
    option (result * option (list Z) * option (list Z) * list effect * ast_audiohook) :=
  let '(log0, ah) :=
    if negb (has_flag ah AST_AUDIOHOOK_COMPATIBLE) || (hook_internal_samp_rate ah <? u32 (sample_rate fmt))
    then audiohook_set_internal_rate ah (sample_rate fmt) true else ([], ah) in
  samples ← (if negb (u32 (sample_rate fmt) =? hook_internal_samp_rate ah) then
               if u32 (sample_rate fmt) / 1000 =? 0 then None
               else Some (uwrap 64 (hook_internal_samp_rate ah / 1000
                                    * (samples / (u32 (sample_rate fmt) / 1000))))
             else Some samples);
  '(frames, log1, ah) ←
    (if bool_decide (d = AST_AUDIOHOOK_DIRECTION_BOTH) then
       audiohook_read_frame_both (clock1 env) (clock2 env) ah samples read_reference write_reference
         (stack1 env samples) (stack2 env samples) (duped_copies env)
     else
       '(f, log, ah) ← audiohook_read_frame_single ah samples d (stack1 env samples) (duped_copies env).2;
       Some (mk_both f None None, log, ah));
  let log := log0 ++ log1 in
  match mixed frames with
  | None => Some (Nothing, read_copy frames, write_copy frames, log, ah)
  | Some f =>
      let slin := slin_by_rate (hook_internal_samp_rate ah) in
      if format_equal fmt slin then Some (Slinear f, read_copy frames, write_copy frames, log, ah)
      else if match hformat ah with Some g => negb (format_equal fmt g) | None => true end then
        let log := log ++ match trans_pvt ah with Some p => [Free (Path p)] | None => [] end in
        match new_path env with
        | None =>
            Some (Nothing, read_copy frames, write_copy frames, log, upd_trans_pvt None (hformat ah) ah)
        | Some p =>
            Some (ast_translate fmt env (Some p) f, read_copy frames, write_copy frames,
                  log ++ [Got (Path p)], upd_trans_pvt (Some p) (Some fmt) ah)
        end
      else Some (ast_translate fmt env (trans_pvt ah) f, read_copy frames, write_copy frames, log, ah)
  end.

Definition ast_audiohook_read_frame (env : read_env) ah (samples : Z) (d : ast_audiohook_direction) (fmt : Z) :=
  audiohook_read_frame_helper env ah samples d fmt false false.

Definition ast_audiohook_read_frame_all (env : read_env) ah (samples fmt : Z) (want_read want_write : bool) :=
  audiohook_read_frame_helper env ah samples AST_AUDIOHOOK_DIRECTION_BOTH fmt want_read want_write.

End Formats.
End Model.

Module Mixing.
Import Model.

(** A sample, and the nearest sample to a value. *)
Definition short (x : Z) : Prop := -32768 <= x <= 32767.
Definition clamp (x : Z) : Z := Z.max (-32768) (Z.min 32767 x).

Lemma saturate_clamp x : saturate x = clamp x.
Proof.
  unfold saturate, clamp. destruct (Z.ltb_spec 32767 x), (Z.ltb_spec x (-32768)); try lia.
  rewrite swrap_small; lia.
Qed.

(** A sample at a volume: multiplied, or divided when negative. *)
Definition amplify (volume x : Z) : Z :=
  if 0 <? volume then clamp (x * volume)
  else if volume <? 0 then x /c (- volume)
  else x.

Lemma mapM_total {A B} (f : A → option B) (g : A → B) (l : list A) :
  Forall (λ x, f x = Some (g x)) l → mapM f l = Some (g <$> l).
Proof. induction 1 as [|x l Hx _ IH]; simpl; [done|]. rewrite Hx. simpl. by rewrite IH. Qed.

Lemma quot_short x v : short x → 0 < v → short (x /c v).
Proof.
  unfold short. intros Hx Hv. destruct (Z.le_ge_cases 0 x).
  - pose proof (Z.quot_pos x v). pose proof (Z.quot_le_upper_bound x v 32767). nia.
  - pose proof (Z.quot_opp_l x v). pose proof (Z.quot_pos (- x) v).
    pose proof (Z.quot_le_upper_bound (- x) v 32768). nia.
Qed.

Lemma adjust_ok volume buf :
  -32768 < volume < 32768 → Forall short buf → adjust volume buf = Some (amplify volume <$> buf).
Proof.
  intros Hv Hb. unfold adjust. apply mapM_total. eapply Forall_impl; [exact Hb|]. intros x Hx. simpl.
  unfold amplify. rewrite (swrap_small 16) by lia.
  destruct (Z.ltb_spec 0 volume).
  - unfold ast_slinear_saturated_multiply. rewrite saturate_clamp, Z.abs_eq by lia. done.
  - destruct (Z.ltb_spec volume 0); [|done]. unfold ast_slinear_saturated_divide.
    rewrite Z.abs_neq by lia. destruct (Z.eqb_spec (- volume) 0); [lia|].
    rewrite swrap_small; [done|lia|]. pose proof (quot_short x (- volume) Hx). unfold short in *. lia.
Qed.

(** The audio a side contributes. *)
Definition side_audio (mute : bool) (volume : Z) (s : list Z) : list Z :=
  if mute then (λ _, 0) <$> s else amplify volume <$> s.

Lemma side_audio_ok (mute : bool) volume buf :
  -32768 < volume < 32768 → Forall short buf →
  (if mute then Some ((λ _, 0) <$> buf)
   else if negb (volume =? 0) then adjust volume buf else Some buf) = Some (side_audio mute volume buf).
Proof.
  intros Hv Hb. unfold side_audio. destruct mute; [done|].
  destruct (Z.eqb_spec volume 0) as [->|]; simpl; [|by apply adjust_ok].
  f_equal. symmetry. apply list_fmap_id.
Qed.

End Mixing.

Module Hook.
Import SlinFactory.Stream SlinFactory.Runs Model Mixing.

(** ** The streams of a hook *)

(** A factory in order, of samples, within what an [int] counts. *)
Record stream_ok (sf : ast_slinfactory) : Prop := {
  so_inv : inv sf;
  so_short : Forall short (contents sf);
  so_len : len (contents sf) < 2 ^ 31;
}.

Lemma available_exact sf : stream_ok sf → ast_slinfactory_available sf = len (contents sf).
Proof.
  intros [(_ & _ & He & _) _ Hl]. unfold ast_slinfactory_available. rewrite He. apply uwrap_small. lia.
Qed.

(** A read of no more than is available gives exactly that many samples. *)
Lemma full_read buf n sf :
  stream_ok sf → 0 <= n <= len (contents sf) → len buf = n →
  ∃ log sf', ast_slinfactory_read buf n sf = Some (take (Z.to_nat n) (contents sf), n, log, sf')
    ∧ stream_ok sf' ∧ contents sf' = drop (Z.to_nat n) (contents sf)
    ∧ conserves sf log sf' ∧ output_format sf' = output_format sf.
Proof.
  intros [(Hw & Hp & He & Hs) Hsh Hl] Hn Hb.
  destruct (step_refines Z.eqb (Read buf n) sf) as (x & log & sf' & E & Ea & Hi & Eo & Hc);
    [by split_and!|split; [lia|lia]|].
  destruct (read_refines buf n sf Hw) as (buf' & log' & sf'' & out & E' & Eout & Hpre & Hlen & _);
    [lia|lia|].
  simpl in E. rewrite E' in E. simpl in E. injection E as <- <- <-.
  assert (len out = n) as Ho by (rewrite Eout, length_take; lia).
  assert (buf' = out) as ->.
  { destruct Hpre as [k ->]. rewrite length_app in Hlen. destruct k; [by rewrite app_nil_r|simpl in *; lia]. }
  simpl in Ea. injection Ea as _ Ec _.
  exists log', sf''. rewrite E', Ho, Eout. split_and!; try done.
  split; [done| |]; rewrite Ec; [by apply Forall_drop|rewrite length_drop; lia].
Qed.

Lemma flush_stream sf :
  stream_ok sf →
  let '(log, sf') := ast_slinfactory_flush sf in
  stream_ok sf' ∧ contents sf' = [] ∧ conserves sf log sf' ∧ output_format sf' = output_format sf.
Proof.
  intros [(Hw & _) _ _]. pose proof (flush_refines sf Hw) as H.
  destruct (ast_slinfactory_flush sf) as [log sf']. destruct H as (Ha & Hw' & Hp & He & Hq & Ho & Hc).
  injection Ha as Ec _. split_and!; try done. split; [|by rewrite Ec|by rewrite Ec].
  split_and!; try done. by rewrite Hq.
Qed.

(** A frame of samples, and the most samples a feed adds. *)
Definition feed_fine (F : Z) (env : feed_env) (f : ast_frame) : Prop :=
  op_ok (Feed env f) ∧ Forall short (default [] (fr_data f)) ∧ fr_samples f <= F
  ∧ ∀ h rest, translate env = Some (h, rest) →
      Forall (λ g, Forall short (default [] (fr_data g))) (h :: rest) ∧ len (queued (h :: rest)) <= F.

Lemma samples_short f : Forall short (default [] (fr_data f)) → Forall short (samples_of f).
Proof. intros H. by apply Forall_take. Qed.

Lemma queued_short fs :
  Forall (λ g, Forall short (default [] (fr_data g))) fs → Forall short (queued fs).
Proof.
  induction 1 as [|f fs Hf _ IH]; [constructor|]. rewrite queued_cons. apply Forall_app.
  split; [by apply samples_short|done].
Qed.

(** What a feed adds to the stream. *)
Lemma afeed_fine fe F out env f st :
  feed_fine F env f → 0 <= F →
  let '(added, st') := afeed fe out env f st in
  stream st' = stream st ++ queued added ∧ Forall short (queued added) ∧ len (queued added) <= F.
Proof.
  intros ((Hok & _ & _) & Hf & HF & Htr) H0. unfold afeed.
  destruct (fr_data f) as [d|] eqn:Ed; [|split_and!; [by rewrite app_nil_r|constructor|simpl; lia]].
  assert (∀ a, Forall short (queued [with_header a f]) ∧ len (queued [with_header a f]) <= F) as Hone.
  { intros a. assert (good_frame (with_header a f)) as Hg
      by (apply with_header_good, (fo_frame _ _ Hok); by rewrite Ed).
    rewrite queued_cons, app_nil_r. split.
    - apply samples_short. simpl. by rewrite Ed.
    - rewrite (good_samples _ Hg). done. }
  destruct (not_equal fe (fr_format f) out); simpl.
  - destruct (converter fe env f (conv st)); [|split_and!; [done|constructor|simpl; lia]].
    destruct (translate env) as [[h rest]|]; [|split_and!; [done|constructor|simpl; lia]].
    destruct (Htr h rest eq_refl) as [Hsh Hlen]. split; [done|].
    unfold isolate. destruct (iso env) as [a|]; simpl; [|split; [constructor|simpl; lia]].
    destruct (fr_hdr h); [split; [by apply queued_short|done]|].
    assert (queued [with_header a h] = samples_of h) as -> by (rewrite queued_cons; apply app_nil_r).
    rewrite queued_cons, length_app in Hlen. apply Forall_cons in Hsh as [? _].
    split; [by apply samples_short|lia].
  - split; [done|]. destruct (dup env); [apply Hone|split; [constructor|simpl; lia]].
Qed.

Lemma feed_stream fe F env f sf :
  stream_ok sf → feed_fine F env f → 0 <= F → len (contents sf) + F < 2 ^ 31 →
  let '(_, log, sf') := ast_slinfactory_feed fe env f sf in
  stream_ok sf' ∧ len (contents sf') <= len (contents sf) + F ∧ conserves sf log sf'
  ∧ output_format sf' = output_format sf
  ∧ contents sf' = contents sf ++ queued (afeed fe (output_format sf) env f (abs sf)).1.
Proof.
  intros [Hi Hsh Hl] Hf HF Hlim.
  destruct (step_refines fe (Feed env f) sf Hi (proj1 Hf)) as (x & log & sf' & E & Ea & Hi' & Eo & Hc).
  pose proof (afeed_fine fe F (output_format sf) env f (abs sf) Hf HF) as H. simpl in E, Ea.
  destruct (ast_slinfactory_feed fe env f sf) as [[ret log'] sf'']. injection E as _ -> ->.
  destruct (afeed fe (output_format sf) env f (abs sf)) as [added st]. simpl in Ea. injection Ea as _ Ea.
  destruct H as (Es & Hq & Hlen). subst st. simpl in Es.
  assert (len (contents sf') <= len (contents sf) + F) by (rewrite Es, length_app; lia).
  split_and!; try done. split; [done| |lia]. rewrite Es. by apply Forall_app.
Qed.

(** ** The invariant of a hook *)

Section Hooks.
Context (is_slinear : Z → bool) (format_equal : Z → Z → bool)
  (slin_by_rate : Z → Z) (sample_rate : Z → Z).
(** The most samples one feed adds, and the start of the clock. *)
Context (F : Z) (t0 : timeval).

Definition rate_ok (r : Z) : Prop := 1000 <= r < 2 ^ 20.

(** The most samples a factory of a hook may hold: what half a second leaves
    unflushed, and one feed. *)
Definition bound (rate : Z) : Z := 501 * (rate / 1000) + F.

(** A factory fed last at [t]; [last] is the latest time seen. *)
Record factory_ok (rate : Z) (last : timeval) (sf : ast_slinfactory) (t : timeval) : Prop := {
  fa_stream : stream_ok sf;
  fa_bound : len (contents sf) <= bound rate;
  fa_time : contents sf ≠ [] → tv_ok t ∧ usecs t0 <= usecs t <= usecs last;
}.

Record hook_ok (last : timeval) ah : Prop := {
  ho_read : factory_ok (hook_internal_samp_rate ah) last (read_factory ah) (read_time ah);
  ho_write : factory_ok (hook_internal_samp_rate ah) last (write_factory ah) (write_time ah);
  ho_type : has_factories (type ah) = true;
  ho_rate : rate_ok (hook_internal_samp_rate ah);
  ho_rvol : -32768 < read_volume ah < 32768;
  ho_wvol : -32768 < write_volume ah < 32768;
  ho_F : 0 <= F <= 2 ^ 29;
}.

Definition howed ah : list resource :=
  owed (read_factory ah) ++ owed (write_factory ah)
  ++ match trans_pvt ah with Some p => [Path p] | None => [] end.

Definition hconserves ah (log : list effect) ah' : Prop := howed ah ++ gots log ≡ₚ howed ah' ++ frees log.

Lemma hconserves_trans a1 a2 a3 log1 log2 :
  hconserves a1 log1 a2 → hconserves a2 log2 a3 → hconserves a1 (log1 ++ log2) a3.
Proof. unfold hconserves. rewrite gots_app, frees_app. intros. perm_lia. Qed.

Lemma hconserves_refl ah : hconserves ah [] ah.
Proof. unfold hconserves. simpl. perm_lia. Qed.

(** Both factories changed, the rest of the hook did not. *)
Lemma factories_conserve ah r w log1 log2 :
  conserves (read_factory ah) log1 r → conserves (write_factory ah) log2 w →
  hconserves ah (log1 ++ log2) (upd_factories r w ah).
Proof.
  unfold conserves, hconserves, howed. simpl. rewrite gots_app, frees_app. intros. perm_lia.
Qed.

Lemma factory_less rate last sf t sf' n :
  factory_ok rate last sf t → stream_ok sf' → contents sf' = drop n (contents sf) →
  factory_ok rate last sf' t.
Proof.
  intros [Hs Hb Ht] Hs' E. split; [done|rewrite E, length_drop; lia|].
  intros Hne. apply Ht. intros E0. apply Hne. by rewrite E, E0, drop_nil.
Qed.

Lemma factory_later rate last last' sf t :
  factory_ok rate last sf t → usecs last <= usecs last' → factory_ok rate last' sf t.
Proof. intros [Hs Hb Ht] Hl. split; [done..|]. intros Hne. destruct (Ht Hne). split; [done|lia]. Qed.

(** An empty factory. *)
Lemma factory_empty rate last sf t :
  rate_ok rate → 0 <= F → stream_ok sf → contents sf = [] → factory_ok rate last sf t.
Proof.
  unfold rate_ok. intros ??? E. split; [done| |by rewrite E].
  rewrite E. unfold bound. simpl. assert (0 <= rate / 1000) by (apply Z.div_pos; lia). lia.
Qed.

Lemma zeroed_stream out : stream_ok (zeroed out) ∧ contents (zeroed out) = [] ∧ owed (zeroed out) = [].
Proof.
  destruct (zeroed_inv out) as (Hi & Ha & Ho).
  assert (contents (zeroed out) = []) as Ec by exact (f_equal stream Ha).
  split; [|by split]. split; [exact Hi|rewrite Ec; constructor|by rewrite Ec].
Qed.

Lemma init_zeroed o : ∃ out, (ast_slinfactory_init_with_format is_slinear o).2 = zeroed out.
Proof. unfold ast_slinfactory_init_with_format. case_match; by eexists. Qed.

(** ** Flushing *)

Lemma ours_set d f o ah : ours (set_ours d f o ah) d = f ∧ others (set_ours d f o ah) d = o.
Proof. unfold ours, others, set_ours. by destruct (is_read d). Qed.

(** The hook but for its factories. *)
Record same_hook ah ah' : Prop := {
  sh_type : type ah' = type ah; sh_status : status ah' = status ah; sh_flags : flags ah' = flags ah;
  sh_rtime : read_time ah' = read_time ah; sh_wtime : write_time ah' = write_time ah;
  sh_format : hformat ah' = hformat ah; sh_trans : trans_pvt ah' = trans_pvt ah;
  sh_rvol : read_volume ah' = read_volume ah; sh_wvol : write_volume ah' = write_volume ah;
  sh_rate : hook_internal_samp_rate ah' = hook_internal_samp_rate ah;
  sh_dir : direction ah' = direction ah;
}.

Lemma set_ours_same d f o ah : same_hook ah (set_ours d f o ah).
Proof. unfold set_ours. by destruct (is_read d). Qed.

Lemma set_ours_conserves d f o ah log1 log2 :
  conserves (ours ah d) log1 f → conserves (others ah d) log2 o →
  hconserves ah (log1 ++ log2) (set_ours d f o ah).
Proof.
  unfold ours, others, set_ours, conserves, hconserves, howed. rewrite gots_app, frees_app.
  destruct (is_read d); simpl; intros; perm_lia.
Qed.

(** A flush that may happen. *)
Lemma maybe_flush (c : bool) d ah :
  stream_ok (ours ah d) → stream_ok (others ah d) →
  let '(log, ah') := if c then flush_both d ah else ([], ah) in
  same_hook ah ah' ∧ hconserves ah log ah' ∧ stream_ok (ours ah' d) ∧ stream_ok (others ah' d)
  ∧ contents (ours ah' d) = (if c then [] else contents (ours ah d))
  ∧ contents (others ah' d) = (if c then [] else contents (others ah d)).
Proof.
  intros H1 H2. destruct c; [|split_and!; try done; apply hconserves_refl].
  unfold flush_both. pose proof (flush_stream _ H1) as Hf1. pose proof (flush_stream _ H2) as Hf2.
  destruct (ast_slinfactory_flush (ours ah d)) as [log1 f].
  destruct (ast_slinfactory_flush (others ah d)) as [log2 o].
  destruct Hf1 as (? & ? & ? & _), Hf2 as (? & ? & ? & _). destruct (ours_set d f o ah) as [-> ->].
  split_and!; try done; [apply set_ours_same|by apply set_ours_conserves].
Qed.

(** ** Writing *)

Definition time_of ah (d : ast_audiohook_direction) : timeval :=
  if is_read d then read_time ah else write_time ah.
Definition other_time ah (d : ast_audiohook_direction) : timeval :=
  if is_read d then write_time ah else read_time ah.

Lemma hook_sides last ah d :
  hook_ok last ah ↔
  factory_ok (hook_internal_samp_rate ah) last (ours ah d) (time_of ah d)
  ∧ factory_ok (hook_internal_samp_rate ah) last (others ah d) (other_time ah d)
  ∧ has_factories (type ah) = true ∧ rate_ok (hook_internal_samp_rate ah)
  ∧ -32768 < read_volume ah < 32768 ∧ -32768 < write_volume ah < 32768 ∧ 0 <= F <= 2 ^ 29.
Proof.
  unfold ours, others, time_of, other_time. destruct (is_read d); split.
  - intros []. split_and!; done || lia.
  - intros (?&?&?&?&?&?&?). by split.
  - intros []. split_and!; done || lia.
  - intros (?&?&?&?&?&?&?). by split.
Qed.

(** The age and length of a queue in milliseconds, as the code computes it: when
    it passes the test the queue is short. *)
Lemma queue_short rate last now sf t (per := rate / 1000) :
  rate_ok rate → 0 <= F <= 2 ^ 29 → factory_ok rate last sf t → tv_ok now →
  usecs last <= usecs now < usecs t0 + 1000 * 2 ^ 30 →
  s32 (ast_tvdiff_ms now t + u32 (s32 (ast_slinfactory_available sf)) / per)
    <= AST_AUDIOHOOK_LONG_QUEUE_TOLERANCE →
  len (contents sf) < 501 * per.
Proof.
  intros Hr HF [Hs Hb Ht] Hnow Hlast Hms. rewrite (available_exact sf Hs) in Hms.
  assert (1 <= per < 2 ^ 11) as Hper.
  { unfold rate_ok, per in *. split; [apply Z.div_le_lower_bound|apply Z.div_lt_upper_bound]; lia. }
  destruct (decide (contents sf = [])) as [E|Hne]; [rewrite E; simpl; lia|].
  destruct (Ht Hne) as [Htv Htr]. pose proof (so_len _ Hs) as Hl.
  rewrite (swrap_small 32 (len (contents sf))), uwrap_small in Hms by lia.
  rewrite (ast_tvdiff_ms_floor now t Hnow Htv) in Hms.
  set (q := len (contents sf) / per) in *.
  assert (0 <= (usecs now - usecs t) / 1000 < 2 ^ 30) as He
    by (split; [apply Z.div_pos|apply Z.div_lt_upper_bound]; lia).
  assert (0 <= q <= 501 + 2 ^ 29) as Hq.
  { unfold q. split; [apply Z.div_pos; lia|]. apply Z.lt_succ_r, Z.div_lt_upper_bound; [lia|].
    unfold bound in Hb. fold per in Hb. nia. }
  rewrite swrap_small in Hms by lia. unfold AST_AUDIOHOOK_LONG_QUEUE_TOLERANCE in Hms.
  assert (len (contents sf) < per * (q + 1)) as Hlt.
  { unfold q. pose proof (Z.mod_pos_bound (len (contents sf)) per).
    pose proof (Z.div_mod (len (contents sf)) per). lia. }
  nia.
Qed.

Lemma other_short rate last sf t (per := rate / 1000) :
  rate_ok rate → factory_ok rate last sf t →
  s32 (u32 (s32 (ast_slinfactory_available sf)) / per) <= AST_AUDIOHOOK_LONG_QUEUE_TOLERANCE →
  len (contents sf) < 501 * per.
Proof.
  intros Hr [Hs Hb Ht] Hms. rewrite (available_exact sf Hs) in Hms.
  assert (1 <= per < 2 ^ 11) as Hper.
  { unfold rate_ok, per in *. split; [apply Z.div_le_lower_bound|apply Z.div_lt_upper_bound]; lia. }
  pose proof (so_len _ Hs) as Hl.
  rewrite (swrap_small 32 (len (contents sf))), uwrap_small in Hms by lia.
  set (q := len (contents sf) / per) in *.
  assert (0 <= q < 2 ^ 31) as Hq
    by (unfold q; split; [apply Z.div_pos|apply Z.div_lt_upper_bound]; nia).
  rewrite swrap_small in Hms by lia. unfold AST_AUDIOHOOK_LONG_QUEUE_TOLERANCE in Hms.
  assert (len (contents sf) < per * (q + 1)) as Hlt.
  { unfold q. pose proof (Z.mod_pos_bound (len (contents sf)) per).
    pose proof (Z.div_mod (len (contents sf)) per). lia. }
  nia.
Qed.

(** Flushed, or short enough. *)
Lemma flush_stale_ok d our_ms other_ms ah :
  stream_ok (ours ah d) → stream_ok (others ah d) →
  let '(log, ah') := flush_stale d our_ms other_ms ah in
  same_hook ah ah' ∧ hconserves ah log ah' ∧ stream_ok (ours ah' d) ∧ stream_ok (others ah' d)
  ∧ (contents (ours ah' d) = [] ∧ contents (others ah' d) = []
     ∨ contents (ours ah' d) = contents (ours ah d) ∧ contents (others ah' d) = contents (others ah d)
       ∧ our_ms <= AST_AUDIOHOOK_LONG_QUEUE_TOLERANCE ∧ other_ms <= AST_AUDIOHOOK_LONG_QUEUE_TOLERANCE).
Proof.
  intros H1 H2. unfold flush_stale. set (c1 := has_flag ah _ && _).
  pose proof (maybe_flush c1 d ah H1 H2) as Hm.
  destruct (if c1 then flush_both d ah else ([], ah)) as [log1 ah2].
  destruct Hm as (Hsame1 & Hc1 & Hs1 & Hs2 & Ec1 & Ec2).
  set (long := (AST_AUDIOHOOK_LONG_QUEUE_TOLERANCE <? our_ms) || _).
  set (small := has_flag ah2 _ && _).
  replace (if small then flush_both d ah2 else if long then flush_both d ah2 else ([], ah2))
    with (if small || long then flush_both d ah2 else ([], ah2)) by by destruct small, long.
  pose proof (maybe_flush (small || long) d ah2 Hs1 Hs2) as Hm.
  destruct (if small || long then flush_both d ah2 else ([], ah2)) as [log2 ah3].
  destruct Hm as (Hsame2 & Hc2 & Hs1' & Hs2' & Ec1' & Ec2').
  split; [destruct Hsame1, Hsame2; split; congruence|].
  split; [by eapply hconserves_trans|]. split_and!; try done.
  rewrite Ec1', Ec2', Ec1, Ec2. destruct (small || long) eqn:Esl; [by left|].
  destruct c1; [by left|]. right. apply orb_false_iff in Esl as [_ Elong].
  apply orb_false_iff in Elong as [?%Z.ltb_ge ?%Z.ltb_ge]. by split_and!.
Qed.

(** The hook once the time of the direction is set. *)
Definition touch (now : timeval) (d : ast_audiohook_direction) ah : ast_audiohook :=
  if is_read d then upd_times now (write_time ah) ah else upd_times (read_time ah) now ah.

Lemma touch_fields now d ah (ah1 := touch now d ah) :
  ours ah1 d = ours ah d ∧ others ah1 d = others ah d ∧ howed ah1 = howed ah
  ∧ hook_internal_samp_rate ah1 = hook_internal_samp_rate ah ∧ time_of ah1 d = now
  ∧ other_time ah1 d = other_time ah d ∧ type ah1 = type ah ∧ read_volume ah1 = read_volume ah
  ∧ write_volume ah1 = write_volume ah.
Proof. unfold ah1, touch, ours, others, time_of, other_time. by destruct (is_read d). Qed.

Lemma same_hook_ok a b d last :
  same_hook a b → has_factories (type a) = true → rate_ok (hook_internal_samp_rate a) →
  -32768 < read_volume a < 32768 → -32768 < write_volume a < 32768 → 0 <= F <= 2 ^ 29 →
  factory_ok (hook_internal_samp_rate a) last (ours b d) (time_of a d) →
  factory_ok (hook_internal_samp_rate a) last (others b d) (other_time a d) → hook_ok last b.
Proof.
  intros [] ???????. apply (hook_sides last b d).
  assert (time_of b d = time_of a d ∧ other_time b d = other_time a d) as [-> ->]
    by (unfold time_of, other_time; destruct (is_read d); by split).
  rewrite sh_rate0, sh_type0, sh_rvol0, sh_wvol0. split_and!; done || lia.
Qed.

Lemma write_ok now env last ah d f :
  hook_ok last ah → feed_fine F env f → tv_ok now →
  usecs t0 <= usecs now → usecs last <= usecs now < usecs t0 + 1000 * 2 ^ 30 →
  ∃ log signal ah', ast_audiohook_write_frame format_equal now env ah d f = Some (log, signal, ah')
    ∧ hook_ok now ah' ∧ hconserves ah log ah'.
Proof.
  intros Hok Hf Hnow Hge Hclk. unfold ast_audiohook_write_frame.
  destruct (negb _ && negb _).
  { exists [], false, ah. split_and!; [done| |apply hconserves_refl].
    destruct Hok. split; try done; eapply factory_later; try done; lia. }
  pose proof (proj1 (hook_sides last ah d) Hok) as (Ho & Hot & Hty & Hrate & Hrv & Hwv & HF).
  destruct (touch_fields now d ah) as (E1 & E2 & E3 & E4 & E5 & E6 & E7 & E8 & E9).
  fold (touch now d ah). fold (time_of ah d). set (ah1 := touch now d ah) in *. clearbody ah1.
  rewrite E1, E2, E4. set (rate := hook_internal_samp_rate ah) in *.
  assert (1 <= rate / 1000 < 1049) as Hper
    by (unfold rate_ok in Hrate; split; [apply Z.div_le_lower_bound|apply Z.div_lt_upper_bound]; lia).
  destruct (Z.eqb_spec (rate / 1000) 0) as [|_]; [lia|]. set (our_ms := s32 (_ + _)). set (other_ms := s32 (_ / _)).
  pose proof (flush_stale_ok d our_ms other_ms ah1) as Hfl. rewrite E1, E2 in Hfl.
  specialize (Hfl (fa_stream _ _ _ _ Ho) (fa_stream _ _ _ _ Hot)).
  destruct (flush_stale d our_ms other_ms ah1) as [log1 ah2].
  destruct Hfl as (Hsame & Hc1 & Hs1 & Hs2 & Hcase).
  assert (len (contents (ours ah2 d)) < 501 * (rate / 1000)
          ∧ len (contents (others ah2 d)) < 501 * (rate / 1000)
          ∧ (contents (others ah2 d) ≠ [] → contents (others ah d) ≠ [])) as (Hl1 & Hl2 & Hne).
  { destruct Hcase as [[-> ->]|(-> & -> & Hm1 & Hm2)]; [by split_and!; [simpl; lia..|]|].
    split_and!; [by eapply queue_short|by eapply other_short|done]. }
  pose proof (feed_stream format_equal F env f (ours ah2 d) Hs1 Hf ltac:(lia) ltac:(lia)) as Hfeed.
  destruct (ast_slinfactory_feed format_equal env f (ours ah2 d)) as [[ret log2] sf].
  destruct Hfeed as (Hsf & Hlf & Hcf & _ & _). eexists _, _, _. split; [done|].
  pose proof (set_ours_same d sf (others ah2 d) ah2) as Hsame2.
  destruct (ours_set d sf (others ah2 d) ah2) as [Eo Eo'].
  split.
  - apply (same_hook_ok ah1 _ d); rewrite ?Eo, ?Eo', ?E4, ?E5, ?E6, ?E7, ?E8, ?E9; try done.
    + destruct Hsame, Hsame2. split; congruence.
    + split; [done|unfold bound; lia|]. intros _. split; [done|lia].
    + split; [done|unfold bound; lia|]. intros Hn.
      destruct (fa_time _ _ _ _ Hot (Hne Hn)) as [? ?]. split; [done|lia].
  - eapply hconserves_trans; [unfold hconserves in *; rewrite <- E3; exact Hc1|].
    rewrite <- (app_nil_r log2). apply set_ours_conserves; [done|]. unfold conserves. simpl. perm_lia.
Qed.

(** ** Reading *)

Lemma read_side_ok rate last mute vol n buf sf t (usable := n <=? ast_slinfactory_available sf) :
  factory_ok rate last sf t → -32768 < vol < 32768 → 0 <= n → len buf = n →
  ∃ log sf', read_side usable mute vol n buf sf
    = Some (if usable && negb (n =? 0) then Some (side_audio mute vol (take (Z.to_nat n) (contents sf)))
            else None, log, sf')
    ∧ factory_ok rate last sf' t ∧ conserves sf log sf'
    ∧ contents sf' = (if usable then drop (Z.to_nat n) (contents sf) else contents sf).
Proof.
  intros Hf Hv Hn Hb. pose proof (fa_stream _ _ _ _ Hf) as Hs. unfold read_side.
  destruct usable eqn:Eu; simpl.
  2: { exists [], sf. split_and!; try done. unfold conserves. simpl. perm_lia. }
  unfold usable in Eu. apply Z.leb_le in Eu. rewrite (available_exact sf Hs) in Eu.
  destruct (full_read buf n sf Hs ltac:(lia) Hb) as (log & sf' & -> & Hs' & Ec & Hc & _). simpl.
  exists log, sf'. destruct (Z.eqb_spec n 0) as [->|]; simpl.
  - split_and!; try done. by eapply factory_less.
  - rewrite side_audio_ok by (done || by apply Forall_take, so_short). simpl.
    split_and!; try done. by eapply factory_less.
Qed.

(** A side that is missing is filled with silence when its copy is wanted and the
    other side is there; two sides are added, with saturation. *)
Definition fill (substitute want : bool) (n : Z) (own other : option (list Z)) : option (list Z) :=
  match own, other with
  | None, Some _ => if substitute && want then Some (replicate (Z.to_nat n) 0) else None
  | _, _ => own
  end.

Definition mix (r w : option (list Z)) : option (list Z) :=
  match r, w with
  | Some r, Some w => Some (zip_with (λ x y, clamp (x + y)) r w)
  | Some r, None => Some r
  | None, w => w
  end.

Definition combined (substitute want_r want_w : bool) (n : Z) (r w : option (list Z))
    (duped : bool * bool * bool) : both_frames :=
  let r' := fill substitute want_r n r w in
  let w' := fill substitute want_w n w r in
  mk_both (if duped.2 then mix r' w' else None)
    (if want_r && duped.1.1 then r' else None) (if want_w && duped.1.2 then w' else None).

Lemma combine_combined substitute want_r want_w n r w duped :
  combine substitute want_r want_w n r w duped = combined substitute want_r want_w n r w duped.
Proof.
  assert (∀ a b, zip_with ast_slinear_saturated_add a b = zip_with (λ x y, clamp (x + y)) a b) as Hz.
  { intros a b. apply zip_with_ext; [|done..]. intros x y. apply saturate_clamp. }
  destruct duped as [[dr dw] dm]. unfold combine, combined, fill, mix, silence. simpl.
  destruct r, w; simpl; try (by rewrite ?Hz);
    destruct (substitute && want_r), (substitute && want_w); by rewrite ?Hz.
Qed.

(** What [audiohook_read_frame_both] gives and leaves. *)
Definition both_spec (now1 now2 : timeval) ah (n : Z) (want_r want_w : bool) (duped : bool * bool * bool) :
    both_frames * list Z * list Z :=
  let r := contents (read_factory ah) in
  let w := contents (write_factory ah) in
  let usable_r := n <=? len r in
  let usable_w := n <=? len w in
  if (negb usable_r && negb usable_w)
     || (usable_r && negb usable_w && wait_for now1 (write_time ah) n (len r))
     || (usable_w && negb usable_r && wait_for now2 (read_time ah) n (len w))
  then (no_frames, r, w)
  else
    let side usable mute vol s :=
      if usable && negb (n =? 0) then Some (side_audio mute vol (take (Z.to_nat n) s)) else None in
    (combined (has_flag ah AST_AUDIOHOOK_SUBSTITUTE_SILENCE) want_r want_w n
       (side usable_r (has_flag ah AST_AUDIOHOOK_MUTE_READ) (read_volume ah) r)
       (side usable_w (has_flag ah AST_AUDIOHOOK_MUTE_WRITE) (write_volume ah) w) duped,
     if usable_r then drop (Z.to_nat n) r else r, if usable_w then drop (Z.to_nat n) w else w).

Lemma read_both_ok now1 now2 last ah n want_r want_w buf1 buf2 duped :
  hook_ok last ah → 0 <= n → len buf1 = n → len buf2 = n →
  ∃ fs log ah', audiohook_read_frame_both now1 now2 ah n want_r want_w buf1 buf2 duped = Some (fs, log, ah')
    ∧ (fs, contents (read_factory ah'), contents (write_factory ah')) = both_spec now1 now2 ah n want_r want_w duped
    ∧ hook_ok last ah' ∧ hconserves ah log ah' ∧ same_hook ah ah'.
Proof.
  intros Hok Hn Hb1 Hb2. pose proof Hok as [Hr Hw Hty Hrate Hrv Hwv HF].
  pose proof (available_exact _ (fa_stream _ _ _ _ Hr)) as Ar.
  pose proof (available_exact _ (fa_stream _ _ _ _ Hw)) as Aw.
  destruct (read_side_ok _ _ (has_flag ah AST_AUDIOHOOK_MUTE_READ) (read_volume ah) n buf1 _ _ Hr Hrv Hn Hb1)
    as (log1 & r & E1 & Hr' & Hc1 & Ec1).
  destruct (read_side_ok _ _ (has_flag ah AST_AUDIOHOOK_MUTE_WRITE) (write_volume ah) n buf2 _ _ Hw Hwv Hn Hb2)
    as (log2 & w & E2 & Hw' & Hc2 & Ec2).
  unfold audiohook_read_frame_both, both_spec. rewrite Ar, Aw in *.
  assert (∀ A (a b : A) (c1 c2 c3 : bool),
    (if c1 then a else if c2 then a else if c3 then a else b) = if c1 || c2 || c3 then a else b) as Hor
    by by intros ??? [] [] [].
  rewrite Hor. destruct (_ || _ || _).
  { exists no_frames, [], ah. split_and!; try done. apply hconserves_refl. }
  rewrite E1. simpl. rewrite E2. simpl. eexists _, _, _. split; [done|].
  rewrite combine_combined, <- Ec1, <- Ec2.
  split_and!; try done; by apply factories_conserve.
Qed.

Lemma read_single_ok last ah n d buf duped :
  (∀ r, is_slinear (slin_by_rate r) = true) →
  hook_ok last ah → 0 <= n → len buf = n →
  ∃ x log ah', audiohook_read_frame_single is_slinear slin_by_rate ah n d buf duped = Some (x, log, ah')
    ∧ x = (if (n <=? len (contents (ours ah d))) && negb (n =? 0) && duped then
             Some (side_audio (SHOULD_MUTE ah d) (if is_read d then read_volume ah else write_volume ah)
                     (take (Z.to_nat n) (contents (ours ah d))))
           else None)
    ∧ contents (ours ah' d)
      = (if n <=? len (contents (ours ah d)) then drop (Z.to_nat n) (contents (ours ah d))
         else contents (ours ah d))
    ∧ others ah' d = others ah d
    ∧ hook_ok last ah' ∧ hconserves ah log ah' ∧ same_hook ah ah'.
Proof.
  intros Hslin Hok Hn Hb. pose proof (proj1 (hook_sides last ah d) Hok) as (Ho & Hot & Hty & Hrate & Hrv & Hwv & HF).
  pose proof (fa_stream _ _ _ _ Ho) as Hs. unfold audiohook_read_frame_single.
  rewrite (available_exact _ Hs). set (vol := if is_read d then read_volume ah else write_volume ah).
  assert (-32768 < vol < 32768) as Hv by (unfold vol; by destruct (is_read d)). clearbody vol.
  destruct (Z.ltb_spec (len (contents (ours ah d))) n), (Z.leb_spec n (len (contents (ours ah d)))); try lia; simpl.
  { exists None, [], ah. split_and!; try done. apply hconserves_refl. }
  destruct (full_read buf n (ours ah d) Hs ltac:(lia) Hb) as (log & sf & -> & Hs' & Ec & Hc & _). simpl.
  set (ah' := set_ours d sf (others ah d) ah).
  pose proof (set_ours_same d sf (others ah d) ah : same_hook ah ah') as Hsame.
  destruct (ours_set d sf (others ah d) ah) as [Eo Eo']. fold ah' in Eo, Eo'.
  assert (hook_ok last ah') as Hok'.
  { apply (same_hook_ok ah ah' d); try done; rewrite ?Eo, ?Eo'; [by eapply factory_less|done]. }
  assert (hconserves ah log ah') as Hc'.
  { rewrite <- (app_nil_r log). apply set_ours_conserves; [done|]. unfold conserves. simpl. perm_lia. }
  assert (SHOULD_MUTE ah' d = SHOULD_MUTE ah d) as Em
    by (unfold SHOULD_MUTE, has_flag, test_flag; by rewrite (sh_flags _ _ Hsame)).
  rewrite <- Eo in Ec. destruct (Z.eqb_spec n 0) as [->|]; simpl.
  { exists None, log, ah'. by split_and!. }
  unfold ast_frame_adjust_volume. rewrite Hslin. simpl. rewrite Em.
  replace (if SHOULD_MUTE ah d then _ else _) with
    (Some (side_audio (SHOULD_MUTE ah d) vol (take (Z.to_nat n) (contents (ours ah d))))).
  2: { rewrite <- side_audio_ok by (done || by apply Forall_take, so_short).
       destruct (SHOULD_MUTE ah d); [done|]. by destruct (vol =? 0). }
  simpl. eexists _, _, _. split; [done|]. by split_and!.
Qed.

(** ** The internal rate, and reading in a format *)

Lemma destroy_owed sf : owed sf ++ gots (ast_slinfactory_destroy sf).1 ≡ₚ frees (ast_slinfactory_destroy sf).1.
Proof.
  pose proof (destroy_frees sf) as H. destruct (ast_slinfactory_destroy sf) as [log sf'].
  destruct H as [Hc E]. unfold conserves in Hc. by rewrite E in Hc.
Qed.

Lemma set_rate_ok last ah rate :
  hook_ok last ah → rate_ok rate →
  let '(log, ah') := audiohook_set_internal_rate is_slinear slin_by_rate ah rate true in
  hook_ok last ah' ∧ hconserves ah log ah' ∧ hook_internal_samp_rate ah' = rate
  ∧ trans_pvt ah' = trans_pvt ah ∧ hformat ah' = hformat ah.
Proof.
  intros Hok Hr. unfold audiohook_set_internal_rate. rewrite uwrap_small by (unfold rate_ok in Hr; lia).
  destruct (Z.eqb_spec (hook_internal_samp_rate ah) rate) as [E|_].
  { split_and!; try done. apply hconserves_refl. }
  simpl. destruct Hok. rewrite ho_type0.
  destruct (init_zeroed (slin_by_rate rate)) as [out ->].
  destruct (zeroed_stream out) as (Hs & Ec & Eo).
  split_and!; try done.
  - split; simpl; try done; apply factory_empty; done || lia.
  - pose proof (destroy_owed (read_factory ah)) as H1. pose proof (destroy_owed (write_factory ah)) as H2.
    unfold hconserves, howed. cbn [read_factory write_factory trans_pvt upd_factories upd_rate].
    rewrite Eo, gots_app, frees_app. perm_lia.
Qed.

(** A read whose local buffers have the size asked for, in a format of a usual rate. *)
Definition read_fine (env : read_env) (n fmt : Z) : Prop :=
  (∀ k, 0 <= k → len (stack1 env k) = k ∧ len (stack2 env k) = k)
  ∧ 0 <= n ∧ rate_ok (sample_rate fmt).

Lemma helper_ok last env ah n d fmt rr wr :
  (∀ r, is_slinear (slin_by_rate r) = true) →
  hook_ok last ah → read_fine env n fmt →
  ∃ x rc wc log ah',
    audiohook_read_frame_helper is_slinear format_equal slin_by_rate sample_rate env ah n d fmt rr wr
      = Some (x, rc, wc, log, ah')
    ∧ hook_ok last ah' ∧ hconserves ah log ah'.
Proof.
  intros Hslin Hok (Hst & Hn & Hr). unfold audiohook_read_frame_helper.
  rewrite (uwrap_small 32 (sample_rate fmt)) by (unfold rate_ok in Hr; lia).
  pose proof (set_rate_ok last ah (sample_rate fmt) Hok Hr) as Hset.
  assert (∃ log0 ah0, (if negb (has_flag ah AST_AUDIOHOOK_COMPATIBLE)
       || (hook_internal_samp_rate ah <? sample_rate fmt)
     then audiohook_set_internal_rate is_slinear slin_by_rate ah (sample_rate fmt) true else ([], ah))
     = (log0, ah0) ∧ hook_ok last ah0 ∧ hconserves ah log0 ah0) as (log0 & ah0 & -> & Hok0 & Hc0).
  { destruct (audiohook_set_internal_rate _ _ _ _ _) as [l a]. destruct Hset as (? & ? & _).
    destruct (negb _ || _); eexists _, _; split_and!; try done. apply hconserves_refl. }
  clear Hset. assert (∃ m, (if negb (sample_rate fmt =? hook_internal_samp_rate ah0) then
      if sample_rate fmt / 1000 =? 0 then None
      else Some (uwrap 64 (hook_internal_samp_rate ah0 / 1000 * (n / (sample_rate fmt / 1000))))
      else Some n) = Some m ∧ 0 <= m) as (m & -> & Hm).
  { assert (1 <= sample_rate fmt / 1000) by (unfold rate_ok in Hr; apply Z.div_le_lower_bound; lia).
    destruct (Z.eqb_spec (sample_rate fmt / 1000) 0); [lia|]. destruct (negb _); [|by exists n].
    eexists. split; [done|]. apply uwrap_range. lia. }
  simpl. destruct (Hst m Hm) as [Hb1 Hb2].
  assert (∃ fs log1 ah1, (if bool_decide (d = AST_AUDIOHOOK_DIRECTION_BOTH) then
       audiohook_read_frame_both (clock1 env) (clock2 env) ah0 m rr wr (stack1 env m) (stack2 env m) (duped_copies env)
     else
       '(f, log, ah) ← audiohook_read_frame_single is_slinear slin_by_rate ah0 m d (stack1 env m) (duped_copies env).2;
       Some (mk_both f None None, log, ah)) = Some (fs, log1, ah1)
     ∧ hook_ok last ah1 ∧ hconserves ah0 log1 ah1) as (fs & log1 & ah1 & -> & Hok1 & Hc1).
  { case_bool_decide.
    - destruct (read_both_ok (clock1 env) (clock2 env) last ah0 m rr wr (stack1 env m) (stack2 env m)
        (duped_copies env) Hok0 Hm Hb1 Hb2) as (fs & log1 & ah1 & -> & _ & ? & ? & _). by eexists _, _, _.
    - destruct (read_single_ok last ah0 m d (stack1 env m) (duped_copies env).2 Hslin Hok0 Hm Hb1)
        as (x & log1 & ah1 & -> & _ & _ & _ & ? & ? & _). by eexists _, _, _. }
  simpl. pose proof (hconserves_trans _ _ _ _ _ Hc0 Hc1) as Hc. clear Hc0 Hc1.
  assert (∀ p g, hook_ok last (upd_trans_pvt p g ah1)) as Hup by (intros; destruct Hok1; by split).
  destruct (mixed fs) as [f|]; [|eexists _, _, _, _, _; by split_and!].
  destruct (format_equal _ _); [eexists _, _, _, _, _; by split_and!|].
  destruct (match hformat ah1 with Some _ => _ | None => _ end); [|eexists _, _, _, _, _; by split_and!].
  destruct (new_path env) as [p|]; eexists _, _, _, _, _; (split; [done|]); (split; [apply Hup|]);
    unfold hconserves, howed in *; cbn [trans_pvt read_factory write_factory upd_trans_pvt];
    rewrite ?gots_app, ?frees_app in *; destruct (trans_pvt ah1); cbn [gots frees omap list_omap] in *; perm_lia.
Qed.

(** ** Runs *)

Inductive hop :=
| Write (now : timeval) (env : feed_env) (d : ast_audiohook_direction) (f : ast_frame)
| ReadFrame (env : read_env) (n : Z) (d : ast_audiohook_direction) (fmt : Z)
| ReadAll (env : read_env) (n fmt : Z) (want_read want_write : bool).

(** Clocks do not go back and stay within twelve days of the first. *)
Fixpoint hops_ok (last : timeval) (os : list hop) : Prop :=
  match os with
  | [] => True
  | Write now env d f :: os =>
      feed_fine F env f ∧ tv_ok now ∧ usecs t0 <= usecs now
      ∧ usecs last <= usecs now < usecs t0 + 1000 * 2 ^ 30 ∧ hops_ok now os
  | ReadFrame env n d fmt :: os => read_fine env n fmt ∧ hops_ok last os
  | ReadAll env n fmt _ _ :: os => read_fine env n fmt ∧ hops_ok last os
  end.

Definition hstep (o : hop) ah : option (list effect * ast_audiohook) :=
  match o with
  | Write now env d f =>
      '(log, _, ah) ← ast_audiohook_write_frame format_equal now env ah d f; Some (log, ah)
  | ReadFrame env n d fmt =>
      '(_, log, ah) ← ast_audiohook_read_frame is_slinear format_equal slin_by_rate sample_rate env ah n d fmt;
      Some (log, ah)
  | ReadAll env n fmt r w =>
      '(_, log, ah) ← ast_audiohook_read_frame_all is_slinear format_equal slin_by_rate sample_rate env ah n fmt r w;
      Some (log, ah)
  end.

Fixpoint hrun (os : list hop) ah : option (list effect * ast_audiohook) :=
  match os with
  | [] => Some ([], ah)
  | o :: os => '(log, ah) ← hstep o ah; '(log', ah) ← hrun os ah; Some (log ++ log', ah)
  end.

Lemma hrun_ok os last ah :
  (∀ r, is_slinear (slin_by_rate r) = true) →
  hook_ok last ah → hops_ok last os →
  ∃ log ah' last', hrun os ah = Some (log, ah') ∧ hook_ok last' ah' ∧ hconserves ah log ah'.
Proof.
  intros Hslin. revert last ah. induction os as [|o os IH]; intros last ah Hok Hos; simpl.
  { exists [], ah, last. split_and!; try done. apply hconserves_refl. }
  assert (∃ log ah1 last1, hstep o ah = Some (log, ah1) ∧ hook_ok last1 ah1 ∧ hconserves ah log ah1
          ∧ hops_ok last1 os) as (log & ah1 & last1 & -> & Hok1 & Hc1 & Hos1).
  { destruct o as [now env d f|env n d fmt|env n fmt r w]; simpl in Hos |- *.
    - destruct Hos as (Hf & Hnow & Hge & Hclk & Hos).
      destruct (write_ok now env last ah d f Hok Hf Hnow Hge Hclk) as (log & sig & ah1 & -> & ? & ?).
      by eexists _, _, _.
    - destruct Hos as [Hr Hos]. unfold ast_audiohook_read_frame.
      destruct (helper_ok last env ah n d fmt false false Hslin Hok Hr) as (x & rc & wc & log & ah1 & -> & ? & ?).
      by eexists _, _, _.
    - destruct Hos as [Hr Hos]. unfold ast_audiohook_read_frame_all.
      destruct (helper_ok last env ah n AST_AUDIOHOOK_DIRECTION_BOTH fmt r w Hslin Hok Hr)
        as (x & rc & wc & log & ah1 & -> & ? & ?). by eexists _, _, _. }
  destruct (IH last1 ah1 Hok1 Hos1) as (log' & ah' & last' & E & ? & ?). simpl. rewrite E. simpl.
  eexists _, _, _. split; [done|]. split; [done|]. by eapply hconserves_trans.
Qed.

(** A structure of zeroes, with the options and flags of its owner. *)
Definition blank (flags rvol wvol : Z) : ast_audiohook :=
  mk_hook AST_AUDIOHOOK_TYPE_SPY AST_AUDIOHOOK_STATUS_NEW flags (zeroed None) (zeroed None) (Tv 0 0) (Tv 0 0)
    None None rvol wvol 0 AST_AUDIOHOOK_DIRECTION_READ.

Lemma init_ok t flags rvol wvol :
  has_factories t = true → -32768 < rvol < 32768 → -32768 < wvol < 32768 → 0 <= F <= 2 ^ 29 →
  let '(log, ah) := ast_audiohook_init is_slinear slin_by_rate (blank flags rvol wvol) t in
  hook_ok t0 ah ∧ howed ah = [] ∧ log = [].
Proof.
  intros Ht Hr Hw HF. unfold ast_audiohook_init, audiohook_set_internal_rate. simpl. rewrite Ht. simpl.
  destruct (init_zeroed (slin_by_rate DEFAULT_INTERNAL_SAMPLE_RATE)) as [out ->].
  destruct (zeroed_stream out) as (Hs & Ec & Eo).
  assert (rate_ok 8000) as H8 by (unfold rate_ok; lia).
  split_and!; try done.
  split; cbn [read_factory write_factory type hook_internal_samp_rate read_volume write_volume upd_setup
      upd_factories upd_rate]; try done; apply factory_empty; done || lia.
Qed.

End Hooks.
End Hook.

Module Properties.
Import SlinFactory.Stream SlinFactory.Runs Model Mixing Hook.

(** C38: the queues of a hook stay short and nothing leaks.  From
    initialisation of a spy or whisper hook, over any sequence of writes in both
    directions (frames of at most 1280 16-bit samples that are well-formed as
    translated too, at most [F] samples of them per write, translated frames whose
    isolation succeeds, a clock that does not go back and stays within 2^30 ms of
    its start, volumes of 16 bits) and reads in any format of 1000 Hz to 1 MHz,
    every operation succeeds, each factory never holds more
    than 501 ms of audio at the hook's rate and one feed, whatever the consumer
    does, and after the hook is destroyed every frame and translation path
    obtained has been freed exactly once. *)
Theorem audiohook_run_bounded (is_slinear : Z → bool) (format_equal : Z → Z → bool)
    (slin_by_rate sample_rate : Z → Z) (F : Z) (t0 : timeval) (t : ast_audiohook_type)
    (flags rvol wvol : Z) (os : list hop) :
  (∀ r, is_slinear (slin_by_rate r) = true) → has_factories t = true →
  -32768 < rvol < 32768 → -32768 < wvol < 32768 → 0 <= F <= 2 ^ 29 →
  hops_ok sample_rate F t0 t0 os →
  ∃ log ah,
    hrun is_slinear format_equal slin_by_rate sample_rate os
      (ast_audiohook_init is_slinear slin_by_rate (blank flags rvol wvol) t).2 = Some (log, ah)
    ∧ ast_slinfactory_available (read_factory ah) <= 501 * (hook_internal_samp_rate ah / 1000) + F
    ∧ ast_slinfactory_available (write_factory ah) <= 501 * (hook_internal_samp_rate ah / 1000) + F
    ∧ gots (log ++ ast_audiohook_destroy ah) ≡ₚ frees (log ++ ast_audiohook_destroy ah).
Proof.
  intros Hslin Ht Hr Hw HF Hos.
  pose proof (init_ok is_slinear slin_by_rate F t0 t flags rvol wvol Ht Hr Hw HF) as Hi.
  destruct (ast_audiohook_init is_slinear slin_by_rate (blank flags rvol wvol) t) as [log0 ah0].
  destruct Hi as (Hok & Hn & _).
  destruct (hrun_ok is_slinear format_equal slin_by_rate sample_rate F t0 os t0 ah0 Hslin Hok Hos)
    as (log & ah & last & E & [Hrd Hwr Hty _ _ _ _] & Hc).
  exists log, ah. split; [done|].
  rewrite !available_exact by (eapply fa_stream; eassumption).
  split; [exact (fa_bound _ _ _ _ _ _ Hrd)|]. split; [exact (fa_bound _ _ _ _ _ _ Hwr)|].
  unfold ast_audiohook_destroy. rewrite Hty. unfold hconserves in Hc. rewrite Hn in Hc. unfold howed in Hc.
  pose proof (destroy_owed (read_factory ah)) as H1. pose proof (destroy_owed (write_factory ah)) as H2.
  rewrite !gots_app, !frees_app. destruct (trans_pvt ah); cbn [gots frees omap list_omap] in *; perm_lia.
Qed.

Definition beep : ast_frame := mk_frame 9 true (Some [100; -200]) 2 8.
Definition beep_env (a : Z) : feed_env := mk_feed_env None None None (Some a).
Definition quiet : read_env :=
  mk_read_env (Tv 9 0) (Tv 9 0) (λ n, replicate (Z.to_nat n) 7) (λ n, replicate (Z.to_nat n) 7)
    (true, true, true) (Some 33) (λ s, Some s).
Definition beeps : list hop :=
  [Write (Tv 1 0) (beep_env 11) AST_AUDIOHOOK_DIRECTION_READ beep;
   Write (Tv 1 0) (beep_env 12) AST_AUDIOHOOK_DIRECTION_WRITE beep;
   ReadFrame quiet 2 AST_AUDIOHOOK_DIRECTION_BOTH 8].

Lemma audiohook_run_bounded_witness :
  ∃ log ah,
    hrun (λ _, true) Z.eqb (λ _, 8) (λ _, 8000) beeps
      (ast_audiohook_init (λ _, true) (λ _, 8) (blank 0 0 (-2)) AST_AUDIOHOOK_TYPE_SPY).2 = Some (log, ah)
    ∧ ast_slinfactory_available (read_factory ah) <= 501 * (hook_internal_samp_rate ah / 1000) + 160
    ∧ ast_slinfactory_available (write_factory ah) <= 501 * (hook_internal_samp_rate ah / 1000) + 160
    ∧ gots (log ++ ast_audiohook_destroy ah) ≡ₚ frees (log ++ ast_audiohook_destroy ah).
Proof.
  refine (audiohook_run_bounded (λ _, true) Z.eqb (λ _, 8) (λ _, 8000) 160 (Tv 1 0)
            AST_AUDIOHOOK_TYPE_SPY 0 0 (-2) beeps _ _ _ _ _ _);
    [reflexivity|reflexivity|lia|lia|lia|].
  assert (∀ a, feed_fine 160 (beep_env a) beep) as Hf.
  { intros a. split; [|split; [|split; [discriminate|discriminate]]].
    - split; [split|split]; try discriminate.
      intros _. exists [100; -200]. split; [reflexivity|simpl; lia].
    - simpl. apply Forall_cons. split; [unfold short; lia|]. apply Forall_singleton. unfold short. lia. }
  assert (tv_ok (Tv 1 0)) as Ht by (split; [discriminate|reflexivity]).
  split; [apply Hf|]. split; [exact Ht|]. split; [discriminate|]. split; [split; [discriminate|reflexivity]|].
  split; [apply Hf|]. split; [exact Ht|]. split; [discriminate|]. split; [split; [discriminate|reflexivity]|].
  split; [|exact I]. split; [|split; [discriminate|split; [discriminate|reflexivity]]].
  intros k Hk. simpl. rewrite length_replicate. lia.
Defined.

(** Reading both directions mixes them.  For a hook in order,
    [audiohook_read_frame_both] returns what [both_spec] says of its two
    streams: nothing when neither holds [n] samples or when the one that does
    not was heard from recently; otherwise each usable side gives its next [n]
    samples, muted or amplified with saturation, a missing side is left out or
    replaced by silence for the copies, the combined frame is the saturated sum,
    and exactly the samples used leave the streams. *)
Theorem audiohook_read_frame_both_correct (F : Z) (t0 now1 now2 last : timeval) (ah : ast_audiohook)
    (n : Z) (want_r want_w : bool) (buf1 buf2 : list Z) (duped : bool * bool * bool) :
  hook_ok F t0 last ah → 0 <= n → len buf1 = n → len buf2 = n →
  ∃ fs log ah',
    audiohook_read_frame_both now1 now2 ah n want_r want_w buf1 buf2 duped = Some (fs, log, ah')
    ∧ (fs, contents (read_factory ah'), contents (write_factory ah'))
      = both_spec now1 now2 ah n want_r want_w duped.
Proof.
  intros Hok Hn H1 H2.
  destruct (read_both_ok F t0 now1 now2 last ah n want_r want_w buf1 buf2 duped Hok Hn H1 H2)
    as (fs & log & ah' & E & Es & _). by exists fs, log, ah'.
Qed.

Definition two_streams : ast_audiohook :=
  mk_hook AST_AUDIOHOOK_TYPE_SPY AST_AUDIOHOOK_STATUS_RUNNING 0
    (enqueue [mk_frame 1 true (Some [32000; 5; 6]) 3 8] (zeroed (Some 8)))
    (enqueue [mk_frame 2 true (Some [10; -40]) 2 8] (zeroed (Some 8)))
    (Tv 1 0) (Tv 1 0) None None 0 100 8000 AST_AUDIOHOOK_DIRECTION_BOTH.

Lemma audiohook_read_frame_both_correct_witness :
  (∃ fs log ah',
    audiohook_read_frame_both (Tv 1 0) (Tv 1 0) two_streams 2 true true [0; 0] [0; 0] (true, true, true)
      = Some (fs, log, ah')
    ∧ (fs, contents (read_factory ah'), contents (write_factory ah'))
      = both_spec (Tv 1 0) (Tv 1 0) two_streams 2 true true (true, true, true))
  ∧ both_spec (Tv 1 0) (Tv 1 0) two_streams 2 true true (true, true, true)
    = (mk_both (Some [32767; -3995]) (Some [32000; 5]) (Some [1000; -4000]), [6], []).
Proof.
  split; [|vm_compute; reflexivity].
  refine (audiohook_read_frame_both_correct 160 (Tv 1 0) (Tv 1 0) (Tv 1 0) (Tv 1 0) two_streams 2
            true true [0; 0] [0; 0] (true, true, true) _ _ _ _); [|lia|reflexivity|reflexivity].
  assert (∀ f d, fr_data f = Some d → fr_samples f = len d → fr_samples f <= 3 → Forall short d →
    factory_ok 160 (Tv 1 0) 8000 (Tv 1 0) (enqueue [f] (zeroed (Some 8))) (Tv 1 0)) as Hfac.
  { intros f d Ed Es Hl Hd. assert (good_frame f) as Hg by (exists d; split; [exact Ed|lia]).
    destruct (zeroed_inv (Some 8)) as ((Hw & Hp & He & Hsm) & Ha & _).
    destruct (enqueue_stream [f] (zeroed (Some 8)) Hw) as (Hw' & Ec & Esz); [by apply Forall_singleton|].
    assert (contents (zeroed (Some 8)) = []) as E0 by exact (f_equal stream Ha). rewrite E0, app_nil_l in Ec.
    assert (queued [f] = d) as Eq.
    { rewrite queued_cons, app_nil_r. unfold samples_of. rewrite Ed, Es, Nat2Z.id. apply firstn_all. }
    rewrite Eq in *. destruct (enqueue_fields [f] (zeroed (Some 8))) as (Eqq & Et & _).
    split.
    - split; [split_and!; [done|unfold path_ok; by rewrite Et| |]|by rewrite Ec|rewrite Ec; lia].
      + unfold exact. rewrite Esz, Ec. reflexivity.
      + rewrite Eqq. apply Forall_singleton. unfold small, AST_SLINFACTORY_MAX_HOLD. lia.
    - rewrite Ec. unfold bound. change (8000 / 1000) with 8. lia.
    - intros _. split; [split; [discriminate|reflexivity]|split; discriminate]. }
  split; [| |reflexivity| | | |lia].
  - apply (Hfac (mk_frame 1 true (Some [32000; 5; 6]) 3 8) [32000; 5; 6]); [reflexivity|reflexivity|simpl; lia|].
    repeat (apply Forall_cons; split; [unfold short; lia|]). constructor.
  - apply (Hfac (mk_frame 2 true (Some [10; -40]) 2 8) [10; -40]); [reflexivity|reflexivity|simpl; lia|].
    repeat (apply Forall_cons; split; [unfold short; lia|]). constructor.
  - unfold rate_ok. simpl. lia.
  - simpl. lia.
  - simpl. lia.
Defined.

(** A failed change of format leaves the hook without a path but with the old
    format, so that the next read in the old format is not translated: it
    returns signed linear samples in place of the format asked for. *)
Definition with_path (p : option Z) (e : read_env) : read_env :=
  mk_read_env (clock1 e) (clock2 e) (stack1 e) (stack2 e) (duped_copies e) p (translated e).

Definition read_as (e : read_env) (n fmt : Z) (ah : ast_audiohook) : option (result * ast_audiohook) :=
  r ← ast_audiohook_read_frame (λ _, true) Z.eqb (λ _, 8) (λ _, 8000) e ah n AST_AUDIOHOOK_DIRECTION_READ fmt;
  Some (r.1.1.1.1, r.2).

Example failed_switch_returns_slinear :
  (r1 ← read_as quiet 1 1 two_streams;
   r2 ← read_as (with_path None quiet) 1 2 r1.2;
   r3 ← read_as quiet 1 1 r2.2;
   Some (r1.1, r2.1, r3.1))
  = Some (Translated 1 (Some [32000]), Nothing, Slinear [6]).
Proof. vm_compute. reflexivity. Qed.

End Properties.
