(* ===== verification/Pattern.v ===== *)
(** * Extension patterns ([main/pbx.c])

    An extension of the dialplan is a string; one that begins with an
    underscore is a pattern.  The functions of this file compare extensions to
    sort a context ([ext_cmp]), copy them without fluff ([ext_strncpy]) and
    decide whether dialled digits match ([_extension_match_core]).

    - [Model]: the functions of the source.  A C string is the list of its
      [char]s (signed, as on x86) before the terminating NUL.  A function whose
      loop may not end returns an [option]; [None] is a call that does not
      return.
    - [Spec]: the strings a pattern stands for, as the comment over
      [ext_cmp_pattern_pos] explains the special characters.
    - [Matching]: the matcher decides that language and its prefixes.
    - [Order]: the comparison is the lexicographic order of the sort keys.
    - [Agreement]: extensions that compare equal stand for the same strings.
    - [Properties]: the theorems. *)

From stdpp Require Import base numbers list sets strings.
From Stdlib Require String Ascii.
From Stdlib Require Import ZArith Lia.
From S2P Require Import Prelude.

(** ** Characters and C strings *)

Abbreviation cstring := (list Z).

(** The [char]s of a literal. *)
Definition cstr (s : string) : cstring :=
  (λ c : Ascii.ascii, swrap 8 (Z.of_N (Ascii.N_of_ascii c))) <$> String.list_ascii_of_string s.

Abbreviation SPACE := 32.
Abbreviation BANG := 33.
Abbreviation DASH := 45.
Abbreviation DOT := 46.
Abbreviation SLASH := 47.
Abbreviation LBRACKET := 91.
Abbreviation RBRACKET := 93.
Abbreviation UNDERSCORE := 95.

Module Model.

(** [*s] and [++s] on a string. *)
Definition deref (s : cstring) : Z := default 0 (head s).

Fixpoint skip_dashes (s : cstring) : cstring :=
  match s with
  | c :: s' => if c =? DASH then skip_dashes s' else s
  | [] => []
  end.

(** [strchr]: the characters before the first [c] and those after it. *)
Fixpoint strchr (s : cstring) (c : Z) : option (cstring * cstring) :=
  match s with
  | [] => None
  | x :: s => if x =? c then Some ([], s) else '(a, b) ← strchr s c; Some (x :: a, b)
  end.

Fixpoint ext_cmp_exten_strlen (str : cstring) : Z :=
  match str with
  | [] => 0
  | c :: str => if c =? DASH then ext_cmp_exten_strlen str else ext_cmp_exten_strlen str + 1
  end.

Fixpoint ext_cmp_exten_partial (left right : cstring) {struct right} : Z :=
  match right with
  | [] => 0
  | r :: right' =>
      if r =? DASH then ext_cmp_exten_partial left right' else
      let left := skip_dashes left in
      let cmp := deref left - r in
      if negb (cmp =? 0) then cmp else ext_cmp_exten_partial (tail left) right'
  end.

Fixpoint ext_cmp_exten (left right : cstring) {struct right} : Z :=
  match right with
  | [] => deref (skip_dashes left)
  | r :: right' =>
      if r =? DASH then ext_cmp_exten left right' else
      let left := skip_dashes left in
      let cmp := deref left - r in
      if negb (cmp =? 0) then cmp else ext_cmp_exten (tail left) right'
  end.

Definition BITS_PER : Z := 8.

(** The mask of character [c] in its byte of the character set. *)
Definition char_mask (c : Z) : Z := Z.shiftl 1 ((BITS_PER - 1) - c mod BITS_PER).

(** State of the scan of a set: the bits, the count (in steps of 0x100) and the
    lowest character. *)
Record char_set := CharSet { bitwise : list Z; count : Z; cmin : Z }.

(** [for (; c1 <= c2; ++c1)] over [unsigned char]s. *)
Fixpoint add_range (fuel : nat) (c1 c2 : Z) (s : char_set) : option char_set :=
  if negb (c1 <=? c2) then Some s else
  match fuel with
  | O => None
  | S fuel =>
      let mask := char_mask c1 in
      let i := Z.to_nat (c1 / BITS_PER) in
      let byte := default 0 (bitwise s !! i) in
      let s := if Z.land byte mask =? 0
               then CharSet (<[i := Z.lor byte mask]> (bitwise s)) (count s + 0x100) (cmin s)
               else s in
      add_range fuel (u8 (c1 + 1)) c2 s
  end.

(** One pass over 256 characters ends every range that ends. *)
Definition RANGE_FUEL : nat := 256.

(** [for (; *p < end; ++*p)]: the members of the set. *)
Fixpoint scan_set (body : cstring) (s : char_set) : option char_set :=
  match body with
  | [] => Some s
  | c1 :: body1 =>
      let lower := λ s, if u8 c1 <? cmin s then CharSet (bitwise s) (count s) (u8 c1) else s in
      match body1 with
      | d :: c2 :: body3 =>
          if d =? DASH
          then add_range RANGE_FUEL (u8 c1) (u8 c2) (lower s) ≫= scan_set body3
          else add_range RANGE_FUEL (u8 c1) (u8 c1) (lower s) ≫= scan_set body1
      | _ => add_range RANGE_FUEL (u8 c1) (u8 c1) (lower s) ≫= scan_set body1
      end
  end.

(** [ext_cmp_pattern_pos]: the score of the next position, the pointer after
    it ([None] for NULL) and the character set. *)
Fixpoint pattern_pos_loop (fuel : nat) (p : cstring) (bits : list Z)
    : option (Z * option cstring * list Z) :=
  match fuel with
  | O => None
  | S fuel =>
      match skip_dashes p with
      | [] => Some (0x30000, None, bits)
      | c :: p =>
          let c := u8 c in
          if (c =? 110) || (c =? 78) (* 'n' 'N' *)
          then Some (Z.lor 0x0800 50, Some p, <[7%nat := 0xc0]> (<[6%nat := 0x3f]> bits))
          else if (c =? 120) || (c =? 88) (* 'x' 'X' *)
          then Some (Z.lor 0x0A00 48, Some p, <[7%nat := 0xc0]> (<[6%nat := 0xff]> bits))
          else if (c =? 122) || (c =? 90) (* 'z' 'Z' *)
          then Some (Z.lor 0x0900 49, Some p, <[7%nat := 0xc0]> (<[6%nat := 0x7f]> bits))
          else if c =? DOT then Some (0x18000, Some p, bits)
          else if c =? BANG then Some (0x28000, Some p, bits)
          else if c =? LBRACKET then
            match strchr p RBRACKET with
            | None => Some (0x40000, Some p, bits)
            | Some (body, p) =>
                s ← scan_set body (CharSet bits 0 0xFF);
                if count s =? 0 then pattern_pos_loop fuel p (bitwise s)
                else Some (Z.lor (count s) (cmin s), Some p, bitwise s)
            end
          else Some (Z.lor 0x0100 c, Some p, <[Z.to_nat (c / BITS_PER) := char_mask c]> bits)
      end
  end.

(** Every turn of the loop reads a character. *)
Definition ext_cmp_pattern_pos (p : cstring) (bits : list Z) : option (Z * option cstring * list Z) :=
  pattern_pos_loop (S (length p)) p bits.

Fixpoint memcmp (a b : list Z) : Z :=
  match a, b with
  | x :: a, y :: b => if x =? y then memcmp a b else x - y
  | _, _ => 0
  end.

Definition no_bits : list Z := replicate 32 0.

Fixpoint cmp_pattern_loop (fuel : nat) (left right : cstring) : option Z :=
  match fuel with
  | O => None
  | S fuel =>
      '(left_pos, left', left_bitwise) ← ext_cmp_pattern_pos left no_bits;
      '(right_pos, right', right_bitwise) ← ext_cmp_pattern_pos right no_bits;
      let cmp := left_pos - right_pos in
      let cmp := if cmp =? 0 then memcmp right_bitwise left_bitwise else cmp in
      if negb (cmp =? 0) then Some cmp else
      match left', right' with
      | None, _ => Some cmp
      | Some left', Some right' => cmp_pattern_loop fuel left' right'
      | Some _, None => None (* a read through NULL *)
      end
  end.

Definition ext_cmp_pattern (left right : cstring) : option Z :=
  cmp_pattern_loop (S (length left)) left right.

Definition ext_cmp (left right : cstring) : option Z :=
  if negb (deref left =? UNDERSCORE) then
    if deref right =? UNDERSCORE then Some (-1)
    else Some (ext_cmp_exten left right)
  else if negb (deref right =? UNDERSCORE) then Some 1
  else ext_cmp_pattern (tail left) (tail right).

Definition ast_extension_cmp (a b : cstring) : option Z :=
  cmp ← ext_cmp a b;
  Some (if cmp <? 0 then -1 else if cmp >? 0 then 1 else 0).

Fixpoint plain_fluff_count (exten : cstring) : Z :=
  match exten with
  | [] => 0
  | c :: exten => (if c =? DASH then 1 else 0) + plain_fluff_count exten
  end.

(** The walk over a pattern; [inset] is the part of a set that [strchr] skips. *)
Fixpoint pattern_fluff_count (inset : bool) (exten : cstring) : Z :=
  match exten with
  | [] => 0
  | c :: exten =>
      if inset then pattern_fluff_count (negb (c =? RBRACKET)) exten
      else if c =? DASH then 1 + pattern_fluff_count false exten
      else pattern_fluff_count (c =? LBRACKET) exten
  end.

Definition ext_fluff_count (exten : cstring) : Z :=
  if negb (deref exten =? UNDERSCORE) then plain_fluff_count exten
  else pattern_fluff_count false exten.

(** The characters copied, at most [room] of them. *)
Fixpoint ext_strncpy_loop (src : cstring) (room : Z) (is_pattern insquares nofluff : bool) : cstring :=
  match src with
  | [] => []
  | c :: src =>
      if negb (0 <? room) then [] else
      if c =? LBRACKET then
        c :: ext_strncpy_loop src (room - 1) is_pattern (if is_pattern then true else insquares) nofluff
      else if c =? RBRACKET then
        c :: ext_strncpy_loop src (room - 1) is_pattern false nofluff
      else if (c =? SPACE) && negb insquares then
        ext_strncpy_loop src room is_pattern insquares nofluff
      else if (c =? DASH) && negb insquares && nofluff then
        ext_strncpy_loop src room is_pattern insquares nofluff
      else c :: ext_strncpy_loop src (room - 1) is_pattern insquares nofluff
  end.

(** The bytes written to [dst], the terminator included; their number is the
    result of the function. *)
Definition ext_strncpy (src : cstring) (dst_size : Z) (nofluff : bool) : list Z :=
  if dst_size =? 0 then []
  else ext_strncpy_loop src (dst_size - 1) (deref src =? UNDERSCORE) false nofluff ++ [0].

(** *** Matching *)

Definition E_MATCHMORE : Z := 0x00.
Definition E_CANMATCH : Z := 0x01.
Definition E_MATCH : Z := 0x02.
Definition E_MATCH_MASK : Z := 0x03.
Definition E_SPAWN : Z := 0x12.
Definition E_FINDLABEL : Z := 0x22.

(** The scan of a character range for the digit [d]. *)
Fixpoint set_matches (d : Z) (body : cstring) : bool :=
  match body with
  | [] => false
  | a :: body1 =>
      match body1 with
      | x :: b :: body3 =>
          if x =? DASH
          then if (a <=? d) && (d <=? b) then true else set_matches d body3
          else if d =? a then true else set_matches d body1
      | _ => if d =? a then true else set_matches d body1
      end
  end.

(** What follows the loop: [data] or [pattern] has ended. *)
Definition match_end (pattern data : cstring) (mode : Z) : Z :=
  if negb (deref data =? 0) then 0
  else if (deref pattern =? 0) || (deref pattern =? SLASH)
  then (if mode =? E_MATCHMORE then 0 else 1)
  else if deref pattern =? BANG then 2
  else (if mode =? E_MATCH then 0 else 1).

Fixpoint match_loop (fuel : nat) (pattern data : cstring) (mode : Z) : option Z :=
  match fuel with
  | O => None
  | S fuel =>
      let data := skip_dashes data in
      let pattern := skip_dashes pattern in
      match data, pattern with
      | d :: data1, p :: pattern1 =>
          let step (ok : bool) := if ok then match_loop fuel pattern1 data1 mode else Some 0 in
          if p =? SLASH then Some (match_end pattern data mode)
          else if p =? LBRACKET then
            match strchr pattern1 RBRACKET with
            | None => Some 0
            | Some ([], rest) => match_loop fuel rest data mode
            | Some (body, rest) =>
                if set_matches d body then match_loop fuel rest data1 mode else Some 0
            end
          else if (p =? 110) || (p =? 78) then step ((50 <=? d) && (d <=? 57))
          else if (p =? 120) || (p =? 88) then step ((48 <=? d) && (d <=? 57))
          else if (p =? 122) || (p =? 90) then step ((49 <=? d) && (d <=? 57))
          else if p =? DOT then Some 1
          else if p =? BANG then Some 2
          else step (d =? p)
      | _, _ => Some (match_end pattern data mode)
      end
  end.

Definition _extension_match_core (pattern data : cstring) (mode : Z) : option Z :=
  let mode := Z.land mode E_MATCH_MASK in
  if negb (deref pattern =? UNDERSCORE) then
    let lp := ext_cmp_exten_strlen pattern in
    let ld := ext_cmp_exten_strlen data in
    if lp <? ld then Some 0
    else if mode =? E_MATCH then Some (b2z (ext_cmp_exten pattern data =? 0))
    else if (ld =? 0) || (ext_cmp_exten_partial pattern data =? 0)
    then Some (if mode =? E_MATCHMORE then b2z (ld <? lp) else 1)
    else Some 0
  else
    same ← (if (mode =? E_MATCH) && (deref data =? UNDERSCORE)
            then cmp ← ext_cmp_pattern (tail pattern) (tail data); Some (cmp =? 0)
            else Some false);
    if (same : bool) then Some 1
    else match_loop (length pattern) (tail pattern) data mode.

(** A NULL argument is the empty string. *)
Definition extension_match_core (pattern data : option cstring) (mode : Z) : option Z :=
  _extension_match_core (default [] pattern) (default [] data) mode.

Definition ast_extension_match (pattern extension : option cstring) : option Z :=
  extension_match_core pattern extension E_MATCH.

Definition ast_extension_close (pattern data : option cstring) (needmore : Z) : option Z :=
  extension_match_core pattern data needmore.

Definition matchcid (cidpattern callerid : option cstring) : option Z :=
  match default [] callerid with
  | [] => Some (b2z (match default [] cidpattern with [] => true | _ => false end))
  | _ => ast_extension_match cidpattern callerid
  end.

End Model.

Import Model.

(** Worked inputs. *)
Example match_nxx : _extension_match_core (cstr "_NXX-XXXX") (cstr "555-1234") E_MATCH = Some 1.
Proof. reflexivity. Qed.
Example match_set : _extension_match_core (cstr "_9[13-5]!") (cstr "947") E_MATCHMORE = Some 2.
Proof. reflexivity. Qed.
Example cmp_x_set : ast_extension_cmp (cstr "_X.") (cstr "_[0-9].") = Some 0.
Proof. vm_compute. reflexivity. Qed.
Example cmp_n_x : ast_extension_cmp (cstr "_NXX") (cstr "_XXX") = Some (-1).
Proof. vm_compute. reflexivity. Qed.
Example cmp_empty_range : ast_extension_cmp (cstr "_[9-0]5") (cstr "_5") = Some 0.
Proof. vm_compute. reflexivity. Qed.

(** ** The language of a pattern *)
Module Spec.

(** Strings as C sees them: no NUL inside, [char]s of 8 bits. *)
Definition c_string (s : cstring) : Prop := Forall (λ c, (-128) <= c < 128 ∧ c ≠ 0) s.

(** Dashes are fluff. *)
Definition undash (s : cstring) : cstring := filter (λ c, c ≠ DASH) s.

(** A member of a set between brackets: [a-b] is a range, anything else is
    itself. *)
Inductive class_char : cstring → Z → Prop :=
| class_range a b t c : a <= c <= b → class_char (a :: DASH :: b :: t) c
| class_range_tail a b t c : class_char t c → class_char (a :: DASH :: b :: t) c
| class_one a t : (∀ b u, t ≠ DASH :: b :: u) → class_char (a :: t) a
| class_one_tail a t c :
    (∀ b u, t ≠ DASH :: b :: u) → class_char t c → class_char (a :: t) c.

(** [N], [X] and [Z] are digits from 2, 0 and 1 to 9. *)
Definition digit_class (x : Z) : option Z :=
  if (x =? 110) || (x =? 78) then Some 50
  else if (x =? 120) || (x =? 88) then Some 48
  else if (x =? 122) || (x =? 90) then Some 49
  else None.

Definition ordinary (x : Z) : Prop :=
  digit_class x = None ∧ x ≠ DASH ∧ x ≠ SLASH ∧ x ≠ LBRACKET ∧ x ≠ DOT ∧ x ≠ BANG.

(** [denotes p w]: the dashless string [w] is one that the pattern [p] (what
    follows its underscore) stands for. *)
Inductive denotes : cstring → cstring → Prop :=
| den_end : denotes [] []
| den_slash p : denotes (SLASH :: p) []
| den_dash p w : denotes p w → denotes (DASH :: p) w
| den_empty p w : denotes p w → denotes (LBRACKET :: RBRACKET :: p) w
| den_set body p c w :
    RBRACKET ∉ body → class_char body c → denotes p w →
    denotes (LBRACKET :: body ++ RBRACKET :: p) (c :: w)
| den_digit x lo p c w :
    digit_class x = Some lo → lo <= c <= 57 → denotes p w → denotes (x :: p) (c :: w)
| den_dot p c w : denotes (DOT :: p) (c :: w)
| den_bang p w : denotes (BANG :: p) w
| den_char x p w : ordinary x → denotes p w → denotes (x :: p) (x :: w).

(** An extension stands for what its pattern does, or for itself. *)
Definition stands_for (exten w : cstring) : Prop :=
  if decide (deref exten = UNDERSCORE) then denotes (tail exten) w else (w = undash exten).

(** What may still be dialled in a search of each kind: nothing for an exact
    match, something for "more", anything for "can". *)
Definition remainder (mode : Z) (s : cstring) : Prop :=
  (DASH ∉ s) ∧ (mode = E_MATCH → s = []) ∧ (mode = E_MATCHMORE → s ≠ []).

(** The extension stands for some string that can be dialled. *)
Definition dialable (exten : cstring) : Prop := ∃ w, (DASH ∉ w) ∧ stands_for exten w.

Definition no_empty_set (exten : cstring) : Prop :=
  ¬ (∃ a b, exten = a ++ LBRACKET :: RBRACKET :: b).

End Spec.

Import Spec.

(** ** The matcher decides the language *)
Module Matching.

Lemma c_string_cons c s : c_string (c :: s) ↔ ((-128) <= c < 128 ∧ c ≠ 0) ∧ c_string s.
Proof. unfold c_string. by rewrite Forall_cons. Qed.

Lemma c_string_app a b : c_string (a ++ b) ↔ c_string a ∧ c_string b.
Proof. unfold c_string. by rewrite Forall_app. Qed.

Lemma strchr_Some s c a b : strchr s c = Some (a, b) ↔ s = a ++ c :: b ∧ c ∉ a.
Proof.
  revert a. induction s as [|x s IH]; intros a; simpl.
  - split; [done|]. intros [E _]. by destruct a.
  - destruct (Z.eqb_spec x c) as [->|Hx].
    + split; [intros [= <- <-]; split; [done|apply not_elem_of_nil]|].
      intros [E Ha]. destruct a as [|y a]; simplify_eq/=; [done|].
      exfalso. apply Ha. apply list_elem_of_here.
    + split.
      * intros H. destruct (strchr s c) as [[a' b']|] eqn:E; simplify_eq/=.
        destruct (IH a') as [[-> Ha] _]; [done|]. split; [done|]. by apply not_elem_of_cons.
      * intros [E Ha]. destruct a as [|y a]; simplify_eq/=.
        apply not_elem_of_cons in Ha as [_ Ha].
        by rewrite (proj2 (IH a) (conj eq_refl Ha)).
Qed.

Lemma strchr_None s c : strchr s c = None ↔ c ∉ s.
Proof.
  induction s as [|x s IH]; simpl; [split; [intros; apply not_elem_of_nil|done]|].
  rewrite not_elem_of_cons. destruct (Z.eqb_spec x c) as [->|Hx]; [naive_solver|].
  rewrite <- IH. destruct (strchr s c) as [[]|]; simpl; naive_solver.
Qed.

Lemma undash_cons c s : undash (c :: s) = if decide (c = DASH) then undash s else c :: undash s.
Proof. unfold undash. rewrite filter_cons. repeat case_decide; naive_solver. Qed.

Lemma undash_dashless s : DASH ∉ undash s.
Proof. unfold undash. rewrite list_elem_of_filter. naive_solver. Qed.

Lemma c_string_undash s : c_string s → c_string (undash s).
Proof. unfold c_string. rewrite !Forall_forall. intros H c [_ Hc]%list_elem_of_filter. by apply H. Qed.

(** Skipping dashes reaches the next character that counts. *)
Lemma skip_dashes_spec s :
  match skip_dashes s with
  | [] => undash s = []
  | c :: s' => c ≠ DASH ∧ undash s = c :: undash s' ∧ (length s' < length s)%nat
               ∧ (c_string s → c ≠ 0 ∧ (-128) <= c < 128 ∧ c_string s')
  end.
Proof.
  induction s as [|c s IH]; simpl; [done|]. destruct (Z.eqb_spec c DASH) as [->|Hc].
  - destruct (skip_dashes s) as [|c' s']; rewrite undash_cons; [by case_decide|].
    destruct IH as (?&?&?&IH). case_decide; [|done]. split_and!; [done|done|lia|].
    intros Hs. apply c_string_cons in Hs. apply IH; naive_solver.
  - rewrite undash_cons. case_decide; [done|]. split_and!; [done|done|lia|].
    rewrite c_string_cons. naive_solver.
Qed.

Lemma deref_c_string s : c_string s → deref s = 0 ↔ s = [].
Proof. destruct s as [|c s]; [done|]. rewrite c_string_cons. unfold deref; simpl. naive_solver. Qed.

(** *** Plain extensions *)

Lemma ext_cmp_exten_strlen_spec s : ext_cmp_exten_strlen s = Z.of_nat (length (undash s)).
Proof.
  induction s as [|c s IH]; simpl; [done|]. rewrite undash_cons.
  destruct (Z.eqb_spec c DASH); case_decide; simpl; lia || done.
Qed.

Lemma ext_cmp_exten_zero l r :
  c_string l → c_string r → ext_cmp_exten l r = 0 ↔ undash l = undash r.
Proof.
  revert l. induction r as [|r rs IH]; intros l Hl Hr; simpl.
  - pose proof (skip_dashes_spec l) as Hsk. destruct (skip_dashes l) as [|c l'];
      unfold deref; simpl; [rewrite Hsk; done|].
    destruct Hsk as (?&->&_&Hsk). destruct (Hsk Hl) as (?&_). naive_solver.
  - apply c_string_cons in Hr as [[Hr0 Hr1] Hr]. rewrite undash_cons.
    destruct (Z.eqb_spec r DASH); case_decide; try done; [by apply IH|].
    pose proof (skip_dashes_spec l) as Hsk. destruct (skip_dashes l) as [|c l'].
    + rewrite Hsk. unfold deref; simpl. destruct (Z.eqb_spec (0 - r) 0); simpl; [lia|]. split; [lia|done].
    + destruct Hsk as (?&->&_&Hsk). destruct (Hsk Hl) as (?&?&Hl'). unfold deref; simpl.
      destruct (Z.eqb_spec (c - r) 0); simpl; [|split; [lia|intros [= ? ?]; lia]].
      rewrite IH by done. replace c with r by lia. split; [congruence|by intros [= ?]].
Qed.

Lemma ext_cmp_exten_partial_zero l r :
  c_string l → c_string r → ext_cmp_exten_partial l r = 0 ↔ undash r `prefix_of` undash l.
Proof.
  revert l. induction r as [|r rs IH]; intros l Hl Hr; simpl.
  - split; [intros _; apply prefix_nil|done].
  - apply c_string_cons in Hr as [[Hr0 Hr1] Hr]. rewrite undash_cons.
    destruct (Z.eqb_spec r DASH); case_decide; try done; [by apply IH|].
    pose proof (skip_dashes_spec l) as Hsk. destruct (skip_dashes l) as [|c l'].
    + rewrite Hsk. unfold deref; simpl. destruct (Z.eqb_spec (0 - r) 0); simpl; [lia|].
      split; [lia|intros ?%prefix_nil_inv; done].
    + destruct Hsk as (?&->&_&Hsk). destruct (Hsk Hl) as (?&?&Hl'). unfold deref; simpl.
      destruct (Z.eqb_spec (c - r) 0); simpl.
      * rewrite IH by done. replace c with r by lia. split; [apply prefix_cons|apply prefix_cons_inv_2].
      * split; [lia|]. intros ?%prefix_cons_inv_1. lia.
Qed.

(** *** Sets *)

(** Induction along the members of a set. *)
Lemma set_ind (P : cstring → Prop) :
  P [] → (∀ a b t, P t → P (a :: DASH :: b :: t)) →
  (∀ a t, (∀ b u, t ≠ DASH :: b :: u) → P t → P (a :: t)) →
  ∀ body, P body.
Proof.
  intros Hnil Hrange Hone body. remember (length body) as n eqn:En. revert body En.
  induction n as [n IH] using lt_wf_ind. intros [|a [|x [|b t]]] ->; [done|..].
  - apply Hone; done.
  - apply Hone; [done|]. by apply (IH 1%nat); [simpl; lia|].
  - destruct (decide (x = DASH)) as [->|Hx].
    + apply Hrange. eapply IH; [|done]. simpl; lia.
    + apply Hone; [congruence|]. eapply IH; [|done]. simpl; lia.
Qed.

Lemma class_char_range a b t c :
  class_char (a :: DASH :: b :: t) c ↔ a <= c <= b ∨ class_char t c.
Proof.
  split; [|by intros [?|?]; constructor].
  intros Hc. inversion Hc as [| |? ? Hno|? ? ? Hno]; subst; auto; by destruct (Hno b t).
Qed.

Lemma class_char_one a t c :
  (∀ b u, t ≠ DASH :: b :: u) → class_char (a :: t) c ↔ c = a ∨ class_char t c.
Proof.
  intros Hno. split; [|by intros [->|?]; constructor].
  intros Hc. inversion Hc as [? b u|? b u|?|? ? ?]; subst; auto; by destruct (Hno b u).
Qed.

Lemma class_char_nil c : ¬ class_char [] c.
Proof. inversion 1. Qed.

(** The body of a scan at a member that is not a range. *)
Lemma not_range_match {A} (t : cstring) (f : Z → cstring → A) (x : A) :
  (∀ b u, t ≠ DASH :: b :: u) →
  match t with d :: b :: u => if d =? DASH then f b u else x | _ => x end = x.
Proof.
  intros Hno. destruct t as [|d [|b u]]; [done..|].
  destruct (Z.eqb_spec d DASH) as [->|]; [by destruct (Hno b u)|done].
Qed.

Lemma set_matches_spec d body : set_matches d body = true ↔ class_char body d.
Proof.
  induction body as [|a b t IH|a t Hno IH] using set_ind.
  - split; [done|by intros ?%class_char_nil].
  - rewrite class_char_range, <- IH. simpl. destruct (Z.leb_spec a d), (Z.leb_spec d b);
      simpl; intuition (done || lia).
  - rewrite class_char_one, <- IH by done. simpl. rewrite (not_range_match t (λ b u, _)) by done.
    destruct (Z.eqb_spec d a); intuition done.
Qed.

(** *** Equations of the language *)

Ltac not_special := unfold ordinary, digit_class in *; simpl in *; naive_solver.

Lemma denotes_nil w : denotes [] w ↔ w = [].
Proof. split; [by inversion 1|intros ->; constructor]. Qed.

Lemma denotes_slash p w : denotes (SLASH :: p) w ↔ w = [].
Proof. split; [inversion 1; subst; done || not_special|intros ->; constructor]. Qed.

Lemma denotes_dash p w : denotes (DASH :: p) w ↔ denotes p w.
Proof. split; [inversion 1; subst; done || not_special|by constructor]. Qed.

Lemma denotes_dot p w : denotes (DOT :: p) w ↔ w ≠ [].
Proof.
  split; [inversion 1; subst; done || not_special|].
  destruct w; [done|]. intros _. constructor.
Qed.

Lemma denotes_bang p w : denotes (BANG :: p) w.
Proof. constructor. Qed.

Lemma denotes_digit x lo p w : digit_class x = Some lo →
  denotes (x :: p) w ↔ ∃ c w', w = c :: w' ∧ lo <= c <= 57 ∧ denotes p w'.
Proof.
  intros Hx. split; [|by intros (c&w'&->&?&?); eapply den_digit].
  inversion 1; subst; try not_special; simplify_eq; eauto 6.
Qed.

Lemma denotes_char x p w : ordinary x → denotes (x :: p) w ↔ ∃ w', w = x :: w' ∧ denotes p w'.
Proof.
  intros Hx. split; [|intros (w'&->&?); by constructor].
  inversion 1; subst; try not_special; eauto.
Qed.

Lemma app_cons_inj (x : Z) (a b c d : cstring) :
  a ++ x :: b = c ++ x :: d → (x ∉ a) → (x ∉ c) → a = c ∧ b = d.
Proof.
  revert c. induction a as [|y a IH]; intros [|z c] E Ha Hc; simplify_eq/=; [done|..].
  - destruct Hc. apply list_elem_of_here.
  - destruct Ha. apply list_elem_of_here.
  - apply not_elem_of_cons in Ha as [_ Ha], Hc as [_ Hc].
    destruct (IH c) as [-> ->]; done.
Qed.

Lemma denotes_set p body rest w : strchr p RBRACKET = Some (body, rest) →
  denotes (LBRACKET :: p) w ↔
  (body = [] ∧ denotes rest w) ∨ (∃ c w', w = c :: w' ∧ class_char body c ∧ denotes rest w').
Proof.
  rewrite strchr_Some. intros [-> Hb]. split.
  - inversion 1 as [| | |q w' Hq E|b q c w' Hb' Hc Hq E| | | |]; subst; try not_special.
    + left. destruct body as [|y body]; simplify_eq/=; [done|]. destruct Hb. apply list_elem_of_here.
    + right. destruct (app_cons_inj RBRACKET b q body rest) as [-> ->]; [done..|]. eauto.
  - intros [[-> ?]|(c&w'&->&?&?)]; by constructor.
Qed.

Lemma denotes_open p w : strchr p RBRACKET = None → ¬ denotes (LBRACKET :: p) w.
Proof.
  rewrite strchr_None. intros Hb. inversion 1; subst; try not_special.
  - apply Hb, list_elem_of_here.
  - apply Hb, elem_of_app. right. apply list_elem_of_here.
Qed.

(** *** The loop *)

Definition search_mode (mode : Z) : Prop :=
  mode = E_MATCHMORE ∨ mode = E_CANMATCH ∨ mode = E_MATCH.

(** The answer the matcher owes for pattern [p] after the digits [w]. *)
Definition answers (mode : Z) (p w : cstring) (r : Z) : Prop :=
  r ≠ 0 ↔ ∃ s, remainder mode s ∧ denotes p (w ++ s).

Definition inhabited (p : cstring) : Prop := ∃ w, (DASH ∉ w) ∧ denotes p w.

(** What the loop needs of the rest of the pattern. *)
Definition pattern_ok (mode : Z) (p : cstring) : Prop :=
  c_string p ∧ no_empty_set p ∧ (mode ≠ E_MATCH → inhabited p).

Lemma remainder_exists mode : search_mode mode → ∃ s, remainder mode s.
Proof.
  intros [->|[->| ->]]; [exists [48]|exists []|exists []]; (split; [|done]); set_solver.
Qed.

Lemma remainder_nil mode (r : Z) :
  r = (if mode =? E_MATCHMORE then 0 else 1) → r ≠ 0 ↔ ∃ s, remainder mode s ∧ s = [].
Proof.
  intros ->. destruct (Z.eqb_spec mode E_MATCHMORE) as [->|Hm].
  - split; [done|]. intros (s&(_&_&Hs)&->). by destruct Hs.
  - split; [intros _|done]. exists []. split; [|done]. split_and!; [apply not_elem_of_nil|done..].
Qed.

Lemma no_empty_set_app a b : no_empty_set (a ++ b) → no_empty_set b.
Proof. intros H (x&y&->). apply H. exists (a ++ x), y. by rewrite (assoc_L (++)). Qed.

Lemma no_empty_set_cons a b : no_empty_set (a :: b) → no_empty_set b.
Proof. apply (no_empty_set_app [a]). Qed.

Lemma skip_dashes_denotes p w : denotes (skip_dashes p) w ↔ denotes p w.
Proof.
  induction p as [|c p IH]; simpl; [done|].
  destruct (Z.eqb_spec c DASH) as [->|]; [|done]. by rewrite denotes_dash.
Qed.

Lemma skip_dashes_ok mode p : pattern_ok mode p → pattern_ok mode (skip_dashes p).
Proof.
  intros (Hc&Hn&Hi). assert (∃ a, p = a ++ skip_dashes p) as [a E].
  { clear. induction p as [|c p [a IH]]; simpl; [by exists []|].
    destruct (c =? DASH); [exists (c :: a); simpl; congruence|by exists []]. }
  rewrite E in Hc, Hn. split_and!.
  - by apply c_string_app in Hc as [_ Hc].
  - by apply no_empty_set_app in Hn.
  - intros Hm. destruct (Hi Hm) as (w&?&?). exists w. by rewrite skip_dashes_denotes.
Qed.

(** Patterns in front of which a digit must be dialled. *)
Lemma denotes_not_nil x p w :
  x ≠ DASH → x ≠ SLASH → x ≠ BANG → no_empty_set (x :: p) → denotes (x :: p) w → w ≠ [].
Proof.
  intros ? ? ? Hn Hd. inversion Hd; subst; try done. destruct Hn. by eexists [], _.
Qed.

Lemma match_end_nil mode p :
  search_mode mode → head p ≠ Some DASH → pattern_ok mode p → answers mode p [] (match_end p [] mode).
Proof.
  intros Hmode Hdash (Hc&Hn&Hi). unfold match_end, answers. change (deref []) with 0. simpl.
  destruct p as [|x p]; unfold deref; simpl.
  - setoid_rewrite denotes_nil. by apply remainder_nil.
  - apply c_string_cons in Hc as [[_ Hx] Hc]. destruct (Z.eqb_spec x 0); [done|]. simpl.
    destruct (Z.eqb_spec x SLASH) as [->|Hs].
    { setoid_rewrite denotes_slash. by apply remainder_nil. }
    destruct (Z.eqb_spec x BANG) as [->|Hb].
    { split; [|done]. intros _. destruct (remainder_exists mode Hmode) as [s ?].
      exists s. split; [done|]. apply denotes_bang. }
    assert (x ≠ DASH) by (simpl in Hdash; congruence).
    destruct (Z.eqb_spec mode E_MATCH) as [->|Hm].
    + split; [done|]. intros (s&(_&Hs'&_)&Hd). rewrite Hs' in Hd by done.
      by apply denotes_not_nil in Hd.
    + split; [intros _|done]. destruct (Hi Hm) as (w&Hw&Hd). exists w. split; [|done].
      split_and!; [done|done|]. intros _. by eapply denotes_not_nil.
Qed.

(** A position that takes one digit of the set [Q]. *)
Definition takes (p : cstring) (Q : Z → Prop) (p' : cstring) : Prop :=
  ∀ w, denotes p w ↔ ∃ c w', w = c :: w' ∧ Q c ∧ denotes p' w'.

Lemma takes_answers mode p Q p' d w (b : bool) (m : option Z) :
  takes p Q p' → (b = true ↔ Q d) →
  (∃ r, m = Some r ∧ answers mode p' w r) →
  ∃ r, (if b then m else Some 0) = Some r ∧ answers mode p (d :: w) r.
Proof.
  intros Ht Hb (r&->&Hr). exists (if b then r else 0). split; [by destruct b|].
  unfold answers, takes in *. setoid_rewrite Ht. destruct b.
  - rewrite Hr. split.
    + intros (s&?&?). exists s. split; [done|]. exists d, (w ++ s). naive_solver.
    + intros (s&?&c&w'&?&?&?). simplify_eq/=. eauto.
  - split; [done|]. intros (s&?&c&w'&?&?&?). simplify_eq/=. naive_solver.
Qed.

Lemma takes_inhabited p Q p' : takes p Q p' → inhabited p → inhabited p'.
Proof.
  intros Ht (w&Hw&Hd). apply Ht in Hd as (c&w'&->&_&Hd). exists w'. split; [|done].
  by apply not_elem_of_cons in Hw as [_ ?].
Qed.

Lemma takes_ok mode a Q p' :
  takes (a ++ p') Q p' → pattern_ok mode (a ++ p') → pattern_ok mode p'.
Proof.
  intros Ht (Hc&Hn&Hi). apply c_string_app in Hc as [_ Hc]. apply no_empty_set_app in Hn.
  split_and!; [done..|]. intros Hm. by eapply takes_inhabited, Hi.
Qed.

(** How the first character of the pattern decides. *)
Lemma takes_digit x lo p : digit_class x = Some lo → takes (x :: p) (λ c, lo <= c <= 57) p.
Proof. intros Hx w. by apply denotes_digit. Qed.

Lemma takes_char x p : ordinary x → takes (x :: p) (λ c, c = x) p.
Proof. intros Hx w. rewrite denotes_char by done. naive_solver. Qed.

Lemma takes_set p b body rest :
  strchr p RBRACKET = Some (b :: body, rest) → takes (LBRACKET :: p) (class_char (b :: body)) rest.
Proof. intros E w. rewrite denotes_set by done. naive_solver. Qed.

Lemma in_range_spec a d b : (a <=? d) && (d <=? b) = true ↔ a <= d <= b.
Proof. rewrite andb_true_iff, !Z.leb_le. done. Qed.

Lemma answers_skip_dashes m mode p w :
  (∃ r, m = Some r ∧ answers mode (skip_dashes p) w r) → ∃ r, m = Some r ∧ answers mode p w r.
Proof. unfold answers. by setoid_rewrite skip_dashes_denotes. Qed.

Lemma match_loop_spec mode fuel p d :
  search_mode mode → (length p < fuel)%nat → pattern_ok mode p → c_string d →
  ∃ r, match_loop fuel p d mode = Some r ∧ answers mode p (undash d) r.
Proof.
  intros Hmode. revert p d. induction fuel as [|fuel IH]; intros p d Hlen Hp Hd; [lia|].
  cbn [match_loop]. pose proof (skip_dashes_spec d) as Hsd.
  pose proof (skip_dashes_spec p) as Hsp. pose proof (skip_dashes_ok mode p Hp) as Hp'.
  apply answers_skip_dashes.
  destruct (skip_dashes d) as [|c d'].
  { eexists. split; [done|]. rewrite Hsd. apply match_end_nil; [done| |done].
    destruct (skip_dashes p); simpl; [done|]. naive_solver. }
  destruct Hsd as (Hcd&->&_&Hsd). destruct (Hsd Hd) as (Hc0&_&Hd'). clear Hsd Hd Hp.
  destruct (skip_dashes p) as [|x p'].
  { eexists. split; [done|]. unfold match_end, deref; simpl.
    destruct (Z.eqb_spec c 0); [done|]. unfold answers. setoid_rewrite denotes_nil. naive_solver. }
  destruct Hsp as (Hx&_&Hlp&_). assert (length p' < fuel)%nat as Hlen' by lia.
  clear p Hlen Hlp. rename p' into p, Hlen' into Hlen.
  assert (∀ b Q p2, takes (x :: p) Q p2 → (b = true ↔ Q c) → (∃ a, x :: p = a ++ p2) →
    (length p2 <= length p)%nat →
    ∃ r, (if (b : bool) then match_loop fuel p2 d' mode else Some 0) = Some r
         ∧ answers mode (x :: p) (c :: undash d') r) as Hstep.
  { intros b Q p2 Ht Hb [a E] Hl. eapply takes_answers; [done..|].
    apply IH; [lia| |done]. rewrite E in Ht, Hp'. by eapply takes_ok. }
  assert (∃ a, x :: p = a ++ p) as Hsuf by (by exists [x]).
  destruct (Z.eqb_spec x SLASH) as [->|Hs].
  { eexists. split; [done|]. unfold match_end, deref; simpl.
    destruct (Z.eqb_spec c 0); [done|]. unfold answers. setoid_rewrite denotes_slash. naive_solver. }
  destruct (Z.eqb_spec x LBRACKET) as [->|Hl].
  { destruct (strchr p RBRACKET) as [[[|b body] rest]|] eqn:E.
    - apply strchr_Some in E as [-> _]. destruct Hp' as (_&Hn&_). destruct Hn. by eexists [], _.
    - pose proof (takes_set _ _ _ _ E) as Ht. apply strchr_Some in E as [-> _].
      eapply Hstep; [exact Ht|apply set_matches_spec| |].
      + exists (LBRACKET :: (b :: body) ++ [RBRACKET]). simpl. by rewrite <- (assoc_L (++)).
      + rewrite length_app. simpl. lia.
    - eexists. split; [done|]. split; [done|]. intros (s&_&Hden). by apply denotes_open in Hden. }
  destruct ((x =? 110) || (x =? 78)) eqn:E1;
    [|destruct ((x =? 120) || (x =? 88)) eqn:E2;
      [|destruct ((x =? 122) || (x =? 90)) eqn:E3]].
  1-3: eapply Hstep; [apply takes_digit; unfold digit_class; by rewrite ?E1, ?E2, ?E3
                     |apply in_range_spec|done|done].
  destruct (remainder_exists mode Hmode) as [s Hs'].
  destruct (Z.eqb_spec x DOT) as [->|Hdot];
    [|destruct (Z.eqb_spec x BANG) as [->|Hbang]].
  1-2: eexists; (split; [done|]); (split; [intros _|done]); exists s; (split; [done|]); by constructor.
  eapply Hstep; [apply takes_char|by apply Z.eqb_eq|done|done].
  unfold ordinary, digit_class. by rewrite E1, E2, E3.
Qed.

(** *** Whole extensions *)

Lemma E_MATCH_MASK_spec mode : search_mode mode → Z.land mode E_MATCH_MASK = mode.
Proof. by intros [->|[->| ->]]. Qed.

Lemma plain_match_core mode p d :
  search_mode mode → deref p ≠ UNDERSCORE → c_string p → c_string d →
  ∃ r, _extension_match_core p d mode = Some r
       ∧ (r ≠ 0 ↔ ∃ s, remainder mode s ∧ undash d ++ s = undash p).
Proof.
  intros Hmode Hp Hcp Hcd. unfold _extension_match_core. rewrite E_MATCH_MASK_spec by done.
  destruct (Z.eqb_spec (deref p) UNDERSCORE) as [|_]; [done|]. simpl.
  rewrite !ext_cmp_exten_strlen_spec.
  destruct (Z.ltb_spec (Z.of_nat (length (undash p))) (Z.of_nat (length (undash d)))) as [Hl|Hl].
  { eexists. split; [done|]. split; [done|]. intros (s&_&E). apply (f_equal length) in E.
    rewrite length_app in E. lia. }
  destruct (Z.eqb_spec mode E_MATCH) as [->|Hm].
  { eexists. split; [done|]. destruct (Z.eqb_spec (ext_cmp_exten p d) 0) as [E|E];
      rewrite ext_cmp_exten_zero in E by done; simpl.
    - split; [intros _|done]. exists []. rewrite app_nil_r. split; [|done].
      split_and!; [apply not_elem_of_nil|done..].
    - split; [done|]. intros (s&(_&Hs&_)&Es). rewrite Hs, app_nil_r in Es by done. by destruct E. }
  set (b := (_ =? 0) || (_ =? 0)).
  assert (b = true ↔ undash d `prefix_of` undash p) as Hb.
  { unfold b. rewrite orb_true_iff, !Z.eqb_eq, ext_cmp_exten_partial_zero by done.
    split; [|by right]. intros [E|?]; [|done]. destruct (undash d); [apply prefix_nil|done]. }
  destruct b.
  - destruct Hb as [[s E] _]; [done|]. rewrite E.
    assert (DASH ∉ s) as Hs.
    { pose proof (undash_dashless p) as Hd. rewrite E in Hd. set_solver. }
    eexists. split; [done|]. rewrite length_app. split.
    + intros Hr. exists s. split; [|done]. split_and!; [done|done|]. intros -> ->. simpl in Hr.
      rewrite Nat.add_0_r, Z.ltb_irrefl in Hr. done.
    + intros (s'&(_&_&Hs')&E'). apply (inj _) in E' as ->.
      destruct (Z.eqb_spec mode E_MATCHMORE) as [->|]; [|done].
      destruct s; [by destruct Hs'|]. simpl.
      destruct (Z.ltb_spec (Z.of_nat (length (undash d))) (Z.of_nat (length (undash d) + S (length s)))); [done|lia].
  - eexists. split; [done|]. split; [done|]. intros (s&_&E). destruct Hb as [_ Hb].
    discriminate Hb. by exists s.
Qed.

Lemma extension_match_core_spec mode p d :
  search_mode mode → c_string p → c_string d → no_empty_set p →
  (mode = E_MATCH → deref p = UNDERSCORE → deref d ≠ UNDERSCORE) →
  (mode ≠ E_MATCH → dialable p) →
  ∃ r, _extension_match_core p d mode = Some r
       ∧ (r ≠ 0 ↔ ∃ s, remainder mode s ∧ stands_for p (undash d ++ s)).
Proof.
  intros Hmode Hcp Hcd Hn Hu Hi. unfold dialable, stands_for in *.
  destruct (decide (deref p = UNDERSCORE)) as [Hp|Hp]; [|by apply plain_match_core].
  unfold _extension_match_core. rewrite E_MATCH_MASK_spec by done. rewrite Hp.
  destruct p as [|x p]; [done|]. cbn [tail length] in *.
  assert ((mode =? E_MATCH) && (deref d =? UNDERSCORE) = false) as ->.
  { destruct (Z.eqb_spec mode E_MATCH); [|done]. destruct (Z.eqb_spec (deref d) UNDERSCORE); [|done].
    naive_solver. }
  cbn -[match_loop]. apply match_loop_spec; [done|lia| |done].
  split_and!; [by apply c_string_cons in Hcp as [_ ?]|by apply no_empty_set_cons in Hn|done].
Qed.

End Matching.

(** ** Character sets as bits *)
Module Bits.

Import Matching.

(** Character [c] is in the set. *)
Definition bit_of (bits : list Z) (c : Z) : bool :=
  negb (Z.land (default 0 (bits !! Z.to_nat (c / BITS_PER))) (char_mask c) =? 0).

Definition members (bits : list Z) : list Z := filter (λ c, bit_of bits c = true) (seqZ 0 256).

Definition is_uchar (c : Z) : Prop := 0 <= c < 256.

Lemma land_pow2_zero b k : 0 <= k → Z.land b (Z.shiftl 1 k) = 0 ↔ Z.testbit b k = false.
Proof.
  intros Hk. rewrite Z.shiftl_1_l. split.
  - intros E. apply (f_equal (λ z, Z.testbit z k)) in E. revert E.
    rewrite Z.land_spec, Z.pow2_bits_eqb, Z.eqb_refl, Z.bits_0 by lia. by rewrite andb_true_r.
  - intros E. apply Z.bits_inj'. intros n Hn. rewrite Z.land_spec, Z.pow2_bits_eqb, Z.bits_0 by lia.
    destruct (Z.eqb_spec k n) as [->|]; [by rewrite E|apply andb_false_r].
Qed.

Lemma bit_of_testbit bits c :
  bit_of bits c = Z.testbit (default 0 (bits !! Z.to_nat (c / BITS_PER))) (7 - c mod 8).
Proof.
  unfold bit_of, char_mask. change (BITS_PER - 1) with 7. change (c mod BITS_PER) with (c mod 8).
  assert (0 <= 7 - c mod 8) as Hk by (pose proof (Z.mod_pos_bound c 8); lia).
  pose proof (land_pow2_zero (default 0 (bits !! Z.to_nat (c / BITS_PER))) (7 - c mod 8) Hk) as H.
  destruct (Z.eqb_spec (Z.land (default 0 (bits !! Z.to_nat (c / BITS_PER))) (Z.shiftl 1 (7 - c mod 8))) 0) as [E|E];
    simpl; destruct (Z.testbit _ _); naive_solver.
Qed.

(** Storing a byte of the set changes the characters of that byte only. *)
Lemma bit_of_insert bits c1 c byte :
  length bits = 32%nat → is_uchar c1 → is_uchar c →
  bit_of (<[Z.to_nat (c1 / BITS_PER) := byte]> bits) c =
  if decide (c / 8 = c1 / 8) then Z.testbit byte (7 - c mod 8) else bit_of bits c.
Proof.
  unfold is_uchar. intros Hl H1 Hc. rewrite !bit_of_testbit. change BITS_PER with 8. case_decide as E.
  - rewrite E, list_lookup_insert_eq; [done|]. rewrite Hl.
    assert (c1 / 8 < 32) by (apply Z.div_lt_upper_bound; lia). lia.
  - rewrite list_lookup_insert_ne; [done|].
    pose proof (Z.div_pos c 8). pose proof (Z.div_pos c1 8). lia.
Qed.

Lemma testbit_mask c1 c :
  c / 8 = c1 / 8 → Z.testbit (char_mask c1) (7 - c mod 8) = (c =? c1).
Proof.
  intros E. unfold char_mask. change (BITS_PER - 1) with 7. change (c1 mod BITS_PER) with (c1 mod 8).
  pose proof (Z.mod_pos_bound c 8). pose proof (Z.mod_pos_bound c1 8).
  pose proof (Z.div_mod c 8). pose proof (Z.div_mod c1 8).
  rewrite Z.shiftl_1_l, Z.pow2_bits_eqb by lia.
  destruct (Z.eqb_spec (7 - c1 mod 8) (7 - c mod 8)), (Z.eqb_spec c c1); congruence || lia.
Qed.

Lemma bit_of_add bits c1 c :
  length bits = 32%nat → is_uchar c1 → is_uchar c →
  bit_of (<[Z.to_nat (c1 / BITS_PER) :=
            Z.lor (default 0 (bits !! Z.to_nat (c1 / BITS_PER))) (char_mask c1)]> bits) c =
  bit_of bits c || (c =? c1).
Proof.
  intros Hl H1 Hc. rewrite bit_of_insert by done. case_decide as E.
  - rewrite Z.lor_spec, testbit_mask, bit_of_testbit by done. change BITS_PER with 8. by rewrite E.
  - destruct (Z.eqb_spec c c1) as [->|]; [done|]. by rewrite orb_false_r.
Qed.

Lemma bit_of_no_bits c : bit_of no_bits c = false.
Proof.
  rewrite bit_of_testbit. unfold no_bits.
  destruct (replicate 32 0 !! Z.to_nat (c / BITS_PER)) as [b|] eqn:E; simpl; [|apply Z.bits_0].
  apply lookup_replicate in E as [-> _]. apply Z.bits_0.
Qed.

Lemma bit_of_char c1 c : is_uchar c1 → is_uchar c →
  bit_of (<[Z.to_nat (c1 / BITS_PER) := char_mask c1]> no_bits) c = (c =? c1).
Proof.
  intros H1 Hc. rewrite bit_of_insert by done. case_decide as E; [by apply testbit_mask|].
  rewrite bit_of_no_bits. destruct (Z.eqb_spec c c1) as [->|]; done.
Qed.

(** The three digit classes. *)
Lemma bit_of_digits lo m c : is_uchar c →
  (lo, m) ∈ [(50, 0x3f); (48, 0xff); (49, 0x7f)] →
  bit_of (<[7%nat := 0xc0]> (<[6%nat := m]> no_bits)) c = (lo <=? c) && (c <=? 57).
Proof.
  intros Hc Hm.
  assert (forallb (λ lm : Z * Z, forallb (λ c, Bool.eqb
     (bit_of (<[7%nat := 0xc0]> (<[6%nat := lm.2]> no_bits)) c) ((lm.1 <=? c) && (c <=? 57)))
     (seqZ 0 256)) [(50, 0x3f); (48, 0xff); (49, 0x7f)] = true) as H by (vm_compute; reflexivity).
  rewrite forallb_forall in H. specialize (H (lo, m)). rewrite <- list_elem_of_In in H.
  specialize (H Hm). rewrite forallb_forall in H. specialize (H c).
  rewrite <- list_elem_of_In, elem_of_seqZ in H. apply eqb_prop, H. unfold is_uchar in Hc. lia.
Qed.

(** *** Scanning a set *)

(** The score counts the members. *)
Definition set_wf (s : char_set) : Prop :=
  length (bitwise s) = 32%nat ∧ count s = 0x100 * Z.of_nat (length (members (bitwise s)))
  ∧ is_uchar (cmin s).

Lemma filter_add_length (P Q : Z → Prop) `{!∀ x, Decision (P x), !∀ x, Decision (Q x)} c (l : list Z) :
  NoDup l → c ∈ l → ¬ P c → (∀ x, x ∈ l → Q x ↔ P x ∨ x = c) →
  length (filter Q l) = S (length (filter P l)).
Proof.
  intros Hnd Hc HP HQ. induction Hnd as [|x l Hx Hnd IH]; [by apply not_elem_of_nil in Hc|].
  rewrite !filter_cons. destruct (decide (x = c)) as [->|Hxc].
  - rewrite decide_True by (apply HQ; set_solver). rewrite decide_False by done. simpl. f_equal.
    f_equal. apply filter_ext_in. intros y Hy. rewrite HQ by set_solver.
    assert (y ≠ c) by (intros ->; done). naive_solver.
  - assert (length (filter Q l) = S (length (filter P l))) as IH' by (apply IH; set_solver).
    destruct (HQ x) as [H1 H2]; [set_solver|].
    destruct (decide (Q x)), (decide (P x)); simpl; try naive_solver lia.
Qed.

Lemma set_wf_count s : set_wf s → 0 <= count s <= 0x10000.
Proof.
  intros (_&->&_). assert (length (members (bitwise s)) ≤ 256)%nat; [|lia].
  unfold members. etrans; [apply length_filter|]. by rewrite length_seqZ.
Qed.

(** What a step of the scan does to the set: it adds the characters of [Q]. *)
Definition adds (s s' : char_set) (Q : Z → Prop) : Prop :=
  set_wf s' ∧ (∀ c, is_uchar c → bit_of (bitwise s') c = true ↔ bit_of (bitwise s) c = true ∨ Q c)
  ∧ count s <= count s' ∧ (count s' = count s → bitwise s' = bitwise s).

Lemma adds_trans s1 s2 s3 Q1 Q2 Q :
  adds s1 s2 Q1 → adds s2 s3 Q2 → (∀ c, is_uchar c → Q c ↔ Q1 c ∨ Q2 c) → adds s1 s3 Q.
Proof.
  intros (?&Hb1&Hc1&He1) (?&Hb2&Hc2&He2) HQ. split_and!; [done| |lia|].
  - intros c Hc. rewrite Hb2, Hb1, HQ by done. tauto.
  - intros E. rewrite He2, He1 by lia. done.
Qed.

Lemma adds_nothing s (Q : Z → Prop) : set_wf s → (∀ c, is_uchar c → ¬ Q c) → adds s s Q.
Proof. intros ? HQ. split_and!; [done| |lia|done]. intros c Hc. specialize (HQ c Hc). tauto. Qed.

Lemma adds_one s c1 : set_wf s → is_uchar c1 →
  adds s (if Z.land (default 0 (bitwise s !! Z.to_nat (c1 / BITS_PER))) (char_mask c1) =? 0
          then CharSet (<[Z.to_nat (c1 / BITS_PER) :=
                 Z.lor (default 0 (bitwise s !! Z.to_nat (c1 / BITS_PER))) (char_mask c1)]> (bitwise s))
                 (count s + 0x100) (cmin s)
          else s) (λ c, c = c1).
Proof.
  intros Hs H1. assert (bit_of (bitwise s) c1 = negb (Z.land (default 0 (bitwise s !! Z.to_nat (c1 / BITS_PER)))
    (char_mask c1) =? 0)) as E by done.
  destruct (_ =? 0); simpl in E; [|split_and!; [done|naive_solver|lia|done]].
  destruct Hs as (Hl&Hcount&Hmin).
  assert (∀ c, is_uchar c → bit_of (<[Z.to_nat (c1 / BITS_PER) :=
     Z.lor (default 0 (bitwise s !! Z.to_nat (c1 / BITS_PER))) (char_mask c1)]> (bitwise s)) c = true
     ↔ bit_of (bitwise s) c = true ∨ c = c1) as Hbits.
  { intros c Hc. rewrite bit_of_add, orb_true_iff, Z.eqb_eq by done. done. }
  split_and!; simpl; [|exact Hbits|lia|lia].
  split_and!; simpl; [by rewrite length_insert| |done].
  unfold members. rewrite (filter_add_length (λ c, bit_of (bitwise s) c = true) _ c1 (seqZ 0 256)).
  - unfold members in Hcount. lia.
  - apply NoDup_seqZ.
  - apply elem_of_seqZ. unfold is_uchar in H1. lia.
  - by rewrite E.
  - intros c Hc. apply Hbits. apply elem_of_seqZ in Hc. unfold is_uchar. lia.
Qed.

Lemma add_range_spec fuel c1 c2 s :
  set_wf s → 0 <= c1 → c2 < 255 → (c2 < c1 ∨ c2 - c1 < Z.of_nat fuel) →
  ∃ s', add_range fuel c1 c2 s = Some s' ∧ adds s s' (λ c, c1 <= c <= c2) ∧ cmin s' = cmin s.
Proof.
  revert c1 s. induction fuel as [|fuel IH]; intros c1 s Hs H1 H2 Hf; cbn [add_range];
    (destruct (Z.leb_spec c1 c2); cbn [negb];
       [|exists s; split_and!; [done|apply adds_nothing; [done|lia]|done]]); [lia|].
  pose proof (adds_one s c1 Hs) as Ha. set (s1 := if _ =? 0 then _ else s) in *.
  assert (cmin s1 = cmin s) as Hmin by (unfold s1; by destruct (_ =? 0)).
  specialize (Ha ltac:(unfold is_uchar; lia)). rewrite uwrap_small by lia.
  destruct (IH (c1 + 1) s1) as (s'&E&Ha'&Hm'); [by destruct Ha|lia..|].
  exists s'. split_and!; [done| |congruence]. eapply adds_trans; [done..|]. intros c _. simpl. lia.
Qed.

(** A last character of 255 makes the loop counter wrap: the loop does not end. *)
Lemma add_range_diverges fuel c1 s : 0 <= c1 < 256 → add_range fuel c1 255 s = None.
Proof.
  revert c1 s. induction fuel as [|fuel IH]; intros c1 s Hc; cbn [add_range];
    (destruct (Z.leb_spec c1 255); [|lia]); [done|]. cbn [negb]. apply IH. by apply uwrap_range.
Qed.

(** Characters of a string that is not at risk. *)
Definition scannable (s : cstring) : Prop := Forall (λ c, (-128) <= c < 128 ∧ c ≠ -1 ∧ c ≠ 0) s.

Lemma u8_char c : (-128) <= c < 128 → c ≠ -1 → 0 <= u8 c < 255.
Proof.
  intros H1 H2. pose proof (uwrap_range 8 c). cut (u8 c ≠ 255); [lia|].
  unfold uwrap. intros E. destruct (decide (0 <= c)); [rewrite Z.mod_small in E; lia|].
  rewrite <- (Z_mod_plus_full c 1 (2 ^ 8)), Z.mod_small in E; lia.
Qed.

Lemma u8_dash c : (-128) <= c < 128 → u8 c = DASH ↔ c = DASH.
Proof.
  intros H. split; [|by intros ->]. unfold uwrap. intros E.
  destruct (decide (0 <= c)); [rewrite Z.mod_small in E; lia|].
  rewrite <- (Z_mod_plus_full c 1 (2 ^ 8)), Z.mod_small in E; lia.
Qed.

(** [if (c1 < cmin) cmin = c1] and the loop over one range. *)
Lemma add_member_spec c1 c2 s : set_wf s → is_uchar c1 → 0 <= c2 < 255 →
  ∃ s', add_range RANGE_FUEL c1 c2
          (if c1 <? cmin s then CharSet (bitwise s) (count s) c1 else s) = Some s'
        ∧ adds s s' (λ c, c1 <= c <= c2).
Proof.
  intros (Hl&Hc&Hm) H1 H2. unfold is_uchar in H1. set (s0 := if _ <? _ then _ else _).
  assert (bitwise s0 = bitwise s ∧ count s0 = count s ∧ is_uchar (cmin s0)) as (Eb&Ec&Em).
  { unfold s0. by destruct (c1 <? cmin s). }
  destruct (add_range_spec RANGE_FUEL c1 c2 s0) as (s'&E&Ha&_); [|lia|lia|unfold RANGE_FUEL; lia|].
  { split_and!; by rewrite ?Eb, ?Ec. }
  exists s'. split; [done|]. revert Ha. unfold adds. by rewrite Eb, Ec.
Qed.

Lemma scan_set_spec body s : set_wf s → scannable body →
  ∃ s', scan_set body s = Some s' ∧ adds s s' (class_char (uwrap 8 <$> body)).
Proof.
  revert s. induction body as [|a b t IH|a t Hno IH] using set_ind; intros s Hs Hb.
  - exists s. split; [done|]. apply adds_nothing; [done|]. intros c _. apply class_char_nil.
  - apply Forall_cons in Hb as [(Ha&Ha'&_) Hb]. apply Forall_cons in Hb as [_ Hb].
    apply Forall_cons in Hb as [(Hb1&Hb1'&_) Hb]. cbn [scan_set].
    pose proof (u8_char a Ha Ha'). pose proof (u8_char b Hb1 Hb1').
    destruct (add_member_spec (u8 a) (u8 b) s) as (s1&E1&A1); [done|unfold is_uchar; lia|lia|].
    change (DASH =? DASH) with true. cbv iota. rewrite E1. cbn [mbind option_bind].
    destruct (IH s1) as (s2&E2&A2); [by destruct A1|done|]. exists s2. split; [done|].
    eapply adds_trans; [done..|]. intros c _. apply class_char_range.
  - apply Forall_cons in Hb as [(Ha&Ha'&_) Hb]. cbn [scan_set].
    pose proof (u8_char a Ha Ha').
    destruct (add_member_spec (u8 a) (u8 a) s) as (s1&E1&A1); [done|unfold is_uchar; lia|lia|].
    rewrite (not_range_match t (λ b u, _)) by done. rewrite E1. cbn [mbind option_bind].
    destruct (IH s1) as (s2&E2&A2); [by destruct A1|done|]. exists s2. split; [done|].
    eapply adds_trans; [done..|]. intros c _. rewrite fmap_cons, class_char_one; [simpl; split; intros []; auto; lia|].
    intros b u E. destruct t as [|x [|y t]]; try done. injection E as Ex Ey Et.
    apply (Hno y t). f_equal. apply Forall_cons in Hb as [(Hx&_) _]. by apply u8_dash.
Qed.

Lemma set_wf_empty : set_wf (CharSet no_bits 0 0xFF).
Proof.
  split_and!; [done| |done]. unfold members. simpl bitwise.
  assert (∀ l : list Z, filter (λ c, bit_of no_bits c = true) l = []) as ->; [|done].
  intros l. induction l; [done|]. by rewrite filter_cons_False by (by rewrite bit_of_no_bits).
Qed.

(** *** One position of a pattern *)

(** Patterns whose sets the two algorithms read alike: ASCII, no caller id
    separator, and something to match. *)
Definition clean (p : cstring) : Prop :=
  Forall (λ c, 0 < c < 128 ∧ c ≠ SLASH) p ∧ ∃ w, denotes p w.

(** What the result of [ext_cmp_pattern_pos] says about the pattern. *)
Inductive position (p : cstring) : Z → option cstring → list Z → Prop :=
| pos_end : (clean p → ∀ w, denotes p w ↔ w = []) → position p 0x30000 None no_bits
| pos_dot p' : (clean p → ∀ w, denotes p w ↔ w ≠ []) → position p 0x18000 (Some p') no_bits
| pos_bang p' : (clean p → ∀ w, denotes p w) → position p 0x28000 (Some p') no_bits
| pos_open p' : ¬ clean p → position p 0x40000 (Some p') no_bits
| pos_class p' score bits :
    0 < score < 0x18000 → length bits = 32%nat →
    (clean p → takes p (λ c, is_uchar c ∧ bit_of bits c = true) p') →
    position p score (Some p') bits.

Lemma position_through p q s o b :
  (clean p → clean q ∧ ∀ w, denotes p w ↔ denotes q w) → position q s o b → position p s o b.
Proof.
  intros Hpq Hq. destruct Hq as [H|p' H|p' H|p' H|p' score bits Hs Hl H]; constructor; try done.
  1-3: intros Hp; destruct (Hpq Hp) as [Hcq E]; intros w; rewrite E; by apply H.
  - intros Hp. destruct (Hpq Hp). by destruct H.
  - intros Hp. destruct (Hpq Hp) as [Hcq E]. intros w. rewrite E. by apply H.
Qed.

Lemma position_dash p s o b : position p s o b → position (DASH :: p) s o b.
Proof.
  apply position_through. intros (Ht&w&Hw). rewrite denotes_dash in Hw.
  apply Forall_cons in Ht as [_ Ht]. split; [split; [done|by exists w]|]. intros; apply denotes_dash.
Qed.

Lemma set_wf_member s : set_wf s → count s ≠ 0 → ∃ c, is_uchar c ∧ bit_of (bitwise s) c = true.
Proof.
  intros (_&Hc&_) Hne. destruct (members (bitwise s)) as [|c l] eqn:E; [simpl in Hc; lia|].
  assert (c ∈ members (bitwise s)) as Hin by (rewrite E; apply list_elem_of_here).
  unfold members in Hin. apply list_elem_of_filter in Hin as [? Hin]. apply elem_of_seqZ in Hin.
  exists c. unfold is_uchar. split; [lia|done].
Qed.

Lemma scannable_app a b : scannable (a ++ b) ↔ scannable a ∧ scannable b.
Proof. unfold scannable. by rewrite Forall_app. Qed.

Lemma class_fmap_ascii (body : cstring) :
  Forall (λ c, 0 < c < 128 ∧ c ≠ SLASH) body → uwrap 8 <$> body = body.
Proof.
  intros H. rewrite <- (list_fmap_id body) at 2. apply list_fmap_ext. intros i c Hc.
  rewrite Forall_lookup in H. apply H in Hc. rewrite uwrap_small by lia. done.
Qed.

Lemma class_char_ascii body c : Forall (λ c, 0 < c < 128 ∧ c ≠ SLASH) body →
  class_char body c → is_uchar c.
Proof.
  unfold is_uchar. intros Hb Hc. induction Hc;
    repeat match goal with H : Forall _ (_ :: _) |- _ => apply Forall_cons in H as [? ?] end;
    try lia; auto.
Qed.

(** A character set: either it has members, or the position is the next one. *)
Lemma position_set p body rest s :
  strchr p RBRACKET = Some (body, rest) →
  adds (CharSet no_bits 0 0xFF) s (class_char (uwrap 8 <$> body)) →
  (count s = 0 → bitwise s = no_bits ∧
     ∀ sc o b, position rest sc o b → position (LBRACKET :: p) sc o b) ∧
  (count s ≠ 0 → position (LBRACKET :: p) (Z.lor (count s) (cmin s)) (Some rest) (bitwise s)).
Proof.
  intros E (Hs&Hbits&Hc&He). simpl in *. pose proof (set_wf_count s Hs) as Hcount.
  pose proof (strchr_Some p RBRACKET body rest) as Hp. rewrite E in Hp.
  destruct Hp as [[-> _] _]; [done|].
  assert (clean (LBRACKET :: body ++ RBRACKET :: rest) →
    (uwrap 8 <$> body = body) ∧ (∀ c, class_char body c → is_uchar c) ∧
    Forall (λ c, 0 < c < 128 ∧ c ≠ SLASH) rest) as Htext.
  { intros [Ht _]. apply Forall_cons in Ht as [_ Ht]. apply Forall_app in Ht as [Ht1 Ht2].
    apply Forall_cons in Ht2 as [_ Ht2].
    split_and!; [by apply class_fmap_ascii|intros c; by apply class_char_ascii|done]. }
  split.
  - intros E0. rewrite (He E0). split; [done|]. intros sc o b. apply position_through.
    intros Hcl. destruct (Htext Hcl) as (Eb&Hu&Ht). destruct Hcl as [_ [w Hw]].
    assert (∀ c, ¬ class_char body c) as Hno.
    { intros c Hcc. assert (bit_of (bitwise s) c = true) as Hbit.
      { apply Hbits; [by apply Hu|]. right. by rewrite Eb. }
      rewrite (He E0), bit_of_no_bits in Hbit. done. }
    assert (∀ w, denotes (LBRACKET :: body ++ RBRACKET :: rest) w ↔ body = [] ∧ denotes rest w) as Hd.
    { intros w'. rewrite denotes_set by done. naive_solver. }
    apply Hd in Hw as [-> Hw]. split; [split; [done|by exists w]|]. intros w'. rewrite Hd. naive_solver.
  - intros Hne. constructor.
    + destruct Hs as (_&Hcc&Hmin). unfold is_uchar in Hmin.
      assert (count s = Z.shiftl (count s / 2 ^ 8) 8) as Ec.
      { rewrite Z.shiftl_mul_pow2 by lia.
        rewrite Hcc.
        replace (0x100 * Z.of_nat (length (members (bitwise s))))
          with (Z.of_nat (length (members (bitwise s))) * 2 ^ 8) by lia.
        by rewrite Z.div_mul. }
      rewrite Ec, lor_shiftl_add by lia. rewrite Z.shiftl_mul_pow2 in Ec by lia. lia.
    + by destruct Hs.
    + intros Hcl w. destruct (Htext Hcl) as (Eb&Hu&Ht). rewrite denotes_set by done.
      destruct (set_wf_member s Hs Hne) as (c0&Hc0&Hb0). apply Hbits in Hb0; [|done].
      rewrite bit_of_no_bits in Hb0. destruct Hb0 as [|Hb0]; [done|].
      assert (body ≠ []) as Hne' by (intros ->; by apply class_char_nil in Hb0).
      split.
      * intros [[? _]|(c&w'&->&?&?)]; [done|]. exists c, w'. split_and!; [done|auto| |done].
        apply Hbits; [auto|]. right. by rewrite Eb.
      * intros (c&w'&->&[Hc1 Hc2]&?). right. exists c, w'. split_and!; [done| |done].
        apply Hbits in Hc2; [|done]. rewrite bit_of_no_bits, Eb in Hc2. by destruct Hc2.
Qed.

Lemma takes_position p x Q p' score bits :
  takes (x :: p) Q p' → 0 < score < 0x18000 → length bits = 32%nat →
  (∀ c, Q c ↔ is_uchar c ∧ bit_of bits c = true) → position (x :: p) score (Some p') bits.
Proof.
  intros Ht Hs Hl HQ. constructor; [done..|]. intros _ w. rewrite (Ht w).
  setoid_rewrite HQ. done.
Qed.

Lemma position_digit x lo m p score :
  digit_class x = Some lo → (lo, m) ∈ [(50, 0x3f); (48, 0xff); (49, 0x7f)] →
  0 < score < 0x18000 →
  position (x :: p) score (Some p) (<[7%nat := 0xc0]> (<[6%nat := m]> no_bits)).
Proof.
  intros Hx Hm Hs. eapply takes_position; [by apply takes_digit|done|done|].
  intros c. split.
  - intros Hc. assert (is_uchar c) as Hu.
    { unfold is_uchar. assert (lo ∈ [50; 48; 49]) by set_solver. set_solver by lia. }
    split; [done|]. rewrite (bit_of_digits lo) by done. by apply in_range_spec.
  - intros [Hu Hb]. rewrite (bit_of_digits lo) in Hb by done. by apply in_range_spec.
Qed.

Lemma u8_pos c : 0 < c < 128 → u8 c = c.
Proof. intros. rewrite uwrap_small; [done|simpl; lia]. Qed.

(** A character above 127 is read as another number by the two algorithms;
    what it is compared as is all that counts here. *)
Lemma position_char c p : (-128) <= c < 128 → c ≠ -1 → ordinary c →
  position (c :: p) (Z.lor 0x0100 (u8 c)) (Some p)
    (<[Z.to_nat (u8 c / BITS_PER) := char_mask (u8 c)]> no_bits).
Proof.
  intros Hc H1 Ho. pose proof (u8_char c Hc H1).
  constructor; [| |].
  - change 0x0100 with (Z.shiftl 1 8). rewrite lor_shiftl_add by lia. lia.
  - by rewrite length_insert.
  - intros [Ht _] w. apply Forall_cons in Ht as [[Ha _] _].
    rewrite denotes_char by done. rewrite (u8_pos c) by done. split.
    + intros (w'&->&?). exists c, w'. assert (is_uchar c) by (unfold is_uchar; lia).
      split_and!; [done|done| |done]. rewrite bit_of_char by done. apply Z.eqb_refl.
    + intros (c'&w'&->&[Hu Hb]&?). rewrite bit_of_char in Hb by (done || unfold is_uchar; lia).
      apply Z.eqb_eq in Hb as ->. eauto.
Qed.

Lemma u8_eqb c k : (-128) <= c < 128 → 0 <= k < 128 → (u8 c =? k) = (c =? k).
Proof.
  intros Hc Hk. unfold uwrap. destruct (decide (0 <= c)); [by rewrite Z.mod_small by (simpl; lia)|].
  rewrite <- (Z_mod_plus_full c 1 (2 ^ 8)), Z.mod_small by (simpl; lia).
  destruct (Z.eqb_spec (c + 1 * 2 ^ 8) k), (Z.eqb_spec c k); simpl in *; lia.
Qed.

Definition pos_result (p : cstring) (m : option (Z * option cstring * list Z)) : Prop :=
  ∃ score o bits, m = Some (score, o, bits) ∧ position p score o bits
    ∧ ∀ p', o = Some p' → ∃ a, p = a ++ p' ∧ a ≠ [].

(** The position of a pattern whose first character is not fluff. *)
Lemma pos_result_intro p score o bits m :
  m = Some (score, o, bits) → position p score o bits →
  (∀ p', o = Some p' → ∃ a, p = a ++ p' ∧ a ≠ []) → pos_result p m.
Proof. intros. by exists score, o, bits. Qed.

Lemma pos_result_suffix a p q m :
  (∀ s o b, position q s o b → position p s o b) → p = a ++ q → pos_result q m → pos_result p m.
Proof.
  intros H -> (s&o&b&->&Hp&Ho). exists s, o, b. split_and!; [done|auto|].
  intros p' E. destruct (Ho p' E) as (a'&->&Hne). exists (a ++ a'). split; [apply assoc; apply _|].
  by destruct a.
Qed.

Lemma suffix_one (c : Z) (p p' : cstring) : Some p = Some p' → ∃ a, c :: p = a ++ p' ∧ a ≠ [].
Proof. intros [= ->]. by exists [c]. Qed.

Lemma scannable_skip_dashes p : scannable p → scannable (skip_dashes p).
Proof.
  induction p as [|c p IH]; simpl; [done|]. intros H. destruct (c =? DASH); [|done].
  apply Forall_cons in H as [_ H]. auto.
Qed.

Lemma pattern_pos_loop_spec fuel p :
  (length p < fuel)%nat → scannable p → pos_result p (pattern_pos_loop fuel p no_bits).
Proof.
  revert p. induction fuel as [|fuel IH]; intros p Hlen Hp; [lia|].
  cbn [pattern_pos_loop].
  assert (∃ a, p = a ++ skip_dashes p) as [a Ha].
  { clear. induction p as [|c p [a IH]]; simpl; [by exists []|].
    destruct (c =? DASH); [exists (c :: a); simpl; congruence|by exists []]. }
  apply (pos_result_suffix a p (skip_dashes p)); [|done|].
  { clear. induction p as [|c p IH]; simpl; [done|].
    destruct (Z.eqb_spec c DASH) as [->|]; [|done]. intros. by apply position_dash, IH. }
  pose proof (skip_dashes_spec p) as Hsk. apply scannable_skip_dashes in Hp.
  destruct (skip_dashes p) as [|c q]; [|clear Ha].
  { apply (pos_result_intro _ 0x30000 None no_bits); [done| |done].
    constructor. intros _ w. apply denotes_nil. }
  destruct Hsk as (Hdash&_&Hlq&_). assert (length q < fuel)%nat as Hl by lia. clear Hlen Hlq p.
  apply Forall_cons in Hp as [(Hc&Hc1&Hc0) Hq]. cbv zeta.
  rewrite !(u8_eqb c) by lia.
  destruct ((c =? 110) || (c =? 78)) eqn:E1;
    [|destruct ((c =? 120) || (c =? 88)) eqn:E2;
      [|destruct ((c =? 122) || (c =? 90)) eqn:E3]].
  1-3: eapply pos_result_intro; [done| |apply suffix_one];
    eapply position_digit; [unfold digit_class; by rewrite ?E1, ?E2, ?E3|set_solver|done].
  destruct (Z.eqb_spec c DOT) as [->|Hdot].
  { eapply pos_result_intro; [done| |apply suffix_one]. constructor. intros; apply denotes_dot. }
  destruct (Z.eqb_spec c BANG) as [->|Hbang].
  { eapply pos_result_intro; [done| |apply suffix_one]. constructor. intros; apply denotes_bang. }
  destruct (Z.eqb_spec c LBRACKET) as [->|Hl'].
  - destruct (strchr q RBRACKET) as [[body rest]|] eqn:E.
    + pose proof (strchr_Some q RBRACKET body rest) as Hs. rewrite E in Hs.
      destruct Hs as [[-> _] _]; [done|]. apply scannable_app in Hq as [Hb Hr].
      apply Forall_cons in Hr as [_ Hr].
      destruct (scan_set_spec body _ set_wf_empty Hb) as (s&->&Ha).
      destruct (position_set _ _ _ _ E Ha) as [H0 H1]. cbn [mbind option_bind].
      assert (LBRACKET :: body ++ RBRACKET :: rest = (LBRACKET :: body ++ [RBRACKET]) ++ rest) as Eq.
      { simpl. by rewrite <- (assoc_L (++)). }
      destruct (Z.eqb_spec (count s) 0) as [Ec|Ec].
      * destruct (H0 Ec) as [-> Hpos]. eapply pos_result_suffix; [exact Hpos|exact Eq|].
        apply IH; [|done]. rewrite length_app in Hl. simpl in Hl. lia.
      * eapply pos_result_intro; [done|by apply H1|]. intros p' [= <-]. eauto.
    + eapply pos_result_intro; [done| |apply suffix_one]. constructor.
      intros (_&w&Hw). by apply denotes_open in Hw.
  - destruct (decide (c = SLASH)) as [->|Hs].
    + eapply pos_result_intro; [done| |apply suffix_one]. constructor; [done|by rewrite length_insert|].
      intros [Ht _]. apply Forall_cons in Ht as [[_ Ht] _]. done.
    + eapply pos_result_intro; [done| |apply suffix_one]. apply position_char; [done..|].
      unfold ordinary, digit_class. by rewrite E1, E2, E3.
Qed.

Lemma ext_cmp_pattern_pos_spec p : scannable p → pos_result p (ext_cmp_pattern_pos p no_bits).
Proof. intros. apply pattern_pos_loop_spec; [lia|done]. Qed.

End Bits.

(** ** The comparison is a lexicographic order *)
Module Order.

Import Matching Bits.

(** The first difference of two lists; a list that ends is the smaller. *)
Fixpoint lexc (a b : list Z) : Z :=
  match a, b with
  | [], [] => 0
  | [], _ => -1
  | _, [] => 1
  | x :: a, y :: b => if x =? y then lexc a b else x - y
  end.

Lemma lexc_refl a : lexc a a = 0.
Proof. induction a; simpl; [done|]. by rewrite Z.eqb_refl. Qed.

Lemma lexc_sgn_flip a b : Z.sgn (lexc b a) = - Z.sgn (lexc a b).
Proof.
  revert b. induction a as [|x a IH]; intros [|y b]; simpl; try done.
  rewrite (Z.eqb_sym y x). destruct (Z.eqb_spec x y); [apply IH|].
  rewrite <- Z.sgn_opp. f_equal. lia.
Qed.

Lemma lexc_trans a b c : lexc a b <= 0 → lexc b c <= 0 → lexc a c <= 0.
Proof.
  revert b c. induction a as [|x a IH]; intros [|y b] [|z c]; simpl; try lia.
  intros H1 H2. destruct (Z.eqb_spec x y), (Z.eqb_spec y z), (Z.eqb_spec x z); try lia; subst; eauto.
Qed.

Lemma lexc_app a b k l : length a = length b →
  lexc (a ++ k) (b ++ l) = if lexc a b =? 0 then lexc k l else lexc a b.
Proof.
  revert b. induction a as [|x a IH]; intros [|y b] E; simplify_eq/=; [done|].
  destruct (Z.eqb_spec x y); [by apply IH|]. destruct (Z.eqb_spec (x - y) 0); [lia|done].
Qed.

(** Larger sets of low characters come first: the bytes are compared swapped. *)
Lemma memcmp_lexc a b : length a = length b → memcmp b a = lexc (Z.opp <$> a) (Z.opp <$> b).
Proof.
  revert b. induction a as [|x a IH]; intros [|y b] E; simplify_eq/=; [done|].
  destruct (Z.eqb_spec y x), (Z.eqb_spec (- x) (- y)); try lia. by apply IH.
Qed.

(** The sort key of a pattern: score and set of each position. *)
Inductive pattern_key : cstring → list Z → Prop :=
| key_last p score bits :
    ext_cmp_pattern_pos p no_bits = Some (score, None, bits) →
    pattern_key p (score :: (Z.opp <$> bits))
| key_next p p' k score bits :
    ext_cmp_pattern_pos p no_bits = Some (score, Some p', bits) → pattern_key p' k →
    pattern_key p ((score :: (Z.opp <$> bits)) ++ k).

Inductive sort_key : cstring → list Z → Prop :=
| key_plain s : deref s ≠ UNDERSCORE → sort_key s (0 :: undash s ++ [0])
| key_pattern p k : pattern_key p k → sort_key (UNDERSCORE :: p) (1 :: k).

Lemma pos_next_scannable p p' a : scannable p → p = a ++ p' → a ≠ [] →
  scannable p' ∧ (length p' < length p)%nat.
Proof.
  intros Hp -> Ha. apply scannable_app in Hp as [_ ?]. split; [done|].
  rewrite length_app. destruct a; [done|]. simpl. lia.
Qed.

Lemma pattern_key_exists p : scannable p → ∃ k, pattern_key p k.
Proof.
  remember (length p) as n eqn:En. revert p En. induction n as [n IH] using lt_wf_ind.
  intros p -> Hp. destruct (ext_cmp_pattern_pos_spec p Hp) as (score&o&bits&E&_&Ho).
  destruct o as [p'|]; [|eauto using pattern_key].
  destruct (Ho p') as (a&Ea&Hne); [done|].
  destruct (pos_next_scannable p p' a) as [Hp' Hl]; [done..|].
  destruct (IH (length p') Hl p' eq_refl Hp') as [k Hk]. eauto using pattern_key.
Qed.

Lemma sort_key_exists s : scannable s → ∃ k, sort_key s k.
Proof.
  intros Hs. destruct (decide (deref s = UNDERSCORE)) as [E|E]; [|eauto using sort_key].
  destruct s as [|c s]; [done|]. unfold deref in E. simpl in E. subst c.
  apply Forall_cons in Hs as [_ Hs]. destruct (pattern_key_exists s Hs). eauto using sort_key.
Qed.

Lemma position_length p score o bits : position p score o bits → length bits = 32%nat.
Proof. by destruct 1. Qed.

Lemma position_end p score o bits : position p score o bits → o = None ↔ score = 0x30000.
Proof. destruct 1; split; done || lia. Qed.

Lemma pattern_key_inv p k score o bits :
  pattern_key p k → ext_cmp_pattern_pos p no_bits = Some (score, o, bits) →
  match o with
  | None => k = score :: (Z.opp <$> bits)
  | Some p' => ∃ k', pattern_key p' k' ∧ k = (score :: (Z.opp <$> bits)) ++ k'
  end.
Proof. destruct 1; intros E; simplify_eq; eauto. Qed.

(** The comparison of two patterns is that of their keys. *)
Lemma cmp_pattern_loop_lexc fuel l r kl kr :
  (length l < fuel)%nat → scannable l → scannable r → pattern_key l kl → pattern_key r kr →
  cmp_pattern_loop fuel l r = Some (lexc kl kr).
Proof.
  revert l r kl kr. induction fuel as [|fuel IH]; intros l r kl kr Hlen Hl Hr Hkl Hkr; [lia|].
  cbn [cmp_pattern_loop].
  destruct (ext_cmp_pattern_pos_spec l Hl) as (sl&ol&bl&El&Hpl&Hol).
  destruct (ext_cmp_pattern_pos_spec r Hr) as (sr&or&br&Er&Hpr&Hor).
  rewrite El, Er. cbn [mbind option_bind].
  assert (length bl = length br) as Hlb.
  { by rewrite (position_length _ _ _ _ Hpl), (position_length _ _ _ _ Hpr). }
  rewrite (memcmp_lexc bl br) by done.
  assert (lexc (sl :: (Z.opp <$> bl)) (sr :: (Z.opp <$> br)) =
    if sl - sr =? 0 then lexc (Z.opp <$> bl) (Z.opp <$> br) else sl - sr) as Hhead.
  { simpl. destruct (Z.eqb_spec sl sr), (Z.eqb_spec (sl - sr) 0); done || lia. }
  assert (length (sl :: (Z.opp <$> bl)) = length (sr :: (Z.opp <$> br))) as Hlen2.
  { simpl. by rewrite !length_fmap, Hlb. }
  rewrite <- Hhead. set (cmp := lexc (sl :: _) (sr :: _)) in *.
  assert (cmp = 0 → sl = sr) as Hs.
  { intros E. rewrite E in Hhead. destruct (Z.eqb_spec (sl - sr) 0); lia. }
  pose proof (position_end _ _ _ _ Hpl) as Hendl. pose proof (position_end _ _ _ _ Hpr) as Hendr.
  apply (pattern_key_inv _ _ _ _ _ Hkl) in El. apply (pattern_key_inv _ _ _ _ _ Hkr) in Er.
  destruct ol as [l'|], or as [r'|].
  - destruct El as (kl'&?&->), Er as (kr'&?&->). rewrite lexc_app by done. fold cmp.
    destruct (Z.eqb_spec cmp 0) as [E|]; [|done]. simpl.
    destruct (Hol l') as (al&Eal&Hal); [done|]. destruct (Hor r') as (ar&Ear&Har); [done|].
    destruct (pos_next_scannable l l' al) as [? ?]; [done..|].
    destruct (pos_next_scannable r r' ar) as [? ?]; [done..|].
    apply IH; done || lia.
  - destruct El as (kl'&?&->). rewrite Er, <- (app_nil_r (_ :: (Z.opp <$> br))), lexc_app by done.
    fold cmp. destruct (Z.eqb_spec cmp 0) as [E|]; [|done].
    destruct Hendr as [Hendr _], Hendl as [_ Hendl]. specialize (Hs E). naive_solver congruence.
  - destruct Er as (kr'&?&->). rewrite El, <- (app_nil_r (_ :: (Z.opp <$> bl))), lexc_app by done.
    fold cmp. destruct (Z.eqb_spec cmp 0) as [E|]; [|done].
    destruct Hendr as [_ Hendr], Hendl as [Hendl _]. specialize (Hs E). naive_solver congruence.
  - rewrite El, Er. fold cmp. by destruct (Z.eqb_spec cmp 0) as [->|].
Qed.

Lemma ext_cmp_exten_lexc l r : c_string l → c_string r →
  ext_cmp_exten l r = lexc (undash l ++ [0]) (undash r ++ [0]).
Proof.
  revert l. induction r as [|r rs IH]; intros l Hl Hr; simpl.
  - pose proof (skip_dashes_spec l) as Hsk. destruct (skip_dashes l) as [|c l'];
      unfold deref; simpl; [by rewrite Hsk|].
    destruct Hsk as (?&->&_&Hsk). destruct (Hsk Hl) as (?&_). simpl.
    destruct (Z.eqb_spec c 0); [done|lia].
  - apply c_string_cons in Hr as [[Hr0 Hr1] Hr]. rewrite undash_cons.
    destruct (Z.eqb_spec r DASH); case_decide; try done; [by apply IH|].
    pose proof (skip_dashes_spec l) as Hsk. destruct (skip_dashes l) as [|c l']; unfold deref; simpl.
    + rewrite Hsk. destruct (Z.eqb_spec (0 - r) 0); [lia|]. by destruct r.
    + destruct Hsk as (?&->&_&Hsk). destruct (Hsk Hl) as (?&?&Hl'). simpl.
      destruct (Z.eqb_spec (c - r) 0), (Z.eqb_spec c r); simpl; try lia. by apply IH.
Qed.

Lemma scannable_c_string s : scannable s → c_string s.
Proof. intros Hs. eapply Forall_impl; [exact Hs|]. simpl. tauto. Qed.

Lemma sort_key_first s k : sort_key s k →
  (deref s = UNDERSCORE ∧ ∃ k', k = 1 :: k' ∧ pattern_key (tail s) k')
  ∨ (deref s ≠ UNDERSCORE ∧ k = 0 :: undash s ++ [0]).
Proof. destruct 1; [by right|left; eauto]. Qed.

Lemma ext_cmp_lexc l r kl kr :
  scannable l → scannable r → sort_key l kl → sort_key r kr → ext_cmp l r = Some (lexc kl kr).
Proof.
  intros Hl Hr Hkl Hkr. unfold ext_cmp.
  destruct (sort_key_first l kl Hkl) as [(Eul&k1&->&Hk1)|(Eul&->)];
    destruct (sort_key_first r kr Hkr) as [(Eur&k2&->&Hk2)|(Eur&->)];
    destruct (Z.eqb_spec (deref l) UNDERSCORE), (Z.eqb_spec (deref r) UNDERSCORE); try done; simpl.
  - destruct l as [|? l]; [done|]. destruct r as [|? r]; [done|].
    apply Forall_cons in Hl as [_ Hl], Hr as [_ Hr]. simpl in *.
    apply cmp_pattern_loop_lexc; done || lia.
  - f_equal. apply ext_cmp_exten_lexc; by apply scannable_c_string.
Qed.

Lemma ast_extension_cmp_lexc l r kl kr :
  scannable l → scannable r → sort_key l kl → sort_key r kr →
  ast_extension_cmp l r = Some (Z.sgn (lexc kl kr)).
Proof.
  intros Hl Hr Hkl Hkr. unfold ast_extension_cmp. rewrite (ext_cmp_lexc l r kl kr) by done.
  cbn [mbind option_bind]. f_equal. rewrite Z.gtb_ltb.
  destruct (Z.ltb_spec (lexc kl kr) 0), (Z.ltb_spec 0 (lexc kl kr)); lia.
Qed.

(** *** Every match returns *)
Lemma match_loop_total fuel p d mode : (length p < fuel)%nat → is_Some (match_loop fuel p d mode).
Proof.
  revert p d. induction fuel as [|fuel IH]; intros p d Hl; [lia|]. cbn [match_loop].
  pose proof (skip_dashes_spec p) as Hsp.
  destruct (skip_dashes d) as [|c d']; [done|]. destruct (skip_dashes p) as [|x p']; [done|].
  destruct Hsp as (_&_&Hlp&_). assert (∀ d, is_Some (match_loop fuel p' d mode)) as Hrec by (intros; apply IH; lia).
  assert (∀ b : bool, is_Some (if b then match_loop fuel p' d' mode else Some 0)) as Hif by (intros []; auto).
  destruct (x =? SLASH); [done|]. destruct (x =? LBRACKET); [|by repeat case_match].
  destruct (strchr p' RBRACKET) as [[body rest]|] eqn:E; [|done].
  apply strchr_Some in E as [-> _]. rewrite length_app in Hlp. simpl in Hlp.
  destruct body as [|b body]; [apply IH; lia|]. destruct (set_matches _ _); [apply IH; lia|done].
Qed.

Lemma extension_match_core_total p d mode :
  scannable p → scannable d → is_Some (_extension_match_core p d mode).
Proof.
  intros Hp Hd. unfold _extension_match_core. destruct (Z.eqb_spec (deref p) UNDERSCORE) as [E|]; cbn [negb].
  2: { by repeat case_match. }
  destruct p as [|x p]; [done|]. cbn [tail length]. apply Forall_cons in Hp as [_ Hp].
  assert (scannable (tail d)) as Hd'. { destruct d; [done|]. by apply Forall_cons in Hd as [_ ?]. }
  destruct (pattern_key_exists p Hp) as [kp Hkp], (pattern_key_exists _ Hd') as [kd Hkd].
  unfold ext_cmp_pattern. rewrite (cmp_pattern_loop_lexc _ _ _ kp kd) by (done || lia). cbn [mbind option_bind].
  destruct (_ && _); cbn [mbind option_bind]; [destruct (_ =? _); [done|]|]; apply match_loop_total; lia.
Qed.

End Order.

(** ** Extensions that compare equal stand for the same strings *)
Module Agreement.

Import Matching Bits Order.

Lemma clean_scannable p : clean p → scannable p.
Proof. intros [Hp _]. eapply Forall_impl; [exact Hp|]. simpl. lia. Qed.

Lemma clean_suffix a p Q p' : p = a ++ p' → clean p → takes p Q p' → clean p'.
Proof.
  intros -> [Hp [w Hw]] Ht. apply Forall_app in Hp as [_ Hp]. split; [done|].
  apply Ht in Hw as (c&w'&_&_&?). by exists w'.
Qed.

Lemma takes_iff p q Q p' q' :
  takes p Q p' → takes q Q q' → (∀ w, denotes p' w ↔ denotes q' w) → ∀ w, denotes p w ↔ denotes q w.
Proof. intros Hp Hq E w. rewrite (Hp w), (Hq w). by setoid_rewrite E. Qed.

Lemma lexc_zero a b : length a = length b → lexc a b = 0 → a = b.
Proof.
  revert b. induction a as [|x a IH]; intros [|y b] E; simplify_eq/=; [done|].
  destruct (Z.eqb_spec x y) as [->|]; [|lia]. intros. f_equal. by apply IH.
Qed.

Lemma memcmp_zero a b : length a = length b → memcmp b a = 0 → a = b.
Proof.
  intros Hl E. rewrite memcmp_lexc in E by done. apply lexc_zero in E; [|by rewrite !length_fmap].
  assert (Inj (=) (=) Z.opp) by (intros ? ?; lia). by apply list_fmap_eq_inj in E.
Qed.

Lemma cmp_pattern_zero fuel l r :
  clean l → clean r → cmp_pattern_loop fuel l r = Some 0 → ∀ w, denotes l w ↔ denotes r w.
Proof.
  revert l r. induction fuel as [|fuel IH]; intros l r Hl Hr; [done|]. cbn [cmp_pattern_loop].
  destruct (ext_cmp_pattern_pos_spec l (clean_scannable l Hl)) as (sl&ol&bl&->&Hpl&Hol).
  destruct (ext_cmp_pattern_pos_spec r (clean_scannable r Hr)) as (sr&or&br&->&Hpr&Hor).
  cbn [mbind option_bind].
  destruct (Z.eqb_spec (sl - sr) 0) as [Es|Es];
    [|destruct (Z.eqb_spec (sl - sr) 0); [lia|]; simpl; congruence].
  destruct (Z.eqb_spec (memcmp br bl) 0) as [Eb|Eb]; [|simpl; congruence].
  apply memcmp_zero in Eb as <-;
    [|by rewrite (position_length _ _ _ _ Hpl), (position_length _ _ _ _ Hpr)].
  intros Hrec.
  destruct Hpl as [Hl1|l' Hl1|l' Hl1|l' Hl1|l' scl bits Hscl _ Hl1];
    destruct Hpr as [Hr1|r' Hr1|r' Hr1|r' Hr1|r' scr bits' Hscr _ Hr1]; try lia; try done;
    intros w.
  - by rewrite Hl1, Hr1.
  - by rewrite Hl1, Hr1.
  - by split; intros _; [apply Hr1|apply Hl1].
  - destruct (Hol l') as (al&Eal&_); [done|]. destruct (Hor r') as (ar&Ear&_); [done|].
    specialize (Hl1 Hl). specialize (Hr1 Hr).
    eapply takes_iff; [done..|]. apply IH; [by eapply clean_suffix..|exact Hrec].
Qed.

(** Extensions in the alphabet of dialled digits that can be dialled. *)
Definition sane (e : cstring) : Prop :=
  Forall (λ c, 0 < c < 128 ∧ c ≠ SLASH) e ∧ no_empty_set e ∧ dialable e.

Lemma sane_scannable e : sane e → scannable e.
Proof. intros [He _]. eapply Forall_impl; [exact He|]. simpl. lia. Qed.

Lemma sane_clean e : sane e → deref e = UNDERSCORE → clean (tail e).
Proof.
  intros (He&_&w&_&Hw) Hu. unfold stands_for in Hw. rewrite decide_True in Hw by done.
  split; [|by exists w]. destruct e; [done|]. by apply Forall_cons in He as [_ He].
Qed.

Lemma ext_cmp_zero_stands_for a b w :
  sane a → sane b → ext_cmp a b = Some 0 → stands_for a w ↔ stands_for b w.
Proof.
  intros Ha Hb. unfold ext_cmp, stands_for.
  destruct (Z.eqb_spec (deref a) UNDERSCORE), (Z.eqb_spec (deref b) UNDERSCORE);
    simpl; try done; intros E; repeat (destruct (decide _); try done).
  - eapply cmp_pattern_zero; [by apply sane_clean..|exact E].
  - injection E as E. apply ext_cmp_exten_zero in E;
      [by rewrite E|by apply scannable_c_string, sane_scannable..].
Qed.

End Agreement.

(** ** The stored form of an extension *)
Module Storing.

Import Matching.

(** The copy with room for everything. *)
Fixpoint strip (is_pattern insquares nofluff : bool) (src : cstring) : cstring :=
  match src with
  | [] => []
  | c :: src =>
      if c =? LBRACKET then c :: strip is_pattern (if is_pattern then true else insquares) nofluff src
      else if c =? RBRACKET then c :: strip is_pattern false nofluff src
      else if (c =? SPACE) && negb insquares then strip is_pattern insquares nofluff src
      else if (c =? DASH) && negb insquares && nofluff then strip is_pattern insquares nofluff src
      else c :: strip is_pattern insquares nofluff src
  end.

Lemma ext_strncpy_loop_take src room ip isq nf : 0 <= room →
  ext_strncpy_loop src room ip isq nf = take (Z.to_nat room) (strip ip isq nf src).
Proof.
  revert room isq. induction src as [|c src IH]; intros room isq Hr; simpl; [by rewrite take_nil|].
  destruct (Z.ltb_spec 0 room); simpl; [|by replace room with 0 by lia].
  assert (∀ isq, c :: ext_strncpy_loop src (room - 1) ip isq nf =
    take (Z.to_nat room) (c :: strip ip isq nf src)) as Hcopy.
  { intros isq'. rewrite IH by lia. replace (Z.to_nat room) with (S (Z.to_nat (room - 1))) by lia. done. }
  destruct (c =? LBRACKET); [apply Hcopy|]. destruct (c =? RBRACKET); [apply Hcopy|].
  destruct ((c =? SPACE) && negb isq); [by apply IH|].
  destruct ((c =? DASH) && negb isq && nf); [by apply IH|apply Hcopy].
Qed.

(** A dash outside the sets that the count finds is one the copy drops. *)
Lemma strip_plain_length src :
  Z.of_nat (length (strip false false true src)) <= Z.of_nat (length src) - plain_fluff_count src.
Proof.
  induction src as [|c src IH]; simpl; [lia|].
  destruct (Z.eqb_spec c LBRACKET), (Z.eqb_spec c RBRACKET), (Z.eqb_spec c SPACE), (Z.eqb_spec c DASH);
    subst; simpl; lia.
Qed.

Lemma strip_pattern_length inset src :
  Z.of_nat (length (strip true inset true src)) <=
  Z.of_nat (length src) - pattern_fluff_count inset src.
Proof.
  revert inset. induction src as [|c src IH]; intros inset; simpl; [lia|].
  pose proof (IH true). pose proof (IH false).
  destruct inset, (Z.eqb_spec c LBRACKET), (Z.eqb_spec c RBRACKET), (Z.eqb_spec c SPACE), (Z.eqb_spec c DASH);
    subst; simpl; lia.
Qed.

Lemma fluff_count_nonneg e : 0 <= ext_fluff_count e.
Proof.
  unfold ext_fluff_count. destruct (negb _).
  - induction e as [|c e IH]; simpl; [lia|]. destruct (c =? DASH); lia.
  - generalize false. induction e as [|c e IH]; intros b; simpl; [lia|].
    pose proof (IH (negb (c =? RBRACKET))). pose proof (IH false). pose proof (IH (c =? LBRACKET)).
    destruct b, (c =? DASH); lia.
Qed.

Lemma strip_length e :
  Z.of_nat (length (strip (deref e =? UNDERSCORE) false true e)) <= Z.of_nat (length e) - ext_fluff_count e.
Proof.
  unfold ext_fluff_count. destruct (deref e =? UNDERSCORE); simpl;
    [apply strip_pattern_length|apply strip_plain_length].
Qed.

(** The size computed from the fluff count holds the whole stored form. *)
Lemma ext_strncpy_exact e :
  ext_strncpy e (Z.of_nat (length e) + 1 - ext_fluff_count e) true =
  strip (deref e =? UNDERSCORE) false true e ++ [0].
Proof.
  pose proof (strip_length e). unfold ext_strncpy.
  destruct (Z.eqb_spec (Z.of_nat (length e) + 1 - ext_fluff_count e) 0); [lia|].
  rewrite ext_strncpy_loop_take by lia. rewrite take_ge by lia. done.
Qed.

Lemma strip_plain src : SPACE ∉ src → strip false false true src = undash src.
Proof.
  induction src as [|c src IH]; intros Hs; [done|]. apply not_elem_of_cons in Hs as [Hc Hs].
  specialize (IH Hs). rewrite undash_cons. simpl. destruct (Z.eqb_spec c SPACE); [done|].
  destruct (Z.eqb_spec c LBRACKET), (Z.eqb_spec c RBRACKET), (Z.eqb_spec c DASH), (decide (c = DASH));
    subst; simpl; done || (by rewrite IH).
Qed.

Lemma strip_set p body rest : strchr p RBRACKET = Some (body, rest) →
  strip true true true p = body ++ RBRACKET :: strip true false true rest.
Proof.
  revert body. induction p as [|c p IH]; intros body; simpl; [done|].
  destruct (Z.eqb_spec c RBRACKET) as [->|Hc]; [by intros [= <- <-]|].
  destruct (strchr p RBRACKET) as [[a b]|]; [|done]. intros [= <- <-].
  rewrite (IH a) by done. destruct (c =? LBRACKET), (c =? SPACE), (c =? DASH); done.
Qed.

Lemma strip_open p : RBRACKET ∉ p → strip true true true p = p.
Proof.
  induction p as [|c p IH]; intros Hp; [done|]. apply not_elem_of_cons in Hp as [Hc Hp]. simpl.
  destruct (Z.eqb_spec c RBRACKET); [done|]. rewrite IH by done.
  destruct (c =? LBRACKET), (c =? SPACE), (c =? DASH); done.
Qed.

(** Dropping the fluff keeps the language. *)
Lemma strip_denotes p w : SPACE ∉ p → denotes (strip true false true p) w ↔ denotes p w.
Proof.
  remember (length p) as n eqn:En. revert p w En.
  induction n as [n IH] using lt_wf_ind. intros [|c p] w -> Hs; [done|].
  apply not_elem_of_cons in Hs as [Hc Hs]. simpl.
  assert (∀ w, denotes (strip true false true p) w ↔ denotes p w) as IHp.
  { intros w'. eapply IH; [|done|done]. simpl; lia. }
  destruct (Z.eqb_spec c LBRACKET) as [->|Hl].
  { destruct (strchr p RBRACKET) as [[body rest]|] eqn:E.
    - rewrite (strip_set p body rest) by done. rewrite (denotes_set p body rest) by done.
      apply strchr_Some in E as [-> Hb].
      rewrite (denotes_set _ body (strip true false true rest)) by (by apply strchr_Some).
      assert (∀ w, denotes (strip true false true rest) w ↔ denotes rest w) as IHr.
      { intros w'. eapply IH; [|done|set_solver]. simpl. rewrite length_app. simpl. lia. }
      by setoid_rewrite IHr.
    - apply strchr_None in E. by rewrite strip_open. }
  destruct (Z.eqb_spec c SPACE); [done|]. simpl.
  destruct (Z.eqb_spec c DASH) as [->|Hd]; simpl; [by rewrite IHp, denotes_dash|].
  assert (denotes (c :: strip true false true p) w ↔ denotes (c :: p) w) as Hcons;
    [|by destruct (c =? RBRACKET)].
  destruct (decide (c = SLASH)) as [->|]; [by rewrite !denotes_slash|].
  destruct (decide (c = DOT)) as [->|]; [by rewrite !denotes_dot|].
  destruct (decide (c = BANG)) as [->|]; [by split; constructor|].
  destruct (digit_class c) as [lo|] eqn:Ed.
  - rewrite !(denotes_digit c lo) by done. by setoid_rewrite IHp.
  - assert (ordinary c) by (unfold ordinary; split_and!; done).
    rewrite !denotes_char by done. by setoid_rewrite IHp.
Qed.

End Storing.

(** ** Behaviours at the edges *)
Module Examples.

(** A trailing empty set, which the loop means to ignore, makes the pattern
    unmatchable: the loop has already ended when it gets there. *)
Example trailing_empty_set :
  _extension_match_core (cstr "_12[]") (cstr "12") E_MATCH = Some 0
  ∧ _extension_match_core (cstr "_1[]2") (cstr "12") E_MATCH = Some 1
  ∧ ast_extension_cmp (cstr "_12[]") (cstr "_12") = Some 0.
Proof. vm_compute. done. Qed.

(** A set whose only range runs backwards is ignored by the comparison and
    matches nothing in the matcher. *)
Example backward_range :
  ast_extension_cmp (cstr "_[9-0]5") (cstr "_5") = Some 0
  ∧ _extension_match_core (cstr "_[9-0]5") (cstr "5") E_MATCH = Some 0
  ∧ _extension_match_core (cstr "_5") (cstr "5") E_MATCH = Some 1.
Proof. vm_compute. done. Qed.

(** The character 255 in a set: the loop over [unsigned char] has no end. *)
Lemma set_of_255_diverges fuel s : add_range fuel (u8 (-1)) (u8 (-1)) s = None.
Proof. by apply Bits.add_range_diverges. Qed.

(** Leading dashes before an underscore: a plain name is stored as a pattern. *)
Example dash_underscore :
  ext_strncpy (cstr "-_1X") (4 + 1 - ext_fluff_count (cstr "-_1X")) true = cstr "_1X" ++ [0]
  ∧ _extension_match_core (cstr "-_1X") (cstr "15") E_MATCH = Some 0
  ∧ _extension_match_core (cstr "_1X") (cstr "15") E_MATCH = Some 1.
Proof. vm_compute. done. Qed.

End Examples.

Module Properties.

Import Matching Bits Order Agreement Storing.

(** C1: [ast_extension_match] returns (whatever the strings) and is non-zero
    exactly when the dialled string, less its dashes, is one that the extension
    stands for: a pattern stands for the strings its sets, digit classes and
    wildcards describe, any other extension for itself.  (A dialled string that
    begins with an underscore is compared as a pattern first and is excluded;
    so are patterns with an empty set.) *)
Theorem ast_extension_match_language p d :
  c_string p → c_string d → no_empty_set p → deref d ≠ UNDERSCORE →
  ∃ r, ast_extension_match (Some p) (Some d) = Some r ∧ (r ≠ 0 ↔ stands_for p (undash d)).
Proof.
  intros Hp Hd Hn Hu.
  destruct (extension_match_core_spec E_MATCH p d) as (r&E&Hr); [by right; right|done..|].
  exists r. split; [done|]. rewrite Hr. split.
  - intros (s&(_&Hs&_)&H). by rewrite Hs, app_nil_r in H.
  - intros H. exists []. rewrite app_nil_r. split; [|done].
    split_and!; [apply not_elem_of_nil|done..].
Qed.

Lemma ast_extension_match_language_witness :
  ∃ r, ast_extension_match (Some (cstr "_NXX-[2-4]!")) (Some (cstr "555-3")) = Some r
       ∧ (r ≠ 0 ↔ stands_for (cstr "_NXX-[2-4]!") (undash (cstr "555-3"))).
Proof.
  apply (ast_extension_match_language (cstr "_NXX-[2-4]!") (cstr "555-3")).
  - by repeat constructor.
  - by repeat constructor.
  - intros (a&b&E). vm_compute in E.
    repeat (destruct a as [|? a]; [by simplify_eq/=|simplify_eq/=]; try done).
  - vm_compute. done.
Defined.

(** While digits are collected, [ast_extension_close] with [E_CANMATCH] is
    non-zero exactly when the digits so far are a prefix of a string the
    extension stands for, and with [E_MATCHMORE] exactly when they are a proper
    prefix of one, for an extension that stands for some string that can be
    dialled at all. *)
Theorem ast_extension_close_prefixes p d needmore :
  needmore = E_CANMATCH ∨ needmore = E_MATCHMORE →
  c_string p → c_string d → no_empty_set p → dialable p →
  ∃ r, ast_extension_close (Some p) (Some d) needmore = Some r
       ∧ (r ≠ 0 ↔ ∃ s, (DASH ∉ s) ∧ (needmore = E_MATCHMORE → s ≠ []) ∧ stands_for p (undash d ++ s)).
Proof.
  intros Hm Hp Hd Hn Hi.
  destruct (extension_match_core_spec needmore p d) as (r&E&Hr);
    [destruct Hm as [->| ->]; [by right; left|by left]|done..|by destruct Hm as [->| ->]|done|].
  exists r. split; [done|]. rewrite Hr. unfold remainder.
  assert (needmore ≠ E_MATCH) by (by destruct Hm as [->| ->]). naive_solver.
Qed.

Lemma ast_extension_close_prefixes_witness :
  ∃ r, ast_extension_close (Some (cstr "_9X[*#]")) (Some (cstr "9")) E_MATCHMORE = Some r
       ∧ (r ≠ 0 ↔ ∃ s, (DASH ∉ s) ∧ (E_MATCHMORE = E_MATCHMORE → s ≠ [])
                       ∧ stands_for (cstr "_9X[*#]") (undash (cstr "9") ++ s)).
Proof.
  apply (ast_extension_close_prefixes (cstr "_9X[*#]") (cstr "9") E_MATCHMORE).
  - by right.
  - by repeat constructor.
  - by repeat constructor.
  - intros (a&b&E). vm_compute in E.
    repeat (destruct a as [|? a]; [by simplify_eq/=|simplify_eq/=]; try done).
  - exists (cstr "93#"). split; [set_solver|]. unfold stands_for. rewrite decide_True by done.
    apply den_char; [done|]. apply (den_digit 88 48); [done|vm_compute; done|].
    apply (den_set (cstr "*#") [] 35); [set_solver| |constructor].
    apply class_one_tail; [done|]. by apply class_one.
Defined.

(** C15: [ast_extension_cmp], by which a context is kept sorted, is a total
    preorder on extensions without the character 255: every two extensions
    compare, as -1, 0 or 1, exchanging them negates the result, an extension
    equals itself, and "not after" is transitive. *)
Theorem ast_extension_cmp_total_order a b c :
  scannable a → scannable b → scannable c →
  ∃ ab bc ac, ast_extension_cmp a b = Some ab ∧ ast_extension_cmp b c = Some bc
    ∧ ast_extension_cmp a c = Some ac ∧ ast_extension_cmp b a = Some (- ab)
    ∧ ast_extension_cmp a a = Some 0
    ∧ (-1 <= ab <= 1) ∧ (ab <= 0 → bc <= 0 → ac <= 0).
Proof.
  intros Ha Hb Hc. destruct (sort_key_exists a Ha) as [ka Hka].
  destruct (sort_key_exists b Hb) as [kb Hkb]. destruct (sort_key_exists c Hc) as [kc Hkc].
  eexists _, _, _. rewrite (ast_extension_cmp_lexc a b ka kb), (ast_extension_cmp_lexc b c kb kc),
    (ast_extension_cmp_lexc a c ka kc), (ast_extension_cmp_lexc b a kb ka),
    (ast_extension_cmp_lexc a a ka ka) by done.
  split_and!; [done|done|done|..].
  - by rewrite lexc_sgn_flip.
  - by rewrite lexc_refl.
  - lia.
  - lia.
  - pose proof (lexc_trans ka kb kc). lia.
Qed.

Lemma ast_extension_cmp_total_order_witness :
  ∃ ab bc ac, ast_extension_cmp (cstr "_NXX") (cstr "_[2-9]X.") = Some ab
    ∧ ast_extension_cmp (cstr "_[2-9]X.") (cstr "_X!") = Some bc
    ∧ ast_extension_cmp (cstr "_NXX") (cstr "_X!") = Some ac
    ∧ ast_extension_cmp (cstr "_[2-9]X.") (cstr "_NXX") = Some (- ab)
    ∧ ast_extension_cmp (cstr "_NXX") (cstr "_NXX") = Some 0
    ∧ (-1 <= ab <= 1) ∧ (ab <= 0 → bc <= 0 → ac <= 0).
Proof. apply ast_extension_cmp_total_order; by repeat constructor. Defined.

(** Two extensions that compare equal, and so share one place in a
    context, match the same dialled strings in every kind of search (for
    extensions of ASCII characters, without caller id part or empty sets, that
    can be dialled). *)
Theorem ast_extension_cmp_zero_same_matches a b d mode :
  sane a → sane b → ast_extension_cmp a b = Some 0 →
  mode = E_MATCH ∨ mode = E_CANMATCH ∨ mode = E_MATCHMORE →
  c_string d → deref d ≠ UNDERSCORE →
  ∃ ra rb, _extension_match_core a d mode = Some ra ∧ _extension_match_core b d mode = Some rb
           ∧ (ra ≠ 0 ↔ rb ≠ 0).
Proof.
  intros Ha Hb E Hm Hd Hu. assert (search_mode mode) as Hs by (unfold search_mode; tauto).
  assert (ext_cmp a b = Some 0) as E'.
  { unfold ast_extension_cmp in E. destruct (ext_cmp a b) as [z|]; simplify_eq/=.
    destruct (Z.ltb_spec z 0); [done|]. rewrite Z.gtb_ltb in E. destruct (Z.ltb_spec 0 z); [done|].
    f_equal. lia. }
  pose proof (scannable_c_string _ (sane_scannable _ Ha)).
  pose proof (scannable_c_string _ (sane_scannable _ Hb)).
  destruct (extension_match_core_spec mode a d) as (ra&Ea&Hra);
    [done..|by destruct Ha as (?&?&?)|done|by destruct Ha as (?&?&?)|].
  destruct (extension_match_core_spec mode b d) as (rb&Eb&Hrb);
    [done..|by destruct Hb as (?&?&?)|done|by destruct Hb as (?&?&?)|].
  exists ra, rb. split_and!; [done..|]. rewrite Hra, Hrb.
  split; intros (s&?&Hst); exists s; (split; [done|]); by apply (ext_cmp_zero_stands_for a b _ Ha Hb E').
Qed.

Lemma ast_extension_cmp_zero_same_matches_witness :
  ∃ ra rb, _extension_match_core (cstr "_NX") (cstr "45") E_MATCH = Some ra
    ∧ _extension_match_core (cstr "_[2-9]-x") (cstr "45") E_MATCH = Some rb ∧ (ra ≠ 0 ↔ rb ≠ 0).
Proof.
  apply (ast_extension_cmp_zero_same_matches (cstr "_NX") (cstr "_[2-9]-x") (cstr "45") E_MATCH).
  - split_and!; [by repeat constructor| |].
    + intros (a&b&E). vm_compute in E.
      repeat (destruct a as [|? a]; [by simplify_eq/=|simplify_eq/=]; try done).
    + exists (cstr "45"). split; [set_solver|]. unfold stands_for. rewrite decide_True by done.
      apply (den_digit 78 50); [done|vm_compute; done|].
      apply (den_digit 88 48); [done|vm_compute; done|]. constructor.
  - split_and!; [by repeat constructor| |].
    + intros (a&b&E). vm_compute in E.
      repeat (destruct a as [|? a]; [by simplify_eq/=|simplify_eq/=]; try done).
    + exists (cstr "45"). split; [set_solver|]. unfold stands_for. rewrite decide_True by done.
      apply (den_set (cstr "2-9") (cstr "-x") 52 [53]); [set_solver|by apply class_range|].
      apply den_dash. apply (den_digit 120 48); [done|vm_compute; done|]. constructor.
  - vm_compute. done.
  - by left.
  - by repeat constructor.
  - vm_compute. done.
Defined.

(** The copy of an extension that [ast_add_extension2] stores, made by
    [ext_strncpy] into a buffer sized by [ext_fluff_count], is complete: it
    stays within the buffer, is terminated, and stands for the same strings as
    the extension it was made from (for an extension without spaces that does
    not begin with dashes before an underscore). *)
Theorem stored_extension_complete e :
  c_string e → (SPACE ∉ e) → (deref e ≠ UNDERSCORE → deref (undash e) ≠ UNDERSCORE) →
  ∃ s, ext_strncpy e (Z.of_nat (length e) + 1 - ext_fluff_count e) true = s ++ [0]
       ∧ Z.of_nat (length (s ++ [0])) <= Z.of_nat (length e) + 1 - ext_fluff_count e
       ∧ ∀ w, stands_for s w ↔ stands_for e w.
Proof.
  intros He Hs Hu. pose proof (strip_length e) as Hl. rewrite ext_strncpy_exact. eexists.
  split_and!; [done|rewrite length_app; simpl; lia|]. intros w. unfold stands_for.
  destruct (Z.eqb_spec (deref e) UNDERSCORE) as [E|E].
  - destruct e as [|c e]; [done|]. unfold deref in E. simpl in E. subst c.
    simpl. apply strip_denotes. by apply not_elem_of_cons in Hs as [_ ?].
  - rewrite strip_plain by done. rewrite (decide_False (P := deref e = _)) by done.
    rewrite decide_False by auto. unfold undash. by rewrite list_filter_filter_l by naive_solver.
Qed.

Lemma stored_extension_complete_witness :
  ∃ s, ext_strncpy (cstr "_1[2-4]-X-") (Z.of_nat (length (cstr "_1[2-4]-X-")) + 1
         - ext_fluff_count (cstr "_1[2-4]-X-")) true = s ++ [0]
       ∧ Z.of_nat (length (s ++ [0])) <= Z.of_nat (length (cstr "_1[2-4]-X-")) + 1
           - ext_fluff_count (cstr "_1[2-4]-X-")
       ∧ ∀ w, stands_for s w ↔ stands_for (cstr "_1[2-4]-X-") w.
Proof.
  apply (stored_extension_complete (cstr "_1[2-4]-X-")).
  - by repeat constructor.
  - set_solver.
  - done.
Defined.

End Properties.
