(* ===== verification/Hashtab.v ===== *)
(** * Hash tables ([main/hashtab.c])

    Chained hash tables that grow with their load; the dialplan keeps its
    contexts, the extensions of a context and the priorities and labels of an
    extension in them.

    - [Model]: the functions of the source.  A bucket is one cell: its address
      and the object it holds; the chain of a slot and the list [tlist] of all
      buckets are lists of buckets, head first (the [prev] and [tprev] links of
      the doubly linked lists say nothing more).  [None] is an access through
      the NULL array that a failed [calloc] in a resize leaves behind.
    - [Spec]: a table is a finite set of objects with one object per key.
    - [Refine]: the operations implement it, resizing included.
    - [Primes]: the test for primes and the search for the next size.
    - [Properties]: the theorems. *)

From stdpp Require Import base numbers list sets sorting.
From Stdlib Require Import ZArith Lia Znumtheory Factorial.
From S2P Require Import Prelude.

Module Model.

Local Open Scope cint_scope.

(** *** Sizes *)

(** The loop over odd divisors; every turn raises [tnum] by two. *)
Fixpoint is_prime_loop (fuel : nat) (num tnum limit : Z) : option Z :=
  if negb (tnum <? limit) then Some 1 else
  match fuel with
  | O => None
  | S fuel =>
      if num %c tnum =? 0 then Some 0
      else is_prime_loop fuel num (tnum + 2) (num /c tnum)
  end.

Definition ast_is_prime (num : Z) : option Z :=
  if Z.land num 0x1 =? 0 then Some 0
  else is_prime_loop (Z.to_nat num) num 3 num.

(** [while (!ast_is_prime(i)) i++] *)
Fixpoint next_prime (fuel : nat) (i : Z) : option Z :=
  match fuel with
  | O => None
  | S fuel =>
      p ← ast_is_prime i;
      if p =? 0 then next_prime fuel (i + 1) else Some i
  end.

Section Table.
Context {A : Type} `{EqDecision A}.

Record ast_hashtab_bucket := Bucket { addr : nat; object : A }.

(** [fresh] is the address of the next bucket. *)
Record ast_hashtab := Hashtab {
  array : option (list (list ast_hashtab_bucket));
  tlist : list ast_hashtab_bucket;
  compare : A → A → Z;
  newsize : Z → option Z;
  resize : Z → Z → bool;
  hash : A → Z;
  hash_tab_size : Z;
  hash_tab_elements : Z;
  largest_bucket_size : Z;
  resize_count : Z;
  fresh : nat;
}.

(** The functions a caller may pass, on the fields they read. *)
(** [(double) elements / (double) size > 0.75]: the division of small integers
    is compared exactly, [0.75] being a double. *)
Definition ast_hashtab_resize_java (elements size : Z) : bool := 3 * size <? 4 * elements.
Definition ast_hashtab_resize_tight (elements size : Z) : bool := size <? elements.
Definition ast_hashtab_resize_none (elements size : Z) : bool := false.

Definition ast_hashtab_newsize_java (fuel : nat) (size : Z) : option Z :=
  next_prime fuel (Z.shiftl size 1).
Definition ast_hashtab_newsize_tight (fuel : nat) (size : Z) : option Z :=
  next_prime fuel (size + Z.shiftl size 1).
Definition ast_hashtab_newsize_none (size : Z) : option Z := Some size.

Definition _ast_hashtab_create (fuel : nat) (initial_buckets : Z) (cmp : A → A → Z)
    (rs : Z → Z → bool) (ns : Z → option Z) (h : A → Z) : option ast_hashtab :=
  n ← next_prime fuel initial_buckets;
  Some (Hashtab (Some (replicate (Z.to_nat n) [])) [] cmp ns rs h n 0 0 0 0).

Definition set_array tab arr := Hashtab arr (tlist tab) (compare tab) (newsize tab) (resize tab)
  (hash tab) (hash_tab_size tab) (hash_tab_elements tab) (largest_bucket_size tab)
  (resize_count tab) (fresh tab).

Definition slot (tab : ast_hashtab) (obj : A) : nat := Z.to_nat (hash tab obj mod hash_tab_size tab).

(** The chain of a slot; the slot of a hash is always inside the array. *)
Definition chain (tab : ast_hashtab) (h : nat) : option (list ast_hashtab_bucket) :=
  array tab ≫= λ arr, arr !! h.

Definition ast_hashtab_lookup_internal (tab : ast_hashtab) (obj : A) (h : nat) : option (option A) :=
  bs ← chain tab h;
  Some (object <$> head (filter (λ b, compare tab obj (object b) = 0) bs)).

Definition ast_hashtab_lookup (tab : ast_hashtab) (obj : A) : option (option A) :=
  ast_hashtab_lookup_internal tab obj (slot tab obj).

Definition ast_hashtab_lookup_with_hash (tab : ast_hashtab) (obj : A) (hashval : Z) : option (option A) :=
  ast_hashtab_lookup_internal tab obj (Z.to_nat (hashval mod hash_tab_size tab)).

(** The object found and the slot. *)
Definition ast_hashtab_lookup_bucket (tab : ast_hashtab) (obj : A) : option (option A * nat) :=
  r ← ast_hashtab_lookup_internal tab obj (slot tab obj); Some (r, slot tab obj).

(** The new slots are filled from [tlist], each bucket at the head of its chain. *)
Definition rehash (h : A → Z) (size : Z) (tl : list ast_hashtab_bucket) : list (list ast_hashtab_bucket) :=
  foldl (λ arr b, alter (cons b) (Z.to_nat (h (object b) mod size)) arr)
        (replicate (Z.to_nat size) []) tl.

Definition largest (arr : list (list ast_hashtab_bucket)) : Z :=
  foldl (λ m bs, if Z.of_nat (length bs) >? m then Z.of_nat (length bs) else m) 0 arr.

(** [alloc] tells whether [calloc] succeeds. *)
Definition _ast_hashtab_resize (alloc : bool) (tab : ast_hashtab) : option ast_hashtab :=
  size ← newsize tab (hash_tab_size tab);
  if negb alloc then Some (set_array tab None) else
  let arr := rehash (hash tab) size (tlist tab) in
  Some (Hashtab (Some arr) (tlist tab) (compare tab) (newsize tab) (resize tab) (hash tab)
          size (hash_tab_elements tab) (largest arr) (resize_count tab + 1) (fresh tab)).

(** The result and the table; [alloc] gives the outcomes of the two [calloc]s. *)
Definition _ast_hashtab_insert_immediate_bucket (alloc : bool * bool) (tab : ast_hashtab) (obj : A) (h : nat)
    : option (Z * ast_hashtab) :=
  bs ← chain tab h;
  let c := Z.of_nat (length bs) in
  let big := if c + 1 >? largest_bucket_size tab then c + 1 else largest_bucket_size tab in
  let b := Bucket (fresh tab) obj in
  if negb (alloc.1)
  then Some (0, Hashtab (array tab) (tlist tab) (compare tab) (newsize tab) (resize tab) (hash tab)
                  (hash_tab_size tab) (hash_tab_elements tab) big (resize_count tab) (fresh tab))
  else
    let tab := Hashtab (alter (cons b) h <$> array tab) (b :: tlist tab) (compare tab) (newsize tab)
                 (resize tab) (hash tab) (hash_tab_size tab) (hash_tab_elements tab + 1) big
                 (resize_count tab) (S (fresh tab)) in
    tab ← (if resize tab (hash_tab_elements tab) (hash_tab_size tab)
           then _ast_hashtab_resize (alloc.2) tab else Some tab);
    Some (1, tab).

Definition _ast_hashtab_insert_immediate (alloc : bool * bool) (tab : ast_hashtab) (obj : A)
    : option (Z * ast_hashtab) :=
  _ast_hashtab_insert_immediate_bucket alloc tab obj (slot tab obj).

Definition _ast_hashtab_insert_safe (alloc : bool * bool) (tab : ast_hashtab) (obj : A)
    : option (Z * ast_hashtab) :=
  '(found, bucket) ← ast_hashtab_lookup_bucket tab obj;
  match (found : option A) with
  | None => _ast_hashtab_insert_immediate_bucket alloc tab obj bucket
  | Some _ => Some (0, tab)
  end.

Definition ast_hashtab_size (tab : ast_hashtab) : Z := hash_tab_elements tab.
Definition ast_hashtab_capacity (tab : ast_hashtab) : Z := hash_tab_size tab.

Definition ast_hashtab_get_stats (tab : ast_hashtab) : Z * Z * Z * Z :=
  (largest_bucket_size tab, resize_count tab, hash_tab_elements tab, hash_tab_size tab).

(** Unlinking a bucket from the list that holds it. *)
Definition unlink (b : ast_hashtab_bucket) (bs : list ast_hashtab_bucket) : list ast_hashtab_bucket :=
  filter (λ b', addr b' ≠ addr b) bs.

Definition ast_hashtab_remove_object_internal (tab : ast_hashtab) (b : ast_hashtab_bucket) (h : nat)
    : A * ast_hashtab :=
  (object b, Hashtab (alter (unlink b) h <$> array tab) (unlink b (tlist tab)) (compare tab) (newsize tab)
               (resize tab) (hash tab) (hash_tab_size tab) (hash_tab_elements tab - 1)
               (largest_bucket_size tab) (resize_count tab) (fresh tab)).

Definition ast_hashtab_remove_object_via_lookup (tab : ast_hashtab) (obj : A)
    : option (option A * ast_hashtab) :=
  bs ← chain tab (slot tab obj);
  Some (match filter (λ b, compare tab obj (object b) = 0) bs with
        | b :: _ => let r := ast_hashtab_remove_object_internal tab b (slot tab obj) in (Some (r.1), r.2)
        | [] => (None, tab)
        end).

(** The object itself, by address. *)
Definition ast_hashtab_remove_this_object (tab : ast_hashtab) (obj : A)
    : option (option A * ast_hashtab) :=
  bs ← chain tab (slot tab obj);
  Some (match filter (λ b, obj = object b) bs with
        | b :: _ => let r := ast_hashtab_remove_object_internal tab b (slot tab obj) in (Some (r.1), r.2)
        | [] => (None, tab)
        end).

(** The objects a traversal yields, one per [ast_hashtab_next]. *)
Definition ast_hashtab_start_traversal (tab : ast_hashtab) : list ast_hashtab_bucket := tlist tab.

Definition ast_hashtab_next (it : list ast_hashtab_bucket) : option A * list ast_hashtab_bucket :=
  match it with
  | b :: it => (Some (object b), it)
  | [] => (None, [])
  end.

(** The objects handed to the destructor, in order. *)
Definition ast_hashtab_destroy (tab : ast_hashtab) : list A :=
  match array tab with
  | Some _ => object <$> tlist tab
  | None => []
  end.

Definition copy_bucket (dup : A → option A) (i : nat) (b : ast_hashtab_bucket)
    (m : option ast_hashtab) : option ast_hashtab :=
  ht ← m;
  match dup (object b) with
  | Some obj => snd <$> _ast_hashtab_insert_immediate_bucket (true, true) ht obj i
  | None => Some ht
  end.

Definition _ast_hashtab_dup (obj_dup_func : A → option A) (tab : ast_hashtab) : option ast_hashtab :=
  arr ← array tab;
  let ht := Hashtab (Some (replicate (Z.to_nat (hash_tab_size tab)) [])) [] (compare tab) (newsize tab)
              (resize tab) (hash tab) (hash_tab_size tab) 0 0 0 0 in
  foldl (λ m ib, foldl (λ m b, copy_bucket obj_dup_func (ib.1) b m) m (ib.2)) (Some ht) (imap pair arr).

End Table.

Arguments ast_hashtab_bucket : clear implicits.
Arguments ast_hashtab : clear implicits.

(** The hash of a string. *)
Fixpoint hash_string_loop (str : list Z) (total : Z) : Z :=
  match str with
  | [] => total
  | c :: str =>
      if u8 c =? 0 then total else
      let tmp := total in
      let total := u32 (Z.shiftl total 1) in
      let total := u32 (total + tmp) in
      let total := u32 (Z.shiftl total 2) in
      let total := u32 (total + tmp) in
      hash_string_loop str (u32 (total + u8 c))
  end.

Definition ast_hashtab_hash_string (str : list Z) : Z := hash_string_loop str 0.

Fixpoint hash_string_sax_loop (str : list Z) (total : Z) : Z :=
  match str with
  | [] => total
  | c :: str =>
      hash_string_sax_loop str
        (Z.lxor total (u32 (Z.shiftl total 5 + Z.shiftr total 2 + Z.shiftl total 10 + u8 c)))
  end.

Definition ast_hashtab_hash_string_sax (str : list Z) : Z := hash_string_sax_loop str 0.

Definition ast_hashtab_hash_int (x : Z) : Z := u32 x.
Definition ast_hashtab_hash_short (x : Z) : Z := u32 x.

Definition ast_hashtab_compare_ints (a b : Z) : Z :=
  if a <? b then -1 else b2z (negb (a =? b)).

End Model.

Import Model.

(** ** Laws of the functions a table is made with *)

(** [compare] is zero on the same key, which is an equivalence, and objects
    with one key have one hash. *)
Class HashLaws {A : Type} (compare : A → A → Z) (hash : A → Z) : Prop := {
  compare_refl a : compare a a = 0;
  compare_sym a b : compare a b = 0 → compare b a = 0;
  compare_trans a b c : compare a b = 0 → compare b c = 0 → compare a c = 0;
  hash_compat a b : compare a b = 0 → hash a = hash b;
}.

(** ** The abstract table: the objects in the order of a traversal *)
Module Spec.
Section Spec.
Context {A : Type} `{EqDecision A} (cmp : A → A → Z).

Definition same_key (x : A) (l : list A) : list A := filter (λ y, cmp x y = 0) l.
Definition find (x : A) (l : list A) : option A := head (same_key x l).
Definition add (x : A) (l : list A) : list A :=
  match find x l with Some _ => l | None => x :: l end.
Definition remove (x : A) (l : list A) : list A := filter (λ y, cmp x y ≠ 0) l.

(** One object per key. *)
Definition keyed (l : list A) : Prop := ∀ x, (length (same_key x l) ≤ 1)%nat.

Inductive op := Insert (x : A) | Lookup (x : A) | Remove (x : A).

(** What the operation returns (the object found or removed, or for an
    insertion the object that was in the way) and the objects after it. *)
Definition step (o : op) (l : list A) : option A * list A :=
  match o with
  | Insert x => (find x l, add x l)
  | Lookup x => (find x l, l)
  | Remove x => (find x l, remove x l)
  end.

Fixpoint run (ops : list op) (l : list A) : list (option A) * list A :=
  match ops with
  | [] => ([], l)
  | o :: ops => let r := step o l in let rs := run ops (r.2) in (r.1 :: rs.1, rs.2)
  end.
End Spec.
End Spec.

Arguments Spec.op : clear implicits.

(** ** The tables implement it *)
Module Refine.
Import Spec.
Section Refine.
Context {A : Type} `{EqDecision A}.
Implicit Types (tab : ast_hashtab A) (b : ast_hashtab_bucket A).

Definition objects tab : list A := object <$> tlist tab.

(** Every bucket is in the chain of its slot, once, and nowhere else. *)
Record table_wf tab : Prop := {
  wf_size : 0 < hash_tab_size tab;
  wf_array : ∃ arr, array tab = Some arr ∧ length arr = Z.to_nat (hash_tab_size tab)
    ∧ ∀ h bs, arr !! h = Some bs → bs ≡ₚ filter (λ b, slot tab (object b) = h) (tlist tab);
  wf_elements : hash_tab_elements tab = Z.of_nat (length (tlist tab));
  wf_addrs : NoDup (addr <$> tlist tab);
  wf_fresh : Forall (λ b, (addr b < fresh tab)%nat) (tlist tab);
}.

(** The size function always gives a size. *)
Definition newsize_ok (ns : Z → option Z) : Prop := ∀ n, 0 < n → ∃ m, ns n = Some m ∧ 0 < m.

Lemma hash_slot_lt tab x : 0 < hash_tab_size tab → (slot tab x < Z.to_nat (hash_tab_size tab))%nat.
Proof.
  intros Hs. unfold slot. pose proof (Z.mod_pos_bound (hash tab x) (hash_tab_size tab) Hs). lia.
Qed.

Lemma chain_wf tab x : table_wf tab →
  ∃ bs, chain tab (slot tab x) = Some bs
        ∧ bs ≡ₚ filter (λ b, slot tab (object b) = slot tab x) (tlist tab).
Proof.
  intros [Hs (arr&Ea&Hl&Hc) _ _ _]. pose proof (hash_slot_lt tab x Hs).
  destruct (lookup_lt_is_Some_2 arr (slot tab x)) as [bs E]; [lia|].
  exists bs. unfold chain. rewrite Ea. simpl. split; [done|]. by apply Hc.
Qed.

Lemma filter_objects (P : A → Prop) `{!∀ x, Decision (P x)} (bs : list (ast_hashtab_bucket A)) :
  object <$> filter (λ b, P (object b)) bs = filter P (object <$> bs).
Proof.
  induction bs as [|b bs IH]; [done|]. rewrite fmap_cons, !filter_cons.
  destruct (decide (P (object b))); csimpl; by rewrite IH.
Qed.

Lemma head_objects (bs : list (ast_hashtab_bucket A)) : head (object <$> bs) = object <$> head bs.
Proof. by destruct bs. Qed.

(** The buckets of a key are in one chain. *)
Lemma chain_matches tab `{!HashLaws (compare tab) (hash tab)} x bs :
  keyed (compare tab) (objects tab) →
  bs ≡ₚ filter (λ b, slot tab (object b) = slot tab x) (tlist tab) →
  filter (λ b, compare tab x (object b) = 0) bs = filter (λ b, compare tab x (object b) = 0) (tlist tab).
Proof.
  intros Hk Hbs.
  assert (filter (λ b, compare tab x (object b) = 0) bs ≡ₚ
          filter (λ b, compare tab x (object b) = 0) (tlist tab)) as Hp.
  { rewrite Hbs, list_filter_filter. apply reflexive_eq, list_filter_iff. intros b. split; [tauto|].
    intros E. split; [done|]. unfold slot. by rewrite <- (hash_compat (hash := hash tab) x (object b) E). }
  specialize (Hk x). unfold same_key, objects in Hk. rewrite <- filter_objects, length_fmap in Hk.
  destruct (filter _ (tlist tab)) as [|b [|]]; simpl in Hk; [by apply Permutation_nil_r in Hp| |lia].
  by apply Permutation_singleton_r in Hp.
Qed.

Lemma lookup_internal_find tab `{!HashLaws (compare tab) (hash tab)} x :
  table_wf tab → keyed (compare tab) (objects tab) →
  ast_hashtab_lookup tab x = Some (find (compare tab) x (objects tab)).
Proof.
  intros Hwf Hk. destruct (chain_wf tab x Hwf) as (bs&E&Hbs).
  unfold ast_hashtab_lookup, ast_hashtab_lookup_internal. rewrite E. cbn [mbind option_bind].
  rewrite (chain_matches tab x bs Hk Hbs). unfold find, same_key, objects. rewrite <- filter_objects.
  by rewrite head_objects.
Qed.

(** *** Insertion *)

Lemma keyed_add (cmp : A → A → Z) (hash : A → Z) `{!HashLaws cmp hash} x l :
  keyed cmp l → keyed cmp (add cmp x l).
Proof.
  intros Hk z. unfold add. destruct (find cmp x l) as [|] eqn:E; [apply Hk|].
  unfold same_key. rewrite filter_cons. case_decide as Hz; [|apply Hk].
  replace (filter (λ y, cmp z y = 0) l) with (same_key cmp x l).
  - unfold find in E. destruct (same_key cmp x l); [simpl; lia|done].
  - apply list_filter_iff. intros y. split; intros.
    + by eapply compare_trans.
    + eapply compare_trans; [|done]. by apply compare_sym.
Qed.

Lemma rehash_lookup (hash : A → Z) size tl h : 0 < size → (h < Z.to_nat size)%nat →
  ∃ bs, rehash hash size tl !! h = Some bs
        ∧ bs ≡ₚ filter (λ b, Z.to_nat (hash (object b) mod size) = h) tl.
Proof.
  intros Hs Hh. unfold rehash.
  cut (∀ (arr : list (list (ast_hashtab_bucket A))) bs0, arr !! h = Some bs0 → ∃ bs,
    foldl (λ arr b, alter (cons b) (Z.to_nat (hash (object b) mod size)) arr) arr tl !! h = Some bs
    ∧ bs ≡ₚ filter (λ b, Z.to_nat (hash (object b) mod size) = h) tl ++ bs0).
  { intros H. destruct (H (replicate (Z.to_nat size) []) []) as (bs&E&Hbs);
      [by apply lookup_replicate|]. exists bs. by rewrite app_nil_r in Hbs. }
  induction tl as [|b tl IH]; intros arr bs0 E; cbn [foldl]; [by exists bs0|].
  rewrite filter_cons. case_decide as Hb.
  - destruct (IH (alter (cons b) (Z.to_nat (hash (object b) mod size)) arr) (b :: bs0)) as (bs&E'&Hbs).
    { rewrite Hb, list_lookup_alter_eq, E. done. }
    exists bs. split; [done|]. rewrite Hbs. simpl. symmetry. apply Permutation_middle.
  - apply IH. by rewrite list_lookup_alter_ne.
Qed.

Lemma rehash_length (hash : A → Z) size tl : length (rehash hash size tl) = Z.to_nat size.
Proof.
  unfold rehash. rewrite <- (length_replicate (Z.to_nat size) (@nil (ast_hashtab_bucket A))) at 2.
  generalize (replicate (Z.to_nat size) (@nil (ast_hashtab_bucket A))).
  induction tl as [|b tl IH]; intros arr; cbn [foldl]; [done|]. by rewrite IH, length_alter.
Qed.

(** The functions of a table do not change. *)
Definition same_functions tab tab' : Prop :=
  compare tab' = compare tab ∧ hash tab' = hash tab ∧ newsize tab' = newsize tab.

Lemma resize_wf tab : newsize_ok (newsize tab) → table_wf tab →
  ∃ tab', _ast_hashtab_resize true tab = Some tab' ∧ table_wf tab' ∧ tlist tab' = tlist tab
          ∧ same_functions tab tab'.
Proof.
  intros Hn Hwf. destruct (Hn _ (wf_size _ Hwf)) as (m&E&Hm).
  unfold _ast_hashtab_resize. rewrite E. cbn [mbind option_bind negb]. eexists. split; [done|].
  split; [|done]. destruct Hwf as [_ _ He Ha Hf]. split; simpl; try done.
  eexists. split; [done|]. split; [by apply rehash_length|]. intros h bs Hbs.
  assert (h < Z.to_nat m)%nat as Hh.
  { rewrite <- (rehash_length (hash tab) m (tlist tab)). by eapply lookup_lt_Some. }
  destruct (rehash_lookup (hash tab) m (tlist tab) h Hm Hh) as (bs'&E'&Hbs').
  simplify_eq. exact Hbs'.
Qed.

Lemma insert_bucket_wf tab x : newsize_ok (newsize tab) → table_wf tab →
  ∃ tab', _ast_hashtab_insert_immediate_bucket (true, true) tab x (slot tab x) = Some (1, tab')
          ∧ table_wf tab' ∧ objects tab' = x :: objects tab ∧ same_functions tab tab'.
Proof.
  intros Hn Hwf. destruct (chain_wf tab x Hwf) as (bs&E&_).
  unfold _ast_hashtab_insert_immediate_bucket. rewrite E. cbn [mbind option_bind negb fst snd].
  set (tab1 := Hashtab _ _ _ _ _ _ _ _ _ _ _).
  assert (table_wf tab1) as Hwf1.
  { destruct Hwf as [Hs (arr&Ea&Hl&Hc) He Ha Hf]. split; simpl; try done.
    - rewrite Ea. eexists. split; [done|]. rewrite length_alter. split; [done|].
      intros h bs' Hbs'. change (slot tab1) with (slot tab). rewrite filter_cons. simpl.
      destruct (decide (slot tab x = h)) as [<-|Hne].
      + rewrite list_lookup_alter_eq in Hbs'. destruct (arr !! slot tab x) eqn:E'; simplify_eq/=.
        by rewrite (Hc _ _ E').
      + rewrite list_lookup_alter_ne in Hbs' by done. by apply Hc.
    - lia.
    - apply NoDup_cons. split; [|done]. rewrite list_elem_of_fmap. intros (b&Hb&Hin).
      rewrite Forall_forall in Hf. apply Hf in Hin. lia.
    - apply Forall_cons. split; [simpl; lia|]. eapply Forall_impl; [exact Hf|]. simpl. lia. }
  destruct (resize tab1 _ _).
  - destruct (resize_wf tab1) as (tab'&->&?&Et&?); [done..|]. exists tab'.
    split_and!; [done|done|unfold objects; by rewrite Et|done].
  - exists tab1. by split_and!.
Qed.

Lemma insert_safe_add tab `{!HashLaws (compare tab) (hash tab)} x :
  newsize_ok (newsize tab) → table_wf tab → keyed (compare tab) (objects tab) →
  ∃ r tab', _ast_hashtab_insert_safe (true, true) tab x = Some (r, tab')
    ∧ r = b2z (bool_decide (find (compare tab) x (objects tab) = None))
    ∧ table_wf tab' ∧ objects tab' = add (compare tab) x (objects tab) ∧ same_functions tab tab'.
Proof.
  intros Hn Hwf Hk. unfold _ast_hashtab_insert_safe, ast_hashtab_lookup_bucket.
  pose proof (lookup_internal_find tab x Hwf Hk) as E. unfold ast_hashtab_lookup in E. rewrite E.
  cbn [mbind option_bind]. unfold add. destruct (find (compare tab) x (objects tab)) as [y|].
  - exists 0, tab. split_and!; done.
  - destruct (insert_bucket_wf tab x) as (tab'&->&?&?&?); [done..|]. exists 1, tab'. by split_and!.
Qed.

(** *** Removal *)

Lemma addr_inj (tl : list (ast_hashtab_bucket A)) b1 b2 :
  NoDup (addr <$> tl) → b1 ∈ tl → b2 ∈ tl → addr b1 = addr b2 → b1 = b2.
Proof.
  intros Hnd H1 H2 E. apply list_elem_of_lookup in H1 as [i Hi], H2 as [j Hj].
  assert (i = j) as ->; [|congruence].
  apply (NoDup_lookup (addr <$> tl) i j (addr b1)); [done| |]; rewrite list_lookup_fmap;
    [by rewrite Hi|rewrite Hj; csimpl; congruence].
Qed.

(** Unlinking the only bucket with a property leaves those without it. *)
Lemma unlink_only (P : ast_hashtab_bucket A → Prop) `{!∀ b, Decision (P b)} tl b :
  NoDup (addr <$> tl) → filter P tl = [b] → unlink b tl = filter (λ b', ¬ P b') tl.
Proof.
  intros Hnd HP. assert (∀ b', b' ∈ tl → P b' ↔ b' = b) as Hall.
  { intros b' Hb'. rewrite <- list_elem_of_singleton, <- HP, list_elem_of_filter. tauto. }
  assert (b ∈ filter P tl) as Hb by (rewrite HP; apply list_elem_of_here).
  apply list_elem_of_filter in Hb as [_ Hb].
  apply filter_ext_in. intros b' Hb'. rewrite (Hall b' Hb'). split; intros Hne E; apply Hne.
  - by rewrite E.
  - by eapply addr_inj.
Qed.

Lemma filter_all {B} (P : B → Prop) `{!∀ x, Decision (P x)} (l : list B) :
  (∀ x, x ∈ l → P x) → filter P l = l.
Proof.
  induction l as [|x l IH]; intros Hl; [done|].
  rewrite filter_cons_True by set_solver. f_equal. set_solver.
Qed.

Lemma unlink_length (tl : list (ast_hashtab_bucket A)) b :
  NoDup (addr <$> tl) → b ∈ tl → S (length (unlink b tl)) = length tl.
Proof.
  intros Hnd Hb. induction tl as [|y tl IH]; [by apply not_elem_of_nil in Hb|].
  rewrite fmap_cons, NoDup_cons in Hnd. destruct Hnd as [Hy Hnd]. unfold unlink. rewrite filter_cons.
  destruct (decide (addr y ≠ addr b)) as [Hne|Hne].
  - apply elem_of_cons in Hb as [->|Hb]; [done|]. simpl. f_equal. by apply IH.
  - apply dec_stable in Hne. simpl. rewrite filter_all; [done|]. intros x Hx E. apply Hy.
    rewrite Hne, <- E. by apply list_elem_of_fmap_2.
Qed.

Lemma remove_internal_wf tab b :
  table_wf tab → b ∈ tlist tab →
  table_wf (ast_hashtab_remove_object_internal tab b (slot tab (object b))).2.
Proof.
  intros [Hs (arr&Ea&Hl&Hc) He Ha Hf] Hb. split; simpl; try done.
  - rewrite Ea. eexists. split; [done|]. rewrite length_alter. split; [done|].
    intros h bs Hbs. change (slot (Hashtab _ _ _ _ _ _ _ _ _ _ _)) with (slot tab).
    destruct (decide (slot tab (object b) = h)) as [<-|Hne].
    + rewrite list_lookup_alter_eq in Hbs.
      destruct (arr !! slot tab (object b)) eqn:E'; simplify_eq/=. unfold unlink.
      rewrite (Hc _ _ E'), !list_filter_filter. apply reflexive_eq, list_filter_iff. intros; tauto.
    + rewrite list_lookup_alter_ne in Hbs by done. rewrite (Hc _ _ Hbs). unfold unlink.
      rewrite list_filter_filter. apply reflexive_eq, filter_ext_in. intros b' Hb'. split; [|tauto].
      intros E. split; [done|]. intros E2. apply Hne.
      by rewrite <- E, (addr_inj (tlist tab) b' b Ha Hb' Hb E2).
  - rewrite He, <- (unlink_length (tlist tab) b) by done. lia.
  - eapply sublist_NoDup; [exact Ha|]. apply fmap_sublist, sublist_filter.
  - rewrite !Forall_forall in *. intros b' Hb'. apply list_elem_of_filter in Hb' as [_ Hb']. auto.
Qed.

Lemma keyed_remove (cmp : A → A → Z) x l : keyed cmp l → keyed cmp (remove cmp x l).
Proof.
  intros Hk z. etrans; [|apply (Hk z)]. unfold same_key, remove. rewrite list_filter_filter.
  rewrite (list_filter_iff _ (λ y, cmp x y ≠ 0 ∧ cmp z y = 0)) by (intros; tauto).
  rewrite <- list_filter_filter. apply length_filter.
Qed.

Lemma remove_via_lookup_remove tab `{!HashLaws (compare tab) (hash tab)} x :
  table_wf tab → keyed (compare tab) (objects tab) →
  ∃ tab', ast_hashtab_remove_object_via_lookup tab x =
            Some (find (compare tab) x (objects tab), tab')
    ∧ table_wf tab' ∧ objects tab' = remove (compare tab) x (objects tab) ∧ same_functions tab tab'.
Proof.
  intros Hwf Hk. destruct (chain_wf tab x Hwf) as (bs&E&Hbs).
  unfold ast_hashtab_remove_object_via_lookup. rewrite E. cbn [mbind option_bind].
  rewrite (chain_matches tab x bs Hk Hbs). pose proof (Hk x) as Hx.
  unfold find, same_key, remove, objects in *. rewrite <- !filter_objects in *. rewrite head_objects.
  rewrite length_fmap in Hx.
  destruct (filter (λ b, compare tab x (object b) = 0) (tlist tab)) as [|b [|]] eqn:Ef;
    simpl in Hx; [..|lia].
  - exists tab. split_and!; [done|done| |done]. f_equal. symmetry. apply filter_all.
    intros b Hb E0. assert (b ∈ @nil (ast_hashtab_bucket A)) as Hin; [|by apply not_elem_of_nil in Hin].
    rewrite <- Ef. by apply list_elem_of_filter.
  - assert (b ∈ filter (λ b, compare tab x (object b) = 0) (tlist tab)) as Hb
      by (rewrite Ef; apply list_elem_of_here).
    apply list_elem_of_filter in Hb as [E0 Hb].
    assert (slot tab x = slot tab (object b)) as ->.
    { unfold slot. by rewrite (hash_compat (hash := hash tab) x (object b) E0). }
    eexists. split_and!; [done|by apply remove_internal_wf| |done].
    simpl. f_equal. apply (unlink_only (λ b, compare tab x (object b) = 0)); [apply Hwf|done].
Qed.

(** *** Tables whose functions obey no law *)

(** The table stays well formed, whatever the comparison and the hash. *)
Definition table_ok tab : Prop := table_wf tab ∧ newsize_ok (newsize tab).

Lemma lookup_ok tab x : table_ok tab → is_Some (ast_hashtab_lookup tab x).
Proof.
  intros [Hwf _]. unfold ast_hashtab_lookup, ast_hashtab_lookup_internal.
  destruct (chain_wf tab x Hwf) as (bs&->&_). by eexists.
Qed.

Lemma insert_safe_ok tab x : table_ok tab →
  ∃ r tab', _ast_hashtab_insert_safe (true, true) tab x = Some (r, tab') ∧ table_ok tab'
    ∧ (objects tab' = objects tab ∨ objects tab' = x :: objects tab).
Proof.
  intros Hok. destruct (lookup_ok tab x Hok) as [found E]. destruct Hok as [Hwf Hn].
  unfold _ast_hashtab_insert_safe, ast_hashtab_lookup_bucket. unfold ast_hashtab_lookup in E. rewrite E.
  cbn [mbind option_bind]. destruct found as [y|].
  - exists 0, tab. split_and!; [done|done|by left].
  - destruct (insert_bucket_wf tab x) as (tab'&->&?&?&_&_&Hn'); [done..|]. exists 1, tab'.
    split_and!; [done|split; [done|by rewrite Hn']|by right].
Qed.

(** Removal of the first bucket with a property from the chain of an object. *)
Lemma remove_first_ok (P : ast_hashtab_bucket A → Prop) `{!∀ b, Decision (P b)} tab x : table_ok tab →
  ∃ r tab', (bs ← chain tab (slot tab x);
    Some (match filter P bs with
          | b :: _ => let r := ast_hashtab_remove_object_internal tab b (slot tab x) in (Some (r.1), r.2)
          | [] => (None, tab)
          end)) = Some (r, tab') ∧ table_ok tab' ∧ (∀ y, y ∈ objects tab' → y ∈ objects tab).
Proof.
  intros [Hwf Hn]. destruct (chain_wf tab x Hwf) as (bs&->&Hbs). cbn [mbind option_bind].
  destruct (filter P bs) as [|b bs'] eqn:E; [by exists None, tab|].
  assert (b ∈ bs) as Hb. { eapply list_elem_of_filter with (P := P). rewrite E. apply list_elem_of_here. }
  rewrite Hbs, list_elem_of_filter in Hb. destruct Hb as [Hs Hb]. rewrite <- Hs.
  eexists _, _. split_and!; [done|split; [by apply remove_internal_wf|done]|].
  intros y Hy. unfold objects in *. apply list_elem_of_fmap in Hy as (b'&->&Hb'). simpl in Hb'.
  apply list_elem_of_filter in Hb' as [_ Hb']. by apply list_elem_of_fmap_2.
Qed.

Lemma remove_via_lookup_ok tab x : table_ok tab →
  ∃ r tab', ast_hashtab_remove_object_via_lookup tab x = Some (r, tab') ∧ table_ok tab'
    ∧ (∀ y, y ∈ objects tab' → y ∈ objects tab).
Proof. apply (remove_first_ok (λ b, compare tab x (object b) = 0)). Qed.

Lemma remove_this_ok tab x : table_ok tab →
  ∃ r tab', ast_hashtab_remove_this_object tab x = Some (r, tab') ∧ table_ok tab'
    ∧ (∀ y, y ∈ objects tab' → y ∈ objects tab).
Proof. apply (remove_first_ok (λ b, x = object b)). Qed.

(** *** Sequences of operations *)

(** The operation of the source for an abstract one, and what it returns. *)
Definition step (o : op A) tab : option (option A * ast_hashtab A) :=
  match o with
  | Insert x =>
      found ← ast_hashtab_lookup tab x;
      '(_, tab) ← _ast_hashtab_insert_safe (true, true) tab x; Some (found, tab)
  | Lookup x => found ← ast_hashtab_lookup tab x; Some (found, tab)
  | Remove x => ast_hashtab_remove_object_via_lookup tab x
  end.

Fixpoint run (ops : list (op A)) tab : option (list (option A) * ast_hashtab A) :=
  match ops with
  | [] => Some ([], tab)
  | o :: ops =>
      '(r, tab) ← step o tab;
      '(rs, tab) ← run ops tab;
      Some (r :: rs, tab)
  end.

(** The invariant of a table under insertions by [insert_safe]. *)
Definition table_inv (cmp : A → A → Z) (hash' : A → Z) tab : Prop :=
  table_wf tab ∧ keyed cmp (objects tab) ∧ compare tab = cmp ∧ hash tab = hash' ∧ newsize_ok (newsize tab).

Lemma table_step_refines cmp hash' `{!HashLaws cmp hash'} o tab :
  table_inv cmp hash' tab →
  ∃ tab', step o tab = Some ((Spec.step cmp o (objects tab)).1, tab')
    ∧ objects tab' = (Spec.step cmp o (objects tab)).2 ∧ table_inv cmp hash' tab'.
Proof.
  intros (Hwf&Hk&Hc&Hh&Hn).
  assert (HashLaws (compare tab) (hash tab)) by (by rewrite Hc, Hh).
  destruct o as [x|x|x]; cbn [step Spec.step fst snd].
  - rewrite (lookup_internal_find tab x) by (done || by rewrite Hc).
    destruct (insert_safe_add tab x) as (r&tab'&->&_&Hwf'&Ho&Hc'&Hh'&Hn'); [done|done|by rewrite Hc|].
    cbn [mbind option_bind]. exists tab'. rewrite Ho, Hc. split_and!; [done|done|].
    split_and!; [done| |congruence|congruence|by rewrite Hn'].
    rewrite Ho, Hc. by eapply keyed_add.
  - rewrite (lookup_internal_find tab x) by (done || by rewrite Hc). cbn [mbind option_bind].
    exists tab. rewrite Hc. by split_and!.
  - destruct (remove_via_lookup_remove tab x) as (tab'&->&Hwf'&Ho&Hc'&Hh'&Hn'); [done|by rewrite Hc|].
    exists tab'. rewrite Ho, Hc. split_and!; [done|done|].
    split_and!; [done| |congruence|congruence|by rewrite Hn'].
    rewrite Ho, Hc. by apply keyed_remove.
Qed.

Lemma table_run_refines cmp hash' `{!HashLaws cmp hash'} ops tab :
  table_inv cmp hash' tab →
  ∃ tab', run ops tab = Some ((Spec.run cmp ops (objects tab)).1, tab')
    ∧ objects tab' = (Spec.run cmp ops (objects tab)).2 ∧ table_inv cmp hash' tab'.
Proof.
  revert tab. induction ops as [|o ops IH]; intros tab Hinv; cbn [run Spec.run]; [by exists tab|].
  destruct (table_step_refines cmp hash' o tab Hinv) as (tab1&->&Ho&Hinv1). cbn [mbind option_bind].
  destruct (IH tab1 Hinv1) as (tab2&->&Ho2&Hinv2). cbn [mbind option_bind].
  exists tab2. rewrite Ho in *. cbn [fst snd]. by split_and!.
Qed.

Lemma table_create_inv fuel n cmp rs ns hash' tab :
  newsize_ok ns → 0 < n → _ast_hashtab_create fuel n cmp rs ns hash' = Some tab →
  table_inv cmp hash' tab ∧ objects tab = [].
Proof.
  intros Hns Hn E. unfold _ast_hashtab_create in E.
  destruct (next_prime fuel n) as [m|] eqn:Em; simplify_eq/=.
  assert (0 < m) as Hm.
  { revert n Hn Em. induction fuel as [|fuel IH]; intros n Hn; simpl; [done|].
    destruct (ast_is_prime n) as [p|]; simpl; [|done]. destruct (p =? 0); [|congruence].
    intros Em. eapply IH; [|exact Em]. lia. }
  split; [|done]. split_and!; try done; [|intros z; simpl; lia].
  split; simpl; try done; [|constructor].
  eexists. split; [done|]. rewrite length_replicate. split; [done|].
  intros h bs Hbs. by apply lookup_replicate in Hbs as [-> _].
Qed.

End Refine.
End Refine.

(** ** Prime sizes *)
Module Primes.

Lemma prime_or_factor n : 1 < n → Z.prime n ∨ ∃ d, 1 < d < n ∧ (d | n).
Proof.
  intros Hn. destruct (prime_dec n) as [Hp|Hp]; [left; by apply prime_alt|right].
  by apply not_prime_divide.
Qed.

(** A factor no larger than its cofactor. *)
Lemma small_factor num : 1 < num → ¬ Z.prime num → ∃ m, 1 < m ∧ (m | num) ∧ m * m <= num.
Proof.
  intros H1 Hp. destruct (prime_or_factor num H1) as [|(d&Hd&[e He])]; [done|].
  destruct (decide (d <= e)).
  - exists d. split_and!; [lia|by exists e|nia].
  - exists e. split_and!; [nia|exists d; lia|nia].
Qed.

Definition no_factor_below (num t : Z) : Prop := ∀ d, 1 < d < t → ¬ (d | num).

Lemma loop_exit_prime num tnum limit :
  3 <= num → no_factor_below num tnum → limit <= tnum →
  (tnum = 3 ∧ limit = num) ∨ (5 <= tnum ∧ limit = num / (tnum - 2)) → Z.prime num.
Proof.
  intros Hn Hno Hl Hlim. destruct (prime_or_factor num) as [|(d&Hd&Hdd)]; [lia|done|exfalso].
  destruct (small_factor num) as (m&Hm&Hdiv&Hsq); [lia|intros [_ Hp]; by apply (Hp d)|].
  assert (tnum <= m) by (destruct (Z.lt_ge_cases m tnum); [by destruct (Hno m)|done]).
  destruct Hlim as [[-> ->]|[Ht ->]]; [nia|].
  pose proof (Z.mul_succ_div_gt num (tnum - 2)). nia.
Qed.

Lemma no_factor_step num tnum :
  Z.odd num = true → Z.odd tnum = true → no_factor_below num tnum → ¬ (tnum | num) →
  no_factor_below num (tnum + 2).
Proof.
  intros Hodd Ht Hno Hnd d Hd Hdiv.
  destruct (decide (d < tnum)); [by apply (Hno d); [lia|]|].
  destruct (decide (d = tnum)) as [->|]; [done|]. assert (d = tnum + 1) as -> by lia.
  destruct Hdiv as [k ->]. rewrite Z.odd_mul, Z.odd_add, Ht in Hodd. simpl in Hodd.
  by rewrite andb_false_r in Hodd.
Qed.

Lemma is_prime_loop_spec fuel num tnum limit :
  3 <= num → Z.odd num = true → Z.odd tnum = true → 3 <= tnum → limit <= num →
  num - tnum <= Z.of_nat fuel → no_factor_below num tnum →
  (tnum = 3 ∧ limit = num) ∨ (5 <= tnum ∧ limit = num / (tnum - 2)) →
  ∃ r, is_prime_loop fuel num tnum limit = Some r ∧ (r ≠ 0 ↔ Z.prime num).
Proof.
  revert tnum limit. induction fuel as [|fuel IH];
    intros tnum limit Hn Hodd Hto Ht Hl Hf Hno Hlim; cbn [is_prime_loop];
    (destruct (Z.ltb_spec tnum limit) as [Hlt|Hge]; cbn [negb];
      [|exists 1; split; [done|]; split; [intros _; by eapply loop_exit_prime|done]]); [lia|].
  destruct (Z.eqb_spec (Z.rem num tnum) 0) as [E|E].
  - exists 0. split; [done|]. split; [done|]. intros Hp. apply Z.rem_divide in E; [|lia].
    destruct (Z.divide_prime_r tnum num Hp E) as [?|[?|[?|?]]]; lia.
  - rewrite Z.quot_div_nonneg by lia.
    apply IH; [done|done| |lia| |lia| |right; split; [lia|f_equal; lia]].
    + rewrite Z.odd_add, Hto. done.
    + apply Z.div_le_upper_bound; [lia|nia].
    + apply no_factor_step; [done..|]. intros Hd. apply E. by apply Z.rem_divide; [lia|].
Qed.

Lemma ast_is_prime_spec num : 3 <= num → ∃ r, ast_is_prime num = Some r ∧ (r ≠ 0 ↔ Z.prime num).
Proof.
  intros Hn. unfold ast_is_prime. change 0x1 with (Z.ones 1).
  rewrite Z.land_ones by lia. change (2 ^ 1) with 2. rewrite Zmod_odd.
  destruct (Z.odd num) eqn:Hodd; simpl.
  - apply is_prime_loop_spec; [done|done|done|lia|lia|lia| |by left].
    intros d Hd Hdiv. assert (d = 2) as -> by lia. destruct Hdiv as [k ->].
    by rewrite Z.odd_mul, andb_false_r in Hodd.
  - exists 0. split; [done|]. split; [done|]. intros Hp.
    assert ((2 | num)) as Hdiv. { rewrite <- Z.negb_even in Hodd. apply negb_false_iff in Hodd.
      apply Z.even_spec in Hodd as [k ->]. exists k. lia. }
    destruct (Z.divide_prime_r 2 num Hp Hdiv) as [?|[?|[?|?]]]; lia.
Qed.

(** There is always a larger prime: a prime factor of [n! + 1]. *)
Lemma prime_factor n : 1 < n → ∃ p, Z.prime p ∧ (p | n).
Proof.
  induction n as [n IH] using (well_founded_induction (Z.lt_wf 1)). intros Hn.
  destruct (prime_or_factor n Hn) as [|(d&Hd&Hdiv)]; [by exists n; split; [|exists 1; lia]|].
  destruct (IH d) as (p&Hp'&Hpd); [lia|lia|]. exists p. split; [done|]. by etrans.
Qed.

Lemma divides_fact d n : 1 <= d <= Z.of_nat n → (d | Z.of_nat (fact n)).
Proof.
  induction n as [|n IH]; intros Hd; [lia|]. change (fact (S n)) with (S n * fact n)%nat.
  rewrite Nat2Z.inj_mul. destruct (decide (d = Z.of_nat (S n))) as [->|].
  - by apply Z.divide_mul_l.
  - apply Z.divide_mul_r, IH. lia.
Qed.

Lemma prime_above_bound n : 2 < n → ∃ p, n <= p <= Z.of_nat (fact (Z.to_nat n)) + 1 ∧ Z.prime p.
Proof.
  intros Hn.
  assert (1 < Z.of_nat (fact (Z.to_nat n)) + 1) as H1 by (pose proof (lt_O_fact (Z.to_nat n)); lia).
  destruct (prime_factor _ H1) as (p&Hp&Hdiv). exists p. split; [|done].
  pose proof (Z.prime_ge_2 p Hp). split; [|apply Z.divide_pos_le; [lia|done]].
  destruct (Z.lt_ge_cases p n) as [Hlt|]; [|done]. exfalso.
  pose proof (divides_fact p (Z.to_nat n)) as Hd.
  assert ((p | 1)) as H0. { eapply Z.divide_add_cancel_r; [apply Hd; lia|exact Hdiv]. }
  apply Z.divide_1_r_nonneg in H0; lia.
Qed.

Lemma prime_above n : ∃ p, n <= p ∧ Z.prime p.
Proof.
  destruct (decide (n <= 2)); [by exists 2; split; [|apply Z.prime_2]|].
  destruct (prime_above_bound n) as (p&?&?); [lia|]. exists p. split; [lia|done].
Qed.

(** The search stops at the first prime. *)
Lemma next_prime_spec i : 3 <= i →
  ∃ fuel p, next_prime fuel i = Some p ∧ i <= p ∧ Z.prime p ∧ ∀ q, i <= q < p → ¬ Z.prime q.
Proof.
  destruct (prime_above i) as (p0&Hle&Hp0). remember (Z.to_nat (p0 - i)) as n eqn:En.
  revert i Hle En. induction n as [|n IH]; intros i Hle En Hi;
    destruct (ast_is_prime_spec i Hi) as (r&E&Hr).
  - exists 1%nat, i. simpl. rewrite E. simpl. assert (i = p0) as -> by lia.
    destruct (Z.eqb_spec r 0); [tauto|]. split_and!; [done|lia|done|lia].
  - destruct (decide (r = 0)) as [Hr0|Hr0].
    + destruct (IH (i + 1)) as (fuel&p&Ep&?&?&Hmin); [|lia|lia|].
      { destruct (decide (i = p0)) as [->|]; [lia|lia]. }
      exists (S fuel), p. simpl. rewrite E. simpl. rewrite (proj2 (Z.eqb_eq r 0)) by done.
      split_and!; [done|lia|done|]. intros q Hq. destruct (decide (q = i)) as [->|]; [tauto|].
      apply Hmin. lia.
    + exists 1%nat, i. simpl. rewrite E. simpl. rewrite (proj2 (Z.eqb_neq r 0)) by done.
      split_and!; [done|lia|tauto|lia].
Qed.

(** With this much fuel the search for the next size of a table ends. *)
Definition java_size (size : Z) : option Z :=
  ast_hashtab_newsize_java (3 + fact (Z.to_nat (2 * size))) size.

Lemma next_prime_enough fuel i p : 3 <= i <= p → Z.prime p → p - i < Z.of_nat fuel →
  ∃ q, next_prime fuel i = Some q ∧ i <= q.
Proof.
  revert i. induction fuel as [|fuel IH]; intros i Hi Hp Hf; [lia|]. cbn [next_prime].
  destruct (ast_is_prime_spec i) as (r&->&Hr); [lia|]. cbn [mbind option_bind].
  destruct (Z.eqb_spec r 0) as [->|]; [|by exists i].
  destruct (decide (i = p)) as [->|]; [tauto|].
  destruct (IH (i + 1)) as (q&->&?); [lia|done|lia|]. exists q. split; [done|lia].
Qed.

Lemma java_size_ok : Refine.newsize_ok java_size.
Proof.
  intros n Hn. unfold java_size, ast_hashtab_newsize_java. rewrite Z.shiftl_mul_pow2 by lia.
  replace (n * 2 ^ 1) with (2 * n) by lia.
  destruct (decide (n = 1)) as [->|]; [exists 3; by split|].
  destruct (prime_above_bound (2 * n)) as (p&Hp&Hpr); [lia|].
  destruct (next_prime_enough (3 + fact (Z.to_nat (2 * n))) (2 * n) p) as (q&->&?); [lia|done|lia|].
  exists q. split; [done|lia].
Qed.

End Primes.

(** ** Priorities as keys *)
#[export] Instance compare_ints_laws : HashLaws ast_hashtab_compare_ints ast_hashtab_hash_int.
Proof.
  assert (∀ a b, ast_hashtab_compare_ints a b = 0 ↔ a = b) as H.
  { intros a b. unfold ast_hashtab_compare_ints. destruct (Z.ltb_spec a b), (Z.eqb_spec a b); simpl; lia. }
  split; intros *; rewrite ?H; congruence.
Qed.

Module Properties.

Import Refine Primes.

(** C11: a hash table made with a comparison that is an equivalence of keys and
    a hash that respects it implements a finite set with one object per key:
    whatever the sequence of safe insertions, lookups and removals, and
    whenever the table resizes, every operation returns what the set says and
    the objects of the table are those of the set, in the order a traversal
    yields them. *)
Theorem ast_hashtab_refines_set {A} `{EqDecision A} (cmp : A → A → Z) (hash : A → Z)
    `{!HashLaws cmp hash} fuel n rs ns tab ops :
  newsize_ok ns → 0 < n → _ast_hashtab_create fuel n cmp rs ns hash = Some tab →
  ∃ tab', run ops tab = Some ((Spec.run cmp ops []).1, tab')
    ∧ object <$> ast_hashtab_start_traversal tab' = (Spec.run cmp ops []).2
    ∧ ast_hashtab_size tab' = Z.of_nat (length (Spec.run cmp ops []).2)
    ∧ Spec.keyed cmp (object <$> ast_hashtab_start_traversal tab').
Proof.
  intros Hns Hn E. destruct (table_create_inv fuel n cmp rs ns hash tab Hns Hn E) as [Hinv Ho].
  destruct (table_run_refines cmp hash ops tab Hinv) as (tab'&Er&Ho'&Hinv'). rewrite Ho in *.
  destruct Hinv' as (Hwf&Hk&_). exists tab'. unfold ast_hashtab_start_traversal, ast_hashtab_size.
  fold (objects tab'). split_and!; [done|done| |done].
  rewrite (wf_elements _ Hwf), <- Ho'. unfold objects. by rewrite length_fmap.
Qed.

Lemma ast_hashtab_refines_set_witness :
  let ops := [Spec.Insert 5; Spec.Insert 18; Spec.Insert 5; Spec.Remove 18; Spec.Lookup 18] in
  ∃ tab', run ops (Hashtab (Some (replicate 5 [])) [] ast_hashtab_compare_ints ast_hashtab_newsize_none
               ast_hashtab_resize_tight ast_hashtab_hash_int 5 0 0 0 0) =
            Some ((Spec.run ast_hashtab_compare_ints ops []).1, tab')
    ∧ object <$> ast_hashtab_start_traversal tab' = (Spec.run ast_hashtab_compare_ints ops []).2
    ∧ ast_hashtab_size tab' = Z.of_nat (length (Spec.run ast_hashtab_compare_ints ops []).2)
    ∧ Spec.keyed ast_hashtab_compare_ints (object <$> ast_hashtab_start_traversal tab').
Proof.
  intros ops.
  apply (ast_hashtab_refines_set ast_hashtab_compare_ints ast_hashtab_hash_int 5 4
           ast_hashtab_resize_tight ast_hashtab_newsize_none _ ops).
  - intros n Hn. exists n. split; [reflexivity|exact Hn].
  - lia.
  - reflexivity.
Defined.

(** The size a growing table takes is found: the search of
    [ast_hashtab_newsize_java] from twice the old size ends, at the first prime
    from there on. *)
Theorem ast_hashtab_newsize_java_prime size : 2 <= size →
  ∃ fuel p, ast_hashtab_newsize_java fuel size = Some p ∧ 2 * size <= p ∧ Z.prime p
            ∧ ∀ q, 2 * size <= q < p → ¬ Z.prime q.
Proof.
  intros Hs. unfold ast_hashtab_newsize_java. rewrite Z.shiftl_mul_pow2 by lia.
  replace (size * 2 ^ 1) with (2 * size) by lia. apply next_prime_spec. lia.
Qed.

Lemma ast_hashtab_newsize_java_prime_witness :
  ∃ fuel p, ast_hashtab_newsize_java fuel 13 = Some p ∧ 2 * 13 <= p ∧ Z.prime p
            ∧ ∀ q, 2 * 13 <= q < p → ¬ Z.prime q.
Proof. apply (ast_hashtab_newsize_java_prime 13). lia. Defined.

(** The size a table of 13 slots grows to. *)
Example newsize_13 : ast_hashtab_newsize_java 10 13 = Some 29.
Proof. reflexivity. Qed.

(** When the array of a resize cannot be allocated the table is left without
    one, and the next lookup reads through a NULL pointer. *)
Example failed_resize_breaks_table :
  let tab := Hashtab (Some [[]]) [] ast_hashtab_compare_ints ast_hashtab_newsize_none
               ast_hashtab_resize_java ast_hashtab_hash_int 1 0 0 0 0 in
  ∃ tab', _ast_hashtab_insert_safe (true, false) tab 7 = Some (1, tab')
          ∧ ast_hashtab_lookup tab' 7 = None.
Proof. eexists. split; reflexivity. Qed.

End Properties.
