(* ===== verification/PatternTree.v ===== *)
(** * The extension trie ([main/pbx.c])

    With [extenpatternmatchnew] a context searches its extensions in a trie:
    a node is one character or set of characters of a pattern, its
    alternatives are sorted by specificity, the extension hangs at the node of
    its last character.

    - [Model]: the functions of the source.  The [alt_char] chain of a node is
      a list, so a tree is a list of nodes, and the tree of a context without
      one is empty.  [None] is a call that does not return or reads outside a
      string.
    - [Paths]: where an extension hangs, and the strings its nodes take.
    - [Sorted]: the alternatives stay sorted.
    - [Search]: what the search reports hangs at a path that takes the string.
    - [Total]: the tree of any set of extensions is built, for extensions
      without the character 255.
    - [Properties]: the theorems. *)

From stdpp Require Import base numbers list sets strings sorting.
From Stdlib Require Import ZArith Lia.
From S2P Require Import Prelude Pattern.
Import Pattern.Model.

(** ** Extensions *)

Definition AST_EXT_MATCHCID_OFF : Z := 0.
Definition AST_EXT_MATCHCID_ON : Z := 1.
Definition AST_EXT_MATCHCID_ANY : Z := 2.

(** [addr] is the address of the structure: two pointers are equal when their
    addresses are; [datad] tells whether a destructor of [data] is set.  The links [next] and [peer] and the two hash tables are kept
    by the context. *)
Record ast_exten := Exten {
  addr : nat;
  exten : cstring;
  name : cstring;
  matchcid : Z;
  cidmatch : cstring;
  cidmatch_display : cstring;
  priority : Z;
  label : option cstring;
  app : cstring;
  data : Z;
  datad : bool;
  registrar : cstring;
  registrar_file : option cstring;
  registrar_line : Z;
}.

#[export] Instance ast_exten_eq_dec : EqDecision ast_exten.
Proof. solve_decision. Defined.

Module Model.

Abbreviation BACKSLASH := 92.

(** [alt_char] is the list the node is in, [next_char] the list under it. *)
#[warnings="-register-all"]
Inductive match_char := MatchChar {
  is_pattern : bool;
  deleted : bool;
  specificity : Z;
  next_char : list match_char;
  node_exten : option ast_exten;
  x : cstring;
}.

Record scoreboard := Scoreboard {
  total_specificity : Z;
  total_length : Z;
  last_char : Z;
  canmatch : bool;
  node : option match_char;
  canmatch_exten : option ast_exten;
  score_exten : option ast_exten;
}.

Definition no_score : scoreboard := Scoreboard 0 0 0 false None None None.

Definition update_scoreboard (board : scoreboard) (length spec : Z) (e : option ast_exten) (last : Z)
    (del : bool) (n : match_char) : scoreboard :=
  if del then board
  else Scoreboard spec length last (canmatch board) (Some n) (canmatch_exten board) e.

(** The end of the rope: the first extension along the first children. *)
Fixpoint get_canmatch_exten (n : match_char) : option ast_exten :=
  match node_exten n with
  | Some e => Some e
  | None => match next_char n with m :: _ => get_canmatch_exten m | [] => None end
  end.

(** The last loop of the source runs over the alternatives but calls itself on
    the first one every time. *)
Fixpoint trie_find_next_match (n : match_char) : option ast_exten :=
  if bool_decide (x n = [DOT]) || bool_decide (x n = [BANG]) then node_exten n else
  match next_char n with
  | [] => None
  | m3 :: alts =>
      match node_exten m3 with
      | Some e => Some e
      | None =>
          match omap node_exten alts with
          | e :: _ => Some e
          | [] => trie_find_next_match m3
          end
      end
  end.

(** [candidate_exten_advance]: past one character and the dashes after it.
    There is nothing past the terminator. *)
Definition candidate_exten_advance (str : cstring) : option cstring :=
  match str with
  | [] => None
  | _ :: str => Some (skip_dashes str)
  end.

(** [strchr(x, c)] as a test; the terminator is found too. *)
Definition in_x (c : Z) (s : cstring) : bool := (c =? 0) || bool_decide (c ∈ s).

(** The characters up to a slash or the end, and what follows. *)
Fixpoint span_slash (str : cstring) : Z * cstring :=
  match str with
  | c :: str' => if c =? SLASH then (0, str) else let r := span_slash str' in (r.1 + 1, r.2)
  | [] => (0, [])
  end.

(** The walk over the alternatives, stopped by a node that returns. *)
Definition search_alts (at_node : match_char → scoreboard → option (scoreboard * bool)) :=
  fix alts (ps : list match_char) (score : scoreboard) : option scoreboard :=
    match ps with
    | [] => Some score
    | q :: ps =>
        '(score, ret) ← at_node q score;
        if (ret : bool) then Some score else alts ps score
    end.

Section Search.
(** Whether the label looked for is in the [peer_label_table] of an extension. *)
Context (has_label : ast_exten → option bool).
Context (callerid : option cstring) (action : Z).

Definition digging : bool := (action =? E_CANMATCH) || (action =? E_MATCHMORE).

Definition has_next (p : match_char) : bool := match next_char p with [] => false | _ => true end.

(** [p->next_char] is the one character [c]; it begins with [c]. *)
Definition next_is (p : match_char) (c : Z) : bool :=
  match next_char p with m :: _ => bool_decide (x m = [c]) | [] => false end.
Definition next_starts (p : match_char) (c : Z) : bool :=
  match next_char p with m :: _ => deref (x m) =? c | [] => false end.

(** The scoreboard after a step, and whether the search returns. *)
Definition NEW_MATCHER_CHK_MATCH (p : match_char) (str : cstring) (length spec : Z) (score : scoreboard)
    : option (scoreboard * bool) :=
  if negb (bool_decide (is_Some (node_exten p))) then Some (score, false) else
  rest ← candidate_exten_advance str;
  if (deref rest =? 0) && ((action =? E_MATCH) || (action =? E_SPAWN) || (action =? E_FINDLABEL))
  then
    let score := update_scoreboard score (length + 1) (spec + specificity p) (node_exten p) 0 (deleted p) p in
    if deleted p then Some (score, false)
    else if action =? E_FINDLABEL
    then (e ← score_exten score; found ← has_label e; Some (score, found))
    else Some (score, true)
  else Some (score, false).

(** [subtree] searches [p->next_char]. *)
Definition NEW_MATCHER_RECURSE (subtree : cstring → Z → Z → scoreboard → option scoreboard)
    (p : match_char) (str : cstring) (length spec : Z) (score : scoreboard) : option (scoreboard * bool) :=
  if negb (has_next p || (action =? E_CANMATCH)) then Some (score, false) else
  rest ← candidate_exten_advance str;
  let more := negb (deref rest =? 0) in
  if has_next p && (more || next_is p SLASH || next_starts p BANG) then
    if more || next_starts p BANG then
      score ← subtree rest (length + 1) (spec + specificity p) score;
      Some (score, bool_decide (is_Some (score_exten score)))
    else
      score ← subtree [SLASH] (length + 1) (spec + specificity p) score;
      Some (score, bool_decide (is_Some (score_exten score)) || digging && canmatch score)
  else if negb more then
    let score := Scoreboard (total_specificity score) (total_length score) (last_char score) true
                   (node score) (get_canmatch_exten p) (score_exten score) in
    Some (score, digging)
  else Some (score, false).

Definition matched (subtree : cstring → Z → Z → scoreboard → option scoreboard)
    (p : match_char) (str : cstring) (length spec : Z) (score : scoreboard) : option (scoreboard * bool) :=
  '(score, ret) ← NEW_MATCHER_CHK_MATCH p str length spec score;
  if (ret : bool) then Some (score, true) else NEW_MATCHER_RECURSE subtree p str length spec score.

(** The search below a wildcard or a slash, and the test that follows it. *)
Definition below (subtree : cstring → Z → Z → scoreboard → option scoreboard)
    (go : bool) (str : cstring) (length spec : Z) (score : scoreboard) : option (scoreboard * bool) :=
  if go then
    score ← subtree str length spec score;
    Some (score, bool_decide (is_Some (score_exten score)) || digging && canmatch score)
  else Some (score, false).

(** The cases of [.] and [!]: [len] is the length scored, [i] the number of
    characters taken. *)
Definition wildcard (subtree : cstring → Z → Z → scoreboard → option scoreboard)
    (p : match_char) (last len i : Z) (str2 : cstring) (length spec : Z) (score : scoreboard)
    : option (scoreboard * bool) :=
  let here := bool_decide (is_Some (node_exten p)) && negb (deref str2 =? SLASH) in
  let score := if here
               then update_scoreboard score len (spec + i * specificity p) (node_exten p) last (deleted p) p
               else score in
  if here && bool_decide (is_Some (score_exten score)) then Some (score, true)
  else below subtree (next_is p SLASH) [SLASH] (length + i) (spec + specificity p * i) score.

(** The search at one node. *)
Fixpoint find_at_node (p : match_char) (str : cstring) (length spec : Z) (score : scoreboard)
    : option (scoreboard * bool) :=
  let subtree (str : cstring) (length spec : Z) (score : scoreboard) : option scoreboard :=
    search_alts (λ q score, find_at_node q str length spec score) (next_char p) score in
  let c := deref str in
  if is_pattern p then
    if deref (x p) =? 78 (* 'N' *) then
      if bool_decide (x p = [78]) && (50 <=? c) && (c <=? 57)
      then matched subtree p str length spec score else Some (score, false)
    else if deref (x p) =? 90 (* 'Z' *) then
      if bool_decide (x p = [90]) && (49 <=? c) && (c <=? 57)
      then matched subtree p str length spec score else Some (score, false)
    else if deref (x p) =? 88 (* 'X' *) then
      if bool_decide (x p = [88]) && (48 <=? c) && (c <=? 57)
      then matched subtree p str length spec score else Some (score, false)
    else if bool_decide (x p = [DOT]) then
      let '(i, str2) := span_slash str in
      wildcard subtree p DOT (length + i) i str2 length spec score
    else if bool_decide (x p = [BANG]) then
      let '(i, str2) := span_slash str in
      wildcard subtree p BANG (length + 1) (i + 1) str2 length spec score
    else if bool_decide (x p = [SLASH]) then
      below subtree (has_next p && negb (bool_decide (default [] callerid = [])))
            (default [] callerid) (length + 1) spec score
    else if in_x c (x p) then matched subtree p str length spec score
    else Some (score, false)
  else if in_x c (x p) then matched subtree p str length spec score
  else Some (score, false).

Definition new_find_extension (str : cstring) (score : scoreboard) (tree : list match_char) (length spec : Z)
    : option scoreboard :=
  search_alts (λ q score, find_at_node q str length spec score) tree score.

End Search.

(** *** Building the tree *)

Definition already_in_tree (current : list match_char) (pat : cstring) (pattern : bool) : option nat :=
  fst <$> list_find (λ t, pattern = is_pattern t ∧ pat = x t) current.

Fixpoint insert_in_next_chars_alt_char_list (parent : list match_char) (n : match_char) : list match_char :=
  match parent with
  | [] => [n]
  | c :: parent =>
      if specificity c >? specificity n then n :: c :: parent
      else c :: insert_in_next_chars_alt_char_list parent n
  end.

Record pattern_node := PatternNode { specif : Z; buf : cstring }.

Definition node_specificity (pattern : pattern_node) (is_pat : bool) : Z :=
  if (specif pattern =? 1) && is_pat then
    let c := deref (buf pattern) in
    if c =? 78 then 0x0832 else if c =? 90 then 0x0931 else if c =? 88 then 0x0a30
    else if c =? DOT then 0x18000 else if c =? BANG then 0x28000 else specif pattern
  else specif pattern.

(** The node [add_pattern_node] makes. *)
Definition add_pattern_node (pattern : pattern_node) (is_pat : bool) : match_char :=
  MatchChar is_pat false (node_specificity pattern is_pat) [] None (buf pattern).

(** [while (++first <= last)] over [unsigned char]s, stored as [char]s. *)
Fixpoint expand_range (fuel : nat) (first last : Z) : option (list Z) :=
  let first := u8 (first + 1) in
  if negb (first <=? last) then Some [] else
  match fuel with
  | O => None
  | S fuel => rest ← expand_range fuel first last; Some (swrap 8 first :: rest)
  end.

(** The characters of a set, [prev] being the source character before [src]
    and [out] those written so far; then what follows the set. *)
Fixpoint set_chars (fuel : nat) (prev : Z) (src : cstring) (out : cstring) : option (cstring * cstring) :=
  match fuel with
  | O => None
  | S fuel =>
      match src with
      | [] => Some (out, [])
      | c :: src1 =>
          if c =? BACKSLASH then
            match src1 with
            | d :: src2 =>
                if (d =? LBRACKET) || (d =? BACKSLASH) || (d =? DASH) || (d =? RBRACKET)
                then set_chars fuel d src2 (out ++ [d])
                else set_chars fuel c src1 out
            | [] => set_chars fuel c src1 out
            end
          else if c =? DASH then
            let src_next := if deref src1 =? BACKSLASH then tail src1 else src1 in
            let last := u8 (deref src_next) in
            if negb (deref out =? 0) && negb (last =? 0) then
              chars ← expand_range 256 (u8 prev) last;
              set_chars fuel (deref src_next) (tail src_next) (out ++ chars)
            else set_chars fuel c src1 (out ++ [c])
          else if c =? RBRACKET then Some (out, src1)
          else set_chars fuel c src1 (out ++ [c])
      end
  end.

Fixpoint insert_char (c : Z) (l : cstring) : cstring :=
  match l with
  | [] => [c]
  | d :: l => if u8 c <=? u8 d then c :: d :: l else d :: insert_char c l
  end.

(** [qsort] with [compare_char], and the removal of the duplicates. *)
Definition sort_chars (l : cstring) : cstring := foldr insert_char [] l.

Fixpoint dedup_chars (l : cstring) : cstring :=
  match l with
  | c :: l' => match l' with
               | d :: _ => if c =? d then dedup_chars l' else c :: dedup_chars l'
               | [] => [c]
               end
  | [] => []
  end.

(** The string in a buffer: what is before the first NUL. *)
Fixpoint c_prefix (l : cstring) : cstring :=
  match l with
  | c :: l => if c =? 0 then [] else c :: c_prefix l
  | [] => []
  end.

Definition canonical (c : Z) : Z :=
  if c =? 110 then 78 else if c =? 120 then 88 else if c =? 122 then 90 else c.

(** The next node and the rest of the source; the node is empty at the end.
    The buffer holds 255 characters. *)
Fixpoint get_pattern_node (fuel : nat) (src : cstring) (pattern : bool) : option (pattern_node * cstring) :=
  match fuel with
  | O => None
  | S fuel =>
      match src with
      | [] => Some (PatternNode 0 [], [])
      | c :: src1 =>
          if (c =? LBRACKET) && pattern then
            '(out, src) ← set_chars (S (length src1)) c src1 [];
            if 256 <=? Z.of_nat (length out) then get_pattern_node fuel src pattern
            else match c_prefix out with
                 | [] => get_pattern_node fuel src pattern
                 | chars =>
                     let chars := dedup_chars (sort_chars chars) in
                     Some (PatternNode (Z.lor (Z.shiftl (Z.of_nat (length chars)) 8) (u8 (deref chars))) chars, src)
                 end
          else if c =? DASH then get_pattern_node fuel src1 pattern
          else if c =? BACKSLASH then
            match src1 with
            | [] => Some (PatternNode 0 [], [])
            | d :: src2 => Some (PatternNode 1 [d], src2)
            end
          else Some (PatternNode 1 [if pattern then canonical c else c], src1)
      end
  end.

(** The nodes of an extension, up to the first empty one. *)
Fixpoint pattern_nodes (fuel : nat) (src : cstring) (pattern : bool) : option (list pattern_node) :=
  match fuel with
  | O => None
  | S fuel =>
      '(n, src) ← get_pattern_node (S (length src)) src pattern;
      match buf n with
      | [] => Some []
      | _ => rest ← pattern_nodes fuel src pattern; Some (n :: rest)
      end
  end.

Definition MAX_EXTENBUF_SIZE : Z := 512.

(** The text a trie stores an extension under; [None] when it is too big. *)
Definition extenbuf (e1 : ast_exten) : option cstring :=
  let text := if negb (matchcid e1 =? 0) then exten e1 ++ SLASH :: cidmatch e1 else exten e1 in
  let required_space := if negb (matchcid e1 =? 0)
                        then Z.of_nat (length (exten e1)) + 1 + (Z.of_nat (length (cidmatch e1)) + 2)
                        else Z.of_nat (length (exten e1)) + 1 in
  if required_space >? MAX_EXTENBUF_SIZE then None else Some text.

Definition exten_nodes (e1 : ast_exten) : option (bool * list pattern_node) :=
  text ← extenbuf e1;
  let pattern := deref text =? UNDERSCORE in
  let src := if pattern then tail text else text in
  nodes ← pattern_nodes (S (length src)) src pattern;
  Some (pattern, nodes).

(** The chain of new nodes for what is not in the tree yet. *)
Fixpoint new_chain (pat : bool) (n : pattern_node) (ns : list pattern_node) (e1 : ast_exten) : match_char :=
  let m := add_pattern_node n pat in
  match ns with
  | [] => MatchChar (is_pattern m) false (specificity m) [] (Some e1) (x m)
  | n' :: ns => MatchChar (is_pattern m) (deleted m) (specificity m) [new_chain pat n' ns e1] (node_exten m) (x m)
  end.

Definition set_node_exten (d : bool) (e : option ast_exten) (m : match_char) : match_char :=
  MatchChar (is_pattern m) d (specificity m) (next_char m) e (x m).

Definition set_next_char (next : list match_char) (m : match_char) : match_char :=
  MatchChar (is_pattern m) (deleted m) (specificity m) next (node_exten m) (x m).

(** The walk down the tree that adds what is missing. *)
Fixpoint add_nodes (tree : list match_char) (pat : bool) (ns : list pattern_node) (e1 : ast_exten)
    : list match_char :=
  match ns with
  | [] => tree
  | n :: ns' =>
      match already_in_tree tree (buf n) pat with
      | Some i =>
          alter (λ m2, match ns' with
                       | [] => set_node_exten false (Some e1) m2
                       | _ => set_next_char (add_nodes (next_char m2) pat ns' e1) m2
                       end) i tree
      | None => insert_in_next_chars_alt_char_list tree (new_chain pat n ns' e1)
      end
  end.

(** With [findonly] the walk returns a node, here the path to it: the node of
    the last character, or where the walk leaves the tree. *)
Fixpoint find_nodes (tree : list match_char) (pat : bool) (ns : list pattern_node) : option (list nat) :=
  match ns with
  | [] => match tree with [] => None | _ => Some [0%nat] end
  | n :: ns' =>
      match already_in_tree tree (buf n) pat with
      | Some i =>
          match tree !! i with
          | Some m2 =>
              match next_char m2, ns' with
              | [], _ => Some [i]
              | _, [] => Some [i]
              | next, _ => cons i <$> find_nodes next pat ns'
              end
          | None => None
          end
      | None => match tree with [] => None | _ => Some [0%nat] end
      end
  end.

(** [add_exten_to_pattern_tree] with [findonly] 0: the tree after it.  An
    extension that is too big is left out. *)
Definition add_exten_to_pattern_tree (tree : list match_char) (e1 : ast_exten) : option (list match_char) :=
  match extenbuf e1 with
  | None => Some tree
  | Some _ => '(pat, ns) ← exten_nodes e1; Some (add_nodes tree pat ns e1)
  end.

(** With [findonly] 1: the node, [None] inside for NULL. *)
Definition find_exten_in_pattern_tree (tree : list match_char) (e1 : ast_exten) : option (option (list nat)) :=
  match extenbuf e1 with
  | None => Some None
  | Some _ => '(pat, ns) ← exten_nodes e1; Some (find_nodes tree pat ns)
  end.

(** Assigning through the node pointer. *)
Fixpoint alter_node (f : match_char → match_char) (path : list nat) (tree : list match_char) : list match_char :=
  match path with
  | [] => tree
  | [i] => alter f i tree
  | i :: path => alter (λ m, set_next_char (alter_node f path (next_char m)) m) i tree
  end.

Fixpoint lookup_node (path : list nat) (tree : list match_char) : option match_char :=
  match path with
  | [] => None
  | [i] => tree !! i
  | i :: path => tree !! i ≫= λ m, lookup_node path (next_char m)
  end.

(** [create_match_char_tree]: every extension of the root table, in the order
    of its traversal. *)
Definition create_match_char_tree (root_table : list ast_exten) : option (list match_char) :=
  foldl (λ tree e1, tree ← tree; add_exten_to_pattern_tree tree e1) (Some []) root_table.

End Model.

Import Model.

Definition plain_exten (a : nat) (e : cstring) (p : Z) : ast_exten :=
  Exten a e e 0 [] [] p None [] 0 false [] None 0.

Definition find (tree : list match_char) (str : cstring) (action : Z) : option scoreboard :=
  new_find_extension (λ _, Some false) None action str no_score tree 0 0.

(** Worked inputs: the example of the source, and the order of insertion
    deciding between an exact name and a pattern. *)
Example trie_example :
  (tree ← create_match_char_tree
     [plain_exten 1 (cstr "_NXXNXXXXXX") 1; plain_exten 2 (cstr "_307754XXXX") 1;
      plain_exten 3 (cstr "fax") 1; plain_exten 4 (cstr "_NXXXXXXXXX") 1];
   b ← find tree (cstr "3077549999") E_MATCH; Some (addr <$> score_exten b)) = Some (Some 2%nat).
Proof. vm_compute. reflexivity. Qed.

Example trie_exact_after_pattern :
  (tree ← create_match_char_tree [plain_exten 1 (cstr "_1X") 1; plain_exten 2 (cstr "12") 1];
   b ← find tree (cstr "12") E_MATCH; Some (addr <$> score_exten b)) = Some (Some 1%nat).
Proof. vm_compute. reflexivity. Qed.

Example trie_bang_missed :
  (tree ← create_match_char_tree [plain_exten 1 (cstr "_1!") 1; plain_exten 2 (cstr "_12") 1];
   b ← find tree (cstr "1") E_MATCH; Some (addr <$> score_exten b)) = Some None
  ∧ ast_extension_match (Some (cstr "_1!")) (Some (cstr "1")) = Some 2.
Proof. vm_compute. done. Qed.

Example trie_callerid_missed :
  let e := Exten 1 (cstr "100") (cstr "100") 1 (cstr "555") (cstr "555") 1 None [] 0 false [] None 0 in
  (tree ← create_match_char_tree [e];
   b ← new_find_extension (λ _, Some false) (Some (cstr "555")) E_MATCH (cstr "100") no_score tree 0 0;
   Some (addr <$> score_exten b)) = Some None
  ∧ Pattern.Model.matchcid (Some (cstr "555")) (Some (cstr "555")) = Some 1.
Proof. vm_compute. done. Qed.

(** ** Induction on trees *)
Section TreeInd.
Context (P : match_char → Prop).
Context (Hnode : ∀ m, Forall P (next_char m) → P m).

Fixpoint tree_ind (m : match_char) : P m :=
  Hnode m ((fix go (l : list match_char) : Forall P l :=
              match l with [] => Forall_nil_2 P | m :: l => Forall_cons_2 P m l (tree_ind m) (go l) end)
           (next_char m)).
End TreeInd.

(** ** Alternatives stay sorted *)
Module Sorted.

(** The alternatives of every node are in increasing specificity. *)
#[warnings="-register-all"]
Inductive sorted_tree : list match_char → Prop :=
| sorted_alts l :
    StronglySorted (λ a b, specificity a <= specificity b) l →
    Forall (λ m, sorted_tree (next_char m)) l → sorted_tree l.

Lemma sorted_tree_nil : sorted_tree [].
Proof. constructor; constructor. Qed.

Lemma insert_alt_sorted n l :
  StronglySorted (λ a b, specificity a <= specificity b) l →
  StronglySorted (λ a b, specificity a <= specificity b) (insert_in_next_chars_alt_char_list l n).
Proof.
  induction 1 as [|m l Hs IH Hm]; simpl; [by repeat constructor|].
  rewrite Z.gtb_ltb. destruct (Z.ltb_spec (specificity n) (specificity m)) as [Hlt|Hge].
  - constructor; [by constructor|]. constructor; [lia|].
    eapply Forall_impl; [exact Hm|]. simpl. lia.
  - constructor; [done|]. clear -Hm Hge. induction Hm as [|y l Hy Hm IH]; simpl; [by repeat constructor|].
    destruct (_ >? _); repeat constructor; done.
Qed.

Lemma elem_of_insert_alt n l m :
  m ∈ insert_in_next_chars_alt_char_list l n ↔ m = n ∨ m ∈ l.
Proof.
  induction l as [|y l IH]; simpl; [set_solver|]. destruct (_ >? _); set_solver.
Qed.

Lemma alter_sorted (f : match_char → match_char) (i : nat) (l : list match_char) :
  (∀ m, specificity (f m) = specificity m) →
  StronglySorted (λ a b, specificity a <= specificity b) l →
  StronglySorted (λ a b, specificity a <= specificity b) (alter f i l).
Proof.
  intros Hf Hs. revert i. induction Hs as [|m l Hs IH Hm]; intros [|i]; simpl; try by constructor.
  - constructor; [done|]. by rewrite Hf.
  - constructor; [apply IH|]. clear -Hf Hm. revert i.
    induction Hm as [|y l Hy Hm IH]; intros [|i]; simpl; constructor; rewrite ?Hf; done || apply IH.
Qed.

Lemma new_chain_sorted pat n ns e1 : sorted_tree (next_char (new_chain pat n ns e1)).
Proof.
  revert n. induction ns as [|n' ns IH]; intros n; simpl; [apply sorted_tree_nil|].
  constructor; [by repeat constructor|]. constructor; [apply IH|constructor].
Qed.

Lemma add_nodes_sorted tree pat ns e1 : sorted_tree tree → sorted_tree (add_nodes tree pat ns e1).
Proof.
  revert tree. induction ns as [|n ns IH]; intros tree Hs; cbn [add_nodes]; [done|].
  destruct Hs as [tree Hs Hf]. destruct (already_in_tree tree (buf n) pat) as [i|].
  - constructor; [apply alter_sorted; [by destruct ns|done]|].
    apply Forall_alter; [done|]. intros m _ Hm. destruct ns; [done|]. by apply IH.
  - constructor; [by apply insert_alt_sorted|]. apply Forall_forall. intros m Hm.
    apply elem_of_insert_alt in Hm as [->|Hm]; [apply new_chain_sorted|].
    rewrite Forall_forall in Hf. by apply Hf.
Qed.

End Sorted.

(** ** Where an extension hangs *)
Module Paths.

(** The digits a node takes. *)
Definition takes_char (pat : bool) (x : cstring) (c : Z) : bool :=
  if pat then
    if bool_decide (x = [78]) then (50 <=? c) && (c <=? 57)
    else if bool_decide (x = [90]) then (49 <=? c) && (c <=? 57)
    else if bool_decide (x = [88]) then (48 <=? c) && (c <=? 57)
    else bool_decide (c ∈ x)
  else bool_decide (c ∈ x).

Definition is_dot (pat : bool) (x : cstring) : bool := pat && bool_decide (x = [DOT]).

(** [hangs m w e]: the string [w] leads from the node [m] to the extension
    [e], digit by digit, or to a wildcard that takes the rest. *)
Inductive hangs : match_char → cstring → ast_exten → Prop :=
| hangs_dot m c w e :
    is_dot (is_pattern m) (x m) = true → node_exten m = Some e → hangs m (c :: w) e
| hangs_last m c e :
    is_dot (is_pattern m) (x m) = false → takes_char (is_pattern m) (x m) c = true →
    node_exten m = Some e → hangs m [c] e
| hangs_next m m' c w e :
    is_dot (is_pattern m) (x m) = false → takes_char (is_pattern m) (x m) c = true →
    m' ∈ next_char m → hangs m' w e → hangs m (c :: w) e.

Definition hangs_in (tree : list match_char) (w : cstring) (e : ast_exten) : Prop :=
  ∃ m, m ∈ tree ∧ hangs m w e.

(** The strings that the nodes of an extension take. *)
Inductive nodes_take (pat : bool) : list pattern_node → cstring → Prop :=
| take_dot n c w : is_dot pat (buf n) = true → nodes_take pat [n] (c :: w)
| take_last n c : is_dot pat (buf n) = false → takes_char pat (buf n) c = true → nodes_take pat [n] [c]
| take_next n n' ns c w :
    is_dot pat (buf n) = false → takes_char pat (buf n) c = true →
    nodes_take pat (n' :: ns) w → nodes_take pat (n :: n' :: ns) (c :: w).

Lemma hangs_nonempty m w e : hangs m w e → w ≠ [].
Proof. by destruct 1. Qed.

Lemma new_chain_hangs pat n ns e1 w e :
  hangs (new_chain pat n ns e1) w e ↔ e = e1 ∧ nodes_take pat (n :: ns) w.
Proof.
  revert n w. induction ns as [|n' ns IH]; intros n w; cbn [new_chain].
  - split.
    + inversion 1 as [? ? ? ? Hd He|? ? ? Hd Ht He|? m' ? ? ? Hd Ht Hin]; simplify_eq/=;
        [split; [done|by constructor]..|set_solver].
    + intros [-> Ht]. inversion Ht; subst; by constructor.
  - split.
    + inversion 1 as [? ? ? ? Hd He|? ? ? Hd Ht He|? m' ? ? ? Hd Ht Hin Hh]; simplify_eq/=.
      apply list_elem_of_singleton in Hin as ->. apply IH in Hh as [-> Hh].
      split; [done|]. by constructor.
    + intros [-> Ht]. inversion Ht; subst. eapply hangs_next; [done|done|apply list_elem_of_here|].
      by apply IH.
Qed.

Lemma already_in_tree_Some tree pat b i :
  already_in_tree tree b pat = Some i → ∃ m, tree !! i = Some m ∧ is_pattern m = pat ∧ x m = b.
Proof.
  unfold already_in_tree. rewrite fmap_Some. intros ([j m]&Hf&->).
  apply list_find_Some in Hf as (Hm&[-> ->]&_). by exists m.
Qed.

Lemma elem_of_alter (f : match_char → match_char) (i : nat) (l : list match_char) m m0 :
  l !! i = Some m0 → m ∈ alter f i l → m = f m0 ∨ m ∈ l.
Proof.
  intros Hi Hm. apply list_elem_of_lookup in Hm as [j Hj]. destruct (decide (i = j)) as [->|Hne].
  - rewrite list_lookup_alter_eq, Hi in Hj. left. by simplify_eq/=.
  - rewrite list_lookup_alter_ne in Hj by done. right. by eapply list_elem_of_lookup_2.
Qed.

Lemma elem_of_alter_2 (f : match_char → match_char) (i : nat) (l : list match_char) m m0 :
  l !! i = Some m0 → m ∈ l → m = m0 ∨ m ∈ alter f i l.
Proof.
  intros Hi Hm. apply list_elem_of_lookup in Hm as [j Hj]. destruct (decide (i = j)) as [->|Hne].
  - left. congruence.
  - right. eapply (list_elem_of_lookup_2 _ j). by rewrite list_lookup_alter_ne.
Qed.

Lemma elem_of_alter_eq (f : match_char → match_char) (i : nat) (l : list match_char) m0 :
  l !! i = Some m0 → f m0 ∈ alter f i l.
Proof. intros Hi. eapply (list_elem_of_lookup_2 _ i). by rewrite list_lookup_alter_eq, Hi. Qed.

(** What hangs in the tree after an extension is added. *)
Lemma add_nodes_sound tree pat ns e1 w e :
  hangs_in (add_nodes tree pat ns e1) w e → (e = e1 ∧ nodes_take pat ns w) ∨ hangs_in tree w e.
Proof.
  revert tree w. induction ns as [|n ns IH]; intros tree w; cbn [add_nodes]; [by right|].
  destruct (already_in_tree tree (buf n) pat) as [i|] eqn:E.
  - apply already_in_tree_Some in E as (m0&Hi&Hp&Hx). intros (m&Hm&Hh).
    apply (elem_of_alter _ _ _ _ _ Hi) in Hm as [->|Hm]; [|right; by exists m].
    assert (m0 ∈ tree) as Hm0 by (by eapply list_elem_of_lookup_2).
    destruct ns as [|n' ns].
    + inversion Hh as [? ? ? ? Hd He|? ? ? Hd Ht He|? m' ? ? ? Hd Ht Hin Hh']; simplify_eq/=.
      * left. split; [done|]. apply take_dot; congruence.
      * left. split; [done|]. apply take_last; congruence.
      * right. exists m0. split; [done|]. by eapply hangs_next.
    + inversion Hh as [? ? ? ? Hd He|? ? ? Hd Ht He|? m' ? ? ? Hd Ht Hin Hh']; simplify_eq/=.
      * right. exists m0. split; [done|]. by eapply hangs_dot.
      * right. exists m0. split; [done|]. by eapply hangs_last.
      * destruct (IH (next_char m0) w0) as [[-> Hn]|(m2&Hm2&Hh2)]; [by exists m'|..].
        -- left. split; [done|]. apply take_next; [congruence|congruence|done].
        -- right. exists m0. split; [done|]. by eapply hangs_next.
  - intros (m&Hm&Hh). apply Sorted.elem_of_insert_alt in Hm as [->|Hm]; [|right; by exists m].
    left. by apply new_chain_hangs.
Qed.

Lemma add_nodes_keeps tree pat ns e1 w e :
  hangs_in tree w e → ∃ e', hangs_in (add_nodes tree pat ns e1) w e'.
Proof.
  revert tree w. induction ns as [|n ns IH]; intros tree w Hh; cbn [add_nodes]; [eauto|].
  destruct Hh as (m&Hm&Hh).
  destruct (already_in_tree tree (buf n) pat) as [i|] eqn:E.
  - apply already_in_tree_Some in E as (m0&Hi&Hp&Hx).
    apply (elem_of_alter_2 (λ m2, match ns with
                       | [] => set_node_exten false (Some e1) m2
                       | _ => set_next_char (add_nodes (next_char m2) pat ns e1) m2
                       end) _ _ _ _ Hi) in Hm as [->|Hm]; [|exists e; by exists m].
    destruct ns as [|n' ns].
    + inversion Hh as [? ? ? ? Hd He|? ? ? Hd Ht He|? m' ? ? ? Hd Ht Hin Hh']; subst.
      * exists e1. eexists. split; [by eapply elem_of_alter_eq|]. by apply hangs_dot.
      * exists e1. eexists. split; [by eapply elem_of_alter_eq|]. by apply hangs_last.
      * exists e. eexists. split; [by eapply elem_of_alter_eq|]. by eapply hangs_next.
    + inversion Hh as [? ? ? ? Hd He|? ? ? Hd Ht He|? m' ? w' ? Hd Ht Hin Hh']; subst.
      * exists e. eexists. split; [by eapply elem_of_alter_eq|]. by apply hangs_dot.
      * exists e. eexists. split; [by eapply elem_of_alter_eq|]. by apply hangs_last.
      * destruct (IH (next_char m0) w') as (e'&m2&Hm2&Hh2); [by exists m'|].
        exists e'. eexists. split; [by eapply elem_of_alter_eq|]. by eapply hangs_next.
  - exists e, m. split; [|done]. apply Sorted.elem_of_insert_alt. by right.
Qed.

Lemma add_nodes_adds tree pat ns e1 w :
  nodes_take pat ns w → hangs_in (add_nodes tree pat ns e1) w e1.
Proof.
  revert tree w. induction ns as [|n ns IH]; intros tree w Ht; [inversion Ht|]. cbn [add_nodes].
  destruct (already_in_tree tree (buf n) pat) as [i|] eqn:E.
  - apply already_in_tree_Some in E as (m0&Hi&Hp&Hx). subst pat.
    eexists. split; [by eapply elem_of_alter_eq|].
    destruct ns as [|n' ns]; inversion Ht; subst.
    + apply hangs_dot; simpl; congruence.
    + apply hangs_last; simpl; congruence.
    + destruct (IH (next_char m0) w0) as (m2&Hm2&Hh2); [done|].
      eapply hangs_next; [| |exact Hm2|exact Hh2]; simpl; congruence.
  - exists (new_chain pat n ns e1). split; [apply Sorted.elem_of_insert_alt; by left|].
    by apply new_chain_hangs.
Qed.

(** *** Trees without caller ids, [!] and sets *)

(** A node made from a plain character; a wildcard has nothing under it. *)
Inductive plain_node : match_char → Prop :=
| plain_node_intro m c :
    x m = [c] → c ≠ 0 → c ≠ SLASH → c ≠ BANG → deleted m = false →
    (is_dot (is_pattern m) (x m) = true → next_char m = []) →
    (∀ m', m' ∈ next_char m → plain_node m') → plain_node m.

Definition plain_tree (tree : list match_char) : Prop := ∀ m, m ∈ tree → plain_node m.

Definition plain_nodes (pat : bool) (ns : list pattern_node) : Prop :=
  ∀ i n, ns !! i = Some n →
    (∃ c, buf n = [c] ∧ c ≠ 0 ∧ c ≠ SLASH ∧ c ≠ BANG)
    ∧ (is_dot pat (buf n) = true → S i = length ns).

Lemma plain_nodes_cons pat n ns : plain_nodes pat (n :: ns) → plain_nodes pat ns.
Proof.
  intros H i n' Hi. destruct (H (S i) n' Hi) as [? Hd]. split; [done|].
  intros Hdot. apply Hd in Hdot. simpl in Hdot. lia.
Qed.

Lemma plain_nodes_head pat n ns : plain_nodes pat (n :: ns) →
  (∃ c, buf n = [c] ∧ c ≠ 0 ∧ c ≠ SLASH ∧ c ≠ BANG) ∧ (is_dot pat (buf n) = true → ns = []).
Proof.
  intros H. destruct (H 0%nat n eq_refl) as [? Hd]. split; [done|].
  intros Hdot. apply Hd in Hdot. by destruct ns.
Qed.

Lemma new_chain_plain pat n ns e1 : plain_nodes pat (n :: ns) → plain_node (new_chain pat n ns e1).
Proof.
  revert n. induction ns as [|n' ns IH]; intros n Hp;
    destruct (plain_nodes_head pat n _ Hp) as [(c&Hc&?&?&?) Hd]; cbn [new_chain].
  - eapply (plain_node_intro _ c); simpl; try done. set_solver.
  - eapply (plain_node_intro _ c); simpl; try done; [intros Hdot; by apply Hd in Hdot|].
    intros m' Hm'. apply list_elem_of_singleton in Hm' as ->. apply IH. by eapply plain_nodes_cons.
Qed.

Lemma add_nodes_plain tree pat ns e1 :
  plain_nodes pat ns → plain_tree tree → plain_tree (add_nodes tree pat ns e1).
Proof.
  revert tree. induction ns as [|n ns IH]; intros tree Hn Ht; cbn [add_nodes]; [done|].
  destruct (plain_nodes_head pat n ns Hn) as [_ Hd].
  destruct (already_in_tree tree (buf n) pat) as [i|] eqn:E.
  - apply already_in_tree_Some in E as (m0&Hi&Hp&Hx). intros m Hm.
    apply (elem_of_alter _ _ _ _ _ Hi) in Hm as [->|Hm]; [|by apply Ht].
    assert (plain_node m0) as Hm0 by (apply Ht; by eapply list_elem_of_lookup_2).
    inversion Hm0 as [? c Hc ? ? ? Hdel Hdot Hnext]; subst.
    destruct ns as [|n' ns]; [by eapply (plain_node_intro _ c)|].
    eapply (plain_node_intro _ c); simpl; try done.
    + intros Hdot'. rewrite Hx in Hdot'. by apply Hd in Hdot'.
    + apply IH; [by eapply plain_nodes_cons|done].
  - intros m Hm. apply Sorted.elem_of_insert_alt in Hm as [->|Hm]; [by apply new_chain_plain|by apply Ht].
Qed.

End Paths.

(** ** What an exact search finds *)
Module Search.

Import Paths.

Section Exact.
Context (has_label : ast_exten → option bool) (callerid : option cstring).

Local Abbreviation at_node := (find_at_node has_label callerid E_MATCH).

Definition digits (str : cstring) : Prop := Forall (λ c, c ≠ 0 ∧ c ≠ DASH ∧ c ≠ SLASH) str.

(** The scoreboard holds an extension that hangs at the end of [w], if one
    does. *)
Definition scores (P : ast_exten → Prop) (score : scoreboard) : Prop :=
  (∀ e, score_exten score = Some e → P e) ∧ ((∃ e, P e) → is_Some (score_exten score)).

(** A search from an empty scoreboard. *)
Definition node_scores (p : match_char) (w : cstring) : Prop :=
  ∀ length spec score, score_exten score = None →
  ∃ score' ret, at_node p w length spec score = Some (score', ret)
    ∧ ret = bool_decide (is_Some (score_exten score')) ∧ scores (hangs p w) score'.

Lemma search_alts_scores tree w length spec score :
  (∀ p, p ∈ tree → node_scores p w) → score_exten score = None →
  ∃ score', search_alts (λ q score, at_node q w length spec score) tree score = Some score'
    ∧ scores (hangs_in tree w) score'.
Proof.
  intros Hn. revert score. induction tree as [|p tree IH]; intros score Hs; simpl.
  - exists score. split; [done|]. split; [intros e; congruence|]. intros (e&m&Hm&_). set_solver.
  - destruct (Hn p) with (length := length) (spec := spec) (score := score)
      as (score1&ret&->&->&Hs1&Hc1); [set_solver|done|]. cbn [mbind option_bind].
    destruct (score_exten score1) as [e1|] eqn:E1; simpl.
    + exists score1. split; [done|]. unfold scores. rewrite E1. split; [|by intros _; eexists].
      intros e [= <-]. exists p. split; [set_solver|]. by apply Hs1.
    + destruct (IH (λ p' Hp', Hn p' (list_elem_of_further _ _ _ Hp')) score1 E1) as (score2&->&Hs2&Hc2).
      exists score2. split; [done|]. split.
      * intros e He. destruct (Hs2 e He) as (m&?&?). exists m. split; [set_solver|done].
      * intros (e&m&Hm&Hh). apply elem_of_cons in Hm as [->|Hm].
        -- destruct Hc1 as [? ?]; [by exists e|done].
        -- apply Hc2. exists e, m. done.
Qed.

Lemma advance_digits c w : digits (c :: w) → candidate_exten_advance (c :: w) = Some w.
Proof.
  intros H. apply Forall_cons in H as [_ H]. simpl. f_equal. destruct w as [|d w]; [done|]. simpl.
  apply Forall_cons in H as [(_&Hd&_) _]. by destruct (Z.eqb_spec d DASH).
Qed.

Lemma deref_digits w : digits w → (deref w =? 0) = bool_decide (w = []).
Proof.
  destruct w as [|d w]; [done|]. intros H. apply Forall_cons in H as [(Hd&_) _].
  unfold deref. simpl. by destruct (Z.eqb_spec d 0).
Qed.

Lemma span_slash_digits w : digits w → (span_slash w).2 = [].
Proof.
  induction 1 as [|c w (_&_&Hc) Hw IH]; simpl; [done|]. by destruct (Z.eqb_spec c SLASH).
Qed.

(** A plain node has no slash and no [!] among its children. *)
Lemma plain_next p c :
  plain_node p → c = SLASH ∨ c = BANG → next_is p c = false ∧ next_starts p c = false.
Proof.
  intros Hp Hc. inversion Hp as [? ? ? ? ? ? ? ? Hn]; subst. unfold next_is, next_starts.
  destruct (next_char p) as [|m ms]; [done|].
  destruct (Hn m) as [m c' Hc' ? ? ? ? ? ?]; [apply list_elem_of_here|].
  rewrite Hc'. unfold deref; simpl. split; [apply bool_decide_eq_false|apply Z.eqb_neq]; naive_solver.
Qed.

(** A search of the children scores what hangs under them. *)
Definition subtree_scores (subtree : cstring → Z → Z → scoreboard → option scoreboard)
    (next : list match_char) : Prop :=
  ∀ w length spec score, digits w → w ≠ [] → score_exten score = None →
  ∃ score', subtree w length spec score = Some score' ∧ scores (hangs_in next w) score'.

Lemma hangs_digit p c w e :
  is_dot (is_pattern p) (x p) = false → takes_char (is_pattern p) (x p) c = true →
  hangs p (c :: w) e ↔ (w = [] ∧ node_exten p = Some e) ∨ hangs_in (next_char p) w e.
Proof.
  intros Hd Ht. split.
  - inversion 1; subst; [congruence|by left|]. right. by eexists.
  - intros [[-> ?]|(m&?&?)]; [by apply hangs_last|by eapply hangs_next].
Qed.

Lemma hangs_in_nil next e : ¬ hangs_in next [] e.
Proof. intros (m&_&Hh). by apply hangs_nonempty in Hh. Qed.

Lemma no_score_yet score : score_exten score = None → bool_decide (is_Some (score_exten score)) = false.
Proof. intros ->. by apply bool_decide_eq_false; intros [? ?]. Qed.

(** The children are searched when digits are left. *)
Lemma recurse_scores subtree p c w length spec score :
  plain_node p → digits (c :: w) → subtree_scores subtree (next_char p) → score_exten score = None →
  ∃ score' ret, NEW_MATCHER_RECURSE E_MATCH subtree p (c :: w) length spec score = Some (score', ret)
    ∧ ret = bool_decide (is_Some (score_exten score')) ∧ scores (hangs_in (next_char p) w) score'.
Proof.
  intros Hp Hw Hsub Hs. assert (digits w) as Hw' by (by apply Forall_cons in Hw as [_ ?]).
  unfold NEW_MATCHER_RECURSE. rewrite (advance_digits c w Hw).
  destruct (plain_next p SLASH Hp) as [-> _]; [by left|].
  destruct (plain_next p BANG Hp) as [_ ->]; [by right|].
  cbn [mbind option_bind]. rewrite (deref_digits w Hw'). unfold has_next.
  destruct (next_char p) as [|m ms] eqn:En; simpl.
  - exists score, false. rewrite no_score_yet by done. split_and!; [done|done|].
    split; [intros e; congruence|]. intros (e&m&Hm&_). set_solver.
  - destruct (bool_decide_reflect (w = [])) as [->|Hne]; simpl.
    + eexists _, _. split; [done|]. simpl. rewrite no_score_yet by done. split; [done|].
      split; simpl; [intros e; congruence|]. intros [e He]. by apply hangs_in_nil in He.
    + destruct (Hsub w (length + 1) (spec + specificity p) score Hw' Hne Hs) as (score'&->&Hsc).
      simpl. eexists _, _. split_and!; [done|done|]. exact Hsc.
Qed.

(** The node takes the digit. *)
Lemma matched_scores subtree p c w length spec score :
  plain_node p → digits (c :: w) → is_dot (is_pattern p) (x p) = false →
  takes_char (is_pattern p) (x p) c = true → subtree_scores subtree (next_char p) →
  score_exten score = None →
  ∃ score' ret, matched has_label E_MATCH subtree p (c :: w) length spec score = Some (score', ret)
    ∧ ret = bool_decide (is_Some (score_exten score')) ∧ scores (hangs p (c :: w)) score'.
Proof.
  intros Hp Hw Hdot Ht Hsub Hs.
  assert (digits w) as Hw' by (by apply Forall_cons in Hw as [_ ?]).
  assert (deleted p = false) as Hdel by (by inversion Hp).
  unfold matched, NEW_MATCHER_CHK_MATCH. rewrite (advance_digits c w Hw), Hdel.
  cbn [mbind option_bind]. rewrite (deref_digits w Hw').
  destruct (recurse_scores subtree p c w length spec score Hp Hw Hsub Hs) as (score'&ret&Er&Hret&Hs1&Hs2).
  destruct (node_exten p) as [e0|] eqn:Ee; [destruct (bool_decide_reflect (w = [])) as [->|Hne]|]; simpl.
  - eexists _, true. split_and!; [done|done|]. split; simpl; [|by intros _; eexists].
    intros e [= <-]. by apply hangs_last.
  - rewrite Er. eexists _, _. split_and!; [done|done|]. split.
    + intros e He. apply hangs_digit; [done..|]. right. by apply Hs1.
    + intros [e He]. apply hangs_digit in He as [[? _]|?]; [done| |done..]. apply Hs2. by exists e.
  - rewrite Er. eexists _, _. split_and!; [done|done|]. split.
    + intros e He. apply hangs_digit; [done..|]. right. by apply Hs1.
    + intros [e He]. apply hangs_digit in He as [[_ ?]|?]; [congruence| |done..]. apply Hs2. by exists e.
Qed.

Lemma not_hangs p c w :
  is_dot (is_pattern p) (x p) = false → takes_char (is_pattern p) (x p) c = false →
  ∀ score, score_exten score = None → scores (hangs p (c :: w)) score.
Proof.
  intros Hd Ht score Hs. split; [intros e; congruence|]. intros [e He]. inversion He; congruence.
Qed.

Lemma wildcard_scores subtree p c w len i length spec score :
  plain_node p → digits (c :: w) → is_dot (is_pattern p) (x p) = true → score_exten score = None →
  ∃ score' ret, wildcard E_MATCH subtree p DOT len i [] length spec score = Some (score', ret)
    ∧ ret = bool_decide (is_Some (score_exten score')) ∧ scores (hangs p (c :: w)) score'.
Proof.
  intros Hp Hw Hdot Hs. assert (deleted p = false) as Hdel by (by inversion Hp).
  unfold wildcard, below. rewrite Hdel. destruct (plain_next p SLASH Hp) as [-> _]; [by left|].
  change (deref []) with 0. destruct (node_exten p) as [e0|] eqn:Ee; simpl.
  - eexists _, true. split_and!; [done|done|]. split; simpl; [|by intros _; eexists].
    intros e [= <-]. by apply hangs_dot.
  - exists score, false. rewrite no_score_yet by done. split_and!; [done|done|].
    split; [intros e; congruence|]. intros [e He]. inversion He; congruence.
Qed.

Lemma single_eqb (d k : Z) : bool_decide ([d] = [k]) = (d =? k).
Proof. destruct (Z.eqb_spec d k) as [->|]; case_bool_decide; congruence. Qed.

(** How a node of one character reads the digit. *)
Lemma find_at_node_char p d c w length spec score :
  x p = [d] → d ≠ BANG → d ≠ SLASH → c ≠ 0 →
  at_node p (c :: w) length spec score =
  let subtree str length spec score := search_alts (λ q score, at_node q str length spec score) (next_char p) score in
  if is_dot (is_pattern p) (x p)
  then wildcard E_MATCH subtree p DOT (length + (span_slash (c :: w)).1) (span_slash (c :: w)).1
         (span_slash (c :: w)).2 length spec score
  else if takes_char (is_pattern p) (x p) c
  then matched has_label E_MATCH subtree p (c :: w) length spec score
  else Some (score, false).
Proof.
  intros Hx Hb Hs Hc. destruct p as [pat del spc next ext xx]. simpl in Hx. subst xx.
  cbn [find_at_node is_pattern x next_char]. unfold is_dot, takes_char, in_x, deref.
  cbn [head default from_option]. change (id c) with c. change (id d) with d.
  rewrite !single_eqb. destruct (Z.eqb_spec c 0); [done|]. cbn [orb].
  set (M := matched _ _ _ _ _ _ _ _). set (p := MatchChar _ _ _ _ _ _).
  destruct pat; cbn [andb]; [|done].
  destruct (Z.eqb_spec d 78) as [->|]; [done|]. destruct (Z.eqb_spec d 90) as [->|]; [done|].
  destruct (Z.eqb_spec d 88) as [->|]; [done|].
  destruct (Z.eqb_spec d DOT) as [->|]; [by destruct (span_slash (c :: w))|].
  destruct (Z.eqb_spec d BANG); [done|]. destruct (Z.eqb_spec d SLASH); [done|]. done.
Qed.

Lemma plain_node_scores p : plain_node p → ∀ w, digits w → w ≠ [] → node_scores p w.
Proof.
  induction p as [p IH] using tree_ind. intros Hp w Hw Hne length spec score Hs.
  rewrite Forall_forall in IH.
  inversion Hp as [? d Hx Hd0 Hds Hdb Hdel Hdot Hplain]; subst.
  destruct w as [|c w]; [done|]. assert (c ≠ 0) as Hc by (by apply Forall_cons in Hw as [[??] _]).
  rewrite (find_at_node_char p d) by done. cbv zeta.
  set (subtree := λ str length spec score, search_alts _ (next_char p) score).
  assert (subtree_scores subtree (next_char p)) as Hsub.
  { intros w' l sp sc Hw' Hne' Hsc. apply search_alts_scores; [|done].
    intros m Hm. apply IH; [done|by apply Hplain|done|done]. }
  destruct (is_dot (is_pattern p) (x p)) eqn:Ed.
  - rewrite (span_slash_digits (c :: w) Hw). by apply wildcard_scores.
  - destruct (takes_char (is_pattern p) (x p) c) eqn:Et; [by apply matched_scores|].
    exists score, false. rewrite no_score_yet by done. split_and!; [done|done|]. by apply not_hangs.
Qed.

(** The search of a plain tree. *)
Lemma new_find_extension_scores tree w :
  plain_tree tree → digits w → w ≠ [] →
  ∃ score, new_find_extension has_label callerid E_MATCH w no_score tree 0 0 = Some score
    ∧ scores (hangs_in tree w) score.
Proof.
  intros Ht Hw Hne. apply search_alts_scores; [|done].
  intros p Hp. apply plain_node_scores; [by apply Ht|done|done].
Qed.

End Exact.

End Search.

(** ** The trie and the linear matcher accept the same strings *)
Module Equivalence.

Import Pattern.Spec Pattern.Matching Paths Search.

(** Text without sets, escapes, caller id and [!]. *)
Definition simple_text (s : cstring) : Prop :=
  Forall (λ c, c ≠ 0 ∧ c ≠ LBRACKET ∧ c ≠ BACKSLASH ∧ c ≠ SLASH ∧ c ≠ BANG) s.

(** The wildcard is the last character. *)
Definition dot_last (u : cstring) : Prop := ∀ i, u !! i = Some DOT → S i = length u.

Definition simple_exten (e : ast_exten) : Prop :=
  matchcid e = AST_EXT_MATCHCID_OFF ∧ (length (exten e) < 512)%nat ∧ c_string (exten e)
  ∧ simple_text (exten e) ∧ (deref (exten e) = UNDERSCORE → dot_last (undash (tail (exten e)))).

Definition char_node (pat : bool) (c : Z) : pattern_node := PatternNode 1 [if pat then canonical c else c].

Lemma get_pattern_node_simple fuel src pat :
  (length src < fuel)%nat → simple_text src →
  get_pattern_node fuel src pat =
    Some (match skip_dashes src with
          | [] => (PatternNode 0 [], [])
          | c :: src => (char_node pat c, src)
          end).
Proof.
  revert src. induction fuel as [|fuel IH]; intros [|c src] Hl Hs; simpl in Hl; try lia; [done|].
  apply Forall_cons in Hs as [(Hc0&Hcl&Hcb&Hcs&Hcx) Hs]. cbn [get_pattern_node skip_dashes].
  destruct (Z.eqb_spec c LBRACKET); [done|]. cbn [andb].
  destruct (Z.eqb_spec c DASH) as [->|]; [apply IH; [lia|done]|].
  destruct (Z.eqb_spec c BACKSLASH); done.
Qed.

Lemma canonical_nonzero c : c ≠ 0 → canonical c ≠ 0.
Proof. intros. unfold canonical. repeat case_match; done. Qed.

Lemma pattern_nodes_simple fuel src pat :
  (length src < fuel)%nat → simple_text src →
  pattern_nodes fuel src pat = Some (char_node pat <$> undash src).
Proof.
  revert src. induction fuel as [|fuel IH]; intros src Hl Hs; [lia|]. cbn [pattern_nodes].
  rewrite get_pattern_node_simple by (lia || done). cbn [mbind option_bind].
  pose proof (skip_dashes_spec src) as Hsk.
  assert (simple_text (skip_dashes src)) as Hs'.
  { clear -Hs. induction Hs as [|c s Hc Hs IH]; simpl; [constructor|].
    destruct (c =? DASH); [done|by constructor]. }
  destruct (skip_dashes src) as [|c src']; [by rewrite Hsk|].
  destruct Hsk as (_&->&Hlt&_). apply Forall_cons in Hs' as [(Hc&_) Hs'].
  cbn [buf char_node]. rewrite IH by (lia || done). done.
Qed.

(** *** Plain names *)
Lemma plain_nodes_take u w : nodes_take false (char_node false <$> u) w ↔ w = u ∧ u ≠ [].
Proof.
  revert w. induction u as [|c u IH]; intros w; csimpl.
  - split; [by inversion 1|by intros [_ ?]].
  - split.
    + inversion 1 as [|n d Hd Ht|n n' ns d w' Hd Ht Hn]; subst; try done.
      * apply bool_decide_eq_true in Ht. apply list_elem_of_singleton in Ht as ->.
        split; [|done]. f_equal. destruct u; [done|]. done.
      * apply bool_decide_eq_true in Ht. apply list_elem_of_singleton in Ht as ->.
        split; [|done]. f_equal. destruct u as [|c' u]; [done|]. csimpl in *. simplify_eq.
        by apply (IH w').
    + intros [-> _]. assert (takes_char false [c] c = true) as Ht.
      { apply bool_decide_eq_true, list_elem_of_here. }
      destruct u as [|c' u]; [by apply take_last|]. csimpl. apply take_next; [done|done|].
      by apply (IH (c' :: u)).
Qed.

(** *** Patterns *)
Lemma simple_denotes_nil p : simple_text p → denotes p [] ↔ undash p = [].
Proof.
  induction 1 as [|c p (Hc0&Hcl&Hcb&Hcs&Hcx) Hp IH]; [by rewrite denotes_nil|].
  rewrite undash_cons. destruct (decide (c = DASH)) as [->|Hd]; [by rewrite denotes_dash|].
  split; [|done]. inversion 1; subst; done.
Qed.

(** What a character of a pattern takes. *)
Lemma takes_canonical c :
  c ≠ DASH → c ≠ LBRACKET → c ≠ SLASH → c ≠ BANG → c ≠ DOT →
  is_dot true [canonical c] = false
  ∧ ∀ p, takes (c :: p) (λ d, takes_char true [canonical c] d = true) p.
Proof.
  intros Hd Hl Hs Hb Hdot.
  destruct (digit_class c) as [lo|] eqn:E.
  - assert (∀ d, takes_char true [canonical c] d = (lo <=? d) && (d <=? 57)) as Ht.
    { intros d'. unfold digit_class in E. unfold canonical, takes_char.
      repeat (case_match; simplify_eq; try done);
        repeat match goal with H : (_ || _) = true |- _ => apply orb_true_iff in H as [?|?] end;
        repeat match goal with H : (_ =? _) = true |- _ => apply Z.eqb_eq in H end; subst; try done. }
    split.
    + unfold is_dot. apply andb_false_iff. right. apply bool_decide_eq_false. intros [= Ec].
      unfold canonical in Ec. repeat case_match; simplify_eq; done.
    + intros p w. rewrite denotes_digit by done. setoid_rewrite Ht. by setoid_rewrite in_range_spec.
  - assert (ordinary c) as Ho by (unfold ordinary; by split_and!).
    assert (canonical c = c ∧ c ≠ 78 ∧ c ≠ 90 ∧ c ≠ 88) as (Ec&H78&H90&H88).
    { unfold digit_class in E. unfold canonical.
      destruct (Z.eqb_spec c 110), (Z.eqb_spec c 78), (Z.eqb_spec c 120), (Z.eqb_spec c 88),
        (Z.eqb_spec c 122), (Z.eqb_spec c 90); simplify_eq/=; split_and!; done. }
    rewrite Ec. split.
    + unfold is_dot. rewrite single_eqb. by destruct (Z.eqb_spec c DOT).
    + intros p w. rewrite denotes_char by done. unfold takes_char. rewrite !single_eqb.
      destruct (Z.eqb_spec c 78), (Z.eqb_spec c 90), (Z.eqb_spec c 88); try done.
      setoid_rewrite bool_decide_eq_true. setoid_rewrite list_elem_of_singleton. naive_solver.
Qed.

Lemma dot_last_cons c u : dot_last (c :: u) → dot_last u.
Proof. intros H i Hi. specialize (H (S i) Hi). simpl in H. lia. Qed.

Lemma pattern_nodes_take p w : simple_text p → dot_last (undash p) → w ≠ [] →
  nodes_take true (char_node true <$> undash p) w ↔ denotes p w.
Proof.
  intros Hp. revert w. induction Hp as [|c p (Hc0&Hcl&Hcb&Hcs&Hcx) Hp IH]; intros w Hdl Hne.
  { rewrite denotes_nil. csimpl. split; [by inversion 1|done]. }
  rewrite undash_cons in *. destruct (decide (c = DASH)) as [->|Hd].
  { rewrite denotes_dash. by apply IH. }
  csimpl. destruct (decide (c = DOT)) as [->|Hdot].
  { specialize (Hdl 0%nat eq_refl). simpl in Hdl. destruct (undash p); [|done]. csimpl.
    rewrite denotes_dot. split; [by inversion 1|]. intros _. destruct w; [done|]. by apply take_dot. }
  destruct (takes_canonical c) as [Hnd Ht]; [done..|]. rewrite (Ht p w). split.
  - inversion 1 as [|n d Hd' Ht'|n n' ns d w' Hd' Ht' Hn]; simplify_eq/=; [congruence|..].
    + exists d, []. split_and!; [done|done|]. apply simple_denotes_nil; [done|].
      by destruct (undash p).
    + exists d, w'. split_and!; [done|done|]. apply IH; [by eapply dot_last_cons| |].
      * intros ->. inversion Hn.
      * congruence.
  - intros (d&w'&->&Ht'&Hden). destruct w' as [|d' w'].
    + apply simple_denotes_nil in Hden; [|done]. rewrite Hden. csimpl. by apply take_last.
    + apply IH in Hden; [|by eapply dot_last_cons|done].
      destruct (undash p) as [|c' u]; csimpl in *; [inversion Hden|]. by apply take_next.
Qed.

(** *** A simple extension in the tree *)
Lemma simple_tail s : simple_text s → simple_text (tail s).
Proof. destruct s; [done|]. intros H. by apply Forall_cons in H as [_ ?]. Qed.

Lemma exten_nodes_simple e : simple_exten e →
  extenbuf e = Some (exten e) ∧
  exten_nodes e =
    Some (deref (exten e) =? UNDERSCORE,
          char_node (deref (exten e) =? UNDERSCORE) <$>
            undash (if deref (exten e) =? UNDERSCORE then tail (exten e) else exten e)).
Proof.
  intros (Hm&Hl&_&Hs&_). assert (extenbuf e = Some (exten e)) as E.
  { unfold extenbuf, MAX_EXTENBUF_SIZE. rewrite Hm. simpl. rewrite Z.gtb_ltb.
    destruct (Z.ltb_spec 512 (Z.of_nat (length (exten e)) + 1)); [lia|done]. }
  split; [done|]. unfold exten_nodes. rewrite E. cbn [mbind option_bind].
  rewrite pattern_nodes_simple; [done|lia|]. destruct (_ =? _); [by apply simple_tail|done].
Qed.

Definition nodes_of (e : ast_exten) : list pattern_node :=
  char_node (deref (exten e) =? UNDERSCORE) <$>
    undash (if deref (exten e) =? UNDERSCORE then tail (exten e) else exten e).

Lemma nodes_of_take e w : simple_exten e → w ≠ [] →
  nodes_take (deref (exten e) =? UNDERSCORE) (nodes_of e) w ↔ stands_for (exten e) w.
Proof.
  intros (_&_&_&Hs&Hdl) Hne. unfold nodes_of, stands_for.
  destruct (Z.eqb_spec (deref (exten e)) UNDERSCORE) as [Hu|Hu], (decide _); try done.
  - apply pattern_nodes_take; [by apply simple_tail|auto|done].
  - rewrite plain_nodes_take. naive_solver.
Qed.

Lemma undash_simple s : simple_text s → simple_text (undash s).
Proof.
  intros H. unfold simple_text in *. rewrite Forall_forall in *.
  intros c [_ Hc]%list_elem_of_filter. by apply H.
Qed.

Lemma nodes_of_plain e : simple_exten e → plain_nodes (deref (exten e) =? UNDERSCORE) (nodes_of e).
Proof.
  intros (_&_&_&Hs&Hdl) i n Hi. unfold nodes_of in *. rewrite list_lookup_fmap, fmap_Some in Hi.
  destruct Hi as (c&Hi&->).
  assert (c ≠ 0 ∧ c ≠ SLASH ∧ c ≠ BANG) as (H0&H1&H2).
  { assert (simple_text (undash (if deref (exten e) =? UNDERSCORE then tail (exten e) else exten e))) as Hu.
    { apply undash_simple. destruct (_ =? _); [by apply simple_tail|done]. }
    unfold simple_text in Hu. rewrite Forall_lookup in Hu. apply Hu in Hi. tauto. }
  split.
  - eexists. split; [done|]. unfold canonical. destruct (deref _ =? _); [|done].
    repeat case_match; done.
  - rewrite length_fmap. unfold is_dot. destruct (Z.eqb_spec (deref (exten e)) UNDERSCORE) as [Hu|]; [|done].
    simpl. rewrite bool_decide_eq_true. intros [= Hc]. apply (Hdl Hu). rewrite Hi. f_equal.
    unfold canonical in Hc. repeat case_match; simplify_eq; done.
Qed.

(** Adding a simple extension. *)
Lemma add_simple tree e : simple_exten e → plain_tree tree →
  ∃ tree', add_exten_to_pattern_tree tree e = Some tree' ∧ plain_tree tree'
    ∧ (∀ w e', hangs_in tree' w e' → (e' = e ∧ (w ≠ [] → stands_for (exten e) w)) ∨ hangs_in tree w e')
    ∧ (∀ w, w ≠ [] → stands_for (exten e) w → hangs_in tree' w e)
    ∧ (∀ w e', hangs_in tree w e' → ∃ e'', hangs_in tree' w e'').
Proof.
  intros He Ht. destruct (exten_nodes_simple e He) as [E1 E2].
  unfold add_exten_to_pattern_tree. rewrite E1, E2. cbn [mbind option_bind]. fold (nodes_of e).
  eexists. split_and!; [done|..].
  - apply add_nodes_plain; [by apply nodes_of_plain|done].
  - intros w e' Hh. destruct (add_nodes_sound _ _ _ _ _ _ Hh) as [[-> Hn]|]; [|by right].
    left. split; [done|]. intros Hne. by apply nodes_of_take.
  - intros w Hne Hst. apply add_nodes_adds. by apply nodes_of_take.
  - intros w e'. apply add_nodes_keeps.
Qed.

(** The tree of a context. *)
Lemma create_simple es : Forall simple_exten es →
  ∃ tree, create_match_char_tree es = Some tree ∧ plain_tree tree
    ∧ (∀ w e, w ≠ [] → hangs_in tree w e → e ∈ es ∧ stands_for (exten e) w)
    ∧ (∀ w e, w ≠ [] → e ∈ es → stands_for (exten e) w → ∃ e', hangs_in tree w e').
Proof.
  unfold create_match_char_tree.
  cut (∀ tree0 seen, Forall simple_exten es → plain_tree tree0 →
    (∀ w e, w ≠ [] → hangs_in tree0 w e → e ∈ seen ∧ stands_for (exten e) w) →
    (∀ w e, w ≠ [] → e ∈ seen → stands_for (exten e) w → ∃ e', hangs_in tree0 w e') →
    ∃ tree, foldl (λ tree e1, tree ← tree; add_exten_to_pattern_tree tree e1) (Some tree0) es = Some tree
      ∧ plain_tree tree
      ∧ (∀ w e, w ≠ [] → hangs_in tree w e → e ∈ seen ++ es ∧ stands_for (exten e) w)
      ∧ (∀ w e, w ≠ [] → e ∈ seen ++ es → stands_for (exten e) w → ∃ e', hangs_in tree w e')).
  { intros H Hes. apply (H [] []); [done|intros m Hm; set_solver|intros w e _ (m&Hm&_); set_solver|set_solver]. }
  induction es as [|e es IH]; intros tree0 seen Hes Hp Hs Hc; cbn [foldl].
  { exists tree0. rewrite app_nil_r. done. }
  apply Forall_cons in Hes as [He Hes]. destruct (add_simple tree0 e He Hp) as (tree1&E&Hp1&H1&H2&H3).
  cbn [mbind option_bind]. rewrite E.
  destruct (IH tree1 (seen ++ [e])) as (tree&Ef&Hpt&Hs'&Hc'); [done|done|..].
  - intros w e' Hne Hh. destruct (H1 w e' Hh) as [[-> Hst]|Hh0]; [split; [set_solver|auto]|].
    destruct (Hs w e' Hne Hh0). split; [set_solver|done].
  - intros w e' Hne Hin Hst. apply elem_of_app in Hin as [Hin|Hin].
    + destruct (Hc w e' Hne Hin Hst) as [e'' Hh]. by eapply H3.
    + apply list_elem_of_singleton in Hin as ->. eauto.
  - exists tree. rewrite <- (assoc_L (++)) in Hs', Hc'. done.
Qed.

End Equivalence.

(** ** The building of a tree ends *)
Module Total.

Import Pattern.Spec Pattern.Matching Pattern.Bits.

Lemma expand_range_total fuel first last :
  0 <= last < 255 → 0 <= u8 (first + 1) → last - u8 (first + 1) < Z.of_nat fuel →
  is_Some (expand_range fuel first last).
Proof.
  intros Hl. revert first. induction fuel as [|fuel IH]; intros first H0 Hf; cbn [expand_range];
    destruct (Z.leb_spec (u8 (first + 1)) last); cbn [negb]; try done; [lia|].
  assert (u8 (u8 (first + 1) + 1) = u8 (first + 1) + 1) as E by (apply uwrap_small; simpl; lia).
  destruct (IH (u8 (first + 1))) as [r ->]; [lia|lia|]. done.
Qed.

Lemma scannable_tail s : scannable s → scannable (tail s).
Proof. destruct s; [done|]. intros H. by apply Forall_cons in H as [_ ?]. Qed.

Lemma u8_nonneg c : 0 <= u8 c < 256.
Proof. apply uwrap_range. lia. Qed.

Lemma u8_deref s : scannable s → 0 <= u8 (deref s) < 255.
Proof.
  destruct s as [|c s]; [done|]. intros H. apply Forall_cons in H as [(?&?&?) _]. by apply u8_char.
Qed.

(** What a set leaves of the source. *)
Definition leaves (src : cstring) (r : cstring * cstring) : Prop :=
  (length r.2 <= length src)%nat ∧ scannable r.2.

Lemma set_chars_total fuel prev src out :
  (length src < fuel)%nat → scannable src →
  ∃ r, set_chars fuel prev src out = Some r ∧ leaves src r.
Proof.
  revert prev src out. induction fuel as [|fuel IH]; intros prev src out Hl Hs; [lia|].
  assert (∀ prev' src' out', (length src' < length src)%nat → scannable src' →
    ∃ r, set_chars fuel prev' src' out' = Some r ∧ leaves src r) as Hrec.
  { intros prev' src' out' Hlt Hs'. destruct (IH prev' src' out') as (r&E&?&?); [lia|done|].
    exists r. split; [done|]. split; [lia|done]. }
  clear IH. destruct src as [|c src1]; cbn [set_chars]; [by exists (out, [])|].
  pose proof Hs as Hs1. apply Forall_cons in Hs1 as [_ Hs1]. cbn [length] in *.
  destruct (c =? BACKSLASH).
  - destruct src1 as [|d src2]; [apply Hrec; [lia|done]|].
    destruct (_ || _); apply Hrec; cbn [length]; try lia; [|done]. by apply Forall_cons in Hs1 as [_ ?].
  - destruct (c =? DASH).
    + set (src_next := if deref src1 =? BACKSLASH then tail src1 else src1).
      assert (scannable src_next ∧ (length src_next <= length src1)%nat) as [Hsn Hln].
      { unfold src_next. destruct (_ =? _); [|done]. split; [by apply scannable_tail|].
        destruct src1; simpl; lia. }
      destruct (_ && _) eqn:E; [|apply Hrec; [lia|done]].
      destruct (expand_range_total 256 (u8 prev) (u8 (deref src_next))) as [chars ->];
        [by apply u8_deref|apply u8_nonneg|pose proof (u8_deref _ Hsn); pose proof (u8_nonneg (u8 prev + 1)); lia|].
      cbn [mbind option_bind]. apply Hrec; [|by apply scannable_tail].
      destruct src_next; simpl in *; lia.
    + destruct (c =? RBRACKET); [|apply Hrec; [lia|done]].
      exists (out, src1). split; [done|]. split; [simpl; lia|done].
Qed.

Lemma get_pattern_node_total fuel src pat :
  (length src < fuel)%nat → scannable src →
  ∃ n src', get_pattern_node fuel src pat = Some (n, src') ∧ scannable src'
    ∧ (buf n = [] ∨ (length src' < length src)%nat).
Proof.
  revert src. induction fuel as [|fuel IH]; intros src Hl Hs; [lia|].
  destruct src as [|c src1]; cbn [get_pattern_node]; [eexists _, _; split; [done|]; split; [done|by left]|].
  pose proof Hs as Hs1. apply Forall_cons in Hs1 as [_ Hs1]. cbn [length] in *.
  assert (∀ src', (length src' <= length src1)%nat → scannable src' → ∃ n src'',
    get_pattern_node fuel src' pat = Some (n, src'') ∧ scannable src''
    ∧ (buf n = [] ∨ (length src'' < S (length src1))%nat)) as Hrec.
  { intros src' Hle Hs'. destruct (IH src') as (n&src''&E&?&Hb); [lia|done|].
    exists n, src''. split_and!; [done..|]. destruct Hb; [by left|right; lia]. }
  destruct (_ && _).
  - destruct (set_chars_total (S (length src1)) c src1 []) as ([out src']&->&Hle&Hs'); [lia|done|].
    cbn [mbind option_bind fst snd] in *. destruct (256 <=? _); [by apply Hrec|].
    destruct (c_prefix out) as [|c0 out']; [by apply Hrec|].
    eexists _, _. split; [done|]. split; [done|]. right. lia.
  - destruct (c =? DASH); [by apply Hrec|]. destruct (c =? BACKSLASH).
    + destruct src1 as [|d src2]; eexists _, _; (split; [done|]).
      * split; [done|by left].
      * split; [by apply Forall_cons in Hs1 as [_ ?]|]. right. simpl. lia.
    + eexists _, _. split; [done|]. split; [done|]. right. lia.
Qed.

Lemma pattern_nodes_total fuel src pat :
  (length src < fuel)%nat → scannable src → is_Some (pattern_nodes fuel src pat).
Proof.
  revert src. induction fuel as [|fuel IH]; intros src Hl Hs; [lia|]. cbn [pattern_nodes].
  destruct (get_pattern_node_total (S (length src)) src pat) as (n&src'&->&Hs'&Hb); [lia|done|].
  cbn [mbind option_bind]. destruct (buf n) as [|c b]; [done|]. destruct Hb as [?|Hlt]; [done|].
  destruct (IH src') as [r ->]; [lia|done|]. done.
Qed.

Definition scannable_exten (e : ast_exten) : Prop := scannable (exten e) ∧ scannable (cidmatch e).

Lemma exten_nodes_total e : scannable_exten e → is_Some (extenbuf e) → is_Some (exten_nodes e).
Proof.
  intros [He Hc] [text E]. unfold exten_nodes. rewrite E. cbn [mbind option_bind].
  assert (scannable text) as Ht.
  { unfold extenbuf in E. destruct (_ >? _); [done|]. simplify_eq. destruct (negb _); [|done].
    apply scannable_app. split; [done|]. by apply Forall_cons. }
  set (src := if _ : bool then _ else _).
  assert (scannable src) as Hs by (unfold src; destruct (_ =? _); [by apply scannable_tail|done]).
  destruct (pattern_nodes_total (S (length src)) src (deref text =? UNDERSCORE)) as [ns ->]; [lia|done|]. done.
Qed.

Lemma add_total tree e : scannable_exten e → is_Some (add_exten_to_pattern_tree tree e).
Proof.
  intros He. unfold add_exten_to_pattern_tree. destruct (extenbuf e) eqn:E; [|done].
  destruct (exten_nodes_total e He) as [[pat ns] ->]; done.
Qed.

Lemma find_total tree e : scannable_exten e → is_Some (find_exten_in_pattern_tree tree e).
Proof.
  intros He. unfold find_exten_in_pattern_tree. destruct (extenbuf e) eqn:E; [|done].
  destruct (exten_nodes_total e He) as [[pat ns] ->]; done.
Qed.

Lemma create_total es : Forall scannable_exten es → is_Some (create_match_char_tree es).
Proof.
  unfold create_match_char_tree. generalize (@nil match_char) as tree.
  induction es as [|e es IH]; intros tree Hes; [done|]. apply Forall_cons in Hes as [He Hes].
  cbn [foldl mbind option_bind]. destruct (add_total tree e He) as [tree' ->]. by apply IH.
Qed.

(** In a tree there is always a node to return. *)
Lemma find_nodes_Some tree pat ns : tree ≠ [] → is_Some (find_nodes tree pat ns).
Proof.
  revert tree. induction ns as [|n ns IH]; intros tree Ht; cbn [find_nodes]; [by destruct tree|].
  destruct (already_in_tree tree (buf n) pat) as [i|] eqn:E; [|by destruct tree].
  apply Paths.already_in_tree_Some in E as (m&Ei&_). rewrite Ei.
  destruct (next_char m) as [|m' next]; [done|]. destruct ns as [|n' ns]; [done|].
  destruct (IH (m' :: next)) as [path E']; [done|]. rewrite E'. done.
Qed.

(** A path that is found leads to a node. *)
Lemma find_nodes_lookup tree pat ns path : find_nodes tree pat ns = Some path → is_Some (lookup_node path tree).
Proof.
  revert tree path. induction ns as [|n ns IH]; intros tree path; cbn [find_nodes].
  { destruct tree; [done|]. intros [= <-]. done. }
  destruct (already_in_tree tree (buf n) pat) as [i|]; [|destruct tree; [done|]; by intros [= <-]].
  destruct (tree !! i) as [m|] eqn:Ei; [|done].
  destruct (next_char m) as [|m' next] eqn:En; [intros [= <-]; simpl; by rewrite Ei|].
  destruct ns as [|n' ns]; [intros [= <-]; simpl; by rewrite Ei|].
  destruct (find_nodes (m' :: next) pat (n' :: ns)) as [path'|] eqn:Ef; [|done]. intros [= <-].
  apply IH in Ef as [m0 Ef]. destruct path' as [|j path']; [done|]. cbn [lookup_node].
  rewrite Ei. cbn [mbind option_bind]. rewrite En. exists m0. exact Ef.
Qed.

End Total.

Module Properties.

Import Pattern.Spec Pattern.Matching Paths Search Equivalence Sorted.

Lemma digits_c_string w : digits w → Forall (λ c, (-128) <= c < 128) w → c_string w.
Proof.
  intros Hw Hr. unfold c_string. apply Forall_and. split; [done|].
  eapply Forall_impl; [exact Hw|]. simpl. tauto.
Qed.

(** The linear matcher accepts the string for the extension. *)
Definition matches_exten (w : cstring) (e : ast_exten) : Prop :=
  ∃ r, ast_extension_match (Some (exten e)) (Some w) = Some r ∧ r ≠ 0.

Lemma matches_stands_for w e :
  simple_exten e → digits w → c_string w → deref w ≠ UNDERSCORE →
  matches_exten w e ↔ stands_for (exten e) w.
Proof.
  intros (_&_&Hc&Hs&_) Hw Hcw Hu.
  assert (undash w = w) as Eu.
  { clear -Hw. induction Hw as [|c w (_&Hc&_) Hw IH]; [done|]. rewrite undash_cons.
    by destruct (decide (c = DASH)); [|rewrite IH]. }
  destruct (extension_match_core_spec E_MATCH (exten e) w) as (r&E&Hr); [by right; right|done..| |done|done|].
  { intros (a&b&Eb). unfold simple_text in Hs. rewrite Eb, Forall_app, Forall_cons in Hs. naive_solver. }
  unfold matches_exten. rewrite Eu in Hr. split.
  - intros (r'&E'&Hne). change (_extension_match_core (exten e) w E_MATCH = Some r') in E'.
    simplify_eq. apply Hr in Hne as (s&(_&Hs'&_)&Hst). by rewrite Hs', app_nil_r in Hst.
  - intros Hst. exists r. split; [done|]. apply Hr. exists []. rewrite app_nil_r. split; [|done].
    split_and!; [apply not_elem_of_nil|done..].
Qed.

(** C12: the trie and the linear matcher accept the same digits: the tree of a
    set of extensions (without character sets, escapes, [!] or caller ids, a
    [.] only at the end) is built, and an exact search of it ends, returning an
    extension of the set that [ast_extension_match] accepts for the digits, and
    returning none only when it accepts none of them. *)
Theorem trie_accepts_like_linear es w has_label callerid :
  Forall simple_exten es → digits w → c_string w → w ≠ [] → deref w ≠ UNDERSCORE →
  ∃ tree score, create_match_char_tree es = Some tree
    ∧ new_find_extension has_label callerid E_MATCH w no_score tree 0 0 = Some score
    ∧ match score_exten score with
      | Some e => e ∈ es ∧ matches_exten w e
      | None => ∀ e, e ∈ es → ¬ matches_exten w e
      end.
Proof.
  intros Hes Hw Hcw Hne Hu. destruct (create_simple es Hes) as (tree&Et&Hp&Hs&Hc).
  destruct (new_find_extension_scores has_label callerid tree w Hp Hw Hne) as (score&Ef&H1&H2).
  exists tree, score. split_and!; [done|done|]. rewrite Forall_forall in Hes.
  destruct (score_exten score) as [e|] eqn:E.
  - destruct (Hs w e Hne (H1 e eq_refl)) as [Hin Hst]. split; [done|].
    apply matches_stands_for; auto.
  - intros e Hin Hm. apply matches_stands_for in Hm; auto.
    destruct (Hc w e Hne Hin Hm) as [e' Hh]. destruct H2 as [? ?]; [by exists e'|congruence].
Qed.

Lemma trie_accepts_like_linear_witness :
  let es := [plain_exten 1 (cstr "_NXX") 1; plain_exten 2 (cstr "_9.") 1; plain_exten 3 (cstr "100") 1] in
  ∃ tree score, create_match_char_tree es = Some tree
    ∧ new_find_extension (λ _, Some false) None E_MATCH (cstr "9123") no_score tree 0 0 = Some score
    ∧ match score_exten score with
      | Some e => e ∈ es ∧ matches_exten (cstr "9123") e
      | None => ∀ e, e ∈ es → ¬ matches_exten (cstr "9123") e
      end.
Proof.
  intros es. apply (trie_accepts_like_linear es (cstr "9123") (λ _, Some false) None).
  - unfold es. repeat apply Forall_cons_2; [..|apply Forall_nil_2];
      (split_and!; [reflexivity|simpl; lia|by repeat constructor|by repeat constructor|]).
    + intros _ [|[|[|i]]] Hi; vm_compute in Hi; congruence || reflexivity.
    + intros _ [|[|i]] Hi; vm_compute in Hi; congruence || reflexivity.
    + done.
  - by repeat constructor.
  - by repeat constructor.
  - done.
  - done.
Defined.

(** The alternatives of every node of the tree of a context are in
    increasing order of specificity, whatever the extensions and the order they
    are added in, and stay so when an extension is added later or a node is
    marked deleted. *)
Theorem pattern_tree_sorted es tree e tree' path :
  create_match_char_tree es = Some tree → add_exten_to_pattern_tree tree e = Some tree' →
  sorted_tree tree ∧ sorted_tree tree' ∧ sorted_tree (alter_node (set_node_exten true None) path tree').
Proof.
  intros Ec Ea.
  assert (∀ t t' e, sorted_tree t → add_exten_to_pattern_tree t e = Some t' → sorted_tree t') as Hadd.
  { intros t t' e0 Ht. unfold add_exten_to_pattern_tree. destruct (extenbuf e0); [|congruence].
    destruct (exten_nodes e0) as [[pat ns]|]; [|done]. intros [= <-]. by apply add_nodes_sorted. }
  assert (sorted_tree tree) as Ht.
  { assert (∀ t0, sorted_tree t0 →
      foldl (λ tree e1, tree ← tree; add_exten_to_pattern_tree tree e1) (Some t0) es = Some tree →
      sorted_tree tree) as Hf; [|by apply (Hf []); [apply sorted_tree_nil|exact Ec]].
    clear -Hadd. induction es as [|e0 es IH]; intros t0 Ht0; cbn [foldl]; [congruence|].
    cbn [mbind option_bind]. destruct (add_exten_to_pattern_tree t0 e0) as [t1|] eqn:E1.
    - apply IH. by eapply Hadd.
    - clear. induction es; [done|]. done. }
  split; [done|]. assert (sorted_tree tree') as Ht' by (by eapply Hadd). split; [done|].
  clear -Ht'. revert tree' Ht'. induction path as [|i path IH]; intros t Ht; [done|].
  destruct Ht as [t Hs Hf]. destruct path as [|j path].
  - constructor; [by apply alter_sorted|]. by apply Forall_alter.
  - constructor; [by apply alter_sorted|]. apply Forall_alter; [done|]. intros m _ Hm. by apply IH.
Qed.

Lemma pattern_tree_sorted_witness :
  let es := [plain_exten 1 (cstr "_X.") 1; plain_exten 2 (cstr "_[2-4]X") 1] in
  ∃ tree tree', create_match_char_tree es = Some tree
    ∧ add_exten_to_pattern_tree tree (plain_exten 3 (cstr "12") 1) = Some tree'
    ∧ sorted_tree tree ∧ sorted_tree tree'
    ∧ sorted_tree (alter_node (set_node_exten true None) [0%nat] tree').
Proof.
  intros es. eexists _, _. split; [vm_compute; reflexivity|]. split; [vm_compute; reflexivity|].
  apply (pattern_tree_sorted es _ (plain_exten 3 (cstr "12") 1) _ [0%nat]); vm_compute; reflexivity.
Defined.

End Properties.
