(* ===== verification/CString.v ===== *)
(** * Strings of the C library the dialplan uses

    Strings are lists of [char]s without the terminating NUL; a NUL inside a
    list ends the string, as it does in C.

    - [strcmp], [strcasecmp] (in the C locale), [strsep] and what they compare
      and cut. *)

From stdpp Require Import base numbers list sets strings.
From Stdlib Require Import ZArith Lia.
From S2P Require Import Prelude Pattern.
Import Pattern.Model.

Module Model.

Fixpoint strcmp (a b : cstring) : Z :=
  match a, b with
  | [], [] => 0
  | [], c :: _ => - u8 c
  | c :: _, [] => u8 c
  | c :: a, d :: b =>
      if negb (u8 c =? u8 d) then u8 c - u8 d
      else if u8 c =? 0 then 0 else strcmp a b
  end.

Definition tolower (c : Z) : Z := if (65 <=? c) && (c <=? 90) then c + 32 else c.
Definition strcasecmp (a b : cstring) : Z := strcmp ((λ c, tolower (u8 c)) <$> a) ((λ c, tolower (u8 c)) <$> b).

(** The token before the first of the delimiters, and the pointer [strsep]
    leaves: the string after it, or NULL. *)
Fixpoint strsep (delim : list Z) (s : cstring) : cstring * option cstring :=
  match s with
  | [] => ([], None)
  | c :: s =>
      if bool_decide (c ∈ delim) then ([], Some s)
      else let r := strsep delim s in (c :: r.1, r.2)
  end.

(** The tokens of [while ((part = strsep(&s, delim)))]. *)
Fixpoint tokens (delim : list Z) (s : cstring) : list cstring :=
  match s with
  | [] => [[]]
  | c :: s =>
      if bool_decide (c ∈ delim) then [] :: tokens delim s
      else match tokens delim s with
           | t :: ts => (c :: t) :: ts
           | [] => [[c]]
           end
  end.

End Model.

Import Model.

Module Compare.

(** The bytes of a string. *)
Fixpoint bytes (s : cstring) : list Z :=
  match s with
  | c :: s => if u8 c =? 0 then [] else u8 c :: bytes s
  | [] => []
  end.

Lemma strcmp_zero a b : strcmp a b = 0 ↔ bytes a = bytes b.
Proof.
  revert b. induction a as [|c a IH]; intros [|d b]; simpl.
  - done.
  - destruct (Z.eqb_spec (u8 d) 0) as [->|]; [done|]. split; [lia|done].
  - destruct (Z.eqb_spec (u8 c) 0) as [->|]; [done|]. split; [lia|done].
  - destruct (Z.eqb_spec (u8 c) (u8 d)) as [->|Hne]; cbn [negb].
    + destruct (Z.eqb_spec (u8 d) 0); [done|]. rewrite IH. split; [congruence|by intros [= ?]].
    + split; [lia|]. destruct (Z.eqb_spec (u8 c) 0), (Z.eqb_spec (u8 d) 0); congruence.
Qed.

(** A name as [strcasecmp] sees it. *)
Definition folded (s : cstring) : list Z := tolower <$> bytes s.

Lemma tolower_range c : 0 <= c < 256 → 0 <= tolower c < 256 ∧ (tolower c = 0 ↔ c = 0).
Proof. unfold tolower. destruct (Z.leb_spec 65 c), (Z.leb_spec c 90); simpl; lia. Qed.

Lemma byte_range c : 0 <= u8 c < 256.
Proof. apply uwrap_range. lia. Qed.

Lemma bytes_folded s : bytes ((λ c, tolower (u8 c)) <$> s) = folded s.
Proof.
  induction s as [|c s IH]; [done|]. unfold folded. csimpl.
  destruct (tolower_range (u8 c) (byte_range c)) as [Hr Hz].
  assert (u8 (tolower (u8 c)) = tolower (u8 c)) as -> by (by apply uwrap_small).
  destruct (Z.eqb_spec (tolower (u8 c)) 0), (Z.eqb_spec (u8 c) 0); try lia; [done|]. csimpl. by rewrite IH.
Qed.

Lemma strcasecmp_zero a b : strcasecmp a b = 0 ↔ folded a = folded b.
Proof. unfold strcasecmp. by rewrite strcmp_zero, !bytes_folded. Qed.

(** Equal strings are equal up to case. *)
Lemma strcmp_strcasecmp a b : strcmp a b = 0 → strcasecmp a b = 0.
Proof. rewrite strcmp_zero, strcasecmp_zero. unfold folded. congruence. Qed.

Lemma strcmp_refl a : strcmp a a = 0.
Proof. by rewrite strcmp_zero. Qed.

(** The tokens are what the calls of [strsep] return. *)
Lemma tokens_strsep delim s :
  tokens delim s = (strsep delim s).1 :: match (strsep delim s).2 with Some rest => tokens delim rest | None => [] end.
Proof.
  induction s as [|c s IH]; [done|]. cbn [tokens strsep]. case_bool_decide; [done|]. by rewrite IH.
Qed.

End Compare.
