(* ===== verification/PbxTiming.v ===== *)
(** * Time conditions of the dialplan ([main/pbx_timing.c])

    A time specification, such as [9:00-17:00,mon-fri,*,jan-jun], is turned into
    bit masks of minutes, days of the week, days and months, against which a
    point in time is checked.

    - [Model]: the functions of the source.  [None] is a loop that does not end.
      [ast_localtime] is a parameter.
    - [Masks]: what the loops that fill the masks set.
    - [Properties]: the theorems. *)

From stdpp Require Import base numbers list sets strings.
From Stdlib Require Import ZArith Lia.
From S2P Require Import Prelude Pattern CString.
Import Pattern.Model CString.Model.

Module Model.

(** [struct ast_timing] *)
Record ast_timing := Timing {
  monthmask : Z;
  daymask : Z;
  dowmask : Z;
  minmask : list Z;
  timezone : option cstring;
}.

(** The fields of [struct ast_tm] that are used. *)
Record ast_tm := Tm { tm_mon : Z; tm_mday : Z; tm_wday : Z; tm_hour : Z; tm_min : Z }.

(** *** [sscanf] with [%2d] and [%2d:%2d] *)

Definition isspace (c : Z) : bool := (c =? 32) || ((9 <=? c) && (c <=? 13)).
Definition isdigit (c : Z) : bool := (48 <=? c) && (c <=? 57).

Fixpoint skip_spaces (s : cstring) : cstring :=
  match s with
  | c :: s' => if isspace c then skip_spaces s' else s
  | [] => []
  end.

(** At most two characters, a sign among them. *)
Definition scan_2d (s : cstring) : option (Z * cstring) :=
  match skip_spaces s with
  | c :: s1 =>
      if (c =? 45) || (c =? 43) then
        match s1 with
        | d :: s2 => if isdigit d then Some (if c =? 45 then - (d - 48) else d - 48, s2) else None
        | [] => None
        end
      else if isdigit c then
        match s1 with
        | d :: s2 => if isdigit d then Some (10 * (c - 48) + (d - 48), s2) else Some (c - 48, s1)
        | [] => Some (c - 48, [])
        end
      else None
  | [] => None
  end.

Definition COLON : Z := 58.

Definition scan_2d_2d (s : cstring) : option (Z * Z) :=
  '(h, s) ← scan_2d s;
  match (s : cstring) with
  | c :: s => if c =? COLON then '(m, _) ← scan_2d s; Some (h, m) else None
  | [] => None
  end.

(** *** Ranges of names or numbers *)

Fixpoint index_of_name (s : cstring) (names : list cstring) (i : Z) : option Z :=
  match names with
  | [] => None
  | n :: names => if strcasecmp s n =? 0 then Some i else index_of_name s names (i + 1)
  end.

Definition lookup_number (s : cstring) (max : Z) : Z :=
  match scan_2d s with
  | Some (i, _) => if (1 <=? i) && (i <=? max) then i - 1 else -1
  | None => -1
  end.

Definition lookup_name (s : cstring) (names : option (list cstring)) (max : Z) : Z :=
  match names with
  | Some ns =>
      if deref s >? 57 then
        match index_of_name s ns 0 with Some i => i | None => lookup_number s max end
      else lookup_number s max
  | None => lookup_number s max
  end.

(** [while (start != end)] *)
Fixpoint fill_cycle (fuel : nat) (start last max mask : Z) : option Z :=
  if start =? last then Some mask else
  match fuel with
  | O => None
  | S fuel =>
      let mask := Z.lor mask (Z.shiftl 1 start) in
      let start := start + 1 in
      fill_cycle fuel (if start >=? max then 0 else start) last max mask
  end.

(** One element of the list: the mask with it. *)
Definition range_element (part : cstring) (max : Z) (names : option (list cstring)) (mask : Z) : option Z :=
  let '(first, endpart) := strsep [DASH] part in
  let start := lookup_name first names max in
  if start <? 0 then Some mask else
  match endpart with
  | Some e =>
      let last := lookup_name e names max in
      if last <? 0 then Some mask
      else fill_cycle (Z.to_nat max) start last max (Z.lor mask (Z.shiftl 1 last))
  | None => fill_cycle (Z.to_nat max) start start max (Z.lor mask (Z.shiftl 1 start))
  end.

Definition AMPERSAND : Z := 38.
Definition is_star (s : cstring) : bool := match s with [] => true | _ => strcmp s (cstr "*") =? 0 end.

(** The whole range is [(1 << max) - 1] in [int]s, stored in an [unsigned]. *)
Definition get_range (src : cstring) (max : Z) (names : option (list cstring)) : option Z :=
  if is_star src then Some (u32 (swrap 32 (Z.shiftl 1 max) - 1)) else
  foldl (λ m part, mask ← m; range_element part max names mask) (Some 0) (tokens [AMPERSAND] src).

(** *** Minutes *)

Definition MINUTES_OF_DAY : Z := 24 * 60.

Definition set_minute (x : Z) (mask : list Z) : list Z :=
  alter (λ w, Z.lor w (Z.shiftl 1 (x mod 30))) (Z.to_nat (x / 30)) mask.

(** [for (x = start; x != end; x = (x + 1) % (24 * 60))], and the last one. *)
Fixpoint fill_minutes (fuel : nat) (x last : Z) (mask : list Z) : option (list Z) :=
  if x =? last then Some (set_minute x mask) else
  match fuel with
  | O => None
  | S fuel => fill_minutes fuel ((x + 1) mod MINUTES_OF_DAY) last (set_minute x mask)
  end.

(** A time as a minute of the day. *)
Definition scan_time (s : cstring) : option Z :=
  '(h, m) ← scan_2d_2d s;
  if (h <? 0) || (h >? 23) || (m <? 0) || (m >? 59) then None else Some (h * 60 + m).

Fixpoint skip_to_digit (s : cstring) : cstring :=
  match s with
  | c :: s' => if isdigit c then s else skip_to_digit s'
  | [] => []
  end.

Definition time_element (part : cstring) (mask : list Z) : option (list Z) :=
  match strsep [DASH] part with
  | (part, None) =>
      match scan_2d_2d part with
      | Some (h, m) =>
          if (h <? 0) || (h >? 23) || (m <? 0) || (m >? 59) then Some mask
          else Some (alter (λ w, Z.lor w (Z.shiftl 1 (m mod 30))) (Z.to_nat (h * 2 + if m >=? 30 then 1 else 0)) mask)
      | None => Some mask
      end
  | (part, Some endpart) =>
      match skip_to_digit endpart with
      | [] => Some mask
      | endpart =>
          match scan_time part, scan_time endpart with
          | Some start, Some last => fill_minutes (Z.to_nat MINUTES_OF_DAY) start last mask
          | _, _ => Some mask
          end
      end
  end.

Definition get_timerange (times : cstring) : option (list Z) :=
  if is_star times then Some (replicate 48 0x3fffffff) else
  foldl (λ m part, mask ← m; time_element part mask) (Some (replicate 48 0)) (tokens [AMPERSAND] times).

(** *** The whole specification *)

Definition days : list cstring := cstr <$> ["sun"; "mon"; "tue"; "wed"; "thu"; "fri"; "sat"]%string.
Definition months : list cstring :=
  cstr <$> ["jan"; "feb"; "mar"; "apr"; "may"; "jun"; "jul"; "aug"; "sep"; "oct"; "nov"; "dec"]%string.

Definition SEPARATORS : list Z := [124; 44].

(** The number of fields and what follows the last separator. *)
Fixpoint count_fields (info : cstring) (num : Z) (last : option cstring) : Z * option cstring :=
  match info with
  | [] => (num, last)
  | c :: info => if bool_decide (c ∈ SEPARATORS) then count_fields info (num + 1) (Some info)
                 else count_fields info num last
  end.

(** The next field, when there is one: [if (info) mask = get_range(strsep(&info, "|,"), ...)]. *)
Definition field_range (info : option cstring) (max : Z) (names : option (list cstring)) (mask : Z)
    : option (Z * option cstring) :=
  match info with
  | Some s => let '(f, rest) := strsep SEPARATORS s in m ← get_range f max names; Some (m, rest)
  | None => Some (mask, None)
  end.

(** The result and the timing; copies of strings are made. *)
Definition ast_build_timing (i : ast_timing) (info_in : cstring) : option (Z * ast_timing) :=
  match info_in with
  | [] => Some (0, Timing (monthmask i) (daymask i) (dowmask i) (minmask i) None)
  | _ =>
      let '(num_fields, last) := count_fields info_in 1 None in
      let tz := if num_fields =? 5 then last else None in
      let '(times, info) := strsep SEPARATORS info_in in
      minutes ← get_timerange times;
      '(dow, info) ← field_range info 7 (Some days) 0x7f;
      '(day, info) ← field_range info 31 None 0x7fffffff;
      '(month, info) ← field_range info 12 (Some months) 0xfff;
      Some (1, Timing month day dow minutes tz)
  end.

(** [mask & (1 << k)] is not zero. *)
Definition bit_set (mask k : Z) : bool := negb (Z.land mask (Z.shiftl 1 k) =? 0).

Definition check_tm (i : ast_timing) (tm : ast_tm) : Z :=
  if negb (bit_set (monthmask i) (tm_mon tm)) then 0
  else if negb (bit_set (daymask i) (tm_mday tm - 1)) then 0
  else if negb (bit_set (dowmask i) (tm_wday tm)) then 0
  else if (tm_hour tm <? 0) || (tm_hour tm >? 23) then 0
  else if negb (bit_set (default 0 (minmask i !! Z.to_nat (tm_hour tm * 2 + if tm_min tm >=? 30 then 1 else 0)))
                        (if tm_min tm >=? 30 then tm_min tm - 30 else tm_min tm)) then 0
  else 1.

(** [ast_localtime tz tv] is the time [tv] in the time zone. *)
Definition ast_check_timing2 {timeval : Type} (ast_localtime : timeval → option cstring → ast_tm)
    (i : ast_timing) (tv : timeval) : Z :=
  check_tm i (ast_localtime tv (timezone i)).

Definition ast_check_timing {timeval : Type} (ast_localtime : timeval → option cstring → ast_tm)
    (ast_tvnow : timeval) (i : ast_timing) : Z :=
  ast_check_timing2 ast_localtime i ast_tvnow.

Definition ast_destroy_timing (i : ast_timing) : Z * ast_timing :=
  (0, Timing (monthmask i) (daymask i) (dowmask i) (minmask i) None).

End Model.

Import Model.

(** ** Worked inputs *)
Module Examples.

Definition no_timing : ast_timing := Timing 0 0 0 [] None.

(** Half past eight on a Wednesday in March, the 14th. *)
Definition when : ast_tm := Tm 2 14 3 8 30.

Definition check (spec : string) : option Z :=
  '(_, i) ← ast_build_timing no_timing (cstr spec); Some (check_tm i when).

Example office_hours : check "8:00-17:30,mon-fri,*,*" = Some 1.
Proof. reflexivity. Qed.
Example night : check "17:30-8:29,*,*,*" = Some 0.
Proof. reflexivity. Qed.
(** Ranges are cyclic. *)
Example over_midnight : check "22:00-9:00|fri-wed|10-5|oct-mar" = Some 1.
Proof. reflexivity. Qed.
Example list_of_days : check "*,tue&thu,*,*" = Some 0.
Proof. reflexivity. Qed.

End Examples.

(** ** What a specification means *)
Module Spec.

(** The places from [s] to [e], around the end of the cycle if need be. *)
Definition covers (s e k : Z) : Prop := if decide (s <= e) then s <= k <= e else s <= k ∨ k <= e.

(** The bounds an element of a list names. *)
Definition range_bounds (part : cstring) (max : Z) (names : option (list cstring)) : option (Z * Z) :=
  let '(first, endpart) := strsep [DASH] part in
  let s := lookup_name first names max in
  let e := match endpart with Some p => lookup_name p names max | None => s end in
  if decide (0 <= s ∧ 0 <= e) then Some (s, e) else None.

Definition time_bounds (part : cstring) : option (Z * Z) :=
  let '(first, endpart) := strsep [DASH] part in
  s ← scan_time first;
  e ← match endpart with Some p => scan_time (skip_to_digit p) | None => Some s end;
  Some (s, e).

(** The list has an element that covers the place; an empty list and a star
    cover everything. *)
Definition listed (bounds : cstring → option (Z * Z)) (src : cstring) (k : Z) : Prop :=
  is_star src = true ∨ ∃ part s e, part ∈ tokens [AMPERSAND] src ∧ bounds part = Some (s, e) ∧ covers s e k.

(** The [n]th field of a specification. *)
Definition field (info : cstring) (n : nat) : cstring := default [] (tokens SEPARATORS info !! n).

(** A calendar time. *)
Definition tm_ok (tm : ast_tm) : Prop :=
  0 <= tm_mon tm < 12 ∧ 1 <= tm_mday tm <= 31 ∧ 0 <= tm_wday tm < 7 ∧ 0 <= tm_hour tm < 24 ∧ 0 <= tm_min tm < 60.

Definition within (info : cstring) (tm : ast_tm) : Prop :=
  listed time_bounds (field info 0) (tm_hour tm * 60 + tm_min tm)
  ∧ listed (λ p, range_bounds p 7 (Some days)) (field info 1) (tm_wday tm)
  ∧ listed (λ p, range_bounds p 31 None) (field info 2) (tm_mday tm - 1)
  ∧ listed (λ p, range_bounds p 12 (Some months)) (field info 3) (tm_mon tm).

End Spec.

(** ** The masks *)
Module Masks.

Import Spec.

Lemma testbit_or_bit mask n k : 0 <= n →
  Z.testbit (Z.lor mask (Z.shiftl 1 n)) k = true ↔ k = n ∨ Z.testbit mask k = true.
Proof.
  intros Hn. rewrite Z.lor_spec, Z.shiftl_mul_pow2, Z.mul_1_l, Z.pow2_bits_eqb, orb_true_iff, Z.eqb_eq by done.
  intuition congruence.
Qed.

Lemma bit_set_spec mask k : 0 <= k → bit_set mask k = true ↔ Z.testbit mask k = true.
Proof.
  intros Hk. unfold bit_set. pose proof (Pattern.Bits.land_pow2_zero mask k Hk) as H.
  destruct (Z.eqb_spec (Z.land mask (Z.shiftl 1 k)) 0) as [E|E], (Z.testbit mask k); cbn [negb]; intuition congruence.
Qed.

(** The places the loop visits before it stops. *)
Definition visited (start last max k : Z) : Prop :=
  if decide (start <= last) then start <= k < last else start <= k < max ∨ 0 <= k < last.

Lemma fill_cycle_spec fuel start last max mask :
  0 <= start < max → 0 <= last < max → (last - start) mod max <= Z.of_nat fuel →
  ∃ mask', fill_cycle fuel start last max mask = Some mask'
    ∧ ∀ k, Z.testbit mask' k = true ↔ visited start last max k ∨ Z.testbit mask k = true.
Proof.
  revert start mask. induction fuel as [|fuel IH]; intros start mask Hs Hl Hf; cbn [fill_cycle];
    destruct (Z.eqb_spec start last) as [->|Hne].
  1, 3: exists mask; split; [done|]; intros k; unfold visited; rewrite decide_True by lia; intuition lia.
  - pose proof (Z.mod_pos_bound (last - start) max ltac:(lia)).
    assert ((last - start) mod max = 0) as E by lia. apply Z.mod_divide in E as [q E]; [|lia].
    destruct (Z.lt_trichotomy q 0) as [?|[->|?]]; nia.
  - set (next := if start + 1 >=? max then 0 else start + 1).
    assert (0 <= next < max ∧ (next = start + 1 ∧ start + 1 < max ∨ next = 0 ∧ start + 1 = max)) as [Hn Hnext].
    { unfold next. rewrite Z.geb_leb. destruct (Z.leb_spec max (start + 1)); lia. }
    assert ((last - next) mod max <= Z.of_nat fuel) as Hf'.
    { assert ((last - next) mod max = (last - start) mod max - 1) as ->; [|lia].
      destruct (Z.lt_ge_cases last start).
      - rewrite <- (Zmod_unique (last - start) max (-1) (last - start + max)) by lia.
        destruct Hnext as [[-> _]|[-> ?]].
        + rewrite <- (Zmod_unique (last - (start + 1)) max (-1) (last - start + max - 1)) by lia. lia.
        + rewrite Z.mod_small by lia. lia.
      - rewrite (Z.mod_small (last - start)) by lia. destruct Hnext as [[-> _]|[-> ?]]; [|lia].
        rewrite Z.mod_small by lia. lia. }
    destruct (IH next (Z.lor mask (Z.shiftl 1 start)) Hn Hl Hf') as (mask'&->&Hm).
    exists mask'. split; [done|]. intros k. rewrite Hm, testbit_or_bit by lia. unfold visited.
    destruct (decide (next <= last)), (decide (start <= last)); destruct Hnext as [[-> _]|[-> ?]]; intuition lia.
Qed.

Lemma index_of_name_bound s names i r : index_of_name s names i = Some r →
  i <= r < i + Z.of_nat (length names).
Proof.
  revert i. induction names as [|n names IH]; intros i; cbn [index_of_name length]; [done|].
  destruct (strcasecmp s n =? 0); [intros [= <-]; lia|]. intros H%IH. lia.
Qed.

Definition names_ok (names : option (list cstring)) (max : Z) : Prop :=
  ∀ ns, names = Some ns → Z.of_nat (length ns) <= max.

Lemma lookup_name_bound s names max : names_ok names max → lookup_name s names max < max ∨ lookup_name s names max = -1.
Proof.
  intros Hn. assert (lookup_number s max < max ∨ lookup_number s max = -1) as H.
  { unfold lookup_number. destruct (scan_2d s) as [[i r]|]; [|by right].
    destruct (Z.leb_spec 1 i), (Z.leb_spec i max); simpl; lia. }
  unfold lookup_name. destruct names as [ns|]; [|done]. destruct (_ >? _); [|done].
  destruct (index_of_name s ns 0) as [i|] eqn:E; [|done]. apply index_of_name_bound in E.
  pose proof (Hn ns eq_refl). lia.
Qed.

Lemma range_element_spec part max names mask : 0 < max → names_ok names max →
  ∃ mask', range_element part max names mask = Some mask'
    ∧ ∀ k, Z.testbit mask' k = true ↔
        Z.testbit mask k = true ∨ ∃ s e, range_bounds part max names = Some (s, e) ∧ 0 <= k < max ∧ covers s e k.
Proof.
  intros Hmax Hn. unfold range_element, range_bounds. destruct (strsep [DASH] part) as [first endpart].
  pose proof (lookup_name_bound first names max Hn) as Hs.
  destruct (Z.ltb_spec (lookup_name first names max) 0) as [Hneg|Hpos].
  { exists mask. split; [done|]. rewrite decide_False by lia. naive_solver. }
  set (e := match endpart with Some p => lookup_name p names max | None => lookup_name first names max end).
  assert (∃ mask', (if e <? 0 then Some mask else fill_cycle (Z.to_nat max) (lookup_name first names max) e max
      (Z.lor mask (Z.shiftl 1 e))) = Some mask'
    ∧ ∀ k, Z.testbit mask' k = true ↔ Z.testbit mask k = true ∨ ∃ s e',
        (if decide (0 <= lookup_name first names max ∧ 0 <= e) then Some (lookup_name first names max, e) else None)
          = Some (s, e') ∧ 0 <= k < max ∧ covers s e' k) as H.
  { assert (e < max ∨ e = -1) as He by (unfold e; destruct endpart; [by apply lookup_name_bound|done]).
    destruct (Z.ltb_spec e 0) as [He0|He0].
    { exists mask. split; [done|]. rewrite decide_False by lia. naive_solver. }
    rewrite decide_True by lia.
    destruct (fill_cycle_spec (Z.to_nat max) (lookup_name first names max) e max (Z.lor mask (Z.shiftl 1 e)))
      as (mask'&->&Hm); [lia|lia|pose proof (Z.mod_pos_bound (e - lookup_name first names max) max); lia|].
    exists mask'. split; [done|]. intros k. rewrite Hm, testbit_or_bit by done.
    assert (visited (lookup_name first names max) e max k ∨ k = e ↔
            0 <= k < max ∧ covers (lookup_name first names max) e k) as Hv.
    { unfold visited, covers. destruct (decide _); lia. }
    split; [intros [Hk|[Hk|Hk]]; [right|right|by left]; eexists _, _; (split; [done|]); tauto|].
    intros [Hk|(s&e'&[= <- <-]&Hk)]; tauto. }
  destruct endpart as [p|]; [exact H|]. subst e. destruct (Z.ltb_spec (lookup_name first names max) 0); [lia|exact H].
Qed.

(** A list of elements, each adding what it covers. *)
Lemma fold_elements {M} (sets : M → Z → Prop) (P : M → Prop) (step : M → cstring → option M) bounds dom parts m :
  (∀ m part, P m → ∃ m', step m part = Some m' ∧ P m' ∧ ∀ k, dom k → sets m' k ↔
      sets m k ∨ ∃ s e, bounds part = Some (s, e) ∧ covers s e k) → P m →
  ∃ m', foldl (λ m part, x ← m; step x part) (Some m) parts = Some m' ∧ P m'
    ∧ ∀ k, dom k → sets m' k ↔
        sets m k ∨ ∃ part s e, part ∈ parts ∧ bounds part = Some (s, e) ∧ covers s e k.
Proof.
  intros Hstep. revert m. induction parts as [|part parts IH]; intros m Hm; cbn [foldl].
  { exists m. split_and!; [done..|]. intros k Hk. split; [by left|]. intros [?|(p&s&e&Hp&_)]; [done|].
    by apply not_elem_of_nil in Hp. }
  cbn [mbind option_bind]. destruct (Hstep m part Hm) as (m1&->&Hm1&H1). destruct (IH m1 Hm1) as (m2&->&Hm2&H2).
  exists m2. split_and!; [done..|]. intros k Hk. rewrite (H2 k Hk), (H1 k Hk). setoid_rewrite elem_of_cons.
  split; [intros [[?|(s&e&?)]|(p&s&e&?&?)]|intros [?|(p&s&e&[->|?]&?)]].
  - by left.
  - right. exists part, s, e. split; [by left|done].
  - right. exists p, s, e. split; [by right|done].
  - by left; left.
  - left; right. by exists s, e.
  - right. by exists p, s, e.
Qed.

Lemma get_range_spec src max names : 0 < max <= 31 → names_ok names max →
  ∃ m, get_range src max names = Some m
    ∧ ∀ k, 0 <= k < max → Z.testbit m k = true ↔ listed (λ p, range_bounds p max names) src k.
Proof.
  intros Hmax Hn. unfold get_range, listed. destruct (is_star src).
  - eexists. split; [done|]. intros k Hk. split; [by left|intros _].
    assert (u32 (swrap 32 (Z.shiftl 1 max) - 1) = Z.ones max) as ->; [|by apply Z.ones_spec_low].
    rewrite Z.ones_equiv, Z.shiftl_1_l. unfold Z.pred.
    assert (0 < 2 ^ max <= 2 ^ 31) as Hp by (split; [lia|apply Z.pow_le_mono_r; lia]).
    destruct (decide (max = 31)) as [->|]; [done|].
    assert (2 ^ max <= 2 ^ 30) by (apply Z.pow_le_mono_r; lia).
    rewrite swrap_small by (simpl; lia). rewrite uwrap_small by (simpl; lia). lia.
  - destruct (fold_elements (λ m k, Z.testbit m k = true) (λ _, True)
      (λ mask part, range_element part max names mask) (λ p, range_bounds p max names) (λ k, 0 <= k < max)
      (tokens [AMPERSAND] src) 0) as (m&E&_&Hm); [|done|].
    + intros m part _. destruct (range_element_spec part max names m) as (m'&->&Hm'); [lia|done|].
      exists m'. split_and!; [done..|]. intros k Hk. rewrite Hm'. naive_solver.
    + exists m. split; [done|]. intros k Hk. rewrite (Hm k Hk), Z.bits_0.
      split; (intros [?|?]; [done|by right]).
Qed.

(** *** Minutes *)

Definition minute_set (mask : list Z) (x : Z) : Prop :=
  Z.testbit (default 0 (mask !! Z.to_nat (x / 30))) (x mod 30) = true.

Definition is_minute (x : Z) : Prop := 0 <= x < MINUTES_OF_DAY.

Lemma minute_place x : is_minute x → (Z.to_nat (x / 30) < 48)%nat ∧ 0 <= x mod 30 < 30.
Proof.
  unfold is_minute, MINUTES_OF_DAY. intros Hx. split; [|apply Z.mod_pos_bound; lia].
  assert (x / 30 < 48) by (apply Z.div_lt_upper_bound; lia). lia.
Qed.

Lemma set_minute_spec mask x y : length mask = 48%nat → is_minute x → is_minute y →
  minute_set (set_minute x mask) y ↔ y = x ∨ minute_set mask y.
Proof.
  intros Hl Hx Hy. destruct (minute_place x Hx) as [Hx1 Hx2], (minute_place y Hy) as [Hy1 Hy2].
  assert (0 <= x / 30 ∧ 0 <= y / 30) as [Hdx Hdy].
  { unfold is_minute in *. split; apply Z.div_pos; lia. }
  pose proof (Z.div_mod x 30 ltac:(lia)). pose proof (Z.div_mod y 30 ltac:(lia)).
  unfold minute_set, set_minute. destruct (decide (x / 30 = y / 30)) as [E|E].
  - rewrite <- E, list_lookup_alter_eq. destruct (lookup_lt_is_Some_2 mask (Z.to_nat (x / 30))) as [w ->]; [lia|].
    cbn -[Z.testbit Z.lor Z.shiftl Z.modulo Z.div]. rewrite testbit_or_bit by lia.
    split; [intros [?|?]; [left; lia|by right]|intros [->|?]; [by left|by right]].
  - rewrite list_lookup_alter_ne by lia. split; [by right|]. intros [->|?]; [done|done].
Qed.

Lemma set_minute_length x mask : length (set_minute x mask) = length mask.
Proof. apply length_alter. Qed.

Lemma fill_minutes_spec fuel x last mask : length mask = 48%nat → is_minute x → is_minute last →
  (last - x) mod MINUTES_OF_DAY <= Z.of_nat fuel →
  ∃ mask', fill_minutes fuel x last mask = Some mask' ∧ length mask' = 48%nat
    ∧ ∀ y, is_minute y → minute_set mask' y ↔ minute_set mask y ∨ covers x last y.
Proof.
  unfold is_minute, MINUTES_OF_DAY.
  revert x mask. induction fuel as [|fuel IH]; intros x mask Hlen Hx Hl Hf; cbn [fill_minutes];
    destruct (Z.eqb_spec x last) as [->|Hne].
  1, 3: eexists; split; [done|]; rewrite set_minute_length; split; [done|]; intros y Hy;
    rewrite set_minute_spec by done; unfold covers; rewrite decide_True by lia; intuition lia.
  - pose proof (Z.mod_pos_bound (last - x) (24 * 60) ltac:(lia)).
    assert ((last - x) mod (24 * 60) = 0) as E by lia. apply Z.mod_divide in E as [q E]; [|lia]. lia.
  - unfold MINUTES_OF_DAY. set (next := (x + 1) mod (24 * 60)).
    assert (0 <= next < 24 * 60 ∧ (next = x + 1 ∧ x + 1 < 1440 ∨ next = 0 ∧ x + 1 = 1440)) as [Hn Hnext].
    { unfold next. split; [apply Z.mod_pos_bound; lia|]. destruct (decide (x + 1 = 1440)) as [->|]; [by right|].
      left. rewrite Z.mod_small by lia. lia. }
    assert ((last - next) mod (24 * 60) <= Z.of_nat fuel) as Hf'.
    { assert ((last - next) mod (24 * 60) = (last - x) mod (24 * 60) - 1) as ->; [|lia].
      clear -Hx Hl Hne Hnext. clearbody next.
      pose proof (Z.div_mod (last - next) (24 * 60) ltac:(lia)).
      pose proof (Z.mod_pos_bound (last - next) (24 * 60) ltac:(lia)).
      pose proof (Z.div_mod (last - x) (24 * 60) ltac:(lia)).
      pose proof (Z.mod_pos_bound (last - x) (24 * 60) ltac:(lia)). lia. }
    destruct (IH next (set_minute x mask)) as (mask'&->&Hlen'&Hm); [by rewrite set_minute_length|done..|].
    exists mask'. split_and!; [done..|]. intros y Hy. rewrite (Hm y Hy), set_minute_spec by done.
    unfold covers. clear -Hx Hl Hne Hnext Hy. clearbody next.
    destruct (decide (next <= last)), (decide (x <= last)); intuition lia.
Qed.

Lemma scan_time_minute s x : scan_time s = Some x → is_minute x.
Proof.
  unfold scan_time. destruct (scan_2d_2d s) as [[h m]|]; [|done]. cbn [mbind option_bind].
  destruct (Z.ltb_spec h 0); [done|]. rewrite !Z.gtb_ltb. destruct (Z.ltb_spec 23 h); [done|].
  destruct (Z.ltb_spec m 0); [done|]. destruct (Z.ltb_spec 59 m); [done|]. cbn [orb]. intros [= <-].
  unfold is_minute, MINUTES_OF_DAY. lia.
Qed.

(** The word and the bit of a minute. *)
Lemma minute_word h m : 0 <= m < 60 →
  h * 2 + (if m >=? 30 then 1 else 0) = (h * 60 + m) / 30
  ∧ (if m >=? 30 then m - 30 else m) = (h * 60 + m) mod 30 ∧ m mod 30 = (h * 60 + m) mod 30.
Proof.
  intros Hm. rewrite Z.geb_leb. replace (h * 60 + m) with (m + (h * 2) * 30) by lia.
  rewrite Z.div_add, Z_mod_plus_full by lia. destruct (Z.leb_spec 30 m).
  - rewrite <- (Zmod_unique m 30 1 (m - 30)), <- (Z.div_unique m 30 1 (m - 30)) by lia. lia.
  - rewrite Z.mod_small, Z.div_small by lia. lia.
Qed.

Lemma time_element_spec part mask : length mask = 48%nat →
  ∃ mask', time_element part mask = Some mask' ∧ length mask' = 48%nat
    ∧ ∀ y, is_minute y → minute_set mask' y ↔
        minute_set mask y ∨ ∃ s e, time_bounds part = Some (s, e) ∧ covers s e y.
Proof.
  intros Hl. assert (∃ mask', Some mask = Some mask' ∧ length mask' = 48%nat
    ∧ ∀ y, is_minute y → minute_set mask' y ↔
        minute_set mask y ∨ ∃ s e, @None (Z * Z) = Some (s, e) ∧ covers s e y) as Hskip.
  { exists mask. split_and!; [done..|]. naive_solver. }
  unfold time_element, time_bounds. destruct (strsep [DASH] part) as [first [p|]].
  - assert (scan_time [] = None) as Hnil by done.
    assert (∀ endpart, ∃ mask', match scan_time first, scan_time endpart with
        | Some start, Some last => fill_minutes (Z.to_nat MINUTES_OF_DAY) start last mask
        | _, _ => Some mask end = Some mask' ∧ length mask' = 48%nat
      ∧ ∀ y, is_minute y → minute_set mask' y ↔ minute_set mask y ∨ ∃ s e,
          (s ← scan_time first; e ← scan_time endpart; Some (s, e)) = Some (s, e) ∧ covers s e y) as H.
    { intros endpart. destruct (scan_time first) as [s|] eqn:Es; [|exact Hskip].
      destruct (scan_time endpart) as [e|] eqn:Ee; [|exact Hskip]. cbn [mbind option_bind].
      apply scan_time_minute in Es, Ee.
      destruct (fill_minutes_spec (Z.to_nat MINUTES_OF_DAY) s e mask) as (mask'&->&Hl'&Hm); [done..| |].
      { pose proof (Z.mod_pos_bound (e - s) MINUTES_OF_DAY). unfold MINUTES_OF_DAY in *. lia. }
      exists mask'. split_and!; [done..|]. intros y Hy. rewrite (Hm y Hy). naive_solver. }
    destruct (skip_to_digit p) as [|c endpart] eqn:Ep; [|apply H].
    rewrite Hnil. destruct (scan_time first); exact Hskip.
  - unfold scan_time. destruct (scan_2d_2d first) as [[h m]|]; [|exact Hskip]. cbn [mbind option_bind].
    destruct (_ || _ || _ || _) eqn:E; [exact Hskip|]. cbn [mbind option_bind].
    rewrite !orb_false_iff, !Z.gtb_ltb, !Z.ltb_ge in E. destruct E as [[[Hh0 Hh] Hm0] Hm].
    destruct (minute_word h m) as (E1&_&E2); [lia|]. rewrite E1, E2. fold (set_minute (h * 60 + m) mask).
    assert (is_minute (h * 60 + m)) as Hmin by (unfold is_minute, MINUTES_OF_DAY; lia).
    eexists. split; [done|]. rewrite set_minute_length. split; [done|]. intros y Hy.
    rewrite set_minute_spec by done. split.
    + intros [->|?]; [right|by left]. eexists _, _. split; [done|]. unfold covers. rewrite decide_True by lia. lia.
    + intros [?|(s&e&[= <- <-]&Hc)]; [by right|left]. unfold covers in Hc. rewrite decide_True in Hc by lia. lia.
Qed.

Lemma get_timerange_spec times :
  ∃ mask, get_timerange times = Some mask ∧ length mask = 48%nat
    ∧ ∀ y, is_minute y → minute_set mask y ↔ listed time_bounds times y.
Proof.
  unfold get_timerange, listed. destruct (is_star times).
  - eexists. split; [done|]. split; [done|]. intros y Hy. split; [by left|intros _].
    destruct (minute_place y Hy) as [H1 H2]. unfold minute_set. rewrite lookup_replicate_2 by lia.
    change 0x3fffffff with (Z.ones 30). cbn [default]. by apply Z.ones_spec_low.
  - destruct (fold_elements minute_set (λ m, length m = 48%nat) (λ m part, time_element part m) time_bounds is_minute
      (tokens [AMPERSAND] times) (replicate 48 0)) as (m&E&Hl&Hm); [|done|].
    + intros m part Hl. by apply time_element_spec.
    + exists m. split_and!; [done..|]. intros y Hy. rewrite (Hm y Hy).
      assert (¬ minute_set (replicate 48 0) y) as Hno.
      { destruct (minute_place y Hy) as [H1 H2]. unfold minute_set. rewrite lookup_replicate_2 by lia.
        cbn [default]. by rewrite Z.bits_0. }
      split; (intros [?|?]; [done|by right]).
Qed.

End Masks.

(** ** The fields of a specification *)
Module Fields.

Import Spec Masks.

(** What is left of the specification, as the pointer [info], after some
    fields. *)
Definition rest_fields (info : option cstring) : list cstring :=
  match info with Some s => tokens SEPARATORS s | None => [] end.

Lemma strsep_fields s f rest : strsep SEPARATORS s = (f, rest) → tokens SEPARATORS s = f :: rest_fields rest.
Proof. intros E. by rewrite CString.Compare.tokens_strsep, E. Qed.

(** A field that is there or is not. *)
Lemma field_range_spec info max names mask : 0 < max <= 31 → names_ok names max → mask = Z.ones max →
  ∃ m rest, field_range info max names mask = Some (m, rest) ∧ rest_fields rest = tail (rest_fields info)
    ∧ ∀ k, 0 <= k < max → Z.testbit m k = true ↔
        listed (λ p, range_bounds p max names) (default [] (rest_fields info !! 0%nat)) k.
Proof.
  intros Hmax Hn ->. unfold field_range. destruct info as [s|].
  - destruct (strsep SEPARATORS s) as [f rest] eqn:E. destruct (get_range_spec f max names Hmax Hn) as (m&->&Hm).
    cbn [mbind option_bind]. exists m, rest. cbn [rest_fields]. rewrite (strsep_fields s f rest E).
    split_and!; [done..|exact Hm].
  - exists (Z.ones max), None. split_and!; [done..|]. intros k Hk. split; [intros _; by left|].
    intros _. by apply Z.ones_spec_low.
Qed.

Lemma tokens_single delim s : length (tokens delim s) = 1%nat → tokens delim s = [s].
Proof.
  induction s as [|c s IH]; [done|]. cbn [tokens]. pose proof (CString.Compare.tokens_strsep delim s) as E.
  case_bool_decide; [rewrite E; simpl; lia|].
  destruct (tokens delim s) as [|t ts] eqn:Et; [done|]. cbn [length]. intros Hl.
  specialize (IH Hl). clear E. by simplify_eq.
Qed.

Lemma count_fields_spec info num l :
  count_fields info num l =
    (num + Z.of_nat (length (tokens SEPARATORS info)) - 1,
     if decide (length (tokens SEPARATORS info) = 1%nat) then l else last (tokens SEPARATORS info)).
Proof.
  revert num l. induction info as [|c info IH]; intros num l; cbn [count_fields tokens].
  { simpl. f_equal. lia. }
  rewrite !IH. pose proof (tokens_single SEPARATORS info) as H1.
  pose proof (CString.Compare.tokens_strsep SEPARATORS info) as E.
  destruct (tokens SEPARATORS info) as [|t ts]; [done|]. clear E. case_bool_decide; cbn [length].
  - f_equal; [lia|]. rewrite (decide_False (P := S (S (length ts)) = 1%nat)) by lia.
    destruct ts as [|t' ts]; [|done]. specialize (H1 eq_refl). by simplify_eq.
  - f_equal. by destruct ts.
Qed.

(** *** Building and checking *)

Lemma build_spec i info : info ≠ [] →
  ∃ i', ast_build_timing i info = Some (1, i')
    ∧ timezone i' = (if decide (length (tokens SEPARATORS info) = 5%nat) then tokens SEPARATORS info !! 4%nat else None)
    ∧ (∀ y, is_minute y → minute_set (minmask i') y ↔ listed time_bounds (field info 0) y)
    ∧ (∀ k, 0 <= k < 7 → Z.testbit (dowmask i') k = true ↔
         listed (λ p, range_bounds p 7 (Some days)) (field info 1) k)
    ∧ (∀ k, 0 <= k < 31 → Z.testbit (daymask i') k = true ↔
         listed (λ p, range_bounds p 31 None) (field info 2) k)
    ∧ (∀ k, 0 <= k < 12 → Z.testbit (monthmask i') k = true ↔
         listed (λ p, range_bounds p 12 (Some months)) (field info 3) k).
Proof.
  intros Hne. unfold ast_build_timing, field. destruct info as [|c info'] eqn:Ei; [done|]. rewrite <- Ei. clear Hne.
  rewrite count_fields_spec. destruct (strsep SEPARATORS info) as [times r0] eqn:Es.
  rewrite (strsep_fields _ _ _ Es).
  destruct (get_timerange_spec times) as (mins&->&_&Hmins). cbn [mbind option_bind].
  destruct (field_range_spec r0 7 (Some days) 0x7f) as (dow&r1&->&E1&Hdow); [lia|by intros ? [= <-]|done|].
  cbn [mbind option_bind].
  destruct (field_range_spec r1 31 None 0x7fffffff) as (day&r2&->&E2&Hday); [lia|by intros ? [=]|done|].
  cbn [mbind option_bind].
  destruct (field_range_spec r2 12 (Some months) 0xfff) as (mon&r3&->&_&Hmon); [lia|by intros ? [= <-]|done|].
  cbn [mbind option_bind]. eexists. split; [done|]. cbn [timezone minmask dowmask daymask monthmask].
  rewrite E2, E1 in Hmon. rewrite E1 in Hday. split_and!.
  - destruct (rest_fields r0) as [|f1 [|f2 [|f3 [|f4 [|f5 fs]]]]]; cbn [length];
      try (destruct (decide _); [done|]); try done.
    destruct (Z.eqb_spec (1 + Z.of_nat (S (S (S (S (S (S (length fs))))))) - 1) 5); [lia|].
    by destruct (decide _).
  - exact Hmins.
  - exact Hdow.
  - intros k Hk. rewrite (Hday k Hk). by destruct (rest_fields r0) as [|f1 [|f2 fs]].
  - intros k Hk. rewrite (Hmon k Hk). by destruct (rest_fields r0) as [|f1 [|f2 [|f3 fs]]].
Qed.

Lemma check_tm_spec i tm : tm_ok tm →
  check_tm i tm ≠ 0 ↔ minute_set (minmask i) (tm_hour tm * 60 + tm_min tm)
    ∧ Z.testbit (dowmask i) (tm_wday tm) = true ∧ Z.testbit (daymask i) (tm_mday tm - 1) = true
    ∧ Z.testbit (monthmask i) (tm_mon tm) = true.
Proof.
  intros (Hmon&Hday&Hdow&Hh&Hm). unfold check_tm. destruct (minute_word (tm_hour tm) (tm_min tm) Hm) as (E1&E2&_).
  rewrite E1, E2. unfold minute_set.
  assert (0 <= (tm_hour tm * 60 + tm_min tm) mod 30) as Hb by (apply Z.mod_pos_bound; lia).
  rewrite <- !bit_set_spec by lia. rewrite Z.gtb_ltb.
  destruct (Z.ltb_spec (tm_hour tm) 0); [lia|]. destruct (Z.ltb_spec 23 (tm_hour tm)); [lia|]. cbn [orb].
  destruct (bit_set (monthmask i) _), (bit_set (daymask i) _), (bit_set (dowmask i) _), (bit_set (default 0 _) _);
    cbn [negb]; intuition congruence.
Qed.

End Fields.

(** ** Theorems *)
Module Properties.

Import Spec Masks Fields.

(** C14: a time specification is built into masks (every loop ends, whatever the
    text) that say what it says: a point in time passes [ast_check_timing2]
    exactly when its minute, day of the week, day and month are each covered by
    an element of the field for them, ranges running cyclically past midnight,
    Saturday, the 31st and December, and an absent or starred field covering
    everything; a fifth field is the time zone the time is taken in. *)
Theorem ast_check_timing_correct {timeval : Type} (ast_localtime : timeval → option cstring → ast_tm) i info tv :
  info ≠ [] → (∀ tv tz, tm_ok (ast_localtime tv tz)) →
  let tz := if decide (length (tokens SEPARATORS info) = 5%nat) then tokens SEPARATORS info !! 4%nat else None in
  ∃ i', ast_build_timing i info = Some (1, i')
    ∧ (ast_check_timing2 ast_localtime i' tv ≠ 0 ↔ within info (ast_localtime tv tz)).
Proof.
  intros Hne Htm tz. destruct (build_spec i info Hne) as (i'&E&Etz&H1&H2&H3&H4). exists i'. split; [done|].
  unfold ast_check_timing2. rewrite Etz. fold tz. pose proof (Htm tv tz) as Hok.
  rewrite check_tm_spec by done. unfold within. destruct Hok as (?&?&?&?&?).
  rewrite H1, H2, H3, H4 by (unfold is_minute, MINUTES_OF_DAY; lia). done.
Qed.

Lemma ast_check_timing_correct_witness :
  ∃ i', ast_build_timing Examples.no_timing (cstr "22:00-9:00,fri-wed,*,*,UTC") = Some (1, i')
    ∧ (ast_check_timing2 (λ (_ : unit) _, Examples.when) i' tt ≠ 0 ↔
       within (cstr "22:00-9:00,fri-wed,*,*,UTC") Examples.when).
Proof.
  apply (ast_check_timing_correct (λ (_ : unit) _, Examples.when) Examples.no_timing
           (cstr "22:00-9:00,fri-wed,*,*,UTC") tt).
  - done.
  - intros _ _. unfold tm_ok. simpl. lia.
Defined.

End Properties.
