(* ===== verification/Dialplan.v ===== *)
(** * Contexts of the dialplan ([main/pbx.c])

    A context holds its extensions as a list sorted by [ext_cmp] and caller id;
    the entries of one extension, one per priority, are a list of peers with
    hash tables by priority and by label at its head.  [ast_add_extension2]
    keeps the lists, [pbx_find_extension] searches them, first in the context,
    then in its switches and includes.

    - [Model]: the functions of the source.  The peers of an extension with
      their two tables are one record (the tables hang on the first peer), the
      [next] chain is the list of these records.  Structures have addresses; the
      trie may point to one that is no longer the head of its peers (its tables
      are NULL then) or that was freed (an access to it is [None], as is every
      access through NULL and every call that does not return).
    - [Tables], [Ordering]: the laws of the functions of the tables, and the
      order of extensions as a total preorder.
    - [Inv], [Adding], [AddExtension], [Entries]: the invariant of a context and
      what an addition does to it.
    - [Search]: what the search of one context returns.
    - [Includes]: the search through includes ends.
    - [RoundTrip]: what was added is found.
    - [Properties]: the theorems. *)

From stdpp Require Import base numbers list sets strings sorting.
From Stdlib Require Import ZArith Lia.
From S2P Require Import Prelude Pattern Hashtab PatternTree CString PbxTiming.
Import Pattern.Model Hashtab.Model CString.Model PbxTiming.Model PatternTree.Model PatternTree.

Module Model.

Definition S_OR (s : option cstring) : cstring := default [] s.

(** *** Tables of extensions *)

Definition hashtab_compare_extens (ac bc : ast_exten) : Z :=
  let x := strcmp (exten ac) (exten bc) in
  if negb (x =? 0) then x
  else if (matchcid ac =? AST_EXT_MATCHCID_ANY) || (matchcid bc =? AST_EXT_MATCHCID_ANY) then 0
  else if (matchcid ac =? AST_EXT_MATCHCID_OFF) && (matchcid bc =? AST_EXT_MATCHCID_OFF) then 0
  else if negb (matchcid ac =? matchcid bc) then 1
  else strcmp (cidmatch ac) (cidmatch bc).

Definition hashtab_compare_exten_numbers (ac bc : ast_exten) : Z := b2z (negb (priority ac =? priority bc)).

Definition hashtab_compare_exten_labels (ac bc : ast_exten) : Z :=
  strcmp (S_OR (label ac)) (S_OR (label bc)).

Definition hashtab_hash_extens (obj : ast_exten) : Z :=
  let y := if matchcid obj =? AST_EXT_MATCHCID_ON then ast_hashtab_hash_string (cidmatch obj) else 0 in
  u32 (ast_hashtab_hash_string (exten obj) + y).

Definition hashtab_hash_priority (obj : ast_exten) : Z := ast_hashtab_hash_int (priority obj).

Definition hashtab_hash_labels (obj : ast_exten) : Z := ast_hashtab_hash_string (S_OR (label obj)).

Abbreviation table := (ast_hashtab ast_exten).

(** *** Contexts *)

(** The peers of an extension, lowest priority first. *)
Record peers := Peers { peer_list : list ast_exten; peer_table : table; peer_label_table : table }.

Record ast_include := Include {
  inc_name : cstring; rname : cstring; inc_registrar : option cstring; hastime : Z; timing : ast_timing }.

Record ast_sw := Sw { sw_name : cstring; sw_registrar : option cstring; sw_data : cstring; sw_eval : bool }.

(** The registrar of an ignored pattern is only compared as a pointer. *)
Record ast_ignorepat := Ignorepat { pattern : cstring; ip_registrar : option nat }.

Record ast_context := Context {
  con_name : cstring;
  root : list peers;
  root_table : option table;
  pattern_tree : list match_char;
  includes : list ast_include;
  alts : list ast_sw;
  ignorepats : list ast_ignorepat;
}.

Definition set_root (con : ast_context) (r : list peers) : ast_context :=
  Context (con_name con) r (root_table con) (pattern_tree con) (includes con) (alts con) (ignorepats con).
Definition set_root_table (con : ast_context) (t : option table) : ast_context :=
  Context (con_name con) (root con) t (pattern_tree con) (includes con) (alts con) (ignorepats con).
Definition set_pattern_tree (con : ast_context) (t : list match_char) : ast_context :=
  Context (con_name con) (root con) (root_table con) t (includes con) (alts con) (ignorepats con).
Definition set_includes (con : ast_context) (l : list ast_include) : ast_context :=
  Context (con_name con) (root con) (root_table con) (pattern_tree con) l (alts con) (ignorepats con).
Definition set_alts (con : ast_context) (l : list ast_sw) : ast_context :=
  Context (con_name con) (root con) (root_table con) (pattern_tree con) (includes con) l (ignorepats con).
Definition set_ignorepats (con : ast_context) (l : list ast_ignorepat) : ast_context :=
  Context (con_name con) (root con) (root_table con) (pattern_tree con) (includes con) (alts con) l.

(** What an operation does outside the context, in order. *)
Inductive event :=
| DestroyData (d : Z)
| FreeExten (a : nat)
| AddHint (e : ast_exten)
| ChangeHint (oe ne : ast_exten)
| RemoveHint (e : ast_exten).

Definition PRIORITY_HINT : Z := -1.

(** [if (e->datad) e->datad(e->data)] *)
Definition destroy_data (e : ast_exten) : list event := if datad e then [DestroyData (data e)] else [].

Section Add.
(** The size function of the tables, [ast_hashtab_newsize_java]; the expansion
    of the variables of a hint, from the context, the extension and the text. *)
Context (newsize_java : Z → option Z) (substitute_hint : cstring → cstring → cstring → cstring).

Definition ast_hashtab_insert_safe (t : table) (e : ast_exten) : option table :=
  snd <$> _ast_hashtab_insert_safe (true, true) t e.
Definition remove_via_lookup (t : table) (e : ast_exten) : option table :=
  snd <$> ast_hashtab_remove_object_via_lookup t e.

(** [if (e->label)] around an operation on the label table. *)
Definition if_label (e : ast_exten) (f : table → ast_exten → option table) (t : table) : option table :=
  match label e with Some _ => f t e | None => Some t end.

Definition drop_label (e : ast_exten) : ast_exten :=
  Exten (addr e) (exten e) (name e) (matchcid e) (cidmatch e) (cidmatch_display e) (priority e) None (app e)
    (data e) (datad e) (registrar e) (registrar_file e) (registrar_line e).

(** The loop of [add_priority]: the peers before the place of [tmp], those
    from there on, and whether one of those looked at has its label. *)
Fixpoint scan_peers (es : list ast_exten) (tmp : ast_exten) : list ast_exten * list ast_exten * bool :=
  match es with
  | [] => ([], [], false)
  | e :: es' =>
      let repeated := match label e, label tmp with
                      | Some l, Some l' => negb (priority e =? priority tmp) && (strcmp l l' =? 0)
                      | _, _ => false
                      end in
      if priority e >=? priority tmp then ([], es, repeated)
      else let r := scan_peers es' tmp in (e :: r.1.1, r.1.2, repeated || r.2)
  end.

(** [x->exten = tmp] when the node of [e] is found and has an extension. *)
Definition replace_in_tree (tree : list match_char) (e tmp : ast_exten) : option (list match_char) :=
  x ← find_exten_in_pattern_tree tree e;
  match x with
  | None => Some tree
  | Some path =>
      n ← lookup_node path tree;
      Some (match node_exten n with
            | Some _ => alter_node (λ m, set_node_exten (deleted m) (Some tmp) m) path tree
            | None => tree
            end)
  end.

(** [add_priority]: [i] is the place of the peers of [e] in the list of the
    context, so there is an extension [el] before them when it is not 0. *)
Definition add_priority (con : ast_context) (tmp : ast_exten) (i : nat) (replace : bool)
    : option (Z * ast_context * list event) :=
  p ← root con !! i;
  let '(before, rest, repeated) := scan_peers (peer_list p) tmp in
  let tmp := if (repeated : bool) then drop_label tmp else tmp in
  let put (es : list ast_exten) (pt lt : table) (con : ast_context) :=
    set_root con (<[i := Peers es pt lt]> (root con)) in
  match rest with
  | [] =>
      pt ← ast_hashtab_insert_safe (peer_table p) tmp;
      lt ← if_label tmp ast_hashtab_insert_safe (peer_label_table p);
      Some (0, put (before ++ [tmp]) pt lt con, [])
  | e :: after =>
      if priority e =? priority tmp then
        if negb replace then Some (-1, con, []) else
        let hint := if priority tmp =? PRIORITY_HINT then [ChangeHint e tmp] else [] in
        let events := hint ++ destroy_data e ++ [FreeExten (addr e)] in
        match before with
        | _ :: _ =>
            pt ← remove_via_lookup (peer_table p) e;
            lt ← if_label e remove_via_lookup (peer_label_table p);
            pt ← ast_hashtab_insert_safe pt tmp;
            lt ← if_label tmp ast_hashtab_insert_safe lt;
            Some (0, put (before ++ tmp :: after) pt lt con, events)
        | [] =>
            tree ← replace_in_tree (pattern_tree con) e tmp;
            pt ← remove_via_lookup (peer_table p) e;
            pt ← ast_hashtab_insert_safe pt tmp;
            lt ← if_label e remove_via_lookup (peer_label_table p);
            lt ← if_label tmp ast_hashtab_insert_safe lt;
            rt ← root_table con;
            rt ← remove_via_lookup rt e;
            rt ← ast_hashtab_insert_safe rt tmp;
            rt ← (if decide (i = 0%nat)
                  then rt ← remove_via_lookup rt e; ast_hashtab_insert_safe rt tmp
                  else Some rt);
            Some (0, put (tmp :: after) pt lt (set_pattern_tree (set_root_table con (Some rt)) tree), events)
        end
      else
        let events := if priority tmp =? PRIORITY_HINT then [AddHint tmp] else [] in
        match before with
        | _ :: _ =>
            lt ← if_label tmp ast_hashtab_insert_safe (peer_label_table p);
            pt ← ast_hashtab_insert_safe (peer_table p) tmp;
            Some (0, put (before ++ tmp :: e :: after) pt lt con, events)
        | [] =>
            pt ← ast_hashtab_insert_safe (peer_table p) tmp;
            lt ← if_label tmp ast_hashtab_insert_safe (peer_label_table p);
            rt ← root_table con;
            rt ← remove_via_lookup rt e;
            rt ← ast_hashtab_insert_safe rt tmp;
            Some (0, put (tmp :: e :: after) pt lt (set_root_table con (Some rt)), events)
        end
  end.

(** The order of the list: the extension, then the caller id. *)
Definition exten_order (e tmp : ast_exten) : option Z :=
  res ← ext_cmp (exten e) (exten tmp);
  if res =? 0 then
    if (matchcid e =? AST_EXT_MATCHCID_OFF) && (matchcid tmp =? AST_EXT_MATCHCID_OFF) then Some 0
    else if (matchcid tmp =? AST_EXT_MATCHCID_ON) && (matchcid e =? AST_EXT_MATCHCID_OFF) then Some 1
    else if (matchcid e =? AST_EXT_MATCHCID_ON) && (matchcid tmp =? AST_EXT_MATCHCID_OFF) then Some (-1)
    else ext_cmp (cidmatch e) (cidmatch tmp)
  else Some res.

(** The scan of the list: the place, and the comparison there; at the end of
    the list there is none. *)
Fixpoint scan_root (chains : list peers) (tmp : ast_exten) (i : nat) : option (nat * option Z) :=
  match chains with
  | [] => Some (i, None)
  | p :: chains =>
      e ← head (peer_list p);
      res ← exten_order e tmp;
      if 0 <=? res then Some (i, Some res) else scan_root chains tmp (S i)
  end.

(** [strstr(s, "${")] *)
Fixpoint has_variable (s : cstring) : bool :=
  match s with
  | c :: s' => ((c =? 36) && (deref s' =? 123)) || has_variable s'
  | [] => false
  end.

Definition string_of (buffer : list Z) : cstring := c_prefix buffer.

Definition new_exten (a : nat) (extension : cstring) (prio : Z) (lab callerid : option cstring)
    (application : cstring) (dat : Z) (dtor : bool) (reg : cstring) (reg_file : option cstring) (reg_line : Z)
    : ast_exten :=
  let exten_fluff := if prio =? PRIORITY_HINT then 0 else ext_fluff_count extension in
  let nm := string_of (ext_strncpy extension (Z.of_nat (length extension) + 1) false) in
  let ext := if negb (exten_fluff =? 0)
             then string_of (ext_strncpy extension (Z.of_nat (length extension) + 1 - exten_fluff) true)
             else nm in
  let '(mcid, cid, cid_display) :=
    match callerid with
    | None => (AST_EXT_MATCHCID_OFF, [], [])
    | Some cid =>
        let display := string_of (ext_strncpy cid (Z.of_nat (length cid) + 1) false) in
        let fluff := ext_fluff_count cid in
        (AST_EXT_MATCHCID_ON,
         if negb (fluff =? 0)
         then string_of (ext_strncpy cid (Z.of_nat (length cid) + 1 - fluff) true) else display,
         display)
    end in
  Exten a ext nm mcid cid cid_display prio
    (match lab with Some [] => None | l => l end) application dat dtor reg reg_file reg_line.

(** A table made with the java policies. *)
Definition new_table (buckets : Z) (cmp : ast_exten → ast_exten → Z) (hash : ast_exten → Z) : option table :=
  _ast_hashtab_create 30 buckets cmp ast_hashtab_resize_java newsize_java hash.

(** The tree and the root table get an extension whose name is not there yet. *)
Definition add_to_tree (con : ast_context) (tmp : ast_exten) : option ast_context :=
  match pattern_tree con with
  | [] => Some con
  | tree =>
      let dummy := Exten 0 (string_of (ext_strncpy (exten tmp) 1024 true)) [] AST_EXT_MATCHCID_OFF [] [] 0 None
                     [] 0 false [] None 0 in
      tmp2 ← match root_table con with None => Some None | Some rt => ast_hashtab_lookup rt dummy end;
      match tmp2 with
      | Some _ => Some con
      | None =>
          tree ← add_exten_to_pattern_tree tree tmp;
          rt ← root_table con;
          rt ← ast_hashtab_insert_safe rt tmp;
          Some (set_pattern_tree (set_root_table con (Some rt)) tree)
      end
  end.

(** What is undone when the priority was refused. *)
Definition undo_add (con : ast_context) (tmp : ast_exten) : option ast_context :=
  match pattern_tree con with
  | [] => Some con
  | tree =>
      x ← find_exten_in_pattern_tree tree tmp;
      path ← x;
      n ← lookup_node path tree;
      let tree := match node_exten n with
                  | Some _ => alter_node (set_node_exten true None) path tree
                  | None => tree
                  end in
      rt ← root_table con;
      r ← ast_hashtab_remove_this_object rt tmp;
      Some (set_pattern_tree (set_root_table con (Some (r.2))) tree)
  end.

(** The first entry with this name: [i] is its place in the list. *)
Definition insert_first (con : ast_context) (tmp : ast_exten) (i : nat) : option (ast_context * list event) :=
  pt ← new_table 13 hashtab_compare_exten_numbers hashtab_hash_priority;
  lt ← new_table 7 hashtab_compare_exten_labels hashtab_hash_labels;
  rt ← match root_table con with
       | Some rt => Some rt
       | None => if decide (i = 0%nat) then new_table 27 hashtab_compare_extens hashtab_hash_extens else None
       end;
  lt ← if_label tmp ast_hashtab_insert_safe lt;
  pt ← ast_hashtab_insert_safe pt tmp;
  rt ← ast_hashtab_insert_safe rt tmp;
  let chains := take i (root con) ++ Peers [tmp] pt lt :: drop i (root con) in
  Some (set_root_table (set_root con chains) (Some rt),
        if priority tmp =? PRIORITY_HINT then [AddHint tmp] else []).

(** [alloc] is the address [calloc] returns, if it succeeds. *)
Definition ast_add_extension2_lockopt (alloc : option nat) (con : ast_context) (replace : bool)
    (extension : cstring) (prio : Z) (lab callerid : option cstring) (application : cstring)
    (dat : Z) (dtor : bool) (reg : cstring) (reg_file : option cstring) (reg_line : Z)
    : option (Z * ast_context * list event) :=
  let destroy := if dtor then [DestroyData dat] else [] in
  match extension, alloc with
  | [], _ => Some (-1, con, destroy)
  | _, None => Some (-1, con, destroy)
  | _, Some a =>
      let application := if (prio =? PRIORITY_HINT) && has_variable application
                            && negb (deref extension =? UNDERSCORE)
                         then substitute_hint (con_name con) extension application else application in
      let tmp := new_exten a extension prio lab callerid application dat dtor reg reg_file reg_line in
      con ← add_to_tree con tmp;
      '(i, res) ← scan_root (root con) tmp 0;
      if bool_decide (res = Some 0) then
        '(r, con, events) ← add_priority con tmp i replace;
        if (r : Z) <? 0 then
          con ← undo_add con tmp;
          Some (-1, con, events ++ destroy_data tmp ++ [FreeExten a])
        else Some (0, con, events)
      else
        '(con, events) ← insert_first con tmp i;
        Some (0, con, events)
  end.

Definition ast_add_extension2 := ast_add_extension2_lockopt.

End Add.

(** *** Searching *)

Definition STATUS_NO_CONTEXT : Z := 1.
Definition STATUS_NO_EXTENSION : Z := 2.
Definition STATUS_NO_PRIORITY : Z := 3.
Definition STATUS_NO_LABEL : Z := 4.
Definition STATUS_SUCCESS : Z := 5.

Definition AST_PBX_MAX_STACK : Z := 512.

(** A function of a switch: from the context, the extension, the priority, the
    caller id and the data of the switch. *)
Definition ast_switch_f : Type := cstring → cstring → Z → option cstring → option cstring → Z.

Record ast_switch := Switch {
  switch_name : cstring;
  sw_exists : option ast_switch_f;
  sw_canmatch : option ast_switch_f;
  sw_matchmore : option ast_switch_f;
}.

Record pbx_find_info := FindInfo {
  incstack : list cstring;
  status : Z;
  swo : option ast_switch;
  q_data : option cstring;
  foundcontext : option cstring;
}.

(** [stacklen] is the length of [incstack]. *)
Definition stacklen (q : pbx_find_info) : Z := Z.of_nat (length (incstack q)).

Definition set_status (s : Z) (q : pbx_find_info) : pbx_find_info :=
  FindInfo (incstack q) s (swo q) (q_data q) (foundcontext q).
(** [if (q->status < s) q->status = s] *)
Definition raise_status (s : Z) (q : pbx_find_info) : pbx_find_info :=
  if status q <? s then set_status s q else q.
Definition set_found (con : cstring) (q : pbx_find_info) : pbx_find_info :=
  FindInfo (incstack q) STATUS_SUCCESS (swo q) (q_data q) (Some con).
Definition set_switch (asw : ast_switch) (d : option cstring) (con : cstring) (q : pbx_find_info) : pbx_find_info :=
  FindInfo (incstack q) (status q) (Some asw) d (Some con).
Definition push_context (con : cstring) (q : pbx_find_info) : pbx_find_info :=
  FindInfo (incstack q ++ [con]) (status q) (swo q) (q_data q) (foundcontext q).

(** The contexts, and the one that is searched instead of them, if any. *)
Record dialplan := Dialplan { contexts : list ast_context; bypass : option ast_context }.

Definition find_context (l : list ast_context) (context : cstring) : option ast_context :=
  head (filter (λ c, strcmp context (con_name c) = 0) l).

(** The structure behind a context pointer after it is written. *)
Definition store_context (d : dialplan) (con : ast_context) : dialplan :=
  match bypass d with
  | Some _ => Dialplan (contexts d) (Some con)
  | None => Dialplan ((λ c, if decide (strcmp (con_name con) (con_name c) = 0) then con else c) <$> contexts d) None
  end.

(** What a search of one context decides. *)
Inductive verdict := Return (e : option ast_exten) | Continue.

(** The peers an extension pointer of the trie leads to: [Some None] when its
    tables are NULL, [None] when it was freed. *)
Definition tables_of (con : ast_context) (e : ast_exten) : option (option peers) :=
  match filter (λ p, addr <$> head (peer_list p) = Some (addr e)) (root con) with
  | p :: _ => Some (Some p)
  | [] => if existsb (λ p, bool_decide (addr e ∈ addr <$> peer_list p)) (root con) then Some None else None
  end.

Section Find.
(** The parameters of the search that are not in the contexts: the registered
    switches, the expansion of variables, the time now in a time zone, the
    settings [overrideswitch] and [extenpatternmatchnew]. *)
Context (pbx_findswitch : cstring → option ast_switch) (pbx_substitute_variables : cstring → cstring)
        (localtime_now : option cstring → ast_tm) (overrideswitch : cstring) (extenpatternmatchnew : bool).

Definition include_valid (inc : ast_include) : Z :=
  if hastime inc =? 0 then 1 else ast_check_timing (λ _ : unit, localtime_now) tt (timing inc).

Section Query.
Context (exten' : cstring) (priority' : Z) (label' callerid : option cstring) (action : Z).

(** The key for the tables: [pattern.label], [pattern.priority]. *)
Definition key : ast_exten := Exten 0 [] [] 0 [] [] priority' label' [] 0 false [] None 0.

(** The entry of the peers that is asked for, and the status. *)
Definition lookup_peer (p : option peers) (q : pbx_find_info) : option (option ast_exten * pbx_find_info) :=
  let q := raise_status STATUS_NO_PRIORITY q in
  let look (t : peers → table) := match p with None => Some None | Some p => ast_hashtab_lookup (t p) key end in
  if (action =? E_FINDLABEL) && bool_decide (is_Some label') then
    e ← look peer_label_table; Some (e, raise_status STATUS_NO_LABEL q)
  else e ← look peer_table; Some (e, q).

(** The default algorithm: the list in order. *)
Fixpoint linear_search (context : cstring) (chains : list peers) (q : pbx_find_info)
    : option (verdict * pbx_find_info) :=
  match chains with
  | [] => Some (Continue, q)
  | p :: chains =>
      eroot ← head (peer_list p);
      match' ← extension_match_core (Some (exten eroot)) (Some exten') action;
      if match' =? 0 then linear_search context chains q else
      cid ← (if negb (matchcid eroot =? 0) then Pattern.Model.matchcid (Some (cidmatch eroot)) callerid
             else Some 1);
      if cid =? 0 then linear_search context chains q else
      if (match' =? 2) && (action =? E_MATCHMORE) then Some (Return None, q) else
      '(e, q) ← lookup_peer (Some p) q;
      match (e : option ast_exten) with
      | Some e => Some (Return (Some e), set_found context q)
      | None => linear_search context chains q
      end
  end.

(** The trie. *)
Definition tree_search (context : cstring) (con : ast_context) (q : pbx_find_info)
    : option (verdict * pbx_find_info) :=
  let has_label (e : ast_exten) :=
    p ← tables_of con e;
    match p with
    | None => Some false
    | Some p => r ← ast_hashtab_lookup (peer_label_table p) key; Some (bool_decide (is_Some r))
    end in
  score ← new_find_extension has_label callerid action exten' no_score (pattern_tree con) 0 0;
  let digging := (action =? E_CANMATCH) || (action =? E_MATCHMORE) in
  if (last_char score =? BANG) && (action =? E_MATCHMORE) then Some (Return None, q) else
  match score_exten score, canmatch_exten score with
  | None, Some e => if digging then Some (Return (Some e), set_status STATUS_SUCCESS q) else Some (Continue, q)
  | None, None => Some (Continue, q)
  | Some eroot, can =>
      if digging then
        Some (Return (match node score with
                      | Some n => match trie_find_next_match n with Some z => Some z | None => can end
                      | None => None
                      end), q)
      else
        p ← tables_of con eroot;
        '(e, q) ← lookup_peer p q;
        match (e : option ast_exten) with
        | Some e => Some (Return (Some e), set_found context q)
        | None => Some (Continue, q)
        end
  end.

(** The function of the switch for the kind of search. *)
Definition switch_matches (asw : ast_switch) (context : cstring) (datap : option cstring) : bool :=
  let aswf := if action =? E_CANMATCH then sw_canmatch asw
              else if action =? E_MATCHMORE then sw_matchmore asw else sw_exists asw in
  match aswf with
  | None => false
  | Some f => negb (f context exten' priority' callerid datap =? 0)
  end.

Definition has_dollar (s : cstring) : bool := bool_decide (36 ∈ s).

(** The switch that overrides the dialplan. *)
Definition override_search (context : cstring) (q : pbx_find_info) : option pbx_find_info :=
  match overrideswitch with
  | [] => None
  | _ =>
      let '(nm, osw) := strsep [SLASH] overrideswitch in
      asw ← pbx_findswitch nm;
      let datap := match osw with
                   | Some o => if has_dollar o then Some (pbx_substitute_variables o) else Some o
                   | None => None
                   end in
      if switch_matches asw context datap then Some (set_switch asw datap context q) else None
  end.

Fixpoint switches_search (context : cstring) (sws : list ast_sw) (q : pbx_find_info) : option pbx_find_info :=
  match sws with
  | [] => None
  | sw :: sws =>
      match pbx_findswitch (sw_name sw) with
      | None => switches_search context sws q
      | Some asw =>
          let datap := if sw_eval sw then pbx_substitute_variables (sw_data sw) else sw_data sw in
          if switch_matches asw context (Some datap)
          then Some (set_switch asw (Some datap) context q)
          else switches_search context sws q
      end
  end.

(** The includes in order, until one finds an extension or a switch. *)
Definition try_includes
    (search : dialplan → pbx_find_info → cstring → option (option ast_exten * dialplan * pbx_find_info)) :=
  fix go (incs : list ast_include) (d : dialplan) (q : pbx_find_info)
      : option (option ast_exten * dialplan * pbx_find_info) :=
    match incs with
    | [] => Some (None, d, q)
    | i :: incs =>
        if negb (include_valid i =? 0) then
          '(e, d, q) ← search d q (rname i);
          match (e : option ast_exten) with
          | Some e => Some (Some e, d, q)
          | None => match swo q with Some _ => Some (None, d, q) | None => go incs d q end
          end
        else go incs d q
    end.

(** [pbx_find_extension]: the extension, the dialplan (a context may get its
    tree) and the information. *)
Fixpoint pbx_find_extension (fuel : nat) (d : dialplan) (q : pbx_find_info) (context : cstring)
    : option (option ast_exten * dialplan * pbx_find_info) :=
  match fuel with
  | O => None
  | S fuel =>
      let q := if stacklen q =? 0 then FindInfo (incstack q) STATUS_NO_CONTEXT None None None else q in
      if negb (stacklen q =? 0) && (AST_PBX_MAX_STACK <=? stacklen q) then Some (None, d, q) else
      if existsb (λ c, strcasecmp c context =? 0) (incstack q) then Some (None, d, q) else
      match (match bypass d with Some b => Some b | None => find_context (contexts d) context end) with
      | None => Some (None, d, q)
      | Some tmp =>
          let q := raise_status STATUS_NO_EXTENSION q in
          tmp ← match pattern_tree tmp, root_table tmp with
                | [], Some rt => set_pattern_tree tmp <$> create_match_char_tree (object <$> tlist rt)
                | _, _ => Some tmp
                end;
          let d := store_context d tmp in
          match override_search context q with
          | Some q => Some (None, d, q)
          | None =>
              '(v, q) ← (if extenpatternmatchnew then tree_search context tmp q
                         else linear_search context (root tmp) q);
              match v with
              | Return e => Some (e, d, q)
              | Continue =>
                  match switches_search context (alts tmp) q with
                  | Some q => Some (None, d, q)
                  | None =>
                      try_includes (pbx_find_extension fuel) (includes tmp) d (push_context (con_name tmp) q)
                  end
              end
          end
      end
  end.

End Query.
End Find.

End Model.

Import Model.

(** ** Worked inputs *)
Module Examples.

Definition java : Z → option Z := ast_hashtab_newsize_java 100.
Definition no_switch : cstring → option ast_switch := λ _, None.
Definition empty_context (nm : cstring) : ast_context := Context nm [] None [] [] [] [].
Definition add (a : nat) (replace : bool) (e : cstring) (p : Z) (con : ast_context) : option (Z * ast_context) :=
  fst <$> ast_add_extension2 java (λ _ _ app, app) (Some a) con replace e p None None [] 0 false [] None 0.
Definition add_ok (a : nat) (e : cstring) (p : Z) (con : ast_context) : option ast_context :=
  snd <$> add a false e p con.
Definition start : pbx_find_info := FindInfo [] 0 None None None.
Definition find (new : bool) (con : ast_context) (e : cstring) (p : Z) : option (option nat * ast_context) :=
  match pbx_find_extension no_switch (λ s, s) (λ _, Tm 0 1 0 0 0) [] new e p None None E_MATCH 600
          (Dialplan [con] None) start (con_name con) with
  | Some (r, Dialplan (c :: _) _, _) => Some (addr <$> r, c)
  | _ => None
  end.

Definition ctx : cstring := cstr "default".

(** The exact name is preferred to a pattern, and a pattern to a wider one,
    whatever the order they are added in. *)
Example prefer_exact :
  (c ← add_ok 1 (cstr "_1X") 1 (empty_context ctx); c ← add_ok 2 (cstr "_X.") 1 c; c ← add_ok 3 (cstr "12") 1 c;
   r ← find false c (cstr "12") 1; r' ← find false c (cstr "13") 1; r'' ← find false c (cstr "23") 1;
   Some (fst r, fst r', fst r'')) = Some (Some 3%nat, Some 1%nat, Some 2%nat).
Proof. vm_compute. reflexivity. Qed.

(** A refused addition takes the extension that is there out of the trie. *)
Example refused_addition_hides_extension :
  (c ← add_ok 1 (cstr "100") 1 (empty_context ctx);
   '(r1, c) ← find true c (cstr "100") 1;
   '(res, c) ← add 2 false (cstr "100") 1 c;
   '(r2, c) ← find true c (cstr "100") 1;
   '(r3, c) ← find false c (cstr "100") 1;
   Some (r1, res, r2, r3)) = Some (Some 1%nat, -1, None, Some 1%nat).
Proof. vm_compute. reflexivity. Qed.

(** A priority added below those that are there is not found through the trie,
    nor are the others any more. *)
Example lower_priority_hides_extension :
  (c ← add_ok 1 (cstr "100") 2 (empty_context ctx);
   '(r1, c) ← find true c (cstr "100") 2;
   c ← add_ok 2 (cstr "100") 1 c;
   '(r2, c) ← find true c (cstr "100") 1;
   '(r3, c) ← find true c (cstr "100") 2;
   '(r4, c) ← find false c (cstr "100") 1;
   Some (r1, r2, r3, r4)) = Some (Some 1%nat, None, None, Some 2%nat).
Proof. vm_compute. reflexivity. Qed.

End Examples.

(** ** The tables of the peers obey the laws *)
Module Tables.

Import CString.Compare Hashtab.Spec Hashtab.Refine.

Lemma hash_string_bytes a b : bytes a = bytes b → ast_hashtab_hash_string a = ast_hashtab_hash_string b.
Proof.
  unfold ast_hashtab_hash_string. generalize 0.
  revert b. induction a as [|c a IH]; intros [|d b] t E; cbn [bytes hash_string_loop] in *.
  - done.
  - by destruct (Z.eqb_spec (u8 d) 0).
  - by destruct (Z.eqb_spec (u8 c) 0).
  - destruct (Z.eqb_spec (u8 c) 0), (Z.eqb_spec (u8 d) 0); try done.
    injection E as E1 E2. rewrite E1. by apply IH.
Qed.

#[export] Instance exten_numbers_laws : HashLaws hashtab_compare_exten_numbers hashtab_hash_priority.
Proof.
  assert (∀ a b, hashtab_compare_exten_numbers a b = 0 ↔ priority a = priority b) as E.
  { intros a b. unfold hashtab_compare_exten_numbers. by destruct (Z.eqb_spec (priority a) (priority b)). }
  split; intros *; rewrite ?E; try congruence. unfold hashtab_hash_priority. congruence.
Qed.

#[export] Instance exten_labels_laws : HashLaws hashtab_compare_exten_labels hashtab_hash_labels.
Proof.
  split; intros *; unfold hashtab_compare_exten_labels; rewrite ?strcmp_zero; try congruence.
  apply hash_string_bytes.
Qed.

Lemma compare_numbers_zero a b : hashtab_compare_exten_numbers a b = 0 ↔ priority a = priority b.
Proof. unfold hashtab_compare_exten_numbers. by destruct (Z.eqb_spec (priority a) (priority b)). Qed.

Section Table.
Context (cmp : ast_exten → ast_exten → Z) (hash' : ast_exten → Z) `{!HashLaws cmp hash'}.

Lemma table_insert (t : table) e : table_inv cmp hash' t →
  ∃ t', ast_hashtab_insert_safe t e = Some t' ∧ table_inv cmp hash' t' ∧ objects t' = add cmp e (objects t).
Proof.
  intros Ht. destruct (table_step_refines cmp hash' (Insert e) t Ht) as (t'&E&Ho&Hi).
  exists t'. split; [|done]. unfold ast_hashtab_insert_safe. cbn [step] in E.
  destruct (ast_hashtab_lookup t e); [|done]. cbn [mbind option_bind] in E.
  destruct (_ast_hashtab_insert_safe (true, true) t e) as [[r t2]|]; simplify_eq/=. done.
Qed.

Lemma table_remove (t : table) e : table_inv cmp hash' t →
  ∃ t', remove_via_lookup t e = Some t' ∧ table_inv cmp hash' t' ∧ objects t' = remove cmp e (objects t).
Proof.
  intros Ht. destruct (table_step_refines cmp hash' (Remove e) t Ht) as (t'&E&Ho&Hi).
  exists t'. split; [|done]. unfold remove_via_lookup. cbn [step] in E. by rewrite E.
Qed.

Lemma table_lookup (t : table) e : table_inv cmp hash' t →
  ast_hashtab_lookup t e = Some (find cmp e (objects t)).
Proof.
  intros (Hwf&Hk&<-&<-&_). by apply lookup_internal_find.
Qed.

(** Insertions and removals guarded by a label. *)
Lemma table_insert_label (t : table) e : table_inv cmp hash' t →
  ∃ t', if_label e ast_hashtab_insert_safe t = Some t' ∧ table_inv cmp hash' t'
    ∧ ∀ y, y ∈ objects t' → y ∈ objects t ∨ (y = e ∧ is_Some (label e)).
Proof.
  intros Ht. unfold if_label. destruct (label e) as [l|]; [|by exists t; split_and!; [..|left]].
  destruct (table_insert t e Ht) as (t'&->&?&Ho). exists t'. split_and!; [done..|]. rewrite Ho.
  unfold add. intros y. destruct (find cmp e (objects t)); [by left|]. rewrite elem_of_cons. naive_solver.
Qed.

Lemma table_remove_label (t : table) e : table_inv cmp hash' t →
  (∀ y, y ∈ objects t → is_Some (label y)) →
  ∃ t', if_label e remove_via_lookup t = Some t' ∧ table_inv cmp hash' t'
    ∧ ∀ y, y ∈ objects t' → y ∈ objects t ∧ y ≠ e.
Proof.
  intros Ht Hl. unfold if_label. destruct (label e) as [l|] eqn:E.
  - destruct (table_remove t e Ht) as (t'&->&?&Ho). exists t'. split_and!; [done..|]. rewrite Ho.
    unfold remove. intros y [Hy Hin]%list_elem_of_filter. split; [done|]. intros ->.
    destruct Hy. apply compare_refl.
  - exists t. split_and!; [done..|]. intros y Hy. split; [done|]. intros ->.
    destruct (Hl e Hy). congruence.
Qed.

End Table.

End Tables.

(** ** The order of a context *)
Module Ordering.

Import Pattern.Bits Pattern.Order.

Definition ok_exten (e : ast_exten) : Prop :=
  scannable (exten e) ∧ scannable (cidmatch e)
  ∧ (matchcid e = AST_EXT_MATCHCID_OFF ∨ matchcid e = AST_EXT_MATCHCID_ON).

Definition exten_key (e : ast_exten) (k : list Z * list Z) : Prop :=
  sort_key (exten e) (k.1) ∧
  if decide (matchcid e = AST_EXT_MATCHCID_ON) then ∃ k2, sort_key (cidmatch e) k2 ∧ k.2 = 0 :: k2
  else k.2 = [1].

Definition lex2 (k k' : list Z * list Z) : Z :=
  if lexc (k.1) (k'.1) =? 0 then lexc (k.2) (k'.2) else lexc (k.1) (k'.1).

Lemma exten_key_exists e : ok_exten e → ∃ k, exten_key e k.
Proof.
  intros (He&Hc&_). destruct (sort_key_exists _ He) as [k1 H1], (sort_key_exists _ Hc) as [k2 H2].
  unfold exten_key. case_decide; [exists (k1, 0 :: k2)|exists (k1, [1])]; simpl; eauto.
Qed.

Lemma exten_order_lex2 e e' k k' : ok_exten e → ok_exten e' → exten_key e k → exten_key e' k' →
  exten_order e e' = Some (lex2 k k').
Proof.
  intros (He&Hc&Hm) (He'&Hc'&Hm') [Hk1 Hk2] [Hk1' Hk2']. unfold exten_order, lex2.
  rewrite (ext_cmp_lexc (exten e) (exten e') (k.1) (k'.1)) by done. cbn [mbind option_bind].
  destruct (Z.eqb_spec (lexc (k.1) (k'.1)) 0); [|done].
  destruct Hm as [Hm|Hm], Hm' as [Hm'|Hm']; rewrite Hm, Hm' in *; simpl in Hk2, Hk2' |- *.
  - by rewrite Hk2, Hk2'.
  - destruct Hk2' as (k2'&_&E2). by rewrite Hk2, E2.
  - destruct Hk2 as (k2&_&E2). by rewrite E2, Hk2'.
  - destruct Hk2 as (k2&Hs&->), Hk2' as (k2'&Hs'&->). simpl. by apply ext_cmp_lexc.
Qed.

Lemma lex2_flip k k' : Z.sgn (lex2 k' k) = - Z.sgn (lex2 k k').
Proof.
  unfold lex2. pose proof (lexc_sgn_flip (k.1) (k'.1)). pose proof (lexc_sgn_flip (k.2) (k'.2)).
  destruct (Z.eqb_spec (lexc (k.1) (k'.1)) 0), (Z.eqb_spec (lexc (k'.1) (k.1)) 0); lia.
Qed.

Lemma lex2_trans a b c : lex2 a b <= 0 → lex2 b c <= 0 → lex2 a c <= 0.
Proof.
  unfold lex2. pose proof (lexc_trans (a.1) (b.1) (c.1)). pose proof (lexc_trans (a.2) (b.2) (c.2)).
  pose proof (lexc_trans (b.1) (c.1) (a.1)). pose proof (lexc_trans (c.1) (a.1) (b.1)).
  pose proof (lexc_sgn_flip (a.1) (b.1)). pose proof (lexc_sgn_flip (b.1) (c.1)).
  pose proof (lexc_sgn_flip (a.1) (c.1)).
  destruct (Z.eqb_spec (lexc (a.1) (b.1)) 0), (Z.eqb_spec (lexc (b.1) (c.1)) 0),
    (Z.eqb_spec (lexc (a.1) (c.1)) 0); lia.
Qed.

(** The comparison of two extensions. *)
Definition order (e e' : ast_exten) : Z := default 0 (exten_order e e').

Lemma exten_order_Some e e' : ok_exten e → ok_exten e' → exten_order e e' = Some (order e e').
Proof.
  intros He He'. destruct (exten_key_exists e He) as [k Hk], (exten_key_exists e' He') as [k' Hk'].
  unfold order. by rewrite (exten_order_lex2 e e' k k').
Qed.

Lemma order_refl e : ok_exten e → order e e = 0.
Proof.
  intros He. destruct (exten_key_exists e He) as [k Hk]. unfold order.
  rewrite (exten_order_lex2 e e k k) by done. unfold lex2. simpl. by rewrite !lexc_refl.
Qed.

Lemma order_flip e e' : ok_exten e → ok_exten e' → Z.sgn (order e' e) = - Z.sgn (order e e').
Proof.
  intros He He'. destruct (exten_key_exists e He) as [k Hk], (exten_key_exists e' He') as [k' Hk'].
  unfold order. rewrite (exten_order_lex2 e e' k k'), (exten_order_lex2 e' e k' k) by done. apply lex2_flip.
Qed.

Lemma order_trans a b c : ok_exten a → ok_exten b → ok_exten c →
  order a b <= 0 → order b c <= 0 → order a c <= 0.
Proof.
  intros Ha Hb Hc. destruct (exten_key_exists a Ha) as [ka Hka], (exten_key_exists b Hb) as [kb Hkb],
    (exten_key_exists c Hc) as [kc Hkc]. unfold order.
  rewrite (exten_order_lex2 a b ka kb), (exten_order_lex2 b c kb kc), (exten_order_lex2 a c ka kc) by done.
  apply lex2_trans.
Qed.

(** The consequences the proofs use. *)
Lemma order_lt_trans a b c : ok_exten a → ok_exten b → ok_exten c →
  order a b < 0 → order b c <= 0 → order a c < 0.
Proof.
  intros Ha Hb Hc H1 H2. pose proof (order_trans a b c Ha Hb Hc). pose proof (order_trans b c a Hb Hc Ha).
  pose proof (order_flip a b Ha Hb). pose proof (order_flip a c Ha Hc). lia.
Qed.

Lemma order_le_lt_trans a b c : ok_exten a → ok_exten b → ok_exten c →
  order a b <= 0 → order b c < 0 → order a c < 0.
Proof.
  intros Ha Hb Hc H1 H2. pose proof (order_trans a b c Ha Hb Hc). pose proof (order_trans c a b Hc Ha Hb).
  pose proof (order_flip b c Hb Hc). pose proof (order_flip a c Ha Hc). lia.
Qed.

Lemma order_zero_sym a b : ok_exten a → ok_exten b → order a b = 0 → order b a = 0.
Proof. intros Ha Hb E. pose proof (order_flip a b Ha Hb). lia. Qed.

Lemma order_zero_trans a b c : ok_exten a → ok_exten b → ok_exten c →
  order a b = 0 → order b c = 0 → order a c = 0.
Proof.
  intros Ha Hb Hc E1 E2. pose proof (order_trans a b c Ha Hb Hc). pose proof (order_trans c b a Hc Hb Ha).
  pose proof (order_flip a b Ha Hb). pose proof (order_flip b c Hb Hc). pose proof (order_flip a c Ha Hc). lia.
Qed.

End Ordering.

(** ** The invariant of a context *)
Module Inv.

Import Tables Ordering Hashtab.Spec Hashtab.Refine PatternTree.Total.

Definition by_priority (a b : ast_exten) : Prop := priority a < priority b.

Record peers_wf (p : peers) : Prop := {
  pw_ok : Forall ok_exten (peer_list p);
  pw_head : peer_list p ≠ [];
  pw_same : ∀ e e', e ∈ peer_list p → e' ∈ peer_list p → order e e' = 0;
  pw_sorted : StronglySorted by_priority (peer_list p);
  pw_table : table_inv hashtab_compare_exten_numbers hashtab_hash_priority (peer_table p);
  pw_objects : objects (peer_table p) ≡ₚ peer_list p;
  pw_labels : table_inv hashtab_compare_exten_labels hashtab_hash_labels (peer_label_table p);
  pw_labelled : ∀ e, e ∈ objects (peer_label_table p) → e ∈ peer_list p ∧ is_Some (label e);
}.

Definition precedes (p q : peers) : Prop :=
  ∀ e e', e ∈ peer_list p → e' ∈ peer_list q → order e e' < 0.

Definition root_ok (con : ast_context) : Prop :=
  match root_table con with
  | Some rt => table_ok rt ∧ Forall ok_exten (objects rt)
  | None => root con = [] ∧ pattern_tree con = []
  end.

Record context_wf (con : ast_context) : Prop := {
  cw_peers : Forall peers_wf (root con);
  cw_sorted : StronglySorted precedes (root con);
  cw_root : root_ok con;
}.

(** All the entries of a context, in order. *)
Definition entries (con : ast_context) : list ast_exten := concat (peer_list <$> root con).

(** The same extension, caller id and priority. *)
Definition same_place (tmp e : ast_exten) : Prop := order e tmp = 0 ∧ priority e = priority tmp.

#[export] Instance same_place_dec tmp e : Decision (same_place tmp e).
Proof. unfold same_place. apply _. Defined.

Lemma peers_elem_ok p e : peers_wf p → e ∈ peer_list p → ok_exten e.
Proof. intros Hp. pose proof (pw_ok p Hp) as H. rewrite Forall_forall in H. auto. Qed.

(** *** One list of peers *)

(** The place of a priority in a list. *)
Definition split_at (es before rest : list ast_exten) (prio : Z) : Prop :=
  es = before ++ rest ∧ Forall (λ e, priority e < prio) before
  ∧ match rest with
    | [] => True
    | e :: after => prio <= priority e ∧ Forall (λ x, prio < priority x) after
    end.

Lemma scan_peers_spec es tmp : StronglySorted by_priority es →
  split_at es ((scan_peers es tmp).1.1) ((scan_peers es tmp).1.2) (priority tmp).
Proof.
  unfold split_at. induction 1 as [|e es Hs IH Hf]; cbn [scan_peers]; [done|]. rewrite Z.geb_leb.
  destruct (Z.leb_spec (priority tmp) (priority e)) as [Hle|Hlt]; cbn [fst snd].
  - split_and!; [done|constructor|done|]. eapply Forall_impl; [exact Hf|]. unfold by_priority. simpl. lia.
  - destruct IH as (E&Hb&Hr). split_and!; [simpl; by f_equal|by constructor|done].
Qed.

Lemma sorted_insert before tmp after :
  StronglySorted by_priority (before ++ after) → Forall (λ e, priority e < priority tmp) before →
  Forall (λ e, priority tmp < priority e) after → StronglySorted by_priority (before ++ tmp :: after).
Proof.
  rewrite !StronglySorted_app, !Forall_forall. intros (H1&H2&H3) Hb Ha. split_and!; [|done|].
  - intros x1 x2 Hx1 [->|Hx2]%elem_of_cons; [by apply Hb|by apply H1].
  - apply StronglySorted_cons. split; [by apply Forall_forall|done].
Qed.

Lemma sorted_remove before (e : ast_exten) after :
  StronglySorted by_priority (before ++ e :: after) → StronglySorted by_priority (before ++ after).
Proof.
  rewrite !StronglySorted_app, StronglySorted_cons. intros (H1&H2&_&H3). split_and!; [|done..].
  intros x1 x2 Hx1 Hx2. apply H1; [done|]. by apply elem_of_cons; right.
Qed.

(** The table by priority. *)
Abbreviation number_table := (table_inv hashtab_compare_exten_numbers hashtab_hash_priority).

Lemma numbers_insert (t : table) tmp es : number_table t → objects t ≡ₚ es →
  (∀ e, e ∈ es → priority e ≠ priority tmp) →
  ∃ t', ast_hashtab_insert_safe t tmp = Some t' ∧ number_table t' ∧ objects t' ≡ₚ tmp :: es.
Proof.
  intros Ht Hes Hne. destruct (table_insert _ _ t tmp Ht) as (t'&->&Ht'&Ho). exists t'.
  split_and!; [done..|]. rewrite Ho. unfold add, find, same_key.
  destruct (filter _ (objects t)) as [|y l] eqn:E; simpl; [by rewrite Hes|]. exfalso.
  assert (y ∈ filter (λ y, hashtab_compare_exten_numbers tmp y = 0) (objects t)) as Hy
    by (rewrite E; apply list_elem_of_here).
  apply list_elem_of_filter in Hy as [Hy Hin]. rewrite compare_numbers_zero in Hy.
  rewrite Hes in Hin. by destruct (Hne y Hin).
Qed.

Lemma numbers_remove (t : table) e before after : number_table t →
  objects t ≡ₚ before ++ e :: after → (∀ x, x ∈ before ++ after → priority x ≠ priority e) →
  ∃ t', remove_via_lookup t e = Some t' ∧ number_table t' ∧ objects t' ≡ₚ before ++ after.
Proof.
  intros Ht Hes Hne. destruct (table_remove _ _ t e Ht) as (t'&->&Ht'&Ho). exists t'.
  split_and!; [done..|]. rewrite Ho. unfold remove. rewrite Hes, !filter_app, filter_cons_False.
  - rewrite <- filter_app. apply reflexive_eq, filter_all. intros x Hx E.
    rewrite compare_numbers_zero in E. by destruct (Hne x Hx).
  - rewrite compare_numbers_zero. intros []. done.
Qed.

(** *** Changing the peers of one extension *)

Lemma order_label e tmp : order e (drop_label tmp) = order e tmp.
Proof. by destruct tmp. Qed.

Lemma peers_wf_intro p tmp e0 es pt lt :
  peers_wf p → ok_exten tmp → e0 ∈ peer_list p → order e0 tmp = 0 →
  (∀ e, e ∈ es → e = tmp ∨ e ∈ peer_list p) → tmp ∈ es → StronglySorted by_priority es →
  number_table pt → objects pt ≡ₚ es →
  table_inv hashtab_compare_exten_labels hashtab_hash_labels lt →
  (∀ e, e ∈ objects lt → e ∈ es ∧ is_Some (label e)) →
  peers_wf (Peers es pt lt).
Proof.
  intros Hp Ht He0 E0 Hes Hin Hs Hpt Hpo Hlt Hlo.
  assert (∀ e, e ∈ es → ok_exten e ∧ order e0 e = 0) as Hall.
  { intros e [->|He]%Hes; [done|]. split; [by eapply peers_elem_ok|by apply (pw_same p Hp)]. }
  assert (ok_exten e0) as Hk0 by (by eapply peers_elem_ok).
  split; cbn [peer_list peer_table peer_label_table]; try done.
  - apply Forall_forall. intros e He. by apply Hall.
  - intros ->. by apply not_elem_of_nil in Hin.
  - intros e e' [He Ee]%Hall [He' Ee']%Hall. eapply order_zero_trans; [..|exact Ee']; try done.
    by apply order_zero_sym.
Qed.

(** The new peers are of the same extension. *)
Definition alike (p p' : peers) : Prop :=
  ∀ e', e' ∈ peer_list p' → ∃ e, e ∈ peer_list p ∧ order e e' = 0.

Lemma chain_update con con' i p p' :
  context_wf con → root con !! i = Some p → peers_wf p' → alike p p' →
  root con' = <[i := p']> (root con) → root_ok con' → context_wf con'.
Proof.
  intros [Hp Hs _] Hi Hp' Ha Er Hr. pose proof (lookup_lt_Some _ _ _ Hi) as Hlt.
  split; [rewrite Er; by apply Forall_insert|rewrite Er|done].
  rewrite insert_take_drop by done. rewrite <- (take_drop_middle _ _ _ Hi) in Hs, Hp.
  apply StronglySorted_app in Hs as (H1&H2&H3). apply StronglySorted_cons in H3 as [H3 H4].
  apply Forall_app in Hp as [Hp1 Hp2]. apply Forall_cons in Hp2 as [Hpp Hp2].
  rewrite Forall_forall in Hp1, Hp2, H3.
  apply StronglySorted_app. split_and!; [|done|apply StronglySorted_cons; split; [|done]].
  - intros q1 q2 Hq1 [->|Hq2]%elem_of_cons; [|apply H1; [done|by apply elem_of_cons; right]].
    intros e e' He He'. destruct (Ha e' He') as (e0&He0&E0).
    eapply (order_lt_trans e e0 e'); [by eauto using peers_elem_ok..| |lia].
    apply (H1 q1 p); [done|apply list_elem_of_here|done|done].
  - apply Forall_forall. intros q Hq e e' He He'. destruct (Ha e He) as (e0&He0&E0).
    eapply (order_le_lt_trans e e0 e'); [by eauto using peers_elem_ok..| |].
    + rewrite (order_zero_sym e0 e); [done|by eauto using peers_elem_ok..].
    + by apply (H3 q Hq).
Qed.

Lemma root_table_exists con i p : context_wf con → root con !! i = Some p →
  ∃ rt, root_table con = Some rt ∧ table_ok rt ∧ Forall ok_exten (objects rt).
Proof.
  intros [_ _ Hr] Hi. unfold root_ok in Hr. destruct (root_table con) as [rt|]; [by exists rt|].
  destruct Hr as [E _]. by rewrite E in Hi.
Qed.

(** *** The table of the context *)

Definition rt_ok (rt : table) : Prop := table_ok rt ∧ Forall ok_exten (objects rt).

Lemma rt_insert rt e : rt_ok rt → ok_exten e → ∃ rt', ast_hashtab_insert_safe rt e = Some rt' ∧ rt_ok rt'.
Proof.
  intros [Ht Hf] He. destruct (insert_safe_ok rt e Ht) as (r&rt'&E&?&Ho). exists rt'.
  unfold ast_hashtab_insert_safe. rewrite E. split; [done|]. split; [done|].
  destruct Ho as [-> | ->]; [done|by constructor].
Qed.

Lemma rt_remove rt e : rt_ok rt → ∃ rt', remove_via_lookup rt e = Some rt' ∧ rt_ok rt'.
Proof.
  intros [Ht Hf]. destruct (remove_via_lookup_ok rt e Ht) as (r&rt'&E&?&Ho). exists rt'.
  unfold remove_via_lookup. rewrite E. split; [done|]. split; [done|].
  rewrite Forall_forall in *. auto.
Qed.

(** [e] is taken out and [tmp] put in. *)
Lemma rt_swap rt e tmp : rt_ok rt → ok_exten tmp →
  ∃ rt1 rt2, remove_via_lookup rt e = Some rt1 ∧ ast_hashtab_insert_safe rt1 tmp = Some rt2 ∧ rt_ok rt2.
Proof.
  intros Hrt Ht. destruct (rt_remove rt e Hrt) as (rt1&E1&H1).
  destruct (rt_insert rt1 tmp H1 Ht) as (rt2&E2&H2). eauto.
Qed.

Lemma replace_in_tree_total tree e tmp : ok_exten e → is_Some (replace_in_tree tree e tmp).
Proof.
  intros (He&Hc&_). unfold replace_in_tree.
  destruct (find_total tree e) as [x E]; [by split|]. rewrite E. cbn [mbind option_bind].
  destruct x as [path|]; [|done]. unfold find_exten_in_pattern_tree in E.
  destruct (extenbuf e); [|done]. destruct (exten_nodes e) as [[pat ns]|]; [|done].
  cbn [mbind option_bind] in E. simplify_eq. destruct (find_nodes_lookup tree pat ns path) as [n ->]; done.
Qed.

End Inv.

(** ** Adding a priority *)
Module Adding.

Import Tables Ordering Inv Hashtab.Spec Hashtab.Refine PatternTree.Total.

Section Peers.
Context (p : peers) (tmp e0 : ast_exten).
Context (Hp : peers_wf p) (Ht : ok_exten tmp) (He0 : e0 ∈ peer_list p) (E0 : order e0 tmp = 0).

(** The peers with a new priority. *)
Lemma peers_insert before rest :
  split_at (peer_list p) before rest (priority tmp) → (∀ e, head rest = Some e → priority e ≠ priority tmp) →
  ∃ pt lt, ast_hashtab_insert_safe (peer_table p) tmp = Some pt
    ∧ if_label tmp ast_hashtab_insert_safe (peer_label_table p) = Some lt
    ∧ peers_wf (Peers (before ++ tmp :: rest) pt lt)
    ∧ (∀ e, e ∈ peer_list p → priority e ≠ priority tmp).
Proof.
  intros (Es&Hb&Hr) Hh.
  assert (Forall (λ e, priority tmp < priority e) rest) as Hrest.
  { destruct rest as [|e after]; [done|]. destruct Hr as [Hle Ha]. constructor; [|done].
    specialize (Hh e eq_refl). lia. }
  assert (∀ e, e ∈ peer_list p → priority e ≠ priority tmp) as Hne.
  { rewrite Es. intros e [He|He]%elem_of_app; rewrite Forall_forall in Hb, Hrest;
      [specialize (Hb e He)|specialize (Hrest e He)]; simpl in *; lia. }
  destruct (numbers_insert (peer_table p) tmp (peer_list p)) as (pt&E1&Hpt&Hpo); [apply Hp..|done|].
  destruct (table_insert_label _ _ (peer_label_table p) tmp (pw_labels p Hp)) as (lt&E2&Hlt&Hlo).
  exists pt, lt. split_and!; [done..| |done].
  apply (peers_wf_intro p tmp e0); try done.
  - intros e. rewrite Es. set_solver.
  - set_solver.
  - apply sorted_insert; [rewrite <- Es; apply Hp|done..].
  - rewrite Hpo, Es. apply Permutation_middle.
  - intros e [He|[-> ?]]%Hlo; [|set_solver]. apply (pw_labelled p Hp) in He as [He ?].
    rewrite Es in He. set_solver.
Qed.

(** The peers with a priority replaced. *)
Lemma peers_replace before e after :
  split_at (peer_list p) before (e :: after) (priority tmp) → priority e = priority tmp →
  ∃ pt pt' lt lt', remove_via_lookup (peer_table p) e = Some pt
    ∧ ast_hashtab_insert_safe pt tmp = Some pt'
    ∧ if_label e remove_via_lookup (peer_label_table p) = Some lt
    ∧ if_label tmp ast_hashtab_insert_safe lt = Some lt'
    ∧ peers_wf (Peers (before ++ tmp :: after) pt' lt')
    ∧ filter (λ e, priority e ≠ priority tmp) (peer_list p) = before ++ after.
Proof.
  intros (Es&Hb&_&Ha) Ee.
  assert (∀ x, x ∈ before ++ after → priority x ≠ priority tmp) as Hne.
  { intros x [Hx|Hx]%elem_of_app; rewrite Forall_forall in Hb, Ha;
      [specialize (Hb x Hx)|specialize (Ha x Hx)]; simpl in *; lia. }
  destruct (numbers_remove (peer_table p) e before after) as (pt&E1&Hpt&Hpo);
    [apply Hp|rewrite <- Es; apply Hp|by rewrite Ee|].
  destruct (numbers_insert pt tmp (before ++ after)) as (pt'&E2&Hpt'&Hpo'); [done..|].
  destruct (table_remove_label _ _ (peer_label_table p) e (pw_labels p Hp)) as (lt&E3&Hlt&Hlo);
    [intros y Hy; by apply (pw_labelled p Hp)|].
  destruct (table_insert_label _ _ lt tmp Hlt) as (lt'&E4&Hlt'&Hlo').
  exists pt, pt', lt, lt'. split_and!; [done..| |].
  - apply (peers_wf_intro p tmp e0); try done.
    + intros x. rewrite Es. set_solver.
    + set_solver.
    + apply sorted_insert; [|done..]. eapply sorted_remove. rewrite <- Es. apply Hp.
    + rewrite Hpo'. apply Permutation_middle.
    + intros x [[Hx Hxe]%Hlo|[-> ?]]%Hlo'; [|set_solver]. apply (pw_labelled p Hp) in Hx as [Hx ?].
      rewrite Es in Hx. set_solver.
  - rewrite Es, filter_app, filter_cons_False by (rewrite Ee; auto). rewrite <- filter_app.
    by apply filter_all.
Qed.

End Peers.

Definition same_but_label (tmp tmp' : ast_exten) : Prop := tmp' = tmp ∨ tmp' = drop_label tmp.

(** What a successful addition does to the peers at a place. *)
Definition changed (con con' : ast_context) (i : nat) (p : peers) (tmp : ast_exten) : Prop :=
  ∃ tmp' p', same_but_label tmp tmp' ∧ root con' = <[i := p']> (root con)
    ∧ peer_list p' ≡ₚ tmp' :: filter (λ e, priority e ≠ priority tmp) (peer_list p).

Lemma alike_intro p tmp e0 es pt lt :
  peers_wf p → e0 ∈ peer_list p → order e0 tmp = 0 →
  (∀ e, e ∈ es → e = tmp ∨ e ∈ peer_list p) → alike p (Peers es pt lt).
Proof.
  intros Hp He0 E0 Hes e' [->|He']%Hes; [by exists e0|]. exists e'. split; [done|]. by apply (pw_same p Hp).
Qed.

(** The context after a change of the peers, with its table and tree. *)
Lemma changed_intro con con' i p tmp tmp' e0 es pt lt :
  context_wf con → root con !! i = Some p → e0 ∈ peer_list p → order e0 tmp' = 0 →
  same_but_label tmp tmp' → peers_wf (Peers es pt lt) →
  es ≡ₚ tmp' :: filter (λ e, priority e ≠ priority tmp) (peer_list p) →
  root con' = <[i := Peers es pt lt]> (root con) → root_ok con' →
  context_wf con' ∧ changed con con' i p tmp.
Proof.
  intros Hc Hi He0 E0 Hs Hp' Hes Er Hr. split; [|by exists tmp', (Peers es pt lt)].
  assert (peers_wf p) as Hp by (eapply Forall_lookup_1; [apply Hc|done]).
  eapply chain_update; [exact Hc|exact Hi|exact Hp'| |exact Er|exact Hr].
  apply (alike_intro p tmp' e0); try done. intros e. rewrite Hes, elem_of_cons, list_elem_of_filter. tauto.
Qed.

Lemma filter_other p tmp : (∀ e : ast_exten, e ∈ peer_list p → priority e ≠ priority tmp) →
  filter (λ e, priority e ≠ priority tmp) (peer_list p) = peer_list p.
Proof. apply filter_all. Qed.

(** Run the calls whose results are known. *)
Ltac run_calls :=
  repeat match goal with
  | _ => progress cbn [mbind option_bind]
  | E : ?x = Some _ |- context [mbind _ ?x] => rewrite E
  end.

(** What [add_priority] returns. *)
Definition add_result (con : ast_context) (tmp : ast_exten) (i : nat) (p : peers) (replace : bool)
    (r : Z) (con' : ast_context) : Prop :=
  (r = -1 ∧ con' = con ∧ replace = false ∧ ∃ e, e ∈ peer_list p ∧ priority e = priority tmp)
  ∨ (r = 0 ∧ context_wf con' ∧ changed con con' i p tmp
     ∧ (replace = false → ∀ e, e ∈ peer_list p → priority e ≠ priority tmp)).

Section Priority.
Context (con : ast_context) (tmp e0 : ast_exten) (i : nat) (p : peers) (rt : table).
Context (Hc : context_wf con) (Hi : root con !! i = Some p) (He0 : e0 ∈ peer_list p).
Context (Ht : ok_exten tmp) (E0 : order e0 tmp = 0) (Ert : root_table con = Some rt) (Hrt : rt_ok rt).

(** The end of every branch that succeeds. *)
Lemma add_result_intro con' tmp' es pt lt replace :
  same_but_label tmp tmp' → peers_wf (Peers es pt lt) →
  es ≡ₚ tmp' :: filter (λ e, priority e ≠ priority tmp) (peer_list p) →
  root con' = <[i := Peers es pt lt]> (root con) →
  (root_table con' = root_table con ∨ ∃ rt', root_table con' = Some rt' ∧ rt_ok rt') →
  (replace = false → ∀ e, e ∈ peer_list p → priority e ≠ priority tmp) →
  add_result con tmp i p replace 0 con'.
Proof.
  intros Hs Hp' Hes Er Hr Hne. right. split; [done|]. apply and_assoc; split; [|done].
  eapply changed_intro; [done..| |exact Hs|exact Hp'|exact Hes|exact Er|].
  - destruct Hs as [-> | ->]; [done|]. by rewrite order_label.
  - unfold root_ok. destruct Hr as [->|(rt'&->&?)]; [|done]. by rewrite Ert.
Qed.

(** The branches that insert. *)
Lemma add_new_priority tmp' before rest : 
  same_but_label tmp tmp' → split_at (peer_list p) before rest (priority tmp) →
  (∀ e, head rest = Some e → priority e ≠ priority tmp) →
  ∃ pt lt, ast_hashtab_insert_safe (peer_table p) tmp' = Some pt
    ∧ if_label tmp' ast_hashtab_insert_safe (peer_label_table p) = Some lt
    ∧ ∀ con' replace, root con' = <[i := Peers (before ++ tmp' :: rest) pt lt]> (root con) →
        (root_table con' = root_table con ∨ ∃ rt', root_table con' = Some rt' ∧ rt_ok rt') →
        add_result con tmp i p replace 0 con'.
Proof.
  intros Hsb Hsp Hh. assert (peers_wf p) as Hp by (eapply Forall_lookup_1; [apply Hc|done]).
  assert (ok_exten tmp' ∧ order e0 tmp' = 0 ∧ priority tmp' = priority tmp) as (Ht'&E0'&Ep).
  { destruct Hsb as [-> | ->]; [done|]. by rewrite order_label. }
  destruct (peers_insert p tmp' e0 Hp Ht' He0 E0' before rest) as (pt&lt&E1&E2&Hp'&Hne);
    [by rewrite Ep|by rewrite Ep|]. rewrite Ep in Hne.
  exists pt, lt. split_and!; [done..|]. intros con' replace Er Hr.
  eapply add_result_intro; [exact Hsb|exact Hp'| |exact Er|done|done].
  destruct Hsp as (Es&_). rewrite filter_other, Es by done. symmetry. apply Permutation_middle.
Qed.

(** The branches that replace. *)
Lemma add_same_priority tmp' before e after :
  same_but_label tmp tmp' → split_at (peer_list p) before (e :: after) (priority tmp) →
  priority e = priority tmp →
  ∃ pt pt' lt lt', remove_via_lookup (peer_table p) e = Some pt
    ∧ ast_hashtab_insert_safe pt tmp' = Some pt'
    ∧ if_label e remove_via_lookup (peer_label_table p) = Some lt
    ∧ if_label tmp' ast_hashtab_insert_safe lt = Some lt'
    ∧ ∀ con', root con' = <[i := Peers (before ++ tmp' :: after) pt' lt']> (root con) →
        (root_table con' = root_table con ∨ ∃ rt', root_table con' = Some rt' ∧ rt_ok rt') →
        add_result con tmp i p true 0 con'.
Proof.
  intros Hsb Hsp Ee. assert (peers_wf p) as Hp by (eapply Forall_lookup_1; [apply Hc|done]).
  assert (ok_exten tmp' ∧ order e0 tmp' = 0 ∧ priority tmp' = priority tmp) as (Ht'&E0'&Ep).
  { destruct Hsb as [-> | ->]; [done|]. by rewrite order_label. }
  destruct (peers_replace p tmp' e0 Hp Ht' He0 E0' before e after) as (pt&pt'&lt&lt'&E1&E2&E3&E4&Hp'&Hf);
    [by rewrite Ep|by rewrite Ep|]. rewrite Ep in Hf.
  exists pt, pt', lt, lt'. split_and!; [done..|]. intros con' Er Hr.
  eapply add_result_intro; [exact Hsb|exact Hp'| |exact Er|done|done].
  rewrite Hf. symmetry. apply Permutation_middle.
Qed.

Lemma add_priority_spec replace :
  ∃ r con' events, add_priority con tmp i replace = Some (r, con', events)
    ∧ add_result con tmp i p replace r con'.
Proof.
  assert (peers_wf p) as Hp by (eapply Forall_lookup_1; [apply Hc|done]).
  unfold add_priority. run_calls.
  pose proof (scan_peers_spec (peer_list p) tmp (pw_sorted p Hp)) as Hsp.
  destruct (scan_peers (peer_list p) tmp) as [[before rest] rep]. cbn [fst snd] in Hsp.
  remember (if rep then drop_label tmp else tmp) as tmp' eqn:Etmp.
  assert (same_but_label tmp tmp') as Hsb by (destruct rep; subst; [by right|by left]). clear Etmp.
  assert (ok_exten tmp' ∧ priority tmp' = priority tmp) as [Ht' Ep] by (by destruct Hsb as [-> | ->]).
  rewrite Ep. destruct rest as [|e after].
  { destruct (add_new_priority tmp' before [] Hsb Hsp) as (pt&lt&E1&E2&H); [done|]. run_calls.
    eexists 0, _, _. split; [done|]. apply H; [done|by left]. }
  destruct (rt_swap rt e tmp' Hrt Ht') as (rt1&rt2&E5&E6&Hrt2).
  destruct (Z.eqb_spec (priority e) (priority tmp)) as [Ee|Ee].
  - destruct replace; cbn [negb].
    2: { eexists (-1), _, _. split; [done|]. left. split_and!; [done..|]. exists e.
         split; [|done]. destruct Hsp as (->&_). set_solver. }
    destruct (add_same_priority tmp' before e after Hsb Hsp Ee) as (pt&pt'&lt&lt'&E1&E2&E3&E4&H).
    destruct before as [|b before]; run_calls.
    + destruct (replace_in_tree_total (pattern_tree con) e tmp') as [tree E].
      { eapply peers_elem_ok; [exact Hp|]. destruct Hsp as (->&_). set_solver. }
      run_calls. destruct (rt_swap rt2 e tmp' Hrt2 Ht') as (rt3&rt4&E7&E8&Hrt4).
      case_decide; run_calls; eexists 0, _, _; (split; [done|]); (apply H; [done|right; eauto]).
    + eexists 0, _, _. split; [done|]. apply H; [done|by left].
  - destruct (add_new_priority tmp' before (e :: after) Hsb Hsp) as (pt&lt&E1&E2&H);
      [by intros ? [= <-]|].
    destruct before as [|b before]; run_calls; eexists 0, _, _; (split; [done|]); (apply H; [done|]);
      [right; eauto|by left].
Qed.

End Priority.

End Adding.

(** ** Adding an extension *)
Module AddExtension.

Import Pattern.Bits Tables Ordering Inv Adding Hashtab.Spec Hashtab.Refine Hashtab.Primes PatternTree.Total.

(** *** The new structure *)

Lemma strncpy_loop_elem c src room ip isq nf : c ∈ ext_strncpy_loop src room ip isq nf → c ∈ src.
Proof.
  revert room isq. induction src as [|d src IH]; intros room isq; cbn [ext_strncpy_loop]; [done|].
  repeat case_match; intros Hc; try by apply not_elem_of_nil in Hc.
  all: apply elem_of_cons; rewrite ?elem_of_cons in Hc; try (destruct Hc as [->|Hc]; [by left|]); eauto.
Qed.

Lemma strncpy_loop_length src room ip isq nf : (length (ext_strncpy_loop src room ip isq nf) <= length src)%nat.
Proof.
  revert room isq. induction src as [|d src IH]; intros room isq; cbn [ext_strncpy_loop length]; [done|].
  repeat case_match; cbn [length]; try lia; match goal with |- context [ext_strncpy_loop src ?r _ ?q _] =>
    pose proof (IH r q) end; lia.
Qed.

Lemma c_prefix_app_nul l : Forall (λ c, c ≠ 0) l → c_prefix (l ++ [0]) = l.
Proof. induction 1 as [|c l Hc Hl IH]; [done|]. simpl. destruct (Z.eqb_spec c 0); [done|]. by rewrite IH. Qed.

Lemma string_of_strncpy src n nf : scannable src →
  scannable (string_of (ext_strncpy src n nf)) ∧ (length (string_of (ext_strncpy src n nf)) <= length src)%nat.
Proof.
  intros Hs. unfold ext_strncpy. destruct (n =? 0); [split; [constructor|simpl; lia]|].
  set (l := ext_strncpy_loop _ _ _ _ _).
  assert (scannable l) as Hl.
  { unfold scannable in *. rewrite Forall_forall in *. intros c Hc. by eapply Hs, strncpy_loop_elem. }
  unfold string_of. rewrite c_prefix_app_nul by (eapply Forall_impl; [exact Hl|]; simpl; tauto).
  split; [done|apply strncpy_loop_length].
Qed.

Section New.
Context (a : nat) (extension : cstring) (prio : Z) (lab callerid : option cstring) (application : cstring)
        (dat : Z) (dtor : bool) (reg : cstring) (reg_file : option cstring) (reg_line : Z).
Context (He : scannable extension) (Hcid : ∀ cid, callerid = Some cid → scannable cid).
Let tmp := new_exten a extension prio lab callerid application dat dtor reg reg_file reg_line.

Lemma new_exten_ok : ok_exten tmp.
Proof.
  subst tmp. unfold new_exten, ok_exten. destruct callerid as [cid|]; cbn [exten cidmatch matchcid].
  - pose proof (Hcid cid eq_refl) as Hc. split_and!; [| |by right];
      repeat case_match; by apply string_of_strncpy.
  - split_and!; [|constructor|by left]. repeat case_match; by apply string_of_strncpy.
Qed.

Lemma new_exten_fits :
  Z.of_nat (length extension) + Z.of_nat (length (default [] callerid)) + 3 <= MAX_EXTENBUF_SIZE →
  is_Some (extenbuf tmp).
Proof.
  intros Hfit. unfold extenbuf.
  assert (length (exten tmp) <= length extension)%nat as H1.
  { subst tmp. unfold new_exten. destruct callerid; cbn [exten]; repeat case_match;
      by apply string_of_strncpy. }
  assert (length (cidmatch tmp) <= length (default [] callerid))%nat as H2.
  { subst tmp. unfold new_exten. destruct callerid as [cid|]; cbn [cidmatch default]; [|done].
    repeat case_match; by apply string_of_strncpy, Hcid. }
  rewrite Z.gtb_ltb. destruct (Z.ltb_spec MAX_EXTENBUF_SIZE
    (if negb (matchcid tmp =? 0) then Z.of_nat (length (exten tmp)) + 1 + (Z.of_nat (length (cidmatch tmp)) + 2)
     else Z.of_nat (length (exten tmp)) + 1)) as [Hlt|]; [|done].
  destruct (negb _); lia.
Qed.

Lemma new_exten_priority : priority tmp = prio.
Proof. subst tmp. unfold new_exten. by destruct callerid. Qed.

End New.

(** *** The tree and the table of the context *)

Lemma context_wf_same con con' :
  context_wf con → root con' = root con → root_ok con' → context_wf con'.
Proof. intros [Hp Hs _] Er Hr. split; by rewrite ?Er. Qed.

Lemma add_to_tree_wf con tmp : context_wf con → ok_exten tmp →
  ∃ con', add_to_tree con tmp = Some con' ∧ root con' = root con ∧ context_wf con'.
Proof.
  intros Hc Ht. unfold add_to_tree. destruct (pattern_tree con) as [|m tree] eqn:Et; [by exists con|].
  pose proof (cw_root con Hc) as Hr. unfold root_ok in Hr.
  destruct (root_table con) as [rt|] eqn:Ert; [|by rewrite Et in Hr; destruct Hr].
  set (dummy := Exten _ _ _ _ _ _ _ _ _ _ _ _ _ _).
  destruct (lookup_ok rt dummy) as [found E]; [apply Hr|]. run_calls.
  destruct found as [e|]; [by exists con|].
  destruct (add_total (m :: tree) tmp) as [tree' E']; [split; apply Ht|].
  destruct (rt_insert rt tmp Hr Ht) as (rt'&E2&Hrt'). run_calls.
  eexists. split_and!; [done|done|]. by apply (context_wf_same con).
Qed.

Lemma undo_add_wf con tmp : context_wf con → ok_exten tmp → is_Some (extenbuf tmp) →
  ∃ con', undo_add con tmp = Some con' ∧ root con' = root con ∧ context_wf con'.
Proof.
  intros Hc Ht [buf Hb]. unfold undo_add. destruct (pattern_tree con) as [|m tree] eqn:Et; [by exists con|].
  pose proof (cw_root con Hc) as Hr. unfold root_ok in Hr.
  destruct (root_table con) as [rt|] eqn:Ert; [|by rewrite Et in Hr; destruct Hr].
  unfold find_exten_in_pattern_tree. rewrite Hb.
  destruct (exten_nodes_total tmp) as [[pat ns] En]; [split; apply Ht|done|]. run_calls.
  destruct (find_nodes_Some (m :: tree) pat ns) as [path Ep]; [done|].
  destruct (find_nodes_lookup (m :: tree) pat ns path Ep) as [n El]. run_calls.
  destruct Hr as [Hrt Hf]. destruct (remove_this_ok rt tmp Hrt) as (r&rt'&E&Hrt'&Hsub). run_calls.
  eexists. split_and!; [done|done|]. apply (context_wf_same con); [done|done|].
  split; [done|]. rewrite Forall_forall in *. auto.
Qed.

(** *** The place in the list *)

Lemma scan_root_spec chains tmp i : Forall peers_wf chains → ok_exten tmp →
  ∃ before after o, scan_root chains tmp i = Some ((i + length before)%nat, o) ∧ chains = before ++ after
    ∧ (∀ p e, p ∈ before → e ∈ peer_list p → order e tmp < 0)
    ∧ match o with
      | None => after = []
      | Some r => ∃ p after', after = p :: after' ∧ 0 <= r ∧ ∃ e, e ∈ peer_list p ∧ order e tmp = r
      end.
Proof.
  intros Hf Ht. revert i. induction Hf as [|p chains Hp Hf IH]; intros i; cbn [scan_root].
  { exists [], [], None. rewrite Nat.add_0_r. split_and!; [done|done| |done]. intros q e Hq. set_solver. }
  destruct (peer_list p) as [|e es] eqn:El; [by destruct (pw_head p Hp)|].
  assert (e ∈ peer_list p) as Hin by (rewrite El; apply list_elem_of_here).
  assert (ok_exten e) as He by (by eapply peers_elem_ok).
  pose proof (exten_order_Some e tmp He Ht) as E. cbn [head]. run_calls.
  destruct (Z.leb_spec 0 (order e tmp)) as [Hle|Hlt].
  - exists [], (p :: chains), (Some (order e tmp)). rewrite Nat.add_0_r.
    split_and!; [done|done|intros q e' Hq; set_solver|]. exists p, chains. eauto.
  - destruct (IH (S i)) as (before&after&o&->&->&Hb&Ho). exists (p :: before), after, o.
    split_and!; [f_equal; f_equal; simpl; lia|done| |done].
    intros q e' [->|Hq]%elem_of_cons He'; [|by eapply Hb].
    apply (order_le_lt_trans e' e tmp); [by eauto using peers_elem_ok|done|done| |done].
    by rewrite (pw_same p Hp e' e).
Qed.

(** *** The first priority of an extension *)

Lemma new_table_inv n cmp hash' m : 0 < n → next_prime 30 n = Some m →
  ∃ t, new_table java_size n cmp hash' = Some t ∧ table_inv cmp hash' t ∧ objects t = [].
Proof.
  intros Hn E. unfold new_table. pose proof (table_create_inv 30 n cmp ast_hashtab_resize_java java_size hash') as H.
  unfold _ast_hashtab_create in *. rewrite E in *. cbn [mbind option_bind] in *.
  eexists. split; [done|]. by apply H; [apply java_size_ok|..].
Qed.

Lemma peers_single tmp pt lt : ok_exten tmp → number_table pt → objects pt ≡ₚ [tmp] →
  table_inv hashtab_compare_exten_labels hashtab_hash_labels lt →
  (∀ e, e ∈ objects lt → e = tmp ∧ is_Some (label tmp)) → peers_wf (Peers [tmp] pt lt).
Proof.
  intros Ht Hpt Hpo Hlt Hlo. split; cbn [peer_list peer_table peer_label_table]; try done.
  - by constructor.
  - intros e e' He He'. apply list_elem_of_singleton in He as ->, He' as ->. by apply order_refl.
  - repeat constructor.
  - intros e [-> ?]%Hlo. split; [apply list_elem_of_here|done].
Qed.

Lemma insert_first_wf con tmp before after :
  context_wf con → ok_exten tmp → root con = before ++ after →
  (∀ p e, p ∈ before → e ∈ peer_list p → order e tmp < 0) →
  (∀ p e, p ∈ after → e ∈ peer_list p → order tmp e < 0) →
  ∃ con' events pt lt, insert_first java_size con tmp (length before) = Some (con', events)
    ∧ root con' = before ++ Peers [tmp] pt lt :: after ∧ context_wf con'.
Proof.
  intros Hc Ht Er Hb Ha. unfold insert_first.
  destruct (new_table_inv 13 hashtab_compare_exten_numbers hashtab_hash_priority 13) as (pt&E1&Hpt&Hpo); [done..|].
  destruct (new_table_inv 7 hashtab_compare_exten_labels hashtab_hash_labels 7) as (lt&E2&Hlt&Hlo); [done..|].
  destruct (table_insert_label _ _ lt tmp Hlt) as (lt'&E3&Hlt'&Hlo').
  destruct (numbers_insert pt tmp []) as (pt'&E4&Hpt'&Hpo'); [done|by rewrite Hpo|intros e; set_solver|].
  assert (∃ rt, match root_table con with
    | Some rt => Some rt
    | None => if decide (length before = 0%nat) then new_table java_size 27 hashtab_compare_extens hashtab_hash_extens
              else None
    end = Some rt ∧ rt_ok rt) as (rt&E5&Hrt).
  { pose proof (cw_root con Hc) as Hr. unfold root_ok in Hr. destruct (root_table con) as [rt|]; [by exists rt|].
    destruct Hr as [Hr _]. rewrite Er in Hr. apply app_eq_nil in Hr as [-> _]. simpl.
    destruct (new_table_inv 27 hashtab_compare_extens hashtab_hash_extens 29) as (rt&E&Hinv&Ho); [done..|].
    exists rt. split; [done|]. destruct Hinv as (Hwf&_&_&_&Hn). split; [by split|]. rewrite Ho. constructor. }
  destruct (rt_insert rt tmp Hrt Ht) as (rt'&E6&Hrt').
  run_calls. eexists _, _, pt', lt'. split; [done|].
  assert (take (length before) (root con) = before ∧ drop (length before) (root con) = after) as [Et Ed].
  { rewrite Er. by rewrite take_app_length, drop_app_length. }
  cbn [root set_root_table set_root]. rewrite Et, Ed. split; [done|].
  destruct Hc as [Hp Hs _]. rewrite Er in Hp, Hs. apply Forall_app in Hp as [Hp1 Hp2].
  apply StronglySorted_app in Hs as (H1&H2&H3).
  split; cbn [root set_root_table set_root]; [..|done].
  - apply Forall_app. split; [done|]. constructor; [|done]. apply peers_single; try done.
    intros e He. apply Hlo' in He. rewrite Hlo in He. set_solver.
  - rewrite ?Et, ?Ed. apply StronglySorted_app. split_and!; [|done|apply StronglySorted_cons; split; [|done]].
    + intros q1 q2 Hq1 [->|Hq2]%elem_of_cons; [|by apply H1]. intros e e' He He'.
      apply list_elem_of_singleton in He' as ->. by eapply Hb.
    + apply Forall_forall. intros q Hq e e' He He'. apply list_elem_of_singleton in He as ->. by eapply Ha.
Qed.

End AddExtension.

(** ** The entries of a context *)
Module Entries.

Import Pattern.Bits Tables Ordering Inv Adding AddExtension Hashtab.Primes PatternTree.Total.

Definition entries_of (chains : list peers) : list ast_exten := concat (peer_list <$> chains).

Lemma entries_app l1 l2 : entries_of (l1 ++ l2) = entries_of l1 ++ entries_of l2.
Proof. unfold entries_of. by rewrite fmap_app, concat_app. Qed.

Lemma entries_cons p l : entries_of (p :: l) = peer_list p ++ entries_of l.
Proof. done. Qed.

Lemma elem_of_entries e chains : e ∈ entries_of chains ↔ ∃ p, p ∈ chains ∧ e ∈ peer_list p.
Proof.
  unfold entries_of. rewrite list_elem_of_In, in_concat. setoid_rewrite <- list_elem_of_In.
  split; [intros (l&Hl&He); apply list_elem_of_fmap in Hl as (p&->&Hp); eauto|].
  intros (p&Hp&He). exists (peer_list p). split; [by apply list_elem_of_fmap_2|done].
Qed.

(** Entries elsewhere in the order are not in the place of [tmp]. *)
Lemma filter_elsewhere tmp chains :
  (∀ p e, p ∈ chains → e ∈ peer_list p → order e tmp ≠ 0) →
  filter (λ e, ¬ same_place tmp e) (entries_of chains) = entries_of chains.
Proof.
  intros H. apply Hashtab.Refine.filter_all. intros e (p&Hp&He)%elem_of_entries [E _]. by eapply H.
Qed.

Lemma filter_here tmp p : (∀ e, e ∈ peer_list p → order e tmp = 0) →
  filter (λ e, ¬ same_place tmp e) (peer_list p) = filter (λ e, priority e ≠ priority tmp) (peer_list p).
Proof. intros H. apply filter_ext_in. intros e He. unfold same_place. rewrite (H e He). tauto. Qed.

(** What the lists say, said of the entries. *)
Section Place.
Context (con : ast_context) (tmp : ast_exten) (Hc : context_wf con) (Ht : ok_exten tmp).

Lemma chain_ok p e : p ∈ root con → e ∈ peer_list p → ok_exten e.
Proof.
  intros Hp. pose proof (cw_peers con Hc) as H. rewrite Forall_forall in H. by apply peers_elem_ok, H.
Qed.

Section At.
Context (before after : list peers) (p : peers) (e0 : ast_exten).
Context (Er : root con = before ++ p :: after) (He0 : e0 ∈ peer_list p) (E0 : order e0 tmp = 0).

Lemma at_place e : e ∈ peer_list p → order e tmp = 0.
Proof.
  intros He. assert (p ∈ root con) as Hp by (rewrite Er; set_solver).
  assert (peers_wf p) as Hw by (pose proof (cw_peers con Hc) as H; rewrite Forall_forall in H; auto).
  apply (order_zero_trans e e0 tmp); [by eapply chain_ok|by eapply chain_ok|done| |done].
  by apply (pw_same p Hw).
Qed.

Lemma not_at_place q e : q ∈ before ∨ q ∈ after → e ∈ peer_list q → order e tmp ≠ 0.
Proof.
  intros Hq He. pose proof (cw_sorted con Hc) as Hs. rewrite Er in Hs.
  assert (ok_exten e0) as H0 by (eapply (chain_ok p); [rewrite Er; set_solver|done]).
  assert (ok_exten e) as Hok by (eapply (chain_ok q); [rewrite Er; set_solver|done]).
  apply StronglySorted_app in Hs as (H1&_&H3). apply StronglySorted_cons in H3 as [H3 _].
  rewrite Forall_forall in H3. destruct Hq as [Hq|Hq].
  - assert (order e tmp < 0); [|lia]. apply (order_lt_trans e e0 tmp); [done..| |lia].
    apply (H1 q p); [done|apply list_elem_of_here|done|done].
  - assert (order e0 e < 0) as Hlt by (by apply (H3 q Hq)).
    pose proof (order_flip e tmp Hok Ht). pose proof (order_flip e0 tmp H0 Ht).
    pose proof (order_le_lt_trans tmp e0 e Ht H0 Hok). lia.
Qed.

Lemma filter_entries :
  filter (λ e, ¬ same_place tmp e) (entries con) =
    entries_of before ++ filter (λ e, priority e ≠ priority tmp) (peer_list p) ++ entries_of after.
Proof.
  change (entries con) with (entries_of (root con)).
  rewrite Er, entries_app, entries_cons, !filter_app, !filter_elsewhere, filter_here; [done|..].
  - apply at_place.
  - intros q e Hq. apply not_at_place. by right.
  - intros q e Hq. apply not_at_place. by left.
Qed.

Lemma same_place_here e : e ∈ peer_list p → priority e = priority tmp → e ∈ entries con ∧ same_place tmp e.
Proof.
  intros He Ep. split; [|by split; [apply at_place|]]. apply elem_of_entries. exists p.
  split; [rewrite Er; set_solver|done].
Qed.

Lemma same_place_inv e : e ∈ entries con → same_place tmp e → e ∈ peer_list p ∧ priority e = priority tmp.
Proof.
  intros (q&Hq&He)%elem_of_entries [E Ep]. split; [|done]. rewrite Er in Hq.
  apply elem_of_app in Hq as [Hq|[->|Hq]%elem_of_cons]; [|done|].
  - by destruct (not_at_place q e (or_introl Hq) He).
  - by destruct (not_at_place q e (or_intror Hq) He).
Qed.

Lemma entries_changed con' : changed con con' (length before) p tmp →
  ∃ tmp', same_but_label tmp tmp' ∧ entries con' ≡ₚ tmp' :: filter (λ e, ¬ same_place tmp e) (entries con).
Proof.
  intros (tmp'&p'&Hs&Er'&Hp'). exists tmp'. split; [done|]. rewrite filter_entries.
  change (entries con') with (entries_of (root con')).
  rewrite Er', Er, insert_app_r_alt, Nat.sub_diag by lia. simpl.
  rewrite entries_app, entries_cons, Hp'. simpl. symmetry. apply Permutation_middle.
Qed.

End At.

End Place.

(** The effect of an addition on the entries. *)
Definition add_effect (con con' : ast_context) (tmp : ast_exten) (replace : bool) (r : Z) : Prop :=
  (r = -1 ∧ replace = false ∧ root con' = root con ∧ ∃ e, e ∈ entries con ∧ same_place tmp e)
  ∨ (r = 0 ∧ (replace = false → ∀ e, e ∈ entries con → ¬ same_place tmp e)
     ∧ ∃ tmp', same_but_label tmp tmp'
         ∧ entries con' ≡ₚ tmp' :: filter (λ e, ¬ same_place tmp e) (entries con)).

(** The list is scanned, then the priority added or a first entry made. *)
Lemma place_effect con tmp replace :
  context_wf con → ok_exten tmp → is_Some (extenbuf tmp) →
  ∃ r con' events, ('(i, res) ← scan_root (root con) tmp 0;
      if bool_decide (res = Some 0) then
        '(r, con, events) ← add_priority con tmp i replace;
        if (r : Z) <? 0 then
          con ← undo_add con tmp;
          Some (-1, con, events ++ destroy_data tmp ++ [FreeExten (addr tmp)])
        else Some (0, con, events)
      else
        '(con, events) ← insert_first java_size con tmp i;
        Some (0, con, events)) = Some (r, con', events)
    ∧ context_wf con' ∧ add_effect con con' tmp replace r.
Proof.
  intros Hc Ht Hfit.
  destruct (scan_root_spec (root con) tmp 0 (cw_peers con Hc) Ht) as (before&after&o&E&Er&Hb&Ho).
  rewrite E. cbn [mbind option_bind Nat.add]. case_bool_decide as Hz.
  - subst o. destruct Ho as (p&after'&->&_&e0&He0&E0).
    assert (root con !! length before = Some p) as Hi by (rewrite Er; by apply list_lookup_middle).
    destruct (root_table_exists con _ p Hc Hi) as (rt&Ert&Hrt).
    destruct (add_priority_spec con tmp e0 (length before) p rt Hc Hi He0 Ht E0 Ert Hrt replace)
      as (r&con'&events&->&Hres). cbn [mbind option_bind].
    destruct Hres as [(->&->&->&e&He&Ep)|(->&Hc'&Hch&Hne)]; cbn [Z.ltb Z.compare].
    + destruct (undo_add_wf con tmp Hc Ht Hfit) as (con'&->&Er'&Hc'). cbn [mbind option_bind].
      eexists (-1), con', _. split_and!; [done..|]. left. split_and!; [done..|]. exists e.
      by apply (same_place_here con tmp Hc Ht before after' p e0).
    + eexists 0, con', _. split_and!; [done..|]. right. split_and!; [done| |].
      * intros Hr e He Hs. destruct (same_place_inv con tmp Hc Ht before after' p e0 Er He0 E0 e He Hs) as [Hin Ep].
        by destruct (Hne Hr e Hin).
      * by apply (entries_changed con tmp Hc Ht before after' p e0).
  - assert (∀ p e, p ∈ after → e ∈ peer_list p → order tmp e < 0) as Ha.
    { destruct o as [r|]; [|subst; intros p e Hp; set_solver].
      destruct Ho as (p&after'&->&Hr&e0&He0&E0). intros q e Hq He.
      assert (ok_exten e0) as H0 by (eapply (chain_ok con Hc p); [rewrite Er; set_solver|done]).
      assert (ok_exten e) as Hok by (eapply (chain_ok con Hc q); [rewrite Er; set_solver|done]).
      assert (order tmp e0 < 0) as Hlt.
      { pose proof (order_flip e0 tmp H0 Ht). assert (r ≠ 0) by congruence. lia. }
      apply (order_lt_trans tmp e0 e); [done..|]. apply elem_of_cons in Hq as [->|Hq].
      - assert (peers_wf p) as Hw.
        { pose proof (cw_peers con Hc) as H. rewrite Forall_forall, Er in H. apply H. set_solver. }
        by rewrite (pw_same p Hw e0 e).
      - pose proof (cw_sorted con Hc) as Hs. rewrite Er in Hs. apply StronglySorted_app in Hs as (_&_&Hs).
        apply StronglySorted_cons in Hs as [Hs _]. rewrite Forall_forall in Hs.
        specialize (Hs q Hq e0 e He0 He). lia. }
    destruct (insert_first_wf con tmp before after Hc Ht Er Hb Ha) as (con'&events&pt&lt&->&Er'&Hc').
    cbn [mbind option_bind]. eexists 0, con', _. split_and!; [done..|]. right.
    assert (∀ p e, p ∈ root con → e ∈ peer_list p → order e tmp ≠ 0) as Hno.
    { rewrite Er. intros p e [Hp|Hp]%elem_of_app He; [specialize (Hb p e Hp He); lia|].
      assert (ok_exten e) as Hok by (eapply (chain_ok con Hc p); [rewrite Er; set_solver|done]).
      specialize (Ha p e Hp He). pose proof (order_flip tmp e Ht Hok). lia. }
    split_and!; [done| |].
    + intros _ e (p&Hp&He)%elem_of_entries [E' _]. by eapply Hno.
    + exists tmp. split; [by left|]. change (entries con) with (entries_of (root con)).
      rewrite filter_elsewhere by done. change (entries con') with (entries_of (root con')).
      rewrite Er', Er, !entries_app, entries_cons. simpl. symmetry. apply Permutation_middle.
Qed.

End Entries.

(** ** Searching a context *)
Module Search.

Import Pattern.Bits Pattern.Order Tables Ordering Inv Adding Hashtab.Spec Hashtab.Refine PatternTree.Total.

Section Query.
Context (exten' : cstring) (priority' : Z) (label' callerid : option cstring) (action : Z).
Context (He : scannable exten') (Hcid : scannable (default [] callerid)).

(** The extension and its caller id match what is looked for. *)
Definition accepts (e : ast_exten) : Prop :=
  extension_match_core (Some (exten e)) (Some exten') action ≠ Some 0
  ∧ (matchcid e ≠ 0 → Pattern.Model.matchcid (Some (cidmatch e)) callerid ≠ Some 0).

Lemma match_total e : ok_exten e → is_Some (extension_match_core (Some (exten e)) (Some exten') action).
Proof. intros (Hx&_). by apply extension_match_core_total. Qed.

Lemma matchcid_total e : ok_exten e → is_Some (Pattern.Model.matchcid (Some (cidmatch e)) callerid).
Proof.
  intros (_&Hx&_). unfold Pattern.Model.matchcid. destruct (default [] callerid) as [|c cid] eqn:E; [done|].
  unfold ast_extension_match, extension_match_core. rewrite E. by apply extension_match_core_total.
Qed.

Lemma lookup_peer_total p q : peers_wf p →
  ∃ e q', lookup_peer priority' label' action (Some p) q = Some (e, q') ∧ incstack q' = incstack q.
Proof.
  intros Hp. unfold lookup_peer.
  rewrite (table_lookup _ _ (peer_label_table p) _ (pw_labels p Hp)), (table_lookup _ _ (peer_table p) _ (pw_table p Hp)).
  unfold raise_status. destruct (_ && _); eexists _, _; (split; [done|]); repeat case_match; done.
Qed.

(** By priority: the entry with it, if there is one. *)
Lemma lookup_peer_priority p q : peers_wf p → action ≠ E_FINDLABEL →
  ∃ e q', lookup_peer priority' label' action (Some p) q = Some (e, q') ∧ incstack q' = incstack q
    ∧ match e with
      | Some e => e ∈ peer_list p ∧ priority e = priority'
      | None => ∀ e, e ∈ peer_list p → priority e ≠ priority'
      end.
Proof.
  intros Hp Ha. unfold lookup_peer. destruct (Z.eqb_spec action E_FINDLABEL); [done|]. cbn [andb].
  rewrite (table_lookup _ _ (peer_table p) _ (pw_table p Hp)). cbn [mbind option_bind].
  eexists _, _. split_and!; [done|unfold raise_status; by case_match|].
  unfold find, same_key. destruct (filter _ _) as [|e l] eqn:E; cbn [head].
  - intros e Hin Ep. rewrite <- (pw_objects p Hp) in Hin.
    assert (e ∈ filter (λ y, hashtab_compare_exten_numbers (key priority' label') y = 0) (objects (peer_table p))) as H.
    { apply list_elem_of_filter. split; [by apply compare_numbers_zero|done]. }
    rewrite E in H. by apply not_elem_of_nil in H.
  - assert (e ∈ filter (λ y, hashtab_compare_exten_numbers (key priority' label') y = 0) (objects (peer_table p))) as H
      by (rewrite E; apply list_elem_of_here).
    apply list_elem_of_filter in H as [H Hin]. rewrite compare_numbers_zero in H.
    rewrite (pw_objects p Hp) in Hin. done.
Qed.

Lemma linear_search_total context chains q : Forall peers_wf chains →
  ∃ v q', linear_search exten' priority' label' callerid action context chains q = Some (v, q')
    ∧ incstack q' = incstack q.
Proof.
  intros Hf. revert q. induction Hf as [|p chains Hp Hf IH]; intros q; cbn [linear_search]; [eauto|].
  destruct (peer_list p) as [|e es] eqn:El; [by destruct (pw_head p Hp)|].
  assert (ok_exten e) as Hok by (eapply peers_elem_ok; [exact Hp|rewrite El; apply list_elem_of_here]).
  destruct (match_total e Hok) as [m Em], (matchcid_total e Hok) as [c Ec]. cbn [head]. run_calls.
  destruct (m =? 0); [apply IH|].
  assert (∃ c', (if negb (matchcid e =? 0) then Pattern.Model.matchcid (Some (cidmatch e)) callerid else Some 1)
    = Some c') as [c' Ec'] by (destruct (negb _); eauto). rewrite Ec'. cbn [mbind option_bind].
  destruct (c' =? 0); [apply IH|]. destruct (_ && _); [eauto|].
  destruct (lookup_peer_total p q Hp) as (e'&q'&E'&Eq). run_calls. destruct e' as [e'|].
  - eexists _, _. split; [done|]. done.
  - destruct (IH q') as (v&q''&->&Eq'). exists v, q''. split; [done|]. congruence.
Qed.

(** The peers that accept what is looked for and have the priority. *)
Definition candidate (p : peers) (e : ast_exten) : Prop :=
  e ∈ peer_list p ∧ priority e = priority' ∧ ∃ eroot, head (peer_list p) = Some eroot ∧ accepts eroot.

Lemma linear_search_first context chains q : Forall peers_wf chains → action = E_MATCH →
  ∃ v q', linear_search exten' priority' label' callerid action context chains q = Some (v, q')
    ∧ match v with
      | Return (Some e) =>
          (∃ before p after, chains = before ++ p :: after ∧ candidate p e
            ∧ ∀ p' e', p' ∈ before → ¬ candidate p' e')
          ∧ status q' = STATUS_SUCCESS ∧ foundcontext q' = Some context
      | Return None => False
      | Continue => ∀ p e, p ∈ chains → ¬ candidate p e
      end.
Proof.
  intros Hf Ha. revert q. induction Hf as [|p chains Hp Hf IH]; intros q; cbn [linear_search].
  { eexists _, _. split; [done|]. intros p e Hin. by apply not_elem_of_nil in Hin. }
  destruct (peer_list p) as [|e es] eqn:El; [by destruct (pw_head p Hp)|].
  assert (ok_exten e) as Hok by (eapply peers_elem_ok; [exact Hp|rewrite El; apply list_elem_of_here]).
  assert (∀ q, (∀ e', ¬ candidate p e') →
    ∃ v q', linear_search exten' priority' label' callerid action context chains q = Some (v, q')
    ∧ match v with
      | Return (Some e) =>
          (∃ before p0 after, p :: chains = before ++ p0 :: after ∧ candidate p0 e
            ∧ ∀ p' e', p' ∈ before → ¬ candidate p' e')
          ∧ status q' = STATUS_SUCCESS ∧ foundcontext q' = Some context
      | Return None => False
      | Continue => ∀ p0 e, p0 ∈ p :: chains → ¬ candidate p0 e
      end) as Hskip.
  { intros q0 Hno. destruct (IH q0) as (v&q'&->&Hv). exists v, q'. split; [done|].
    destruct v as [[e'|]|]; [|done|].
    - destruct Hv as [(before&p0&after&->&Hc&Hb) ?]. split; [|done]. exists (p :: before), p0, after.
      split_and!; [done..|]. intros p' e'' [->|Hin]%elem_of_cons; [apply Hno|by apply Hb].
    - intros p0 e' [->|Hin]%elem_of_cons; [apply Hno|by apply Hv]. }
  destruct (match_total e Hok) as [m Em], (matchcid_total e Hok) as [c Ec]. cbn [head]. run_calls.
  destruct (Z.eqb_spec m 0) as [->|Hm].
  { apply Hskip. intros e' (_&_&r&Hr&Hacc&_). rewrite El in Hr. by simplify_eq/=. }
  assert (∃ c', (if negb (matchcid e =? 0) then Pattern.Model.matchcid (Some (cidmatch e)) callerid else Some 1)
    = Some c' ∧ (c' = 0 ↔ ¬ (matchcid e ≠ 0 → c ≠ 0))) as (c'&Ec'&Hc').
  { destruct (Z.eqb_spec (matchcid e) 0); cbn [negb]; [exists 1|exists c]; (split; [done|]); lia. }
  rewrite Ec'. cbn [mbind option_bind]. destruct (Z.eqb_spec c' 0) as [->|Hc0].
  { apply Hskip. intros e' (_&_&r&Hr&_&Hacc). rewrite El in Hr. simplify_eq/=.
    apply (proj1 Hc' eq_refl). intros Hne ->. by apply Hacc. }
  replace ((m =? 2) && (action =? E_MATCHMORE)) with false by (rewrite Ha; by destruct (m =? 2)).
  assert (accepts e) as Hacc.
  { split; [congruence|]. intros Hne. rewrite Ec. intros [= ->]. apply Hc0, Hc'. tauto. }
  destruct (lookup_peer_priority p q Hp) as (e'&q'&E'&_&Hl); [by rewrite Ha|]. run_calls. destruct e' as [e'|].
  - eexists _, _. split; [done|]. split; [|done]. exists [], p, chains. split_and!; [done| |].
    + destruct Hl. split_and!; [done..|]. exists e. by rewrite El.
    + intros p' e'' Hin. by apply not_elem_of_nil in Hin.
  - apply Hskip. intros e' (Hin&Hpr&_). by destruct (Hl e' Hin).
Qed.

Lemma sorted_unique (l : list ast_exten) e e' : StronglySorted by_priority l →
  e ∈ l → e' ∈ l → priority e = priority e' → e = e'.
Proof.
  induction 1 as [|x l Hs IH Hf]; [by intros ?%not_elem_of_nil|]. rewrite Forall_forall in Hf.
  unfold by_priority in Hf. rewrite !elem_of_cons.
  intros [->|H1] [->|H2] E; [done|specialize (Hf e' H2); lia|specialize (Hf e H1); lia|auto].
Qed.

(** The first candidate of a sorted list is the one that comes first in the
    order. *)
Lemma first_is_least con before p after e :
  context_wf con → root con = before ++ p :: after → candidate p e →
  (∀ p' e', p' ∈ before → ¬ candidate p' e') →
  ∀ p' e', p' ∈ root con → candidate p' e' → e' = e ∨ order e e' < 0.
Proof.
  intros Hc Er Hcand Hb p' e' Hin Hcand'. rewrite Er in Hin.
  apply elem_of_app in Hin as [Hin|[->|Hin]%elem_of_cons]; [by destruct (Hb p' e' Hin)|left|right].
  - assert (peers_wf p) as Hp.
    { pose proof (cw_peers con Hc) as H. rewrite Forall_forall, Er in H. apply H. set_solver. }
    destruct Hcand as (H1&P1&_), Hcand' as (H2&P2&_).
    apply (sorted_unique (peer_list p)); [apply Hp|done|done|congruence].
  - pose proof (cw_sorted con Hc) as Hs. rewrite Er in Hs. apply StronglySorted_app in Hs as (_&_&Hs).
    apply StronglySorted_cons in Hs as [Hs _]. rewrite Forall_forall in Hs.
    apply (Hs p' Hin); [apply Hcand|apply Hcand'].
Qed.

End Query.

End Search.

(** ** The search through includes ends *)
Module Includes.

Import CString.Compare Pattern.Bits Tables Ordering Inv Adding AddExtension Search Hashtab.Refine PatternTree.Total.

(** The search is of the one context [bypass]. *)
Definition bypassed (d : dialplan) : bool := bool_decide (is_Some (bypass d)).

(** The stack fits and, unless the search is of one context, holds no context
    twice. *)
Definition stack_ok (only : bool) (l : list cstring) : Prop :=
  Z.of_nat (length l) <= AST_PBX_MAX_STACK ∧ (only = false → NoDup (folded <$> l)).

Lemma stack_push only l context nm : stack_ok only l → Z.of_nat (length l) < AST_PBX_MAX_STACK →
  existsb (λ c, strcasecmp c context =? 0) l = false → (only = false → strcmp context nm = 0) →
  stack_ok only (l ++ [nm]).
Proof.
  intros [_ Hd] Hl Hno Hnm. split; [rewrite length_app; simpl; lia|]. intros Honly.
  specialize (Hd Honly). specialize (Hnm Honly).
  rewrite fmap_app. apply NoDup_app. split_and!; [done| |apply NoDup_singleton].
  intros x Hx Hx'. apply list_elem_of_singleton in Hx' as ->. apply list_elem_of_fmap in Hx as (c&Ec&Hc).
  assert (existsb (λ c, strcasecmp c context =? 0) l = true); [|congruence].
  apply existsb_exists. exists c. split; [by apply list_elem_of_In|]. apply Z.eqb_eq, strcasecmp_zero.
  apply strcmp_zero in Hnm. unfold folded in *. by rewrite <- Ec, Hnm.
Qed.

Definition dialplan_ok (d : dialplan) : Prop :=
  (∀ con, bypass d = Some con → context_wf con) ∧ Forall context_wf (contexts d).

Lemma find_context_Some l context con : find_context l context = Some con →
  con ∈ l ∧ strcmp context (con_name con) = 0.
Proof.
  unfold find_context. destruct (filter _ l) as [|c l'] eqn:E; [done|]. intros [= ->].
  assert (con ∈ filter (λ c, strcmp context (con_name c) = 0) l) as H by (rewrite E; apply list_elem_of_here).
  apply list_elem_of_filter in H. tauto.
Qed.

Lemma store_context_ok d con : dialplan_ok d → context_wf con → dialplan_ok (store_context d con).
Proof.
  intros [Hb Hd] Hc. unfold store_context. destruct (bypass d); (split; cbn [bypass contexts]).
  - by intros ? [= <-].
  - done.
  - done.
  - rewrite Forall_fmap. eapply Forall_impl; [exact Hd|]. intros c ?. simpl. by case_decide.
Qed.

Lemma store_context_bypassed d con : bypassed (store_context d con) = bypassed d.
Proof. unfold bypassed, store_context. by destruct (bypass d). Qed.

(** A context gets its tree at the first search. *)
Lemma make_tree_wf con : context_wf con →
  ∃ con', match pattern_tree con, root_table con with
          | [], Some rt => set_pattern_tree con <$> create_match_char_tree (object <$> tlist rt)
          | _, _ => Some con
          end = Some con' ∧ context_wf con' ∧ root con' = root con ∧ con_name con' = con_name con.
Proof.
  intros Hc. destruct (pattern_tree con) as [|m t] eqn:Et; [|by exists con].
  destruct (root_table con) as [rt|] eqn:Ert; [|by exists con].
  pose proof (cw_root con Hc) as Hr. unfold root_ok in Hr. rewrite Ert in Hr.
  destruct (create_total (objects rt)) as [tree E].
  { eapply Forall_impl; [apply Hr|]. intros e (?&?&_). by split. }
  unfold objects in E. rewrite E. eexists. split_and!; [done| |done|done].
  eapply context_wf_same; [exact Hc|done|]. unfold root_ok. simpl. by rewrite Ert.
Qed.

Section Find.
Context (pbx_findswitch : cstring → option ast_switch) (pbx_substitute_variables : cstring → cstring)
        (localtime_now : option cstring → ast_tm) (overrideswitch : cstring).
Context (exten' : cstring) (priority' : Z) (label' callerid : option cstring) (action : Z).
Context (He : scannable exten') (Hcid : scannable (default [] callerid)).

Abbreviation search fuel :=
  (pbx_find_extension pbx_findswitch pbx_substitute_variables localtime_now overrideswitch false
     exten' priority' label' callerid action fuel).

(** What every search keeps. *)
Definition search_result (d : dialplan) (q : pbx_find_info)
    (r : option (option ast_exten * dialplan * pbx_find_info)) : Prop :=
  ∃ e d' q', r = Some (e, d', q') ∧ dialplan_ok d' ∧ bypassed d' = bypassed d
    ∧ stack_ok (bypassed d) (incstack q') ∧ incstack q `prefix_of` incstack q'.

Definition enough (fuel : nat) (q : pbx_find_info) : Prop :=
  AST_PBX_MAX_STACK - Z.of_nat (length (incstack q)) < Z.of_nat fuel.

Lemma try_includes_result fuel incs d q :
  (∀ d q context, dialplan_ok d → stack_ok (bypassed d) (incstack q) → enough fuel q →
     search_result d q (search fuel d q context)) →
  dialplan_ok d → stack_ok (bypassed d) (incstack q) → enough fuel q →
  search_result d q (try_includes localtime_now (search fuel) incs d q).
Proof.
  intros IH. revert d q. induction incs as [|i incs IHi]; intros d q Hd Hs Hf; cbn [try_includes].
  { by exists None, d, q. }
  destruct (negb _); [|by apply IHi].
  destruct (IH d q (rname i)) as (e&d'&q'&->&Hd'&Hb&Hs'&Hp); [done..|]. cbn [mbind option_bind].
  destruct e as [e|]; [by exists (Some e), d', q'|].
  destruct (swo q') as [s|]; [by exists None, d', q'|]. rewrite <- Hb in Hs'.
  destruct (IHi d' q') as (e&d2&q2&E&?&Hb2&?&?); [done|done| |].
  { unfold enough in *. apply prefix_length in Hp. lia. }
  exists e, d2, q2. rewrite <- Hb. split_and!; [done..|]. by etrans.
Qed.

Lemma override_stack context q q' :
  override_search pbx_findswitch pbx_substitute_variables overrideswitch exten' priority' callerid action context q
    = Some q' → incstack q' = incstack q.
Proof.
  unfold override_search. destruct overrideswitch; [done|]. destruct (strsep _ _) as [nm osw].
  destruct (pbx_findswitch nm); [|done]. cbn [mbind option_bind].
  destruct (switch_matches _ _ _ _ _ _ _); [|done]. by intros [= <-].
Qed.

Lemma switches_stack context sws q q' :
  switches_search pbx_findswitch pbx_substitute_variables exten' priority' callerid action context sws q
    = Some q' → incstack q' = incstack q.
Proof.
  induction sws as [|sw sws IH]; cbn [switches_search]; [done|].
  destruct (pbx_findswitch (sw_name sw)) as [asw|]; [|done].
  destruct (switch_matches _ _ _ _ _ _ _); [by intros [= <-]|done].
Qed.

Lemma search_ends fuel d q context :
  dialplan_ok d → stack_ok (bypassed d) (incstack q) → enough fuel q →
  search_result d q (search fuel d q context).
Proof.
  revert d q context. induction fuel as [|fuel IH]; intros d q context Hd Hs Hf.
  { destruct Hs. unfold enough in Hf. lia. }
  cbn [pbx_find_extension].
  set (q0 := if stacklen q =? 0 then _ else q).
  assert (incstack q0 = incstack q) as Eq0 by (unfold q0; by destruct (_ =? _)).
  assert (∀ q', incstack q' = incstack q → ∀ e d', dialplan_ok d' → bypassed d' = bypassed d →
    search_result d q (Some (e, d', q'))) as Hret.
  { intros q' Eq' e d' Hd' Hb'. exists e, d', q'. rewrite Eq'. by split_and!. }
  destruct (_ && _) eqn:Efull; [by apply Hret|].
  destruct (existsb _ (incstack q0)) eqn:Eseen; [by apply Hret|].
  destruct (match bypass d with Some b => Some b | None => find_context (contexts d) context end) as [con|] eqn:Ec;
    [|by apply Hret].
  assert (context_wf con ∧ (bypassed d = false → strcmp context (con_name con) = 0)) as [Hc Hnm].
  { destruct Hd as [Hb Hd]. unfold bypassed. destruct (bypass d) as [b|].
    - simplify_eq. split; [by apply Hb|done].
    - apply find_context_Some in Ec as [Hin Hnm]. split; [by eapply Forall_forall in Hd|done]. }
  destruct (make_tree_wf con Hc) as (con'&->&Hc'&_&En). cbn [mbind option_bind].
  set (q1 := raise_status _ q0).
  assert (incstack q1 = incstack q) as Eq1 by (rewrite <- Eq0; unfold q1, raise_status; by destruct (_ <? _)).
  assert (dialplan_ok (store_context d con')) as Hd' by (by apply store_context_ok).
  pose proof (store_context_bypassed d con') as Hsb.
  destruct (override_search _ _ _ _ _ _ _ _ _) as [q2|] eqn:Eo.
  { apply override_stack in Eo. apply Hret; [congruence|done..]. }
  destruct (linear_search_total exten' priority' label' callerid action He Hcid context (root con') q1)
    as (v&q2&->&Eq2); [apply Hc'|]. cbn [mbind option_bind].
  destruct v as [e|]; [apply Hret; [congruence|done..]|].
  destruct (switches_search _ _ _ _ _ _ _ _ _) as [q3|] eqn:Es.
  { apply switches_stack in Es. apply Hret; [congruence|done..]. }
  assert (Z.of_nat (length (incstack q)) < AST_PBX_MAX_STACK) as Hlt.
  { unfold stacklen in Efull. rewrite Eq0 in Efull. unfold AST_PBX_MAX_STACK in *.
    destruct (Z.eqb_spec (Z.of_nat (length (incstack q))) 0),
      (Z.leb_spec 512 (Z.of_nat (length (incstack q)))); try done; lia. }
  assert (incstack (push_context (con_name con') q2) = incstack q ++ [con_name con']) as Ep
    by (simpl; congruence).
  destruct (try_includes_result fuel (includes con') (store_context d con') (push_context (con_name con') q2))
    as (e&d2&q3&->&Hd2&Hb2&Hs2&Hp); [done|done|..].
  - rewrite Hsb, Ep, En. eapply stack_push; [done|done| |done]. by rewrite <- Eq0.
  - unfold enough in *. rewrite Ep, length_app. simpl. lia.
  - exists e, d2, q3. rewrite <- Hsb. split_and!; [done..|]. rewrite Ep in Hp. etrans; [|exact Hp]. by apply prefix_app_r.
Qed.

End Find.

End Includes.

(** ** Finding what was added *)
Module RoundTrip.

Import Pattern.Spec Pattern.Matching Pattern.Bits Pattern.Order Pattern.Storing.
Import Tables Ordering Inv Adding AddExtension Entries Search Includes.

(** A search of one context returns the candidate that comes first. *)
Section Best.
Context (pbx_findswitch : cstring → option ast_switch) (pbx_substitute_variables : cstring → cstring)
        (localtime_now : option cstring → ast_tm).
Context (exten' : cstring) (priority' : Z) (label' callerid : option cstring).
Context (He : scannable exten') (Hcid : scannable (default [] callerid)).

Lemma find_best fuel d q context con p0 e0 :
  bypass d = None → find_context (contexts d) context = Some con → context_wf con → incstack q = [] →
  p0 ∈ root con → candidate exten' priority' callerid E_MATCH p0 e0 →
  ∃ e d' q', pbx_find_extension pbx_findswitch pbx_substitute_variables localtime_now [] false
      exten' priority' label' callerid E_MATCH (S fuel) d q context = Some (Some e, d', q')
    ∧ status q' = STATUS_SUCCESS ∧ foundcontext q' = Some context
    ∧ (∃ p, p ∈ root con ∧ candidate exten' priority' callerid E_MATCH p e)
    ∧ ∀ p e', p ∈ root con → candidate exten' priority' callerid E_MATCH p e' → e' = e ∨ order e e' < 0.
Proof.
  intros Hb Hfind Hc Hq Hp0 Hc0. cbn [pbx_find_extension]. unfold stacklen. rewrite Hq.
  cbn [length Z.of_nat Z.eqb negb andb existsb incstack].
  rewrite Hb, Hfind. destruct (make_tree_wf con Hc) as (con'&->&Hc'&Er&_). cbn [mbind option_bind override_search].
  match goal with |- context [linear_search _ _ _ _ _ _ _ ?q0] =>
    destruct (linear_search_first exten' priority' label' callerid E_MATCH He Hcid context (root con') q0)
      as (v&q'&->&Hv); [apply Hc'|done|] end. cbn [mbind option_bind].
  rewrite Er in Hv. destruct v as [[e|]|]; [|done|by destruct (Hv p0 e0 Hp0)].
  destruct Hv as ((before&p&after&Es&Hcand&Hbef)&Hst&Hfc).
  eexists e, _, q'. split_and!; [done..| |].
  - exists p. split; [rewrite Es; set_solver|done].
  - by eapply first_is_least.
Qed.

End Best.

(** *** Plain extensions *)

Definition plain_name (s : cstring) : Prop :=
  scannable s ∧ (SPACE ∉ s) ∧ deref s ≠ UNDERSCORE ∧ deref (undash s) ≠ UNDERSCORE.

Lemma strip_keep src : SPACE ∉ src → strip false false false src = src.
Proof.
  induction src as [|c src IH]; [done|]. rewrite not_elem_of_cons. intros [Hc Hs]. simpl.
  rewrite IH by done. destruct (Z.eqb_spec c SPACE); [done|].
  destruct (c =? LBRACKET), (c =? RBRACKET), (c =? DASH); done.
Qed.

Lemma stored_name s : plain_name s → string_of (ext_strncpy s (Z.of_nat (length s) + 1) false) = s.
Proof.
  intros (Hs&Hsp&Hu&_). unfold ext_strncpy. destruct (Z.eqb_spec (Z.of_nat (length s) + 1) 0); [lia|].
  rewrite ext_strncpy_loop_take by lia. destruct (Z.eqb_spec (deref s) UNDERSCORE); [done|].
  rewrite strip_keep, take_ge by (done || lia). unfold string_of. apply c_prefix_app_nul.
  eapply Forall_impl; [exact Hs|]. simpl. tauto.
Qed.

Lemma stored_fluffless s : plain_name s →
  string_of (ext_strncpy s (Z.of_nat (length s) + 1 - ext_fluff_count s) true) = undash s.
Proof.
  intros (Hs&Hsp&Hu&_). rewrite ext_strncpy_exact. destruct (Z.eqb_spec (deref s) UNDERSCORE); [done|].
  rewrite strip_plain by done. apply c_prefix_app_nul. unfold undash. apply Forall_forall.
  intros c [_ Hc]%list_elem_of_filter. unfold scannable in Hs. rewrite Forall_forall in Hs. apply Hs in Hc. tauto.
Qed.

Lemma undash_undash s : undash (undash s) = undash s.
Proof. unfold undash. by rewrite list_filter_filter_l by naive_solver. Qed.

Lemma new_exten_plain a s prio lab application dat dtor reg reg_file reg_line : plain_name s →
  let tmp := new_exten a s prio lab None application dat dtor reg reg_file reg_line in
  undash (exten tmp) = undash s ∧ deref (exten tmp) ≠ UNDERSCORE ∧ matchcid tmp = AST_EXT_MATCHCID_OFF.
Proof.
  intros Hs tmp. unfold tmp, new_exten. cbn [exten matchcid]. rewrite (stored_name s Hs). destruct (Z.eqb_spec prio PRIORITY_HINT) as [->|].
  { cbn [Z.eqb negb]. split_and!; [done|apply Hs|done]. }
  destruct (negb _); [rewrite (stored_fluffless s Hs)|]; (split_and!; [|apply Hs|done]); [|done].
  apply undash_undash.
Qed.

Lemma lexc_eq a b : lexc a b = 0 → a = b.
Proof.
  revert b. induction a as [|x a IH]; intros [|y b]; simpl; try done.
  destruct (Z.eqb_spec x y) as [->|]; [|lia]. intros. f_equal. by apply IH.
Qed.

(** A plain name comes before the patterns, and matches no other name. *)
Section Plain.
Context (s : cstring) (tmp : ast_exten) (Hs : plain_name s) (Ht : ok_exten tmp).
Context (Eu : undash (exten tmp) = undash s) (Hu : deref (exten tmp) ≠ UNDERSCORE)
        (Hoff : matchcid tmp = AST_EXT_MATCHCID_OFF).

Lemma plain_accepts e : ok_exten e → deref (exten e) ≠ UNDERSCORE →
  extension_match_core (Some (exten e)) (Some s) E_MATCH ≠ Some 0 ↔ undash (exten e) = undash s.
Proof.
  intros (He&_) Hue. destruct (plain_match_core E_MATCH (exten e) s) as (r&E&Hr);
    [by right; right|done|by apply scannable_c_string|apply scannable_c_string, Hs|].
  change (extension_match_core (Some (exten e)) (Some s) E_MATCH) with (_extension_match_core (exten e) s E_MATCH).
  rewrite E. split.
  - intros Hne. destruct (proj1 Hr) as (w&(_&Hw&_)&Ew); [congruence|].
    rewrite Hw, app_nil_r in Ew by done. done.
  - intros Ew [= ->]. apply (proj2 Hr); [|done]. exists []. rewrite app_nil_r. split; [|done].
    split_and!; [apply not_elem_of_nil|done..].
Qed.

Lemma plain_order e : ok_exten e → matchcid e = AST_EXT_MATCHCID_OFF →
  (deref (exten e) = UNDERSCORE → 0 < order e tmp)
  ∧ (deref (exten e) ≠ UNDERSCORE → order e tmp = 0 ↔ undash (exten e) = undash s).
Proof.
  intros He Hoffe. destruct (exten_key_exists e He) as [k Hk], (exten_key_exists tmp Ht) as [k' Hk'].
  unfold order. rewrite (exten_order_lex2 e tmp k k') by done. cbn [default].
  destruct Hk as [Hk1 Hk2], Hk' as [Hk1' Hk2']. 
  rewrite decide_False in Hk2 by (by rewrite Hoffe). rewrite decide_False in Hk2' by (by rewrite Hoff).
  unfold lex2. rewrite Hk2, Hk2'.
  destruct (sort_key_first _ _ Hk1') as [(?&_)|(_&E1')]; [done|]. rewrite E1', Eu.
  destruct (sort_key_first _ _ Hk1) as [(Hp&k0&E1&_)|(Hp&E1)]; rewrite E1; (split; [intros Hpat|intros Hpat]); try done.
  destruct (decide (undash (exten e) = undash s)) as [->|Hne]; [by rewrite lexc_refl|]. split; [|done].
  intros E. destruct (Z.eqb_spec (lexc (0 :: undash (exten e) ++ [0]) (0 :: undash s ++ [0])) 0) as [Ez|]; [|done].
  apply lexc_eq in Ez. injection Ez as Ez. by apply (inj (.++ [0])) in Ez.
Qed.

End Plain.

End RoundTrip.

(** ** Theorems *)
Module Properties.

Import Pattern.Bits Pattern.Spec Ordering Inv Adding AddExtension Entries Search Includes RoundTrip Hashtab.Primes.

Section Add.
Context (substitute_hint : cstring → cstring → cstring → cstring) (a : nat) (con : ast_context) (replace : bool)
        (extension : cstring) (prio : Z) (lab callerid : option cstring) (application : cstring)
        (dat : Z) (dtor : bool) (reg : cstring) (reg_file : option cstring) (reg_line : Z).

Lemma add_extension_effect :
  context_wf con → extension ≠ [] → scannable extension → scannable (default [] callerid) →
  Z.of_nat (length extension) + Z.of_nat (length (default [] callerid)) + 3 <= MAX_EXTENBUF_SIZE →
  ∃ r con' events application',
    ast_add_extension2 java_size substitute_hint (Some a) con replace extension prio lab callerid application
      dat dtor reg reg_file reg_line = Some (r, con', events)
    ∧ context_wf con' ∧ (prio ≠ PRIORITY_HINT → application' = application)
    ∧ add_effect con con' (new_exten a extension prio lab callerid application' dat dtor reg reg_file reg_line)
        replace r.
Proof.
  intros Hc Hne He Hcid Hfit. unfold ast_add_extension2, ast_add_extension2_lockopt.
  destruct extension as [|c ext] eqn:Eext; [done|]. rewrite <- Eext in *. clear Hne.
  set (app' := if _ : bool then _ else application).
  assert (∀ cid, callerid = Some cid → scannable cid) as Hcid' by (by intros cid ->).
  set (tmp := new_exten _ _ _ _ _ _ _ _ _ _ _).
  assert (ok_exten tmp) as Ht by (by apply new_exten_ok).
  assert (is_Some (extenbuf tmp)) as Hb by (by apply new_exten_fits).
  destruct (add_to_tree_wf con tmp Hc Ht) as (con1&->&Er&Hc1). cbn [mbind option_bind].
  destruct (place_effect con1 tmp replace Hc1 Ht Hb) as (r&con'&events&E&Hc'&Heff).
  assert (addr tmp = a) as Ea by (unfold tmp, new_exten; by destruct callerid). rewrite Ea in E.
  exists r, con', events, app'. split_and!; [exact E|done| |].
  - intros Hp. unfold app'. by destruct (Z.eqb_spec prio PRIORITY_HINT).
  - unfold add_effect, entries in *. by rewrite <- Er.
Qed.

(** C4: [ast_add_extension2] keeps a context in order.  Whatever is added, with
    or without replacement, the call returns and leaves the extensions sorted
    by extension and caller id, the priorities of each sorted and in its table,
    and in the table of labels only peers that have a label.  The entry is
    refused exactly when one with its extension, caller id and priority is
    there and may not be replaced; otherwise it is added, in the place of the
    one with the same key if there is one, and no other entry changes.  (For
    extensions without the character 255 that fit the buffer of the trie.) *)
Theorem ast_add_extension2_keeps_context :
  context_wf con → extension ≠ [] → scannable extension → scannable (default [] callerid) →
  Z.of_nat (length extension) + Z.of_nat (length (default [] callerid)) + 3 <= MAX_EXTENBUF_SIZE →
  ∃ r con' events application',
    ast_add_extension2 java_size substitute_hint (Some a) con replace extension prio lab callerid application
      dat dtor reg reg_file reg_line = Some (r, con', events)
    ∧ context_wf con' ∧ (prio ≠ PRIORITY_HINT → application' = application)
    ∧ add_effect con con' (new_exten a extension prio lab callerid application' dat dtor reg reg_file reg_line)
        replace r.
Proof. apply add_extension_effect. Qed.

Lemma added_is_found r con' app' :
  context_wf con' → Forall (λ e, matchcid e = AST_EXT_MATCHCID_OFF) (entries con) → plain_name extension →
  callerid = None →
  add_effect con con' (new_exten a extension prio lab callerid app' dat dtor reg reg_file reg_line) replace r →
  r = 0 →
  ∃ tmp p, addr tmp = a ∧ p ∈ root con' ∧ candidate extension prio None E_MATCH p tmp
    ∧ ∀ p' e, p' ∈ root con' → candidate extension prio None E_MATCH p' e → ¬ order e tmp < 0.
Proof.
  intros Hc' Hoff Hs -> [(->&_)|(_&_&tmp'&Hsb&Hent)] Hr; [done|].
  destruct (new_exten_plain a extension prio lab app' dat dtor reg reg_file reg_line Hs) as (Eu&Hu&Hm).
  set (tmp := new_exten _ _ _ _ _ _ _ _ _ _ _) in *.
  assert (ok_exten tmp) as Ht by (apply new_exten_ok; [apply Hs|done]).
  assert (ok_exten tmp' ∧ exten tmp' = exten tmp ∧ matchcid tmp' = matchcid tmp ∧ addr tmp' = a
          ∧ priority tmp' = prio) as (Ht'&Ex&Em&Ea&Ep) by (by destruct Hsb as [-> | ->]).
  rewrite <- Ex in Eu, Hu. rewrite <- Em in Hm. clearbody tmp.
  assert (∀ p e, p ∈ root con' → e ∈ peer_list p → matchcid e = AST_EXT_MATCHCID_OFF) as Hoff'.
  { intros p e Hp He. assert (e ∈ entries con') as Hin by (apply elem_of_entries; eauto).
    rewrite Hent in Hin. apply elem_of_cons in Hin as [->|Hin]; [done|].
    apply list_elem_of_filter in Hin as [_ Hin]. rewrite Forall_forall in Hoff. by apply Hoff. }
  assert (tmp' ∈ entries con') as Hin by (rewrite Hent; apply list_elem_of_here).
  apply elem_of_entries in Hin as (p&Hp&Hin). pose proof (cw_peers con' Hc') as Hw. rewrite Forall_forall in Hw.
  assert (∀ p, p ∈ root con' → ∃ eroot, head (peer_list p) = Some eroot ∧ eroot ∈ peer_list p) as Hhead.
  { intros p0 Hp0. pose proof (pw_head p0 (Hw p0 Hp0)). destruct (peer_list p0) as [|er es]; [done|].
    exists er. split; [done|apply list_elem_of_here]. }
  exists tmp', p. split_and!; [done|done| |].
  - split_and!; [done|done|]. destruct (Hhead p Hp) as (er&Eer&Her). exists er. split; [done|].
    assert (ok_exten er) as Hok by (by eapply peers_elem_ok; [apply Hw|]).
    destruct (plain_order extension tmp' Ht' Eu Hu Hm er Hok) as [H1 H2]; [by eapply Hoff'|].
    pose proof (pw_same p (Hw p Hp) er tmp' Her Hin) as Eo.
    assert (deref (exten er) ≠ UNDERSCORE) as Hur by (intros Hpat; apply H1 in Hpat; lia).
    split; [apply plain_accepts; [done..|]; by apply H2|]. intros Hn. by rewrite (Hoff' p er Hp Her) in Hn.
  - intros p' e Hp' (He&_&er&Eer&Hacc&_) Hlt. destruct (Hhead p' Hp') as (er'&Eer'&Her). simplify_eq.
    assert (ok_exten er ∧ ok_exten e) as [Hok Hoke] by (split; by eapply peers_elem_ok; [apply Hw|]).
    assert (order er tmp' < 0) as Hlt'.
    { apply (order_le_lt_trans er e tmp'); [done..| |done]. by rewrite (pw_same p' (Hw p' Hp') er e). }
    destruct (plain_order extension tmp' Ht' Eu Hu Hm er Hok) as [H1 H2]; [by eapply Hoff'|].
    destruct (decide (deref (exten er) = UNDERSCORE)) as [Hpat|Hpat]; [apply H1 in Hpat; lia|].
    apply (plain_accepts extension Hs er Hok Hpat) in Hacc. apply H2 in Hacc; [lia|done].
Qed.

End Add.

Lemma ast_add_extension2_keeps_context_witness :
  ∃ r con' events application',
    ast_add_extension2 java_size (λ _ _ app, app) (Some 1%nat) (Examples.empty_context (cstr "default")) false
      (cstr "_NXX") 1 (Some (cstr "start")) (Some (cstr "_55.")) (cstr "Dial") 0 false (cstr "pbx_config") None 0
      = Some (r, con', events)
    ∧ context_wf con' ∧ (1 ≠ PRIORITY_HINT → application' = cstr "Dial")
    ∧ add_effect (Examples.empty_context (cstr "default")) con'
        (new_exten 1 (cstr "_NXX") 1 (Some (cstr "start")) (Some (cstr "_55.")) application' 0 false
           (cstr "pbx_config") None 0) false r.
Proof.
  apply (ast_add_extension2_keeps_context (λ _ _ app, app) 1 (Examples.empty_context (cstr "default")) false
           (cstr "_NXX") 1 (Some (cstr "start")) (Some (cstr "_55.")) (cstr "Dial") 0 false (cstr "pbx_config") None 0).
  - split; [constructor|constructor|done].
  - done.
  - by repeat constructor.
  - by repeat constructor.
  - vm_compute. done.
Defined.

(** C5: in a context in order a search by priority (the default algorithm)
    returns, when some extension of the context matches the number and the
    caller id and has the priority, the entry of the first one that does: every
    other such entry comes after it in the order of specificity that
    [ast_add_extension2] keeps.  The search reports success in that context. *)
Theorem pbx_find_extension_best_match
    pbx_findswitch pbx_substitute_variables localtime_now fuel d q context con
    exten' priority' label' callerid p0 e0 :
  bypass d = None → find_context (contexts d) context = Some con → context_wf con → incstack q = [] →
  scannable exten' → scannable (default [] callerid) →
  p0 ∈ root con → candidate exten' priority' callerid E_MATCH p0 e0 →
  ∃ e d' q', pbx_find_extension pbx_findswitch pbx_substitute_variables localtime_now [] false
      exten' priority' label' callerid E_MATCH (S fuel) d q context = Some (Some e, d', q')
    ∧ status q' = STATUS_SUCCESS ∧ foundcontext q' = Some context
    ∧ (∃ p, p ∈ root con ∧ candidate exten' priority' callerid E_MATCH p e)
    ∧ ∀ p e', p ∈ root con → candidate exten' priority' callerid E_MATCH p e' → e' = e ∨ order e e' < 0.
Proof. intros. by eapply find_best. Qed.

(** A context with one extension. *)
Definition add_100 : option (Z * ast_context * list event) :=
  ast_add_extension2 java_size (λ _ _ app, app) (Some 1%nat) (Examples.empty_context (cstr "default")) false
    (cstr "100") 1 None None (cstr "Dial") 0 false (cstr "pbx_config") None 0.
Definition con_100 : ast_context :=
  match add_100 with Some (_, con, _) => con | None => Examples.empty_context [] end.

Lemma pbx_find_extension_best_match_witness :
  ∃ e d' q', pbx_find_extension (λ _, None) (λ s, s) (λ _, Tm 0 1 0 0 0) [] false (cstr "100") 1 None None E_MATCH 1
      (Dialplan [con_100] None) Examples.start (cstr "default") = Some (Some e, d', q')
    ∧ status q' = STATUS_SUCCESS ∧ foundcontext q' = Some (cstr "default")
    ∧ (∃ p, p ∈ root con_100 ∧ candidate (cstr "100") 1 None E_MATCH p e)
    ∧ ∀ p e', p ∈ root con_100 → candidate (cstr "100") 1 None E_MATCH p e' → e' = e ∨ order e e' < 0.
Proof.
  assert (plain_name (cstr "100")) as Hs by (split_and!; [by repeat constructor|set_solver|done|done]).
  destruct (add_extension_effect (λ _ _ app, app) 1 (Examples.empty_context (cstr "default")) false (cstr "100") 1
    None None (cstr "Dial") 0 false (cstr "pbx_config") None 0) as (r&con'&events&app'&E&Hc'&_&Heff);
    [split; [constructor|constructor|done]|done|apply Hs|constructor|done|].
  assert (con' = con_100 ∧ r = 0) as [-> ->].
  { assert (add_100 = Some (r, con', events)) as E' by exact E. unfold con_100. rewrite E'. split; [done|].
    destruct Heff as [(_&_&_&e&He&_)|(->&_)]; [|done]. by apply not_elem_of_nil in He. }
  destruct (added_is_found 1 (Examples.empty_context (cstr "default")) false (cstr "100") 1 None None 0 false
    (cstr "pbx_config") None 0 0 con_100 app') as (tmp&p&_&Hp&Hcand&_); [done|constructor|done..|].
  apply (pbx_find_extension_best_match (λ _, None) (λ s, s) (λ _, Tm 0 1 0 0 0) 0 (Dialplan [con_100] None) Examples.start
           (cstr "default") con_100 (cstr "100") 1 None None p tmp).
  - done.
  - unfold find_context, contexts. rewrite filter_cons_True by (vm_compute; reflexivity). reflexivity.
  - done.
  - done.
  - apply Hs.
  - constructor.
  - done.
  - done.
Defined.

(** C6: a search through includes with the default algorithm (not the trie)
    always ends, whatever the contexts include (themselves, or one another in a
    cycle), whether all contexts are searched or only a given one, [bypass]: 513
    nested calls are enough from an empty stack.  The stack of visited contexts
    only grows and stays within its 512 places.  Unless the search is of a given
    context, whose includes lead to itself, no context is put on it twice, up to
    the case of its name.  (For extensions and caller ids without the character
    255, and contexts in order.) *)
Theorem pbx_find_extension_ends
    pbx_findswitch pbx_substitute_variables localtime_now overrideswitch
    exten' priority' label' callerid action fuel d q context :
  scannable exten' → scannable (default [] callerid) →
  dialplan_ok d → stack_ok (bypassed d) (incstack q) →
  AST_PBX_MAX_STACK - Z.of_nat (length (incstack q)) < Z.of_nat fuel →
  ∃ e d' q', pbx_find_extension pbx_findswitch pbx_substitute_variables localtime_now overrideswitch false
      exten' priority' label' callerid action fuel d q context = Some (e, d', q')
    ∧ dialplan_ok d' ∧ bypassed d' = bypassed d
    ∧ stack_ok (bypassed d) (incstack q') ∧ incstack q `prefix_of` incstack q'.
Proof. intros He Hcid Hd Hs Hf. by apply search_ends. Qed.

Definition no_timing : ast_timing := PbxTiming.Examples.no_timing.

(** Two contexts that include each other. *)
Definition cyclic : dialplan :=
  Dialplan [Context (cstr "a") [] None [] [Include (cstr "b") (cstr "b") None 0 no_timing] [] [];
            Context (cstr "b") [] None [] [Include (cstr "a") (cstr "a") None 0 no_timing] [] []] None.

Lemma pbx_find_extension_ends_witness :
  ∃ e d' q', pbx_find_extension (λ _, None) (λ s, s) (λ _, Tm 0 1 0 0 0) [] false (cstr "100") 1 None None E_MATCH 513
      cyclic Examples.start (cstr "a") = Some (e, d', q')
    ∧ dialplan_ok d' ∧ bypassed d' = bypassed cyclic
    ∧ stack_ok (bypassed cyclic) (incstack q') ∧ incstack Examples.start `prefix_of` incstack q'.
Proof.
  apply (pbx_find_extension_ends (λ _, None) (λ s, s) (λ _, Tm 0 1 0 0 0) [] (cstr "100") 1 None None E_MATCH 513 cyclic
           Examples.start (cstr "a")).
  - by repeat constructor.
  - constructor.
  - split; [done|]. repeat apply Forall_cons_2; [..|apply Forall_nil_2]; (split; [constructor|constructor|done]).
  - split; [done|]. intros _. constructor.
  - done.
Defined.

(** C8: what is added is found: when [ast_add_extension2] accepts a plain
    extension (not a pattern, no spaces, no caller id) into a context in order
    whose extensions have no caller ids, a search of that context for the same
    digits and priority finds the entry just added, whatever patterns the
    context holds. *)
Theorem added_extension_found substitute_hint a con replace s prio lab application dat dtor reg reg_file reg_line :
  context_wf con → Forall (λ e, matchcid e = AST_EXT_MATCHCID_OFF) (entries con) →
  plain_name s → s ≠ [] → Z.of_nat (length s) + 3 <= MAX_EXTENBUF_SIZE →
  ∃ r con' events,
    ast_add_extension2 java_size substitute_hint (Some a) con replace s prio lab None application
      dat dtor reg reg_file reg_line = Some (r, con', events)
    ∧ (r = 0 → ∀ findswitch substitute timing fuel d q context label',
        bypass d = None → find_context (contexts d) context = Some con' → incstack q = [] →
        ∃ e d' q', pbx_find_extension findswitch substitute timing [] false s prio label' None E_MATCH (S fuel)
            d q context = Some (Some e, d', q')
          ∧ addr e = a ∧ status q' = STATUS_SUCCESS ∧ foundcontext q' = Some context).
Proof.
  intros Hc Hoff Hs Hne Hfit.
  destruct (add_extension_effect substitute_hint a con replace s prio lab None application dat dtor reg reg_file
    reg_line Hc Hne) as (r&con'&events&app'&E&Hc'&_&Heff); [apply Hs|constructor|simpl; lia|].
  exists r, con', events. split; [done|]. intros Hr findswitch substitute timing fuel d q context label' Hb Hf Hq.
  destruct (added_is_found a con replace s prio lab None dat dtor reg reg_file reg_line r con' app')
    as (tmp&p&Ea&Hp&Hcand&Hmin); [done..|].
  destruct (find_best findswitch substitute timing s prio label' None (proj1 Hs) (Forall_nil_2 _) fuel d q context
    con' p tmp) as (e&d'&q'&E'&Hst&Hfc&(p'&Hp'&Hc'')&Hbest); [done..|].
  exists e, d', q'. split_and!; [done| |done|done].
  destruct (Hbest p tmp Hp Hcand) as [<-|Hlt]; [done|]. by destruct (Hmin p' e Hp' Hc'').
Qed.

Lemma added_extension_found_witness :
  ∃ r con' events,
    ast_add_extension2 java_size (λ _ _ app, app) (Some 1%nat) (Examples.empty_context (cstr "default")) false
      (cstr "555-1234") 1 None None (cstr "Dial") 0 false (cstr "pbx_config") None 0 = Some (r, con', events)
    ∧ (r = 0 → ∀ findswitch substitute timing fuel d q context label',
        bypass d = None → find_context (contexts d) context = Some con' → incstack q = [] →
        ∃ e d' q', pbx_find_extension findswitch substitute timing [] false (cstr "555-1234") 1 label' None E_MATCH
            (S fuel) d q context = Some (Some e, d', q')
          ∧ addr e = 1%nat ∧ status q' = STATUS_SUCCESS ∧ foundcontext q' = Some context).
Proof.
  apply (added_extension_found (λ _ _ app, app) 1 (Examples.empty_context (cstr "default")) false (cstr "555-1234") 1
           None (cstr "Dial") 0 false (cstr "pbx_config") None 0).
  - split; [constructor|constructor|done].
  - constructor.
  - split_and!; [by repeat constructor|set_solver|done|done].
  - done.
  - vm_compute. done.
Defined.

End Properties.
