(* ===== verification/DialplanLists.v ===== *)
(** * Includes, switches and ignored patterns of a context
      ([main/pbx.c], [main/pbx_include.c], [main/pbx_sw.c], [main/pbx_ignorepat.c])

    Besides its extensions a context holds three vectors: the contexts it
    includes, possibly under a time condition, the switches it asks, and the
    patterns after which the dial tone is kept.

    - [Model]: the functions of the source.  [None] is an access through NULL or
      a call that does not return.  The results of allocations are arguments.
    - [Lists]: adding to and removing from a vector without repetitions.
    - [Properties]: the theorems. *)

From stdpp Require Import base numbers list sets strings.
From Stdlib Require Import ZArith Lia.
From S2P Require Import Prelude Pattern CString PbxTiming PatternTree Dialplan.
Import Pattern.Model CString.Model PbxTiming.Model Dialplan.Model.

Module Model.

(** *** Allocation *)

(** [strchr]: what is before the character and what follows it. *)
Definition cut_at (c : Z) (s : cstring) : option (cstring * cstring) :=
  match strsep [c] s with
  | (a, Some b) => Some (a, b)
  | (_, None) => None
  end.

(** The fields of a structure [calloc] returns. *)
Definition zero_timing : ast_timing := Timing 0 0 0 (replicate 48 0) None.

(** [Some None] when there is no memory. *)
Definition include_alloc (alloc : bool) (value : cstring) (registrar : option cstring) : option (option ast_include) :=
  if negb alloc then Some None else
  match (match cut_at 124 value with Some r => Some r | None => cut_at 44 value end) with
  | Some (p, c) =>
      '(ht, t) ← ast_build_timing zero_timing c;
      Some (Some (Include value p registrar ht t))
  | None => Some (Some (Include value value registrar 0 zero_timing))
  end.

Definition sw_alloc (alloc : bool) (value : cstring) (data : option cstring) (eval : bool)
    (registrar : option cstring) : option ast_sw :=
  if negb alloc then None else Some (Sw value registrar (default [] data) eval).

Definition ignorepat_alloc (alloc : bool) (value : cstring) (registrar : option nat) : option ast_ignorepat :=
  if negb alloc then None else Some (Ignorepat value registrar).

(** *** Vectors *)

(** [AST_VECTOR_REMOVE_ORDERED] of the first element for which the condition of
    the loop holds; the condition may read through NULL. *)
Fixpoint remove_first {A} (cond : A → option bool) (l : list A) : option (option (list A)) :=
  match l with
  | [] => Some None
  | x :: l =>
      b ← cond x;
      if (b : bool) then Some (Some l)
      else r ← remove_first cond l; Some (cons x <$> (r : option (list A)))
  end.

(** [!registrar || !strcmp(x->registrar, registrar)] *)
Definition registrar_matches (of_entry registrar : option cstring) : option bool :=
  match registrar, of_entry with
  | None, _ => Some true
  | Some r, Some r' => Some (strcmp r' r =? 0)
  | Some _, None => None
  end.

(** *** Includes *)

(** [alloc]: whether the structure and the vector can be allocated. *)
Definition ast_context_add_include2 (alloc : bool * bool) (con : ast_context) (value : cstring)
    (registrar : option cstring) : option (Z * ast_context) :=
  new_include ← include_alloc (alloc.1) value registrar;
  match new_include with
  | None => Some (-1, con)
  | Some i =>
      if existsb (λ j, strcasecmp (inc_name j) (inc_name i) =? 0) (includes con) then Some (-1, con)
      else if negb (alloc.2) then Some (-1, con)
      else Some (0, set_includes con (includes con ++ [i]))
  end.

Definition ast_context_remove_include2 (con : ast_context) (include : cstring) (registrar : option cstring)
    : option (Z * ast_context) :=
  r ← remove_first (λ i, if strcmp (inc_name i) include =? 0
                         then registrar_matches (inc_registrar i) registrar else Some false) (includes con);
  Some (match r with
        | Some l => (0, set_includes con l)
        | None => (-1, con)
        end).

(** *** Switches *)

Definition ast_context_add_switch2 (alloc : bool * bool) (con : ast_context) (value : cstring)
    (data : option cstring) (eval : bool) (registrar : option cstring) : Z * ast_context :=
  match sw_alloc (alloc.1) value data eval registrar with
  | None => (-1, con)
  | Some sw =>
      if existsb (λ i, (strcasecmp (sw_name i) (sw_name sw) =? 0) && (strcasecmp (sw_data i) (sw_data sw) =? 0)) (alts con)
      then (-1, con)
      else if negb (alloc.2) then (-1, con)
      else (0, set_alts con (alts con ++ [sw]))
  end.

Definition ast_context_remove_switch2 (con : ast_context) (sw data : cstring) (registrar : option cstring)
    : option (Z * ast_context) :=
  r ← remove_first (λ i, if (strcmp (sw_name i) sw =? 0) && (strcmp (sw_data i) data =? 0)
                         then registrar_matches (sw_registrar i) registrar else Some false) (alts con);
  Some (match r with
        | Some l => (0, set_alts con l)
        | None => (-1, con)
        end).

(** *** Ignored patterns *)

Definition ast_context_add_ignorepat2 (alloc : bool * bool) (con : ast_context) (value : cstring)
    (registrar : option nat) : Z * ast_context :=
  match ignorepat_alloc (alloc.1) value registrar with
  | None => (-1, con)
  | Some ip =>
      if existsb (λ i, strcasecmp (pattern i) value =? 0) (ignorepats con) then (-1, con)
      else if negb (alloc.2) then (-1, con)
      else (0, set_ignorepats con (ignorepats con ++ [ip]))
  end.

(** The registrars are compared as pointers. *)
Definition ast_context_remove_ignorepat2 (con : ast_context) (ignorepat : cstring) (registrar : option nat)
    : option (Z * ast_context) :=
  r ← remove_first (λ ip, Some ((strcmp (pattern ip) ignorepat =? 0)
                                && (bool_decide (registrar = None) || bool_decide (registrar = ip_registrar ip))))
        (ignorepats con);
  Some (match r with
        | Some l => (0, set_ignorepats con l)
        | None => (-1, con)
        end).

(** *** By the name of the context *)

(** The operation on the context with that name, -1 when there is none. *)
Definition with_context (d : dialplan) (context : cstring) (f : ast_context → option (Z * ast_context))
    : option (Z * dialplan) :=
  match find_context (contexts d) context with
  | None => Some (-1, d)
  | Some c => '(ret, c) ← f c; Some (ret, store_context d c)
  end.

Definition ast_context_add_include (alloc : bool * bool) (d : dialplan) (context include : cstring)
    (registrar : option cstring) : option (Z * dialplan) :=
  with_context d context (λ c, ast_context_add_include2 alloc c include registrar).
Definition ast_context_remove_include (d : dialplan) (context include : cstring) (registrar : option cstring) :=
  with_context d context (λ c, ast_context_remove_include2 c include registrar).
Definition ast_context_add_switch (alloc : bool * bool) (d : dialplan) (context sw : cstring)
    (data : option cstring) (eval : bool) (registrar : option cstring) : option (Z * dialplan) :=
  with_context d context (λ c, Some (ast_context_add_switch2 alloc c sw data eval registrar)).
Definition ast_context_remove_switch (d : dialplan) (context sw data : cstring) (registrar : option cstring) :=
  with_context d context (λ c, ast_context_remove_switch2 c sw data registrar).
Definition ast_context_add_ignorepat (alloc : bool * bool) (d : dialplan) (context value : cstring)
    (registrar : option nat) : option (Z * dialplan) :=
  with_context d context (λ c, Some (ast_context_add_ignorepat2 alloc c value registrar)).
Definition ast_context_remove_ignorepat (d : dialplan) (context ignorepat : cstring) (registrar : option nat) :=
  with_context d context (λ c, ast_context_remove_ignorepat2 c ignorepat registrar).

(** Whether a pattern of the list matches; the loop stops at the first. *)
Fixpoint match_ignorepats (ips : list ast_ignorepat) (digits : cstring) : option Z :=
  match ips with
  | [] => Some 0
  | pat :: ips =>
      m ← ast_extension_match (Some (pattern pat)) (Some digits);
      if negb (m =? 0) then Some 1 else match_ignorepats ips digits
  end.

Definition ast_ignore_pattern (d : dialplan) (context digits : cstring) : option Z :=
  match find_context (contexts d) context with
  | Some con => match_ignorepats (ignorepats con) digits
  | None => Some 0
  end.

Definition ast_context_verify_includes (d : dialplan) (con : ast_context) : Z :=
  if forallb (λ inc, bool_decide (is_Some (find_context (contexts d) (rname inc)))) (includes con) then 0 else -1.

End Model.

Import Model.

(** ** Worked inputs *)
Module Examples.

Definition con0 : ast_context := Context (cstr "default") [] None [] [] [] [].

(** An include with a time condition. *)
Example include_timed :
  (r ← ast_context_add_include2 (true, true) con0 (cstr "office|9:00-17:00|mon-fri") None;
   Some (r.1, (λ i, (rname i, hastime i)) <$> includes (r.2))) = Some (0, [(cstr "office", 1)]).
Proof. vm_compute. reflexivity. Qed.

(** The same include again, in another case. *)
Example include_repeated :
  (r ← ast_context_add_include2 (true, true) con0 (cstr "office") None;
   r ← ast_context_add_include2 (true, true) (r.2) (cstr "Office") None; Some (r.1)) = Some (-1).
Proof. vm_compute. reflexivity. Qed.

(** An ignored pattern registered by a module is not removed in the name of the
    same module when the name is another copy of the string. *)
Example ignorepat_other_pointer :
  (r ← ast_context_remove_ignorepat2 (ast_context_add_ignorepat2 (true, true) con0 (cstr "9") (Some 1%nat)).2
         (cstr "9") (Some 2%nat); Some (r.1)) = Some (-1).
Proof. vm_compute. reflexivity. Qed.

End Examples.

(** ** Vectors without repetitions *)
Module Lists.

Import CString.Compare.

Lemma remove_first_total {A} (cond : A → option bool) l : (∀ x, x ∈ l → is_Some (cond x)) →
  ∃ r, remove_first cond l = Some r ∧ ∀ l', r = Some l' → l' `sublist_of` l.
Proof.
  induction l as [|x l IH]; intros Hc; cbn [remove_first]; [by exists None|].
  destruct (Hc x) as [b ->]; [apply list_elem_of_here|]. cbn [mbind option_bind].
  destruct b; [exists (Some l); split; [done|]; intros l' [= <-]; by apply sublist_cons|].
  destruct IH as (r&->&Hr); [intros y Hy; apply Hc; by apply elem_of_cons; right|].
  exists (cons x <$> r). split; [done|]. intros l' E. apply fmap_Some in E as (l0&->&->).
  apply sublist_skip. by apply Hr.
Qed.

Lemma remove_first_last {A} (cond : A → option bool) l x :
  (∀ y, y ∈ l → cond y = Some false) → cond x = Some true → remove_first cond (l ++ [x]) = Some (Some l).
Proof.
  intros Hl Hx. induction l as [|y l IH]; simpl; [by rewrite Hx|].
  rewrite (Hl y) by apply list_elem_of_here. cbn [mbind option_bind].
  rewrite IH; [done|]. intros z Hz. apply Hl. by apply elem_of_cons; right.
Qed.

(** A vector to which a key is added when it is not there. *)
Lemma NoDup_append {A K} (key : A → K) l x :
  NoDup (key <$> l) → (∀ y, y ∈ l → key y ≠ key x) → NoDup (key <$> l ++ [x]).
Proof.
  intros Hl Hx. rewrite fmap_app. apply NoDup_app. split_and!; [done| |apply NoDup_singleton].
  intros k Hk Hk'. apply list_elem_of_singleton in Hk' as ->. apply list_elem_of_fmap in Hk as (y&E&Hy).
  by apply (Hx y Hy).
Qed.

Lemma NoDup_sublist_fmap {A K} (key : A → K) l l' : l' `sublist_of` l → NoDup (key <$> l) → NoDup (key <$> l').
Proof. intros Hs Hl. eapply sublist_NoDup; [exact Hl|]. by apply fmap_sublist. Qed.

Lemma existsb_false {A} (f : A → bool) l : existsb f l = false → ∀ x, x ∈ l → f x = false.
Proof.
  intros E x Hx. destruct (f x) eqn:Ef; [|done]. rewrite <- E. symmetry. apply existsb_exists.
  exists x. split; [by apply list_elem_of_In|done].
Qed.

Lemma Forall_sublist {A} (P : A → Prop) l l' : l' `sublist_of` l → Forall P l → Forall P l'.
Proof. rewrite !Forall_forall. intros Hs H x Hx. apply H. by eapply elem_of_sublist. Qed.

(** *** The three vectors of a context *)

Definition sw_key (sw : ast_sw) : list Z * list Z := (folded (sw_name sw), folded (sw_data sw)).

Record lists_ok (con : ast_context) : Prop := {
  lo_includes : NoDup ((λ i, folded (inc_name i)) <$> includes con);
  lo_alts : NoDup (sw_key <$> alts con);
  lo_ignorepats : NoDup ((λ ip, folded (pattern ip)) <$> ignorepats con);
  lo_inc_registrars : Forall (λ i, is_Some (inc_registrar i)) (includes con);
  lo_sw_registrars : Forall (λ sw, is_Some (sw_registrar sw)) (alts con);
}.

Inductive list_op :=
| AddInclude (alloc : bool * bool) (value registrar : cstring)
| RemoveInclude (include : cstring) (registrar : option cstring)
| AddSwitch (alloc : bool * bool) (value : cstring) (data : option cstring) (eval : bool) (registrar : cstring)
| RemoveSwitch (sw data : cstring) (registrar : option cstring)
| AddIgnorepat (alloc : bool * bool) (value : cstring) (registrar : option nat)
| RemoveIgnorepat (ignorepat : cstring) (registrar : option nat).

Definition list_step (o : list_op) (con : ast_context) : option (Z * ast_context) :=
  match o with
  | AddInclude alloc value registrar => ast_context_add_include2 alloc con value (Some registrar)
  | RemoveInclude include registrar => ast_context_remove_include2 con include registrar
  | AddSwitch alloc value data eval registrar => Some (ast_context_add_switch2 alloc con value data eval (Some registrar))
  | RemoveSwitch sw data registrar => ast_context_remove_switch2 con sw data registrar
  | AddIgnorepat alloc value registrar => Some (ast_context_add_ignorepat2 alloc con value registrar)
  | RemoveIgnorepat ignorepat registrar => ast_context_remove_ignorepat2 con ignorepat registrar
  end.

Fixpoint list_run (ops : list list_op) (con : ast_context) : option (list Z * ast_context) :=
  match ops with
  | [] => Some ([], con)
  | o :: ops => '(r, con) ← list_step o con; '(rs, con) ← list_run ops con; Some (r :: rs, con)
  end.

(** The extensions of the context are not touched. *)
Definition same_extensions (con con' : ast_context) : Prop :=
  con_name con' = con_name con ∧ root con' = root con ∧ root_table con' = root_table con
  ∧ pattern_tree con' = pattern_tree con.

Lemma include_alloc_total alloc value registrar :
  ∃ i, include_alloc alloc value registrar = Some i
    ∧ ∀ inc, i = Some inc → inc_name inc = value ∧ inc_registrar inc = registrar.
Proof.
  unfold include_alloc. destruct (negb alloc); [by exists None|].
  destruct (match cut_at 124 value with Some _ => _ | None => _ end) as [[p c]|].
  - assert (∃ ht t, ast_build_timing zero_timing c = Some (ht, t)) as (ht&t&->).
    { destruct c as [|x c]; [by eexists _, _|].
      destruct (PbxTiming.Fields.build_spec zero_timing (x :: c)) as (i&E&_); [done|]. by eexists _, _. }
    cbn [mbind option_bind]. eexists. split; [done|]. by intros inc [= <-].
  - eexists. split; [done|]. by intros inc [= <-].
Qed.

Lemma registrar_matches_total r r' : is_Some r → is_Some (registrar_matches r r').
Proof. intros [s ->]. by destruct r'. Qed.

Definition step_ok (con : ast_context) (r : option (Z * ast_context)) : Prop :=
  ∃ z con', r = Some (z, con') ∧ lists_ok con' ∧ same_extensions con con'.

Lemma step_same con z : lists_ok con → step_ok con (Some (z, con)).
Proof. intros. by exists z, con. Qed.

Lemma add_include_ok con alloc value registrar : lists_ok con →
  step_ok con (ast_context_add_include2 alloc con value (Some registrar)).
Proof.
  intros Hok. unfold ast_context_add_include2.
  destruct (include_alloc_total (alloc.1) value (Some registrar)) as ([i|]&->&Hi); cbn [mbind option_bind];
    [|by apply step_same]. destruct (Hi i eq_refl) as [En Er].
  destruct (existsb _ _) eqn:E; [by apply step_same|]. destruct (negb _); [by apply step_same|].
  destruct Hok as [H1 H2 H3 H4 H5]. eexists _, _. split; [done|]. split; [|done]. split; try done; cbn [includes set_includes].
  - apply NoDup_append; [done|]. intros j Hj Ej. apply (existsb_false _ _ E) in Hj.
    apply strcasecmp_zero in Ej. by rewrite Ej in Hj.
  - apply Forall_app. split; [done|]. constructor; [by rewrite Er|constructor].
Qed.

Lemma add_switch_ok con alloc value data eval registrar : lists_ok con →
  step_ok con (Some (ast_context_add_switch2 alloc con value data eval (Some registrar))).
Proof.
  intros Hok. unfold ast_context_add_switch2, sw_alloc. destruct (negb (alloc.1)); [by apply step_same|].
  destruct (existsb _ _) eqn:E; [by apply step_same|]. destruct (negb _); [by apply step_same|].
  destruct Hok as [H1 H2 H3 H4 H5]. eexists _, _. split; [done|]. split; [|done]. split; try done; cbn [alts set_alts].
  - apply NoDup_append; [done|]. intros j Hj Ej. apply (existsb_false _ _ E) in Hj. injection Ej as E1 E2.
    apply strcasecmp_zero in E1, E2. cbn [sw_name sw_data] in *. by rewrite E1, E2 in Hj.
  - apply Forall_app. split; [done|]. by repeat constructor.
Qed.

Lemma add_ignorepat_ok con alloc value registrar : lists_ok con →
  step_ok con (Some (ast_context_add_ignorepat2 alloc con value registrar)).
Proof.
  intros Hok. unfold ast_context_add_ignorepat2, ignorepat_alloc. destruct (negb (alloc.1)); [by apply step_same|].
  destruct (existsb _ _) eqn:E; [by apply step_same|]. destruct (negb _); [by apply step_same|].
  destruct Hok as [H1 H2 H3 H4 H5]. eexists _, _. split; [done|]. split; [|done].
  split; try done; cbn [ignorepats set_ignorepats].
  apply NoDup_append; [done|]. intros j Hj Ej. apply (existsb_false _ _ E) in Hj.
  apply strcasecmp_zero in Ej. cbn [pattern] in *. by rewrite Ej in Hj.
Qed.

Lemma list_step_ok o con : lists_ok con → step_ok con (list_step o con).
Proof.
  intros Hok. pose proof Hok as [H1 H2 H3 H4 H5]. rewrite Forall_forall in H4. rewrite Forall_forall in H5.
  destruct o as [alloc value registrar|include registrar|alloc value data eval registrar|sw data registrar
                |alloc value registrar|ignorepat registrar]; cbn [list_step].
  - by apply add_include_ok.
  - unfold ast_context_remove_include2. edestruct (remove_first_total
      (λ i, if strcmp (inc_name i) include =? 0 then registrar_matches (inc_registrar i) registrar else Some false)
      (includes con)) as (r&->&Hr).
    { intros i Hi. destruct (_ =? _); [|done]. by apply registrar_matches_total, H4. }
    cbn [mbind option_bind]. destruct r as [l|]; [|by apply step_same]. specialize (Hr l eq_refl).
    eexists _, _. split; [done|]. split; [|done]. split; try done; cbn [includes set_includes];
      [by eapply NoDup_sublist_fmap|eapply Forall_sublist; [exact Hr|by apply Forall_forall]|by apply Forall_forall].
  - by apply add_switch_ok.
  - unfold ast_context_remove_switch2. edestruct (remove_first_total
      (λ i, if (strcmp (sw_name i) sw =? 0) && (strcmp (sw_data i) data =? 0)
            then registrar_matches (sw_registrar i) registrar else Some false) (alts con)) as (r&->&Hr).
    { intros i Hi. destruct (_ && _); [|done]. by apply registrar_matches_total, H5. }
    cbn [mbind option_bind]. destruct r as [l|]; [|by apply step_same]. specialize (Hr l eq_refl).
    eexists _, _. split; [done|]. split; [|done]. split; try done; cbn [alts set_alts];
      [by eapply NoDup_sublist_fmap|by apply Forall_forall|eapply Forall_sublist; [exact Hr|by apply Forall_forall]].
  - by apply add_ignorepat_ok.
  - unfold ast_context_remove_ignorepat2. edestruct (remove_first_total
      (λ ip, Some ((strcmp (pattern ip) ignorepat =? 0)
                   && (bool_decide (registrar = None) || bool_decide (registrar = ip_registrar ip))))
      (ignorepats con)) as (r&->&Hr); [done|].
    cbn [mbind option_bind]. destruct r as [l|]; [|by apply step_same]. specialize (Hr l eq_refl).
    eexists _, _. split; [done|]. split; [|done]. split; try done; cbn [ignorepats set_ignorepats];
      [by eapply NoDup_sublist_fmap|by apply Forall_forall..].
Qed.

End Lists.

(** ** Theorems *)
Module Properties.

Import CString.Compare Pattern.Spec Lists.

(** C39: whatever is added to and removed from the includes, switches and
    ignored patterns of a context, in any order and when memory runs out, every
    call returns, no vector ever holds two entries that are equal up to case,
    and the extensions of the context stay as they are. *)
Theorem context_lists_distinct ops con : lists_ok con →
  ∃ rs con', list_run ops con = Some (rs, con') ∧ lists_ok con' ∧ same_extensions con con'.
Proof.
  revert con. induction ops as [|o ops IH]; intros con Hok; cbn [list_run]; [by exists [], con|].
  destruct (list_step_ok o con Hok) as (z&con1&->&Hok1&Hs1). cbn [mbind option_bind].
  destruct (IH con1 Hok1) as (rs&con'&->&Hok'&Hs'). cbn [mbind option_bind]. eexists _, con'.
  split_and!; [done|done|]. destruct Hs1 as (?&?&?&?), Hs' as (?&?&?&?). split_and!; congruence.
Qed.

Lemma context_lists_distinct_witness :
  ∃ rs con', list_run [AddInclude (true, true) (cstr "office|9:00-17:00") (cstr "pbx_config");
                       AddInclude (true, true) (cstr "Office|9:00-17:00") (cstr "pbx_config");
                       AddIgnorepat (true, false) (cstr "9") None;
                       RemoveInclude (cstr "office|9:00-17:00") None] Examples.con0 = Some (rs, con')
    ∧ lists_ok con' ∧ same_extensions Examples.con0 con'.
Proof. apply context_lists_distinct. split; constructor. Defined.

(** Taking out what was just added gives the context back: after a
    successful addition of an include, a switch or an ignored pattern, removing
    it under the same name and registrar succeeds and restores the context. *)
Theorem added_entry_removed con con' value data eval registrar ip_registrar :
  (ast_context_add_include2 (true, true) con value registrar = Some (0, con') →
     ast_context_remove_include2 con' value registrar = Some (0, con))
  ∧ (ast_context_add_switch2 (true, true) con value data eval registrar = (0, con') →
     ast_context_remove_switch2 con' value (default [] data) registrar = Some (0, con))
  ∧ (ast_context_add_ignorepat2 (true, true) con value ip_registrar = (0, con') →
     ast_context_remove_ignorepat2 con' value ip_registrar = Some (0, con)).
Proof.
  assert (registrar_matches registrar registrar = Some true) as Hreg.
  { destruct registrar as [r|]; [|done]. simpl. by rewrite strcmp_refl. }
  assert (∀ a b, (strcasecmp a b =? 0) = false → (strcmp a b =? 0) = false) as Hcase.
  { intros a b. destruct (Z.eqb_spec (strcmp a b) 0) as [E|]; [|done]. apply strcmp_strcasecmp in E. by rewrite E. }
  split_and!.
  - unfold ast_context_add_include2, ast_context_remove_include2. cbn [fst].
    destruct (include_alloc_total true value registrar) as (i&->&Hi). cbn [mbind option_bind fst snd negb].
    destruct i as [i|]; [|done]. destruct (Hi i eq_refl) as [En Er].
    destruct (existsb _ _) eqn:E; [done|]. intros [= <-]. cbn [includes set_includes].
    rewrite remove_first_last; [by destruct con| |].
    + intros j Hj. apply (existsb_false _ _ E) in Hj. rewrite En in Hj. by rewrite (Hcase _ _ Hj).
    + by rewrite En, strcmp_refl, Er.
  - unfold ast_context_add_switch2, ast_context_remove_switch2. cbn [sw_alloc fst snd negb].
    destruct (existsb _ _) eqn:E; [done|]. intros [= <-]. cbn [alts set_alts].
    rewrite remove_first_last; [by destruct con| |].
    + intros j Hj. apply (existsb_false _ _ E), andb_false_iff in Hj as [Hj|Hj]; apply Hcase in Hj; cbn [sw_name sw_data] in Hj;
        rewrite Hj; [done|by rewrite andb_false_r].
    + cbn [sw_name sw_data sw_registrar]. by rewrite !strcmp_refl.
  - unfold ast_context_add_ignorepat2, ast_context_remove_ignorepat2. cbn [ignorepat_alloc fst snd negb].
    destruct (existsb _ _) eqn:E; [done|]. intros [= <-]. cbn [ignorepats set_ignorepats].
    rewrite remove_first_last; [by destruct con| |].
    + intros j Hj. apply (existsb_false _ _ E) in Hj. by rewrite (Hcase _ _ Hj).
    + cbn [pattern Dialplan.Model.ip_registrar]. rewrite strcmp_refl, (bool_decide_true (ip_registrar = ip_registrar)) by done.
      by rewrite orb_true_r.
Qed.

Lemma added_entry_removed_witness :
  let r := ast_context_add_switch2 (true, true) Examples.con0 (cstr "Realtime") None false (Some (cstr "pbx_config")) in
  ast_context_remove_switch2 (r.2) (cstr "Realtime") [] (Some (cstr "pbx_config")) = Some (0, Examples.con0).
Proof.
  intros r.
  apply (added_entry_removed Examples.con0 (r.2) (cstr "Realtime") None false (Some (cstr "pbx_config")) None).
  reflexivity.
Defined.

(** [ast_ignore_pattern] says that the dial tone is kept exactly when the
    digits, less their dashes, are a string that an ignored pattern of the
    context stands for. *)
Theorem ast_ignore_pattern_correct d context con digits :
  find_context (contexts d) context = Some con → c_string digits → deref digits ≠ UNDERSCORE →
  Forall (λ ip, c_string (pattern ip) ∧ no_empty_set (pattern ip)) (ignorepats con) →
  ∃ r, ast_ignore_pattern d context digits = Some r
       ∧ (r ≠ 0 ↔ ∃ ip, ip ∈ ignorepats con ∧ stands_for (pattern ip) (undash digits)).
Proof.
  intros Hf Hd Hu Hip. unfold ast_ignore_pattern. rewrite Hf. clear Hf.
  induction Hip as [|ip ips [Hc Hn] Hips IH]; cbn [match_ignorepats].
  { exists 0. split; [done|]. split; [done|]. intros (ip&Hin&_). by apply not_elem_of_nil in Hin. }
  destruct (Pattern.Matching.extension_match_core_spec E_MATCH (pattern ip) digits) as (m&E&Hm);
    [by right; right|done..|].
  change (ast_extension_match (Some (pattern ip)) (Some digits))
    with (_extension_match_core (pattern ip) digits E_MATCH). rewrite E. cbn [mbind option_bind].
  assert (m ≠ 0 ↔ stands_for (pattern ip) (undash digits)) as Hm'.
  { rewrite Hm. split.
    - intros (s&(_&Hs&_)&Hst). by rewrite Hs, app_nil_r in Hst.
    - intros Hst. exists []. rewrite app_nil_r. split; [|done]. split_and!; [apply not_elem_of_nil|done..]. }
  setoid_rewrite elem_of_cons. destruct (Z.eqb_spec m 0) as [->|Hne]; cbn [negb].
  - destruct IH as (r&->&Hr). exists r. split; [done|]. rewrite Hr.
    split; [intros (i&?&?); eauto|]. intros (i&[->|?]&Hst); [|eauto]. by apply Hm' in Hst.
  - exists 1. split; [done|]. split; [|done]. intros _. exists ip. split; [by left|by apply Hm'].
Qed.

Lemma ast_ignore_pattern_correct_witness :
  let con := (ast_context_add_ignorepat2 (true, true) Examples.con0 (cstr "_9X.") None).2 in
  ∃ r, ast_ignore_pattern (Dialplan [con] None) (cstr "default") (cstr "912") = Some r
       ∧ (r ≠ 0 ↔ ∃ ip, ip ∈ ignorepats con ∧ stands_for (pattern ip) (undash (cstr "912"))).
Proof.
  intros con. apply (ast_ignore_pattern_correct (Dialplan [con] None) (cstr "default") con (cstr "912")).
  - reflexivity.
  - by repeat constructor.
  - done.
  - repeat constructor; try done. intros (a&b&E). vm_compute in E.
    repeat (destruct a as [|? a]; [by simplify_eq/=|simplify_eq/=]; try done).
Defined.

End Properties.
