(* ===== verification/Taskproc.v ===== *)
(** * Task processors ([main/taskprocessor.c], [main/sem.c])

    A task processor is a queue of tasks that one thread executes in the order
    they were pushed.  Processors are singletons by name; the queue raises an
    alert between two water marks, and the alerts are counted for the whole
    system and for each subsystem.

    - [Model]: the functions of the source.  A function that releases the lock of
      the processor in its middle is one definition for each critical section.
      Allocation results and the clock are arguments; [long] is a plain integer.
    - [Alerts]: what the alert counters count.
    - [Levels]: the alert of one queue, its water marks and its size.

    The threads, and the life of a processor, are in TaskprocRuns.v. *)

From stdpp Require Import base numbers list sets strings.
From Stdlib Require Import ZArith Lia.
From S2P Require Import Prelude Timeval Pattern CString.
Import Pattern.Model CString.Model CString.Compare.

Module Model.

(** *** Tasks *)

(** The function a task calls: one of a user, or the one that ends the thread. *)
Inductive task_exe := user_fn (f : Z) | default_listener_die.

Record tps_task := Task {
  execute : task_exe;
  datap : Z;
  wants_local : bool;
  file : option cstring;
  line : Z;
  function : option cstring }.

Definition tps_task_alloc (alloc : bool) (exe : option task_exe) (data : Z) (file : option cstring) (line : Z)
    (function : option cstring) : option tps_task :=
  match exe with
  | None => None
  | Some exe => if negb alloc then None else Some (Task exe data false file line function)
  end.

Definition tps_task_alloc_local (alloc : bool) (exe : option task_exe) (data : Z) (file : option cstring) (line : Z)
    (function : option cstring) : option tps_task :=
  match exe with
  | None => None
  | Some exe => if negb alloc then None else Some (Task exe data true file line function)
  end.

(** *** Semaphores *)

Definition AST_SEM_VALUE_MAX : Z := 2147483647.

(** The result and the count. *)
Definition ast_sem_post (count : Z) : Z * Z :=
  if count =? AST_SEM_VALUE_MAX then (-1, count) else (0, count + 1).

(** [None] while the caller waits. *)
Definition ast_sem_wait (count : Z) : option Z :=
  if count =? 0 then None else Some (count - 1).

(** *** The processor *)

Record tps_taskprocessor_stats := Stats {
  max_qsize : Z;
  _tasks_processed_count : Z;
  highest_time_processed : Z;
  lowest_time_processed : Z;
  highest_time_task_file : option cstring;
  highest_time_task_line : Z;
  highest_time_task_function : option cstring }.

Record ast_taskprocessor := Tps {
  stats : tps_taskprocessor_stats;
  local_data : Z;
  tps_queue_size : Z;
  tps_queue_low : Z;
  tps_queue_high : Z;
  tps_queue : list tps_task;
  thread : option Z;
  executing : bool;
  high_water_warned : bool;
  high_water_alert : bool;
  suspended : bool;
  subsystem : cstring;
  name : cstring }.

Definition set_queue q n p := Tps (stats p) (local_data p) n (tps_queue_low p) (tps_queue_high p) q (thread p)
  (executing p) (high_water_warned p) (high_water_alert p) (suspended p) (subsystem p) (name p).
Definition set_alert warned alert p := Tps (stats p) (local_data p) (tps_queue_size p) (tps_queue_low p) (tps_queue_high p)
  (tps_queue p) (thread p) (executing p) warned alert (suspended p) (subsystem p) (name p).
Definition set_levels low high p := Tps (stats p) (local_data p) (tps_queue_size p) low high (tps_queue p) (thread p)
  (executing p) (high_water_warned p) (high_water_alert p) (suspended p) (subsystem p) (name p).
Definition set_executing t e p := Tps (stats p) (local_data p) (tps_queue_size p) (tps_queue_low p) (tps_queue_high p)
  (tps_queue p) t e (high_water_warned p) (high_water_alert p) (suspended p) (subsystem p) (name p).
Definition set_suspended s p := Tps (stats p) (local_data p) (tps_queue_size p) (tps_queue_low p) (tps_queue_high p)
  (tps_queue p) (thread p) (executing p) (high_water_warned p) (high_water_alert p) s (subsystem p) (name p).
Definition set_stats s p := Tps s (local_data p) (tps_queue_size p) (tps_queue_low p) (tps_queue_high p)
  (tps_queue p) (thread p) (executing p) (high_water_warned p) (high_water_alert p) (suspended p) (subsystem p) (name p).

Definition zero_stats : tps_taskprocessor_stats := Stats 0 0 0 0 None 0 None.

(** *** Alerts *)

Record subsystem_alert := SubsystemAlert { alert_count : Z; alert_subsystem : cstring }.

(** [tps_alert_count] and [overloaded_subsystems]. *)
Record alerts := Alerts { tps_alert_count : Z; overloaded_subsystems : list subsystem_alert }.

Definition subsystem_match (alert : subsystem_alert) (s : cstring) : bool := strcmp (alert_subsystem alert) s =? 0.

(** [AST_VECTOR_GET_INDEX]; [None] is -1. *)
Fixpoint vector_index (v : list subsystem_alert) (s : cstring) : option nat :=
  match v with
  | [] => None
  | a :: v => if subsystem_match a s then Some O else S <$> vector_index v s
  end.

(** [AST_VECTOR_REMOVE(vec, idx, 0)] *)
Definition vector_remove (v : list subsystem_alert) (idx : nat) : list subsystem_alert :=
  match last v with
  | Some x => take (length v - 1) (<[idx := x]> v)
  | None => []
  end.

(** [AST_VECTOR_GET] at an index found before. *)
Definition vector_find (v : list subsystem_alert) (s : cstring) : option (nat * subsystem_alert) :=
  i ← vector_index v s; a ← v !! i; Some (i, a).

Definition ast_taskprocessor_get_subsystem_alert (al : alerts) (s : cstring) : Z :=
  match vector_find (overloaded_subsystems al) s with
  | Some (_, alert) => alert_count alert
  | None => 0
  end.

Definition ast_strlen_zero (s : cstring) : bool := u8 (deref s) =? 0.

(** [alloc]: whether the element can be allocated, and the vector grown. *)
Definition subsystem_alert_increment (alloc : bool * bool) (s : cstring) (v : list subsystem_alert) : list subsystem_alert :=
  if ast_strlen_zero s then v else
  match vector_find v s with
  | Some (idx, alert) => <[idx := SubsystemAlert (u32 (alert_count alert + 1)) (alert_subsystem alert)]> v
  | None => if alloc.1 && alloc.2 then v ++ [SubsystemAlert 1 s] else v
  end.

Definition subsystem_alert_decrement (s : cstring) (v : list subsystem_alert) : list subsystem_alert :=
  if ast_strlen_zero s then v else
  match vector_find v s with
  | None => v
  | Some (idx, alert) =>
      let count := u32 (alert_count alert - 1) in
      let v := <[idx := SubsystemAlert count (alert_subsystem alert)]> v in
      if count <=? 0 then vector_remove v idx else v
  end.

Definition tps_alert_add (alloc : bool * bool) (p : ast_taskprocessor) (delta : Z) (al : alerts) : alerts :=
  Alerts (u32 (tps_alert_count al + delta))
    (if negb (u8 (deref (subsystem p)) =? 0) then
       if delta >? 0 then subsystem_alert_increment alloc (subsystem p) (overloaded_subsystems al)
       else subsystem_alert_decrement (subsystem p) (overloaded_subsystems al)
     else overloaded_subsystems al).

Definition ast_taskprocessor_alert_get (al : alerts) : Z := tps_alert_count al.

(** The result, the processor and the alerts. *)
Definition ast_taskprocessor_alert_set_levels (alloc : bool * bool) (p : option ast_taskprocessor)
    (low_water high_water : Z) (al : alerts) : Z * option ast_taskprocessor * alerts :=
  match p with
  | None => (-1, None, al)
  | Some p =>
      if (high_water <? 0) || (high_water <? low_water) then (-1, Some p, al) else
      let low_water := if low_water <? 0 then Z.quot (high_water * 9) 10 else low_water in
      let p := set_levels low_water high_water p in
      if high_water_alert p then
        if (tps_queue_size p =? 0) || (tps_queue_size p <? low_water)
        then (0, Some (set_alert (high_water_warned p) false p), tps_alert_add alloc p (-1) al)
        else (0, Some p, al)
      else
        if high_water <? tps_queue_size p
        then (0, Some (set_alert (high_water_warned p) true p), tps_alert_add alloc p 1 al)
        else (0, Some p, al)
  end.

(** *** The queue *)

(** The tasks that are freed, the processor and the alerts. *)
Definition tps_taskprocessor_dtor (p : ast_taskprocessor) (al : alerts) : list tps_task * ast_taskprocessor * alerts :=
  let freed := tps_queue p in
  let p := set_queue [] 0 p in
  if high_water_alert p then (freed, set_alert (high_water_warned p) false p, tps_alert_add (true, true) p (-1) al)
  else (freed, p, al).

Definition tps_taskprocessor_pop (p : ast_taskprocessor) (al : alerts) : option tps_task * ast_taskprocessor * alerts :=
  match tps_queue p with
  | [] => (None, p, al)
  | task :: rest =>
      let p := set_queue rest (tps_queue_size p - 1) p in
      if high_water_alert p && (tps_queue_size p <=? tps_queue_low p)
      then (Some task, set_alert (high_water_warned p) false p, tps_alert_add (true, true) p (-1) al)
      else (Some task, p, al)
  end.

Definition ast_taskprocessor_size (p : option ast_taskprocessor) : Z :=
  match p with Some p => tps_queue_size p | None => -1 end.

(** Up to the call of [task_pushed]: the value of [was_empty] it gets, the
    processor and the alerts.  [None] is the result -1. *)
Definition taskprocessor_push (alloc : bool * bool) (p : option ast_taskprocessor) (t : option tps_task) (al : alerts)
    : option (bool * ast_taskprocessor * alerts) :=
  match p, t with
  | None, _ => None
  | _, None => None
  | Some p, Some t =>
      let previous_size := s32 (tps_queue_size p) in
      let p := set_queue (tps_queue p ++ [t]) (tps_queue_size p + 1) p in
      let was_empty := if executing p then false else previous_size =? 0 in
      if (tps_queue_high p <=? tps_queue_size p) && negb (high_water_alert p)
      then Some (was_empty, set_alert true true p, tps_alert_add alloc p 1 al)
      else Some (was_empty, p, al)
  end.

(** [alloc]: of the task, of an alert. *)
Definition __ast_taskprocessor_push (talloc : bool) (alloc : bool * bool) (p : option ast_taskprocessor)
    (exe : option task_exe) (data : Z) (file : option cstring) (line : Z) (function : option cstring) (al : alerts)
    : option (bool * ast_taskprocessor * alerts) :=
  taskprocessor_push alloc p (tps_task_alloc talloc exe data file line function) al.

Definition __ast_taskprocessor_push_local (talloc : bool) (alloc : bool * bool) (p : option ast_taskprocessor)
    (exe : option task_exe) (data : Z) (file : option cstring) (line : Z) (function : option cstring) (al : alerts)
    : option (bool * ast_taskprocessor * alerts) :=
  taskprocessor_push alloc p (tps_task_alloc_local talloc exe data file line function) al.

(** The result and the processor. *)
Definition ast_taskprocessor_suspend (p : option ast_taskprocessor) : Z * option ast_taskprocessor :=
  match p with Some p => (0, Some (set_suspended true p)) | None => (-1, None) end.
Definition ast_taskprocessor_unsuspend (p : option ast_taskprocessor) : Z * option ast_taskprocessor :=
  match p with Some p => (0, Some (set_suspended false p)) | None => (-1, None) end.
Definition ast_taskprocessor_is_suspended (p : option ast_taskprocessor) : Z :=
  match p with Some p => b2z (suspended p) | None => -1 end.

Definition ast_taskprocessor_set_local (d : Z) (p : ast_taskprocessor) : ast_taskprocessor :=
  Tps (stats p) d (tps_queue_size p) (tps_queue_low p) (tps_queue_high p) (tps_queue p) (thread p)
    (executing p) (high_water_warned p) (high_water_alert p) (suspended p) (subsystem p) (name p).

Definition ast_taskprocessor_is_task (self : Z) (p : ast_taskprocessor) : bool :=
  bool_decide (thread p = Some self).

Definition tps_reset_stats (p : ast_taskprocessor) : ast_taskprocessor := set_stats zero_stats p.

(** *** Execution *)

(** The critical section before a task is called: the task taken from the
    queue, if there is one, and what it is called with. *)
Definition ast_taskprocessor_execute_begin (self : Z) (p : ast_taskprocessor) (al : alerts)
    : option (tps_task * option Z) * ast_taskprocessor * alerts :=
  let '(t, p, al) := tps_taskprocessor_pop p al in
  match t with
  | None => (None, p, al)
  | Some t => (Some (t, if wants_local t then Some (local_data p) else None), set_executing (Some self) true p, al)
  end.

(** The critical section after it: the result and the processor. *)
Definition ast_taskprocessor_execute_end (t : tps_task) (start now : timeval) (p : ast_taskprocessor)
    : bool * ast_taskprocessor :=
  let p := set_executing None false p in
  let size := ast_taskprocessor_size (Some p) in
  let s := stats p in
  let max := if size >=? max_qsize s then size + 1 else max_qsize s in
  let elapsed := ast_tvdiff_us now start in
  let lowest := if elapsed <? lowest_time_processed s then elapsed else lowest_time_processed s in
  let s := if elapsed >? highest_time_processed s
           then Stats max (_tasks_processed_count s + 1) elapsed lowest (file t) (line t) (function t)
           else Stats max (_tasks_processed_count s + 1) (highest_time_processed s) lowest
                  (highest_time_task_file s) (highest_time_task_line s) (highest_time_task_function s) in
  (size >? 0, set_stats s p).

(** *** Creation *)

Definition AST_TASKPROCESSOR_HIGH_WATER_LEVEL : Z := 500.

(** The fields, when memory can be obtained. *)
Definition __allocate_taskprocessor (n : cstring) : ast_taskprocessor :=
  let sub := match strchr n SLASH with Some (before, _) => before | None => [] end in
  Tps zero_stats 0 0 (Z.quot (AST_TASKPROCESSOR_HIGH_WATER_LEVEL * 9) 10) AST_TASKPROCESSOR_HIGH_WATER_LEVEL []
    None false false false false sub n.

End Model.

Import Model.

Module Alerts.

(** The count of a subsystem, over all elements of the vector. *)
Definition total (s : cstring) (v : list subsystem_alert) : Z :=
  foldr Z.add 0 ((λ a, if subsystem_match a s then alert_count a else 0) <$> v).

Lemma total_app s v w : total s (v ++ w) = total s v + total s w.
Proof. induction v as [|a v IH]; [done|]. unfold total in *. csimpl. rewrite IH. lia. Qed.

Lemma total_cons s a v : total s (a :: v) = (if subsystem_match a s then alert_count a else 0) + total s v.
Proof. done. Qed.

#[export] Instance total_perm s : Proper ((≡ₚ) ==> eq) (total s).
Proof. induction 1; rewrite ?total_cons; lia. Qed.

(** A subsystem has one element, and its count is positive. *)
Definition vector_ok (v : list subsystem_alert) : Prop :=
  NoDup ((bytes ∘ alert_subsystem) <$> v) ∧ Forall (λ a, 1 <= alert_count a < 2 ^ 32) v.

#[export] Instance vector_ok_perm : Proper ((≡ₚ) ==> iff) vector_ok.
Proof. intros v w E. unfold vector_ok. by rewrite E. Qed.

Lemma subsystem_match_bytes a s : subsystem_match a s = bool_decide (bytes (alert_subsystem a) = bytes s).
Proof.
  unfold subsystem_match. apply eq_bool_prop_intro. rewrite bool_decide_spec.
  rewrite <-strcmp_zero. destruct (Z.eqb_spec (strcmp (alert_subsystem a) s) 0); naive_solver.
Qed.

Lemma strlen_zero_bytes s : ast_strlen_zero s = bool_decide (bytes s = []).
Proof. destruct s as [|c s]; [done|]. unfold ast_strlen_zero, deref. simpl. by destruct (Z.eqb_spec (u8 c) 0). Qed.

Lemma vector_find_Some v s i a :
  vector_find v s = Some (i, a) →
  ∃ l1 l2, v = l1 ++ a :: l2 ∧ length l1 = i ∧ subsystem_match a s = true
    ∧ Forall (λ b, subsystem_match b s = false) l1.
Proof.
  revert i. induction v as [|b v IH]; intros i E; [done|]. unfold vector_find in E. cbn [vector_index] in E.
  destruct (subsystem_match b s) eqn:Em.
  - simplify_option_eq. by exists [], v.
  - unfold vector_find in IH. destruct (vector_index v s) as [j|]; [|done]. simplify_option_eq.
    destruct (IH j) as (l1&l2&->&<-&Ha&Hl); [done|]. exists (b :: l1), l2. split_and!; [done..|by constructor].
Qed.

Lemma vector_find_None v s : vector_find v s = None → Forall (λ b, subsystem_match b s = false) v.
Proof.
  intros E. induction v as [|b v IH]; [done|]. unfold vector_find in *. cbn [vector_index] in E.
  destruct (subsystem_match b s) eqn:Em; [done|]. constructor; [done|]. apply IH.
  destruct (vector_index v s) as [j|]; [|done]. simplify_option_eq. done.
Qed.

Lemma total_none s v : Forall (λ b, subsystem_match b s = false) v → total s v = 0.
Proof. induction 1 as [|a v Ha Hv IH]; [done|]. by rewrite total_cons, Ha, IH. Qed.

(** With one element for a subsystem the others do not count. *)
Lemma total_single s l1 a l2 :
  vector_ok (l1 ++ a :: l2) → subsystem_match a s = true → total s (l1 ++ l2) = 0.
Proof.
  intros [Hnd _] Ha. apply total_none. rewrite subsystem_match_bytes, bool_decide_eq_true in Ha.
  rewrite <-Permutation_middle in Hnd. csimpl in Hnd. apply NoDup_cons in Hnd as [Hn _].
  apply Forall_forall. intros b Hb. rewrite subsystem_match_bytes, bool_decide_eq_false. intros E.
  apply Hn, list_elem_of_fmap. exists b. split; [|done]. simpl. congruence.
Qed.

Lemma get_total n v s : vector_ok v → ast_taskprocessor_get_subsystem_alert (Alerts n v) s = total s v.
Proof.
  intros Hok. unfold ast_taskprocessor_get_subsystem_alert. cbn [overloaded_subsystems].
  destruct (vector_find v s) as [[i a]|] eqn:E; [|by rewrite total_none by by apply vector_find_None].
  apply vector_find_Some in E as (l1&l2&->&_&Ha&_). pose proof (total_single s l1 a l2 Hok Ha) as H0.
  rewrite total_app in *. rewrite total_cons, Ha. lia.
Qed.

Lemma total_bound v s : vector_ok v → 0 <= total s v.
Proof.
  intros [_ H]. induction H as [|a v Ha Hv IH]; [done|]. rewrite total_cons. case_match; lia.
Qed.

(** Replacing an element by one for the same subsystem. *)
Lemma vector_ok_count l1 a l2 n :
  vector_ok (l1 ++ a :: l2) → 1 <= n < 2 ^ 32 → vector_ok (l1 ++ SubsystemAlert n (alert_subsystem a) :: l2).
Proof.
  intros [Hnd Hc] Hn. split.
  - rewrite fmap_app, fmap_cons in *. exact Hnd.
  - apply Forall_app in Hc as [? Hc]. inversion_clear Hc. apply Forall_app. split; [done|]. by constructor.
Qed.

Lemma vector_remove_perm l1 a l2 : vector_remove (l1 ++ a :: l2) (length l1) ≡ₚ l1 ++ l2.
Proof.
  unfold vector_remove. induction l2 as [|x l2 _] using rev_ind.
  - rewrite last_snoc, length_app, app_nil_r. simpl.
    replace (length l1 + 1 - 1)%nat with (length l1) by lia. rewrite insert_app_r_alt by lia.
    by rewrite take_app_length.
  - rewrite app_comm_cons, app_assoc, last_snoc, !length_app. simpl.
    replace (length l1 + S (length l2) + 1 - 1)%nat with (length (l1 ++ a :: l2))%nat
      by (rewrite length_app; simpl; lia).
    rewrite <-(app_assoc l1), insert_app_r_alt by lia. replace (length l1 - length l1)%nat with O by lia. simpl.
    replace (length (l1 ++ a :: l2)) with (length (l1 ++ x :: l2)) by (rewrite !length_app; done).
    rewrite app_comm_cons, app_assoc, take_app_length. rewrite Permutation_cons_append. done.
Qed.

Definition same (s s' : cstring) : bool := bool_decide (bytes s = bytes s').

Lemma match_same a s s' : subsystem_match a s = true → subsystem_match a s' = same s s'.
Proof. rewrite !subsystem_match_bytes. unfold same. rewrite bool_decide_eq_true. by intros ->. Qed.

Lemma increment_total s v :
  vector_ok v → bytes s ≠ [] → total s v < 2 ^ 32 - 1 →
  vector_ok (subsystem_alert_increment (true, true) s v)
  ∧ ∀ s', total s' (subsystem_alert_increment (true, true) s v) = total s' v + b2z (same s s').
Proof.
  intros Hok Hs Hb. unfold subsystem_alert_increment. rewrite strlen_zero_bytes, bool_decide_eq_false_2 by done.
  destruct (vector_find v s) as [[i a]|] eqn:E; simpl.
  - apply vector_find_Some in E as (l1&l2&->&<-&Ha&_). pose proof (total_single s l1 a l2 Hok Ha) as H0.
    assert (1 <= alert_count a < 2 ^ 32) as Hc
      by (destruct Hok as [_ Hc]; apply Forall_app in Hc as [_ Hc]; by inversion_clear Hc).
    rewrite total_app, total_cons, Ha in Hb. rewrite total_app in H0.
    rewrite insert_app_r_alt by lia. replace (length l1 - length l1)%nat with O by lia. cbn [insert list_insert].
    rewrite uwrap_small by lia. split; [apply vector_ok_count; [done|lia]|]. intros s'.
    rewrite !total_app, !total_cons. change (subsystem_match (SubsystemAlert (alert_count a + 1) (alert_subsystem a)) s')
      with (subsystem_match a s'). rewrite (match_same a s s' Ha). cbn [alert_count]. destruct (same s s'); simpl; lia.
  - apply vector_find_None in E. split.
    + destruct Hok as [Hnd Hc]. split; [|apply Forall_app; split; [done|]; by repeat constructor].
      rewrite fmap_app. apply NoDup_app. split_and!; [done| |apply NoDup_singleton].
      intros x Hx Hy. apply list_elem_of_singleton in Hy as ->. apply list_elem_of_fmap in Hx as (b&Hb'&Hin).
      eapply Forall_forall in E; [|done]. rewrite subsystem_match_bytes, bool_decide_eq_false in E. by apply E.
    + intros s'. rewrite total_app. unfold total at 2. simpl. rewrite subsystem_match_bytes. simpl. fold (same s s').
      destruct (same s s'); simpl; lia.
Qed.

Lemma decrement_total s v :
  vector_ok v → bytes s ≠ [] → 1 <= total s v →
  vector_ok (subsystem_alert_decrement s v)
  ∧ ∀ s', total s' (subsystem_alert_decrement s v) = total s' v - b2z (same s s').
Proof.
  intros Hok Hs Hb. unfold subsystem_alert_decrement. rewrite strlen_zero_bytes, bool_decide_eq_false_2 by done.
  destruct (vector_find v s) as [[i a]|] eqn:E; [|apply vector_find_None, total_none in E; lia].
  apply vector_find_Some in E as (l1&l2&->&<-&Ha&_).
  assert (1 <= alert_count a < 2 ^ 32) as Hc
    by (destruct Hok as [_ Hc]; apply Forall_app in Hc as [_ Hc]; by inversion_clear Hc).
  rewrite insert_app_r_alt by lia. replace (length l1 - length l1)%nat with O by lia. cbn [insert list_insert].
  rewrite uwrap_small by lia. destruct (Z.leb_spec (alert_count a - 1) 0).
  - rewrite vector_remove_perm. split.
    + destruct Hok as [Hnd Hf]. rewrite <-Permutation_middle in Hnd. rewrite <-Permutation_middle in Hf. csimpl in Hnd.
      apply NoDup_cons in Hnd as [_ ?]. by inversion_clear Hf.
    + intros s'. rewrite vector_remove_perm, !total_app, total_cons, (match_same a s s' Ha).
      destruct (same s s'); simpl; lia.
  - split; [apply vector_ok_count; [done|lia]|]. intros s'.
    rewrite !total_app, !total_cons. change (subsystem_match (SubsystemAlert (alert_count a - 1) (alert_subsystem a)) s')
      with (subsystem_match a s'). rewrite (match_same a s s' Ha). cbn [alert_count]. destruct (same s s'); simpl; lia.
Qed.

End Alerts.

Module Levels.
Import Alerts.

(** *** How an operation changes the alert *)

(** The alert of a processor changes together with the counters; [ok] is false
    when the memory for a counter may be missing. *)
Inductive alert_change (ok : bool) (p p' : ast_taskprocessor) (al : alerts) : alerts → Prop :=
| alert_same : high_water_alert p' = high_water_alert p → alert_change ok p p' al al
| alert_set alloc q :
    high_water_alert p = false → high_water_alert p' = true → subsystem q = subsystem p →
    (ok = true → alloc = (true, true)) →
    alert_change ok p p' al (tps_alert_add alloc q 1 al)
| alert_cleared alloc q :
    high_water_alert p = true → high_water_alert p' = false → subsystem q = subsystem p →
    alert_change ok p p' al (tps_alert_add alloc q (-1) al).

Lemma alert_change_eq ok p p' p'' al al' :
  alert_change ok p p' al al' → high_water_alert p'' = high_water_alert p' → alert_change ok p p'' al al'.
Proof. intros [?|alloc q ????|alloc q ???] E; [constructor|eapply alert_set|eapply alert_cleared]; congruence || done. Qed.

(** What no operation changes. *)
Definition fixed (p p' : ast_taskprocessor) : Prop := subsystem p' = subsystem p ∧ name p' = name p.

(** *** The alert of one queue *)

(** The size is that of the queue; a queue without an alert does not exceed the
    high water mark, and one with an alert is not below the low one. *)
Definition level_ok (p : ast_taskprocessor) : Prop :=
  tps_queue_size p = Z.of_nat (length (tps_queue p))
  ∧ tps_queue_low p <= tps_queue_high p ∧ 0 <= tps_queue_low p
  ∧ (if high_water_alert p then tps_queue_low p <= tps_queue_size p else tps_queue_size p <= tps_queue_high p).

Ltac tps_fields :=
  cbn [set_queue set_alert set_levels set_executing set_suspended set_stats stats local_data tps_queue_size
       tps_queue_low tps_queue_high tps_queue thread executing high_water_warned high_water_alert suspended
       subsystem name] in *.

Lemma allocate_level n : level_ok (__allocate_taskprocessor n) ∧ high_water_alert (__allocate_taskprocessor n) = false.
Proof. by split. Qed.

Lemma push_level alloc p t al :
  level_ok p →
  ∃ was_empty p' al', taskprocessor_push alloc (Some p) (Some t) al = Some (was_empty, p', al')
    ∧ level_ok p' ∧ tps_queue p' = tps_queue p ++ [t] ∧ fixed p p' ∧ executing p' = executing p
    ∧ thread p' = thread p
    ∧ alert_change (alloc.1 && alloc.2) p p' al al'
    ∧ was_empty = (if executing p then false else s32 (Z.of_nat (length (tps_queue p))) =? 0).
Proof.
  intros (Hs&Hl&H0&Ha). unfold taskprocessor_push. tps_fields. rewrite Hs.
  destruct (Z.leb_spec (tps_queue_high p) (Z.of_nat (length (tps_queue p)) + 1)),
    (high_water_alert p) eqn:Ea; cbn [andb negb]; eexists _, _, _; (split; [done|]);
    unfold level_ok, fixed; tps_fields; rewrite ?length_app, ?Ea; simpl; split_and!; try done; try lia;
    [by constructor| |by constructor|by constructor].
  apply alert_set; [done..|]. destruct alloc as [[] []]; done.
Qed.

Lemma pop_level p al :
  level_ok p →
  ∃ p' al', tps_taskprocessor_pop p al = (head (tps_queue p), p', al')
    ∧ level_ok p' ∧ tps_queue p' = tail (tps_queue p) ∧ fixed p p' ∧ executing p' = executing p
    ∧ thread p' = thread p ∧ local_data p' = local_data p ∧ alert_change true p p' al al'.
Proof.
  intros (Hs&Hl&H0&Ha). unfold tps_taskprocessor_pop. destruct (tps_queue p) as [|t q] eqn:Eq.
  - eexists _, _. split; [done|]. unfold level_ok, fixed. rewrite Eq. split_and!; try done. by constructor.
  - rewrite Hs. simpl length. tps_fields. destruct (high_water_alert p) eqn:Ea; cbn [andb].
    + destruct (Z.leb_spec (Z.of_nat (S (length q)) - 1) (tps_queue_low p)); eexists _, _; (split; [done|]);
        unfold level_ok, fixed; tps_fields; rewrite ?Ea; split_and!; try done; try lia; [|by constructor].
      by apply alert_cleared.
    + simpl length in Hs. eexists _, _; (split; [done|]). unfold level_ok, fixed; tps_fields; rewrite ?Ea.
      split_and!; try done; try lia. by constructor.
Qed.

Lemma set_levels_level alloc p low high al :
  level_ok p →
  ∃ r p' al', ast_taskprocessor_alert_set_levels alloc (Some p) low high al = (r, Some p', al')
    ∧ level_ok p' ∧ tps_queue p' = tps_queue p ∧ fixed p p' ∧ executing p' = executing p
    ∧ thread p' = thread p ∧ alert_change (alloc.1 && alloc.2) p p' al al'.
Proof.
  intros (Hs&Hl&H0&Ha). unfold ast_taskprocessor_alert_set_levels.
  destruct ((high <? 0) || (high <? low)) eqn:Eb.
  { eexists _, _, _. split; [done|]. unfold level_ok, fixed. split_and!; try done. by constructor. }
  apply orb_false_iff in Eb as [Hh Hlh]. apply Z.ltb_ge in Hh, Hlh.
  set (low' := if low <? 0 then Z.quot (high * 9) 10 else low).
  assert (0 <= low' <= high) as Hlow.
  { unfold low'. destruct (Z.ltb_spec low 0); [|lia]. rewrite Z.quot_div_nonneg by lia.
    split; [apply Z.div_pos; lia|]. apply Z.div_le_upper_bound; lia. }
  clearbody low'. tps_fields. destruct (high_water_alert p) eqn:Ea.
  - destruct ((tps_queue_size p =? 0) || (tps_queue_size p <? low')) eqn:Ez; eexists _, _, _; (split; [done|]);
      unfold level_ok, fixed; tps_fields; rewrite ?Ea.
    + split_and!; try done; try lia. by apply alert_cleared.
    + apply orb_false_iff in Ez. split_and!; try done; try lia. by constructor.
  - destruct (Z.ltb_spec high (tps_queue_size p)); eexists _, _, _; (split; [done|]);
      unfold level_ok, fixed; tps_fields; rewrite ?Ea; split_and!; try done; try lia; [|by constructor].
    apply alert_set; [done..|]. destruct alloc as [[] []]; done.
Qed.

Lemma dtor_level p al :
  level_ok p →
  ∃ p' al', tps_taskprocessor_dtor p al = (tps_queue p, p', al')
    ∧ level_ok p' ∧ tps_queue p' = [] ∧ fixed p p' ∧ high_water_alert p' = false
    ∧ executing p' = executing p ∧ thread p' = thread p ∧ alert_change true p p' al al'.
Proof.
  intros (Hs&Hl&H0&Ha). unfold tps_taskprocessor_dtor. tps_fields. destruct (high_water_alert p) eqn:Ea;
    eexists _, _; (split; [done|]); unfold level_ok, fixed; tps_fields; rewrite ?Ea; split_and!; try done; try lia;
    [by apply alert_cleared|by constructor].
Qed.

(** *** What the counters count *)

(** The processors with an alert, and those of them of a subsystem. *)
Definition alerted (ps : list ast_taskprocessor) : nat := length (filter (λ p, high_water_alert p = true) ps).
Definition alerted_in (s : cstring) (ps : list ast_taskprocessor) : nat :=
  length (filter (λ p, high_water_alert p = true ∧ bytes (subsystem p) = bytes s) ps).

Definition accounted (ps : list ast_taskprocessor) (al : alerts) : Prop :=
  tps_alert_count al = u32 (Z.of_nat (alerted ps))
  ∧ vector_ok (overloaded_subsystems al)
  ∧ ∀ s, bytes s ≠ [] → total s (overloaded_subsystems al) = Z.of_nat (alerted_in s ps).

Lemma filter_insert_length {A} (P : A → Prop) `{!∀ x, Decision (P x)} (l : list A) i x y :
  l !! i = Some x →
  (length (filter P (<[i := y]> l)) + (if decide (P x) then 1 else 0)
   = length (filter P l) + (if decide (P y) then 1 else 0))%nat.
Proof.
  intros Hi. rewrite insert_take_drop by by eapply lookup_lt_Some. rewrite <-(take_drop_middle l i x Hi) at 3.
  rewrite !filter_app, !length_app, !filter_cons. repeat case_decide; simpl; lia.
Qed.

(** The number of alerts of a subsystem after one processor has changed. *)
Lemma alerted_in_insert s ps i p p' :
  ps !! i = Some p → fixed p p' →
  Z.of_nat (alerted_in s (<[i := p']> ps)) = Z.of_nat (alerted_in s ps)
    + (b2z (high_water_alert p') - b2z (high_water_alert p)) * b2z (same (subsystem p) s).
Proof.
  intros Hi [Hsub _]. unfold alerted_in, same.
  pose proof (filter_insert_length (λ p, high_water_alert p = true ∧ bytes (subsystem p) = bytes s) ps i p p' Hi) as E.
  cbv beta in E. rewrite Hsub in E. destruct (high_water_alert p), (high_water_alert p');
    repeat (case_decide || case_bool_decide); simpl; naive_solver lia.
Qed.

Lemma alerted_insert ps i p p' :
  ps !! i = Some p →
  Z.of_nat (alerted (<[i := p']> ps)) = Z.of_nat (alerted ps) + (b2z (high_water_alert p') - b2z (high_water_alert p)).
Proof.
  intros Hi. unfold alerted. pose proof (filter_insert_length (λ p, high_water_alert p = true) ps i p p' Hi) as E.
  cbv beta in E. destruct (high_water_alert p), (high_water_alert p'); repeat case_decide; simpl in *; done || lia.
Qed.

Lemma alerted_le ps : (alerted ps <= length ps)%nat.
Proof. apply length_filter. Qed.

Lemma alerted_in_le s ps : (alerted_in s ps <= length ps)%nat.
Proof. apply length_filter. Qed.

(** The counters after one processor has changed. *)
Lemma accounted_change ps i p p' al al' :
  accounted ps al → ps !! i = Some p → fixed p p' → alert_change true p p' al al' → Z.of_nat (length ps) < 2 ^ 32 →
  accounted (<[i := p']> ps) al'.
Proof.
  intros (Hn&Hv&Ht) Hi Hf Hc Hlen. pose proof (alerted_insert ps i p p' Hi) as Ea.
  pose proof (λ s, alerted_in_insert s ps i p p' Hi Hf) as Es.
  destruct Hc as [E|alloc q E E' Eq Hal|alloc q E E' Eq]; rewrite E in Ea, Es;
    [|rewrite (Hal eq_refl); clear alloc Hal|]; try rewrite E' in Ea, Es;
    unfold accounted; rewrite Ea; unfold tps_alert_add; cbn [tps_alert_count overloaded_subsystems b2z] in *.
  - split_and!; [rewrite Hn; f_equal; lia|done|]. intros s Hs. rewrite Es, Ht by done. lia.
  - rewrite Eq, Hn. split; [unfold uwrap; rewrite Zplus_mod_idemp_l; f_equal; lia|].
    pose proof (strlen_zero_bytes (subsystem p)) as Ez. unfold ast_strlen_zero in Ez. rewrite Ez.
    case_bool_decide as Hb; simpl.
    + split; [done|]. intros s Hs. rewrite Es, Ht by done. unfold same. rewrite bool_decide_eq_false_2 by congruence.
      simpl. lia.
    + assert (total (subsystem p) (overloaded_subsystems al) < 2 ^ 32 - 1) as Hlt.
      { rewrite Ht by done. pose proof (Es (subsystem p)) as Ep. unfold same in Ep.
        rewrite bool_decide_eq_true_2 in Ep by done. simpl in Ep.
        pose proof (alerted_in_le (subsystem p) (<[i:=p']> ps)). rewrite length_insert in *. lia. }
      destruct (increment_total (subsystem p) (overloaded_subsystems al)) as [Hok Htot]; [done..|].
      split; [done|]. intros s Hs. rewrite Htot, Es, Ht by done. lia.
  - rewrite Eq, Hn. split; [unfold uwrap; rewrite Zplus_mod_idemp_l; f_equal; lia|].
    pose proof (strlen_zero_bytes (subsystem p)) as Ez. unfold ast_strlen_zero in Ez. rewrite Ez.
    case_bool_decide as Hb; simpl.
    + split; [done|]. intros s Hs. rewrite Es, Ht by done. unfold same. rewrite bool_decide_eq_false_2 by congruence.
      simpl. lia.
    + assert (1 <= total (subsystem p) (overloaded_subsystems al)) as Hlt.
      { rewrite Ht by done. pose proof (Es (subsystem p)) as Ep. unfold same in Ep.
        rewrite bool_decide_eq_true_2 in Ep by done. simpl in Ep. lia. }
      destruct (decrement_total (subsystem p) (overloaded_subsystems al)) as [Hok Htot]; [done..|].
      split; [done|]. intros s Hs. rewrite Htot, Es, Ht by done. lia.
Qed.

Lemma accounted_new ps p al : accounted ps al → high_water_alert p = false → accounted (ps ++ [p]) al.
Proof.
  intros (Hn&Hv&Ht) Hp. unfold accounted, alerted, alerted_in in *.
  rewrite filter_app, filter_cons_False by congruence. rewrite filter_nil, app_nil_r. split_and!; [done..|].
  intros s Hs. rewrite filter_app, filter_cons_False by naive_solver congruence. rewrite filter_nil, app_nil_r. auto.
Qed.

End Levels.
