(* ===== verification/TaskprocRuns.v ===== *)
(** * Task processors and their threads ([main/taskprocessor.c])

    A processor is used by threads that hold references to it, and served by one
    thread of its own, which waits on a semaphore that every push posts.  When
    the last user lets go of it, it leaves the container of processors, a task
    that ends its thread is queued, and the thread is joined.

    - [Model]: the functions of the source, one definition for what runs
      between two points where another thread can run; [proc_step] and [step] are
      the interleavings.  The container finds a processor by [tps_cmp_cb], and
      [ao2_ref] calls the destructor with the last reference.
    - [Invariant]: what holds in every interleaving.
    - [Progress]: runs without end, fairness, and what eventually happens.
    - [Properties]: the theorems. *)

From stdpp Require Import base numbers list sets strings.
From Stdlib Require Import ZArith Lia.
From S2P Require Import Prelude Timeval Pattern CString Taskproc.
Import Pattern.Model CString.Model CString.Compare Taskproc.Model Taskproc.Alerts Taskproc.Levels.

Module Model.

(** *** The state of a processor and of the threads that use it *)

Record default_taskprocessor_listener_pvt := Pvt { poll_thread : option Z; dead : bool; sem : Z }.

(** Where the thread of the processor is. *)
Inductive worker :=
| AtLoop | AtWait | AtExecute | Running (t : tps_task) (local : option Z) | AtEnd (t : tps_task) (start : timeval) | Exited.

(** Where the thread is that lets go of the last reference of a user. *)
Inductive shutdown := Open | Dying | Posting | Joining | Closed.

(** Besides the structures of the source: the references users hold, the
    threads between the lock and the post of a push, whether the destructor has
    run, and the tasks pushed, executed and freed without execution, in order.
    [aborted]: the task that ends the thread could not be queued. *)
Record proc := Proc {
  tps : ast_taskprocessor;
  pvt : default_taskprocessor_listener_pvt;
  refs : Z;
  linked : bool;
  worker_id : Z;
  pc : worker;
  users : nat;
  pushing : nat;
  closing : shutdown;
  freed : bool;
  aborted : bool;
  pushed : list tps_task;
  executed : list tps_task;
  dropped : list tps_task }.

Definition set_tps t p := Proc t (pvt p) (refs p) (linked p) (worker_id p) (pc p) (users p) (pushing p) (closing p)
  (freed p) (aborted p) (pushed p) (executed p) (dropped p).
Definition set_pvt v p := Proc (tps p) v (refs p) (linked p) (worker_id p) (pc p) (users p) (pushing p) (closing p)
  (freed p) (aborted p) (pushed p) (executed p) (dropped p).
Definition set_refs r p := Proc (tps p) (pvt p) r (linked p) (worker_id p) (pc p) (users p) (pushing p) (closing p)
  (freed p) (aborted p) (pushed p) (executed p) (dropped p).
Definition set_linked l p := Proc (tps p) (pvt p) (refs p) l (worker_id p) (pc p) (users p) (pushing p) (closing p)
  (freed p) (aborted p) (pushed p) (executed p) (dropped p).
Definition set_pc c p := Proc (tps p) (pvt p) (refs p) (linked p) (worker_id p) c (users p) (pushing p) (closing p)
  (freed p) (aborted p) (pushed p) (executed p) (dropped p).
Definition set_users u p := Proc (tps p) (pvt p) (refs p) (linked p) (worker_id p) (pc p) u (pushing p) (closing p)
  (freed p) (aborted p) (pushed p) (executed p) (dropped p).
Definition set_pushing n p := Proc (tps p) (pvt p) (refs p) (linked p) (worker_id p) (pc p) (users p) n (closing p)
  (freed p) (aborted p) (pushed p) (executed p) (dropped p).
Definition set_closing c p := Proc (tps p) (pvt p) (refs p) (linked p) (worker_id p) (pc p) (users p) (pushing p) c
  (freed p) (aborted p) (pushed p) (executed p) (dropped p).
Definition set_freed ts p := Proc (tps p) (pvt p) (refs p) (linked p) (worker_id p) (pc p) (users p) (pushing p) (closing p)
  true (aborted p) (pushed p) (executed p) ts.
Definition set_aborted p := Proc (tps p) (pvt p) (refs p) (linked p) (worker_id p) (pc p) (users p) (pushing p) (closing p)
  (freed p) true (pushed p) (executed p) (dropped p).
Definition add_pushed t p := Proc (tps p) (pvt p) (refs p) (linked p) (worker_id p) (pc p) (users p) (pushing p) (closing p)
  (freed p) (aborted p) (pushed p ++ [t]) (executed p) (dropped p).
Definition add_executed t p := Proc (tps p) (pvt p) (refs p) (linked p) (worker_id p) (pc p) (users p) (pushing p) (closing p)
  (freed p) (aborted p) (pushed p) (executed p ++ [t]) (dropped p).

(** [ao2_ref(tps, -1)] *)
Definition ao2_unref (p : proc) (al : alerts) : proc * alerts :=
  let p := set_refs (refs p - 1) p in
  if refs p =? 0 then
    let '(freed, t, al) := tps_taskprocessor_dtor (tps p) al in
    (set_freed freed (set_tps t p), al)
  else (p, al).

(** *** The default listener *)

Definition default_task_pushed (p : proc) : proc :=
  set_pvt (Pvt (poll_thread (pvt p)) (dead (pvt p)) (ast_sem_post (sem (pvt p))).2) p.

(** The call of the function [default_listener_die]. *)
Definition die (p : proc) : proc := set_pvt (Pvt (poll_thread (pvt p)) true (sem (pvt p))) p.

(** A push by a thread that holds a reference, up to the post. *)
Definition push (alloc : bool * bool) (t : option tps_task) (p : proc) (al : alerts) : option (proc * alerts) :=
  match taskprocessor_push alloc (Some (tps p)) t al, t with
  | Some (_, q, al), Some t => Some (add_pushed t (set_tps q p), al)
  | _, _ => None
  end.

(** Up to the post of the task that ends the thread. *)
Definition default_listener_shutdown (talloc : bool) (alloc : bool * bool) (p : proc) (al : alerts) : proc * alerts :=
  let p := set_refs (refs p + 1) p in
  match push alloc (tps_task_alloc talloc (Some default_listener_die) 0 None 0 None) p al with
  | Some (p, al) => (set_closing Posting p, al)
  | None => (set_closing Joining (die (set_aborted p)), al)
  end.

(** The rest, by the thread [self], and of [listener_shutdown].  [None] while
    the thread to be joined runs, and without a thread. *)
Definition default_listener_shutdown_join (self : Z) (p : proc) (al : alerts) : option (proc * alerts) :=
  poll ← poll_thread (pvt p);
  let joined := if self =? poll then match pc p with Running _ _ => true | _ => false end
                else match pc p with Exited => true | _ => false end in
  if negb joined then None else
  Some (ao2_unref (set_closing Closed (set_pvt (Pvt None (dead (pvt p)) (sem (pvt p))) p)) al).

(** Up to [listener_shutdown].  The listener still holds a reference, so that
    neither release is the last one. *)
Definition ast_taskprocessor_unreference (p : proc) : proc :=
  let old := refs p in
  let p := set_users (users p - 1) (set_refs (old - 1) p) in
  if old >? 3 then p
  else set_closing Dying (set_linked false (if linked p then set_refs (refs p - 1) p else p)).

(** *** The thread *)

Inductive wait_result := WaitOk | WaitEintr | WaitFailed.

Inductive worker_event :=
| WLoop | WWait (r : wait_result) | WBegin | WCall (start : timeval) | WEnd (now : timeval).

Definition worker_exit (p : proc) (al : alerts) : proc * alerts := ao2_unref (set_pc Exited p) al.

Definition default_tps_processing_function (e : worker_event) (p : proc) (al : alerts) : option (proc * alerts) :=
  match pc p, e with
  | AtLoop, WLoop => if dead (pvt p) then Some (worker_exit p al) else Some (set_pc AtWait p, al)
  | AtWait, WWait WaitOk =>
      count ← ast_sem_wait (sem (pvt p));
      Some (set_pc AtExecute (set_pvt (Pvt (poll_thread (pvt p)) (dead (pvt p)) count) p), al)
  | AtWait, WWait WaitEintr => Some (set_pc AtExecute p, al)
  | AtWait, WWait WaitFailed => Some (worker_exit p al)
  | AtExecute, WBegin =>
      match ast_taskprocessor_execute_begin (worker_id p) (tps p) al with
      | (None, t, al) => Some (set_pc AtLoop (set_tps t p), al)
      | (Some (task, local), t, al) => Some (set_pc (Running task local) (set_tps t p), al)
      end
  | Running t _, WCall start =>
      let p := match execute t with default_listener_die => die p | user_fn _ => p end in
      Some (set_pc (AtEnd t start) (add_executed t p), al)
  | AtEnd t start, WEnd now => Some (set_pc AtLoop (set_tps (ast_taskprocessor_execute_end t start now (tps p)).2 p), al)
  | _, _ => None
  end.

(** *** The interleavings *)

(** The steps other threads take with a processor. *)
Inductive proc_event :=
| EPush (talloc : bool) (alloc : bool * bool) (local : bool) (f : option Z) (data : Z)
    (file : option cstring) (line : Z) (function : option cstring)
| EPost
| ESetLevels (alloc : bool * bool) (low high : Z)
| ESuspend | EUnsuspend | ESetLocal (d : Z) | EResetStats
| EUnref
| EDie (talloc : bool) (alloc : bool * bool)
| EDiePost
| EJoin (self : Z)
| EWorker (e : worker_event).

(** The task of a push by a user. *)
Definition user_task (talloc local : bool) (f : option Z) (data : Z) (file : option cstring) (line : Z)
    (function : option cstring) : option tps_task :=
  (if local then tps_task_alloc_local else tps_task_alloc) talloc (user_fn <$> f) data file line function.

(** A thread calls an operation while it holds a reference of a user, and keeps
    the last reference until its pushes are done. *)
Definition proc_step (e : proc_event) (p : proc) (al : alerts) : option (proc * alerts) :=
  if freed p then None else
  match e with
  | EWorker e => default_tps_processing_function e p al
  | EDie talloc alloc =>
      match closing p with Dying => Some (default_listener_shutdown talloc alloc p al) | _ => None end
  | EDiePost =>
      match closing p with Posting => Some (set_closing Joining (default_task_pushed p), al) | _ => None end
  | EJoin self => match closing p with Joining => default_listener_shutdown_join self p al | _ => None end
  | EPost =>
      if bool_decide (pushing p = O) then None
      else Some (set_pushing (pushing p - 1) (default_task_pushed p), al)
  | e =>
      if bool_decide (users p = O) then None else
      match e with
      | EPush talloc alloc local f data file line function =>
          match push alloc (user_task talloc local f data file line function) p al with
          | Some (p, al) => Some (set_pushing (S (pushing p)) p, al)
          | None => Some (p, al)
          end
      | ESetLevels alloc low high =>
          match ast_taskprocessor_alert_set_levels alloc (Some (tps p)) low high al with
          | (_, Some t, al) => Some (set_tps t p, al)
          | _ => None
          end
      | ESuspend => t ← (ast_taskprocessor_suspend (Some (tps p))).2; Some (set_tps t p, al)
      | EUnsuspend => t ← (ast_taskprocessor_unsuspend (Some (tps p))).2; Some (set_tps t p, al)
      | ESetLocal d => Some (set_tps (ast_taskprocessor_set_local d (tps p)) p, al)
      | EResetStats => Some (set_tps (tps_reset_stats (tps p)) p, al)
      | EUnref =>
          if bool_decide (users p = 1%nat ∧ pushing p ≠ O) then None
          else Some (ast_taskprocessor_unreference p, al)
      | _ => None
      end
  end.

(** All processors, and the alert counters. *)
Record world := World { procs : list proc; counters : alerts }.

(** The results of the allocations, of [ast_sem_init], of linking the object
    and of [ast_pthread_create]. *)
Record get_outcome := Outcome {
  pvt_alloc : bool; sem_init : bool; listener_alloc : bool; tps_alloc : bool; link : bool; start : option Z }.

Definition tps_cmp_cb (n : cstring) (p : proc) : bool := strcasecmp (name (tps p)) n =? 0.

Definition TPS_REF_IF_EXISTS : Z := 1.

(** What [__allocate_taskprocessor] and [__start_taskprocessor] leave. *)
Definition new_proc (n : cstring) (tid : Z) : proc :=
  Proc (__allocate_taskprocessor n) (Pvt (Some tid) false 0) 3 true tid AtLoop 1 0 Open false false [] [] [].

(** The index of the processor, or NULL; [None] when the thread cannot be
    started: the shutdown that follows has no thread to join. *)
Definition ast_taskprocessor_get (n : cstring) (create : Z) (o : get_outcome) (w : world) : option (option nat * world) :=
  if ast_strlen_zero n then Some (None, w) else
  match list_find (λ p, linked p && tps_cmp_cb n p = true) (procs w) with
  | Some (i, p) =>
      Some (Some i, World (<[i := set_users (S (users p)) (set_refs (refs p + 1) p)]> (procs w)) (counters w))
  | None =>
      if negb (Z.land create TPS_REF_IF_EXISTS =? 0) then Some (None, w) else
      if negb (pvt_alloc o && sem_init o && listener_alloc o && tps_alloc o && link o) then Some (None, w) else
      tid ← start o;
      Some (Some (length (procs w)), World (procs w ++ [new_proc n tid]) (counters w))
  end.

Inductive event := Get (n : cstring) (create : Z) (o : get_outcome) | On (i : nat) (e : proc_event).

Definition step (e : event) (w : world) : option world :=
  match e with
  | Get n create o => snd <$> ast_taskprocessor_get n create o w
  | On i e =>
      p ← procs w !! i;
      '(p, al) ← proc_step e p (counters w);
      Some (World (<[i := p]> (procs w)) al)
  end.

Fixpoint run (es : list event) (w : world) : option world :=
  match es with
  | [] => Some w
  | e :: es => w ← step e w; run es w
  end.

Definition empty_world : world := World [] (Alerts 0 []).

End Model.

Import Model.

Module Invariant.

Definition is_user (t : tps_task) : Prop := execute t ≠ default_listener_die.

(** The task the thread is about to call. *)
Definition running (c : worker) : list tps_task := match c with Running t _ => [t] | _ => [] end.

Definition in_task (c : worker) : bool := match c with Running _ _ | AtEnd _ _ => true | _ => false end.
Definition exited (c : worker) : bool := match c with Exited => true | _ => false end.
Definition is_open (c : shutdown) : bool := match c with Open => true | _ => false end.
Definition is_closed (c : shutdown) : bool := match c with Closed => true | _ => false end.

(** The task that ends the thread has been queued, or the attempt has failed. *)
Definition told (c : shutdown) : bool := match c with Open | Dying => false | _ => true end.

(** The references: users, the container, the listener, the shutdown. *)
Definition references (p : proc) : Z :=
  Z.of_nat (users p) + b2z (linked p) + b2z (negb (is_closed (closing p)))
  + b2z (told (closing p) && negb (exited (pc p))).

(** The tasks queued so far, and whether the thread has been told to end. *)
Definition ending (p : proc) : Prop :=
  if told (closing p) && negb (aborted p) then
    ∃ us d, pushed p = us ++ [d] ∧ Forall is_user us ∧ execute d = default_listener_die
      ∧ (dead (pvt p) = true ↔ executed p = pushed p)
  else Forall is_user (pushed p) ∧ dead (pvt p) = aborted p ∧ (aborted p = true → told (closing p) = true).

(** All but the number of references. *)
Record proc_core (p : proc) : Prop := ProcCore {
  core_level : level_ok (tps p);
  core_executing : executing (tps p) = in_task (pc p);
  core_thread : thread (tps p) = if in_task (pc p) then Some (worker_id p) else None;
  core_fifo : pushed p = executed p ++ running (pc p) ++ tps_queue (tps p) ++ dropped p;
  core_users : if is_open (closing p) then linked p = true ∧ (1 <= users p)%nat
               else linked p = false ∧ users p = O ∧ pushing p = O;
  core_ending : ending p;
  core_exited : exited (pc p) = true → dead (pvt p) = true;
  core_sem : 0 <= sem (pvt p) <= AST_SEM_VALUE_MAX;
  core_poll : poll_thread (pvt p) = if is_closed (closing p) then None else Some (worker_id p) }.

Record proc_inv (p : proc) : Prop := ProcInv {
  inv_core : proc_core p;
  inv_refs : refs p = references p;
  inv_freed : freed p = (refs p =? 0);
  inv_dropped : freed p = false → dropped p = [] }.

Ltac fields :=
  cbn [set_tps set_pvt set_refs set_linked set_pc set_users set_pushing set_closing set_freed set_aborted
       add_pushed add_executed tps pvt refs linked worker_id pc users pushing closing freed aborted pushed executed
       dropped poll_thread dead sem running in_task exited is_open is_closed told references b2z negb andb
       default_task_pushed die] in *.

(** How a step changes what the other processors and the users see. *)
Record changes (ok : bool) (p p' : proc) (al al' : alerts) : Prop := Changes {
  ch_fixed : fixed (tps p) (tps p');
  ch_alert : alert_change ok (tps p) (tps p') al al';
  ch_linked : linked p' = true → linked p = true }.

Lemma new_proc_inv n tid : proc_inv (new_proc n tid).
Proof. by split; [split|..]. Qed.

(** The semaphore. *)
Lemma sem_post_range c : 0 <= c <= AST_SEM_VALUE_MAX → 0 <= (ast_sem_post c).2 <= AST_SEM_VALUE_MAX.
Proof. unfold ast_sem_post. destruct (Z.eqb_spec c AST_SEM_VALUE_MAX); simpl; lia. Qed.

(** A reference is released: the destructor runs with the last one. *)
Lemma unref_inv p al :
  proc_core p → dropped p = [] → freed p = false → refs p = references p + 1 →
  ∃ p' al', ao2_unref p al = (p', al') ∧ proc_inv p' ∧ changes true p p' al al'
    ∧ pushed p' = pushed p ∧ executed p' = executed p ∧ pc p' = pc p.
Proof.
  intros [Hl He Ht Hq Hu Hend Hx Hs Hp] Hd Hf Hr. unfold ao2_unref. fields.
  destruct (Z.eqb_spec (refs p - 1) 0) as [E|E].
  - destruct (dtor_level (tps p) al Hl) as (t&al'&->&Hl'&Hq'&Hfx&_&He'&Ht'&Hc). eexists _, _. split; [done|].
    split; [|split; [by split|done]]. split; fields; [split; fields; try done|unfold references in *; fields; lia|by rewrite E|done].
    + congruence.
    + congruence.
    + rewrite Hq, Hq', Hd. by rewrite app_nil_r.
  - eexists _, _. split; [done|]. split; [|split; [|done]].
    + split; fields; [by split|unfold references in *; fields; lia| |done]. rewrite Hf. symmetry. by apply Z.eqb_neq.
    + split; fields; [done|by constructor|done].
Qed.

Lemma users_open (p : proc) :
  (if is_open (closing p) then linked p = true ∧ (1 <= users p)%nat
   else linked p = false ∧ users p = O ∧ pushing p = O) →
  users p ≠ O ∨ pushing p ≠ O → closing p = Open.
Proof. destruct (closing p); simpl; [done|intros (_&?&?) [?|?]; done..]. Qed.

(** An operation that leaves the queue and the thread alone. *)
Lemma set_tps_inv ok p t al al' :
  proc_inv p → level_ok t → tps_queue t = tps_queue (tps p) → fixed (tps p) t →
  executing t = executing (tps p) → thread t = thread (tps p) → alert_change ok (tps p) t al al' →
  proc_inv (set_tps t p) ∧ changes ok p (set_tps t p) al al'.
Proof.
  intros [[Hl He Ht Hq Hu Hend Hx Hs Hp] Hr Hf Hd] Hl' Hq' Hfx He' Ht' Hc. split; [|by split].
  split; [split|..]; fields; congruence || done.
Qed.

(** What a push does, whoever pushes. *)
Lemma push_spec alloc t p al :
  level_ok (tps p) →
  ∃ q al', push alloc (Some t) p al = Some (add_pushed t (set_tps q p), al')
    ∧ level_ok q ∧ tps_queue q = tps_queue (tps p) ++ [t] ∧ fixed (tps p) q ∧ executing q = executing (tps p)
    ∧ thread q = thread (tps p) ∧ alert_change (alloc.1 && alloc.2) (tps p) q al al'.
Proof.
  intros Hl. unfold push. destruct (push_level alloc (tps p) t al Hl) as (w&q&al'&->&?&?&?&?&?&?&_).
  by exists q, al'.
Qed.

Lemma user_push_inv alloc t p al :
  proc_inv p → freed p = false → users p ≠ O → is_user t →
  ∃ p' al', push alloc (Some t) p al = Some (p', al') ∧ proc_inv (set_pushing (S (pushing p')) p')
    ∧ changes (alloc.1 && alloc.2) p p' al al' ∧ pushed p' = pushed p ++ [t].
Proof.
  intros [[Hl He Ht Hq Hu Hend Hx Hs Hp] Hr Hf Hd] Hnf Hus Hut.
  destruct (push_spec alloc t p al Hl) as (q&al'&->&Hl'&Hq'&Hfx&He'&Ht'&Hc). eexists _, _. split; [done|].
  split; [|split; [by split|done]].
  assert (closing p = Open) as Ho by (apply users_open; auto).
  split; [split|..]; fields; try done; try congruence.
  - rewrite Hq, Hq', (Hd Hnf). rewrite !app_nil_r, !app_assoc. done.
  - rewrite Ho in *. by simpl in Hu.
  - unfold ending in *. fields. rewrite Ho in *. fields. destruct Hend as (?&?&?). split_and!; [|assumption..].
    apply Forall_app. by repeat constructor.
Qed.

Lemma post_inv p : proc_inv p → proc_inv (default_task_pushed p).
Proof.
  intros [[Hl He Ht Hq Hu Hend Hx Hs Hp] Hr Hf Hd]. by split; [split|..]; fields; try done; apply sem_post_range.
Qed.

Lemma user_post_inv p n : proc_inv p → pushing p ≠ O → proc_inv (set_pushing n p).
Proof.
  intros [[Hl He Ht Hq Hu Hend Hx Hs Hp] Hr Hf Hd] Hn. assert (closing p = Open) as Ho by (apply users_open; auto).
  split; [split|..]; fields; try done. by rewrite Ho in *.
Qed.

(** The last reference of a user. *)
Lemma unreference_inv p :
  proc_inv p → users p ≠ O → ¬ (users p = 1%nat ∧ pushing p ≠ O) →
  proc_inv (ast_taskprocessor_unreference p).
Proof.
  intros [[Hl He Ht Hq Hu Hend Hx Hs Hp] Hr Hf Hd] Hus Hnp. unfold ast_taskprocessor_unreference. fields.
  assert (closing p = Open) as Ho by (apply users_open; auto).
  unfold references, ending in *. rewrite Ho in *. fields. destruct Hu as [Hlk Hu]. rewrite Hlk in *. fields.
  destruct (Z.gtb_spec (refs p) 3).
  - split; [split|..]; unfold references, ending; fields; rewrite ?Ho, ?Hlk; fields; try done; try lia.
    rewrite Hf. destruct (Z.eqb_spec (refs p) 0), (Z.eqb_spec (refs p - 1) 0); done || lia.
  - split; [split|..]; unfold references, ending; fields; try done; try lia.
    rewrite Hf. destruct (Z.eqb_spec (refs p) 0), (Z.eqb_spec (refs p - 1 - 1) 0); done || lia.
Qed.

(** The shutdown: the task that ends the thread. *)
Lemma shutdown_inv talloc alloc p al :
  proc_inv p → freed p = false → closing p = Dying →
  ∃ p' al', default_listener_shutdown talloc alloc p al = (p', al') ∧ proc_inv p'
    ∧ changes (alloc.1 && alloc.2) p p' al al' ∧ (talloc = true → aborted p' = aborted p).
Proof.
  intros [[Hl He Ht Hq Hu Hend Hx Hs Hp] Hr Hf Hd] Hnf Hc. unfold default_listener_shutdown, tps_task_alloc.
  unfold references, ending in *. rewrite Hc in *. fields. destruct Hu as (Hlk&Hus&Hpu). rewrite Hlk, Hus in *. fields.
  destruct Hend as (Hfu&Hde&Hab). assert (aborted p = false) as Hab' by (destruct (aborted p); [by specialize (Hab eq_refl)|done]).
  rewrite Hab' in *. assert (exited (pc p) = false) as Hex
    by (destruct (exited (pc p)); [|done]; exfalso; specialize (Hx eq_refl); congruence).
  destruct talloc; fields.
  - destruct (push_spec alloc (Task default_listener_die 0 false None 0 None) (set_refs (refs p + 1) p) al Hl)
      as (q&al'&->&Hl'&Hq'&Hfx&He'&Ht'&Hca). fields. eexists _, _. split; [done|]. split; [|split; [by split|done]].
    split; [split|..]; unfold references, ending; fields; rewrite ?Hab', ?Hlk, ?Hus, ?Hex; fields; try done; try congruence; try lia.
    + rewrite Hq, Hq', (Hd Hnf). rewrite !app_nil_r, !app_assoc. done.
    + eexists _, _. split_and!; [done|done|done|]. rewrite Hde. split; [done|]. intros E.
      apply (f_equal length) in E. rewrite Hq, !length_app in E. simpl in E. rewrite ?length_app in E. lia.
    + rewrite Hf. destruct (Z.eqb_spec (refs p) 0), (Z.eqb_spec (refs p + 1) 0); done || lia.
  - eexists _, _. split; [done|]. split; [|split; [split; fields; [done|by constructor|done]|done]].
    split; [split|..]; unfold references, ending; fields; rewrite ?Hlk, ?Hus, ?Hex; fields; try done; try congruence; try lia.
    rewrite Hf. destruct (Z.eqb_spec (refs p) 0), (Z.eqb_spec (refs p + 1) 0); done || lia.
Qed.

Lemma die_post_inv p : proc_inv p → closing p = Posting → proc_inv (set_closing Joining p).
Proof.
  intros [[Hl He Ht Hq Hu Hend Hx Hs Hp] Hr Hf Hd] Hc. unfold references, ending in *. rewrite Hc in *.
  by split; [split|..].
Qed.

Lemma join_inv self p p' al al' :
  proc_inv p → freed p = false → closing p = Joining → default_listener_shutdown_join self p al = Some (p', al') →
  proc_inv p' ∧ changes true p p' al al'.
Proof.
  intros [[Hl He Ht Hq Hu Hend Hx Hs Hp] Hr Hf Hd] Hnf Hc. unfold default_listener_shutdown_join.
  unfold references, ending in *. rewrite Hc in *. fields. rewrite Hp. cbn [mbind option_bind]. cbv zeta.
  match goal with |- (if ?b then _ else _) = _ → _ => destruct b; [done|] end. set (p1 := set_closing _ _).
  destruct (unref_inv p1 al) as (p2&al2&->&?&[? ? ?]&?); [|by apply Hd|done| |intros [= <- <-]; by split].
  - split; unfold p1, ending; fields; done.
  - unfold p1, references. fields. lia.
Qed.

(** *** The thread *)

(** When the thread calls a task, it has not been told to end by one before,
    and the task that tells it is the last. *)
Lemma call_ending p t local start :
  proc_inv p → freed p = false → pc p = Running t local →
  let p' := match execute t with default_listener_die => die p | user_fn _ => p end in
  ending (set_pc (AtEnd t start) (add_executed t p')).
Proof.
  intros [[Hl He Ht Hq Hu Hend Hx Hs Hp] Hr Hf Hd] Hnf Hpc. simpl. rewrite Hpc in Hq. fields.
  rewrite (Hd Hnf), app_nil_r in Hq. unfold ending in *. assert (t ∈ pushed p) as Hin by (rewrite Hq; set_solver).
  destruct (told (closing p) && negb (aborted p)) eqn:Et.
  - destruct Hend as (us&d&Epu&Hus&Hde&Hdead).
    assert (dead (pvt p) = false) as Hnd.
    { apply not_true_is_false. intros E. apply Hdead in E. rewrite E in Hq at 1. rewrite <-app_nil_r in Hq at 1.
      by apply app_inv_head in Hq. }
    destruct (execute t) as [f|] eqn:Ex; fields; rewrite Et.
    + exists us, d. split_and!; [done..|]. rewrite Hnd. split; [done|]. intros E. rewrite <-E in Epu.
      apply app_inj_tail in Epu as [_ ->]. congruence.
    + exists us, d. split_and!; [done..|]. split; [intros _|done].
      destruct (tps_queue (tps p)) as [|x q _] eqn:Eq using rev_ind; [by rewrite Hq|]. exfalso.
      rewrite Hq in Epu. rewrite !app_assoc in Epu. apply app_inj_tail in Epu as [Epu _].
      eapply (Forall_forall is_user us); [done| |exact Ex]. rewrite <-Epu. set_solver.
  - destruct Hend as (Hus&Hde&Hab). assert (is_user t) as Hut by (by eapply Forall_forall).
    destruct (execute t) as [f|] eqn:Ex; [|by destruct Hut]. fields. by rewrite Et.
Qed.

Definition no_failed_wait (e : proc_event) : Prop := e ≠ EWorker (WWait WaitFailed).

Lemma worker_inv e p p' al al' :
  proc_inv p → freed p = false → no_failed_wait (EWorker e) → default_tps_processing_function e p al = Some (p', al') →
  proc_inv p' ∧ changes true p p' al al'.
Proof.
  intros Hinv Hnf Hne. pose proof Hinv as [[Hl He Ht Hq Hu Hend Hx Hs Hp] Hr Hf Hd].
  unfold default_tps_processing_function.
  destruct (pc p) as [| | |t local|t start|] eqn:Hpc, e as [|r| |start'|now]; try done; intros E.
  - destruct (dead (pvt p)) eqn:Hdead; [injection E as E|simplify_eq/=].
    + unfold worker_exit in E.
      destruct (unref_inv (set_pc Exited p) al) as (p2&al2&E2&?&[? ? ?]&?); [|by apply Hd|done| |]; cycle 2.
      * rewrite E2 in E. simplify_eq. done.
      * split; unfold ending in *; fields; try done.
      * unfold references in *. rewrite Hpc in Hr. fields.
        assert (told (closing p) = true) as Htold.
        { unfold ending in Hend. destruct (told (closing p)) eqn:Eto; [done|]. simpl in Hend.
          destruct Hend as (_&?&Hab). destruct (aborted p); [by specialize (Hab eq_refl)|congruence]. }
        rewrite Htold in *. fields. lia.
    + split; [|split; fields; [done|by constructor|done]]. unfold references, ending in *.
      split; [split|..]; unfold references, ending; fields; rewrite ?Hpc in *; try done.
  - destruct r; [| |done].
    + unfold ast_sem_wait in E. destruct (Z.eqb_spec (sem (pvt p)) 0); simplify_eq/=.
      split; [|split; fields; [done|by constructor|done]]. unfold references, ending in *.
      split; [split|..]; unfold references, ending; fields; rewrite ?Hpc in *; try done. lia.
    + simplify_eq/=. split; [|split; fields; [done|by constructor|done]]. unfold references, ending in *.
      split; [split|..]; unfold references, ending; fields; rewrite ?Hpc in *; try done.
  - unfold ast_taskprocessor_execute_begin in E.
    destruct (pop_level (tps p) al Hl) as (q&al2&E2&Hl'&Hq'&Hfx&He'&Ht'&Hld&Hc). rewrite E2 in E.
    destruct (tps_queue (tps p)) as [|t ts] eqn:Eq; simplify_eq/=.
    + split; [|by split]. unfold references, ending in *.
      split; [split|..]; unfold references, ending; fields; rewrite ?Hpc in *; fields; try done; try congruence.
      by rewrite Hq'.
    + split; [|split; fields; [done|by eapply alert_change_eq|done]]. unfold references, ending in *.
      split; [split|..]; unfold references, ending; fields; rewrite ?Hpc in *; fields; try done; try congruence.
  - simplify_eq/=. pose proof (call_ending p t local start' Hinv Hnf Hpc) as Hend'. simpl in Hend'.
    unfold references in *.
    split; [|destruct (execute t); split; fields; by try constructor].
    destruct (execute t); (split; [split|..]); unfold references; fields; rewrite ?Hpc in *; fields; try done;
      by rewrite Hq, <-app_assoc.
  - simplify_eq/=. split; [|split; fields; [by split|by constructor|done]]. unfold references, ending in *.
    split; [split|..]; unfold references, ending; fields; rewrite ?Hpc in *; fields; done.
Qed.

(** *** Any step *)

(** Whether the memory for an alert counter is there when a step needs it. *)
Definition alloc_ok (e : proc_event) : bool :=
  match e with
  | EPush _ alloc _ _ _ _ _ _ | ESetLevels alloc _ _ | EDie _ alloc => alloc.1 && alloc.2
  | _ => true
  end.

Lemma changes_refl ok p p' al :
  tps p' = tps p → (linked p' = true → linked p = true) → changes ok p p' al al.
Proof. intros E Hl. split; [by rewrite E|constructor; by rewrite E|done]. Qed.

Lemma user_task_user talloc local f data file line function t :
  user_task talloc local f data file line function = Some t → is_user t.
Proof.
  unfold user_task, tps_task_alloc_local, tps_task_alloc, is_user. destruct local, f, talloc; simpl; intros [= <-]; done.
Qed.

Lemma user_step_inv e p al p' al' :
  proc_inv p → freed p = false → users p ≠ O → proc_step e p al = Some (p', al') →
  match e with EPost | EDie _ _ | EDiePost | EJoin _ | EWorker _ => False | _ => True end →
  proc_inv p' ∧ changes (alloc_ok e) p p' al al'.
Proof.
  intros Hinv Hnf Hus E He. pose proof (core_level _ (inv_core _ Hinv)) as Hl. unfold proc_step in E. rewrite Hnf in E.
  assert (∀ t ok, level_ok t → fixed (tps p) t → tps_queue t = tps_queue (tps p) → executing t = executing (tps p) →
    thread t = thread (tps p) → high_water_alert t = high_water_alert (tps p) →
    proc_inv (set_tps t p) ∧ changes ok p (set_tps t p) al al) as Hset
    by (intros; apply set_tps_inv; try done; by constructor).
  destruct e as [talloc alloc local f data file line function| |alloc low high| | |d| | | | | |]; try done;
    rewrite bool_decide_eq_false_2 in E by done.
  - destruct (user_task talloc local f data file line function) as [t|] eqn:Et.
    + destruct (user_push_inv alloc t p al) as (p2&al2&E2&Hi&Hc&_); [done..|by eapply user_task_user|].
      rewrite E2 in E. injection E as [= <- <-]. split; [done|]. destruct Hc. by split.
    + simpl in E. simplify_eq. split; [done|]. by apply changes_refl.
  - destruct (set_levels_level alloc (tps p) low high al Hl) as (r&t&al2&E2&?&?&?&?&?&?). rewrite E2 in E.
    simplify_eq. by apply set_tps_inv.
  - simplify_eq/=. by apply Hset.
  - simplify_eq/=. by apply Hset.
  - simplify_eq/=. by apply Hset.
  - simplify_eq/=. by apply Hset.
  - case_bool_decide as Hb; simplify_eq. split; [by apply unreference_inv|]. apply changes_refl.
    + unfold ast_taskprocessor_unreference. fields. by case_all.
    + unfold ast_taskprocessor_unreference. fields. by case_all.
Qed.

Lemma proc_step_inv e p al p' al' :
  proc_inv p → no_failed_wait e → proc_step e p al = Some (p', al') →
  proc_inv p' ∧ changes (alloc_ok e) p p' al al'.
Proof.
  intros Hinv Hne E. destruct (freed p) eqn:Hnf; [unfold proc_step in E; by rewrite Hnf in E|].
  destruct e as [talloc alloc local f data file line function| |alloc low high| | |d| | |talloc alloc| |self|e];
    try (apply user_step_inv; [done..| |done|done]; intros E0; unfold proc_step in E; rewrite Hnf in E;
         by rewrite bool_decide_eq_true_2 in E).
  all: unfold proc_step in E; rewrite Hnf in E.
  - case_bool_decide as Hp; simplify_eq. split; [|by apply changes_refl].
    by apply user_post_inv; [apply post_inv|].
  - destruct (closing p) eqn:Hc; try done. destruct (shutdown_inv talloc alloc p al) as (p2&al2&E2&?&?&_); [done..|].
    rewrite E2 in E. by simplify_eq.
  - destruct (closing p) eqn:Hc; try done. simplify_eq. split; [by apply die_post_inv; [apply post_inv|]|].
    by apply changes_refl.
  - destruct (closing p) eqn:Hc; try done. by eapply join_inv.
  - by eapply worker_inv.
Qed.

(** Without references nobody uses the processor. *)
Lemma no_references p :
  proc_core p → references p = 0 → users p = O ∧ pushing p = O ∧ linked p = false ∧ closing p = Closed ∧ pc p = Exited.
Proof.
  intros [_ _ _ _ Hu _ _ _ _] E. unfold references in E.
  assert (0 <= b2z (negb (exited (pc p)))) by (by destruct (exited (pc p))).
  destruct (closing p) eqn:Hc, (linked p); fields; try lia; destruct Hu as (_&->&->).
  by destruct (pc p); fields; try lia.
Qed.

(** *** The world *)

Definition singletons (ps : list proc) : Prop :=
  ∀ i j p q, ps !! i = Some p → ps !! j = Some q → linked p = true → linked q = true →
    strcasecmp (name (tps p)) (name (tps q)) = 0 → i = j.

Record world_inv (w : world) : Prop := WorldInv {
  winv_procs : Forall proc_inv (procs w);
  winv_names : singletons (procs w) }.

Definition fine (e : event) : Prop := match e with Get _ _ _ => True | On _ e => no_failed_wait e end.

(** A processor of the world changes. *)
Lemma singletons_insert ps i p p' :
  singletons ps → ps !! i = Some p → name (tps p') = name (tps p) → (linked p' = true → linked p = true) →
  singletons (<[i := p']> ps).
Proof.
  intros Hs Hi Hn Hl j k q r Hj Hk Hlq Hlr E.
  pose proof (lookup_lt_Some _ _ _ Hi) as Hlt.
  rewrite list_lookup_insert in Hj. rewrite list_lookup_insert in Hk.
  destruct (decide (i = j ∧ _)) as [[<- _]|Hij], (decide (i = k ∧ _)) as [[<- _]|Hik]; [done|..]; simplify_eq.
  - rewrite Hn in E. by apply (Hs _ _ _ _ Hi Hk (Hl Hlq) Hlr).
  - rewrite Hn in E. by apply (Hs _ _ _ _ Hj Hi Hlq (Hl Hlr)).
  - by apply (Hs _ _ _ _ Hj Hk).
Qed.

(** What a call that finds or creates a processor does. *)
Lemma get_cases n create o w i w' :
  ast_taskprocessor_get n create o w = Some (i, w') →
  w' = w
  ∨ (∃ j p, procs w !! j = Some p ∧ linked p = true ∧ i = Some j
       ∧ strcasecmp (name (tps p)) n = 0
       ∧ w' = World (<[j := set_users (S (users p)) (set_refs (refs p + 1) p)]> (procs w)) (counters w))
  ∨ (∃ tid, (∀ p, p ∈ procs w → linked p = true → strcasecmp (name (tps p)) n ≠ 0) ∧ i = Some (length (procs w))
       ∧ w' = World (procs w ++ [new_proc n tid]) (counters w)).
Proof.
  unfold ast_taskprocessor_get. destruct (ast_strlen_zero n); [intros [= <- <-]; by left|].
  destruct (list_find _ _) as [[j p]|] eqn:Ef.
  - intros [= <- <-]. right; left. apply list_find_Some in Ef as (Hj&Hp&_). apply andb_true_iff in Hp as [Hl Hc].
    unfold tps_cmp_cb in Hc. apply Z.eqb_eq in Hc. by exists j, p.
  - destruct (negb _); [intros [= <- <-]; by left|]. destruct (negb _); [intros [= <- <-]; by left|].
    destruct (start o) as [tid|]; [|done]. intros [= <- <-]. right; right. exists tid. split_and!; [|done..].
    intros p Hp Hl E. apply list_find_None in Ef. eapply Forall_forall in Ef; [|done]. apply Ef.
    apply andb_true_iff. split; [done|]. by apply Z.eqb_eq.
Qed.

Lemma reference_inv p : proc_inv p → linked p = true → proc_inv (set_users (S (users p)) (set_refs (refs p + 1) p)).
Proof.
  intros [[Hl He Ht Hq Hu Hend Hx Hs Hp] Hr Hf Hd] Hlk. unfold references in Hr.
  assert (is_open (closing p) = true) as Ho by (destruct (closing p); naive_solver).
  split; [split|..]; unfold references; fields; try done; try lia.
  - rewrite Ho. split; [done|lia].
  - rewrite Hf. assert (0 < refs p) by (rewrite Hlk in Hr; fields; destruct (is_closed _), (told _ && _); fields; lia).
    destruct (Z.eqb_spec (refs p) 0), (Z.eqb_spec (refs p + 1) 0); done || lia.
Qed.

Lemma strcasecmp_sym a b : strcasecmp a b = 0 → strcasecmp b a = 0.
Proof. rewrite !strcasecmp_zero. done. Qed.

Lemma get_inv n create o w i w' :
  world_inv w → ast_taskprocessor_get n create o w = Some (i, w') → world_inv w'.
Proof.
  intros [Hps Hn] E. destruct (get_cases _ _ _ _ _ _ E) as [->|[(j&p&Hj&Hl&_&_&->)|(tid&Hno&_&->)]]; [done|..].
  - split; simpl; [|by eapply singletons_insert].
    apply Forall_insert; [done|]. apply reference_inv; [|done]. by eapply Forall_lookup_1.
  - split; simpl.
    + apply Forall_app. split; [done|]. apply Forall_singleton, new_proc_inv.
    + intros j k p q Hj Hk Hlp Hlq En. apply lookup_app_Some in Hj, Hk. rewrite !list_lookup_singleton_Some in *.
      destruct Hj as [Hj|[? [? <-]]], Hk as [Hk|[? [? <-]]]; [by eapply Hn| | |lia]; exfalso.
      * eapply (Hno p); [by eapply list_elem_of_lookup_2|done|done].
      * eapply (Hno q); [by eapply list_elem_of_lookup_2|done|]. by apply strcasecmp_sym.
Qed.

Lemma step_inv e w w' : world_inv w → fine e → step e w = Some w' → world_inv w'.
Proof.
  intros [Hps Hn] Hf E. destruct e as [n create o|i e]; simpl in E.
  - destruct (ast_taskprocessor_get n create o w) as [[i w2]|] eqn:Eg; simplify_eq/=. by eapply get_inv.
  - destruct (procs w !! i) as [p|] eqn:Ep; [|done]. simpl in E.
    destruct (proc_step e p (counters w)) as [[p' al']|] eqn:Es; simplify_eq/=.
    destruct (proc_step_inv e p (counters w) p' al') as [Hi [[_ Hnm] _ Hl]]; [by eapply Forall_lookup_1|done..|].
    split; simpl; [by apply Forall_insert|by eapply singletons_insert].
Qed.

Lemma run_inv es w w' : world_inv w → Forall fine es → run es w = Some w' → world_inv w'.
Proof.
  revert w. induction es as [|e es IH]; intros w Hw Hf E; simpl in E; [by simplify_eq|].
  inversion_clear Hf. destruct (step e w) as [w2|] eqn:Es; [|done]. eapply IH; [|done|done]. by eapply step_inv.
Qed.

Lemma empty_inv : world_inv empty_world.
Proof. split; [done|]. by intros i j p q Hp. Qed.

(** *** The alert counters *)

Definition counted (w : world) : Prop := accounted (tps <$> procs w) (counters w).

Definition fine_alloc (e : event) : Prop := fine e ∧ match e with On _ e => alloc_ok e = true | _ => True end.

Lemma step_counted e w w' :
  world_inv w → counted w → fine_alloc e → step e w = Some w' → Z.of_nat (length (procs w)) < 2 ^ 32 → counted w'.
Proof.
  intros [Hps Hn] Hc [Hf Ha] E Hlen. unfold counted in *. destruct e as [n create o|i e]; simpl in E.
  - destruct (ast_taskprocessor_get n create o w) as [[i w2]|] eqn:Eg; simplify_eq/=.
    destruct (get_cases _ _ _ _ _ _ Eg) as [->|[(j&p&Hj&Hl&_&_&->)|(tid&Hno&_&->)]]; [done|..]; simpl.
    + rewrite list_fmap_insert. simpl. rewrite list_insert_id; [done|]. by rewrite list_lookup_fmap, Hj.
    + rewrite fmap_app. by apply accounted_new.
  - destruct (procs w !! i) as [p|] eqn:Ep; [|done]. simpl in E.
    destruct (proc_step e p (counters w)) as [[p' al']|] eqn:Es; simplify_eq/=.
    destruct (proc_step_inv e p (counters w) p' al') as [Hi [Hfx Hal _]]; [by eapply Forall_lookup_1|done..|].
    rewrite Ha in Hal. rewrite list_fmap_insert. eapply accounted_change; [done|by rewrite list_lookup_fmap, Ep|done|done|].
    by rewrite length_fmap.
Qed.

Lemma step_length e w w' : step e w = Some w' → (length (procs w) <= length (procs w'))%nat.
Proof.
  intros E. destruct e as [n create o|i e]; simpl in E.
  - destruct (ast_taskprocessor_get n create o w) as [[i w2]|] eqn:Eg; simplify_eq/=.
    destruct (get_cases _ _ _ _ _ _ Eg) as [->|[(j&p&Hj&Hl&_&_&->)|(tid&Hno&_&->)]]; simpl;
      rewrite ?length_insert, ?length_app; lia.
  - destruct (procs w !! i) as [p|] eqn:Ep; [|done]. simpl in E.
    destruct (proc_step e p (counters w)) as [[p' al']|] eqn:Es; simplify_eq/=. by rewrite length_insert.
Qed.

Lemma run_length es w w' : run es w = Some w' → (length (procs w) <= length (procs w'))%nat.
Proof.
  revert w. induction es as [|e es IH]; intros w E; simpl in E; [by simplify_eq|].
  destruct (step e w) as [w2|] eqn:Es; [|done]. apply step_length in Es. apply IH in E. lia.
Qed.

Lemma run_counted es w w' :
  world_inv w → counted w → Forall fine_alloc es → run es w = Some w' → Z.of_nat (length (procs w')) < 2 ^ 32 →
  world_inv w' ∧ counted w'.
Proof.
  revert w. induction es as [|e es IH]; intros w Hw Hc Hf E Hlen; simpl in E; [by simplify_eq|].
  inversion_clear Hf as [|? ? [] ?]. destruct (step e w) as [w2|] eqn:Es; [|done].
  pose proof (step_length _ _ _ Es). pose proof (run_length _ _ _ E).
  apply (IH w2); [by eapply step_inv| |done|done|done]. eapply step_counted; [done|done|done|done|lia].
Qed.

Lemma empty_counted : counted empty_world.
Proof. split; [done|]. split; [|done]. split; [apply NoDup_nil_2|done]. Qed.

End Invariant.

Module Progress.
Import Invariant.

(** *** What steps leave alone *)

(** The thread has not moved; the semaphore has not been taken. *)
Record still (p q : proc) : Prop := Still {
  still_pc : pc q = pc p;
  still_executed : executed q = executed p;
  still_sem : sem (pvt p) <= sem (pvt q) }.

#[export] Instance still_preorder : PreOrder still.
Proof.
  split; [by split|]. intros p q r [??] [??]. split; [congruence..|lia].
Qed.

(** Posts that are to come, and the tasks they and the semaphore announce. *)
Definition posts (p : proc) : nat := pushing p + match closing p with Posting => 1 | _ => 0 end.

Definition credit (p : proc) : Prop :=
  Z.of_nat (length (tps_queue (tps p))) <= sem (pvt p) + Z.of_nat (posts p)
    + match pc p with AtExecute => 1 | _ => 0 end.

Definition is_worker (e : proc_event) : Prop := match e with EWorker _ => True | _ => False end.

#[export] Instance is_worker_dec e : Decision (is_worker e).
Proof. destruct e; simpl; apply _. Defined.

Definition no_abort (e : proc_event) : Prop := match e with EDie talloc _ => talloc = true | _ => True end.

(** What a step keeps: the tasks pushed so far, the announcement of every
    queued task, and the shutdown in order. *)
Record keeps (p p' : proc) : Prop := Keeps {
  keeps_pushed : pushed p `prefix_of` pushed p';
  keeps_credit : credit p → credit p';
  keeps_aborted : aborted p = false → aborted p' = false }.

#[export] Instance keeps_preorder : PreOrder keeps.
Proof. split; [by split|]. intros p q r [???] [???]. split; [by etrans|auto..]. Qed.

Lemma unref_keeps p al :
  let p' := (ao2_unref p al).1 in
  still p p' ∧ keeps p p'.
Proof.
  unfold ao2_unref. fields. destruct (Z.eqb_spec (refs p - 1) 0).
  - unfold tps_taskprocessor_dtor. destruct (high_water_alert (set_queue [] 0 (tps p))); simpl; (split; [by split|]);
      (split; [done| |done]); unfold credit; simpl; unfold posts; fields; lia.
  - by split; split.
Qed.

Lemma push_keeps alloc t p al p' al' :
  level_ok (tps p) → push alloc (Some t) p al = Some (p', al') →
  still p p' ∧ pushed p' = pushed p ++ [t] ∧ aborted p' = aborted p ∧ pushing p' = pushing p ∧ closing p' = closing p
  ∧ pvt p' = pvt p ∧ length (tps_queue (tps p')) = S (length (tps_queue (tps p))).
Proof.
  intros Hl E. destruct (push_spec alloc t p al Hl) as (q&al2&E2&_&Hq&_). rewrite E2 in E. simplify_eq.
  fields. split; [by split|]. split_and!; try done. rewrite Hq, length_app. simpl. lia.
Qed.

(** Posting with room in the semaphore. *)
Lemma post_sem p : sem (pvt p) < AST_SEM_VALUE_MAX → sem (pvt (default_task_pushed p)) = sem (pvt p) + 1.
Proof.
  intros H. fields. unfold ast_sem_post. by destruct (Z.eqb_spec (sem (pvt p)) AST_SEM_VALUE_MAX); [lia|].
Qed.

Lemma user_step_keeps e p al p' al' :
  proc_inv p → proc_step e p al = Some (p', al') →
  match e with EPost | EDie _ _ | EDiePost | EJoin _ | EWorker _ => False | _ => True end →
  still p p' ∧ keeps p p'.
Proof.
  intros Hinv E He. pose proof (core_level _ (inv_core _ Hinv)) as Hl. unfold proc_step in E.
  destruct (freed p) eqn:Hnf; [done|].
  assert (∀ t, tps_queue t = tps_queue (tps p) → still p (set_tps t p) ∧ keeps p (set_tps t p)) as Hset.
  { intros t Hq. split; [by split|]. split; [done| |done]. unfold credit, posts. fields. by rewrite Hq. }
  destruct e as [talloc alloc local f data file line function| |alloc low high| | |d| | | | | |]; try done;
    (case_bool_decide; [done|]).
  - destruct (user_task talloc local f data file line function) as [t|] eqn:Et.
    + destruct (push alloc (Some t) p al) as [[p2 al2]|] eqn:E2; [|by simplify_eq].
      destruct (push_keeps _ _ _ _ _ _ Hl E2) as ([? ? ?]&Hpu&Hab&Hpn&Hcl&Hpv&Hlen). simplify_eq.
      split; [by split|]. split; fields; [rewrite Hpu; by apply prefix_app_r| |congruence].
      unfold credit, posts. fields. rewrite Hlen, Hpn, Hcl, Hpv, still_pc0. lia.
    + simpl in E. simplify_eq. done.
  - destruct (set_levels_level alloc (tps p) low high al Hl) as (r&t&al2&E2&_&Hq&_). rewrite E2 in E.
    simplify_eq. by apply Hset.
  - simplify_eq/=. by apply Hset.
  - simplify_eq/=. by apply Hset.
  - simplify_eq/=. by apply Hset.
  - simplify_eq/=. by apply Hset.
  - case_bool_decide as Hb; simplify_eq. assert (closing p = Open) as Ho
      by (apply users_open; [apply (inv_core _ Hinv)|auto]).
    unfold ast_taskprocessor_unreference. fields. destruct (refs p >? 3); [|destruct (linked p)];
      (split; [by split|]); (split; [done| |done]); unfold credit, posts; fields; rewrite ?Ho; lia.
Qed.

(** Every step but one of the thread. *)
Lemma other_step_keeps e p al p' al' :
  proc_inv p → ¬ is_worker e → no_abort e → sem (pvt p) < AST_SEM_VALUE_MAX → proc_step e p al = Some (p', al') →
  still p p' ∧ keeps p p'.
Proof.
  intros Hinv Hw Ha Hs E. pose proof (core_level _ (inv_core _ Hinv)) as Hl.
  destruct e as [talloc alloc local f data file line function| |alloc low high| | |d| | |talloc alloc| |self|e];
    try (by eapply user_step_keeps); try (by destruct Hw); unfold proc_step in E; (destruct (freed p); [done|]).
  - case_bool_decide; simplify_eq. pose proof (post_sem p Hs) as Ep. set (q := default_task_pushed p) in *.
    assert (tps q = tps p ∧ pc q = pc p ∧ executed q = executed p ∧ closing q = closing p) as (Et&Epc&Eex&Ecl) by done.
    split; [split; fields; [done..|lia]|]. split; [done| |done].
    unfold credit, posts. fields. rewrite Et, Epc, Ecl, Ep. lia.
  - destruct (closing p) eqn:Hc; try done. simpl in Ha. subst talloc.
    unfold default_listener_shutdown, tps_task_alloc in E. simpl in E.
    destruct (push alloc _ (set_refs (refs p + 1) p) al) as [[p2 al2]|] eqn:E2; cycle 1.
    { destruct (push_spec alloc (Task default_listener_die 0 false None 0 None) (set_refs (refs p + 1) p) al Hl)
        as (?&?&?&_). congruence. }
    destruct (push_keeps _ _ _ _ _ _ (Hl : level_ok (tps (set_refs (refs p + 1) p))) E2)
      as ([? ? ?]&Hpu&Hab&Hpn&Hcl&Hpv&Hlen). simplify_eq. fields.
    split; [split; fields; congruence || lia|]. split; fields; [rewrite Hpu; by apply prefix_app_r| |congruence].
    unfold credit, posts. fields. rewrite Hlen, Hpn, Hpv, still_pc0, Hc. lia.
  - destruct (closing p) eqn:Hc; try done. simplify_eq. pose proof (post_sem p Hs) as Ep.
    set (q := default_task_pushed p) in *.
    assert (tps q = tps p ∧ pc q = pc p ∧ executed q = executed p ∧ pushing q = pushing p) as (Et&Epc&Eex&Epu) by done.
    split; [split; fields; [done..|lia]|]. split; [done| |done].
    unfold credit, posts. fields. rewrite Et, Epc, Epu, Ep, Hc. lia.
  - destruct (closing p) eqn:Hc; try done. unfold default_listener_shutdown_join in E.
    destruct (poll_thread (pvt p)); [|done]. simpl in E. case_match; [done|]. injection E as E.
    match type of E with ao2_unref ?q _ = _ => destruct (unref_keeps q al) as [[? ? ?] [? Hcr ?]]; rewrite E in * end.
    fields. split; [by split|]. split; [done| |done]. intros Hcp. apply Hcr. revert Hcp. unfold credit, posts. fields.
    rewrite Hc. done.
Qed.

Lemma worker_step_keeps e p al p' al' :
  proc_inv p → no_failed_wait (EWorker e) → default_tps_processing_function e p al = Some (p', al') →
  keeps p p'.
Proof.
  intros Hinv Hne E. pose proof (core_level _ (inv_core _ Hinv)) as Hl.
  unfold default_tps_processing_function in E.
  destruct (pc p) as [| | |t local|t start|] eqn:Hpc, e as [|r| |start'|now]; try done.
  - destruct (dead (pvt p)); simplify_eq/=.
    + unfold worker_exit in E. destruct (unref_keeps (set_pc Exited p) al) as [_ [? Hcr ?]]. rewrite E in *. fields.
      split; [done| |done]. intros Hc. apply Hcr. revert Hc. unfold credit, posts. fields. by rewrite Hpc.
    + split; [done| |done]. unfold credit, posts. fields. by rewrite Hpc.
  - destruct r; [| |done].
    + unfold ast_sem_wait in E. destruct (Z.eqb_spec (sem (pvt p)) 0); simplify_eq/=.
      split; [done| |done]. unfold credit, posts. fields. rewrite Hpc. lia.
    + simplify_eq. split; [done| |done]. unfold credit, posts. fields. rewrite Hpc. lia.
  - unfold ast_taskprocessor_execute_begin in E.
    destruct (pop_level (tps p) al Hl) as (q&al2&E2&_&Hq&_). rewrite E2 in E.
    pose proof (core_sem _ (inv_core _ Hinv)) as Hs.
    destruct (tps_queue (tps p)) as [|t ts] eqn:Eq; simpl in E, Hq; injection E as [= <- <-];
      (split; [done| |done]); unfold credit, posts; fields; cbn [set_executing tps_queue]; rewrite Hpc, Hq, Eq; simpl; lia.
  - simplify_eq. destruct (execute t); (split; [done| |done]); unfold credit, posts; fields; by rewrite Hpc.
  - simplify_eq. split; [done| |done]. unfold credit, posts. fields. by rewrite Hpc.
Qed.

(** *** Runs without end *)

(** Whether the thread of a processor can take a step. *)
Definition enabled (p : proc) : bool :=
  match pc p with AtWait => 0 <? sem (pvt p) | Exited => false | _ => true end.

(** A run from the start, in which at some instants nothing happens. *)
Record behaviour (sched : nat → option event) (w : nat → world) : Prop := Behaviour {
  beh_start : w O = empty_world;
  beh_step : ∀ n, match sched n with Some e => step e (w n) = Some (w (S n)) | None => w (S n) = w n end }.

(** What is assumed of the threads that serve a processor: the waiting does not
    fail, the semaphore does not overflow, the task that ends the thread can be
    queued; and whoever can go on, goes on: the thread of the processor, which
    includes that a task returns, and the threads that are to post. *)
Record fair (sched : nat → option event) (w : nat → world) (i : nat) : Prop := Fair {
  fair_fine : ∀ n e, sched n = Some e → fine e;
  fair_abort : ∀ n e, sched n = Some (On i e) → no_abort e;
  fair_sem : ∀ n p, procs (w n) !! i = Some p → sem (pvt p) < AST_SEM_VALUE_MAX;
  fair_worker : ∀ n p, procs (w n) !! i = Some p → enabled p = true →
    ∃ m, (n <= m)%nat ∧ ((∃ e, sched m = Some (On i (EWorker e)))
                         ∨ (∃ q, procs (w m) !! i = Some q ∧ enabled q = false));
  fair_post : ∀ n p, procs (w n) !! i = Some p → posts p ≠ O →
    ∃ m, (n <= m)%nat ∧ (sched m = Some (On i EPost) ∨ sched m = Some (On i EDiePost)
                         ∨ (∃ q, procs (w m) !! i = Some q ∧ posts q = O)) }.

Section Run.
Context (sched : nat → option event) (w : nat → world) (i : nat).
Hypothesis Hbeh : behaviour sched w.
Hypothesis Hfair : fair sched w i.

Lemma always_inv n : world_inv (w n).
Proof.
  induction n as [|n IH]; [rewrite (beh_start _ _ Hbeh); apply empty_inv|].
  pose proof (beh_step _ _ Hbeh n) as Hs. destruct (sched n) as [e|] eqn:E; [|by rewrite Hs].
  eapply step_inv; [done| |done]. by eapply fair_fine.
Qed.

Lemma always_proc n p : procs (w n) !! i = Some p → proc_inv p.
Proof. intros Hp. eapply Forall_lookup_1; [apply (always_inv n)|done]. Qed.

(** One instant, as the processor sees it. *)
Lemma instant n p :
  procs (w n) !! i = Some p →
  ∃ q, procs (w (S n)) !! i = Some q ∧ keeps p q
    ∧ ((∃ e al al', sched n = Some (On i (EWorker e)) ∧ default_tps_processing_function e p al = Some (q, al'))
       ∨ still p q ∧ ∀ e, sched n ≠ Some (On i (EWorker e))).
Proof.
  intros Hp. pose proof (always_proc n p Hp) as Hinv. pose proof (beh_step _ _ Hbeh n) as Hs.
  destruct (sched n) as [[nm create o|j e]|] eqn:E.
  - simpl in Hs. destruct (ast_taskprocessor_get nm create o (w n)) as [[k w']|] eqn:Eg; simplify_eq/=.
    destruct (get_cases _ _ _ _ _ _ Eg) as [Ew|[(j&p'&Hj&_&_&_&Ew)|(tid&_&_&Ew)]]; rewrite Ew; simpl.
    + exists p. split; [done|]. split; [done|]. by right.
    + rewrite list_lookup_insert. destruct (decide (j = i ∧ _)) as [[-> _]|_].
      * simplify_eq. eexists. split; [done|]. split; [done|]. by right.
      * exists p. split; [done|]. split; [done|]. by right.
    + exists p. split; [by apply lookup_app_l_Some|]. split; [done|]. by right.
  - simpl in Hs. destruct (procs (w n) !! j) as [p'|] eqn:Ep; [|done]. simpl in Hs.
    destruct (proc_step e p' (counters (w n))) as [[q al']|] eqn:Es; simpl in Hs; [|done]. injection Hs as Hs. rewrite <-Hs. simpl.
    rewrite list_lookup_insert. destruct (decide (j = i ∧ _)) as [[-> _]|Hji].
    + simplify_eq. exists q. split; [done|]. pose proof (fair_fine _ _ _ Hfair n _ E) as Hf. simpl in Hf.
      destruct (decide (is_worker e)) as [Hw|Hw].
      * destruct e; try done. unfold proc_step in Es. destruct (freed p); [done|].
        split; [by eapply worker_step_keeps|]. left. by eexists _, _, _.
      * destruct (other_step_keeps e p (counters (w n)) q al') as [? ?]; try done.
        -- by eapply fair_abort.
        -- by eapply fair_sem.
        -- split; [done|]. right. split; [done|]. intros e' [= ->]. by destruct Hw.
    + exists p. split; [done|]. split; [done|]. right. split; [done|]. intros e' [= -> _].
      destruct Hji. split; [done|]. by eapply lookup_lt_Some.
  - rewrite Hs. exists p. split; [done|]. split; [done|]. by right.
Qed.

Lemma later n m p :
  (n <= m)%nat → procs (w n) !! i = Some p → ∃ q, procs (w m) !! i = Some q ∧ keeps p q.
Proof.
  intros Hle Hp. induction Hle as [|m Hle (q&Hq&Hk)]; [by exists p|].
  destruct (instant m q Hq) as (r&Hr&Hk'&_). exists r. split; [done|]. by etrans.
Qed.

(** Every queued task is announced, and the shutdown is in order. *)
Lemma always_credit n p : procs (w n) !! i = Some p → credit p ∧ aborted p = false.
Proof.
  revert p. induction n as [|n IH]; intros p Hp; [by rewrite (beh_start _ _ Hbeh) in Hp|].
  destruct (procs (w n) !! i) as [q|] eqn:Hq.
  - destruct (instant n q Hq) as (r&Hr&[_ Hc Ha]&_). simplify_eq. destruct (IH q eq_refl). auto.
  - pose proof (beh_step _ _ Hbeh n) as Hs. destruct (sched n) as [[nm create o|j e]|] eqn:E; [| |congruence].
    + simpl in Hs. destruct (ast_taskprocessor_get nm create o (w n)) as [[k w']|] eqn:Eg; simplify_eq/=.
      destruct (get_cases _ _ _ _ _ _ Eg) as [Ew|[(j&p'&Hj&_&_&_&Ew)|(tid&_&_&Ew)]]; rewrite Ew in Hp; simpl in Hp.
      * congruence.
      * rewrite list_lookup_insert in Hp. destruct (decide (j = i ∧ _)) as [[-> _]|_]; congruence.
      * apply lookup_app_Some in Hp as [?|[_ Hp]]; [congruence|]. apply list_lookup_singleton_Some in Hp as [_ <-]. done.
    + simpl in Hs. destruct (procs (w n) !! j) as [p'|] eqn:Ep; [|done]. simpl in Hs.
      destruct (proc_step e p' (counters (w n))) as [[q al']|]; [|done]. injection Hs as Hs. rewrite <-Hs in Hp.
      simpl in Hp. rewrite list_lookup_insert in Hp. destruct (decide (j = i ∧ _)) as [[-> _]|_]; congruence.
Qed.

(** Up to a later instant: the thread takes a step before it, or has not moved. *)
Lemma worker_or_still n m p :
  (n <= m)%nat → procs (w n) !! i = Some p →
  ∃ q, still p q ∧ ((∃ j e, (n <= j < m)%nat ∧ procs (w j) !! i = Some q ∧ sched j = Some (On i (EWorker e)))
                    ∨ procs (w m) !! i = Some q).
Proof.
  intros Hle Hp. induction Hle as [|m Hle (q&Hst&[(j&e&Hj&Hq&He)|Hq])]; [by exists p; split; [|right]|..].
  - exists q. split; [done|]. left. exists j, e. split_and!; [lia..|done|done].
  - destruct (instant m q Hq) as (r&Hr&_&[(e&_&_&He&_)|[Hst' _]]).
    + exists q. split; [done|]. left. exists m, e. split_and!; [lia..|done|done].
    + exists r. split; [by etrans|]. by right.
Qed.

(** A task with index [k] among those pushed is not yet executed. *)
Definition waiting (k : nat) (p : proc) : Prop := (length (executed p) <= k < length (pushed p))%nat.

Lemma waiting_facts n p k :
  procs (w n) !! i = Some p → waiting k p →
  dead (pvt p) = false ∧ pc p ≠ Exited ∧ freed p = false ∧ (running (pc p) = [] → tps_queue (tps p) ≠ []).
Proof.
  intros Hp [Hk1 Hk2]. destruct (always_credit n p Hp) as [_ Hab].
  destruct (always_proc n p Hp) as [[Hl He Ht Hq Hu Hend Hx Hs Hpo] Hr Hf Hd].
  assert (dead (pvt p) = false) as Hdead.
  { apply not_true_is_false. intros E. unfold ending in Hend. rewrite Hab in Hend.
    destruct (told (closing p)); simpl in Hend; [|destruct Hend as (_&?&_); congruence].
    destruct Hend as (us&d&_&_&_&Hend). apply Hend in E. rewrite E in Hk1. lia. }
  assert (exited (pc p) = false) as Hex by (apply not_true_is_false; intros E; apply Hx in E; congruence).
  assert (freed p = false) as Hnf.
  { rewrite Hf, Hr. unfold references. apply Z.eqb_neq. rewrite Hex. fields.
    destruct (closing p), (linked p); fields; lia. }
  split_and!; try done.
  - intros E. by rewrite E in Hex.
  - intros Hrun Hqe. rewrite Hrun, Hqe, (Hd Hnf) in Hq. rewrite Hq in Hk2. rewrite !app_nil_r in Hk2. simpl in Hk2. lia.
Qed.

Lemma next_worker_enabled n p :
  procs (w n) !! i = Some p → enabled p = true →
  ∃ j e q, (n <= j)%nat ∧ still p q ∧ procs (w j) !! i = Some q ∧ sched j = Some (On i (EWorker e)).
Proof.
  intros Hp Hen. destruct (fair_worker _ _ _ Hfair n p Hp Hen) as (m&Hm&Hor).
  destruct (worker_or_still n m p Hm Hp) as (q&Hst&[(j&e&Hj&Hq&He)|Hq]); [exists j, e, q; split_and!; [lia|done..]|].
  destruct Hor as [[e He]|(q'&Hq'&Hdis)]; [by exists m, e, q|]. simplify_eq. exfalso.
  destruct Hst as [Hpc _ Hse]. unfold enabled in *. rewrite Hpc in Hdis.
  destruct (pc p); try done. apply Z.ltb_lt in Hen. apply Z.ltb_ge in Hdis. lia.
Qed.

(** While the task waits the thread takes another step. *)
Lemma next_worker n p k :
  procs (w n) !! i = Some p → waiting k p →
  ∃ j e q, (n <= j)%nat ∧ still p q ∧ procs (w j) !! i = Some q ∧ sched j = Some (On i (EWorker e)).
Proof.
  intros Hp Hw. destruct (enabled p) eqn:Hen; [by apply next_worker_enabled|].
  destruct (waiting_facts n p k Hp Hw) as (Hdead&Hnex&Hnf&Hqu).
  assert (pc p = AtWait ∧ sem (pvt p) <= 0) as [Hpc Hse]
    by (unfold enabled in Hen; destruct (pc p); try done; split; [done|by apply Z.ltb_ge]).
  assert (∀ m q, (n <= m)%nat → procs (w m) !! i = Some q → still p q → 0 < sem (pvt q) →
    ∃ j e r, (n <= j)%nat ∧ still p r ∧ procs (w j) !! i = Some r ∧ sched j = Some (On i (EWorker e))) as Hgo.
  { intros m q Hm Hq Hst Hs. destruct (next_worker_enabled m q Hq) as (j&e&r&Hj&Hst'&Hr&He).
    { unfold enabled. rewrite (still_pc _ _ Hst), Hpc. by apply Z.ltb_lt. }
    exists j, e, r. split_and!; [lia|by etrans|done|done]. }
  assert (∀ m q, (n <= m)%nat → procs (w m) !! i = Some q → still p q → sem (pvt q) + Z.of_nat (posts q) > 0) as Hcr.
  { intros m q Hm Hq [Hpc' Hex _]. destruct (always_credit m q Hq) as [Hc _]. unfold credit in Hc.
    rewrite Hpc', Hpc in Hc. destruct (later n m p Hm Hp) as (q'&Hq'&[Hpre _ _]).
    assert (q' = q) as -> by congruence.
    assert (waiting k q) as Hw' by (destruct Hw; apply prefix_length in Hpre; split; [congruence|lia]).
    destruct (waiting_facts m q k Hq Hw') as (_&_&_&Hne). rewrite Hpc', Hpc in Hne.
    specialize (Hne eq_refl). destruct (tps_queue (tps q)); [done|]. simpl in Hc. lia. }
  assert (posts p ≠ O) as Hpo by (pose proof (Hcr n p (le_n n) Hp (PreOrder_Reflexive p)); lia).
  destruct (fair_post _ _ _ Hfair n p Hp Hpo) as (m&Hm&Hor).
  destruct (worker_or_still n m p Hm Hp) as (q&Hst&[(j&e&Hj&Hq&He)|Hq]); [exists j, e, q; split_and!; [lia|done..]|].
  assert (∀ e, e = EPost ∨ e = EDiePost → sched m = Some (On i e) →
    ∃ j e r, (n <= j)%nat ∧ still p r ∧ procs (w j) !! i = Some r ∧ sched j = Some (On i (EWorker e))) as Hpost.
  { intros e He Hsm. destruct (instant m q Hq) as (r&Hr&_&[(e'&?&?&He'&_)|[Hst' _]]).
    { rewrite Hsm in He'. destruct He as [-> | ->]; done. }
    apply (Hgo (S m) r); [lia|done|by etrans|]. pose proof (beh_step _ _ Hbeh m) as Hs. rewrite Hsm in Hs.
    simpl in Hs. rewrite Hq in Hs. simpl in Hs.
    destruct (proc_step e q (counters (w m))) as [[q' al']|] eqn:Es; [|done]. injection Hs as Hs.
    rewrite <-Hs in Hr. simpl in Hr. rewrite list_lookup_insert_eq in Hr by (by eapply lookup_lt_Some).
    simplify_eq. pose proof (fair_sem _ _ _ Hfair m q Hq) as Hlt.
    pose proof (core_sem _ (inv_core _ (always_proc m q Hq))) as Hge.
    unfold proc_step in Es. destruct (freed q); [done|].
    destruct He as [-> | ->]; [case_bool_decide|destruct (closing q)]; simplify_eq;
      change (0 < sem (pvt (default_task_pushed q))); rewrite post_sem; done || lia. }
  destruct Hor as [He|[He|(q'&Hq'&Hp0)]]; [by eapply Hpost; [left|]|by eapply Hpost; [right|]|].
  assert (q' = q) as -> by congruence. apply (Hgo m q Hm Hq Hst). pose proof (Hcr m q Hm Hq Hst). lia.
Qed.

(** How far the thread is from having executed the task. *)
Definition rank (k : nat) (p : proc) : nat :=
  (S k - length (executed p)) * 6
  + match pc p with AtEnd _ _ => 5 | AtLoop => 4 | AtWait => 3 | AtExecute => 2 | Running _ _ => 1 | Exited => 0 end.

Lemma worker_rank n p k e al p' al' :
  procs (w n) !! i = Some p → waiting k p → no_failed_wait (EWorker e) →
  default_tps_processing_function e p al = Some (p', al') → (rank k p' < rank k p)%nat.
Proof.
  intros Hp Hw Hne E. destruct (waiting_facts n p k Hp Hw) as (Hdead&Hnex&Hnf&Hqu).
  unfold default_tps_processing_function in E. rewrite Hdead in E. unfold rank.
  destruct (pc p) as [| | |t local|t start|] eqn:Hpc, e as [|r| |start'|now]; try done.
  - simplify_eq. fields. lia.
  - destruct r; [| |done].
    + destruct (ast_sem_wait (sem (pvt p))); simplify_eq/=. fields. lia.
    + simplify_eq. fields. lia.
  - unfold ast_taskprocessor_execute_begin in E.
    pose proof (core_level _ (inv_core _ (always_proc n p Hp))) as Hl.
    destruct (pop_level (tps p) al Hl) as (q&al2&E2&_). rewrite E2 in E. specialize (Hqu eq_refl).
    destruct (tps_queue (tps p)); [done|]. simpl in E. injection E as [= <- <-]. fields. lia.
  - injection E as [= <- <-]. destruct Hw. destruct (execute t); fields; rewrite length_app; simpl; lia.
  - simplify_eq. fields. lia.
Qed.

Lemma eventually_executed k n p :
  procs (w n) !! i = Some p → waiting k p →
  ∃ m q, (n < m)%nat ∧ procs (w m) !! i = Some q ∧ (k < length (executed q))%nat ∧ pushed p `prefix_of` pushed q.
Proof.
  remember (rank k p) as r eqn:Er. revert n p Er. induction r as [r IH] using lt_wf_ind. intros n p -> Hp Hw.
  destruct (next_worker n p k Hp Hw) as (j&e&q&Hj&Hst&Hq&He).
  destruct (later n j p Hj Hp) as (q'&Hq'&Hk). assert (q' = q) as -> by congruence.
  assert (waiting k q) as Hw'
    by (destruct Hw, Hk as [Hpre _ _]; apply prefix_length in Hpre; split; [by rewrite (still_executed _ _ Hst)|lia]).
  destruct (instant j q Hq) as (s&Hs&Hks&[(e'&al&al'&He'&Ew)|[_ Hno]]); [|by destruct (Hno e)].
  pose proof (fair_fine _ _ _ Hfair _ _ He') as Hff. simpl in Hff.
  pose proof (worker_rank j q k e' al s al' Hq Hw' Hff Ew) as Hlt.
  assert (rank k q = rank k p) as Erk by (unfold rank; by rewrite (still_pc _ _ Hst), (still_executed _ _ Hst)).
  destruct (decide (k < length (executed s))%nat) as [Hdone|Hnot].
  - exists (S j), s. split_and!; [lia|done|done|]. apply (keeps_pushed p s). by etrans.
  - destruct (IH (rank k s)) with (n := S j) (p := s) as (m&r&Hm&Hr&Hex&Hpre); [lia|done|done| |].
    + split; [lia|]. destruct Hw' as [_ Hw']. pose proof (prefix_length _ _ (keeps_pushed _ _ Hks)). lia.
    + exists m, r. split_and!; [lia|done|done|]. etrans; [|done]. apply (keeps_pushed p s). by etrans.
Qed.

(** After a push the task is the last of those pushed. *)
Lemma pushed_waits n p alloc local f data file line function :
  sched n = Some (On i (EPush true alloc local (Some f) data file line function)) → procs (w n) !! i = Some p →
  ∃ q t, procs (w (S n)) !! i = Some q ∧ user_task true local (Some f) data file line function = Some t
    ∧ pushed q = pushed p ++ [t].
Proof.
  intros He Hp. pose proof (beh_step _ _ Hbeh n) as Hs. rewrite He in Hs. simpl in Hs. rewrite Hp in Hs. simpl in Hs.
  assert (∃ t, user_task true local (Some f) data file line function = Some t) as [t Et] by (destruct local; by eexists).
  unfold proc_step in Hs. destruct (freed p) eqn:Hnf; [done|]. case_bool_decide as Hus; [done|]. rewrite Et in Hs.
  destruct (user_push_inv alloc t p (counters (w n))) as (p2&al2&E2&_&_&Hpu);
    [by eapply always_proc|done|done|by eapply user_task_user|].
  rewrite E2 in Hs. injection Hs as Hs. rewrite <-Hs. simpl.
  rewrite list_lookup_insert_eq by (by eapply lookup_lt_Some). by eexists _, t.
Qed.

End Run.

(** The tasks executed are the first of those pushed. *)
Lemma executed_index p us t k :
  proc_inv p → (us ++ [t]) `prefix_of` pushed p → k = length us → (k < length (executed p))%nat → executed p !! k = Some t.
Proof.
  intros [[_ _ _ Hq _ _ _ _ _] _ _ _] [rest Hpre] -> Hlt. rewrite Hq in Hpre.
  rewrite <-(lookup_app_l (executed p) (running (pc p) ++ tps_queue (tps p) ++ dropped p)) by done.
  rewrite Hpre, lookup_app_l by (rewrite length_app; simpl; lia). by rewrite lookup_app_r, Nat.sub_diag by lia.
Qed.

End Progress.

(** *** Finite runs, as runs in which nothing happens any more *)

Module FiniteRuns.
Import Invariant Progress.

Definition event_at (es : list event) (n : nat) : option event := es !! n.
Definition states (es : list event) (n : nat) : world := default empty_world (run (take n es) empty_world).

Lemma run_split es1 es2 w : run (es1 ++ es2) w = (run es1 w ≫= run es2).
Proof. revert w. induction es1 as [|e es1 IH]; intros w; [done|]. simpl. destruct (step e w); [apply IH|done]. Qed.

Lemma states_behaviour es : is_Some (run es empty_world) → behaviour (event_at es) (states es).
Proof.
  intros Hes. split; [done|]. intros n. unfold event_at, states. destruct (es !! n) as [e|] eqn:E.
  - rewrite (take_S_r _ _ _ E), run_split. rewrite <-(take_drop_middle es n e E), run_split in Hes.
    destruct (run (take n es) empty_world) as [w|]; [|by destruct Hes]. simpl in *.
    destruct (step e w) as [w'|]; [done|by destruct Hes].
  - apply lookup_ge_None in E. by rewrite !take_ge by lia.
Qed.

(** It is fair to a processor that is idle at its end. *)
Lemma states_fair es i w :
  run es empty_world = Some w → Forall fine es → Forall (λ e, match e with On _ e => no_abort e | _ => True end) es →
  (∀ n p, (n <= length es)%nat → procs (states es n) !! i = Some p → sem (pvt p) < AST_SEM_VALUE_MAX) →
  (∀ p, procs w !! i = Some p → enabled p = false ∧ posts p = O) → is_Some (procs w !! i) →
  fair (event_at es) (states es) i.
Proof.
  intros Hrun Hf Ha Hs Hq [p Hp]. destruct (Hq p Hp) as [Hen Hpo].
  assert (∀ n, (length es <= n)%nat → states es n = w) as Hend by (intros n Hn; unfold states; by rewrite take_ge, Hrun).
  split.
  - intros n e E. eapply Forall_lookup_1 in Hf; [|exact E]. done.
  - intros n e E. eapply Forall_lookup_1 in Ha; [|exact E]. done.
  - intros n q E. destruct (decide (n <= length es)%nat); [by eapply Hs|].
    apply (Hs (length es) q); [lia|]. rewrite (Hend (length es)) by lia. by rewrite <-(Hend n) by lia.
  - intros n q E _. exists (n + length es)%nat. split; [lia|]. right. exists p. by rewrite Hend by lia.
  - intros n q E _. exists (n + length es)%nat. split; [lia|]. right; right. exists p. by rewrite Hend by lia.
Qed.

End FiniteRuns.

Module Properties.
Import Invariant Progress FiniteRuns.

(** C3: whatever the threads do and however they interleave, as long as
    waiting for the semaphore does not fail: the tasks of a processor are
    executed one at a time and in the order they were pushed, none is lost and
    none is executed twice; its memory is freed only when nobody holds a
    reference, no push is under way and its thread and its shutdown have ended;
    a thread that was told to end by its task has executed every task before it
    ends; and no two processors in the container have the same name. *)
Theorem taskprocessor_threads_safe (es : list event) (w : world) (i : nat) (p : proc) :
  run es empty_world = Some w → Forall fine es → procs w !! i = Some p →
  pushed p = executed p ++ running (pc p) ++ tps_queue (tps p) ++ dropped p
  ∧ ast_taskprocessor_is_task (worker_id p) (tps p) = in_task (pc p)
  ∧ (freed p = true → users p = O ∧ pushing p = O ∧ linked p = false ∧ closing p = Closed ∧ pc p = Exited)
  ∧ (pc p = Exited → aborted p = false → executed p = pushed p)
  ∧ ∀ j q, procs w !! j = Some q → linked p = true → linked q = true →
      strcasecmp (name (tps p)) (name (tps q)) = 0 → i = j.
Proof.
  intros Hrun Hf Hp. destruct (run_inv _ _ _ empty_inv Hf Hrun) as [Hps Hn].
  assert (proc_inv p) as [[Hl He Ht Hq Hu Hend Hx Hs Hpo] Hr Hfr Hd] by (by eapply Forall_lookup_1).
  split_and!; [done| | | |].
  - unfold ast_taskprocessor_is_task. rewrite Ht. by destruct (in_task (pc p)); case_bool_decide.
  - rewrite Hfr, Hr. intros E%Z.eqb_eq. by apply no_references; [split|].
  - intros Ex Hab. unfold ending in Hend. rewrite Ex in Hx. specialize (Hx eq_refl). rewrite Hab in Hend.
    destruct (told (closing p)); simpl in Hend; [|destruct Hend as (_&?&_); congruence].
    destruct Hend as (us&d&_&_&_&Hend). by apply Hend.
  - intros j q Hj Hlp Hlq E. by eapply Hn.
Qed.

Definition ok_get (n : string) : event := Get (cstr n) 0 (Outcome true true true true true (Some 7)).
Definition work (e : worker_event) : event := On 0 (EWorker e).
Definition push_fn (f : Z) : event := On 0 (EPush true (true, true) false (Some f) 0 None 0 None).
Definition serve : list event := [work WLoop; work (WWait WaitOk); work WBegin; work (WCall (Tv 5 0)); work (WEnd (Tv 5 9))].

(** A processor from its creation to its end, with two tasks. *)
Definition life : list event :=
  [ok_get "pjsip/default"; push_fn 1; push_fn 2; On 0 EPost; On 0 EPost] ++ serve
  ++ [On 0 EUnref; On 0 (EDie true (true, true)); On 0 EDiePost] ++ serve ++ serve ++ [work WLoop; On 0 (EJoin 3)].

Lemma taskprocessor_threads_safe_witness :
  ∃ w p, run life empty_world = Some w ∧ Forall fine life ∧ procs w !! O = Some p
    ∧ freed p = true ∧ length (executed p) = 3%nat ∧ executed p = pushed p ∧ users p = O.
Proof.
  destruct (run life empty_world) as [w|] eqn:Hrun; [|by vm_compute in Hrun].
  assert (Forall fine life) as Hf by (by repeat constructor).
  destruct (procs w !! O) as [p|] eqn:Hp; [|by vm_compute in Hrun; injection Hrun as <-].
  destruct (taskprocessor_threads_safe life w 0 p Hrun Hf Hp) as (_&_&Hfree&Hdrain&_).
  vm_compute in Hrun. injection Hrun as <-. injection Hp as <-.
  eexists _, _. split_and!; [reflexivity|done|reflexivity|reflexivity|reflexivity|by apply Hdrain|by apply Hfree].
Defined.

(** C13: with memory for the counters and fewer than 2^32 processors, in every
    interleaving the alert count of the system is the number of processors with
    an alert, and that of a subsystem the number of them in it; a queue without
    an alert is not longer than its high water mark, one with an alert not
    shorter than its low one. *)
Theorem taskprocessor_alerts_counted (es : list event) (w : world) :
  run es empty_world = Some w → Forall fine_alloc es → Z.of_nat (length (procs w)) < 2 ^ 32 →
  ast_taskprocessor_alert_get (counters w) = Z.of_nat (alerted (tps <$> procs w))
  ∧ (∀ s, bytes s ≠ [] →
       ast_taskprocessor_get_subsystem_alert (counters w) s = Z.of_nat (alerted_in s (tps <$> procs w)))
  ∧ ∀ p, p ∈ procs w →
      ast_taskprocessor_size (Some (tps p)) = Z.of_nat (length (tps_queue (tps p)))
      ∧ if high_water_alert (tps p) then tps_queue_low (tps p) <= ast_taskprocessor_size (Some (tps p))
        else ast_taskprocessor_size (Some (tps p)) <= tps_queue_high (tps p).
Proof.
  intros Hrun Hf Hlen. destruct (run_counted _ _ _ empty_inv empty_counted Hf Hrun Hlen) as [[Hps _] (Hn&Hv&Ht)].
  split_and!.
  - unfold ast_taskprocessor_alert_get. rewrite Hn. apply uwrap_small.
    pose proof (alerted_le (tps <$> procs w)). rewrite length_fmap in *. lia.
  - intros s Hs. rewrite <-Ht by done. destruct (counters w) as [n v]. by apply get_total.
  - intros p Hp. eapply Forall_forall in Hps; [|done]. by destruct (core_level _ (inv_core _ Hps)) as (?&_&_&?).
Qed.

(** Two processors of a subsystem, one of them with an alert. *)
Definition overload : list event :=
  [ok_get "pjsip/a"; ok_get "pjsip/b"; On 0 (ESetLevels (true, true) 1 2); push_fn 1; push_fn 2; push_fn 3].

Lemma taskprocessor_alerts_counted_witness :
  ∃ w, run overload empty_world = Some w ∧ Forall fine_alloc overload
    ∧ ast_taskprocessor_alert_get (counters w) = 1
    ∧ ast_taskprocessor_get_subsystem_alert (counters w) (cstr "pjsip") = 1.
Proof.
  destruct (run overload empty_world) as [w|] eqn:Hrun; [|by vm_compute in Hrun].
  assert (Forall fine_alloc overload) as Hf by (by repeat constructor).
  assert (Z.of_nat (length (procs w)) < 2 ^ 32) as Hlen by (vm_compute in Hrun; injection Hrun as <-; reflexivity).
  destruct (taskprocessor_alerts_counted overload w Hrun Hf Hlen) as (E1&E2&_).
  exists w. split; [done|]. split; [done|]. rewrite E1, (E2 (cstr "pjsip")) by done.
  vm_compute in Hrun. injection Hrun as <-. done.
Defined.

(** C2: a task that is pushed is executed.  In every run without end in which
    the thread of the processor and the threads that post go on when they can,
    the wait does not fail and the semaphore does not overflow, a task that
    [ast_taskprocessor_push] accepts at some instant has been executed at a later
    one, as the one after all tasks pushed before it. *)
Theorem pushed_task_executed (sched : nat → option event) (w : nat → world) (i n : nat) (p : proc)
    (alloc : bool * bool) (local : bool) (f data line : Z) (file function : option cstring) :
  behaviour sched w → fair sched w i →
  sched n = Some (On i (EPush true alloc local (Some f) data file line function)) → procs (w n) !! i = Some p →
  ∃ m q, (n < m)%nat ∧ procs (w m) !! i = Some q
    ∧ executed q !! length (pushed p) = user_task true local (Some f) data file line function.
Proof.
  intros Hb Hf He Hp. destruct (pushed_waits sched w i Hb Hf n p _ _ _ _ _ _ _ He Hp) as (q&t&Hq&Et&Epu).
  destruct (decide (length (executed q) <= length (pushed p))%nat) as [Hle|Hgt].
  - destruct (eventually_executed sched w i Hb Hf (length (pushed p)) (S n) q) as (m&r&Hm&Hr&Hex&Hpre); [done| |].
    { split; [done|]. rewrite Epu, length_app. simpl. lia. }
    exists m, r. split; [lia|]. split; [done|]. rewrite Et. rewrite Epu in Hpre. by eapply executed_index; [by eapply always_proc|..].
  - exists (S n), q. split; [lia|]. split; [done|]. rewrite Et.
    eapply executed_index; [by eapply always_proc|by rewrite Epu|done|lia].
Qed.

(** A processor that executes a task and waits for another. *)
Definition service : list event := [ok_get "pbx"; push_fn 42; On 0 EPost] ++ serve ++ [work WLoop].

Lemma pushed_task_executed_witness :
  ∃ m q, (1 < m)%nat ∧ procs (states service m) !! O = Some q
    ∧ executed q !! O = Some (Task (user_fn 42) 0 false None 0 None).
Proof.
  destruct (run service empty_world) as [w|] eqn:Hrun; [|by vm_compute in Hrun].
  assert (behaviour (event_at service) (states service)) as Hb by (apply states_behaviour; by rewrite Hrun).
  assert (fair (event_at service) (states service) 0) as Hf.
  { apply (states_fair service 0 w Hrun); [by repeat constructor|by repeat constructor| | |].
    - intros n p Hn E. do 10 (destruct n as [|n]; [by vm_compute in E; simplify_eq|]). simpl in Hn. lia.
    - vm_compute in Hrun. injection Hrun as <-. intros p [= <-]. done.
    - vm_compute in Hrun. injection Hrun as <-. done. }
  exact (pushed_task_executed (event_at service) (states service) 0 1 (new_proc (cstr "pbx") 7) (true, true) false 42 0 0
    None None Hb Hf eq_refl eq_refl).
Defined.

(** *** Error paths *)

(** A failed wait ends the thread, which releases a reference it does not hold:
    of two users one lets go, and the processor is shut down under the other. *)
Lemma failed_wait_releases :
  (λ w, (λ p, (users p, closing p, refs p)) <$> procs w)
    <$> run [ok_get "pbx"; ok_get "PBX"; work WLoop; work (WWait WaitFailed); On 0 EUnref] empty_world
  = Some [(1%nat, Dying, 1)].
Proof. reflexivity. Qed.

(** A shutdown that waits for a thread that waits for the semaphore. *)
Lemma joining_stuck p al e r :
  closing p = Joining → users p = O → pushing p = O → pc p = AtWait → sem (pvt p) = 0 → proc_step e p al = Some r →
  e = EWorker (WWait WaitEintr) ∨ e = EWorker (WWait WaitFailed).
Proof.
  intros Hc Hu Hp Hpc Hs. unfold proc_step, default_listener_shutdown_join, default_tps_processing_function.
  rewrite Hc, Hu, Hp, Hpc, Hs.
  destruct (freed p), e as [| | | | | | | | | |self|[|[]| | |]]; simpl; try done; [|by left|by right].
  destruct (poll_thread (pvt p)); simpl; [|done]. by destruct (self =? z).
Qed.

(** When the task that ends the thread cannot be queued, the thread is told
    directly; if it waits for the semaphore it does not look: only a signal would
    wake it, and the shutdown waits for it without end. *)
Definition no_memory : list event := [ok_get "pbx"; work WLoop; On 0 EUnref; On 0 (EDie false (true, true))].

Lemma failed_shutdown_hangs :
  ∃ w p, run no_memory empty_world = Some w ∧ procs w !! O = Some p
    ∧ ∀ e al, is_Some (proc_step e p al) → e = EWorker (WWait WaitEintr) ∨ e = EWorker (WWait WaitFailed).
Proof.
  destruct (run no_memory empty_world) as [w|] eqn:Hrun; [|by vm_compute in Hrun].
  vm_compute in Hrun. injection Hrun as <-. eexists _, _. split; [done|]. split; [done|]. intros e al [r E].
  by eapply joining_stuck; [..|exact E].
Qed.

End Properties.
