(* ===== verification/Base64.v ===== *)
(** * Base 64 ([main/utils.c])

    The encoders and decoders of base 64 text and of its variant for URLs, and
    the functions that allocate their result.

    - [Model]: the functions of the source.  A buffer is written through a
      cursor; [None] is a read or a write outside an object.  A [char] is signed,
      so a byte above 127 is a negative index of the decoding table.
    - [Groups]: three bytes and four characters.
    - [Properties]: the theorems. *)

From stdpp Require Import base numbers list sets strings.
From Stdlib Require Import ZArith Lia.
From S2P Require Import Prelude Pattern.
Import Pattern.Model.

(** ** A pointer into a buffer that is written from its start *)

Module Cursor.

Record cursor := Cursor { written : list Z; room : list Z }.

Definition offset (w : cursor) : Z := Z.of_nat (length (written w)).
Definition buffer (w : cursor) : list Z := written w ++ room w.

(** [*out++ = c] *)
Definition put (c : Z) (w : cursor) : option cursor :=
  match room w with
  | [] => None
  | _ :: r => Some (Cursor (written w ++ [c]) r)
  end.

(** [*out = c] *)
Definition poke (c : Z) (w : cursor) : option cursor :=
  match room w with
  | [] => None
  | _ :: r => Some (Cursor (written w) (c :: r))
  end.

Fixpoint puts (cs : list Z) (w : cursor) : option cursor :=
  match cs with
  | [] => Some w
  | c :: cs => w ← put c w; puts cs w
  end.

Lemma puts_room cs w :
  (length cs <= length (room w))%nat →
  puts cs w = Some (Cursor (written w ++ cs) (drop (length cs) (room w))).
Proof.
  revert w. induction cs as [|c cs IH]; intros [wr rm] Hl; simpl in *; [by rewrite app_nil_r|].
  destruct rm as [|x rm]; simpl in *; [lia|]. rewrite IH by (simpl; lia). simpl. by rewrite <-app_assoc.
Qed.

Lemma poke_room c w : room w ≠ [] → poke c w = Some (Cursor (written w) (c :: tail (room w))).
Proof. unfold poke. by destruct (room w). Qed.

End Cursor.
Import Cursor.

Module Model.

(** *** The tables *)

(** The loop of [base64_init] writes an array of characters and its inverse. *)
Definition fill_step (tabs : list Z * list Z) (x : nat) : list Z * list Z :=
  let '(enc, dec) := tabs in
  let x' := Z.of_nat x in
  let enc := <[x := 65 + x']> enc in
  let dec := <[(65 + x)%nat := x']> dec in
  let enc := <[(x + 26)%nat := 97 + x']> enc in
  let dec := <[(97 + x)%nat := x' + 26]> dec in
  if bool_decide (x < 10)%nat then (<[(x + 52)%nat := 48 + x']> enc, <[(48 + x)%nat := x' + 52]> dec) else (enc, dec).

(** [memset] with -1, the loop, and the last two characters. *)
Definition base64_init (c62 c63 : nat) : list Z * list Z :=
  let '(enc, dec) := foldl fill_step (replicate 64 0, replicate 256 (-1)) (seq 0 26) in
  (<[63%nat := Z.of_nat c63]> (<[62%nat := Z.of_nat c62]> enc), <[c63 := 63]> (<[c62 := 62]> dec)).

Definition base64 : list Z := Eval vm_compute in (base64_init 43 47).1.
Definition b2a : list Z := Eval vm_compute in (base64_init 43 47).2.
Definition base64url : list Z := Eval vm_compute in (base64_init 45 95).1.
Definition b2a_url : list Z := Eval vm_compute in (base64_init 45 95).2.

Abbreviation EQUALS := 61.
Abbreviation NEWLINE := 10.

Definition ast_strlen_zero (s : cstring) : bool := bool_decide (s = []).

(** *** Decoding *)

(** [pad]: whether [=] ends the text. *)
Fixpoint decode_loop (tab : list Z) (pad : bool) (src : cstring) (max byte bits cnt : Z) (dst : cursor)
    : option (Z * cursor) :=
  match src with
  | [] => Some (cnt, dst)
  | c :: src =>
      if (pad && (c =? EQUALS)) || negb (cnt <? max) then Some (cnt, dst) else
      v ← load tab c;
      let byte := Z.lor (u32 (Z.shiftl byte 6)) (Z.land v 63) in
      let bits := bits + 6 in
      if bits >=? 8 then
        let bits := bits - 8 in
        dst ← put (Z.land (Z.shiftr byte bits) 255) dst;
        decode_loop tab pad src max byte bits (cnt + 1) dst
      else decode_loop tab pad src max byte bits cnt dst
  end.

(** The number of bytes and the buffer. *)
Definition ast_base64decode (dst : list Z) (src : cstring) (max : Z) : option (Z * list Z) :=
  '(cnt, w) ← decode_loop b2a true src max 0 0 0 (Cursor [] dst); Some (cnt, buffer w).

Definition ast_base64url_decode (dst : list Z) (src : cstring) (max : Z) : option (Z * list Z) :=
  '(cnt, w) ← decode_loop b2a_url false src max 0 0 0 (Cursor [] dst); Some (cnt, buffer w).

(** What [malloc] returns for a size: memory with any content. *)
Definition malloc (junk : Z) (size : Z) : list Z := replicate (Z.to_nat size) junk.

Abbreviation u64 := (uwrap 64).

(** [Some None] is NULL. *)
Definition ast_base64decode_string (alloc : bool) (junk : Z) (src : cstring) : option (option (list Z)) :=
  if ast_strlen_zero src then Some None else
  let encoded_len := Z.of_nat (length src) in
  padding ← (if encoded_len >? 2 then
               l ← load src (encoded_len - 1);
               if l =? EQUALS then
                 l2 ← load src (encoded_len - 2);
                 Some (if l2 =? EQUALS then 2 else 1)
               else Some 0
             else Some 0);
  let decoded_len := u64 (Z.quot encoded_len 4 * 3 - padding) in
  if negb alloc then Some None else
  let decoded_string := malloc junk (u64 (decoded_len + 1)) in
  '(_, decoded_string) ← ast_base64decode decoded_string src (s32 decoded_len);
  decoded_string ← store decoded_string decoded_len [0];
  Some (Some decoded_string).

Definition ast_base64url_decode_string (alloc : bool) (junk : Z) (src : cstring) : option (option (list Z)) :=
  if ast_strlen_zero src then Some None else
  let decoded_len := Z.quot (Z.of_nat (length src) * 3) 4 in
  if negb alloc then Some None else
  let decoded_string := malloc junk (decoded_len + 1) in
  '(_, decoded_string) ← ast_base64url_decode decoded_string src (s32 decoded_len);
  decoded_string ← store decoded_string decoded_len [0];
  Some (Some decoded_string).

(** *** Encoding *)

Record enc_state := Enc { e_byte : Z; e_bits : Z; e_cnt : Z; e_col : Z; e_dst : cursor }.

(** The character for six bits of [byte]. *)
Definition sextet (tab : list Z) (byte shift : Z) : option Z := load tab (Z.land (Z.shiftr byte shift) 63).

Definition encode_byte (tab : list Z) (linebreaks : bool) (max c : Z) (s : enc_state) : option enc_state :=
  let byte := Z.lor (u32 (Z.shiftl (e_byte s) 8)) c in
  let bits := e_bits s + 8 in
  s ← (if (bits =? 24) && (e_cnt s + 4 <=? max) then
         c0 ← sextet tab byte 18; c1 ← sextet tab byte 12; c2 ← sextet tab byte 6; c3 ← sextet tab byte 0;
         dst ← puts [c0; c1; c2; c3] (e_dst s);
         Some (Enc 0 0 (e_cnt s + 4) (e_col s + 4) dst)
       else Some (Enc byte bits (e_cnt s) (e_col s) (e_dst s)));
  if linebreaks && (e_cnt s <? max) && (e_col s =? 64) then
    dst ← put NEWLINE (e_dst s); Some (Enc (e_byte s) (e_bits s) (e_cnt s + 1) 0 dst)
  else Some s.

Fixpoint encode_loop (tab : list Z) (linebreaks : bool) (max : Z) (src : list Z) (s : enc_state) : option enc_state :=
  match src with
  | [] => Some s
  | c :: src =>
      if negb (e_cnt s <? max) then Some s else
      s ← encode_byte tab linebreaks max c s; encode_loop tab linebreaks max src s
  end.

(** The remaining bits, with or without padding. *)
Definition encode_rest (tab : list Z) (pad : bool) (max : Z) (s : enc_state) : option enc_state :=
  if negb (e_bits s =? 0) && (e_cnt s + 4 <=? max) then
    let byte := u32 (Z.shiftl (e_byte s) (24 - e_bits s)) in
    c0 ← sextet tab byte 18; c1 ← sextet tab byte 12; c2 ← sextet tab byte 6;
    dst ← puts ([c0; c1] ++ (if e_bits s =? 16 then [c2] else if pad then [EQUALS] else [])
                ++ (if pad then [EQUALS] else [])) (e_dst s);
    Some (Enc byte (e_bits s) (e_cnt s + 4) (e_col s) dst)
  else Some s.

Definition encode_full (tab : list Z) (pad : bool) (dst : list Z) (src : list Z) (max : Z) (linebreaks : bool)
    : option (Z * list Z) :=
  let max := max - 1 in
  s ← encode_loop tab linebreaks max src (Enc 0 0 0 0 (Cursor [] dst));
  s ← encode_rest tab pad max s;
  s ← (if linebreaks && (e_cnt s <? max) then
         dst ← put NEWLINE (e_dst s); Some (Enc (e_byte s) (e_bits s) (e_cnt s + 1) (e_col s) dst)
       else Some s);
  dst ← poke 0 (e_dst s);
  Some (e_cnt s, buffer dst).

(** The count and the buffer; [src] holds the [srclen] bytes. *)
Definition ast_base64encode_full := encode_full base64 true.
Definition ast_base64url_encode_full := encode_full base64url false.

Definition ast_base64encode (dst src : list Z) (max : Z) := ast_base64encode_full dst src max false.
Definition ast_base64url_encode (dst src : list Z) (max : Z) := ast_base64url_encode_full dst src max false.

(** The length of an encoded string with its NUL: [((n * 4 / 3 + 3) & ~3) + 1]. *)
Definition encoded_size (n : Z) : Z := Z.ldiff (Z.quot (n * 4) 3 + 3) 3 + 1.

(** The allocation is not checked: without memory the first write is through NULL. *)
Definition ast_base64encode_string (alloc : bool) (src : cstring) : option (option (list Z)) :=
  if ast_strlen_zero src then Some None else
  let size := encoded_size (Z.of_nat (length src)) in
  if negb alloc then None else
  '(_, s) ← ast_base64encode (malloc 0 size) (u8 <$> src) (s32 size); Some (Some s).

Definition ast_base64url_encode_string (alloc : bool) (junk : Z) (src : cstring) : option (option (list Z)) :=
  if ast_strlen_zero src then Some None else
  let size := encoded_size (Z.of_nat (length src)) in
  if negb alloc then None else
  '(_, s) ← ast_base64url_encode (malloc junk size) (u8 <$> src) (s32 size); Some (Some s).

End Model.

Import Model.

Module Examples.

Example encode_foob : ast_base64encode_string true (cstr "foob") = Some (Some (cstr "Zm9vYg==" ++ [0])).
Proof. reflexivity. Qed.
Example url_foob : ast_base64url_encode_string true 7 (cstr "foob") = Some (Some (cstr "Zm9vYg" ++ [0; 7; 7])).
Proof. reflexivity. Qed.
Example decode_foob : ast_base64decode_string true 7 (cstr "Zm9vYg==") = Some (Some (cstr "foob" ++ [0])).
Proof. reflexivity. Qed.
Example decode_short : ast_base64decode_string true 7 (cstr "ab=") = None.
Proof. reflexivity. Qed.

End Examples.

(** ** Three bytes, four characters *)

Module Groups.

(** An alphabet and its inverse. *)
Class Alphabet (enc dec : list Z) := alphabet_inv : ∀ d, 0 <= d < 64 →
  ∃ c, load enc d = Some c ∧ load dec c = Some d ∧ c ≠ EQUALS ∧ 0 < c < 128.

Definition chr (enc : list Z) (d : Z) : Z := default 0 (load enc d).

Definition inverse_at (enc dec : list Z) (n : nat) : bool :=
  let c := chr enc (Z.of_nat n) in
  bool_decide (load enc (Z.of_nat n) = Some c ∧ load dec c = Some (Z.of_nat n) ∧ c ≠ EQUALS ∧ 0 < c < 128).

Lemma alphabet_check enc dec : forallb (inverse_at enc dec) (seq 0 64) = true → Alphabet enc dec.
Proof.
  rewrite forallb_forall. intros H d Hd. exists (chr enc d).
  specialize (H (Z.to_nat d)). unfold inverse_at in H. rewrite Z2Nat.id in H by lia.
  apply (bool_decide_eq_true_1 _), H, in_seq. lia.
Qed.

#[export] Instance base64_alphabet : Alphabet base64 b2a.
Proof. apply alphabet_check. reflexivity. Qed.
#[export] Instance base64url_alphabet : Alphabet base64url b2a_url.
Proof. apply alphabet_check. reflexivity. Qed.

Definition is_byte (c : Z) : Prop := 0 <= c < 256.

(** The sextets of three bytes. *)
Definition sextets (a b c : Z) : list Z :=
  let v := a * 65536 + b * 256 + c in [v / 262144; v / 4096 mod 64; v / 64 mod 64; v mod 64].

(** The text for a list of bytes: four characters for each three bytes; the
    last one or two bytes make two or three, with or without padding. *)
Fixpoint text (enc : list Z) (pad : bool) (bs : list Z) : list Z :=
  match bs with
  | a :: b :: c :: bs => (chr enc <$> sextets a b c) ++ text enc pad bs
  | [a; b] => (chr enc <$> take 3 (sextets a b 0)) ++ (if pad then [EQUALS] else [])
  | [a] => (chr enc <$> take 2 (sextets a 0 0)) ++ (if pad then [EQUALS; EQUALS] else [])
  | [] => []
  end.

(** Induction by groups. *)
Lemma groups_ind (P : list Z → Prop) :
  P [] → (∀ a, P [a]) → (∀ a b, P [a; b]) → (∀ a b c bs, P bs → P (a :: b :: c :: bs)) → ∀ bs, P bs.
Proof.
  intros H0 H1 H2 H3. fix IH 1. intros [|a [|b [|c bs]]]; [done|apply H1|apply H2|apply H3, IH].
Qed.

Lemma sextets_range a b c : is_byte a → is_byte b → is_byte c → Forall (λ d, 0 <= d < 64) (sextets a b c).
Proof.
  unfold is_byte, sextets. intros. repeat constructor; (Z.to_euclidean_division_equations; lia).
Qed.

Section Alphabet.
Context {enc dec : list Z} `{!Alphabet enc dec}.

Lemma chr_load d : 0 <= d < 64 → load enc d = Some (chr enc d) ∧ load dec (chr enc d) = Some d ∧ chr enc d ≠ EQUALS
  ∧ 0 < chr enc d < 128.
Proof. intros Hd. destruct (alphabet_inv d Hd) as (c&E&?). unfold chr. rewrite E. done. Qed.

(** *** Encoding *)

(** The bytes of a group, as they are shifted in. *)
Lemma shift_in x c : 0 <= x < 2 ^ 24 → is_byte c → Z.lor (u32 (Z.shiftl x 8)) c = x * 256 + c.
Proof.
  unfold is_byte. intros Hx Hc. rewrite uwrap_small by (rewrite Z.shiftl_mul_pow2 by lia; lia).
  by rewrite lor_shiftl_add.
Qed.

Lemma sextet_chr x n : 0 <= n → 0 <= x → sextet enc x n = Some (chr enc (x / 2 ^ n mod 64)).
Proof.
  intros Hn Hx. unfold sextet. rewrite Z.shiftr_div_pow2 by done. change 63 with (Z.ones 6).
  rewrite Z.land_ones by lia. apply chr_load. apply Z.mod_pos_bound. lia.
Qed.

(** The sextets of a 24 bit value. *)
Lemma value_sextets a b c :
  is_byte a → is_byte b → is_byte c →
  let v := (a * 256 + b) * 256 + c in
  [v / 2 ^ 18 mod 64; v / 2 ^ 12 mod 64; v / 2 ^ 6 mod 64; v / 2 ^ 0 mod 64] = sextets a b c.
Proof.
  unfold is_byte, sextets. intros Ha Hb Hc. simpl.
  replace ((a * 256 + b) * 256 + c) with (a * 65536 + b * 256 + c) by lia.
  rewrite Z.div_1_r. change (2 ^ 18) with 262144. change (2 ^ 12) with 4096. change (2 ^ 6) with 64.
  f_equal. apply Z.mod_small. Z.to_euclidean_division_equations; lia.
Qed.

Lemma encode_byte_keep max a s :
  e_bits s + 8 ≠ 24 →
  encode_byte enc false max a s =
    Some (Enc (Z.lor (u32 (Z.shiftl (e_byte s) 8)) a) (e_bits s + 8) (e_cnt s) (e_col s) (e_dst s)).
Proof. intros Hb. unfold encode_byte. destruct (Z.eqb_spec (e_bits s + 8) 24); done. Qed.

Lemma encode_group max a b c cnt col wr rm bs :
  is_byte a → is_byte b → is_byte c → cnt + 4 <= max → (4 <= length rm)%nat →
  encode_loop enc false max (a :: b :: c :: bs) (Enc 0 0 cnt col (Cursor wr rm))
  = encode_loop enc false max bs (Enc 0 0 (cnt + 4) (col + 4) (Cursor (wr ++ (chr enc <$> sextets a b c)) (drop 4 rm))).
Proof.
  intros Ha Hb Hc Hm Hr. assert ((cnt <? max) = true) as Hlt by (apply Z.ltb_lt; lia).
  unfold is_byte in *.
  cbn [encode_loop e_cnt]. rewrite Hlt. cbn [negb]. rewrite encode_byte_keep by done. cbn [mbind option_bind e_byte e_bits e_cnt e_col e_dst].
  rewrite Hlt. cbn [negb]. rewrite shift_in by (unfold is_byte; lia).
  rewrite encode_byte_keep by done. cbn [mbind option_bind e_byte e_bits e_cnt e_col e_dst].
  rewrite Hlt. cbn [negb]. rewrite shift_in by (unfold is_byte; lia).
  unfold encode_byte. cbn [e_byte e_bits e_cnt e_col e_dst]. rewrite shift_in by (unfold is_byte; lia).
  replace (cnt + 4 <=? max) with true by (symmetry; apply Z.leb_le; lia). cbn [andb Z.add Z.eqb Pos.add Pos.eqb Pos.succ].
  rewrite !sextet_chr by lia. cbn [mbind option_bind].
  rewrite puts_room by (simpl; lia). cbn [mbind option_bind written room]. f_equal. f_equal. f_equal.
  rewrite <-(value_sextets a b c) by done. done.
Qed.

(** Groups of three bytes, a last incomplete one included. *)
Definition blocks (bs : list Z) : Z := (Z.of_nat (length bs) + 2) / 3.

Lemma blocks_cons a b c bs : blocks (a :: b :: c :: bs) = blocks bs + 1.
Proof. unfold blocks. simpl length. Z.to_euclidean_division_equations; lia. Qed.

Lemma blocks_nonneg bs : 0 <= blocks bs.
Proof. unfold blocks. apply Z.div_pos; lia. Qed.

Lemma text_length pad bs :
  Z.of_nat (length (text enc pad bs)) = if pad then 4 * blocks bs else (4 * Z.of_nat (length bs) + 2) / 3.
Proof.
  induction bs as [|a|a b|a b c bs IH] using groups_ind; [by destruct pad..|]. cbn [text].
  rewrite length_app, length_fmap, Nat2Z.inj_add, IH, blocks_cons. simpl length. destruct pad; [lia|].
  Z.to_euclidean_division_equations; lia.
Qed.

(** The rest of a group, shifted to its place. *)
Lemma encode_rest_one pad max a cnt col wr rm :
  is_byte a → cnt + 4 <= max → (length (text enc pad [a]) <= length rm)%nat →
  ∃ x, encode_rest enc pad max (Enc a 8 cnt col (Cursor wr rm))
    = Some (Enc x 8 (cnt + 4) col (Cursor (wr ++ text enc pad [a]) (drop (length (text enc pad [a])) rm))).
Proof.
  unfold is_byte. intros Ha Hm Hr. unfold encode_rest. cbn [e_byte e_bits e_cnt e_col e_dst].
  replace (cnt + 4 <=? max) with true by (symmetry; apply Z.leb_le; lia). cbn [negb andb Z.eqb].
  rewrite Z.shiftl_mul_pow2 by lia. change (2 ^ (24 - 8)) with 65536. rewrite uwrap_small by lia.
  rewrite !sextet_chr by lia. cbn [mbind option_bind Z.eqb Pos.eqb].
  pose proof (value_sextets a 0 0) as E. cbv zeta in E.
  replace ((a * 256 + 0) * 256 + 0) with (a * 65536) in E by lia.
  specialize (E ltac:(done) ltac:(done) ltac:(done)).
  assert (text enc pad [a] = [chr enc (a * 65536 / 2 ^ 18 mod 64); chr enc (a * 65536 / 2 ^ 12 mod 64)]
    ++ (if pad then [EQUALS] else []) ++ (if pad then [EQUALS] else [])) as Et
    by (cbn [text]; rewrite <-E; by destruct pad).
  exists (a * 65536). rewrite <-Et. rewrite puts_room by done. done.
Qed.

Lemma encode_rest_two pad max a b cnt col wr rm :
  is_byte a → is_byte b → cnt + 4 <= max → (length (text enc pad [a; b]) <= length rm)%nat →
  ∃ x, encode_rest enc pad max (Enc (a * 256 + b) 16 cnt col (Cursor wr rm))
    = Some (Enc x 16 (cnt + 4) col (Cursor (wr ++ text enc pad [a; b]) (drop (length (text enc pad [a; b])) rm))).
Proof.
  unfold is_byte. intros Ha Hb Hm Hr. unfold encode_rest. cbn [e_byte e_bits e_cnt e_col e_dst].
  replace (cnt + 4 <=? max) with true by (symmetry; apply Z.leb_le; lia). cbn [negb andb Z.eqb].
  rewrite Z.shiftl_mul_pow2 by lia. change (2 ^ (24 - 16)) with 256. rewrite uwrap_small by lia.
  rewrite !sextet_chr by lia. cbn [mbind option_bind Z.eqb Pos.eqb].
  pose proof (value_sextets a b 0) as E. cbv zeta in E. rewrite Z.add_0_r in E.
  specialize (E ltac:(done) ltac:(done) ltac:(done)).
  assert (text enc pad [a; b] = [chr enc ((a * 256 + b) * 256 / 2 ^ 18 mod 64);
      chr enc ((a * 256 + b) * 256 / 2 ^ 12 mod 64)] ++ [chr enc ((a * 256 + b) * 256 / 2 ^ 6 mod 64)]
    ++ (if pad then [EQUALS] else [])) as Et
    by (cbn [text]; rewrite <-E; by destruct pad).
  exists ((a * 256 + b) * 256). rewrite <-Et. rewrite puts_room by done. done.
Qed.

(** All bytes, when there is room for the text. *)
Lemma encode_all pad max bs cnt col wr rm :
  Forall is_byte bs → cnt + 4 * blocks bs <= max → (length (text enc pad bs) <= length rm)%nat →
  ∃ s s', encode_loop enc false max bs (Enc 0 0 cnt col (Cursor wr rm)) = Some s ∧ encode_rest enc pad max s = Some s'
    ∧ e_cnt s' = cnt + 4 * blocks bs
    ∧ e_dst s' = Cursor (wr ++ text enc pad bs) (drop (length (text enc pad bs)) rm).
Proof.
  revert cnt col wr rm. induction bs as [|a|a b|a b c bs IH] using groups_ind; intros cnt col wr rm Hf Hm Hr.
  - eexists _, _. split; [done|]. split; [done|]. change (blocks []) with 0. cbn [e_cnt e_dst text length drop].
    rewrite app_nil_r. split; [lia|done].
  - change (blocks [a]) with 1 in *. inversion_clear Hf.
    assert ((cnt <? max) = true) as Hlt by (apply Z.ltb_lt; lia).
    cbn [encode_loop e_cnt]. rewrite Hlt. cbn [negb]. rewrite encode_byte_keep by done.
    cbn [mbind option_bind e_byte e_bits e_cnt e_col e_dst]. rewrite shift_in by done. cbn [Z.mul Z.add].
    destruct (encode_rest_one pad max a cnt col wr rm) as [x E]; [done|lia|done|]. eexists _, _. split; [done|].
    split; [exact E|]. simpl. split; [lia|done].
  - change (blocks [a; b]) with 1 in *. inversion_clear Hf as [|? ? Ha Hf']. inversion_clear Hf'.
    assert ((cnt <? max) = true) as Hlt by (apply Z.ltb_lt; lia).
    cbn [encode_loop e_cnt]. rewrite Hlt. cbn [negb]. rewrite encode_byte_keep by done.
    cbn [mbind option_bind e_byte e_bits e_cnt e_col e_dst]. rewrite Hlt. cbn [negb].
    rewrite encode_byte_keep by done. cbn [mbind option_bind e_byte e_bits e_cnt e_col e_dst].
    rewrite (shift_in 0 a) by done. rewrite shift_in by (unfold is_byte in *; done || lia). cbn [Z.mul Z.add].
    destruct (encode_rest_two pad max a b cnt col wr rm) as [x E]; [done|done|lia|done|]. eexists _, _. split; [done|].
    split; [exact E|]. simpl. split; [lia|done].
  - rewrite blocks_cons in *. pose proof (blocks_nonneg bs). inversion_clear Hf as [|? ? Ha Hf1].
    inversion_clear Hf1 as [|? ? Hb Hf2]. inversion_clear Hf2 as [|? ? Hc Hf3].
    cbn [text] in Hr. rewrite length_app, length_fmap in Hr. simpl in Hr.
    rewrite encode_group by (done || lia).
    destruct (IH (cnt + 4) (col + 4) (wr ++ (chr enc <$> sextets a b c)) (drop 4 rm)) as (s&s'&E1&E2&E3&E4);
      [done|lia|rewrite length_drop; lia|].
    exists s, s'. split_and!; [done|done|lia|]. rewrite E4. cbn [text]. rewrite <-app_assoc. f_equal.
    rewrite length_app, length_fmap, drop_drop. done.
Qed.

(** *** Decoding *)

Lemma decode_char pad d src max byte bits cnt dst :
  0 <= d < 64 → cnt < max → 0 <= byte →
  decode_loop dec pad (chr enc d :: src) max byte bits cnt dst
  = (let byte := (byte mod 67108864) * 64 + d in
     if bits + 6 >=? 8 then
       dst ← put (byte / 2 ^ (bits - 2) mod 256) dst;
       decode_loop dec pad src max byte (bits - 2) (cnt + 1) dst
     else decode_loop dec pad src max byte (bits + 6) cnt dst).
Proof.
  intros Hd Hlt Hb. destruct (chr_load d Hd) as (_&El&Hne&_). cbn [decode_loop].
  replace (chr enc d =? EQUALS) with false by (symmetry; by apply Z.eqb_neq).
  replace (cnt <? max) with true by (symmetry; by apply Z.ltb_lt). rewrite andb_false_r. cbn [orb negb].
  rewrite El. cbn [mbind option_bind].
  assert (Z.lor (u32 (Z.shiftl byte 6)) (Z.land d 63) = byte mod 67108864 * 64 + d) as ->.
  { change 63 with (Z.ones 6). rewrite Z.land_ones, Z.mod_small by lia.
    assert (u32 (Z.shiftl byte 6) = Z.shiftl (byte mod 67108864) 6) as ->.
    { unfold uwrap. rewrite !Z.shiftl_mul_pow2 by lia. change (2 ^ 32) with (67108864 * 2 ^ 6).
      by rewrite Z.mul_mod_distr_r by done. }
    by rewrite lor_shiftl_add. }
  cbv zeta. destruct (Z.geb_spec (bits + 6) 8); [|done].
  replace (bits + 6 - 8) with (bits - 2) by lia. change 255 with (Z.ones 8).
  rewrite Z.land_ones, Z.shiftr_div_pow2 by lia. done.
Qed.

(** The bytes of the characters of a group. *)
Lemma sextets_bytes a b c :
  is_byte a → is_byte b → is_byte c →
  let v := a * 65536 + b * 256 + c in
  let d0 := v / 262144 in let d1 := v / 4096 mod 64 in let d2 := v / 64 mod 64 in let d3 := v mod 64 in
  d0 * 4 + d1 / 16 = a ∧ d1 mod 16 * 16 + d2 / 4 = b ∧ d2 mod 4 * 64 + d3 = c.
Proof. unfold is_byte. intros Ha Hb Hc. cbv zeta. split_and!; Z.to_euclidean_division_equations; lia. Qed.

Lemma put_room c w : room w ≠ [] → put c w = Some (Cursor (written w ++ [c]) (drop 1 (room w))).
Proof. unfold put. by destruct (room w). Qed.

(** The first two characters of a group, the third and the fourth give a byte
    each; [byte] keeps the last character. *)
Lemma decode_two pad d0 d1 src max byte cnt wr rm :
  0 <= d0 < 64 → 0 <= d1 < 64 → cnt < max → 0 <= byte → rm ≠ [] →
  ∃ y, 0 <= y ∧ decode_loop dec pad (chr enc d0 :: chr enc d1 :: src) max byte 0 cnt (Cursor wr rm)
    = decode_loop dec pad src max (y * 64 + d1) 4 (cnt + 1) (Cursor (wr ++ [d0 * 4 + d1 / 16]) (drop 1 rm)).
Proof.
  intros H0 H1 Hlt Hb Hr. pose proof (Z.mod_pos_bound byte 67108864 ltac:(done)) as Hm.
  rewrite decode_char by lia. cbv zeta. change (0 + 6 >=? 8) with false. cbv iota. change (0 + 6) with 6.
  rewrite decode_char by lia. cbv zeta. change (6 + 6 >=? 8) with true. cbv iota. change (6 - 2) with 4.
  change (2 ^ 4) with 16. generalize dependent (byte mod 67108864). intros z Hz.
  exists ((z * 64 + d0) mod 67108864). split; [apply Z.mod_pos_bound; lia|].
  replace (((z * 64 + d0) mod 67108864 * 64 + d1) / 16 mod 256) with (d0 * 4 + d1 / 16)
    by (Z.to_euclidean_division_equations; lia).
  by rewrite put_room.
Qed.

Lemma decode_third pad d1 d2 src max y cnt wr rm :
  0 <= d1 < 64 → 0 <= d2 < 64 → cnt < max → 0 <= y → rm ≠ [] →
  ∃ y', 0 <= y' ∧ decode_loop dec pad (chr enc d2 :: src) max (y * 64 + d1) 4 cnt (Cursor wr rm)
    = decode_loop dec pad src max (y' * 64 + d2) 2 (cnt + 1) (Cursor (wr ++ [d1 mod 16 * 16 + d2 / 4]) (drop 1 rm)).
Proof.
  intros H1 H2 Hlt Hy Hr. rewrite decode_char by lia. cbv zeta. change (4 + 6 >=? 8) with true. cbv iota.
  change (4 - 2) with 2. change (2 ^ 2) with 4. exists ((y * 64 + d1) mod 67108864).
  split; [apply Z.mod_pos_bound; lia|].
  replace (((y * 64 + d1) mod 67108864 * 64 + d2) / 4 mod 256) with (d1 mod 16 * 16 + d2 / 4)
    by (Z.to_euclidean_division_equations; lia).
  by rewrite put_room.
Qed.

Lemma decode_fourth pad d2 d3 src max y cnt wr rm :
  0 <= d2 < 64 → 0 <= d3 < 64 → cnt < max → 0 <= y → rm ≠ [] →
  ∃ byte, 0 <= byte ∧ decode_loop dec pad (chr enc d3 :: src) max (y * 64 + d2) 2 cnt (Cursor wr rm)
    = decode_loop dec pad src max byte 0 (cnt + 1) (Cursor (wr ++ [d2 mod 4 * 64 + d3]) (drop 1 rm)).
Proof.
  intros H2 H3 Hlt Hy Hr. rewrite decode_char by lia. cbv zeta. change (2 + 6 >=? 8) with true. cbv iota.
  change (2 - 2) with 0. change (2 ^ 0) with 1. exists ((y * 64 + d2) mod 67108864 * 64 + d3).
  split; [pose proof (Z.mod_pos_bound (y * 64 + d2) 67108864 ltac:(done)); lia|].
  replace (((y * 64 + d2) mod 67108864 * 64 + d3) / 1 mod 256) with (d2 mod 4 * 64 + d3)
    by (Z.to_euclidean_division_equations; lia).
  by rewrite put_room.
Qed.

Lemma decode_text pad max bs byte cnt wr rm :
  0 <= byte → Forall is_byte bs → cnt + Z.of_nat (length bs) <= max → (length bs <= length rm)%nat →
  decode_loop dec pad (text enc pad bs) max byte 0 cnt (Cursor wr rm)
  = Some (cnt + Z.of_nat (length bs), Cursor (wr ++ bs) (drop (length bs) rm)).
Proof.
  revert byte cnt wr rm. induction bs as [|a|a b|a b c bs IH] using groups_ind; intros byte cnt wr rm Hby Hf Hm Hr.
  - simpl. by rewrite Z.add_0_r, app_nil_r.
  - inversion_clear Hf as [|? ? Ha _]. simpl in Hm, Hr.
    pose proof (sextets_range a 0 0 Ha ltac:(done) ltac:(done)) as Hs.
    destruct (sextets_bytes a 0 0 Ha ltac:(done) ltac:(done)) as (E1&_&_). unfold sextets in Hs.
    inversion_clear Hs as [|? ? H0 Hs1]. inversion_clear Hs1 as [|? ? H1 _]. cbn [text]. unfold sextets. cbv zeta. cbn [take]. rewrite !fmap_cons, fmap_nil. cbn [app].
    destruct (decode_two pad _ _ (if pad then [EQUALS; EQUALS] else []) max byte cnt wr rm H0 H1)
      as (y&Hy&E); [lia|lia|destruct rm; simpl in *; [lia|done]|]. cbv zeta in *. rewrite E1 in E.
    etrans; [exact E|]. destruct pad; reflexivity.
  - inversion_clear Hf as [|? ? Ha Hf']. inversion_clear Hf' as [|? ? Hb _]. simpl in Hm, Hr.
    pose proof (sextets_range a b 0 Ha Hb ltac:(done)) as Hs.
    destruct (sextets_bytes a b 0 Ha Hb ltac:(done)) as (E1&E2&_). unfold sextets in Hs.
    inversion_clear Hs as [|? ? H0 Hs1]. inversion_clear Hs1 as [|? ? H1 Hs2]. inversion_clear Hs2 as [|? ? H2 _].
    cbn [text]. unfold sextets. cbv zeta. cbn [take]. rewrite !fmap_cons, fmap_nil. cbn [app]. cbv zeta in *.
    destruct rm as [|r0 [|r1 rm]]; try (simpl in Hr; lia).
    edestruct (decode_two pad) as (y&Hy&E); [exact H0|exact H1| | | |etrans; [exact E|]]; [lia|done|done|]. clear E.
    rewrite E1. cbn [drop].
    edestruct (decode_third pad) as (y'&Hy'&E); [exact H1|exact H2| | | |etrans; [exact E|]]; [lia|done|done|]. clear E.
    rewrite E2, <-app_assoc. replace (cnt + 1 + 1) with (cnt + 2) by lia. destruct pad; reflexivity.
  - inversion_clear Hf as [|? ? Ha Hf1]. inversion_clear Hf1 as [|? ? Hb Hf2]. inversion_clear Hf2 as [|? ? Hc Hf3].
    simpl length in Hm, Hr. pose proof (sextets_range a b c Ha Hb Hc) as Hs.
    destruct (sextets_bytes a b c Ha Hb Hc) as (E1&E2&E3). unfold sextets in Hs.
    inversion_clear Hs as [|? ? H0 Hs1]. inversion_clear Hs1 as [|? ? H1 Hs2]. inversion_clear Hs2 as [|? ? H2 Hs3].
    inversion_clear Hs3 as [|? ? H3 _]. cbn [text]. unfold sextets. cbv zeta. cbn [take]. rewrite !fmap_cons, fmap_nil. cbn [app]. cbv zeta in *.
    destruct rm as [|r0 [|r1 [|r2 rm]]]; try (simpl in Hr; lia).
    edestruct (decode_two pad) as (y&Hy&E); [exact H0|exact H1| | | |etrans; [exact E|]]; [lia|done|done|]. clear E.
    rewrite E1. cbn [drop].
    edestruct (decode_third pad) as (y'&Hy'&E); [exact H1|exact H2| | | |etrans; [exact E|]]; [lia|done|done|]. clear E.
    rewrite E2. cbn [drop].
    edestruct (decode_fourth pad) as (z&Hz&E); [exact H2|exact H3| | | |etrans; [exact E|]]; [lia|done|done|]. clear E.
    rewrite E3. change (drop 1 (r2 :: rm)) with (drop 0 rm). rewrite drop_0, IH; [|done|done|lia|simpl in Hr; lia].
    replace (cnt + 1 + 1 + 1 + Z.of_nat (length bs)) with (cnt + Z.of_nat (length (a :: b :: c :: bs)))
      by (simpl length; lia). by rewrite <-!app_assoc.
Qed.

End Alphabet.
End Groups.

Module Safety.
Import Groups.

(** The characters written are counted, and stay before the last of [max]. *)
Definition in_room (size max : Z) (s : enc_state) : Prop :=
  0 <= e_byte s ∧ offset (e_dst s) <= e_cnt s <= max ∧ offset (e_dst s) + Z.of_nat (length (room (e_dst s))) = size.

Lemma puts_in_room cs w :
  Z.of_nat (length cs) <= Z.of_nat (length (room w)) →
  ∃ w', puts cs w = Some w' ∧ offset w' = offset w + Z.of_nat (length cs)
    ∧ offset w' + Z.of_nat (length (room w')) = offset w + Z.of_nat (length (room w)).
Proof.
  intros H. rewrite puts_room by lia. eexists. split; [done|]. unfold offset. simpl.
  rewrite length_app, length_drop. lia.
Qed.

Lemma put_in_room c w :
  0 < Z.of_nat (length (room w)) →
  ∃ w', put c w = Some w' ∧ offset w' = offset w + 1
    ∧ offset w' + Z.of_nat (length (room w')) = offset w + Z.of_nat (length (room w)).
Proof.
  intros H. destruct (puts_in_room [c] w) as (w'&E&?&?); [simpl; lia|]. exists w'. split; [|done].
  simpl in E. by destruct (put c w).
Qed.

Lemma lor_nonneg a b : 0 <= a → 0 <= b → 0 <= Z.lor a b.
Proof. by rewrite Z.lor_nonneg. Qed.

Section Encode.
Context {enc dec : list Z} `{!Alphabet enc dec}.

Lemma encode_byte_safe linebreaks size max c s :
  max < size → 0 <= c → in_room size max s → e_cnt s < max →
  ∃ s', encode_byte enc linebreaks max c s = Some s' ∧ in_room size max s'.
Proof.
  intros Hm Hc (Hb&Ho&Hr) Hlt. unfold encode_byte.
  set (byte := Z.lor (u32 (Z.shiftl (e_byte s) 8)) c).
  assert (0 <= byte) as Hby by (apply lor_nonneg; [apply uwrap_range; lia|done]).
  match goal with |- ∃ s', (?X ≫= _) = _ ∧ _ => assert (∃ s1, X = Some s1 ∧ in_room size max s1) as (s1&->&Hs1) end.
  { destruct (_ && _) eqn:E.
    - apply andb_true_iff in E as [_ E%Z.leb_le]. rewrite !(sextet_chr (enc:=enc)) by lia. cbn [mbind option_bind].
      destruct (puts_in_room [chr enc (byte / 2 ^ 18 mod 64); chr enc (byte / 2 ^ 12 mod 64); chr enc (byte / 2 ^ 6 mod 64);
        chr enc (byte / 2 ^ 0 mod 64)] (e_dst s)) as (w'&->&Hw&Hw'); [simpl; lia|].
      eexists. split; [done|]. unfold in_room. simpl in *. lia.
    - eexists. split; [done|]. unfold in_room. simpl. lia. }
  cbn [mbind option_bind]. destruct Hs1 as (Hb1&Ho1&Hr1). destruct (_ && _ && _) eqn:E; [|by eexists].
  rewrite !andb_true_iff in E. destruct E as [[_ E%Z.ltb_lt] _].
  destruct (put_in_room NEWLINE (e_dst s1)) as (w'&->&Hw&Hw'); [lia|]. eexists. split; [done|]. unfold in_room. simpl. lia.
Qed.

Lemma encode_loop_safe linebreaks size max src s :
  max < size → Forall (λ c, 0 <= c) src → in_room size max s →
  ∃ s', encode_loop enc linebreaks max src s = Some s' ∧ in_room size max s'.
Proof.
  intros Hm Hf. revert s. induction Hf as [|c src Hc Hf IH]; intros s Hs; [by eexists|]. cbn [encode_loop].
  destruct (Z.ltb_spec (e_cnt s) max); [|by eexists]. cbn [negb].
  destruct (encode_byte_safe linebreaks size max c s) as (s'&->&Hs'); [done..|]. by apply IH.
Qed.

Lemma encode_rest_safe pad size max s :
  max < size → in_room size max s → ∃ s', encode_rest enc pad max s = Some s' ∧ in_room size max s'.
Proof.
  intros Hm (Hb&Ho&Hr). unfold encode_rest. destruct (_ && _) eqn:E; [|by eexists].
  apply andb_true_iff in E as [_ E%Z.leb_le]. pose proof (uwrap_range 32 (Z.shiftl (e_byte s) (24 - e_bits s)) ltac:(lia)).
  rewrite !(sextet_chr (enc:=enc)) by lia. cbn [mbind option_bind].
  match goal with |- context [puts ?l _] => destruct (puts_in_room l (e_dst s)) as (w'&->&Hw&Hw');
    [|assert (Z.of_nat (length l) <= 4)] end.
  1, 2: destruct (e_bits s =? 16), pad; simpl; lia.
  eexists. split; [done|]. unfold in_room. cbn [e_byte e_cnt e_dst]. lia.
Qed.

Lemma encode_full_safe pad dst src max linebreaks :
  Forall (λ c, 0 <= c) src → 1 <= max <= Z.of_nat (length dst) →
  ∃ cnt buf, encode_full enc pad dst src max linebreaks = Some (cnt, buf)
    ∧ 0 <= cnt < max ∧ length buf = length dst ∧ ∃ txt, (txt ++ [0]) `prefix_of` buf ∧ Z.of_nat (length txt) <= cnt.
Proof.
  intros Hf Hm. unfold encode_full. set (size := Z.of_nat (length dst)) in *.
  destruct (encode_loop_safe linebreaks size (max - 1) src (Enc 0 0 0 0 (Cursor [] dst))) as (s1&->&Hs1);
    [lia|done|unfold in_room, offset; simpl; lia|]. cbn [mbind option_bind].
  destruct (encode_rest_safe pad size (max - 1) s1) as (s2&->&Hs2); [lia|done|]. cbn [mbind option_bind].
  match goal with |- ∃ _ _, (?X ≫= _) = _ ∧ _ => assert (∃ s3, X = Some s3 ∧ in_room size (max - 1) s3) as (s3&->&Hs3) end.
  { destruct Hs2 as (?&?&?). destruct (_ && _) eqn:E; [|by eexists]. apply andb_true_iff in E as [_ E%Z.ltb_lt].
    destruct (put_in_room NEWLINE (e_dst s2)) as (w'&->&?&?); [lia|]. eexists. split; [done|]. unfold in_room. simpl. lia. }
  cbn [mbind option_bind]. destruct Hs3 as (?&Ho&Hr). destruct (e_dst s3) as [wr rm]. unfold offset in *.
  cbn [written room] in *. destruct rm as [|r rm]; [simpl in Hr; lia|]. cbn [poke mbind option_bind room written].
  eexists _, _. split; [done|]. unfold buffer. cbn [written room]. simpl in Hr. split; [lia|].
  split; [rewrite length_app; simpl; lia|]. exists wr. split; [|lia]. exists rm. by rewrite <-app_assoc.
Qed.

End Encode.
End Safety.

Module Strings.
Import Groups.

Lemma tail_drop {A} n (l : list A) : tail (drop n l) = drop (S n) l.
Proof. revert l. induction n as [|n IH]; intros [|x l]; try done. simpl. rewrite IH. by destruct l. Qed.

Section Roundtrip.
Context {enc dec : list Z} `{!Alphabet enc dec}.

(** A buffer that is large enough holds the text. *)
Lemma encode_full_text pad dst bs max :
  Forall is_byte bs → 4 * blocks bs < max → max <= Z.of_nat (length dst) →
  encode_full enc pad dst bs max false =
    Some (4 * blocks bs, text enc pad bs ++ 0 :: drop (S (length (text enc pad bs))) dst).
Proof.
  intros Hf Hm Hl. unfold encode_full.
  assert (Z.of_nat (length (text enc pad bs)) <= 4 * blocks bs) as Ht.
  { rewrite (text_length pad bs). destruct pad; [done|]. unfold blocks. Z.to_euclidean_division_equations; lia. }
  destruct (encode_all pad (max - 1) bs 0 0 [] dst) as (s&s'&->&E2&E3&E4); [done|lia|lia|]. cbn [mbind option_bind].
  rewrite E2. cbn [mbind option_bind andb]. rewrite E4, E3. rewrite poke_room.
  - cbn [mbind option_bind]. unfold buffer. cbn [written room]. do 2 f_equal. cbn [app]. f_equal. f_equal.
    by rewrite tail_drop.
  - cbn [room]. intros E. apply (f_equal length) in E. rewrite length_drop in E. simpl in E. lia.
Qed.

(** The bytes come back, when the buffer and the limit have room for them. *)
Lemma decode_text_buffer pad dst bs max :
  Forall is_byte bs → Z.of_nat (length bs) <= max → (length bs <= length dst)%nat →
  ('(cnt, w) ← decode_loop dec pad (text enc pad bs) max 0 0 0 (Cursor [] dst); Some (cnt, buffer w))
  = Some (Z.of_nat (length bs), bs ++ drop (length bs) dst).
Proof. intros Hf Hm Hl. by rewrite decode_text. Qed.

(** The last two characters of a padded text. *)
Lemma text_end bs :
  bs ≠ [] → Forall is_byte bs →
  ∃ t x y, text enc true bs = t ++ [x; y]
    ∧ (if y =? EQUALS then if x =? EQUALS then 2 else 1 else 0) = 3 * blocks bs - Z.of_nat (length bs).
Proof.
  intros Hne Hf. induction bs as [|a|a b|a b c bs IH] using groups_ind; [done|..].
  - by exists (chr enc <$> take 2 (sextets a 0 0)), EQUALS, EQUALS.
  - inversion_clear Hf as [|? ? Ha Hf1]. inversion_clear Hf1 as [|? ? Hb _].
    pose proof (sextets_range a b 0 Ha Hb ltac:(done)) as Hs. unfold sextets in Hs.
    inversion_clear Hs as [|? ? _ Hs1]. inversion_clear Hs1 as [|? ? _ Hs2]. inversion_clear Hs2 as [|? ? H2 _].
    destruct (chr_load _ H2) as (_&_&Hx&_).
    eexists (chr enc <$> take 2 (sextets a b 0)), _, EQUALS. split; [done|]. simpl.
    by destruct (Z.eqb_spec (chr enc ((a * 65536 + b * 256 + 0) / 64 mod 64)) EQUALS).
  - rewrite blocks_cons. inversion_clear Hf as [|? ? Ha Hf1]. inversion_clear Hf1 as [|? ? Hb Hf2].
    inversion_clear Hf2 as [|? ? Hc Hf3]. destruct (decide (bs = [])) as [->|Hbs].
    + pose proof (sextets_range a b c Ha Hb Hc) as Hs. unfold sextets in Hs. apply Forall_app with (l1 := [_; _; _]) in Hs as [_ Hs].
      inversion_clear Hs as [|? ? H3 _]. destruct (chr_load _ H3) as (_&_&Hx&_).
      eexists (chr enc <$> take 2 (sextets a b c)), _, _. split; [done|]. simpl.
      by destruct (Z.eqb_spec (chr enc ((a * 65536 + b * 256 + c) mod 64)) EQUALS).
    + destruct IH as (t&x&y&E&Ep); [done..|]. exists ((chr enc <$> sextets a b c) ++ t), x, y. cbn [text].
      rewrite E, app_assoc. split; [done|]. rewrite Ep. simpl length. lia.
Qed.

Lemma text_nonempty pad bs : bs ≠ [] → text enc pad bs ≠ [].
Proof. by destruct bs as [|a [|b [|c bs]]]. Qed.

(** No character of a text ends it. *)
Lemma text_chars pad bs : Forall is_byte bs → Forall (λ c, c ≠ 0) (text enc pad bs).
Proof.
  induction bs as [|a|a b|a b c bs IH] using groups_ind; intros Hf; [done|..].
  all: inversion_clear Hf as [|? ? Ha Hf1]; try (inversion_clear Hf1 as [|? ? Hb Hf2]);
    try (inversion_clear Hf2 as [|? ? Hc Hf3]).
  1: pose proof (sextets_range a 0 0 Ha ltac:(done) ltac:(done)) as Hs.
  2: pose proof (sextets_range a b 0 Ha Hb ltac:(done)) as Hs.
  3: pose proof (sextets_range a b c Ha Hb Hc) as Hs.
  all: cbn [text]; apply Forall_app; split; [|by destruct pad; repeat constructor || auto].
  all: apply Forall_fmap; try (apply Forall_take); eapply Forall_impl; [exact Hs|]; intros d Hd;
    destruct (chr_load d Hd) as (_&_&_&?); simpl; lia.
Qed.

End Roundtrip.

Lemma encoded_size_blocks bs : encoded_size (Z.of_nat (length bs)) = 4 * blocks bs + 1.
Proof.
  unfold encoded_size, blocks. rewrite Z.quot_div_nonneg by lia. change 3 with (Z.ones 2) at 3.
  rewrite Z.ldiff_ones_r, Z.shiftr_div_pow2, Z.shiftl_mul_pow2 by lia. change (2 ^ 2) with 4.
  Z.to_euclidean_division_equations; lia.
Qed.

Lemma blocks_bound bs : Z.of_nat (length bs) <= 3 * blocks bs <= Z.of_nat (length bs) + 2.
Proof. unfold blocks. Z.to_euclidean_division_equations; lia. Qed.

Lemma u8_bytes (s : cstring) : Forall is_byte (u8 <$> s).
Proof. apply Forall_fmap, Forall_true. intros c. apply uwrap_range. lia. Qed.

Lemma blocks_u8 (s : cstring) : blocks (u8 <$> s) = blocks s.
Proof. unfold blocks. by rewrite length_fmap. Qed.

(** *** The functions that allocate *)

Lemma encode_string_text s :
  s ≠ [] → Z.of_nat (length s) < 2 ^ 29 →
  ast_base64encode_string true s = Some (Some (text base64 true (u8 <$> s) ++ [0])).
Proof.
  intros Hne Hlen. unfold ast_base64encode_string, ast_strlen_zero. rewrite bool_decide_eq_false_2 by done.
  cbn [negb]. cbv zeta. rewrite encoded_size_blocks. pose proof (blocks_bound s) as Hbl.
  rewrite swrap_small by lia. unfold ast_base64encode, ast_base64encode_full, malloc.
  rewrite encode_full_text; [|apply u8_bytes|rewrite blocks_u8; lia|rewrite length_replicate; lia].
  cbn [mbind option_bind]. do 3 f_equal. rewrite drop_ge; [done|]. rewrite length_replicate.
  pose proof (text_length (enc := base64) true (u8 <$> s)) as Et. rewrite blocks_u8 in Et. lia.
Qed.

Lemma url_encode_string_text junk s :
  s ≠ [] → Z.of_nat (length s) < 2 ^ 29 →
  ast_base64url_encode_string true junk s =
    Some (Some (text base64url false (u8 <$> s)
      ++ 0 :: drop (S (length (text base64url false (u8 <$> s)))) (malloc junk (4 * blocks s + 1)))).
Proof.
  intros Hne Hlen. unfold ast_base64url_encode_string, ast_strlen_zero. rewrite bool_decide_eq_false_2 by done.
  cbn [negb]. cbv zeta. rewrite encoded_size_blocks. pose proof (blocks_bound s) as Hbl.
  rewrite swrap_small by lia. unfold ast_base64url_encode, ast_base64url_encode_full.
  rewrite encode_full_text; [done|apply u8_bytes|rewrite blocks_u8; lia|unfold malloc; rewrite length_replicate; lia].
Qed.

(** The terminating NUL behind the decoded bytes. *)
Lemma store_end bs junk n :
  n = Z.of_nat (length bs) →
  store (bs ++ drop (length bs) (malloc junk (n + 1))) n [0] = Some (bs ++ [0]).
Proof.
  intros ->. unfold malloc. replace (Z.to_nat (Z.of_nat (length bs) + 1)) with (S (length bs)) by lia.
  replace (drop (length bs) (replicate (S (length bs)) junk)) with [junk]
    by (rewrite drop_replicate; by replace (S (length bs) - length bs)%nat with 1%nat by lia).
  unfold store. rewrite length_app. cbn [length].
  replace (0 <=? Z.of_nat (length bs)) with true by (symmetry; apply Z.leb_le; lia).
  replace (Z.of_nat (length bs) + Z.of_nat 1 <=? Z.of_nat (length bs + 1)) with true by (symmetry; apply Z.leb_le; lia).
  cbn [andb]. rewrite Nat2Z.id, take_app_length, drop_ge by (rewrite length_app; simpl; lia). done.
Qed.

Lemma decode_string_text s junk :
  s ≠ [] → Z.of_nat (length s) < 2 ^ 29 →
  ast_base64decode_string true junk (text base64 true (u8 <$> s)) = Some (Some ((u8 <$> s) ++ [0])).
Proof.
  intros Hne Hlen. assert ((u8 <$> s) ≠ []) as Hne' by (by destruct s).
  assert (length s = length (u8 <$> s)) as El by (by rewrite length_fmap). rewrite El in Hlen.
  pose proof (u8_bytes s) as Hb. revert Hne' Hlen Hb. clear. generalize (u8 <$> s). intros bs Hne Hlen Hb.
  pose proof (blocks_bound bs) as Hbl. pose proof (text_length (enc := base64) true bs) as Et.
  unfold ast_base64decode_string, ast_strlen_zero. rewrite bool_decide_eq_false_2 by by apply text_nonempty.
  cbv zeta. rewrite Et. destruct (text_end (enc := base64) (dec := b2a) bs Hne Hb) as (t&x&y&E&Ep).
  replace (4 * blocks bs >? 2) with true by (symmetry; apply Z.gtb_lt; destruct bs; [done|simpl length in *; lia]).
  assert (Z.of_nat (length t) = 4 * blocks bs - 2) as Elt by (rewrite <-Et, E, length_app; simpl; lia).
  replace (4 * blocks bs - 1) with (Z.of_nat (length (t ++ [x]))) by (rewrite length_app; simpl; lia).
  rewrite <-Elt. rewrite E at 1. replace (t ++ [x; y]) with ((t ++ [x]) ++ y :: []) by (by rewrite <-app_assoc).
  rewrite load_mid. cbn [mbind option_bind].
  assert ((if y =? EQUALS then l2 ← load (text base64 true bs) (Z.of_nat (length t));
           Some (if l2 =? EQUALS then 2 else 1) else Some 0) = Some (3 * blocks bs - Z.of_nat (length bs))) as ->.
  { rewrite E, load_mid. cbn [mbind option_bind]. rewrite <-Ep. by destruct (y =? EQUALS). }
  cbn [mbind option_bind negb]. replace (Z.quot (4 * blocks bs) 4) with (blocks bs) by (rewrite (Z.mul_comm 4); by rewrite Z.quot_mul).
  replace (blocks bs * 3 - (3 * blocks bs - Z.of_nat (length bs))) with (Z.of_nat (length bs)) by lia.
  assert (2 ^ 29 < 2 ^ 64) by done.
  rewrite (uwrap_small 64 (Z.of_nat (length bs))) by lia. rewrite uwrap_small by lia. rewrite swrap_small by lia.
  unfold ast_base64decode. rewrite (decode_text_buffer (enc := base64) (dec := b2a) true);
    [|done|lia|unfold malloc; rewrite length_replicate; lia].
  cbn [mbind option_bind]. by rewrite store_end.
Qed.

Lemma url_decode_string_text s junk :
  s ≠ [] → Z.of_nat (length s) < 2 ^ 29 →
  ast_base64url_decode_string true junk (text base64url false (u8 <$> s)) = Some (Some ((u8 <$> s) ++ [0])).
Proof.
  intros Hne Hlen. assert ((u8 <$> s) ≠ []) as Hne' by (by destruct s).
  assert (length s = length (u8 <$> s)) as El by (by rewrite length_fmap). rewrite El in Hlen.
  pose proof (u8_bytes s) as Hb. revert Hne' Hlen Hb. clear. generalize (u8 <$> s). intros bs Hne Hlen Hb.
  pose proof (text_length (enc := base64url) false bs) as Et. cbv iota in Et.
  unfold ast_base64url_decode_string, ast_strlen_zero. rewrite bool_decide_eq_false_2 by by apply text_nonempty.
  cbv zeta. cbn [negb]. rewrite Et, Z.quot_div_nonneg by (try (apply Z.mul_nonneg_nonneg; [apply Z.div_pos|]); lia).
  replace ((4 * Z.of_nat (length bs) + 2) / 3 * 3 / 4) with (Z.of_nat (length bs))
    by (Z.to_euclidean_division_equations; lia).
  rewrite swrap_small by lia.
  unfold ast_base64url_decode. rewrite (decode_text_buffer (enc := base64url) (dec := b2a_url) false);
    [|done|lia|unfold malloc; rewrite length_replicate; lia].
  cbn [mbind option_bind]. by rewrite store_end.
Qed.

End Strings.

Module Properties.
Import Groups Safety Strings.

(** C17: base 64 and its variant for URLs, from string to string: for every
    string that is not empty and shorter than 2^29 the encoder fills the block it
    allocates exactly, or with the URL alphabet at most, with four characters for
    three bytes and a NUL, and the decoder gives the bytes of the string back. *)
Theorem base64_string_roundtrip (s : cstring) (junk : Z) :
  s ≠ [] → Z.of_nat (length s) < 2 ^ 29 →
  (∃ t, ast_base64encode_string true s = Some (Some (t ++ [0]))
     ∧ Z.of_nat (length t) = 4 * ((Z.of_nat (length s) + 2) / 3) ∧ Forall (λ c, c ≠ 0) t
     ∧ ast_base64decode_string true junk t = Some (Some ((u8 <$> s) ++ [0])))
  ∧ ∃ t rest, ast_base64url_encode_string true junk s = Some (Some (t ++ 0 :: rest))
     ∧ Z.of_nat (length t) = (4 * Z.of_nat (length s) + 2) / 3 ∧ Forall (λ c, c ≠ 0) t
     ∧ ast_base64url_decode_string true junk t = Some (Some ((u8 <$> s) ++ [0])).
Proof.
  intros Hne Hlen. pose proof (u8_bytes s) as Hb. pose proof (blocks_bound s) as Hbl.
  assert (ast_strlen_zero s = false) as Hz by (by apply bool_decide_eq_false_2).
  assert ((u8 <$> s) ≠ []) as Hne' by (by destruct s).
  split.
  - exists (text base64 true (u8 <$> s)). split_and!.
    + by apply encode_string_text.
    + rewrite text_length, blocks_u8. done.
    + by apply text_chars.
    + by apply decode_string_text.
  - eexists (text base64url false (u8 <$> s)), _. split_and!.
    + by apply url_encode_string_text.
    + by rewrite text_length, length_fmap.
    + by apply text_chars.
    + by apply url_decode_string_text.
Qed.

Lemma base64_string_roundtrip_witness :
  ∃ t, ast_base64encode_string true (cstr "luso8") = Some (Some (t ++ [0]))
    ∧ ast_base64decode_string true 7 t = Some (Some (cstr "luso8" ++ [0])).
Proof.
  destruct (base64_string_roundtrip (cstr "luso8") 7) as [(t&E&_&_&D) _]; [done|done|]. by exists t.
Defined.

(** The encoders never write outside the [max] bytes they are given: for
    every input, with or without line breaks, they return less than [max], and
    leave a text of at most that length, followed by a NUL, in the buffer. *)
Theorem ast_base64encode_full_bounded (dst src : list Z) (max : Z) (linebreaks : bool) :
  Forall (λ c, 0 <= c) src → 1 <= max <= Z.of_nat (length dst) →
  (∃ cnt buf txt, ast_base64encode_full dst src max linebreaks = Some (cnt, buf)
     ∧ 0 <= cnt < max ∧ length buf = length dst ∧ (txt ++ [0]) `prefix_of` buf ∧ Z.of_nat (length txt) <= cnt)
  ∧ ∃ cnt buf txt, ast_base64url_encode_full dst src max linebreaks = Some (cnt, buf)
     ∧ 0 <= cnt < max ∧ length buf = length dst ∧ (txt ++ [0]) `prefix_of` buf ∧ Z.of_nat (length txt) <= cnt.
Proof.
  intros Hf Hm. split.
  - destruct (encode_full_safe (enc := base64) (dec := b2a) true dst src max linebreaks Hf Hm)
      as (cnt&buf&?&?&?&txt&?&?). by exists cnt, buf, txt.
  - destruct (encode_full_safe (enc := base64url) (dec := b2a_url) false dst src max linebreaks Hf Hm)
      as (cnt&buf&?&?&?&txt&?&?). by exists cnt, buf, txt.
Qed.

Lemma ast_base64encode_full_bounded_witness :
  ∃ cnt buf, ast_base64encode_full (replicate 7 1) [255; 0; 17; 3; 9] 7 true = Some (cnt, buf) ∧ cnt < 7.
Proof.
  destruct (ast_base64encode_full_bounded (replicate 7 1) [255; 0; 17; 3; 9] 7 true) as [(cnt&buf&txt&E&H&_) _];
    [by repeat constructor|done|]. exists cnt, buf. split; [exact E|apply H].
Defined.

(** The decoder that allocates does not check the length of its input:
    given two characters and a [=], it computes a length of -1, asks for no
    memory, and writes the terminating NUL outside what it gets. *)
Theorem ast_base64decode_string_short (a b junk : Z) :
  b ≠ EQUALS → ast_base64decode_string true junk [a; b; EQUALS] = None.
Proof.
  intros Hb. unfold ast_base64decode_string. simpl.
  assert (Z.eqb b EQUALS = false) as -> by (by apply Z.eqb_neq). cbn [mbind option_bind].
  replace (u64 (Z.quot (Z.of_nat 3) 4 * 3 - 1)) with (2 ^ 64 - 1) by done.
  replace (u64 (2 ^ 64 - 1 + 1)) with 0 by done. replace (s32 (2 ^ 64 - 1)) with (-1) by done.
  unfold ast_base64decode. cbn [decode_loop]. replace (negb (0 <? -1)) with true by done. by rewrite orb_true_r.
Qed.

Lemma ast_base64decode_string_short_witness : ast_base64decode_string true 0 (cstr "ab=") = None.
Proof. exact (ast_base64decode_string_short 97 98 0 ltac:(done)). Defined.

End Properties.
