(* ===== verification/TextCodec.v ===== *)
(** * Escaping and splitting of text ([main/utils.c])

    What is sent in URIs, SIP headers, XML and configuration is escaped before
    and unescaped after; lists of values are split at separators outside quotes.

    - [Model]: the functions of the source.  A buffer is written through a
      cursor; [None] is a read or a write outside an object.  The functions that
      work in place write before the place they read, so that they are functions
      of the string; where one can read behind its end it takes the whole object.
    - [Pieces]: what the escaping loops have in common.
    - [Decoders]: the unescaping of what was escaped.
    - [Properties]: the theorems. *)

From stdpp Require Import base numbers list sets strings.
From Stdlib Require Import ZArith Lia.
From S2P Require Import Prelude Pattern Base64.
Import Pattern.Model Base64.Cursor.

Module Model.

Abbreviation PERCENT := 37.
Abbreviation PLUS := 43.
Abbreviation SEMICOLON := 59.
Abbreviation BACKSLASH := 92.

Definition member (c : Z) (set : list Z) : bool := bool_decide (c ∈ set).

(** *** URIs *)

Definition AST_URI_ALPHANUM : Z := 1.
Definition AST_URI_MARK : Z := 2.
Definition AST_URI_UNRESERVED : Z := Z.lor AST_URI_ALPHANUM AST_URI_MARK.
Definition AST_URI_LEGACY_SPACE : Z := 4.
Definition AST_URI_SIP_USER_UNRESERVED : Z := 1048576.

Definition ast_uri_http : Z := AST_URI_UNRESERVED.
Definition ast_uri_http_legacy : Z := Z.lor AST_URI_LEGACY_SPACE AST_URI_UNRESERVED.
Definition ast_uri_sip_user : Z := Z.lor AST_URI_UNRESERVED AST_URI_SIP_USER_UNRESERVED.

Definition ast_test_flag (spec flag : Z) : bool := negb (Z.land spec flag =? 0).

Definition mark : list Z := cstr "-_.!~*'()".
Definition user_unreserved : list Z := cstr "&=+$,;?/".

Definition alphanum (c : Z) : bool :=
  ((48 <=? c) && (c <=? 57)) || ((65 <=? c) && (c <=? 90)) || ((97 <=? c) && (c <=? 122)).

(** The characters that are copied. *)
Definition unreserved (spec c : Z) : bool :=
  (ast_test_flag spec AST_URI_MARK && member c mark)
  || (ast_test_flag spec AST_URI_ALPHANUM && alphanum c)
  || (ast_test_flag spec AST_URI_SIP_USER_UNRESERVED && member c user_unreserved).

(** [%02hhX] *)
Definition hex_digit (d : Z) : Z := if d <? 10 then 48 + d else 55 + d.
Definition hex2 (b : Z) : list Z := [hex_digit (b / 16); hex_digit (b mod 16)].

(** [strcpy] or [sprintf] at [out], and the advance of [out]. *)
Definition sprint (cs : list Z) (out : cursor) : option cursor := out ← puts cs out; poke 0 out.

Fixpoint uri_encode_loop (spec buflen : Z) (ptr : cstring) (out : cursor) : option cursor :=
  match ptr with
  | [] => Some out
  | c :: ptr =>
      if negb (offset out <? buflen - 1) then Some out else
      if ast_test_flag spec AST_URI_LEGACY_SPACE && (c =? SPACE) then
        out ← put PLUS out; uri_encode_loop spec buflen ptr out
      else if negb (unreserved spec c) then
        if offset out >=? buflen - 3 then Some out else
        out ← sprint (PERCENT :: hex2 (u8 c)) out; uri_encode_loop spec buflen ptr out
      else out ← put c out; uri_encode_loop spec buflen ptr out
  end.

(** [if (buflen) *out = 0], and the buffer. *)
Definition terminate (buflen : Z) (out : cursor) : option (list Z) :=
  if buflen =? 0 then Some (buffer out) else buffer <$> poke 0 out.

Definition ast_uri_encode (string : cstring) (outbuf : list Z) (buflen spec : Z) : option (list Z) :=
  uri_encode_loop spec buflen string (Cursor [] outbuf) ≫= terminate buflen.

Definition hex_value (c : Z) : option Z :=
  if (48 <=? c) && (c <=? 57) then Some (c - 48)
  else if (65 <=? c) && (c <=? 70) then Some (c - 55)
  else if (97 <=? c) && (c <=? 102) then Some (c - 87)
  else None.

Definition isspace (c : Z) : bool := (c =? 32) || ((9 <=? c) && (c <=? 13)).

Fixpoint skip_space (s : cstring) : cstring :=
  match s with
  | c :: s' => if isspace c then skip_space s' else s
  | [] => []
  end.

(** [sscanf(s, "%2x", &tmp)]: white space is skipped; then a sign and a digit,
    one digit, or two; [0x] alone is no number. *)
Definition scan_2x (s : cstring) : option Z :=
  match skip_space s with
  | [] => None
  | c :: r =>
      if c =? 43 then hex_value (deref r)
      else if c =? 45 then Z.opp <$> hex_value (deref r)
      else if (c =? 48) && ((deref r =? 120) || (deref r =? 88)) then None
      else h ← hex_value c; Some (match hex_value (deref r) with Some l => 16 * h + l | None => h end)
  end.

Fixpoint ast_uri_decode (s : cstring) (spec : Z) : cstring :=
  match s with
  | [] => []
  | c :: s1 =>
      if ast_test_flag spec AST_URI_LEGACY_SPACE && (c =? PLUS) then SPACE :: ast_uri_decode s1 spec
      else match s1 with
           | _ :: _ :: s3 =>
               if c =? PERCENT then
                 match scan_2x s1 with
                 | Some tmp => swrap 8 tmp :: ast_uri_decode s3 spec
                 | None => c :: ast_uri_decode s1 spec
                 end
               else c :: ast_uri_decode s1 spec
           | _ => c :: ast_uri_decode s1 spec
           end
  end.

Fixpoint uri_verify_loop (ptr : cstring) : Z :=
  match ptr with
  | [] => 1
  | c :: r =>
      if c =? PERCENT then
        match r with
        | _ :: _ :: r2 => match scan_2x r with Some _ => uri_verify_loop r2 | None => 0 end
        | _ => 0
        end
      else if negb (alphanum c) && negb (member c (cstr "-_.+")) then 0
      else uri_verify_loop r
  end.

Definition ast_uri_verify_encoded (string : option cstring) : Z :=
  match string with None => 0 | Some s => uri_verify_loop s end.

(** *** Quoted strings and semicolons *)

(** White space without line ends, and [!]. *)
Definition allow : list Z := [9; 11; 32; 33].

Definition qdtext (c : Z) : bool :=
  member c allow || ((35 <=? c) && (c <=? 91)) || ((93 <=? c) && (c <=? 126)) || (127 <? u8 c).

Fixpoint escape_quoted_loop (buflen : Z) (ptr : cstring) (out : cursor) : option cursor :=
  match ptr with
  | [] => Some out
  | c :: ptr =>
      if negb (offset out <? buflen - 1) then Some out else
      if negb (qdtext c) then
        if offset out >=? buflen - 2 then Some out else
        out ← sprint [BACKSLASH; c] out; escape_quoted_loop buflen ptr out
      else out ← put c out; escape_quoted_loop buflen ptr out
  end.

Definition ast_escape_quoted (string : cstring) (outbuf : list Z) (buflen : Z) : option (list Z) :=
  escape_quoted_loop buflen string (Cursor [] outbuf) ≫= terminate buflen.

Fixpoint ast_unescape_quoted (s : cstring) : cstring :=
  match s with
  | [] => []
  | c :: r =>
      if c =? BACKSLASH then match r with [] => [] | d :: r' => d :: ast_unescape_quoted r' end
      else c :: ast_unescape_quoted r
  end.

Fixpoint escape_semicolons_loop (buflen : Z) (ptr : cstring) (out : cursor) : option cursor :=
  match ptr with
  | [] => Some out
  | c :: ptr =>
      if negb (offset out <? buflen - 1) then Some out else
      if c =? SEMICOLON then
        if offset out >=? buflen - 2 then Some out else
        out ← sprint [BACKSLASH; SEMICOLON] out; escape_semicolons_loop buflen ptr out
      else out ← put c out; escape_semicolons_loop buflen ptr out
  end.

Definition ast_escape_semicolons (string : cstring) (outbuf : list Z) (buflen : Z) : option (list Z) :=
  escape_semicolons_loop buflen string (Cursor [] outbuf) ≫= terminate buflen.

(** [while ((e = strchr(work, ';')))] *)
Fixpoint unescape_semicolon_loop (fuel : nat) (work : cstring) : option cstring :=
  match fuel with
  | O => None
  | S fuel =>
      match strchr work SEMICOLON with
      | None => Some work
      | Some (before, after) =>
          rest ← unescape_semicolon_loop fuel after;
          Some (match last before with
                | Some c => if c =? BACKSLASH then removelast before ++ SEMICOLON :: rest
                            else before ++ SEMICOLON :: rest
                | None => SEMICOLON :: rest
                end)
      end
  end.

Definition ast_unescape_semicolon (s : cstring) : option cstring := unescape_semicolon_loop (S (length s)) s.

(** *** XML *)

Definition entity (c : Z) : option (list Z) :=
  if c =? 60 then Some (cstr "&lt;")
  else if c =? 38 then Some (cstr "&amp;")
  else if c =? 62 then Some (cstr "&gt;")
  else if c =? 39 then Some (cstr "&apos;")
  else if c =? 34 then Some (cstr "&quot;")
  else None.

(** What is left of the string, and the cursor. *)
Fixpoint xml_escape_loop (buflen : Z) (string : cstring) (dst : cursor) : option (cstring * cursor) :=
  match string with
  | [] => Some ([], dst)
  | c :: string' =>
      if negb (offset dst <? buflen - 1) then Some (string, dst) else
      match entity c with
      | None => dst ← put c dst; xml_escape_loop buflen string' dst
      | Some e =>
          if buflen - 1 - offset dst <? Z.of_nat (length e) then Some (string, dst) else
          dst ← sprint e dst; xml_escape_loop buflen string' dst
      end
  end.

Definition ast_xml_escape (string : cstring) (outbuf : list Z) (buflen : Z) : option (Z * list Z) :=
  if buflen =? 0 then Some (-1, outbuf) else
  '(rest, dst) ← xml_escape_loop buflen string (Cursor [] outbuf);
  dst ← poke 0 dst;
  Some (match (rest : cstring) with [] => 0 | _ => -1 end, buffer dst).

(** *** C escape sequences *)

Definition escape_sequences : list Z := [7; 8; 12; 10; 13; 9; 11; 92; 39; 34; 63].
Definition escape_sequences_map : list Z := [97; 98; 102; 110; 114; 116; 118; 92; 39; 34; 63].

(** [strchr(escape_sequences, c)] and the character it is mapped to. *)
Definition escape_of (c : Z) : option Z :=
  '(i, _) ← list_find (λ x, x = c) escape_sequences; escape_sequences_map !! i.

(** [for (p = dest; *s && --size; ++s, ++p)] of the two functions: the
    character a character is escaped with, if it is. *)
Fixpoint escape_loop (escaped : Z → option Z) (size : Z) (s : cstring) (p : cursor) : option cursor :=
  match s with
  | [] => Some p
  | c :: s =>
      let size := size - 1 in
      if size =? 0 then Some p else
      match escaped c with
      | Some m =>
          let size := size - 1 in
          if size =? 0 then Some p else
          p ← put BACKSLASH p; p ← put m p; escape_loop escaped size s p
      | None => p ← put c p; escape_loop escaped size s p
      end
  end.

(** [ast_copy_string] *)
Definition ast_copy_string (dst : list Z) (src : cstring) (size : Z) : option (list Z) :=
  let n := Z.min (Z.of_nat (length src)) (size - 1) in
  if size <=? 0 then None else store dst 0 (take (Z.to_nat n) src ++ [0]).

Definition ast_escape (dest : list Z) (s : cstring) (size : Z) (to_escape : cstring) : option (list Z) :=
  if size =? 0 then Some dest else
  match s, to_escape with
  | [], _ => buffer <$> poke 0 (Cursor [] dest)
  | _, [] => ast_copy_string dest s size
  | _, _ =>
      p ← escape_loop (λ c, if member c to_escape then Some (default c (escape_of c)) else None) size s (Cursor [] dest);
      buffer <$> poke 0 p
  end.

Definition ast_escape_c (dest : list Z) (s : cstring) (size : Z) : option (list Z) :=
  if size =? 0 then Some dest else
  match s with
  | [] => buffer <$> poke 0 (Cursor [] dest)
  | _ => p ← escape_loop escape_of size s (Cursor [] dest); buffer <$> poke 0 p
  end.

(** The block that is allocated, twice as long as the string. *)
Definition ast_escape_c_alloc (junk : Z) (s : cstring) : option (list Z) :=
  let size := Z.of_nat (length s) * 2 + 1 in ast_escape_c (replicate (Z.to_nat size) junk) s size.

Definition ast_escape_alloc (junk : Z) (s to_escape : cstring) : option (list Z) :=
  let size := Z.of_nat (length s) * 2 + 1 in ast_escape (replicate (Z.to_nat size) junk) s size to_escape.

Definition unescape_char (c : Z) : Z :=
  if c =? 0 then BACKSLASH else if c =? 98 then 8 else if c =? 102 then 12 else if c =? 110 then 10
  else if c =? 114 then 13 else if c =? 116 then 9 else c.

(** The string that is left in place; [src] is the object from the pointer on. *)
Fixpoint ast_unescape_c (src : list Z) : option cstring :=
  match src with
  | [] => None
  | c :: src =>
      if c =? 0 then Some [] else
      if negb (c =? BACKSLASH) then cons c <$> ast_unescape_c src else
      match src with
      | [] => None
      | d :: src => cons (unescape_char d) <$> ast_unescape_c src
      end
  end.

(** *** Splitting *)

Definition AST_STRSEP_STRIP : Z := 1.
Definition AST_STRSEP_TRIM : Z := 2.
Definition AST_STRSEP_UNESCAPE : Z := 4.

Definition blank (c : Z) : bool := u8 c <? 33.

Fixpoint ast_skip_blanks (s : cstring) : cstring :=
  match s with
  | c :: s' => if blank c then ast_skip_blanks s' else s
  | [] => []
  end.

Definition ast_trim_blanks (s : cstring) : cstring := rev (ast_skip_blanks (rev s)).
Definition ast_strip (s : cstring) : cstring := ast_trim_blanks (ast_skip_blanks s).

(** [strchr] in an object, which may lack a NUL. *)
Fixpoint object_strchr (m : list Z) (c : Z) : option (option nat) :=
  match m with
  | [] => None
  | x :: m => if x =? c then Some (Some O) else if x =? 0 then Some None
              else r ← object_strchr m c; Some (S <$> (r : option nat))
  end.

Definition ast_strip_quoted (s : cstring) (beg_quotes end_quotes : list Z) : option cstring :=
  let s := ast_strip s in
  q ← object_strchr beg_quotes (deref s);
  match (q : option nat), last s with
  | Some i, Some e =>
      x ← end_quotes !! i;
      Some (if e =? x then tail (removelast s) else s)
  | _, _ => Some s
  end.

(** The quotes that are open, outermost first; eight of them are too many. *)
Definition toggle_quote (c : Z) (stack : list Z) (inquote : Z) : option (option (list Z * Z)) :=
  top ← load stack inquote;
  if c =? top then Some (Some (<[Z.to_nat inquote := 0]> stack, inquote - 1))
  else if inquote + 1 >=? 8 then Some None
  else Some (Some (<[Z.to_nat (inquote + 1) := c]> stack, inquote + 1)).

Inductive scan := TooDeep | NotFound | FoundAt (i : Z).

(** [for (is = st; *is; is++)] *)
Fixpoint strsep_scan (fuel : nat) (mem : list Z) (sep : Z) (quotes : list Z) (at_ : Z) (stack : list Z) (inquote : Z)
    : option scan :=
  match fuel with
  | O => None
  | S fuel =>
      c ← load mem at_;
      if c =? 0 then Some NotFound else
      at_ ← (if c =? BACKSLASH then
              d ← load mem (at_ + 1); Some (if negb (d =? 0) then Some (at_ + 2) else None)
            else Some (Some at_));
      match (at_ : option Z) with
      | None => Some NotFound
      | Some at_ =>
          c ← load mem at_;
          st ← (if member c quotes then toggle_quote c stack inquote else Some (Some (stack, inquote)));
          match (st : option (list Z * Z)) with
          | None => Some TooDeep
          | Some (stack, inquote) =>
              if (c =? sep) && (inquote =? 0) then Some (FoundAt at_)
              else strsep_scan fuel mem sep quotes (at_ + 1) stack inquote
          end
      end
  end.

(** The string at the start of an object. *)
Fixpoint c_string (m : list Z) : cstring :=
  match m with
  | c :: m => if c =? 0 then [] else c :: c_string m
  | [] => []
  end.

(** What the flags ask for; [quotes] are the objects given to
    [ast_strip_quoted]. *)
Definition post_process (flags : Z) (quotes : list Z) (st : cstring) : option cstring :=
  st ← (if negb (Z.land flags AST_STRSEP_STRIP =? 0) then ast_strip_quoted st quotes quotes else Some st);
  let st := if negb (Z.land flags AST_STRSEP_TRIM =? 0) then
              match ast_strip st with [] => st | trimmed => trimmed end else st in
  Some (if negb (Z.land flags AST_STRSEP_UNESCAPE =? 0) then ast_unescape_quoted st else st).

(** The token, or NULL, and the new value of [*iss], an index into the object;
    [None] there is NULL. *)
Definition strsep_quotes (mem : list Z) (sep : Z) (quotes object : list Z) (flags : Z)
    : option (option cstring * option Z) :=
  match c_string mem with
  | [] => Some (Some [], None)
  | _ =>
      r ← strsep_scan (S (length mem)) mem sep quotes 0 (replicate 8 0) 0;
      match r with
      | TooDeep => Some (None, Some 0)
      | NotFound => st ← post_process flags object (c_string mem); Some (Some st, None)
      | FoundAt i => st ← post_process flags object (c_string (take (Z.to_nat i) mem)); Some (Some st, Some (i + 1))
      end
  end.

Definition ast_strsep (mem : list Z) (sep flags : Z) := strsep_quotes mem sep [39; 34] [39; 34; 0] flags.

(** [qstr] has no NUL. *)
Definition ast_strsep_quoted (mem : list Z) (sep quote flags : Z) := strsep_quotes mem sep [quote] [quote] flags.

(** *** Arguments *)

Definition ast_replace_subargument_delimiter (s : cstring) : cstring := (λ c, if c =? 94 then 44 else c) <$> s.

Fixpoint quotes_and_slashes (s : cstring) (find replace_with : Z) (inEscape inQuotes : bool) : cstring :=
  match s with
  | [] => []
  | c :: s =>
      if inEscape then c :: quotes_and_slashes s find replace_with false inQuotes
      else if c =? BACKSLASH then quotes_and_slashes s find replace_with true inQuotes
      else if c =? 39 then quotes_and_slashes s find replace_with inEscape (negb inQuotes)
      else (if inQuotes then c else if c =? find then replace_with else c)
             :: quotes_and_slashes s find replace_with inEscape inQuotes
  end.

Definition ast_process_quotes_and_slashes (start : cstring) (find replace_with : Z) : cstring :=
  quotes_and_slashes start find replace_with false false.

End Model.

Import Model.

Module Examples.

Definition uri (s : string) (spec : Z) : option cstring := c_string <$> ast_uri_encode (cstr s) (replicate 40 7) 40 spec.

Example uri_http : uri "a b+%;" ast_uri_http = Some (cstr "a%20b%2B%25%3B").
Proof. reflexivity. Qed.
Example uri_legacy : uri "a b+%;" ast_uri_http_legacy = Some (cstr "a+b%2B%25%3B").
Proof. reflexivity. Qed.
Example uri_user : uri "a b+%;" ast_uri_sip_user = Some (cstr "a%20b+%25;").
Proof. reflexivity. Qed.
Example uri_cut : c_string <$> ast_uri_encode (cstr "abc d") (replicate 6 7) 6 ast_uri_http = Some (cstr "abc").
Proof. reflexivity. Qed.
Example decode_lenient : ast_uri_decode (cstr "%+f% 5%zz") ast_uri_http = [15; 5] ++ cstr "%zz".
Proof. reflexivity. Qed.
(** A character the encoder copies and the check of an encoded string refuses. *)
Example verify_mark : uri "a!b" ast_uri_http = Some (cstr "a!b") ∧ ast_uri_verify_encoded (Some (cstr "a!b")) = 0.
Proof. done. Qed.
Example xml : ast_xml_escape (cstr "a<b&c") (replicate 9 7) 9 = Some (-1, cstr "a&lt;b" ++ [0; 7; 7]).
Proof. reflexivity. Qed.
Example split_quotes : ast_strsep (cstr "x='a,b',c" ++ [0]) 44 AST_STRSEP_STRIP = Some (Some (cstr "x='a,b'"), Some 8).
Proof. reflexivity. Qed.
Example split_strip : ast_strsep (cstr " 'a,b' ,c" ++ [0]) 44 7 = Some (Some (cstr "a,b"), Some 8).
Proof. reflexivity. Qed.
(** The second of two escapes in a row is not one. *)
Example split_two_escapes : ast_strsep (cstr "\a\,b" ++ [0]) 44 0 = Some (Some (cstr "\a\"), Some 4).
Proof. reflexivity. Qed.
(** A token that does not begin with the quote. *)
Example strip_unterminated : ast_strsep_quoted (cstr "a,b" ++ [0]) 44 34 AST_STRSEP_STRIP = None.
Proof. reflexivity. Qed.

End Examples.

(** ** Escaping, character by character *)

Module Pieces.

Section Pieces.
(** What a character becomes, and whether it is written by [sprintf]. *)
Context (piece : Z → list Z) (scratch : Z → bool).

(** The loop all functions have in common: it stops at the first character
    whose piece does not fit before the place of the NUL. *)
Fixpoint escape_pieces (buflen : Z) (s : cstring) (out : cursor) : option cursor :=
  match s with
  | [] => Some out
  | c :: s =>
      if offset out + Z.of_nat (length (piece c)) <? buflen then
        out ← puts (piece c) out;
        out ← (if scratch c then poke 0 out else Some out);
        escape_pieces buflen s out
      else Some out
  end.

Definition escaped (s : cstring) : list Z := concat (piece <$> s).

(** The characters whose pieces fit into [n]. *)
Fixpoint fit (n : Z) (s : cstring) : cstring :=
  match s with
  | [] => []
  | c :: s => let k := Z.of_nat (length (piece c)) in if k <=? n then c :: fit (n - k) s else []
  end.

Lemma fit_prefix n s : fit n s `prefix_of` s.
Proof.
  revert n. induction s as [|c s IH]; intros n; simpl; [done|]. case_match; [|apply prefix_nil]. by apply prefix_cons.
Qed.

Lemma fit_length n s : 0 <= n → Z.of_nat (length (escaped (fit n s))) <= n.
Proof.
  revert n. induction s as [|c s IH]; intros n Hn; simpl; [done|].
  destruct (Z.leb_spec (Z.of_nat (length (piece c))) n); [|done]. unfold escaped in *. csimpl. rewrite length_app.
  specialize (IH (n - Z.of_nat (length (piece c)))). lia.
Qed.

Lemma fit_all n s : Z.of_nat (length (escaped s)) <= n → fit n s = s.
Proof.
  revert n. induction s as [|c s IH]; intros n Hn; simpl; [done|]. unfold escaped in *. csimpl in Hn.
  rewrite length_app in Hn. rewrite (proj2 (Z.leb_le _ _)) by lia. f_equal. apply IH. lia.
Qed.

Lemma escape_pieces_fit buflen s out :
  offset out < buflen → buflen <= offset out + Z.of_nat (length (room out)) →
  ∃ rm, escape_pieces buflen s out = Some (Cursor (written out ++ escaped (fit (buflen - 1 - offset out) s)) rm)
    ∧ (length rm + length (escaped (fit (buflen - 1 - offset out) s)) = length (room out))%nat.
Proof.
  revert out. induction s as [|c s IH]; intros out Ho Hr; cbn [escape_pieces fit].
  - exists (room out). rewrite app_nil_r. split; [by destruct out|]. unfold escaped. simpl. lia.
  - destruct (Z.ltb_spec (offset out + Z.of_nat (length (piece c))) buflen) as [Hlt|Hge].
    + rewrite (proj2 (Z.leb_le _ _)) by lia. rewrite puts_room by lia. cbn [mbind option_bind].
      set (out1 := Cursor (written out ++ piece c) (drop (length (piece c)) (room out))).
      assert (offset out1 = offset out + Z.of_nat (length (piece c))) as Eo
        by (unfold out1, offset; simpl; rewrite length_app; lia).
      assert (length (room out1) = (length (room out) - length (piece c))%nat) as Er by (unfold out1; simpl; apply length_drop).
      assert (∃ rm1, (if scratch c then poke 0 out1 else Some out1) = Some (Cursor (written out1) rm1)
        ∧ length rm1 = length (room out1)) as (rm1&->&Hl1).
      { destruct (scratch c); [|exists (room out1); by destruct out1]. rewrite poke_room.
        - eexists. split; [done|]. destruct (room out1) eqn:E; [simpl in Er; lia|done].
        - intros E. rewrite E in Er. simpl in Er. lia. }
      cbn [mbind option_bind].
      destruct (IH (Cursor (written out1) rm1)) as (rm&->&Hrm).
      { change (offset (Cursor (written out1) rm1)) with (offset out1). lia. }
      { change (offset (Cursor (written out1) rm1)) with (offset out1). cbn [room]. lia. }
      change (offset (Cursor (written out1) rm1)) with (offset out1) in *. cbn [written room] in *.
      exists rm. rewrite Eo in *.
      replace (buflen - 1 - offset out - Z.of_nat (length (piece c)))
        with (buflen - 1 - (offset out + Z.of_nat (length (piece c)))) by lia.
      unfold escaped in *. rewrite fmap_cons. cbn [concat]. rewrite length_app. split; [|lia].
      unfold out1. cbn [written]. by rewrite <-app_assoc.
    + destruct (Z.leb_spec (Z.of_nat (length (piece c))) (buflen - 1 - offset out)); [lia|].
      exists (room out). rewrite app_nil_r. split; [by destruct out|]. unfold escaped. simpl. lia.
Qed.

(** The buffer at the end. *)
Lemma escape_pieces_buffer buflen s outbuf :
  0 < buflen → buflen <= Z.of_nat (length outbuf) →
  ∃ out rest, escape_pieces buflen s (Cursor [] outbuf) = Some out
    ∧ buffer <$> poke 0 out = Some (escaped (fit (buflen - 1) s) ++ 0 :: rest)
    ∧ length (escaped (fit (buflen - 1) s) ++ 0 :: rest) = length outbuf.
Proof.
  intros H0 Hl. destruct (escape_pieces_fit buflen s (Cursor [] outbuf)) as (rm&->&Hrm); [done|unfold offset; simpl; lia|].
  change (offset (Cursor [] outbuf)) with 0 in *. rewrite Z.sub_0_r in *. cbn [written room app] in *.
  pose proof (fit_length (buflen - 1) s ltac:(lia)) as Hf.
  destruct rm as [|x rm]; [simpl in Hrm; lia|]. eexists _, rm. split; [done|]. split; [done|].
  rewrite length_app. simpl in *. lia.
Qed.

Lemma terminate_poke buflen out : 0 < buflen → terminate buflen out = buffer <$> poke 0 out.
Proof. intros H. unfold terminate. by destruct (Z.eqb_spec buflen 0); [lia|]. Qed.

(** A piece of bounded length. *)
Lemma escaped_length k s : (∀ c, (length (piece c) <= k)%nat) → (length (escaped s) <= k * length s)%nat.
Proof.
  intros Hk. induction s as [|c s IH]; [simpl; lia|]. unfold escaped in *. csimpl. rewrite length_app.
  specialize (Hk c). lia.
Qed.

End Pieces.

(** *** The functions *)

Lemma puts_one c out : puts [c] out = put c out.
Proof. simpl. by destruct (put c out). Qed.

Definition uri_piece (spec c : Z) : list Z :=
  if ast_test_flag spec AST_URI_LEGACY_SPACE && (c =? SPACE) then [PLUS]
  else if unreserved spec c then [c] else PERCENT :: hex2 (u8 c).
Definition uri_scratch (spec c : Z) : bool :=
  negb (ast_test_flag spec AST_URI_LEGACY_SPACE && (c =? SPACE)) && negb (unreserved spec c).

(** Splits the tests of a loop and of the common one. *)
Ltac by_tests :=
  repeat match goal with
  | |- context [?a <? ?b] => destruct (Z.ltb_spec a b)
  | |- context [?a >=? ?b] => destruct (Z.geb_spec a b)
  end; cbn [negb]; try lia; try done.

Lemma uri_encode_pieces spec buflen s out :
  uri_encode_loop spec buflen s out = escape_pieces (uri_piece spec) (uri_scratch spec) buflen s out.
Proof.
  revert out. induction s as [|c s IH]; intros out; [done|]. cbn [uri_encode_loop escape_pieces].
  unfold uri_piece, uri_scratch. destruct (ast_test_flag spec AST_URI_LEGACY_SPACE && (c =? SPACE)) eqn:E;
    [|destruct (unreserved spec c) eqn:Eu]; cbn [negb andb length hex2 Z.of_nat Pos.of_succ_nat Pos.succ]; by_tests.
  - rewrite puts_one. destruct (put PLUS out); [apply IH|done].
  - rewrite puts_one. destruct (put c out); [apply IH|done].
  - unfold sprint. destruct (puts _ out) as [out'|]; [|done]. cbn [mbind option_bind].
    destruct (poke 0 out'); [apply IH|done].
Qed.

Definition quoted_piece (c : Z) : list Z := if qdtext c then [c] else [BACKSLASH; c].

Lemma escape_quoted_pieces buflen s out :
  escape_quoted_loop buflen s out = escape_pieces quoted_piece (λ c, negb (qdtext c)) buflen s out.
Proof.
  revert out. induction s as [|c s IH]; intros out; [done|]. cbn [escape_quoted_loop escape_pieces].
  unfold quoted_piece. destruct (qdtext c) eqn:E; cbn [negb length Z.of_nat Pos.of_succ_nat Pos.succ]; by_tests.
  - rewrite puts_one. destruct (put c out); [apply IH|done].
  - unfold sprint. destruct (puts _ out) as [out'|]; [|done]. cbn [mbind option_bind].
    destruct (poke 0 out'); [apply IH|done].
Qed.

Definition semicolon_piece (c : Z) : list Z := if c =? SEMICOLON then [BACKSLASH; SEMICOLON] else [c].

Lemma escape_semicolons_pieces buflen s out :
  escape_semicolons_loop buflen s out = escape_pieces semicolon_piece (λ c, c =? SEMICOLON) buflen s out.
Proof.
  revert out. induction s as [|c s IH]; intros out; [done|]. cbn [escape_semicolons_loop escape_pieces].
  unfold semicolon_piece. destruct (c =? SEMICOLON) eqn:E; cbn [length Z.of_nat Pos.of_succ_nat Pos.succ]; by_tests.
  - unfold sprint. destruct (puts _ out) as [out'|]; [|done]. cbn [mbind option_bind].
    destruct (poke 0 out'); [apply IH|done].
  - rewrite puts_one. destruct (put c out); [apply IH|done].
Qed.

Definition c_piece (f : Z → option Z) (c : Z) : list Z := match f c with Some m => [BACKSLASH; m] | None => [c] end.

Lemma put_offset c out out' : put c out = Some out' → offset out' = offset out + 1.
Proof.
  unfold put. destruct (room out); [done|]. intros [= <-]. unfold offset. simpl. rewrite length_app. simpl. lia.
Qed.

Lemma escape_loop_pieces f size s out :
  0 < size → escape_loop f size s out = escape_pieces (c_piece f) (λ _, false) (offset out + size) s out.
Proof.
  revert size out. induction s as [|c s IH]; intros size out H; [done|]. cbn [escape_loop escape_pieces].
  unfold c_piece. destruct (f c) as [m|]; cbn [length Z.of_nat Pos.of_succ_nat Pos.succ]; cbv zeta.
  - destruct (Z.eqb_spec (size - 1) 0); [by_tests|]. destruct (Z.eqb_spec (size - 1 - 1) 0); [by_tests|]. by_tests.
    cbn [puts]. destruct (put BACKSLASH out) as [o1|] eqn:E1; [|done]. cbn [mbind option_bind].
    destruct (put m o1) as [o2|] eqn:E2; [|done]. cbn [mbind option_bind].
    apply put_offset in E1, E2. rewrite IH by lia. f_equal. lia.
  - destruct (Z.eqb_spec (size - 1) 0); [by_tests|]. by_tests. rewrite puts_one.
    destruct (put c out) as [o1|] eqn:E1; [|done]. cbn [mbind option_bind]. apply put_offset in E1.
    rewrite IH by lia. f_equal. lia.
Qed.

Lemma puts_offset cs out out' : puts cs out = Some out' → offset out' = offset out + Z.of_nat (length cs).
Proof.
  revert out. induction cs as [|c cs IH]; intros out E; simpl in E; [injection E as <-; simpl; lia|].
  destruct (put c out) as [o1|] eqn:E1; [|done]. apply put_offset in E1. apply IH in E. simpl length. lia.
Qed.

Definition xml_piece (c : Z) : list Z := match entity c with Some e => e | None => [c] end.

Lemma xml_escape_pieces buflen s out :
  offset out < buflen →
  xml_escape_loop buflen s out
  = (out' ← escape_pieces xml_piece (λ c, bool_decide (is_Some (entity c))) buflen s out;
     Some (drop (length (fit xml_piece (buflen - 1 - offset out) s)) s, out')).
Proof.
  revert out. induction s as [|c s IH]; intros out Ho; [done|]. cbn [xml_escape_loop escape_pieces fit]. cbv zeta.
  assert (1 <= Z.of_nat (length (xml_piece c))) as Hp.
  { unfold xml_piece, entity. repeat case_match; simplify_eq; simpl; lia. }
  assert (xml_piece c = match entity c with Some e => e | None => [c] end) as Ep by done. rewrite Ep in *. clear Ep.
  destruct (entity c) as [e|] eqn:Ee.
  - rewrite bool_decide_eq_true_2 by by eexists.
    destruct (Z.ltb_spec (offset out) (buflen - 1)), (Z.ltb_spec (buflen - 1 - offset out) (Z.of_nat (length e))),
      (Z.ltb_spec (offset out + Z.of_nat (length e)) buflen), (Z.leb_spec (Z.of_nat (length e)) (buflen - 1 - offset out));
      cbn [negb]; try lia; try done.
    unfold sprint. destruct (puts e out) as [o1|] eqn:E1; [|done]. cbn [mbind option_bind].
    destruct (poke 0 o1) as [o2|] eqn:E2; [|done]. cbn [mbind option_bind].
    assert (offset o2 = offset out + Z.of_nat (length e)) as Eo.
    { unfold poke in E2. destruct (room o1) eqn:Er; [done|]. injection E2 as <-. by apply puts_offset in E1. }
    rewrite IH by lia. rewrite Eo. cbn [length drop].
    by replace (buflen - 1 - (offset out + Z.of_nat (length e))) with (buflen - 1 - offset out - Z.of_nat (length e)) by lia.
  - rewrite bool_decide_eq_false_2 by (intros [? ?]; congruence). change (Z.of_nat (length [c])) with 1.
    destruct (Z.ltb_spec (offset out) (buflen - 1)), (Z.ltb_spec (offset out + 1) buflen),
      (Z.leb_spec 1 (buflen - 1 - offset out)); cbn [negb]; try lia; try done.
    rewrite puts_one. destruct (put c out) as [o1|] eqn:E1; [|done]. cbn [mbind option_bind]. apply put_offset in E1.
    rewrite IH by lia. rewrite E1. cbn [length drop].
    by replace (buflen - 1 - (offset out + 1)) with (buflen - 1 - offset out - 1) by lia.
Qed.

End Pieces.

(** ** Unescaping what was escaped *)

Module Decoders.
Import Pieces.

(** A [char] that does not end a string. *)
Definition is_char (c : Z) : Prop := -128 <= c < 128 ∧ c ≠ 0.

Lemma char_u8 c : is_char c → swrap 8 (u8 c) = c.
Proof. intros [Hc _]. rewrite swrap_uwrap by lia. by apply swrap_small. Qed.

(** *** URIs *)

Lemma hex_digit_value d : 0 <= d < 16 →
  hex_value (hex_digit d) = Some d ∧ isspace (hex_digit d) = false ∧ hex_digit d ≠ 43 ∧ hex_digit d ≠ 45
  ∧ hex_digit d ≠ 120 ∧ hex_digit d ≠ 88.
Proof.
  intros Hd. unfold hex_digit, hex_value, isspace. destruct (Z.ltb_spec d 10).
  - replace ((48 <=? 48 + d) && (48 + d <=? 57)) with true by (symmetry; apply andb_true_iff; lia).
    split_and!; [f_equal; lia| |lia..]. lia.
  - replace ((48 <=? 55 + d) && (55 + d <=? 57)) with false by lia.
    replace ((65 <=? 55 + d) && (55 + d <=? 70)) with true by lia.
    split_and!; [f_equal; lia| |lia..]. lia.
Qed.

Lemma scan_hex2 b r : 0 <= b < 256 → scan_2x (hex2 b ++ r) = Some b.
Proof.
  intros Hb. unfold scan_2x, hex2.
  assert (0 <= b / 16 < 16) as H1 by (Z.to_euclidean_division_equations; lia).
  assert (0 <= b mod 16 < 16) as H2 by (apply Z.mod_pos_bound; lia).
  destruct (hex_digit_value _ H1) as (E1&S1&?&?&?&?), (hex_digit_value _ H2) as (E2&S2&?&?&?&?).
  cbn [app skip_space]. rewrite S1. rewrite !(proj2 (Z.eqb_neq _ _)) by done.
  change (deref (hex_digit (b mod 16) :: r)) with (hex_digit (b mod 16)).
  rewrite !(proj2 (Z.eqb_neq (hex_digit (b mod 16)) _)) by done. rewrite andb_false_r, E1, E2.
  cbn [mbind option_bind]. f_equal. rewrite (Z.div_mod b 16) at 3 by done. done.
Qed.

Lemma uri_decode_copy spec c r :
  c ≠ PERCENT → ast_test_flag spec AST_URI_LEGACY_SPACE && (c =? PLUS) = false →
  ast_uri_decode (c :: r) spec = c :: ast_uri_decode r spec.
Proof.
  intros Hc Hp. cbn [ast_uri_decode]. rewrite Hp. rewrite (proj2 (Z.eqb_neq c PERCENT)) by done.
  by destruct r as [|? [|? ?]].
Qed.

(** The characters that are copied are neither [%] nor, unless the set of SIP
    users is asked for, [+]. *)
Lemma unreserved_not spec c :
  unreserved spec c = true →
  c ≠ PERCENT ∧ (ast_test_flag spec AST_URI_SIP_USER_UNRESERVED = false → c ≠ PLUS).
Proof.
  unfold unreserved. intros E. split; [|intros Hs]; intros ->.
  - by rewrite !andb_false_r in E.
  - by rewrite Hs, !andb_false_r in E.
Qed.

Lemma uri_decode_escaped spec s :
  ast_test_flag spec AST_URI_LEGACY_SPACE && ast_test_flag spec AST_URI_SIP_USER_UNRESERVED = false →
  Forall is_char s → ast_uri_decode (escaped (uri_piece spec) s) spec = s.
Proof.
  intros Hspec Hf. induction Hf as [|c s Hc Hf IH]; [done|]. unfold escaped in *. csimpl. unfold uri_piece at 1.
  destruct (ast_test_flag spec AST_URI_LEGACY_SPACE) eqn:El; cbn [andb] in *.
  - destruct (Z.eqb_spec c SPACE) as [->|Hsp].
    + cbn [app ast_uri_decode]. rewrite El. simpl. by rewrite IH.
    + destruct (unreserved spec c) eqn:Eu.
      * apply unreserved_not in Eu as [? Hp]. cbn [app]. rewrite uri_decode_copy; [by rewrite IH|done|].
        rewrite El. simpl. by apply Z.eqb_neq, Hp.
      * cbn [app hex2 ast_uri_decode]. rewrite El. simpl.
        change (hex_digit (u8 c / 16) :: hex_digit (u8 c mod 16) :: concat (uri_piece spec <$> s))
          with (hex2 (u8 c) ++ concat (uri_piece spec <$> s)).
        rewrite scan_hex2 by (apply uwrap_range; lia). by rewrite char_u8, IH.
  - destruct (unreserved spec c) eqn:Eu.
    + apply unreserved_not in Eu as [? Hp]. cbn [app]. rewrite uri_decode_copy; [by rewrite IH|done|by rewrite El].
    + cbn [app hex2 ast_uri_decode]. rewrite El. simpl.
      change (hex_digit (u8 c / 16) :: hex_digit (u8 c mod 16) :: concat (uri_piece spec <$> s))
        with (hex2 (u8 c) ++ concat (uri_piece spec <$> s)).
      rewrite scan_hex2 by (apply uwrap_range; lia). by rewrite char_u8, IH.
Qed.

(** *** Quoted strings, semicolons *)

Lemma unescape_quoted_escaped s : ast_unescape_quoted (escaped quoted_piece s) = s.
Proof.
  induction s as [|c s IH]; [done|]. unfold escaped in *. csimpl. unfold quoted_piece at 1.
  destruct (qdtext c) eqn:E; cbn [app ast_unescape_quoted].
  - destruct (Z.eqb_spec c BACKSLASH) as [->|]; [done|]. by rewrite IH.
  - simpl. by rewrite IH.
Qed.

(** A backslash before a semicolon is dropped. *)
Fixpoint drop_escapes (s : cstring) : cstring :=
  match s with
  | [] => []
  | c :: s => if (c =? BACKSLASH) && (deref s =? SEMICOLON) then drop_escapes s else c :: drop_escapes s
  end.

Lemma drop_escapes_app before after :
  SEMICOLON ∉ before →
  drop_escapes (before ++ SEMICOLON :: after)
  = match last before with
    | Some c => if c =? BACKSLASH then removelast before ++ SEMICOLON :: drop_escapes after
                else before ++ SEMICOLON :: drop_escapes after
    | None => SEMICOLON :: drop_escapes after
    end.
Proof.
  induction before as [|c before IH]; intros Hn; [done|]. cbn [app drop_escapes].
  apply not_elem_of_cons in Hn as [Hc Hn]. rewrite IH by done. destruct before as [|d before].
  - simpl. rewrite andb_true_r. by destruct (c =? BACKSLASH).
  - change (deref ((d :: before) ++ SEMICOLON :: after)) with d.
    rewrite (proj2 (Z.eqb_neq d SEMICOLON)) by (intros ->; by apply Hn, list_elem_of_here).
    rewrite andb_false_r. change (last (c :: d :: before)) with (last (d :: before)).
    change (removelast (c :: d :: before)) with (c :: removelast (d :: before)).
    destruct (last (d :: before)) as [e|] eqn:El; [|by apply last_None in El]. by destruct (e =? BACKSLASH).
Qed.

Lemma drop_escapes_id s : SEMICOLON ∉ s → drop_escapes s = s.
Proof.
  induction s as [|c s IH]; intros Hn; [done|]. apply not_elem_of_cons in Hn as [Hc Hn]. cbn [drop_escapes].
  rewrite IH by done. destruct s as [|d s]; [by rewrite andb_false_r|].
  change (deref (d :: s)) with d. rewrite (proj2 (Z.eqb_neq d SEMICOLON)); [by rewrite andb_false_r|].
  intros ->. by apply Hn, list_elem_of_here.
Qed.

Lemma strchr_split s c :
  match strchr s c with
  | Some (before, after) => s = before ++ c :: after ∧ c ∉ before
  | None => c ∉ s
  end.
Proof.
  induction s as [|x s IH]; simpl; [apply not_elem_of_nil|]. destruct (Z.eqb_spec x c) as [->|Hx].
  - split; [done|apply not_elem_of_nil].
  - destruct (strchr s c) as [[before after]|]; simpl.
    + destruct IH as [-> ?]. split; [done|]. by apply not_elem_of_cons.
    + by apply not_elem_of_cons.
Qed.

Lemma unescape_semicolon_drop s : ast_unescape_semicolon s = Some (drop_escapes s).
Proof.
  unfold ast_unescape_semicolon. assert (length s < S (length s))%nat as Hf by lia. revert Hf.
  generalize (S (length s)). intros fuel. revert s. induction fuel as [|fuel IH]; intros s Hf; [lia|].
  cbn [unescape_semicolon_loop]. pose proof (strchr_split s SEMICOLON) as Hs.
  destruct (strchr s SEMICOLON) as [[before after]|]; [|by rewrite drop_escapes_id]. destruct Hs as [-> Hn].
  rewrite length_app in Hf. simpl in Hf. rewrite IH by lia. cbn [mbind option_bind]. by rewrite drop_escapes_app.
Qed.

Lemma semicolon_piece_head s : deref (escaped semicolon_piece s) ≠ SEMICOLON.
Proof.
  destruct s as [|c s]; [done|]. unfold escaped. csimpl. unfold semicolon_piece at 1.
  by destruct (Z.eqb_spec c SEMICOLON).
Qed.

Lemma unescape_semicolon_escaped s : ast_unescape_semicolon (escaped semicolon_piece s) = Some s.
Proof.
  rewrite unescape_semicolon_drop. f_equal. induction s as [|c s IH]; [done|].
  pose proof (semicolon_piece_head s) as Hh. unfold escaped in *. csimpl. unfold semicolon_piece at 1.
  destruct (Z.eqb_spec c SEMICOLON) as [->|Hc]; cbn [app drop_escapes].
  - simpl. by rewrite IH.
  - rewrite (proj2 (Z.eqb_neq _ SEMICOLON)), andb_false_r, IH by done. done.
Qed.

(** *** C escape sequences *)

(** The escapes [ast_unescape_c] knows: not those for [\a] and [\v]. *)
Lemma unescape_escape c :
  c ≠ 7 → c ≠ 11 → c ≠ 0 →
  match escape_of c with
  | Some m => m ≠ 0 ∧ unescape_char m = c
  | None => c ≠ BACKSLASH
  end.
Proof.
  intros H7 H11 H0. unfold escape_of. destruct (list_find (λ x, x = c) escape_sequences) as [[i x]|] eqn:E; simpl.
  - apply list_find_Some in E as (Hi&<-&_). unfold escape_sequences in Hi.
    do 11 (destruct i as [|i]; [simpl in Hi; injection Hi as <-; done|]). done.
  - intros ->. done.
Qed.

Lemma unescape_c_escaped s rest :
  Forall (λ c, c ≠ 0 ∧ c ≠ 7 ∧ c ≠ 11) s → ast_unescape_c (escaped (c_piece escape_of) s ++ 0 :: rest) = Some s.
Proof.
  induction 1 as [|c s (H0&H7&H11) Hs IH]; [done|]. unfold escaped in *. csimpl. unfold c_piece at 1.
  pose proof (unescape_escape c H7 H11 H0) as He. destruct (escape_of c) as [m|].
  - destruct He as [Hm Hu]. cbn [app ast_unescape_c]. simpl. rewrite IH. simpl. by rewrite Hu.
  - cbn [app ast_unescape_c]. rewrite !(proj2 (Z.eqb_neq _ _)) by done. simpl. by rewrite IH.
Qed.

(** *** XML *)

(** A text that stands for a string: characters for themselves, entities. *)
Inductive xml_text : list Z → cstring → Prop :=
| xml_nil : xml_text [] []
| xml_char c t s : entity c = None → xml_text t s → xml_text (c :: t) (c :: s)
| xml_entity c e t s : entity c = Some e → xml_text t s → xml_text (e ++ t) (c :: s).

Lemma xml_text_escaped s : xml_text (escaped xml_piece s) s.
Proof.
  induction s as [|c s IH]; [constructor|]. unfold escaped. csimpl. unfold xml_piece at 1.
  destruct (entity c) eqn:E; [by apply xml_entity|by apply xml_char].
Qed.

(** *** Auxiliary facts of the theorems *)

Lemma Forall_prefix {A} (P : A → Prop) (l k : list A) : l `prefix_of` k → Forall P k → Forall P l.
Proof. intros [r ->] H. by apply Forall_app in H as [? _]. Qed.

Lemma prefix_drop_nil {A} (l k : list A) : l `prefix_of` k → drop (length l) k = [] ↔ l = k.
Proof.
  intros [r ->]. rewrite drop_app_length. split; [intros ->; by rewrite app_nil_r|].
  intros E. rewrite <-app_nil_r in E at 1. by apply app_inv_head in E.
Qed.

Lemma escape_c_alloc_roundtrip junk s :
  Forall (λ c, c ≠ 0 ∧ c ≠ 7 ∧ c ≠ 11) s → ∃ buf, ast_escape_c_alloc junk s = Some buf ∧ ast_unescape_c buf = Some s.
Proof.
  intros Hs. unfold ast_escape_c_alloc, ast_escape_c. rewrite (proj2 (Z.eqb_neq _ _)) by lia.
  destruct s as [|c s]; [by eexists|]. remember (c :: s) as cs eqn:Ecs. clear Ecs c s.
  set (size := Z.of_nat (length cs) * 2 + 1). rewrite escape_loop_pieces by lia.
  change (offset (Cursor [] (replicate (Z.to_nat size) junk)) + size) with size.
  destruct (escape_pieces_buffer (c_piece escape_of) (λ _, false) size cs (replicate (Z.to_nat size) junk))
    as (out&rest&->&E&_); [lia|rewrite length_replicate; lia|]. cbn [mbind option_bind]. rewrite E.
  eexists. split; [done|]. rewrite fit_all; [by apply unescape_c_escaped|].
  pose proof (escaped_length (c_piece escape_of) 2 cs) as H2.
  cut (length (escaped (c_piece escape_of) cs) <= 2 * length cs)%nat; [lia|]. apply H2. intros c. unfold c_piece.
  case_match; simpl; lia.
Qed.

Lemma load_plus (pre m : list Z) i : 0 <= i → load (pre ++ m) (Z.of_nat (length pre) + i) = load m i.
Proof.
  intros Hi. unfold load. rewrite !(proj2 (Z.leb_le _ _)) by lia.
  rewrite lookup_app_r by lia. f_equal. lia.
Qed.

(** Characters that mean nothing to [ast_strsep] are passed over. *)
Lemma strsep_skip fuel pre m sep quotes k :
  Forall (λ x, x ≠ 0 ∧ x ≠ BACKSLASH ∧ (x ∉ quotes) ∧ x ≠ sep) pre →
  strsep_scan (length pre + fuel) (k ++ pre ++ m) sep quotes (Z.of_nat (length k)) (replicate 8 0) 0
  = strsep_scan fuel (k ++ pre ++ m) sep quotes (Z.of_nat (length k + length pre)) (replicate 8 0) 0.
Proof.
  revert k. induction pre as [|x pre IH]; intros k Hf; [by rewrite Nat.add_0_r|].
  apply Forall_cons in Hf as [(H0&Hb&Hq&Hs) Hf']. cbn [length Nat.add strsep_scan].
  replace (load (k ++ (x :: pre) ++ m) (Z.of_nat (length k))) with (Some x) by (symmetry; cbn [app]; apply load_mid).
  cbn [mbind option_bind]. rewrite (proj2 (Z.eqb_neq x 0) H0), (proj2 (Z.eqb_neq x BACKSLASH) Hb).
  cbn [mbind option_bind].
  replace (load (k ++ (x :: pre) ++ m) (Z.of_nat (length k))) with (Some x) by (symmetry; cbn [app]; apply load_mid).
  cbn [mbind option_bind]. unfold member. rewrite bool_decide_eq_false_2 by done. cbn [mbind option_bind].
  rewrite (proj2 (Z.eqb_neq x sep) Hs). cbn [andb].
  specialize (IH (k ++ [x]) Hf'). rewrite <-!app_assoc, length_app in IH. cbn [app length] in IH.
  replace (Z.of_nat (length k) + 1) with (Z.of_nat (length k + 1)) by lia.
  replace (length k + S (length pre))%nat with (length k + 1 + length pre)%nat by lia. exact IH.
Qed.

Lemma strsep_overread pre c sep flags :
  Forall (λ x, x ≠ 0 ∧ x ≠ BACKSLASH ∧ x ≠ 39 ∧ x ≠ 34 ∧ x ≠ sep) pre → c ≠ 0 → sep ≠ 0 →
  ast_strsep (pre ++ [BACKSLASH; c; 0]) sep flags = None.
Proof.
  intros Hf Hc Hsep. unfold ast_strsep, strsep_quotes.
  assert (c_string (pre ++ [BACKSLASH; c; 0]) ≠ []) as Hne.
  { destruct Hf as [|x pre (H0&_) _]; [done|]. simpl. by rewrite (proj2 (Z.eqb_neq x 0)). }
  destruct (c_string (pre ++ [BACKSLASH; c; 0])); [done|].
  rewrite length_app. cbn [length]. replace (S (length pre + 3)) with (length pre + 4)%nat by lia.
  pose proof (strsep_skip 4 pre [BACKSLASH; c; 0] sep [39; 34] []) as E. cbn [app length Nat.add] in E.
  change (Z.of_nat 0) with 0 in E.
  rewrite E; clear E; cycle 1.
  { eapply Forall_impl; [done|]. intros x (?&?&?&?&?). split_and!; try done. set_solver. }
  assert (∀ i, 0 <= i → load (pre ++ [BACKSLASH; c; 0]) (Z.of_nat (length pre) + i) = load [BACKSLASH; c; 0] i) as El
    by (intros; by apply load_plus).
  cbn [strsep_scan]. rewrite (load_mid pre BACKSLASH [c; 0]). cbn [mbind option_bind Z.eqb Pos.eqb].
  rewrite El by done. change (load [BACKSLASH; c; 0] 1) with (Some c). cbn [mbind option_bind].
  rewrite (proj2 (Z.eqb_neq c 0)) by done. cbn [negb]. rewrite El by done.
  change (load [BACKSLASH; c; 0] 2) with (Some 0). cbn [mbind option_bind].
  change (member 0 [39; 34]) with false. cbn [mbind option_bind].
  rewrite (proj2 (Z.eqb_neq 0 sep)) by done. cbn [andb].
  replace (Z.of_nat (length pre) + 2 + 1) with (Z.of_nat (length pre) + 3) by lia. rewrite El by done. done.
Qed.

End Decoders.

Module Properties.
Import Pieces Decoders.

(** C18: a URI survives its encoding, in a buffer of any size: what is written
    stays inside the buffer and ends with a NUL, and its decoding is the longest
    part of the string that fits, never with half an escape; three bytes for each
    character and one are enough for all of it.  The flags must not ask for [+]
    both as a space and as itself. *)
Theorem ast_uri_roundtrip (s : cstring) (outbuf : list Z) (buflen spec : Z) :
  ast_test_flag spec AST_URI_LEGACY_SPACE && ast_test_flag spec AST_URI_SIP_USER_UNRESERVED = false →
  Forall is_char s → 0 < buflen <= Z.of_nat (length outbuf) →
  ∃ t rest, ast_uri_encode s outbuf buflen spec = Some (t ++ 0 :: rest)
    ∧ length (t ++ 0 :: rest) = length outbuf ∧ Z.of_nat (length t) < buflen
    ∧ ast_uri_decode t spec `prefix_of` s
    ∧ (3 * Z.of_nat (length s) < buflen → ast_uri_decode t spec = s).
Proof.
  intros Hspec Hs Hb. unfold ast_uri_encode. rewrite uri_encode_pieces.
  destruct (escape_pieces_buffer (uri_piece spec) (uri_scratch spec) buflen s outbuf) as (out&rest&->&E&Hl); [lia|lia|].
  cbn [mbind option_bind]. rewrite terminate_poke, E by lia. eexists _, rest. split; [done|]. split; [done|].
  pose proof (fit_length (uri_piece spec) (buflen - 1) s ltac:(lia)). split; [lia|].
  pose proof (fit_prefix (uri_piece spec) (buflen - 1) s) as Hp.
  rewrite uri_decode_escaped; [|done|by eapply Forall_prefix]. split; [done|]. intros Hlen. apply fit_all.
  pose proof (escaped_length (uri_piece spec) 3 s) as H3. cut (length (escaped (uri_piece spec) s) <= 3 * length s)%nat; [lia|].
  apply H3. intros c. unfold uri_piece. repeat case_match; simpl; lia.
Qed.

Lemma ast_uri_roundtrip_witness :
  ∃ t rest, ast_uri_encode (cstr "sip user;100%") (replicate 40 7) 40 ast_uri_http_legacy = Some (t ++ 0 :: rest)
    ∧ ast_uri_decode t ast_uri_http_legacy = cstr "sip user;100%".
Proof.
  destruct (ast_uri_roundtrip (cstr "sip user;100%") (replicate 40 7) 40 ast_uri_http_legacy) as (t&rest&E&_&_&_&D);
    [done|by repeat constructor|done|]. exists t, rest. split; [exact E|by apply D].
Defined.

(** C21: unescaping undoes escaping, in a buffer of any size up to what fits:
    for strings in quotes, for semicolons, and for C escape sequences in the block
    allocated for them, unless the string has an alert or a vertical tab. *)
Theorem escape_roundtrip (s : cstring) (outbuf : list Z) (buflen junk : Z) :
  0 < buflen <= Z.of_nat (length outbuf) →
  (∃ t rest, ast_escape_quoted s outbuf buflen = Some (t ++ 0 :: rest) ∧ Z.of_nat (length t) < buflen
     ∧ ast_unescape_quoted t `prefix_of` s ∧ (2 * Z.of_nat (length s) < buflen → ast_unescape_quoted t = s))
  ∧ (∃ t rest s', ast_escape_semicolons s outbuf buflen = Some (t ++ 0 :: rest) ∧ Z.of_nat (length t) < buflen
     ∧ ast_unescape_semicolon t = Some s' ∧ s' `prefix_of` s ∧ (2 * Z.of_nat (length s) < buflen → s' = s))
  ∧ (Forall (λ c, c ≠ 0 ∧ c ≠ 7 ∧ c ≠ 11) s →
     ∃ buf, ast_escape_c_alloc junk s = Some buf ∧ ast_unescape_c buf = Some s).
Proof.
  intros Hb. split_and!.
  - unfold ast_escape_quoted. rewrite escape_quoted_pieces.
    destruct (escape_pieces_buffer quoted_piece (λ c, negb (qdtext c)) buflen s outbuf) as (out&rest&->&E&_); [lia|lia|].
    cbn [mbind option_bind]. rewrite terminate_poke, E by lia. eexists _, rest. split; [done|].
    pose proof (fit_length quoted_piece (buflen - 1) s ltac:(lia)). split; [lia|].
    rewrite unescape_quoted_escaped. split; [apply fit_prefix|]. intros Hl. apply fit_all.
    pose proof (escaped_length quoted_piece 2 s) as H2. cut (length (escaped quoted_piece s) <= 2 * length s)%nat; [lia|].
    apply H2. intros c. unfold quoted_piece. case_match; simpl; lia.
  - unfold ast_escape_semicolons. rewrite escape_semicolons_pieces.
    destruct (escape_pieces_buffer semicolon_piece (λ c, c =? SEMICOLON) buflen s outbuf) as (out&rest&->&E&_); [lia|lia|].
    cbn [mbind option_bind]. rewrite terminate_poke, E by lia. eexists _, rest, _. split; [done|].
    pose proof (fit_length semicolon_piece (buflen - 1) s ltac:(lia)). split; [lia|].
    split; [apply unescape_semicolon_escaped|]. split; [apply fit_prefix|]. intros Hl. apply fit_all.
    pose proof (escaped_length semicolon_piece 2 s) as H2.
    cut (length (escaped semicolon_piece s) <= 2 * length s)%nat; [lia|].
    apply H2. intros c. unfold semicolon_piece. case_match; simpl; lia.
  - intros Hs. by apply escape_c_alloc_roundtrip.
Qed.

Lemma escape_roundtrip_witness :
  ∃ buf, ast_escape_c_alloc 7 [97; 10; 92; 34] = Some buf ∧ ast_unescape_c buf = Some [97; 10; 92; 34].
Proof.
  destruct (escape_roundtrip [97; 10; 92; 34] [0] 1 7) as (_&_&H); [done|]. apply H. by repeat constructor.
Defined.

(** XML is escaped entity by entity: the text in the buffer stands for a
    part of the string from its start, has no entity cut, and the result is 0
    exactly when it is the whole string. *)
Theorem ast_xml_escape_correct (s : cstring) (outbuf : list Z) (buflen : Z) :
  0 < buflen <= Z.of_nat (length outbuf) →
  ∃ r t rest s', ast_xml_escape s outbuf buflen = Some (r, t ++ 0 :: rest)
    ∧ length (t ++ 0 :: rest) = length outbuf ∧ Z.of_nat (length t) < buflen
    ∧ xml_text t s' ∧ s' `prefix_of` s ∧ (r = 0 ↔ s' = s) ∧ (6 * Z.of_nat (length s) < buflen → r = 0).
Proof.
  intros Hb. unfold ast_xml_escape. rewrite (proj2 (Z.eqb_neq _ _)) by lia.
  rewrite xml_escape_pieces by (unfold offset; simpl; lia). change (offset (Cursor [] outbuf)) with 0. rewrite Z.sub_0_r.
  destruct (escape_pieces_buffer xml_piece (λ c, bool_decide (is_Some (entity c))) buflen s outbuf)
    as (out&rest&->&E&Hl); [lia|lia|]. cbn [mbind option_bind].
  destruct (poke 0 out) as [out'|]; [|done]. injection E as E. cbn [mbind option_bind]. rewrite E.
  pose proof (fit_prefix xml_piece (buflen - 1) s) as Hp. pose proof (fit_length xml_piece (buflen - 1) s ltac:(lia)).
  eexists _, _, rest, _. split; [done|]. split; [done|]. split; [lia|]. split; [apply xml_text_escaped|]. split; [done|].
  pose proof (prefix_drop_nil _ _ Hp) as Hd.
  assert ((match drop (length (fit xml_piece (buflen - 1) s)) s with [] => 0 | _ :: _ => -1 end = 0)
    ↔ fit xml_piece (buflen - 1) s = s) as Hr.
  { rewrite <-Hd. by destruct (drop _ s). }
  split; [done|]. intros Hlen. apply Hr, fit_all.
  pose proof (escaped_length xml_piece 6 s) as H6. cut (length (escaped xml_piece s) <= 6 * length s)%nat; [lia|].
  apply H6. intros c. unfold xml_piece, entity. repeat case_match; simplify_eq; simpl; lia.
Qed.

Lemma ast_xml_escape_correct_witness :
  ∃ r buf, ast_xml_escape (cstr "a<b&c") (replicate 9 7) 9 = Some (r, buf) ∧ r ≠ 0.
Proof.
  destruct (ast_xml_escape_correct (cstr "a<b&c") (replicate 9 7) 9) as (r&t&rest&s'&E&_&_&Ht&Hp&Hr&_); [done|].
  exists r, (t ++ 0 :: rest). split; [done|]. by vm_compute in E; simplify_eq.
Defined.

(** C40: text that ends in its first escape makes two functions read behind its
    NUL: when no character before the escape is a backslash, a quote or the
    separator, [ast_strsep] does so when the escaped character is the last one of
    the text, whatever the separator and the flags, and [ast_unescape_c] when the
    backslash is. *)
Theorem trailing_escape_overread (pre : cstring) (c sep flags : Z) :
  Forall (λ x, x ≠ 0 ∧ x ≠ BACKSLASH ∧ x ≠ 39 ∧ x ≠ 34 ∧ x ≠ sep) pre → c ≠ 0 → sep ≠ 0 →
  ast_strsep (pre ++ [BACKSLASH; c; 0]) sep flags = None ∧ ast_unescape_c (pre ++ [BACKSLASH; 0]) = None.
Proof.
  intros Hpre Hc Hsep. split; [by apply strsep_overread|]. clear Hc Hsep.
  induction Hpre as [|x pre (H0&Hb&_) _ IH]; [done|]. cbn [app ast_unescape_c].
  by rewrite !(proj2 (Z.eqb_neq x _)), IH by done.
Qed.

Lemma trailing_escape_overread_witness : ast_strsep (cstr "caf\e" ++ [0]) 44 0 = None.
Proof. apply (trailing_escape_overread (cstr "caf") 101 44 0); [by repeat constructor|done|done]. Defined.

End Properties.
