(* ===== verification/G711.v ===== *)
(** * G.711 companding ([main/ulaw.c], [main/alaw.c], [ulaw.h], [alaw.h])

    The conversions between 16 bit linear samples and the 8 bit codes of u-law
    and A-law, with both algorithms the build can select ([G711_NEW_ALGORITHM]),
    the branch free variant ([G711_REDUCED_BRANCHING]) and the self tests
    ([TEST_CODING_TABLES], [TEST_TANDEM_TRANSCODING]).

    - [Model]: the functions of the source; names that both algorithms define
      carry [_new] for the second one.  An access outside a table is [None].
    - [Float]: what a code is, a number with four bits behind the leading one.
    - [Fill]: the contents of a table after a loop that fills it.
    - [Encoders], [Lookups]: the functions and the tables compute that code.
    - [Properties]: the theorems. *)

From stdpp Require Import base numbers list.
From Stdlib Require Import ZArith Lia.
From S2P Require Import Prelude.

Module Model.

(** [tab[i] = v] *)
Definition set_cell (tab : list Z) (i v : Z) : option (list Z) := store tab i [v].

(** [for (i = i; i < stop; i += step) tab[slot(i)] = f(i)], with at most [fuel]
    rounds. *)
Fixpoint fill_table (fuel : nat) (i stop step : Z) (slot : Z → Z) (f : Z → option Z)
    (tab : list Z) : option (list Z) :=
  if i <? stop then
    match fuel with
    | O => None
    | S fuel =>
        v ← f i;
        tab ← set_cell tab (slot i) v;
        fill_table fuel (i + step) stop step slot f tab
    end
  else Some tab.

(** The two tables of a law: linear to code, code to linear. *)
Record tables := Tables { lin2code : list Z; code2lin : list Z }.

(** ** u-law *)

Definition BIAS : Z := 0x84.
Definition CLIP : Z := 32635.

(** The exponent of a biased magnitude, by its bits 7 to 14. *)
Definition ulaw_exp_lut : list Z :=
  [0; 0; 1; 1] ++ replicate 4 2 ++ replicate 8 3 ++ replicate 16 4
  ++ replicate 32 5 ++ replicate 64 6 ++ replicate 128 7.

Definition ulaw_etab : list Z := [0; 132; 396; 924; 1980; 4092; 8316; 16764].

Definition linear2ulaw (sample : Z) : option Z :=
  let sign := Z.land (Z.shiftr sample 8) 0x80 in
  let sample := if negb (sign =? 0) then s16 (- sample) else sample in
  let sample := if sample >? CLIP then CLIP else sample in
  let sample := s16 (sample + BIAS) in
  exponent ← load ulaw_exp_lut (Z.land (Z.shiftr sample 7) 0xFF);
  let mantissa := Z.land (Z.shiftr sample (exponent + 3)) 0x0F in
  Some (u8 (Z.lnot (Z.lor (Z.lor sign (Z.shiftl exponent 4)) mantissa))).

(** The body of the first loop of [ast_ulaw_init]. *)
Definition mulaw_cell (i : Z) : option Z :=
  let mu := s16 (255 - i) in
  let e := s16 (Z.quot (Z.land mu 0x70) 16) in
  let f := s16 (Z.land mu 0x0f) in
  let y := s16 (f * Z.shiftl 1 (e + 3)) in
  t ← load ulaw_etab e;
  let y := s16 (y + t) in
  Some (if negb (Z.land mu 0x80 =? 0) then s16 (- y) else y).

Definition ulaw_slot (i : Z) : Z := Z.shiftr (u16 i) 2.

Definition ast_ulaw_init (t : tables) : option tables :=
  mulaw ← fill_table 256 0 256 1 id mulaw_cell (code2lin t);
  lin2mu ← fill_table (Z.to_nat 65536) (-32768) 32768 1 ulaw_slot linear2ulaw (lin2code t);
  Some (Tables lin2mu mulaw).

Definition AST_LIN2MU (t : tables) (a : Z) : option Z := load (lin2code t) (ulaw_slot a).

Definition AST_MULAW (t : tables) (a : Z) : option Z := load (code2lin t) a.

(** *** The second algorithm *)

Definition AST_ULAW_STEP : Z := Z.shiftl 1 3.
Definition AST_ULAW_TAB_SIZE : Z := Z.quot 32768 AST_ULAW_STEP + 1.

Definition ast_ulaw_get_sign_mag (sample : Z) : Z * Z :=
  let sign := Z.land (Z.shiftr (u16 sample) 8) 0x80 in
  (sign, if sample <? 0 then u32 (- sample) else u32 sample).

(** With [G711_REDUCED_BRANCHING]. *)
Definition ast_ulaw_get_sign_mag_reduced (sample : Z) : Z * Z :=
  let sign := Z.land (Z.shiftr (u16 sample) 8) 0x80 in
  let dual_mag := Z.lor (u32 (Z.shiftl (- sample) 16)) (u16 sample) in
  (sign, Z.land (Z.shiftr dual_mag (Z.shiftr sign 3)) 0xffff).

(** The statements on [sign] and [sample] after the clipping of [mag] set [sign]
    to the same value again and a [sample] that is not read any more. *)
Definition linear2ulaw_new (sample : Z) (full_coding : bool) : option Z :=
  let '(_, mag) := ast_ulaw_get_sign_mag sample in
  let mag := if mag >? CLIP then CLIP else mag in
  let sign := Z.land (Z.shiftr sample 8) 0x80 in
  let mag := u32 (mag + BIAS) in
  exponent ← load ulaw_exp_lut (Z.land (Z.shiftr mag 7) 0xFF);
  let mantissa := Z.land (Z.shiftr mag (exponent + 3)) 0x0F in
  Some (if full_coding
        then u8 (Z.lnot (Z.lor (Z.lor sign (Z.shiftl exponent 4)) mantissa))
        else u8 (Z.lor (Z.shiftl exponent 4) mantissa)).

Definition ulaw2linear (ulawbyte : Z) : option Z :=
  let ulawbyte := u8 (Z.lnot ulawbyte) in
  let exponent := Z.shiftr (Z.land ulawbyte 0x70) 4 in
  let mantissa := Z.land ulawbyte 0x0f in
  let sample := s16 (Z.shiftl mantissa (exponent + 3)) in
  t ← load ulaw_etab exponent;
  let sample := s16 (sample + t) in
  Some (if negb (Z.land ulawbyte 0x80 =? 0) then s16 (- sample) else sample).

(** [AST_LIN2MU_LOOKUP] *)
Definition ulaw_slot_new (mag : Z) : Z := Z.shiftr (mag + Z.quot AST_ULAW_STEP 2) 3.

(** A loop counter passed as a [short] is converted to 16 bits. *)
Definition ast_ulaw_init_new (t : tables) : option tables :=
  mulaw ← fill_table 256 0 256 1 id (λ i, ulaw2linear (u8 i)) (code2lin t);
  lin2mu ← fill_table (Z.to_nat 4097) 0 32769 AST_ULAW_STEP ulaw_slot_new
             (λ i, linear2ulaw_new (s16 i) false) (lin2code t);
  Some (Tables lin2mu mulaw).

Definition AST_LIN2MU_new (t : tables) (sample : Z) : option Z :=
  let '(sign, mag) := ast_ulaw_get_sign_mag sample in
  c ← load (lin2code t) (ulaw_slot_new mag);
  Some (u8 (Z.lnot (Z.lor sign c))).

(** ** A-law *)

Definition AMI_MASK : Z := 0x55.

Definition alaw_seg_end : list Z :=
  [0xFF; 0x1FF; 0x3FF; 0x7FF; 0xFFF; 0x1FFF; 0x3FFF; 0x7FFF].

(** The loop over the segments. *)
Fixpoint alaw_segment (seg_end : list Z) (seg pcm_val : Z) : Z :=
  match seg_end with
  | [] => seg
  | e :: seg_end => if pcm_val <=? e then seg else alaw_segment seg_end (seg + 1) pcm_val
  end.

Definition linear2alaw (linear : Z) : Z :=
  let '(mask, pcm_val) :=
    if 0 <=? linear then (Z.lor AMI_MASK 0x80, linear) else (AMI_MASK, - linear) in
  let seg := alaw_segment alaw_seg_end 0 pcm_val in
  let shift := if negb (seg =? 0) then seg + 3 else 4 in
  u8 (Z.lxor (Z.lor (Z.shiftl seg 4) (Z.land (Z.shiftr pcm_val shift) 0x0F)) mask).

Definition alaw2linear (alaw : Z) : Z :=
  let alaw := Z.lxor alaw AMI_MASK in
  let i := Z.shiftl (Z.land alaw 0x0F) 4 + 8 in
  let seg := Z.shiftr (Z.land alaw 0x70) 4 in
  let i := if negb (seg =? 0) then Z.shiftl (i + 0x100) (seg - 1) else i in
  s16 (if negb (Z.land alaw 0x80 =? 0) then i else - i).

Definition alaw_slot (i : Z) : Z := Z.shiftr (u16 i) 3.

Definition ast_alaw_init (t : tables) : option tables :=
  alaw ← fill_table 256 0 256 1 id (λ i, Some (alaw2linear (u8 i))) (code2lin t);
  lin2a ← fill_table (Z.to_nat 65536) (-32768) 32768 1 alaw_slot
            (λ i, Some (linear2alaw i)) (lin2code t);
  Some (Tables lin2a alaw).

Definition AST_LIN2A (t : tables) (a : Z) : option Z := load (lin2code t) (alaw_slot a).

Definition AST_ALAW (t : tables) (a : Z) : option Z := load (code2lin t) a.

(** *** The second algorithm *)

Definition AST_ALAW_STEP : Z := Z.shiftl 1 4.
Definition AST_ALAW_TAB_SIZE : Z := Z.quot 32768 AST_ALAW_STEP + 1.
Definition AST_ALAW_SIGN_BIT : Z := 0x80.
Definition AST_ALAW_AMI_MASK : Z := 0x55.

Definition ast_alaw_get_sign_mag (sample : Z) : Z * Z :=
  let sign := Z.land (Z.shiftr (u16 sample) 8) AST_ALAW_SIGN_BIT in
  let mag := if sample <? 0 then u32 (- sample) else u32 sample in
  (Z.lxor sign AST_ALAW_SIGN_BIT, mag).

(** With [G711_REDUCED_BRANCHING]. *)
Definition ast_alaw_get_sign_mag_reduced (sample : Z) : Z * Z :=
  let sign := Z.land (Z.shiftr (u16 sample) 8) AST_ALAW_SIGN_BIT in
  let dual_mag := Z.lor (u32 (Z.shiftl (- sample) 16)) (u16 sample) in
  let mag := Z.land (Z.shiftr dual_mag (Z.shiftr sign 3)) 0xffff in
  (Z.lxor sign AST_ALAW_SIGN_BIT, mag).

Definition alaw_exp_lut : list Z :=
  [1; 1; 2; 2] ++ replicate 4 3 ++ replicate 8 4 ++ replicate 16 5
  ++ replicate 32 6 ++ replicate 64 7.

Definition linear2alaw_new (sample : Z) (full_coding : bool) : option Z :=
  let '(sign, mag) := ast_alaw_get_sign_mag sample in
  let mag := if mag >? 32767 then 32767 else mag in
  exponent ← load alaw_exp_lut (Z.land (Z.shiftr mag 8) 0x7f);
  let mantissa := Z.land (Z.shiftr mag (exponent + 3)) 0x0f in
  let exponent := if mag <? 0x100 then 0 else exponent in
  Some (if full_coding
        then Z.lxor (u8 (Z.lor (Z.lor sign (Z.shiftl exponent 4)) mantissa)) AST_ALAW_AMI_MASK
        else u8 (Z.lor (Z.shiftl exponent 4) mantissa)).

Definition alaw2linear_new (alawbyte : Z) : Z :=
  let alawbyte := Z.lxor alawbyte AST_ALAW_AMI_MASK in
  let exponent := Z.shiftr (Z.land alawbyte 0x70) 4 in
  let mantissa := Z.land alawbyte 0x0f in
  let sample := s16 (Z.shiftl mantissa 4 + 8) in
  let sample :=
    if negb (exponent =? 0) then s16 (Z.shiftl (sample + 0x100) (exponent - 1)) else sample in
  if Z.land alawbyte 0x80 =? 0 then s16 (- sample) else sample.

(** [AST_LIN2A_LOOKUP] *)
Definition alaw_slot_new (mag : Z) : Z := Z.shiftr mag 4.

Definition ast_alaw_init_new (t : tables) : option tables :=
  alaw ← fill_table 256 0 256 1 id (λ i, Some (alaw2linear_new (u8 i))) (code2lin t);
  lin2a ← fill_table (Z.to_nat 2049) 0 32769 AST_ALAW_STEP alaw_slot_new
            (λ i, linear2alaw_new (s16 i) false) (lin2code t);
  Some (Tables lin2a alaw).

Definition AST_LIN2A_new (t : tables) (sample : Z) : option Z :=
  let '(sign, mag) := ast_alaw_get_sign_mag sample in
  c ← load (lin2code t) (alaw_slot_new mag);
  Some (u8 (Z.lxor (Z.lor sign c) AST_ALAW_AMI_MASK)).

(** ** The self tests: whether a sample makes them log a warning *)

(** [TEST_CODING_TABLES]; the same body in both files, on the functions and
    macros of the law. *)
Definition coding_test (encode : Z → option Z) (decode : Z → option Z)
    (lin2 lin : Z → option Z) (i : Z) : option bool :=
  e1 ← encode i;
  d1 ← decode e1;
  e2 ← lin2 i;
  d2 ← decode e2;
  d3 ← lin e1;
  Some (negb (e1 =? e2) || negb (d1 =? d3) || negb (d2 =? d3)).

(** [TEST_TANDEM_TRANSCODING]; the u-law test accepts the negative zero. *)
Definition tandem_test (zero : bool) (lin2 lin : Z → option Z) (i : Z) : option bool :=
  e1 ← lin2 i;
  d1 ← lin e1;
  e2 ← lin2 d1;
  d2 ← lin e2;
  e3 ← lin2 d2;
  d3 ← lin e3;
  Some (if zero && (i <? 0) && (e1 =? 0x7f) && (e2 =? 0xff) && (e3 =? 0xff) then false
        else negb (e1 =? e2) || negb (e2 =? e3) || negb (d1 =? d2) || negb (d2 =? d3)).

End Model.
Import Model.

(** ** Numbers with four bits behind the leading one

    The codes of both laws count the same numbers: the integers below 16, then in
    each octave the 16 multiples of a step that doubles from octave to octave. *)

Module Float.

Definition flt (q : Z) : Z :=
  if q <? 16 then q else 16 * (Z.log2 q - 4) + q / 2 ^ (Z.log2 q - 4).

Definition step (c : Z) : Z := if c <? 16 then 1 else 2 ^ (c / 16 - 1).
Definition unflt (c : Z) : Z := if c <? 16 then c else (c mod 16 + 16) * 2 ^ (c / 16 - 1).

(** The octave [k] of a number, with its top five bits [f]. *)
Lemma octave q n :
  16 <= q < 2 ^ n → 0 <= n →
  ∃ k f, 0 <= k < n - 4 ∧ Z.log2 q = k + 4 ∧ q / 2 ^ k = f ∧ 16 <= f < 32
    ∧ f * 2 ^ k <= q < f * 2 ^ k + 2 ^ k.
Proof.
  intros Hq Hn. exists (Z.log2 q - 4), (q / 2 ^ (Z.log2 q - 4)).
  assert (4 <= Z.log2 q) by (apply (Z.log2_le_mono 16); lia).
  assert (Z.log2 q < n) by (apply Z.log2_lt_pow2; lia).
  destruct (Z.log2_spec q) as [B1 B2]; [lia|].
  set (k := Z.log2 q - 4) in *. replace (Z.log2 q) with (k + 4) in * by lia.
  rewrite Z.pow_add_r in B1 by lia. rewrite <- Z.add_succ_r, Z.pow_add_r in B2 by lia.
  change (2 ^ 4) with 16 in B1. change (2 ^ Z.succ 4) with 32 in B2.
  pose proof (Z.pow_pos_nonneg 2 k). pose proof (Z.div_mod q (2 ^ k)).
  pose proof (Z.mod_pos_bound q (2 ^ k)).
  split_and!; try lia; try done.
  - apply Z.div_le_lower_bound; lia.
  - apply Z.div_lt_upper_bound; lia.
Qed.

(** The code of a number is its cell, and cells grow with their place. *)
Lemma flt_cell q n :
  0 <= q < 2 ^ n → 4 <= n →
  0 <= flt q < 16 * n - 48 ∧ unflt (flt q) <= q < unflt (flt q) + step (flt q)
  ∧ 0 < step (flt q) ∧ (16 <= q → 16 <= flt q ∧ 16 * step (flt q) <= q)
  ∧ (q < 16 → step (flt q) = 1).
Proof.
  intros Hq Hn. unfold flt, unflt, step. destruct (Z.ltb_spec q 16) as [Hs|Hs].
  { destruct (Z.ltb_spec q 16); lia. }
  destruct (octave q n) as (k & f & Hk & -> & Hf & Hf2 & Hb); [lia..|].
  replace (k + 4 - 4) with k by lia. rewrite Hf.
  destruct (Z.ltb_spec (16 * k + f) 16); [lia|].
  assert ((16 * k + f) / 16 = k + 1) as -> by (Z.to_euclidean_division_equations; lia).
  assert ((16 * k + f) mod 16 + 16 = f) as -> by (Z.to_euclidean_division_equations; lia).
  replace (k + 1 - 1) with k by lia. pose proof (Z.pow_pos_nonneg 2 k). nia.
Qed.

End Float.
Import Float.

(** ** Tables filled by a loop *)

Module Fill.

Lemma set_cell_ok (tab : list Z) i v :
  0 <= i < Z.of_nat (length tab) → set_cell tab i v = Some (<[Z.to_nat i := v]> tab).
Proof.
  intros Hi. unfold set_cell, store. simpl length.
  destruct (Z.leb_spec 0 i), (Z.leb_spec (i + Z.of_nat 1) (Z.of_nat (length tab))); try lia.
  simpl. f_equal. rewrite insert_take_drop by lia. do 3 f_equal. lia.
Qed.

Lemma rounds_apart start step i j :
  0 < step → (i - start) mod step = 0 → (j - start) mod step = 0 → j < i + step → j <= i.
Proof.
  intros Hs Hi Hj Hlt. apply Z.mod_divide in Hi as [a Ha]; [|lia].
  apply Z.mod_divide in Hj as [b Hb]; [|lia].
  assert (b < a + 1) by (apply (Z.mul_lt_mono_pos_r step); lia). nia.
Qed.

(** [last j] is the last round that writes the cell of round [j]. *)
Section Fill.
Context (slot last f : Z → Z) (g : Z → option Z) (start stop step size : Z).

Definition round (j : Z) : Prop := start <= j < stop ∧ (j - start) mod step = 0.

Context (Hstep : 0 < step).
Context (Hg : ∀ j, round j → g j = Some (f j)).
Context (Hslot : ∀ j, round j → 0 <= slot j < size).
Context (Hlast : ∀ j, round j → j <= last j < stop).
Context (Hsame : ∀ i j, round i → round j → slot i = slot j ↔ last i = last j).
Context (Hgap : ∀ i j, round i → round j → j < i → last j ≠ last i → last j <= i - step).

Definition filled (i : Z) (tab : list Z) : Prop :=
  Z.of_nat (length tab) = size ∧
  ∀ j, round j → j < i → load tab (slot j) = Some (f (Z.min (last j) (i - step))).

Lemma filled_next i tab :
  round i → filled i tab → filled (i + step) (<[Z.to_nat (slot i) := f i]> tab).
Proof.
  intros Hi [Hl Hf]. split; [by rewrite length_insert|].
  intros j Hj Hlt. unfold load. pose proof (Hslot _ Hi). pose proof (Hslot _ Hj).
  destruct (Z.leb_spec 0 (slot j)); [|lia].
  assert (j <= i) as Hji by (destruct Hi, Hj; eapply rounds_apart; eauto).
  destruct (decide (last j = last i)) as [E|E].
  - rewrite (proj2 (Hsame j i Hj Hi) E). rewrite list_lookup_insert_eq by lia.
    f_equal. f_equal. pose proof (Hlast _ Hi). lia.
  - assert (slot j ≠ slot i) by (rewrite Hsame; done).
    rewrite list_lookup_insert_ne by lia.
    assert (j < i) by (destruct (decide (j = i)) as [->|]; [done|lia]).
    specialize (Hf j Hj ltac:(done)). unfold load in Hf.
    destruct (Z.leb_spec 0 (slot j)); [|lia]. rewrite Hf.
    pose proof (Hgap i j Hi Hj). do 2 f_equal. lia.
Qed.

Lemma fill_from fuel i tab :
  start <= i → (i - start) mod step = 0 → filled i tab → (stop - i <= step * Z.of_nat fuel) →
  ∃ tab' i', fill_table fuel i stop step slot g tab = Some tab' ∧ stop <= i' ∧ filled i' tab'
    ∧ (i' - start) mod step = 0.
Proof.
  revert i tab. induction fuel as [|fuel IH]; intros i tab Hs Hm Hf Hfuel; simpl;
    destruct (Z.ltb_spec i stop).
  - lia.
  - exists tab, i. split_and!; try done; lia.
  - assert (round i) as Hi by (split; [lia|done]). rewrite (Hg i Hi). simpl.
    destruct Hf as [Hl Hf]. pose proof (Hslot i Hi). rewrite set_cell_ok by lia. simpl.
    destruct (IH (i + step) (<[Z.to_nat (slot i) := f i]> tab))
      as (t' & i' & Ht & Hi1 & Hf' & Hm'); [lia| |by apply filled_next|lia|].
    { replace (i + step - start) with (i - start + 1 * step) by lia.
      by rewrite Z.mod_add by lia. }
    by exists t', i'.
  - exists tab, i. split_and!; try done; lia.
Qed.

Lemma fill_table_ok fuel tab :
  start < stop → Z.of_nat (length tab) = size → stop - start <= step * Z.of_nat fuel →
  (∀ j, round j → round (last j)) →
  ∃ tab', fill_table fuel start stop step slot g tab = Some tab'
    ∧ Z.of_nat (length tab') = size ∧ ∀ j, round j → load tab' (slot j) = Some (f (last j)).
Proof.
  intros Hss Hl Hfuel Hr.
  destruct (fill_from fuel start tab) as (t' & i' & Ht & Hi1 & [Hl' Hf] & Hm).
  - lia.
  - by rewrite Z.sub_diag.
  - split; [done|]. intros j [Hj _] ?. lia.
  - lia.
  - exists t'. split_and!; try done. intros j Hj.
    rewrite (Hf j Hj) by (destruct Hj; lia). do 2 f_equal.
    destruct (Hr j Hj) as [Hb Hd]. apply Z.min_l, (rounds_apart start step); try done; [|lia].
    replace (i' - step - start) with (i' - start + (-1) * step) by lia.
    by rewrite Z.mod_add by lia.
Qed.
End Fill.
End Fill.
Import Fill.

(** ** The functions compute the code of the magnitude *)

Module Encoders.

Definition short (s : Z) : Prop := -32768 <= s < 32768.

(** A test of the integers from [lo] on. *)
Lemma check_range (P : Z → bool) lo n :
  forallb P (seqZ lo n) = true → ∀ z, lo <= z < lo + n → P z = true.
Proof. rewrite forallb_forall. intros H z Hz. apply H, list_elem_of_In, elem_of_seqZ. lia. Qed.

Definition gives (x : option Z) (v : Z) : bool :=
  match x with Some y => y =? v | None => false end.

Lemma gives_eq x v : gives x v = true → x = Some v.
Proof. destruct x; simpl; [|done]. intros ?%Z.eqb_eq. by subst. Qed.

(** The magnitude of a sample, limited to [top], in units of [2^sh]. *)
Definition units (top bias sh s : Z) : Z := (Z.min top (Z.abs s) + bias) / 2 ^ sh.

Definition ulaw_mag (s : Z) : Z := flt (units CLIP BIAS 3 s) - 16.
Definition alaw_mag (s : Z) : Z := flt (units 32767 0 4 s).

Definition ulaw_code (s : Z) : Z := 255 - ((if s <? 0 then 128 else 0) + ulaw_mag s).
Definition alaw_code (s : Z) : Z :=
  Z.lxor ((if s <? 0 then 0 else 128) + alaw_mag s) AMI_MASK.

(** The middle of the cell a code stands for. *)
Definition ulaw_level (b : Z) : Z :=
  let c := (255 - b) mod 128 + 16 in
  let y := 8 * unflt c + 4 * step c - BIAS in
  if 128 <=? 255 - b then - y else y.
Definition alaw_level (b : Z) : Z :=
  let a := Z.lxor b AMI_MASK in
  let y := 16 * unflt (a mod 128) + 8 * step (a mod 128) in
  if 128 <=? a then y else - y.

(** *** Signs and joined fields *)

Lemma sign_bit s : short s → Z.land (Z.shiftr s 8) 0x80 = if s <? 0 then 128 else 0.
Proof.
  intros Hs. rewrite Z.shiftr_div_pow2 by lia. change (2 ^ 8) with 256.
  assert (-128 <= s / 256 < -128 + 256) as Hq by (red in Hs; Z.to_euclidean_division_equations; lia).
  pose proof (check_range (λ z, Z.land z 0x80 =? if z <? 0 then 128 else 0) (-128) 256
    ltac:(vm_compute; reflexivity) _ Hq) as H. apply Z.eqb_eq in H. simpl in H. rewrite H.
  destruct (Z.ltb_spec (s / 256) 0), (Z.ltb_spec s 0); try done;
    exfalso; Z.to_euclidean_division_equations; lia.
Qed.

Lemma sign_bit_u16 s : short s → Z.land (Z.shiftr (u16 s) 8) 0x80 = if s <? 0 then 128 else 0.
Proof.
  intros Hs. rewrite Z.shiftr_div_pow2 by lia. unfold uwrap. change (2 ^ 8) with 256.
  change (2 ^ 16) with 65536.
  assert (0 <= s mod 65536 / 256 < 0 + 256) as Hq by (Z.to_euclidean_division_equations; lia).
  pose proof (check_range (λ z, Z.land z 0x80 =? if z <? 128 then 0 else 128) 0 256
    ltac:(vm_compute; reflexivity) _ Hq) as H. apply Z.eqb_eq in H. simpl in H. rewrite H.
  red in Hs. destruct (Z.ltb_spec (s mod 65536 / 256) 128), (Z.ltb_spec s 0); try done;
    exfalso; Z.to_euclidean_division_equations; lia.
Qed.

Definition joined (sg e m : Z) : bool :=
  (Z.lor (Z.lor sg (Z.shiftl e 4)) m =? sg + (16 * e + m)).

Lemma join_fields (neg : bool) e m :
  0 <= e < 8 → 0 <= m < 16 →
  Z.lor (Z.lor (if neg then 128 else 0) (Z.shiftl e 4)) m = (if neg then 128 else 0) + (16 * e + m).
Proof.
  intros He Hm. apply Z.eqb_eq.
  assert (∀ sg, sg = 0 ∨ sg = 128 → joined sg e m = true) as H.
  { intros sg Hsg. revert m Hm. apply (check_range _ 0 16). revert e He.
    apply (check_range (λ e, forallb (λ m, joined sg e m) (seqZ 0 16)) 0 8).
    destruct Hsg as [-> | ->]; vm_compute; reflexivity. }
  apply H. destruct neg; auto.
Qed.

Lemma complement_byte v : 0 <= v < 256 → u8 (Z.lnot v) = 255 - v.
Proof.
  intros. unfold uwrap, Z.lnot. change (2 ^ 8) with 256. Z.to_euclidean_division_equations; lia.
Qed.

Lemma land_low x n : 0 <= n → Z.land x (Z.ones n) = x mod 2 ^ n.
Proof. apply Z.land_ones. Qed.

(** *** Magnitudes *)

Lemma ulaw_lut m :
  BIAS <= m < 32768 →
  ∃ e, load ulaw_exp_lut (Z.land (Z.shiftr m 7) 0xFF) = Some e ∧ 0 <= e < 8
    ∧ 0 <= Z.land (Z.shiftr m (e + 3)) 0x0F < 16
    ∧ 16 * e + Z.land (Z.shiftr m (e + 3)) 0x0F = flt (m / 8) - 16.
Proof.
  unfold BIAS. intros Hm.
  assert (16 <= m / 8 < 2 ^ 12) as Hq by (Z.to_euclidean_division_equations; lia).
  destruct (octave (m / 8) 12) as (k & f & Hk & Hl & Hf & Hf2 & Hb); [lia..|].
  exists k. change 0xFF with (Z.ones 8). change 0x0F with (Z.ones 4). rewrite !land_low by lia.
  replace (Z.shiftr m 7) with (Z.shiftr (m / 8) 4)
    by (rewrite !Z.shiftr_div_pow2, Z.div_div by lia; done).
  assert (1 <= Z.shiftr (m / 8) 4 < 1 + 255) as Hi.
  { rewrite Z.shiftr_div_pow2 by lia. Z.to_euclidean_division_equations; lia. }
  assert (Z.log2 (Z.shiftr (m / 8) 4) = k) as Hk2 by (rewrite Z.log2_shiftr by lia; lia).
  assert (Z.shiftr m (k + 3) = f) as ->.
  { rewrite Z.shiftr_div_pow2, Z.add_comm, Z.pow_add_r, <- Z.div_div by lia. done. }
  change (2 ^ 4) with 16. change (2 ^ 8) with 256. split_and!; try lia.
  - rewrite Z.mod_small by lia.
    pose proof (check_range (λ z, gives (load ulaw_exp_lut z) (Z.log2 z)) 1 255
      ltac:(vm_compute; reflexivity) _ Hi) as H.
    apply gives_eq in H. by rewrite H, Hk2.
  - Z.to_euclidean_division_equations; lia.
  - Z.to_euclidean_division_equations; lia.
  - unfold flt. destruct (Z.ltb_spec (m / 8) 16); [lia|]. rewrite Hl.
    replace (k + 4 - 4) with k by lia. rewrite Hf. Z.to_euclidean_division_equations; lia.
Qed.

(** The segment of a magnitude. *)
Definition alaw_seg (m e : Z) : Prop :=
  (e = 0 ∧ m < 256) ∨ (1 <= e < 8 ∧ 2 ^ (e + 7) <= m < 2 ^ (e + 8)).

Lemma alaw_fields m e :
  0 <= m < 32768 → alaw_seg m e →
  let sh := if negb (e =? 0) then e + 3 else 4 in
  0 <= Z.land (Z.shiftr m sh) 0x0F < 16 ∧
  16 * e + Z.land (Z.shiftr m sh) 0x0F = flt (m / 16).
Proof.
  intros Hm He. simpl. change 0x0F with (Z.ones 4). rewrite !land_low by lia.
  change (2 ^ 4) with 16. split; [Z.to_euclidean_division_equations; lia|].
  unfold flt. destruct He as [[-> He] | [He Hb]].
  - simpl. rewrite Z.shiftr_div_pow2 by lia. change (2 ^ 4) with 16.
    destruct (Z.ltb_spec (m / 16) 16); Z.to_euclidean_division_equations; lia.
  - destruct (Z.eqb_spec e 0); [lia|]. simpl.
    pose proof (Z.pow_le_mono_r 2 8 (e + 7)).
    destruct (octave (m / 16) 11) as (k & f & Hk & Hl & Hf & Hf2 & Hq);
      [Z.to_euclidean_division_equations; lia|lia|].
    assert (e = k + 1) as ->.
    { assert (Z.log2 m = e + 7) as Hm2.
      { apply Z.log2_unique; [lia|]. replace (Z.succ (e + 7)) with (e + 8) by lia. done. }
      rewrite <- (Z.shiftr_div_pow2 _ 4), Z.log2_shiftr in Hl by lia. lia. }
    destruct (Z.ltb_spec (m / 16) 16); [Z.to_euclidean_division_equations; lia|].
    rewrite Hl. replace (k + 4 - 4) with k by lia. rewrite Hf.
    replace (k + 1 + 3) with (4 + k) by lia.
    rewrite Z.shiftr_div_pow2, Z.pow_add_r, <- Z.div_div by lia. change (2 ^ 4) with 16.
    rewrite Hf. Z.to_euclidean_division_equations; lia.
Qed.

Lemma alaw_segment_ok m : 0 <= m < 32768 → alaw_seg m (alaw_segment alaw_seg_end 0 m).
Proof.
  intros Hm. unfold alaw_seg, alaw_seg_end. cbn [alaw_segment].
  repeat match goal with |- context [m <=? ?b] => destruct (Z.leb_spec m b) end; simpl; lia.
Qed.

Lemma alaw_lut m :
  0 <= m < 32768 →
  ∃ e, load alaw_exp_lut (Z.land (Z.shiftr m 8) 0x7f) = Some e
    ∧ alaw_seg m (if m <? 0x100 then 0 else e) ∧ (m < 0x100 → e = 1) ∧ 0 <= e < 8.
Proof.
  intros Hm. change 0x7f with (Z.ones 7). rewrite land_low by lia.
  rewrite Z.shiftr_div_pow2 by lia. change (2 ^ 8) with 256. change (2 ^ 7) with 128.
  assert (0 <= m / 256 < 0 + 128) as Hi by (Z.to_euclidean_division_equations; lia).
  rewrite Z.mod_small by lia.
  pose proof (check_range (λ z, gives (load alaw_exp_lut z) (Z.log2 z + 1)) 0 128
    ltac:(vm_compute; reflexivity) _ Hi) as H.
  apply gives_eq in H. rewrite H. eexists. split; [done|].
  assert (m < 256 → m / 256 = 0) as Hz by (intros; apply Z.div_small; lia).
  destruct (Z.ltb_spec m 256).
  - rewrite Hz by done. simpl. unfold alaw_seg. lia.
  - split_and!; [right| lia | pose proof (Z.log2_nonneg (m / 256)); lia |].
    + assert (0 < m / 256) by (Z.to_euclidean_division_equations; lia).
      assert (Z.log2 (m / 256) = Z.log2 m - 8) as ->.
      { rewrite <- (Z.shiftr_div_pow2 _ 8), Z.log2_shiftr by lia.
        pose proof (Z.log2_le_mono 256 m). simpl in *. lia. }
      pose proof (Z.log2_le_mono 256 m ltac:(done)) as L1. change (Z.log2 256) with 8 in L1.
      assert (Z.log2 m < 15) by (apply Z.log2_lt_pow2; lia).
      pose proof (Z.log2_spec m ltac:(lia)) as L2. rewrite <- Z.add_1_r in L2.
      replace (Z.log2 m - 8 + 1 + 7) with (Z.log2 m) by lia.
      replace (Z.log2 m - 8 + 1 + 8) with (Z.log2 m + 1) by lia. lia.
    + destruct (decide (m / 256 = 0)) as [->|]; [done|].
      assert (Z.log2 (m / 256) < 7) by (apply Z.log2_lt_pow2; lia). lia.
Qed.

(** *** Samples *)

Lemma units_range top bias sh s :
  0 <= bias → 0 <= top → top + bias < 32768 → 0 <= sh <= 4 →
  bias / 2 ^ sh <= units top bias sh s < 2 ^ (15 - sh).
Proof.
  intros Hb Ht Hs Hh. unfold units. pose proof (Z.pow_pos_nonneg 2 sh).
  split; [apply Z.div_le_mono; lia|]. apply Z.div_lt_upper_bound; [lia|].
  rewrite <- Z.pow_add_r by lia. replace (sh + (15 - sh)) with 15 by lia. lia.
Qed.

Lemma ulaw_mag_range s : 0 <= ulaw_mag s < 128.
Proof.
  unfold ulaw_mag. pose proof (units_range CLIP BIAS 3 s) as H.
  unfold BIAS, CLIP in *. destruct H as [H1 H2]; [lia..|].
  destruct (flt_cell (units 32635 0x84 3 s) 12) as (? & _ & _ & ? & _); [split; [|exact H2]|lia|].
  - etransitivity; [|exact H1]. done.
  - change (0x84 / 2 ^ 3) with 16 in H1. lia.
Qed.

Lemma alaw_mag_range s : 0 <= alaw_mag s < 128.
Proof.
  unfold alaw_mag. pose proof (units_range 32767 0 4 s) as H. destruct H as [H1 H2]; [lia..|].
  destruct (flt_cell (units 32767 0 4 s) 11) as (? & _); [split; [|exact H2]|lia|lia].
  etransitivity; [|exact H1]. done.
Qed.

End Encoders.
Import Encoders.

Module Functions.

Lemma join_code (neg : bool) e m c :
  0 <= e < 8 → 0 <= m < 16 → 16 * e + m = c → 0 <= c < 128 →
  Z.lor (Z.lor (if neg then 128 else 0) (Z.shiftl e 4)) m = (if neg then 128 else 0) + c.
Proof. intros He Hm <- _. by apply join_fields. Qed.

(** With no sign. *)
Lemma join_half e m : 0 <= e < 8 → 0 <= m < 16 → u8 (Z.lor (Z.shiftl e 4) m) = 16 * e + m.
Proof.
  intros He Hm. rewrite lor_shiftl_add by lia. change (2 ^ 4) with 16.
  rewrite uwrap_small; simpl; lia.
Qed.

Lemma s16_small x : short x → s16 x = x.
Proof. intros H. apply swrap_small; [done|]. red in H. simpl. lia. Qed.

Lemma linear2ulaw_ok s : short s → s ≠ -32768 → linear2ulaw s = Some (ulaw_code s).
Proof.
  intros Hs Hm. unfold linear2ulaw. rewrite sign_bit by done.
  set (mag := Z.min CLIP (Z.abs s) + BIAS).
  assert (s16 ((if (if negb ((if s <? 0 then 128 else 0) =? 0) then s16 (- s) else s) >? CLIP
    then CLIP else if negb ((if s <? 0 then 128 else 0) =? 0) then s16 (- s) else s) + BIAS)
    = mag) as ->.
  { assert (∀ x, short x → x = Z.abs s → s16 ((if x >? CLIP then CLIP else x) + BIAS) = mag) as H.
    { intros x Hx ->. unfold CLIP, BIAS in *. subst mag. destruct (Z.gtb_spec (Z.abs s) 32635);
        rewrite s16_small; unfold short in *; lia. }
    unfold short in *. destruct (Z.ltb_spec s 0); simpl; apply H; rewrite ?s16_small;
      unfold short; lia. }
  assert (BIAS <= mag < 32768) as Hr by (subst mag; unfold CLIP, BIAS; lia).
  destruct (ulaw_lut mag Hr) as (e & -> & He & Hf & E). simpl.
  pose proof (ulaw_mag_range s) as Hc. unfold ulaw_mag, units in Hc. fold mag in Hc.
  change (2 ^ 3) with 8 in Hc. f_equal.
  rewrite (join_code _ _ _ _ He Hf E Hc).
  unfold ulaw_code, ulaw_mag, units. fold mag. change (2 ^ 3) with 8.
  apply complement_byte. destruct (s <? 0); lia.
Qed.

Lemma u32_small x : 0 <= x < 2 ^ 31 → u32 x = x.
Proof. intros. apply uwrap_small. simpl in *. lia. Qed.

Lemma ast_ulaw_get_sign_mag_ok s :
  short s → ast_ulaw_get_sign_mag s = (if s <? 0 then 128 else 0, Z.abs s).
Proof.
  intros Hs. unfold ast_ulaw_get_sign_mag. rewrite sign_bit_u16 by done. f_equal.
  red in Hs. destruct (Z.ltb_spec s 0); rewrite u32_small; simpl; lia.
Qed.

Lemma ast_alaw_get_sign_mag_ok s :
  short s → ast_alaw_get_sign_mag s = (if s <? 0 then 0 else 128, Z.abs s).
Proof.
  intros Hs. unfold ast_alaw_get_sign_mag. change AST_ALAW_SIGN_BIT with 0x80.
  rewrite sign_bit_u16 by done. f_equal; [by destruct (s <? 0)|].
  red in Hs. destruct (Z.ltb_spec s 0); rewrite u32_small; simpl; lia.
Qed.

Lemma linear2ulaw_new_ok s full :
  short s →
  linear2ulaw_new s full = Some (if full then ulaw_code s else ulaw_mag s).
Proof.
  intros Hs. unfold linear2ulaw_new. rewrite ast_ulaw_get_sign_mag_ok, sign_bit by done.
  set (mag := Z.min CLIP (Z.abs s) + BIAS).
  assert (u32 ((if Z.abs s >? CLIP then CLIP else Z.abs s) + BIAS) = mag) as ->.
  { subst mag. unfold CLIP, BIAS. red in Hs.
    destruct (Z.gtb_spec (Z.abs s) 32635); rewrite u32_small; simpl; lia. }
  assert (BIAS <= mag < 32768) as Hr by (subst mag; unfold CLIP, BIAS; lia).
  destruct (ulaw_lut mag Hr) as (e & -> & He & Hf & E). simpl.
  pose proof (ulaw_mag_range s) as Hc. unfold ulaw_mag, units in Hc. fold mag in Hc.
  change (2 ^ 3) with 8 in Hc. f_equal. destruct full.
  - rewrite (join_code _ _ _ _ He Hf E Hc).
    unfold ulaw_code, ulaw_mag, units. fold mag. change (2 ^ 3) with 8.
    apply complement_byte. destruct (s <? 0); lia.
  - rewrite join_half by done. exact E.
Qed.

Lemma linear2alaw_ok s : short s → s ≠ -32768 → linear2alaw s = alaw_code s.
Proof.
  intros Hs Hm. unfold linear2alaw. red in Hs.
  assert ((if 0 <=? s then (Z.lor AMI_MASK 0x80, s) else (AMI_MASK, - s))
    = (Z.lxor (if s <? 0 then 0 else 128) AMI_MASK, Z.abs s)) as ->.
  { destruct (Z.leb_spec 0 s), (Z.ltb_spec s 0); try lia;
      (apply (f_equal2 pair); [done|lia]). }
  destruct (alaw_fields (Z.abs s) _ ltac:(lia) (alaw_segment_ok (Z.abs s) ltac:(lia))) as [Hf E].
  pose proof (alaw_mag_range s) as Hc. unfold alaw_mag, units in Hc.
  rewrite Z.min_r, Z.add_0_r in Hc by lia. change (2 ^ 4) with 16 in Hc.
  set (e := alaw_segment alaw_seg_end 0 (Z.abs s)) in *.
  set (m := Z.land _ 0x0F) in *.
  assert (Z.lor (Z.shiftl e 4) m = flt (Z.abs s / 16)) as ->.
  { rewrite lor_shiftl_add by (simpl; lia). change (2 ^ 4) with 16. lia. }
  unfold alaw_code, alaw_mag, units. rewrite Z.min_r, Z.add_0_r by lia. change (2 ^ 4) with 16.
  revert Hc. generalize (flt (Z.abs s / 16)). intros c Hc.
  assert (∀ neg : bool, u8 (Z.lxor c (Z.lxor (if neg then 0 else 128) AMI_MASK))
    = Z.lxor ((if neg then 0 else 128) + c) AMI_MASK) as H; [|apply H].
  intros neg. apply Z.eqb_eq. revert c Hc.
  apply (check_range (λ c, u8 (Z.lxor c (Z.lxor (if neg then 0 else 128) AMI_MASK))
    =? Z.lxor ((if neg then 0 else 128) + c) AMI_MASK) 0 128).
  destruct neg; vm_compute; reflexivity.
Qed.

Lemma linear2alaw_new_ok s full :
  short s →
  linear2alaw_new s full = Some (if full then alaw_code s else alaw_mag s).
Proof.
  intros Hs. unfold linear2alaw_new. rewrite ast_alaw_get_sign_mag_ok by done.
  set (mag := Z.min 32767 (Z.abs s)).
  assert ((if Z.abs s >? 32767 then 32767 else Z.abs s) = mag) as ->
    by (destruct (Z.gtb_spec (Z.abs s) 32767); lia).
  destruct (alaw_lut mag ltac:(lia)) as (e & -> & Hseg & H1 & He). simpl.
  destruct (alaw_fields mag _ ltac:(lia) Hseg) as [Hf E].
  assert ((if negb ((if mag <? 256 then 0 else e) =? 0) then (if mag <? 256 then 0 else e) + 3 else 4)
    = e + 3) as Hsh.
  { destruct (Z.ltb_spec mag 256); simpl; [by rewrite H1|].
    destruct Hseg as [[? ?]|[? ?]]; [lia|]. by destruct (Z.eqb_spec e 0); [lia|]. }
  rewrite Hsh in Hf, E.
  assert (0 <= (if mag <? 256 then 0 else e) < 8) as He' by (destruct (mag <? 256); lia).
  pose proof (alaw_mag_range s) as Hc. unfold alaw_mag, units in Hc. fold mag in Hc.
  rewrite Z.add_0_r in Hc. change (2 ^ 4) with 16 in Hc. f_equal.
  unfold alaw_code, alaw_mag, units. fold mag. rewrite Z.add_0_r. change (2 ^ 4) with 16.
  destruct full.
  - f_equal. assert ((if s <? 0 then 0 else 128) = (if negb (s <? 0) then 128 else 0)) as ->
      by by destruct (s <? 0).
    rewrite (join_code _ _ _ _ He' Hf E Hc).
    apply uwrap_small. change (2 ^ 8) with 256. destruct (negb (s <? 0)); lia.
  - rewrite join_half by done. exact E.
Qed.

(** *** Decoders *)

Definition byte_range : list Z := seqZ 0 256.

Lemma decoders_ok b :
  0 <= b < 256 →
  mulaw_cell b = Some (ulaw_level b) ∧ ulaw2linear b = Some (ulaw_level b)
  ∧ alaw2linear b = alaw_level b ∧ alaw2linear_new b = alaw_level b ∧ u8 b = b.
Proof.
  intros Hb.
  pose proof (check_range (λ b, gives (mulaw_cell b) (ulaw_level b)
    && gives (ulaw2linear b) (ulaw_level b) && (alaw2linear b =? alaw_level b)
    && (alaw2linear_new b =? alaw_level b)) 0 256 ltac:(vm_compute; reflexivity) b Hb) as H.
  apply andb_true_iff in H as [H H4%Z.eqb_eq]. apply andb_true_iff in H as [H H3%Z.eqb_eq].
  apply andb_true_iff in H as [H1%gives_eq H2%gives_eq].
  split_and!; try done. apply uwrap_small. simpl. lia.
Qed.

End Functions.

(** ** The tables hold the codes and the levels *)

Module Lookups.
Import Encoders Functions.

(** A level decodes from its byte. *)
Definition decodes (level : Z → Z) (tab : list Z) : Prop :=
  ∀ b, 0 <= b < 256 → load tab b = Some (level b).

Lemma fill_decoder g level tab :
  (∀ b, 0 <= b < 256 → g b = Some (level b)) → length tab = 256%nat →
  ∃ tab', fill_table 256 0 256 1 id g tab = Some tab' ∧ decodes level tab'.
Proof.
  intros Hg Hl.
  destruct (fill_table_ok id id level g 0 256 1 256 ltac:(done)) with (fuel := 256%nat) (tab := tab)
    as (t' & Ht & _ & Hd); unfold round, id in *; try lia.
  - intros j [Hj _]. by apply Hg.
  - exists t'. split; [done|]. intros b Hb. apply Hd. split; [done|]. apply Z.mod_1_r.
Qed.

(** The last of [2 ^ n] neighbours that share a slot. *)
Definition top (n s : Z) : Z := s / 2 ^ n * 2 ^ n + (2 ^ n - 1).

Lemma top_range n s : 0 < n <= 4 → short s → s <= top n s ∧ short (top n s) ∧ top n s ≠ -32768
  ∧ top n s < s + 2 ^ n.
Proof.
  unfold short, top. intros Hn Hs.
  assert (n = 1 ∨ n = 2 ∨ n = 3 ∨ n = 4) as [-> | [-> | [-> | ->]]] by lia;
    simpl; Z.to_euclidean_division_equations; lia.
Qed.

Lemma fill_samples n fuel slot g f tab :
  (n = 2 ∨ n = 3) → 65536 <= Z.of_nat fuel → (∀ i, slot i = Z.shiftr (u16 i) n) → (∀ s, short s → g s = Some (f s)) →
  Z.of_nat (length tab) = 2 ^ (16 - n) →
  ∃ tab', fill_table fuel (-32768) 32768 1 slot g tab = Some tab'
    ∧ ∀ s, short s → load tab' (slot s) = Some (f (top n s)).
Proof.
  intros Hn Hfuel Hslot Hg Hl.
  assert (∀ i, slot i = i mod 65536 / 2 ^ n) as Hsl
    by (intros; rewrite Hslot, Z.shiftr_div_pow2 by lia; done).
  destruct (fill_table_ok slot (top n) f g (-32768) 32768 1
    (2 ^ (16 - n)) ltac:(done)) with (fuel := fuel) (tab := tab)
    as (t' & Ht & _ & Hd); unfold round in *; try lia.
  - intros j [Hj _]. by apply Hg.
  - intros j [Hj _]. rewrite Hsl.
    destruct Hn as [-> | ->]; simpl; Z.to_euclidean_division_equations; lia.
  - intros j [Hj _]. pose proof (top_range n j ltac:(lia) Hj) as (? & ? & _). red in H0. lia.
  - intros i j [Hi _] [Hj _]. rewrite !Hsl. unfold top.
    destruct Hn as [-> | ->]; simpl; Z.to_euclidean_division_equations; lia.
  - intros i j [Hi _] [Hj _] Hlt. unfold top.
    destruct Hn as [-> | ->]; simpl; Z.to_euclidean_division_equations; lia.
  - intros j [Hj _]. pose proof (top_range n j ltac:(lia) Hj) as (_ & ? & _).
    split; [done|]. apply Z.mod_1_r.
  - exists t'. split; [done|]. intros s Hs. apply Hd. split; [done|]. apply Z.mod_1_r.
Qed.

(** Rounds of [2 ^ n] samples, each with a slot of its own. *)
Lemma fill_steps n r fuel stp slot g f tab :
  (n = 3 ∨ n = 4) → 0 <= r < 2 ^ n → stp = 2 ^ n → 2 ^ (15 - n) < Z.of_nat fuel →
  (∀ i, slot i = Z.shiftr (i + r) n) → (∀ i, 0 <= i <= 32768 → g i = Some (f i)) →
  Z.of_nat (length tab) = 2 ^ (15 - n) + 1 →
  ∃ tab', fill_table fuel 0 32769 stp slot g tab = Some tab'
    ∧ ∀ q, 0 <= q <= 2 ^ (15 - n) → load tab' q = Some (f (q * 2 ^ n)).
Proof.
  intros Hn Hr -> Hfuel Hslot Hg Hl.
  assert (∀ i, i mod 2 ^ n = 0 → slot i = i / 2 ^ n) as Hsl.
  { intros i Hi. rewrite Hslot, Z.shiftr_div_pow2 by lia.
    destruct Hn as [-> | ->]; simpl in *; Z.to_euclidean_division_equations; lia. }
  destruct (fill_table_ok slot id f g 0 32769 (2 ^ n)
    (2 ^ (15 - n) + 1)) with (fuel := fuel) (tab := tab)
    as (t' & Ht & _ & Hd); unfold round, id in *; try done.
  - lia.
  - intros j [Hj _]. apply Hg. lia.
  - intros j [Hj Hm]. rewrite Z.sub_0_r in Hm. rewrite Hsl by done.
    destruct Hn as [-> | ->]; simpl in *; Z.to_euclidean_division_equations; lia.
  - lia.
  - intros i j [Hi Hmi] [Hj Hmj]. rewrite Z.sub_0_r in Hmi, Hmj. rewrite !Hsl by done.
    destruct Hn as [-> | ->]; simpl in *; Z.to_euclidean_division_equations; lia.
  - intros i j [Hi Hmi] [Hj Hmj] Hlt _. rewrite Z.sub_0_r in Hmi, Hmj.
    destruct Hn as [-> | ->]; simpl in *; Z.to_euclidean_division_equations; lia.
  - destruct Hn as [-> | ->]; simpl; lia.
  - exists t'. split; [done|]. intros q Hq.
    specialize (Hd (q * 2 ^ n)). rewrite Hsl, Z.div_mul in Hd by (lia || (apply Z.mod_mul; lia)).
    apply Hd. rewrite Z.sub_0_r, Z.mod_mul by lia. clear -Hn Hq.
    destruct Hn as [-> | ->]; simpl in *; lia.
Qed.

(** *** The contents of the initialised tables *)

Definition sized (n : Z) (t : tables) : Prop :=
  Z.of_nat (length (lin2code t)) = n ∧ length (code2lin t) = 256%nat.

(** [enc] is what the sample macro gives, [level] what the byte macro gives. *)
Definition codec (enc level : Z → Z) (lin2 lin : Z → option Z) : Prop :=
  (∀ s, short s → lin2 s = Some (enc s)) ∧ ∀ b, 0 <= b < 256 → lin b = Some (level b).

(** The number of rounds as a variable, of which only the value is known. *)
Ltac abstract_fuel n :=
  let H := fresh "Hfuel" in
  pose proof (Z2Nat.id n ltac:(done)) as H; revert H;
  generalize (Z.to_nat n); intros fuel H.

Lemma ast_ulaw_init_ok t :
  sized 16384 t →
  ∃ t', ast_ulaw_init t = Some t'
    ∧ codec (λ s, ulaw_code (top 2 s)) ulaw_level (AST_LIN2MU t') (AST_MULAW t').
Proof.
  intros [Hl Hd]. unfold ast_ulaw_init. abstract_fuel 65536.
  destruct (fill_decoder mulaw_cell ulaw_level (code2lin t)) as (d & -> & Hdec);
    [intros b Hb; by apply decoders_ok|done|]. cbn [mbind option_bind].
  destruct (fill_samples 2 fuel ulaw_slot linear2ulaw (λ s, if decide (s = -32768) then 127 else ulaw_code s)
    (lin2code t)) as (l & Hfill & Hlook); [auto|by rewrite Hfuel|done| |exact Hl|].
  { intros s Hs. case_decide as E; [by subst|]. by apply linear2ulaw_ok. }
  rewrite Hfill. cbn [mbind option_bind]. eexists. split; [reflexivity|]. split; [|done].
  intros s Hs. unfold AST_LIN2MU. cbn [lin2code]. rewrite Hlook by done.
  pose proof (top_range 2 s ltac:(lia) Hs). by rewrite decide_False by tauto.
Qed.

Lemma ast_alaw_init_ok t :
  sized 8192 t →
  ∃ t', ast_alaw_init t = Some t'
    ∧ codec (λ s, alaw_code (top 3 s)) alaw_level (AST_LIN2A t') (AST_ALAW t').
Proof.
  intros [Hl Hd]. unfold ast_alaw_init. abstract_fuel 65536.
  destruct (fill_decoder (λ i, Some (alaw2linear (u8 i))) alaw_level (code2lin t))
    as (d & -> & Hdec); [|done|].
  { intros b Hb. destruct (decoders_ok b Hb) as (_ & _ & E & _ & ->). by rewrite E. } cbn [mbind option_bind].
  destruct (fill_samples 3 fuel alaw_slot (λ i, Some (linear2alaw i)) linear2alaw (lin2code t))
    as (l & Hfill & Hlook); [auto|by rewrite Hfuel|done|done|exact Hl|].
  rewrite Hfill. cbn [mbind option_bind]. eexists. split; [reflexivity|]. split; [|done].
  intros s Hs. unfold AST_LIN2A. cbn [lin2code]. rewrite Hlook by done.
  pose proof (top_range 3 s ltac:(lia) Hs) as (_ & ? & ? & _). by rewrite linear2alaw_ok.
Qed.

(** The counter of the last round does not fit a [short]. *)
Lemma short_counter i : 0 <= i <= 32768 → short (s16 i) ∧ Z.abs (s16 i) = i.
Proof.
  intros Hi. unfold short. destruct (decide (i = 32768)) as [->|]; [done|].
  rewrite s16_small; unfold short; lia.
Qed.

Lemma mag_abs s s' : Z.abs s = Z.abs s' → ulaw_mag s = ulaw_mag s' ∧ alaw_mag s = alaw_mag s'.
Proof. unfold ulaw_mag, alaw_mag, units. by intros ->. Qed.

Lemma ast_ulaw_init_new_ok t :
  sized AST_ULAW_TAB_SIZE t →
  ∃ t', ast_ulaw_init_new t = Some t'
    ∧ codec ulaw_code ulaw_level (AST_LIN2MU_new t') (AST_MULAW t').
Proof.
  intros [Hl Hd]. unfold ast_ulaw_init_new. abstract_fuel 4097.
  destruct (fill_decoder (λ i, ulaw2linear (u8 i)) ulaw_level (code2lin t))
    as (d & -> & Hdec); [|done|].
  { intros b Hb. destruct (decoders_ok b Hb) as (_ & E & _ & _ & ->). done. } cbn [mbind option_bind].
  destruct (fill_steps 3 4 fuel AST_ULAW_STEP ulaw_slot_new (λ i, linear2ulaw_new (s16 i) false) ulaw_mag (lin2code t))
    as (l & Hfill & Hlook); [auto|lia|done|by rewrite Hfuel|done| |exact Hl|].
  { intros i Hi. destruct (short_counter i Hi) as [Hs Ha].
    rewrite linear2ulaw_new_ok by done. f_equal. apply mag_abs. lia. }
  rewrite Hfill. cbn [mbind option_bind]. eexists. split; [reflexivity|]. split; [|done].
  intros s Hs. unfold AST_LIN2MU_new. rewrite ast_ulaw_get_sign_mag_ok by done. cbn [lin2code].
  change (ulaw_slot_new (Z.abs s)) with (Z.shiftr (Z.abs s + 4) 3).
  rewrite Z.shiftr_div_pow2 by lia. red in Hs. simpl in Hlook.
  rewrite Hlook by (simpl; Z.to_euclidean_division_equations; lia).
  assert (ulaw_mag ((Z.abs s + 4) / 2 ^ 3 * 2 ^ 3) = ulaw_mag s) as ->.
  { unfold ulaw_mag, units, CLIP, BIAS. do 2 f_equal. simpl.
    Z.to_euclidean_division_equations; lia. }
  simpl. f_equal. pose proof (ulaw_mag_range s) as Hm. unfold ulaw_code.
  rewrite <- complement_byte by (destruct (s <? 0); lia). do 2 f_equal.
  pose proof (join_fields (s <? 0) (ulaw_mag s / 16) (ulaw_mag s mod 16)) as J.
  revert J. rewrite <- Z.lor_assoc, lor_shiftl_add by (simpl; Z.to_euclidean_division_equations; lia).
  change (2 ^ 4) with 16. rewrite (Z.mul_comm _ 16), <- Z.div_mod by lia. intros J. apply J;
    Z.to_euclidean_division_equations; lia.
Qed.

Lemma ast_alaw_init_new_ok t :
  sized AST_ALAW_TAB_SIZE t →
  ∃ t', ast_alaw_init_new t = Some t'
    ∧ codec alaw_code alaw_level (AST_LIN2A_new t') (AST_ALAW t').
Proof.
  intros [Hl Hd]. unfold ast_alaw_init_new. abstract_fuel 2049.
  destruct (fill_decoder (λ i, Some (alaw2linear_new (u8 i))) alaw_level (code2lin t))
    as (d & -> & Hdec); [|done|].
  { intros b Hb. destruct (decoders_ok b Hb) as (_ & _ & _ & E & ->). by rewrite E. } cbn [mbind option_bind].
  destruct (fill_steps 4 0 fuel AST_ALAW_STEP alaw_slot_new (λ i, linear2alaw_new (s16 i) false) alaw_mag (lin2code t))
    as (l & Hfill & Hlook); [auto|lia|done|by rewrite Hfuel| | |exact Hl|].
  { intros i. by rewrite Z.add_0_r. }
  { intros i Hi. destruct (short_counter i Hi) as [Hs Ha].
    rewrite linear2alaw_new_ok by done. f_equal. apply mag_abs. lia. }
  rewrite Hfill. cbn [mbind option_bind]. eexists. split; [reflexivity|]. split; [|done].
  intros s Hs. unfold AST_LIN2A_new. rewrite ast_alaw_get_sign_mag_ok by done. cbn [lin2code].
  unfold alaw_slot_new. rewrite Z.shiftr_div_pow2 by lia. red in Hs.
  rewrite Hlook by (simpl; Z.to_euclidean_division_equations; lia).
  cbn [mbind option_bind]. f_equal. unfold alaw_code.
  assert (alaw_mag (Z.abs s / 2 ^ 4 * 2 ^ 4) = alaw_mag s) as ->.
  { unfold alaw_mag, units. f_equal. simpl. Z.to_euclidean_division_equations; lia. }
  pose proof (alaw_mag_range s) as Hm. revert Hm. generalize (alaw_mag s). intros c Hc.
  apply Z.eqb_eq. revert c Hc.
  apply (check_range (λ c, u8 (Z.lxor (Z.lor (if s <? 0 then 0 else 128) c) AST_ALAW_AMI_MASK)
    =? Z.lxor ((if s <? 0 then 0 else 128) + c) AMI_MASK) 0 128).
  destruct (s <? 0); vm_compute; reflexivity.
Qed.

(** ** What the codes mean *)

(** Codes round trip, but for the negative zero of u-law. *)
Definition canonical_code (b : Z) : Z := if b =? 0x7f then 0xff else b.

Lemma ulaw_level_code b :
  0 <= b < 256 →
  short (ulaw_level b) ∧ ulaw_code (ulaw_level b) = canonical_code b
  ∧ ulaw_code (top 2 (ulaw_level b)) = canonical_code b.
Proof.
  intros Hb.
  pose proof (check_range (λ b, (-32768 <=? ulaw_level b) && (ulaw_level b <? 32768)
    && (ulaw_code (ulaw_level b) =? canonical_code b)
    && (ulaw_code (top 2 (ulaw_level b)) =? canonical_code b)) 0 256
    ltac:(vm_compute; reflexivity) b Hb) as H.
  rewrite !andb_true_iff, !Z.eqb_eq, Z.leb_le, Z.ltb_lt in H. unfold short. tauto.
Qed.

Lemma alaw_level_code b :
  0 <= b < 256 →
  short (alaw_level b) ∧ alaw_code (alaw_level b) = b ∧ alaw_code (top 3 (alaw_level b)) = b.
Proof.
  intros Hb.
  pose proof (check_range (λ b, (-32768 <=? alaw_level b) && (alaw_level b <? 32768)
    && (alaw_code (alaw_level b) =? b) && (alaw_code (top 3 (alaw_level b)) =? b)) 0 256
    ltac:(vm_compute; reflexivity) b Hb) as H.
  rewrite !andb_true_iff, !Z.eqb_eq, Z.leb_le, Z.ltb_lt in H. unfold short. tauto.
Qed.

Lemma ulaw_code_range s : 0 <= ulaw_code s < 256 ∧ (ulaw_code s = 0x7f → s < 0).
Proof.
  pose proof (ulaw_mag_range s). unfold ulaw_code. destruct (Z.ltb_spec s 0); lia.
Qed.

Lemma alaw_code_range s : 0 <= alaw_code s < 256.
Proof.
  pose proof (alaw_mag_range s) as Hm. unfold alaw_code. revert Hm. generalize (alaw_mag s).
  intros c Hc. assert (0 <= (if s <? 0 then 0 else 128) + c < 0 + 256) as Hr
    by (destruct (s <? 0); lia).
  pose proof (check_range (λ z, (0 <=? Z.lxor z AMI_MASK) && (Z.lxor z AMI_MASK <? 256)) 0 256
    ltac:(vm_compute; reflexivity) _ Hr) as H. cbv beta in H.
  apply andb_true_iff in H as [?%Z.leb_le ?%Z.ltb_lt]. lia.
Qed.

(** The level of a sample's code, for the magnitude [y] of the level. *)
Lemma ulaw_level_of s :
  let c := flt (units CLIP BIAS 3 s) in
  let y := 8 * unflt c + 4 * step c - BIAS in
  ulaw_level (ulaw_code s) = if s <? 0 then - y else y.
Proof.
  cbv zeta. unfold ulaw_level, ulaw_code. pose proof (ulaw_mag_range s) as Hm.
  replace (255 - (255 - ((if s <? 0 then 128 else 0) + ulaw_mag s)))
    with ((if s <? 0 then 128 else 0) + ulaw_mag s) by lia.
  assert (((if s <? 0 then 128 else 0) + ulaw_mag s) mod 128 + 16 = flt (units CLIP BIAS 3 s)) as ->.
  { unfold ulaw_mag in *. destruct (s <? 0); Z.to_euclidean_division_equations; lia. }
  destruct (s <? 0), (Z.leb_spec 128 ((if true then 128 else 0) + ulaw_mag s)),
    (Z.leb_spec 128 (0 + ulaw_mag s)); try lia; try done;
    case_match; try done; exfalso; lia.
Qed.

Lemma alaw_level_of s :
  let c := flt (units 32767 0 4 s) in
  let y := 16 * unflt c + 8 * step c in
  alaw_level (alaw_code s) = if s <? 0 then - y else y.
Proof.
  cbv zeta. unfold alaw_level, alaw_code. pose proof (alaw_mag_range s) as Hm.
  rewrite Z.lxor_assoc, Z.lxor_nilpotent, Z.lxor_0_r.
  assert (((if s <? 0 then 0 else 128) + alaw_mag s) mod 128 = flt (units 32767 0 4 s)) as ->.
  { unfold alaw_mag in *. destruct (s <? 0); Z.to_euclidean_division_equations; lia. }
  destruct (s <? 0); case_match eqn:E; try done; apply Z.leb_le in E || apply Z.leb_gt in E; lia.
Qed.

(** The top of a slot has the sign of its samples and almost their magnitude. *)
Lemma top_mag n s :
  n = 2 ∨ n = 3 → short s →
  (top n s <? 0) = (s <? 0)
  ∧ (0 <= s → s <= top n s ∧ top n s / 2 ^ n = s / 2 ^ n)
  ∧ (s < 0 → top n s < 0 ∧ s <= top n s < s + 2 ^ n ∧ (- top n s) mod 2 ^ n = 1).
Proof.
  unfold short, top. intros [-> | ->] Hs; simpl; split_and!;
    [destruct (Z.ltb_spec s 0), (Z.ltb_spec (s / 4 * 4 + 3) 0); try done| | |
     destruct (Z.ltb_spec s 0), (Z.ltb_spec (s / 8 * 8 + 7) 0); try done| |];
    Z.to_euclidean_division_equations; lia.
Qed.

Lemma ulaw_cell s :
  short s →
  let c := flt (units CLIP BIAS 3 s) in
  let m := Z.min CLIP (Z.abs s) + BIAS in
  8 * unflt c <= m < 8 * unflt c + 8 * step c ∧ 128 * step c <= m ∧ 16 <= unflt c ∧ 0 < step c
  ∧ (CLIP < Z.abs s → 8 * unflt c + 4 * step c = 32256).
Proof.
  intros Hs. cbv zeta.
  assert (units CLIP BIAS 3 s = (Z.min CLIP (Z.abs s) + BIAS) / 8) as E by done.
  assert (16 <= units CLIP BIAS 3 s < 2 ^ 12) as Hr
    by (rewrite E; unfold CLIP, BIAS; simpl; Z.to_euclidean_division_equations; lia).
  assert (CLIP < Z.abs s → units CLIP BIAS 3 s = 4095) as Hclip
    by (rewrite E; unfold CLIP, BIAS; intros; rewrite Z.min_l; done || lia).
  destruct (flt_cell (units CLIP BIAS 3 s) 12) as (Hc & Hb & H0 & H16 & _); [lia..|].
  specialize (H16 ltac:(lia)) as [Hc16 H16].
  assert (16 <= unflt (flt (units CLIP BIAS 3 s))) as Hu.
  { clear -Hc16 H0. unfold unflt. destruct (Z.ltb_spec (flt (units CLIP BIAS 3 s)) 16); [lia|].
    set (c := flt _) in *. assert (0 < 2 ^ (c / 16 - 1)) by
      (apply Z.pow_pos_nonneg; Z.to_euclidean_division_equations; lia).
    assert (0 <= c mod 16) by (apply Z.mod_pos_bound; lia). nia. }
  split_and!; try (rewrite E in *; Z.to_euclidean_division_equations; lia).
  intros Hm. rewrite Hclip by done. vm_compute. reflexivity.
Qed.

Lemma alaw_cell s :
  short s →
  let c := flt (units 32767 0 4 s) in
  let m := Z.min 32767 (Z.abs s) in
  16 * unflt c <= m < 16 * unflt c + 16 * step c ∧ 256 * step c <= Z.max m 256 ∧ 0 <= unflt c
  ∧ 0 < step c.
Proof.
  intros Hs. cbv zeta.
  assert (units 32767 0 4 s = Z.min 32767 (Z.abs s) / 16) as E
    by (unfold units; by rewrite Z.add_0_r).
  assert (0 <= units 32767 0 4 s < 2 ^ 11) as Hr
    by (rewrite E; simpl; Z.to_euclidean_division_equations; lia).
  destruct (flt_cell (units 32767 0 4 s) 11) as (Hc & Hb & H0 & H16 & H1); [lia..|].
  assert (0 <= unflt (flt (units 32767 0 4 s))) as Hu.
  { clear -Hc. unfold unflt. set (c := flt _) in *. destruct (Z.ltb_spec c 16); [lia|].
    assert (0 <= c mod 16) by (apply Z.mod_pos_bound; lia). nia. }
  rewrite E in *. Z.to_euclidean_division_equations; lia.
Qed.

(** A sample, or the top of its slot, decodes close to it. *)
Lemma ulaw_error s s' :
  short s → s' = s ∨ s' = top 2 s →
  32 * Z.abs (ulaw_level (ulaw_code s') - s) <= Z.abs s + BIAS
  ∧ (0 <= s → 0 <= ulaw_level (ulaw_code s')) ∧ (s < 0 → ulaw_level (ulaw_code s') <= 0).
Proof.
  intros Hs Hs'. pose proof (top_range 2 s ltac:(lia) Hs) as (_ & Ht & _).
  destruct (top_mag 2 s ltac:(lia) Hs) as (Hsg & Hp & Hn). change (2 ^ 2) with 4 in *.
  assert ((s' <? 0) = (s <? 0)) as Esg by (destruct Hs' as [-> | ->]; done).
  assert (short s') as Hss by (destruct Hs' as [-> | ->]; done).
  pose proof (ulaw_cell s' Hss) as Hc. cbv zeta in Hc.
  rewrite ulaw_level_of, Esg. cbv zeta. revert Hc.
  generalize (unflt (flt (units CLIP BIAS 3 s'))) (step (flt (units CLIP BIAS 3 s'))).
  intros v st Hc. unfold short, CLIP, BIAS in *. clear Esg Hsg Hss.
  destruct (Z.ltb_spec s 0) as [H|H];
    [specialize (Hn H); clear Hp|specialize (Hp H); clear Hn];
    (destruct Hs' as [-> | ->]; [clear Ht|]);
    try (generalize dependent (top 2 s); intros t0);
    Z.to_euclidean_division_equations; lia.
Qed.

Lemma alaw_error s s' :
  short s → s' = s ∨ s' = top 3 s →
  32 * Z.abs (alaw_level (alaw_code s') - s) <= Z.max (Z.abs s) 256
  ∧ (0 <= s → 0 < alaw_level (alaw_code s')) ∧ (s < 0 → alaw_level (alaw_code s') < 0).
Proof.
  intros Hs Hs'. pose proof (top_range 3 s ltac:(lia) Hs) as (_ & Ht & _).
  destruct (top_mag 3 s ltac:(lia) Hs) as (Hsg & Hp & Hn). change (2 ^ 3) with 8 in *.
  assert ((s' <? 0) = (s <? 0)) as Esg by (destruct Hs' as [-> | ->]; done).
  assert (short s') as Hss by (destruct Hs' as [-> | ->]; done).
  pose proof (alaw_cell s' Hss) as Hc. cbv zeta in Hc.
  rewrite alaw_level_of, Esg. cbv zeta. revert Hc.
  generalize (unflt (flt (units 32767 0 4 s'))) (step (flt (units 32767 0 4 s'))).
  intros v st Hc. unfold short in *. clear Esg Hsg Hss.
  destruct (Z.ltb_spec s 0) as [H|H];
    [specialize (Hn H); clear Hp|specialize (Hp H); clear Hn];
    (destruct Hs' as [-> | ->]; [clear Ht|]);
    try (generalize dependent (top 3 s); intros t0);
    Z.to_euclidean_division_equations; lia.
Qed.

Lemma ulaw_code_top s : short s → ¬ (s < 0 ∧ s mod 8 = 4) → ulaw_code (top 2 s) = ulaw_code s.
Proof.
  intros Hs Hn. pose proof (top_range 2 s) as Ht. unfold ulaw_code, ulaw_mag, units, top in *.
  unfold CLIP, BIAS, short in *. f_equal. f_equal.
  - destruct (Z.ltb_spec s 0), (Z.ltb_spec (s / 2 ^ 2 * 2 ^ 2 + (2 ^ 2 - 1)) 0); try done;
      exfalso; simpl in *; Z.to_euclidean_division_equations; lia.
  - do 2 f_equal. clear Ht. simpl. Z.to_euclidean_division_equations; lia.
Qed.

Lemma alaw_code_top s : short s → ¬ (s < 0 ∧ s mod 16 = 0) → alaw_code (top 3 s) = alaw_code s.
Proof.
  intros Hs Hn. unfold alaw_code, alaw_mag, units, top in *.
  unfold short in *. f_equal. f_equal.
  - destruct (Z.ltb_spec s 0), (Z.ltb_spec (s / 2 ^ 3 * 2 ^ 3 + (2 ^ 3 - 1)) 0); try done;
      exfalso; simpl in *; Z.to_euclidean_division_equations; lia.
  - f_equal. simpl. Z.to_euclidean_division_equations; lia.
Qed.

(** *** Reading the sign without a branch *)

Lemma reduced_mag s :
  short s →
  Z.land (Z.shiftr (Z.lor (u32 (Z.shiftl (- s) 16)) (u16 s))
    (Z.shiftr (Z.land (Z.shiftr (u16 s) 8) 0x80) 3)) 0xffff
  = (if s <? 0 then u32 (- s) else u32 s).
Proof.
  intros Hs. rewrite sign_bit_u16 by done.
  assert (u32 (Z.shiftl (- s) 16) = Z.shiftl ((- s) mod 2 ^ 16) 16) as ->.
  { unfold uwrap. rewrite !Z.shiftl_mul_pow2 by lia. change (2 ^ 32) with (2 ^ 16 * 2 ^ 16).
    by rewrite Z.mul_mod_distr_r by lia. }
  rewrite lor_shiftl_add by (first [lia | by apply uwrap_range]).
  change 0xffff with (Z.ones 16). rewrite land_low by lia.
  rewrite Z.shiftr_div_pow2 by (destruct (s <? 0); vm_compute; discriminate).
  red in Hs. unfold uwrap. change (2 ^ 16) with 65536. change (2 ^ 32) with 4294967296.
  destruct (Z.ltb_spec s 0); simpl;
    [change (2 ^ Z.shiftr 128 3) with 65536 | change (2 ^ Z.shiftr 0 3) with 1];
    Z.to_euclidean_division_equations; lia.
Qed.

Lemma reduced_ulaw s : short s → ast_ulaw_get_sign_mag_reduced s = ast_ulaw_get_sign_mag s.
Proof.
  intros Hs. unfold ast_ulaw_get_sign_mag_reduced, ast_ulaw_get_sign_mag.
  by rewrite reduced_mag.
Qed.

Lemma reduced_alaw s : short s → ast_alaw_get_sign_mag_reduced s = ast_alaw_get_sign_mag s.
Proof.
  intros Hs. unfold ast_alaw_get_sign_mag_reduced, ast_alaw_get_sign_mag, AST_ALAW_SIGN_BIT.
  by rewrite reduced_mag.
Qed.

End Lookups.

(** ** The theorems *)

Module Properties.
Import Lookups Functions.

(** The self test of a law on tables that round trip. *)
Lemma tandem_ok (zero : bool) enc level lin2 lin s :
  codec enc level lin2 lin → short s →
  (∀ s, short s → 0 <= enc s < 256) →
  (∀ b, 0 <= b < 256 → short (level b) ∧ enc (level b) = if zero then canonical_code b else b) →
  (zero = true → enc s = 0x7f → s < 0) →
  tandem_test zero lin2 lin s = Some false.
Proof.
  intros [He Hl] Hs Hr Hb Hz. unfold tandem_test. pose proof (Hr s Hs) as R1.
  rewrite He by done. cbn [mbind option_bind]. rewrite Hl by done. cbn [mbind option_bind].
  destruct (Hb _ R1) as [S1 E1]. rewrite He, E1 by done. cbn [mbind option_bind].
  assert (0 <= (if zero then canonical_code (enc s) else enc s) < 256) as R2
    by (unfold canonical_code; destruct zero; [destruct (enc s =? 127)|]; lia).
  rewrite Hl by done. cbn [mbind option_bind]. destruct (Hb _ R2) as [S2 E2].
  rewrite He, E2 by done. cbn [mbind option_bind].
  assert ((if zero then canonical_code (if zero then canonical_code (enc s) else enc s)
    else if zero then canonical_code (enc s) else enc s)
    = (if zero then canonical_code (enc s) else enc s)) as ->.
  { destruct zero; [|done]. unfold canonical_code. by destruct (enc s =? 127) eqn:E; [|rewrite E]. }
  rewrite Hl by done. cbn [mbind option_bind]. f_equal. rewrite !Z.eqb_refl.
  destruct zero; simpl; [|by rewrite !Z.eqb_refl].
  unfold canonical_code. destruct (Z.eqb_spec (enc s) 127) as [E|E].
  - assert ((s <? 0) = true) as -> by (apply Z.ltb_lt; auto). done.
  - rewrite !andb_false_r. simpl. by rewrite !Z.eqb_refl.
Qed.

(** C19: transcoding in tandem loses nothing after the first conversion: with the tables of
    either algorithm and either law the self test of the source logs no warning for any
    sample.  A code decodes to a level that encodes to the same code again; the only
    exception is the negative zero of u-law, which the test knows. *)
Theorem g711_tandem mu a mu' a' :
  sized 16384 mu → sized 8192 a → sized AST_ULAW_TAB_SIZE mu' → sized AST_ALAW_TAB_SIZE a' →
  ∃ tmu ta tmu' ta',
    ast_ulaw_init mu = Some tmu ∧ ast_alaw_init a = Some ta
    ∧ ast_ulaw_init_new mu' = Some tmu' ∧ ast_alaw_init_new a' = Some ta'
    ∧ ∀ i, short i →
        tandem_test true (AST_LIN2MU tmu) (AST_MULAW tmu) i = Some false
        ∧ tandem_test false (AST_LIN2A ta) (AST_ALAW ta) i = Some false
        ∧ tandem_test true (AST_LIN2MU_new tmu') (AST_MULAW tmu') i = Some false
        ∧ tandem_test false (AST_LIN2A_new ta') (AST_ALAW ta') i = Some false.
Proof.
  intros H1 H2 H3 H4.
  destruct (ast_ulaw_init_ok mu H1) as (tmu & E1 & C1), (ast_alaw_init_ok a H2) as (ta & E2 & C2),
    (ast_ulaw_init_new_ok mu' H3) as (tmu' & E3 & C3), (ast_alaw_init_new_ok a' H4) as (ta' & E4 & C4).
  exists tmu, ta, tmu', ta'. do 4 (split; [done|]). intros i Hi.
  pose proof (top_mag 2 i ltac:(lia) Hi) as (Hsg & _).
  split_and!; eapply tandem_ok; eauto; intros; try done.
  - apply ulaw_code_range.
  - pose proof (ulaw_level_code b). tauto.
  - apply Z.ltb_lt. rewrite <- Hsg. apply Z.ltb_lt. by apply ulaw_code_range.
  - apply alaw_code_range.
  - pose proof (alaw_level_code b). tauto.
  - apply ulaw_code_range.
  - pose proof (ulaw_level_code b). tauto.
  - by apply ulaw_code_range.
  - apply alaw_code_range.
  - pose proof (alaw_level_code b). tauto.
Qed.

Definition blank (n : Z) : tables := Tables (replicate (Z.to_nat n) 0) (replicate 256 0).

Lemma blank_sized n : 0 <= n → sized n (blank n).
Proof.
  intros Hn. split; [|done]. unfold blank. cbn [lin2code]. rewrite length_replicate. lia.
Qed.

Lemma g711_tandem_witness :
  ∃ tmu ta tmu' ta',
    ast_ulaw_init (blank 16384) = Some tmu ∧ ast_alaw_init (blank 8192) = Some ta
    ∧ ast_ulaw_init_new (blank AST_ULAW_TAB_SIZE) = Some tmu'
    ∧ ast_alaw_init_new (blank AST_ALAW_TAB_SIZE) = Some ta'
    ∧ ∀ i, short i →
        tandem_test true (AST_LIN2MU tmu) (AST_MULAW tmu) i = Some false
        ∧ tandem_test false (AST_LIN2A ta) (AST_ALAW ta) i = Some false
        ∧ tandem_test true (AST_LIN2MU_new tmu') (AST_MULAW tmu') i = Some false
        ∧ tandem_test false (AST_LIN2A_new ta') (AST_ALAW ta') i = Some false.
Proof. apply g711_tandem; apply blank_sized; done. Defined.

(** C20: the quantization error of every sample, with the tables of either algorithm: a sample
    of u-law decodes within a 32nd of its biased magnitude, one of A-law within a 32nd of
    its magnitude but at least 8, which is half a step of the octave; the sign is kept. *)
Theorem g711_error_bound mu a mu' a' :
  sized 16384 mu → sized 8192 a → sized AST_ULAW_TAB_SIZE mu' → sized AST_ALAW_TAB_SIZE a' →
  ∃ tmu ta tmu' ta',
    ast_ulaw_init mu = Some tmu ∧ ast_alaw_init a = Some ta
    ∧ ast_ulaw_init_new mu' = Some tmu' ∧ ast_alaw_init_new a' = Some ta'
    ∧ ∀ s, short s → ∃ du da du' da',
        (AST_LIN2MU tmu s ≫= AST_MULAW tmu) = Some du
        ∧ (AST_LIN2MU_new tmu' s ≫= AST_MULAW tmu') = Some du'
        ∧ (AST_LIN2A ta s ≫= AST_ALAW ta) = Some da
        ∧ (AST_LIN2A_new ta' s ≫= AST_ALAW ta') = Some da'
        ∧ 32 * Z.abs (du - s) <= Z.abs s + BIAS ∧ 32 * Z.abs (du' - s) <= Z.abs s + BIAS
        ∧ 32 * Z.abs (da - s) <= Z.max (Z.abs s) 256
        ∧ 32 * Z.abs (da' - s) <= Z.max (Z.abs s) 256
        ∧ (0 <= s → 0 <= du ∧ 0 <= du' ∧ 0 < da ∧ 0 < da')
        ∧ (s < 0 → du <= 0 ∧ du' <= 0 ∧ da < 0 ∧ da' < 0).
Proof.
  intros H1 H2 H3 H4.
  destruct (ast_ulaw_init_ok mu H1) as (tmu & E1 & C1 & D1),
    (ast_alaw_init_ok a H2) as (ta & E2 & C2 & D2),
    (ast_ulaw_init_new_ok mu' H3) as (tmu' & E3 & C3 & D3),
    (ast_alaw_init_new_ok a' H4) as (ta' & E4 & C4 & D4).
  exists tmu, ta, tmu', ta'. do 4 (split; [done|]). intros s Hs.
  exists (ulaw_level (ulaw_code (top 2 s))), (alaw_level (alaw_code (top 3 s))),
    (ulaw_level (ulaw_code s)), (alaw_level (alaw_code s)).
  rewrite C1, C2, C3, C4 by done. cbn [mbind option_bind].
  rewrite D1, D3 by apply ulaw_code_range. rewrite D2, D4 by apply alaw_code_range.
  do 4 (split; [done|]).
  pose proof (ulaw_error s (top 2 s) Hs ltac:(auto)) as (? & ? & ?).
  pose proof (ulaw_error s s Hs ltac:(auto)) as (? & ? & ?).
  pose proof (alaw_error s (top 3 s) Hs ltac:(auto)) as (? & ? & ?).
  pose proof (alaw_error s s Hs ltac:(auto)) as (? & ? & ?).
  tauto.
Qed.

Lemma g711_error_bound_witness :
  ∃ tmu ta tmu' ta',
    ast_ulaw_init (blank 16384) = Some tmu ∧ ast_alaw_init (blank 8192) = Some ta
    ∧ ast_ulaw_init_new (blank AST_ULAW_TAB_SIZE) = Some tmu'
    ∧ ast_alaw_init_new (blank AST_ALAW_TAB_SIZE) = Some ta'
    ∧ ∀ s, short s → ∃ du da du' da',
        (AST_LIN2MU tmu s ≫= AST_MULAW tmu) = Some du
        ∧ (AST_LIN2MU_new tmu' s ≫= AST_MULAW tmu') = Some du'
        ∧ (AST_LIN2A ta s ≫= AST_ALAW ta) = Some da
        ∧ (AST_LIN2A_new ta' s ≫= AST_ALAW ta') = Some da'
        ∧ 32 * Z.abs (du - s) <= Z.abs s + BIAS ∧ 32 * Z.abs (du' - s) <= Z.abs s + BIAS
        ∧ 32 * Z.abs (da - s) <= Z.max (Z.abs s) 256
        ∧ 32 * Z.abs (da' - s) <= Z.max (Z.abs s) 256
        ∧ (0 <= s → 0 <= du ∧ 0 <= du' ∧ 0 < da ∧ 0 < da')
        ∧ (s < 0 → du <= 0 ∧ du' <= 0 ∧ da < 0 ∧ da' < 0).
Proof. apply g711_error_bound; apply blank_sized; done. Defined.

(** C16: the tables against the functions.  The smaller tables of the second algorithm give for
    every sample the code its direct encoder computes, and decode like its decoder, so the
    self test of the source logs no warning; reading the sign and magnitude without a
    branch makes no difference; and the tables of the two algorithms agree, but for the
    negative samples at the lower end of a cell, which the first one puts into the next
    cell because four (u-law) or eight (A-law) samples share an entry. *)
Theorem g711_tables_exact mu a mu' a' :
  sized 16384 mu → sized 8192 a → sized AST_ULAW_TAB_SIZE mu' → sized AST_ALAW_TAB_SIZE a' →
  ∃ tmu ta tmu' ta',
    ast_ulaw_init mu = Some tmu ∧ ast_alaw_init a = Some ta
    ∧ ast_ulaw_init_new mu' = Some tmu' ∧ ast_alaw_init_new a' = Some ta'
    ∧ ∀ i, short i →
        coding_test (λ s, linear2ulaw_new s true) ulaw2linear (AST_LIN2MU_new tmu')
          (AST_MULAW tmu') i = Some false
        ∧ coding_test (λ s, linear2alaw_new s true) (Some ∘ alaw2linear_new) (AST_LIN2A_new ta')
          (AST_ALAW ta') i = Some false
        ∧ ast_ulaw_get_sign_mag_reduced i = ast_ulaw_get_sign_mag i
        ∧ ast_alaw_get_sign_mag_reduced i = ast_alaw_get_sign_mag i
        ∧ (¬ (i < 0 ∧ i mod 8 = 4) → AST_LIN2MU tmu i = AST_LIN2MU_new tmu' i)
        ∧ (¬ (i < 0 ∧ i mod 16 = 0) → AST_LIN2A ta i = AST_LIN2A_new ta' i).
Proof.
  intros H1 H2 H3 H4.
  destruct (ast_ulaw_init_ok mu H1) as (tmu & E1 & C1 & _),
    (ast_alaw_init_ok a H2) as (ta & E2 & C2 & _),
    (ast_ulaw_init_new_ok mu' H3) as (tmu' & E3 & C3 & D3),
    (ast_alaw_init_new_ok a' H4) as (ta' & E4 & C4 & D4).
  exists tmu, ta, tmu', ta'. do 4 (split; [done|]). intros i Hi.
  pose proof (ulaw_code_range i) as [Ru _]. pose proof (alaw_code_range i) as Ra.
  split_and!.
  - unfold coding_test. rewrite linear2ulaw_new_ok by done. cbn [mbind option_bind].
    destruct (decoders_ok _ Ru) as (_ & -> & _). cbn [mbind option_bind].
    rewrite C3 by done. cbn [mbind option_bind].
    destruct (decoders_ok _ Ru) as (_ & -> & _). cbn [mbind option_bind].
    rewrite D3 by done. cbn [mbind option_bind]. by rewrite !Z.eqb_refl.
  - unfold coding_test. rewrite linear2alaw_new_ok by done. cbn [mbind option_bind compose].
    rewrite C4 by done. cbn [mbind option_bind compose].
    rewrite D4 by done. cbn [mbind option_bind].
    destruct (decoders_ok _ Ra) as (_ & _ & _ & -> & _). by rewrite !Z.eqb_refl.
  - by apply reduced_ulaw.
  - by apply reduced_alaw.
  - intros Hn. rewrite C1, C3 by done. by rewrite ulaw_code_top.
  - intros Hn. rewrite C2, C4 by done. by rewrite alaw_code_top.
Qed.

Lemma g711_tables_exact_witness :
  ∃ tmu ta tmu' ta',
    ast_ulaw_init (blank 16384) = Some tmu ∧ ast_alaw_init (blank 8192) = Some ta
    ∧ ast_ulaw_init_new (blank AST_ULAW_TAB_SIZE) = Some tmu'
    ∧ ast_alaw_init_new (blank AST_ALAW_TAB_SIZE) = Some ta'
    ∧ ∀ i, short i →
        coding_test (λ s, linear2ulaw_new s true) ulaw2linear (AST_LIN2MU_new tmu')
          (AST_MULAW tmu') i = Some false
        ∧ coding_test (λ s, linear2alaw_new s true) (Some ∘ alaw2linear_new) (AST_LIN2A_new ta')
          (AST_ALAW ta') i = Some false
        ∧ ast_ulaw_get_sign_mag_reduced i = ast_ulaw_get_sign_mag i
        ∧ ast_alaw_get_sign_mag_reduced i = ast_alaw_get_sign_mag i
        ∧ (¬ (i < 0 ∧ i mod 8 = 4) → AST_LIN2MU tmu i = AST_LIN2MU_new tmu' i)
        ∧ (¬ (i < 0 ∧ i mod 16 = 0) → AST_LIN2A ta i = AST_LIN2A_new ta' i).
Proof. apply g711_tables_exact; apply blank_sized; done. Defined.

(** The first encoders negate the smallest sample within a [short], or run out of segments: the
    loudest sample becomes (almost) silence.  Its slot in the tables is written again. *)
Example smallest_sample_silent :
  linear2ulaw (-32768) = Some 0x7f ∧ ulaw_level 0x7f = 0
  ∧ linear2alaw (-32768) = 0xd5 ∧ alaw2linear 0xd5 = 8.
Proof. vm_compute. auto. Qed.

End Properties.
