(* ===== verification/DialplanRemove.v ===== *)
(** * Removing extensions from a context ([main/pbx.c])

    [ast_context_remove_extension_callerid2] takes an extension, or one of its
    priorities, out of a context: first out of the tables and the trie, then out
    of the lists.

    - [Model]: the functions of the source.  The peers of an extension are one
      record (Dialplan.v), so the walk of the source along [peer] and [next] is a
      walk along the peers of a record and on to the next one where the source
      finds a [next].  [None] is a crash, a use of freed memory, or a context left
      with a [next] that leads to freed memory.
    - [Examples]: calls that go wrong.
    - [TableFacts], [Lists], [Agreement]: lookup and removal in the tables, the
      walk, and the agreement of a context with its table.
    - [Properties]: the theorems. *)

From stdpp Require Import base numbers list sets strings sorting.
From Stdlib Require Import ZArith Lia.
From S2P Require Import Prelude Pattern Hashtab PatternTree CString PbxTiming Dialplan.
Import Pattern.Model Hashtab.Model CString.Model PatternTree.Model PatternTree Dialplan.Model.

Module Model.

(** [ex], with [dummy_name] and [dummy_cid]. *)
Definition removal_key (extension : cstring) (prio : Z) (callerid : option cstring) (matchcallerid : Z) : ast_exten :=
  Exten 0 (string_of (ext_strncpy extension 1024 true)) [] matchcallerid
    (match callerid with Some cid => string_of (ext_strncpy cid 1024 true) | None => [] end) []
    prio None [] 0 false [] None 0.

Definition remove_this (t : table) (e : ast_exten) : option table := snd <$> ast_hashtab_remove_this_object t e.

(** The node of [e] in the trie is marked as deleted; without a node [x->exten]
    is read through NULL. *)
Definition delete_from_tree (con : ast_context) (e : ast_exten) : option ast_context :=
  match pattern_tree con with
  | [] => Some con
  | tree =>
      x ← find_exten_in_pattern_tree tree e;
      path ← x;
      n ← lookup_node path tree;
      Some (match node_exten n with
            | Some _ => set_pattern_tree con (alter_node (set_node_exten true None) path tree)
            | None => con
            end)
  end.

(** The tables of the peers that [e] is the head of. *)
Definition set_tables (con : ast_context) (e : ast_exten) (pt lt : table) : ast_context :=
  set_root con ((λ q, if decide (addr <$> head (peer_list q) = Some (addr e)) then Peers (peer_list q) pt lt else q)
                  <$> root con).

(** [exten2 == exten && exten2->peer]: the table of the context gets the next
    peer for the head. *)
Definition replace_head (rt : table) (p : peers) (e e2 : ast_exten) : option table :=
  match peer_list p with
  | _ :: next :: _ =>
      if decide (addr e2 = addr e) then
        '(r, rt) ← ast_hashtab_remove_this_object rt e;
        r ← r;
        snd <$> _ast_hashtab_insert_immediate (true, true) rt next
      else Some rt
  | _ => Some rt
  end.

(** The first half of the function; [ex] is the key. *)
Definition remove_from_tables (con : ast_context) (ex : ast_exten) : option ast_context :=
  found ← match root_table con with None => Some None | Some rt => ast_hashtab_lookup rt ex end;
  match (found : option ast_exten) with
  | None => Some con
  | Some e =>
      rt ← root_table con;
      if priority ex =? 0 then
        rt ← remove_this rt e;
        delete_from_tree (set_root_table con (Some rt)) e
      else
        p ← tables_of con e;
        match (p : option peers) with
        | None => Some con
        | Some p =>
            exten2 ← ast_hashtab_lookup (peer_table p) ex;
            match (exten2 : option ast_exten) with
            | None => Some con
            | Some e2 =>
                lt ← if_label e2 remove_this (peer_label_table p);
                pt ← remove_this (peer_table p) e2;
                rt ← replace_head rt p e e2;
                let con := set_tables con e pt lt in
                if ast_hashtab_size pt =? 0 then
                  rt ← remove_this rt e;
                  delete_from_tree (set_root_table con (Some rt)) e
                else Some (set_root_table con (Some rt))
            end
        end
  end.

(** *** The lists *)

(** [destroy_exten] *)
Definition destroy_exten (e : ast_exten) : list event :=
  (if priority e =? PRIORITY_HINT then [RemoveHint e] else []) ++ destroy_data e ++ [FreeExten (addr e)].

Section Remove.
Context (ex : ast_exten) (callerid : option cstring) (matchcallerid : Z) (registrar' : option cstring).

(** The condition of the scan along the extensions. *)
Definition scan_match (e : ast_exten) : bool :=
  (strcmp (exten e) (exten ex) =? 0) &&
  ((matchcallerid =? 0)
   || (negb (bool_decide (cidmatch ex = [])) && negb (bool_decide (cidmatch e = []))
       && (strcmp (cidmatch e) (cidmatch ex) =? 0))
   || (bool_decide (cidmatch ex = []) && bool_decide (cidmatch e = []))).

(** The condition of the loop along the priorities. *)
Definition walk_on (e : ast_exten) : bool :=
  (strcmp (exten e) (exten ex) =? 0) &&
  (bool_decide (callerid = None)
   || ((matchcallerid =? 0) && (matchcid e =? 0))
   || (negb (matchcallerid =? 0) && negb (matchcid e =? 0) && (strcmp (cidmatch e) (cidmatch ex) =? 0))).

(** What is removed. *)
Definition to_remove (e : ast_exten) : bool :=
  ((priority ex =? 0) || (priority e =? priority ex)) &&
  match registrar' with None => true | Some r => strcmp (registrar e) r =? 0 end.

(** Where the loop stands after the peers of one extension: at its end, or at
    the next extension, with or without a [previous_peer]. *)
Inductive walked := Done | NextExten (previous : bool).

(** The loop along the peers of one extension: [kept] are those passed and kept,
    the last of them is [previous_peer]; with none it is NULL or, when [stale],
    an entry of an earlier extension, whose [peer] would be set while its [next]
    keeps the freed one.  Only the head of the peers has a [next]. *)
Fixpoint walk_peers (stale : bool) (kept es : list ast_exten)
    : option (list ast_exten * list ast_exten * walked) :=
  match es with
  | [] => Some (kept, [], Done)
  | e :: es' =>
      if negb (walk_on e) then Some (kept ++ es, [], Done) else
      let first := bool_decide (kept = []) in
      let last := bool_decide (es' = []) in
      if to_remove e then
        if first && stale then None else
        if last then Some (kept, [e], if first then NextExten false else Done) else
        '(r, freed, w) ← walk_peers stale kept es';
        Some (r, e :: freed, w)
      else if last then Some (kept ++ [e], [], if first then NextExten true else Done)
      else walk_peers stale (kept ++ [e]) es'
  end.

(** On to the extensions behind. *)
Fixpoint walk_extens (stale : bool) (chains : list peers) : option (list peers * list ast_exten) :=
  match chains with
  | [] => Some ([], [])
  | p :: chains =>
      '(es, freed, w) ← walk_peers stale [] (peer_list p);
      '(chains, more) ← match (w : walked) with
                        | Done => Some (chains, [])
                        | NextExten previous => walk_extens (stale || previous) chains
                        end;
      Some (match es with
            | [] => chains
            | _ => Peers es (peer_table p) (peer_label_table p) :: chains
            end, freed ++ more)
  end.

(** The scan: what is before the first extension that matches, and the rest. *)
Fixpoint scan_extens (chains : list peers) : option (list peers * list peers) :=
  match chains with
  | [] => Some ([], [])
  | p :: chains' =>
      e ← head (peer_list p);
      if scan_match e then Some ([], chains)
      else '(before, rest) ← scan_extens chains'; Some (p :: before, rest)
  end.

(** The second half of the function. *)
Definition remove_from_lists (con : ast_context) : option (Z * ast_context * list event) :=
  '(before, rest) ← scan_extens (root con);
  '(rest, freed) ← walk_extens false rest;
  Some (if decide (freed = []) then -1 else 0, set_root con (before ++ rest), concat (destroy_exten <$> freed)).

End Remove.

(** The result, the context and what is destroyed.  A key that asks for a caller
    id without one is hashed through NULL. *)
Definition ast_context_remove_extension_callerid2 (con : ast_context) (extension : cstring) (prio : Z)
    (callerid : option cstring) (matchcallerid : Z) (registrar' : option cstring)
    : option (Z * ast_context * list event) :=
  let ex := removal_key extension prio callerid matchcallerid in
  if (matchcallerid =? AST_EXT_MATCHCID_ON) && bool_decide (callerid = None)
     && bool_decide (is_Some (root_table con)) then None else
  con ← remove_from_tables con ex;
  remove_from_lists ex callerid matchcallerid registrar' con.

Definition ast_context_remove_extension2 (con : ast_context) (extension : cstring) (prio : Z)
    (registrar' : option cstring) : option (Z * ast_context * list event) :=
  ast_context_remove_extension_callerid2 con extension prio None AST_EXT_MATCHCID_ANY registrar'.

(** With the context given by its name. *)
Definition ast_context_remove_extension_callerid (d : dialplan) (context extension : cstring) (prio : Z)
    (callerid : option cstring) (matchcallerid : Z) (registrar' : option cstring)
    : option (Z * dialplan * list event) :=
  match find_context (contexts d) context with
  | None => Some (-1, d, [])
  | Some c =>
      '(ret, c', events) ← ast_context_remove_extension_callerid2 c extension prio callerid matchcallerid registrar';
      Some (ret, store_context d c', events)
  end.

Definition ast_context_remove_extension (d : dialplan) (context extension : cstring) (prio : Z)
    (registrar' : option cstring) : option (Z * dialplan * list event) :=
  ast_context_remove_extension_callerid d context extension prio None AST_EXT_MATCHCID_ANY registrar'.

End Model.
Import Model.

(** ** Worked inputs *)
Module Examples.

Import Dialplan.Examples.

(** A context with the given extensions: address, name, priority, caller id. *)
Fixpoint build (l : list (nat * cstring * Z * option cstring)) (con : ast_context) : option ast_context :=
  match l with
  | [] => Some con
  | (a, e, p, cid) :: l =>
      '(_, con, _) ← ast_add_extension2 java (λ _ _ app, app) (Some a) con false e p None cid [] 0 false
                       (cstr "reg") None 0;
      build l con
  end.

Definition remove (con : ast_context) (e : cstring) (p : Z) (cid : option cstring) (m : Z) (r : option cstring)
    : option (Z * ast_context * list event) := ast_context_remove_extension_callerid2 con e p cid m r.

Definition addrs (con : ast_context) : list (list nat) := (λ p, addr <$> peer_list p) <$> root con.
Definition table_addrs (con : ast_context) : option (list nat) :=
  (λ rt, addr ∘ object <$> tlist rt) <$> root_table con.

(** One priority, then the whole extension. *)
Example remove_priority_then_all :
  (c ← build [(1%nat, cstr "100", 1, None); (2%nat, cstr "100", 2, None); (3%nat, cstr "200", 1, None)]
         (empty_context ctx);
   '(r1, c1, _) ← remove c (cstr "100") 1 None AST_EXT_MATCHCID_ANY None;
   '(r2, c2, ev) ← remove c (cstr "100") 0 None AST_EXT_MATCHCID_ANY None;
   '(r3, _, _) ← remove c (cstr "300") 1 None AST_EXT_MATCHCID_ANY None;
   Some (r1, addrs c1, table_addrs c1, r2, addrs c2, table_addrs c2, ev, r3))
  = Some (0, [[2%nat]; [3%nat]], Some [2%nat; 3%nat], 0, [[3%nat]], Some [3%nat],
          [FreeExten 1; FreeExten 2], -1).
Proof. vm_compute. reflexivity. Qed.

(** Asked by the console to remove [100], with an entry for a caller before it,
    the function takes it out of the tables and leaves it in the list. *)
Example remove_misses_without_callerid :
  (c ← build [(1%nat, cstr "100", 1, None); (2%nat, cstr "100", 1, Some (cstr "555"))] (empty_context ctx);
   '(r1, c1, _) ← remove c (cstr "100") 1 (Some []) AST_EXT_MATCHCID_OFF None;
   '(found, _) ← find false c1 (cstr "100") 1;
   Some (r1, addrs c1, table_addrs c1, found)) = Some (-1, [[2%nat]; [1%nat]], Some [2%nat], None).
Proof. vm_compute. reflexivity. Qed.

(** Removing [100] with all its callers frees them, but only one leaves the
    table. *)
Example remove_all_leaves_freed :
  (c ← build [(1%nat, cstr "100", 1, None); (2%nat, cstr "100", 1, Some (cstr "555"))] (empty_context ctx);
   '(r1, c1, ev) ← remove c (cstr "100") 0 None AST_EXT_MATCHCID_OFF None;
   Some (r1, addrs c1, table_addrs c1, ev)) = Some (0, [], Some [2%nat], [FreeExten 2; FreeExten 1]).
Proof. vm_compute. reflexivity. Qed.

(** A single priority of one caller is kept; that of the next is freed, but the
    list still leads to it. *)
Example remove_priority_stale_peer :
  (c ← build [(1%nat, cstr "100", 2, None); (2%nat, cstr "100", 1, Some (cstr "555"))] (empty_context ctx);
   Some (bool_decide (is_Some (remove c (cstr "100") 2 None AST_EXT_MATCHCID_OFF None)))) = Some false.
Proof. vm_compute. reflexivity. Qed.

(** Once the trie is built: the entry behind a removed first priority is reached
    through freed memory; and with an entry that shares its name with another one
    and is not in the trie for that, the other one is marked as deleted. *)
Example remove_head_leaves_trie :
  (c ← build [(1%nat, cstr "100", 1, None); (2%nat, cstr "100", 2, None)] (empty_context ctx);
   '(found, c) ← find true c (cstr "100") 2;
   '(r1, c1, ev) ← remove c (cstr "100") 1 None AST_EXT_MATCHCID_ANY None;
   Some (found, r1, ev, fst <$> find false c1 (cstr "100") 2, bool_decide (is_Some (find true c1 (cstr "100") 2))))
  = Some (Some 2%nat, 0, [FreeExten 1], Some (Some 2%nat), false).
Proof. vm_compute. reflexivity. Qed.

Example remove_hides_shorter_name :
  (c ← build [(1%nat, cstr "100", 1, None)] (empty_context ctx);
   '(found, c) ← find true c (cstr "100") 1;
   c ← build [(2%nat, cstr "100", 1, Some (cstr "555"))] c;
   '(r1, c1, ev) ← remove c (cstr "100") 0 (Some (cstr "555")) AST_EXT_MATCHCID_ON None;
   Some (found, r1, ev, fst <$> find false c1 (cstr "100") 1, fst <$> find true c1 (cstr "100") 1))
  = Some (Some 1%nat, 0, [FreeExten 2], Some (Some 1%nat), Some None).
Proof. vm_compute. reflexivity. Qed.

End Examples.

(** ** Tables *)

Module TableFacts.

Import Hashtab.Spec Hashtab.Refine.

Section Facts.
Context {A : Type} `{EqDecision A}.
Implicit Types (tab : ast_hashtab A) (b : ast_hashtab_bucket A).

Lemma bucket_of tab y : y ∈ objects tab → ∃ b, b ∈ tlist tab ∧ object b = y.
Proof. intros (b&->&Hb)%list_elem_of_fmap. eauto. Qed.

(** Taking out one bucket takes out one object. *)
Lemma unlink_objects tab b : table_wf tab → b ∈ tlist tab →
  objects tab ≡ₚ object b :: (object <$> unlink b (tlist tab)).
Proof.
  intros Hwf Hb. unfold objects. apply list_elem_of_split in Hb as (l1&l2&El).
  assert (unlink b (tlist tab) = l1 ++ l2) as ->.
  { pose proof (wf_addrs tab Hwf) as Ha. rewrite El in Ha |- *. unfold unlink.
    rewrite fmap_app, fmap_cons, NoDup_app, NoDup_cons in Ha. destruct Ha as (_&Ha1&Ha2&_).
    rewrite filter_app, filter_cons_False by (intros []; done). f_equal; apply filter_all.
    - intros b1 H1 E1. apply (Ha1 (Hashtab.Model.addr b1)); [by apply list_elem_of_fmap_2|]. rewrite E1.
      apply list_elem_of_here.
    - intros b1 H1 E1. apply Ha2. rewrite <- E1. by apply list_elem_of_fmap_2. }
  rewrite El, !fmap_app, fmap_cons. symmetry. apply Permutation_middle.
Qed.

(** Removal by comparison: what is removed, or that nothing in the slot compares
    equal. *)
Lemma remove_lookup_cases tab x r tab' : table_wf tab →
  ast_hashtab_remove_object_via_lookup tab x = Some (r, tab') →
  table_wf tab' ∧ same_functions tab tab' ∧
  match r with
  | Some y => compare tab x y = 0 ∧ objects tab ≡ₚ y :: objects tab'
  | None => tab' = tab ∧ ∀ z, z ∈ objects tab → hash tab z = hash tab x → compare tab x z ≠ 0
  end.
Proof.
  intros Hwf H. destruct (chain_wf tab x Hwf) as (bs&E&Hbs).
  unfold ast_hashtab_remove_object_via_lookup in H. rewrite E in H. cbn [mbind option_bind] in H.
  destruct (filter (λ b, compare tab x (object b) = 0) bs) as [|b bs'] eqn:Ef; simplify_eq/=.
  - split_and!; [done..|]. intros z Hz Hh E0. destruct (bucket_of tab' z Hz) as (b&Hb&<-).
    assert (b ∈ filter (λ b, compare tab' x (object b) = 0) bs) as Hin; [|rewrite Ef in Hin; by apply not_elem_of_nil in Hin].
    apply list_elem_of_filter. split; [done|]. rewrite Hbs. apply list_elem_of_filter.
    split; [|done]. unfold slot. by rewrite Hh.
  - assert (b ∈ filter (λ b, compare tab x (object b) = 0) bs) as Hin by (rewrite Ef; apply list_elem_of_here).
    apply list_elem_of_filter in Hin as [E0 Hin]. rewrite Hbs, list_elem_of_filter in Hin.
    destruct Hin as [Hs Hin]. rewrite <- Hs. split_and!; [by apply remove_internal_wf|done..|done|].
    by apply unlink_objects.
Qed.

(** Insertion unless something compares equal. *)
Lemma insert_safe_cases tab x r tab' : table_wf tab → newsize_ok (newsize tab) →
  _ast_hashtab_insert_safe (true, true) tab x = Some (r, tab') →
  table_wf tab' ∧ same_functions tab tab' ∧
  ((tab' = tab ∧ ∃ y, y ∈ objects tab ∧ compare tab x y = 0)
   ∨ (objects tab' = x :: objects tab ∧ ∀ z, z ∈ objects tab → hash tab z = hash tab x → compare tab x z ≠ 0)).
Proof.
  intros Hwf Hn H. destruct (chain_wf tab x Hwf) as (bs&E&Hbs).
  unfold _ast_hashtab_insert_safe, ast_hashtab_lookup_bucket, ast_hashtab_lookup_internal in H.
  rewrite E in H. cbn [mbind option_bind] in H.
  destruct (filter (λ b, compare tab x (object b) = 0) bs) as [|b bs'] eqn:Ef; cbn [head fmap option_fmap option_map] in H.
  - destruct (insert_bucket_wf tab x Hn Hwf) as (t2&E2&Hwf2&Ho2&Hf2). rewrite E2 in H. simplify_eq.
    split_and!; [done..|]. right. split; [done|]. intros z Hz Hh E0.
    destruct (bucket_of tab z Hz) as (b&Hb&<-).
    assert (b ∈ filter (λ b, compare tab x (object b) = 0) bs) as Hin; [|rewrite Ef in Hin; by apply not_elem_of_nil in Hin].
    apply list_elem_of_filter. split; [done|]. rewrite Hbs. apply list_elem_of_filter.
    split; [|done]. unfold slot. by rewrite Hh.
  - simplify_eq. split_and!; [done..|]. left. split; [done|].
    assert (b ∈ filter (λ b, compare tab' x (object b) = 0) bs) as Hin by (rewrite Ef; apply list_elem_of_here).
    apply list_elem_of_filter in Hin as [E0 Hin]. rewrite Hbs, list_elem_of_filter in Hin.
    destruct Hin as [_ Hin]. exists (object b). split; [by apply list_elem_of_fmap_2|done].
Qed.

(** An object that is there once is removed. *)
Lemma remove_this_there tab x : table_wf tab → NoDup (objects tab) → x ∈ objects tab →
  ∃ tab', ast_hashtab_remove_this_object tab x = Some (Some x, tab') ∧ table_wf tab'
    ∧ objects tab ≡ₚ x :: objects tab' ∧ same_functions tab tab'.
Proof.
  intros Hwf Hnd Hx. destruct (bucket_of tab x Hx) as (b&Hb&Eb).
  destruct (chain_wf tab x Hwf) as (bs&E&Hbs). unfold ast_hashtab_remove_this_object. rewrite E.
  cbn [mbind option_bind].
  assert (∀ b', b' ∈ tlist tab → x = object b' → b' = b) as Honly.
  { intros b' Hb' Ex. apply list_elem_of_lookup in Hb as [i Hi], Hb' as [j Hj].
    assert (i = j) as ->; [|by simplify_eq].
    eapply (NoDup_lookup (objects tab)); [done|unfold objects..]; rewrite list_lookup_fmap.
    - by rewrite Hi.
    - rewrite Hj. simpl. congruence. }
  destruct (filter (λ b, x = object b) bs) as [|b' bs'] eqn:Ef.
  { assert (b ∈ filter (λ b, x = object b) bs) as Hin.
    { apply list_elem_of_filter. split; [done|]. rewrite Hbs. apply list_elem_of_filter. by rewrite Eb. }
    rewrite Ef in Hin. by apply not_elem_of_nil in Hin. }
  assert (b' ∈ filter (λ b, x = object b) bs) as Hin by (rewrite Ef; apply list_elem_of_here).
  apply list_elem_of_filter in Hin as [Ex Hin]. rewrite Hbs in Hin.
  apply list_elem_of_filter in Hin as [_ Hin]. rewrite (Honly b' Hin Ex), <- Eb.
  eexists. split_and!; [done|by apply remove_internal_wf| |done].
  by apply unlink_objects.
Qed.

Lemma remove_this_absent tab x : table_wf tab → x ∉ objects tab →
  ast_hashtab_remove_this_object tab x = Some (None, tab).
Proof.
  intros Hwf Hx. destruct (chain_wf tab x Hwf) as (bs&E&Hbs). unfold ast_hashtab_remove_this_object.
  rewrite E. cbn [mbind option_bind].
  destruct (filter (λ b, x = object b) bs) as [|b bs'] eqn:Ef; [done|]. destruct Hx.
  assert (b ∈ filter (λ b, x = object b) bs) as Hin by (rewrite Ef; apply list_elem_of_here).
  apply list_elem_of_filter in Hin as [-> Hin]. rewrite Hbs in Hin.
  apply list_elem_of_filter in Hin as [_ Hin]. by apply list_elem_of_fmap_2.
Qed.

(** The only object that compares equal, with the same hash, is found. *)
Lemma lookup_only tab x y : table_wf tab → y ∈ objects tab → compare tab x y = 0 → hash tab x = hash tab y →
  (∀ z, z ∈ objects tab → compare tab x z = 0 → z = y) → ast_hashtab_lookup tab x = Some (Some y).
Proof.
  intros Hwf Hy Hc Hh Honly. destruct (bucket_of tab y Hy) as (b&Hb&Eb).
  destruct (chain_wf tab x Hwf) as (bs&E&Hbs). unfold ast_hashtab_lookup, ast_hashtab_lookup_internal.
  rewrite E. cbn [mbind option_bind]. do 2 f_equal.
  destruct (filter (λ b, compare tab x (object b) = 0) bs) as [|b' bs'] eqn:Ef.
  { assert (b ∈ filter (λ b, compare tab x (object b) = 0) bs) as Hin.
    { apply list_elem_of_filter. split; [by rewrite Eb|]. rewrite Hbs. apply list_elem_of_filter.
      split; [|done]. unfold slot. by rewrite Eb, Hh. }
    rewrite Ef in Hin. by apply not_elem_of_nil in Hin. }
  assert (b' ∈ filter (λ b, compare tab x (object b) = 0) bs) as Hin by (rewrite Ef; apply list_elem_of_here).
  apply list_elem_of_filter in Hin as [Ex Hin]. rewrite Hbs in Hin.
  apply list_elem_of_filter in Hin as [_ Hin]. simpl. f_equal. apply Honly; [|done].
  by apply list_elem_of_fmap_2.
Qed.

Lemma lookup_nothing tab x : table_wf tab → (∀ z, z ∈ objects tab → compare tab x z ≠ 0) →
  ast_hashtab_lookup tab x = Some None.
Proof.
  intros Hwf Hno. destruct (chain_wf tab x Hwf) as (bs&E&Hbs).
  unfold ast_hashtab_lookup, ast_hashtab_lookup_internal. rewrite E. cbn [mbind option_bind]. do 2 f_equal.
  destruct (filter (λ b, compare tab x (object b) = 0) bs) as [|b bs'] eqn:Ef; [done|].
  assert (b ∈ filter (λ b, compare tab x (object b) = 0) bs) as Hin by (rewrite Ef; apply list_elem_of_here).
  apply list_elem_of_filter in Hin as [Ex Hin]. rewrite Hbs in Hin.
  apply list_elem_of_filter in Hin as [_ Hin]. destruct (Hno (object b)); [by apply list_elem_of_fmap_2|done].
Qed.

Lemma size_objects tab : table_wf tab → ast_hashtab_size tab = Z.of_nat (length (objects tab)).
Proof. intros Hwf. unfold ast_hashtab_size, objects. by rewrite (wf_elements tab Hwf), length_fmap. Qed.

End Facts.
End TableFacts.

(** ** The walk along the lists *)

Module Lists.

Section Walk.
Context (ex : ast_exten) (callerid : option cstring) (matchcallerid : Z) (registrar' : option cstring).

Abbreviation walks := (walk_on ex callerid matchcallerid).
Abbreviation removes := (to_remove ex registrar').
Abbreviation keep := (λ e, removes e = false).
Abbreviation gone := (λ e, removes e = true).

(** All peers of an extension that the walk passes. *)
Lemma walk_peers_all kept es : Forall (λ e, walks e = true) es →
  ∃ w, walk_peers ex callerid matchcallerid registrar' false kept es
       = Some (kept ++ filter keep es, filter gone es, w).
Proof.
  revert kept. induction es as [|e es IH]; intros kept Hall; cbn [walk_peers].
  { exists Done. by rewrite app_nil_r. }
  apply Forall_cons in Hall as [He Hall]. rewrite He. cbn [negb]. rewrite andb_false_r.
  rewrite !filter_cons. destruct (removes e) eqn:Er.
  - rewrite decide_False by done. rewrite decide_True by done.
    destruct (bool_decide_reflect (es = [])) as [->|Hne].
    + eexists. by rewrite app_nil_r.
    + destruct (IH kept Hall) as [w ->]. eexists. done.
  - rewrite decide_True by done. rewrite decide_False by done.
    destruct (bool_decide_reflect (es = [])) as [->|Hne]; [by eexists|].
    destruct (IH (kept ++ [e]) Hall) as [w ->]. eexists. by rewrite <- app_assoc.
Qed.

(** An extension the walk does not go on to. *)
Lemma walk_extens_stop stale chains :
  match chains with p :: _ => ∃ e es, peer_list p = e :: es ∧ walks e = false | [] => True end →
  walk_extens ex callerid matchcallerid registrar' stale chains = Some (chains, []).
Proof.
  destruct chains as [|[es pt lt] chains]; [done|]. intros (e&es'&E&Hw). simpl in E. subst es.
  cbn [walk_extens peer_list walk_peers]. by rewrite Hw.
Qed.

Definition rebuild (p : peers) (es : list ast_exten) : list peers :=
  match es with [] => [] | _ => [Peers es (peer_table p) (peer_label_table p)] end.

Lemma walk_extens_one p after : Forall (λ e, walks e = true) (peer_list p) →
  match after with q :: _ => ∃ e es, peer_list q = e :: es ∧ walks e = false | [] => True end →
  walk_extens ex callerid matchcallerid registrar' false (p :: after)
  = Some (rebuild p (filter keep (peer_list p)) ++ after, filter gone (peer_list p)).
Proof.
  intros Hall Hafter. cbn [walk_extens]. destruct (walk_peers_all [] (peer_list p) Hall) as [w ->].
  cbn [mbind option_bind Datatypes.app].
  assert (match w with Done => Some (after, []) | NextExten previous =>
    walk_extens ex callerid matchcallerid registrar' (false || previous) after end = Some (after, [])) as ->.
  { destruct w; [done|]. by apply walk_extens_stop. }
  cbn [mbind option_bind]. rewrite app_nil_r. unfold rebuild. by destruct (filter keep (peer_list p)).
Qed.

Lemma scan_extens_at before p after :
  Forall (λ q, ∃ e es, peer_list q = e :: es ∧ scan_match ex matchcallerid e = false) before →
  (∃ e es, peer_list p = e :: es ∧ scan_match ex matchcallerid e = true) →
  scan_extens ex matchcallerid (before ++ p :: after) = Some (before, p :: after).
Proof.
  intros Hb (e&es&Ep&Hm). induction Hb as [|q before (e'&es'&Eq&Hq) Hb IH]; cbn [Datatypes.app scan_extens].
  - rewrite Ep. cbn [head mbind option_bind]. by rewrite Hm.
  - rewrite Eq. cbn [head mbind option_bind]. rewrite Hq, IH. done.
Qed.

(** The second half of the function, on the extension it is called for. *)
Lemma remove_from_lists_at con before p after :
  root con = before ++ p :: after →
  Forall (λ q, ∃ e es, peer_list q = e :: es ∧ scan_match ex matchcallerid e = false) before →
  (∃ e es, peer_list p = e :: es ∧ scan_match ex matchcallerid e = true) →
  Forall (λ e, walks e = true) (peer_list p) →
  Forall (λ q, ∃ e es, peer_list q = e :: es ∧ walks e = false) after →
  remove_from_lists ex callerid matchcallerid registrar' con
  = Some (if decide (filter gone (peer_list p) = []) then -1 else 0,
          set_root con (before ++ rebuild p (filter keep (peer_list p)) ++ after),
          concat (destroy_exten <$> filter gone (peer_list p))).
Proof.
  intros Er Hb Hm Hw Ha. unfold remove_from_lists. rewrite Er, (scan_extens_at before p after) by done.
  cbn [mbind option_bind]. rewrite walk_extens_one; [done|done|].
  destruct after as [|q after]; [done|]. by apply Forall_cons in Ha as [Ha _].
Qed.

End Walk.
End Lists.

(** ** A context that agrees with its table *)

Module Agreement.

Import Tables Ordering Inv Adding Entries Hashtab.Spec Hashtab.Refine TableFacts Lists CString.Compare.

Definition heads (chains : list peers) : list ast_exten := omap (λ p, head (peer_list p)) chains.

(** The table has the head of every extension and nothing else, no two entries
    are the same structure, and the trie is not built. *)
Record agrees (con : ast_context) : Prop := {
  ag_table : match root_table con with
             | Some rt => objects rt ≡ₚ heads (root con) ∧ compare rt = hashtab_compare_extens
                          ∧ hash rt = hashtab_hash_extens
             | None => root con = []
             end;
  ag_addrs : NoDup (addr <$> entries con);
  ag_tree : pattern_tree con = [];
}.

(** The extension [p] is the one the key leads to. *)
Record target (con : ast_context) (ex : ast_exten) (callerid : option cstring) (mc : Z)
    (before : list peers) (p : peers) (after : list peers) : Prop := {
  t_root : root con = before ++ p :: after;
  t_before : ∀ q e, q ∈ before → e ∈ peer_list q → scan_match ex mc e = false;
  t_here : ∀ e, e ∈ peer_list p → scan_match ex mc e = true ∧ walk_on ex callerid mc e = true;
  t_after : ∀ q e, q ∈ after → e ∈ peer_list q → walk_on ex callerid mc e = false;
  t_found : ∀ e, e ∈ peer_list p → hashtab_compare_extens ex e = 0
                                   ∧ hashtab_hash_extens ex = hashtab_hash_extens e;
  t_others : ∀ q e, q ∈ before ++ after → e ∈ peer_list q → hashtab_compare_extens ex e ≠ 0;
}.

Lemma heads_app l k : heads (l ++ k) = heads l ++ heads k.
Proof. apply omap_app. Qed.

Lemma elem_of_heads e chains : e ∈ heads chains → ∃ p, p ∈ chains ∧ e ∈ peer_list p.
Proof.
  unfold heads. rewrite list_elem_of_omap. intros (p&Hp&E). exists p. split; [done|].
  destruct (peer_list p); simplify_eq/=. apply list_elem_of_here.
Qed.

Lemma heads_addrs chains : NoDup (addr <$> entries_of chains) → NoDup (heads chains).
Proof.
  induction chains as [|p chains IH]; [intros; constructor|]. rewrite entries_cons, fmap_app, NoDup_app.
  intros (_&Ha&Hr). unfold heads. cbn [omap list_omap]. destruct (peer_list p) as [|e es]; [by apply IH|].
  cbn [head]. apply NoDup_cons. split; [|by apply IH]. intros (q&Hq&He)%elem_of_heads.
  apply (Ha (addr e)); [apply list_elem_of_here|]. apply list_elem_of_fmap_2, elem_of_entries. eauto.
Qed.

(** *** One table *)

Lemma table_inv_removed cmp hash' (t t' : table) e :
  table_inv cmp hash' t → table_wf t' → objects t ≡ₚ e :: objects t' → same_functions t t' →
  table_inv cmp hash' t'.
Proof.
  intros (_&Hk&Hc&Hh&Hn) Hwf Ho (Ec&Eh&En). split_and!; [done| |congruence|congruence|by rewrite En].
  intros x. specialize (Hk x). unfold same_key in *. rewrite Ho, filter_cons in Hk.
  case_decide; simpl in Hk; lia.
Qed.

Lemma keyed_nodup cmp (l : list ast_exten) : keyed cmp l → (∀ e, cmp e e = 0) → NoDup l.
Proof.
  intros Hk Hr. induction l as [|e l IH]; [constructor|]. apply NoDup_cons. split.
  - intros Hin. specialize (Hk e). unfold same_key in Hk. rewrite filter_cons_True in Hk by apply Hr.
    apply list_elem_of_split in Hin as (l1&l2&->). rewrite filter_app, filter_cons_True in Hk by apply Hr.
    simpl in Hk. rewrite length_app in Hk. simpl in Hk. lia.
  - apply IH. intros x. specialize (Hk x). unfold same_key in *. rewrite filter_cons in Hk.
    case_decide; simpl in Hk; lia.
Qed.

(** An entry leaves the tables of its peers. *)
Lemma peers_without p l1 e l2 : peers_wf p → peer_list p = l1 ++ e :: l2 →
  ∃ lt pt, if_label e remove_this (peer_label_table p) = Some lt ∧ remove_this (peer_table p) e = Some pt
    ∧ number_table pt ∧ objects pt ≡ₚ l1 ++ l2
    ∧ table_inv hashtab_compare_exten_labels hashtab_hash_labels lt
    ∧ ∀ y, y ∈ objects lt → y ∈ l1 ++ l2 ∧ is_Some (label y).
Proof.
  intros Hp El. pose proof (pw_table p Hp) as Ht. pose proof (pw_objects p Hp) as Ho.
  pose proof (pw_labels p Hp) as Hl. pose proof (pw_labelled p Hp) as Hlo.
  assert (NoDup (objects (peer_table p))) as Hnd.
  { apply (keyed_nodup hashtab_compare_exten_numbers); [apply Ht|]. intros x. by apply compare_numbers_zero. }
  destruct (remove_this_there (peer_table p) e) as (pt&Ept&Hpt&Hop&Hf); [apply Ht|done|rewrite Ho, El; set_solver|].
  assert (objects pt ≡ₚ l1 ++ l2) as Hopt.
  { apply (Permutation_cons_inv (a := e)). rewrite <- Hop, Ho, El. symmetry. apply Permutation_middle. }
  assert (∃ lt, if_label e remove_this (peer_label_table p) = Some lt
    ∧ table_inv hashtab_compare_exten_labels hashtab_hash_labels lt
    ∧ ∀ y, y ∈ objects lt → y ∈ objects (peer_label_table p) ∧ y ≠ e) as (lt&Elt&Hlt&Hly).
  { unfold if_label, remove_this. destruct (label e) as [lab|] eqn:Elab.
    - assert (NoDup (objects (peer_label_table p))) as Hndl.
      { apply (keyed_nodup hashtab_compare_exten_labels); [apply Hl|]. intros x. apply compare_refl. }
      destruct (decide (e ∈ objects (peer_label_table p))) as [Hin|Hin].
      + destruct (remove_this_there _ e (proj1 Hl) Hndl Hin) as (lt&E&Hwf&Hol&Hfl). rewrite E.
        exists lt. split; [done|]. split; [by eapply table_inv_removed|]. intros y Hy.
        rewrite Hol in Hndl. apply NoDup_cons in Hndl as [Hne _]. rewrite Hol.
        split; [by apply elem_of_cons; right|]. intros ->. done.
      + rewrite (remove_this_absent _ e (proj1 Hl) Hin). exists (peer_label_table p).
        split_and!; [done..|]. intros y Hy. split; [done|]. by intros ->.
    - exists (peer_label_table p). split_and!; [done..|]. intros y Hy. split; [done|]. intros ->.
      destruct (Hlo e Hy) as [_ Hs]. rewrite Elab in Hs. by destruct Hs. }
  exists lt, pt. split_and!; [done|unfold remove_this; by rewrite Ept|by eapply table_inv_removed|done|done|].
  intros y Hy. destruct (Hly y Hy) as [Hy1 Hne]. destruct (Hlo y Hy1) as [Hy2 Hs]. split; [|done].
  rewrite El in Hy2. set_solver.
Qed.

Lemma peers_wf_sub p es pt lt : peers_wf p → es ≠ [] → es `sublist_of` peer_list p →
  number_table pt → objects pt ≡ₚ es →
  table_inv hashtab_compare_exten_labels hashtab_hash_labels lt →
  (∀ e, e ∈ objects lt → e ∈ es ∧ is_Some (label e)) → peers_wf (Peers es pt lt).
Proof.
  intros Hp Hne Hsub Hpt Hpo Hlt Hlo.
  assert (∀ e, e ∈ es → e ∈ peer_list p) as Hin by (intros e He; by eapply elem_of_sublist).
  split; cbn [peer_list peer_table peer_label_table]; try done.
  - apply Forall_forall. intros e He. by eapply peers_elem_ok; [|apply Hin].
  - intros e e' He He'. apply (pw_same p Hp); auto.
  - clear -Hp Hsub. pose proof (pw_sorted p Hp) as Hs. revert Hs. induction Hsub; intros Hs; [done|..].
    + apply StronglySorted_cons in Hs as [Hs1 Hs2]. apply StronglySorted_cons. split; [|by apply IHHsub].
      rewrite Forall_forall in *. intros y Hy. apply Hs1. by eapply elem_of_sublist.
    + apply StronglySorted_cons in Hs as [_ Hs2]. by apply IHHsub.
Qed.

(** *** The whole context *)

Lemma sorted_unique_priority (l : list ast_exten) a b : StronglySorted by_priority l →
  a ∈ l → b ∈ l → priority a = priority b → a = b.
Proof.
  induction 1 as [|e l Hs IH Hf]; [by intros ?%not_elem_of_nil|]. rewrite Forall_forall in Hf.
  unfold by_priority in Hf. rewrite !elem_of_cons. intros [->|Ha] [->|Hb] E; [done|..].
  - specialize (Hf b Hb). lia.
  - specialize (Hf a Ha). lia.
  - by apply IH.
Qed.

Section Target.
Context (con : ast_context) (ex : ast_exten) (callerid : option cstring) (mc : Z)
        (before : list peers) (p : peers) (after : list peers).
Context (Hc : context_wf con) (Hag : agrees con) (Ht : target con ex callerid mc before p after).

Lemma target_peers : peers_wf p.
Proof.
  pose proof (cw_peers con Hc) as H. rewrite (t_root _ _ _ _ _ _ _ Ht) in H.
  apply Forall_app in H as [_ H]. by apply Forall_cons in H as [H _].
Qed.

Lemma entries_split : entries con = entries_of before ++ peer_list p ++ entries_of after.
Proof. unfold entries. rewrite (t_root _ _ _ _ _ _ _ Ht). unfold entries_of. by rewrite fmap_app, concat_app. Qed.

Lemma addr_apart q e e' : q ∈ before ++ after → e ∈ peer_list p → e' ∈ peer_list q → addr e ≠ addr e'.
Proof.
  intros Hq He He' E. pose proof (ag_addrs con Hag) as Hnd. rewrite entries_split, !fmap_app in Hnd.
  rewrite (Permutation_app_swap_app (addr <$> entries_of before)) in Hnd.
  apply NoDup_app in Hnd as (_&Hnd&_). apply (Hnd (addr e)); [by apply list_elem_of_fmap_2|].
  rewrite E, <- fmap_app, <- entries_app. apply list_elem_of_fmap_2, elem_of_entries. eauto.
Qed.

Lemma peers_addrs : NoDup (addr <$> peer_list p).
Proof.
  pose proof (ag_addrs con Hag) as Hnd. rewrite entries_split, !fmap_app in Hnd.
  apply NoDup_app in Hnd as (_&_&Hnd). by apply NoDup_app in Hnd as (Hnd&_&_).
Qed.

Lemma target_table : ∃ rt, root_table con = Some rt ∧ table_wf rt ∧ newsize_ok (newsize rt)
  ∧ Forall ok_exten (objects rt) ∧ objects rt ≡ₚ heads (root con) ∧ NoDup (objects rt)
  ∧ compare rt = hashtab_compare_extens ∧ hash rt = hashtab_hash_extens.
Proof.
  pose proof (ag_table con Hag) as Hrt. pose proof (cw_root con Hc) as Hro. unfold root_ok in Hro.
  destruct (root_table con) as [rt|].
  - exists rt. destruct Hro as [[Hwf Hn] Hok], Hrt as (Ho&Ec&Eh). split_and!; try done.
    rewrite Ho. apply heads_addrs. apply (ag_addrs con Hag).
  - rewrite (t_root _ _ _ _ _ _ _ Ht) in Hrt. by destruct before.
Qed.

(** The lookup in the table of the context leads to the head of [p]. *)
Lemma target_found e es rt : peer_list p = e :: es → table_wf rt → objects rt ≡ₚ heads (root con) →
  compare rt = hashtab_compare_extens → hash rt = hashtab_hash_extens →
  ast_hashtab_lookup rt ex = Some (Some e) ∧ tables_of con e = Some (Some p).
Proof.
  intros El Hwf Ho Ec Eh. assert (e ∈ peer_list p) as Hin by (rewrite El; apply list_elem_of_here).
  destruct (t_found _ _ _ _ _ _ _ Ht e Hin) as [E0 Ehash]. pose proof (t_root _ _ _ _ _ _ _ Ht) as Er.
  split.
  - apply lookup_only; rewrite ?Ec, ?Eh; [done| |done|done|].
    + rewrite Ho, Er, heads_app. apply elem_of_app. right. unfold heads. cbn [omap list_omap]. rewrite El.
      apply list_elem_of_here.
    + intros z Hz Hz0. rewrite Ho, Er, heads_app in Hz. unfold heads at 2 in Hz. cbn [omap list_omap] in Hz.
      rewrite El in Hz. cbn [head] in Hz. rewrite elem_of_app, elem_of_cons in Hz.
      destruct Hz as [Hz|[Hz|Hz]]; [|done|]; apply elem_of_heads in Hz as (q&Hq&Hz);
        destruct (t_others _ _ _ _ _ _ _ Ht q z); try done; apply elem_of_app; auto.
  - unfold tables_of. rewrite Er, filter_app.
    assert (filter (λ p, addr <$> head (peer_list p) = Some (addr e)) before = []) as ->.
    { apply elem_of_nil_inv. intros q [Hq Hin']%list_elem_of_filter. destruct (peer_list q) as [|e' es'] eqn:Eq; [done|].
      simpl in Hq. simplify_eq. apply (addr_apart q e e'); [apply elem_of_app; by left|done| |done].
      rewrite Eq. apply list_elem_of_here. }
    rewrite filter_cons_True; [done|]. by rewrite El.
Qed.

Lemma set_tables_at e es pt lt : peer_list p = e :: es →
  root (set_tables con e pt lt) = before ++ Peers (peer_list p) pt lt :: after.
Proof.
  intros El. unfold set_tables. cbn [root set_root]. rewrite (t_root _ _ _ _ _ _ _ Ht), fmap_app, fmap_cons.
  rewrite decide_True by by rewrite El.
  assert (∀ l : list peers, (∀ q, q ∈ l → q ∈ before ++ after) → ((λ q, if decide (addr <$> head (peer_list q) = Some (addr e))
    then Peers (peer_list q) pt lt else q) <$> l) = l) as Hid.
  { intros l. induction l as [|q l IH]; intros Hl; [done|]. rewrite fmap_cons, IH by set_solver. f_equal.
    apply decide_False. destruct (peer_list q) as [|e' es'] eqn:Eq; [done|]. intros [= E].
    apply (addr_apart q e e'); [apply Hl, list_elem_of_here|rewrite El|rewrite Eq|done];
      apply list_elem_of_here. }
  rewrite !Hid by set_solver. done.
Qed.

(** What the first half leaves, for the peers that will be kept. *)
Definition tables_after (con' : ast_context) (pt lt : table) (keep : list ast_exten) : Prop :=
  root con' = before ++ Peers (peer_list p) pt lt :: after
  ∧ (∃ rt, root_table con' = Some rt ∧ table_ok rt ∧ Forall ok_exten (objects rt)
       ∧ objects rt ≡ₚ heads (before ++ rebuild (Peers (peer_list p) pt lt) keep ++ after)
       ∧ compare rt = hashtab_compare_extens ∧ hash rt = hashtab_hash_extens)
  ∧ (keep ≠ [] → peers_wf (Peers keep pt lt))
  ∧ con_name con' = con_name con ∧ pattern_tree con' = [] ∧ includes con' = includes con
  ∧ alts con' = alts con ∧ ignorepats con' = ignorepats con.

Lemma heads_rebuild q keep : heads (before ++ rebuild q keep ++ after)
  = heads before ++ (match keep with [] => [] | e :: _ => [e] end) ++ heads after.
Proof. rewrite !heads_app. by destruct keep. Qed.

Lemma heads_root e es : peer_list p = e :: es → heads (root con) ≡ₚ e :: heads before ++ heads after.
Proof.
  intros El. rewrite (t_root _ _ _ _ _ _ _ Ht), heads_app. unfold heads at 2. cbn [omap list_omap].
  rewrite El. cbn [head]. symmetry. apply Permutation_middle.
Qed.

(** The head leaves the table of the context. *)
Lemma remove_head rt e es : peer_list p = e :: es → root_table con = Some rt →
  ∃ rt', ast_hashtab_remove_this_object rt e = Some (Some e, rt') ∧ table_wf rt' ∧ newsize_ok (newsize rt')
    ∧ objects rt' ≡ₚ heads before ++ heads after ∧ Forall ok_exten (objects rt')
    ∧ compare rt' = hashtab_compare_extens ∧ hash rt' = hashtab_hash_extens.
Proof.
  intros El Ert. destruct target_table as (rt0&E&Hwf&Hn&Hok&Ho&Hnd&Ec&Eh).
  assert (rt0 = rt) as -> by congruence. clear E.
  pose proof (heads_root e es El) as Hh.
  destruct (remove_this_there rt e Hwf Hnd) as (rt'&E'&Hwf'&Ho'&Ec'&Eh'&En').
  { rewrite Ho, Hh. apply list_elem_of_here. }
  exists rt'. split_and!; [done|done|by rewrite En'| | |congruence|congruence].
  - apply (Permutation_cons_inv (a := e)). by rewrite <- Ho', Ho, Hh.
  - rewrite Forall_forall in *. intros y Hy. apply Hok. rewrite Ho'. by apply elem_of_cons; right.
Qed.

(** One priority, [e2]. *)
Lemma tables_one l1 e2 l2 : priority ex ≠ 0 → peer_list p = l1 ++ e2 :: l2 → priority e2 = priority ex →
  ∃ con' pt lt, remove_from_tables con ex = Some con' ∧ tables_after con' pt lt (l1 ++ l2).
Proof.
  intros Hp0 Esp Epr. destruct target_table as (rt&Ert&Hwf&Hn&Hok&Ho&Hnd&Ec&Eh).
  pose proof target_peers as Hp. destruct (peer_list p) as [|e es] eqn:El; [by destruct l1|].
  destruct (target_found e es rt El Hwf Ho Ec Eh) as [Ef Et].
  destruct (remove_head rt e es El Ert) as (rt'&E'&Hwf'&Hn'&Ho'&Hok'&Ec'&Eh').
  destruct (peers_without p l1 e2 l2 Hp) as (lt&pt&Elt&Ept&Hpt&Hpo&Hlt&Hlo); [congruence|].
  assert (ast_hashtab_lookup (peer_table p) ex = Some (Some e2)) as Elk.
  { assert (∀ z, z ∈ peer_list p → priority z = priority ex → z = e2) as Hu.
    { intros z Hz Ez. pose proof (pw_sorted p Hp) as Hs. eapply (sorted_unique_priority (peer_list p));
        [done|done| |congruence]. rewrite El, Esp. set_solver. }
    destruct (pw_table p Hp) as (Hpw&_&Epc&Eph&_). apply lookup_only; rewrite ?Epc, ?Eph; [done| | | |].
    - rewrite (pw_objects p Hp), El, Esp. set_solver.
    - by apply compare_numbers_zero.
    - unfold hashtab_hash_priority. by rewrite Epr.
    - intros z Hz Hz0. apply compare_numbers_zero in Hz0. apply Hu; [by rewrite <- (pw_objects p Hp)|done]. }
  assert (l1 ++ l2 ≠ [] → peers_wf (Peers (l1 ++ l2) pt lt)) as Hw.
  { intros Hne. apply (peers_wf_sub p); try done. rewrite El, Esp. apply sublist_app; [done|]. by constructor. }
  assert (ast_hashtab_size pt = Z.of_nat (length (l1 ++ l2))) as Esz
    by (rewrite size_objects by apply Hpt; by rewrite Hpo).
  unfold remove_from_tables. rewrite Ert. run_calls. rewrite (proj2 (Z.eqb_neq _ _) Hp0). run_calls.
  assert (∀ rt2 : table, table_ok rt2 → Forall ok_exten (objects rt2) →
    objects rt2 ≡ₚ heads before ++ match l1 ++ l2 with [] => [] | e :: _ => [e] end ++ heads after →
    compare rt2 = hashtab_compare_extens → hash rt2 = hashtab_hash_extens →
    tables_after (set_root_table (set_tables con e pt lt) (Some rt2)) pt lt (l1 ++ l2)) as Hdone.
  { intros rt2 H1 H2 H3 H4 H5. split_and!; try done; [by apply (set_tables_at e es)|exists rt2; by rewrite heads_rebuild|].
    apply (ag_tree con Hag). }
  rewrite Esz. unfold replace_head. rewrite El. destruct l1 as [|e1 l1]; simplify_list_eq.
  - destruct l2 as [|next l2]; run_calls.
    + unfold remove_this. rewrite E'. cbn [fmap option_fmap option_map snd mbind option_bind length Z.of_nat Z.eqb].
      unfold delete_from_tree. cbn [pattern_tree set_root_table set_tables set_root]. rewrite (ag_tree con Hag).
      eexists _, pt, lt. split; [done|]. by apply Hdone.
    + rewrite decide_True by done. run_calls.
      destruct (insert_bucket_wf rt' next Hn' Hwf') as (rt2&E2&Hwf2&Ho2&Ec2&Eh2&En2).
      unfold _ast_hashtab_insert_immediate. rewrite E2.
      cbn [fmap option_fmap option_map snd mbind option_bind].
      rewrite (proj2 (Z.eqb_neq (Z.of_nat _) 0)) by (simpl; lia).
      eexists _, pt, lt. split; [done|]. apply Hdone; [split; [done|by rewrite En2]| | |congruence|congruence].
      * rewrite Ho2. constructor; [|done]. pose proof (pw_ok p Hp) as Hall. rewrite El in Hall.
        by apply Forall_cons in Hall as [_ [? _]%Forall_cons].
      * rewrite Ho2, Ho'. apply Permutation_middle.
  - assert (addr e2 ≠ addr e1) as Hne.
    { pose proof peers_addrs as Hna. rewrite El, fmap_cons in Hna. apply NoDup_cons in Hna as [Hna _].
      intros E. apply Hna. rewrite <- E. apply list_elem_of_fmap_2. set_solver. }
    destruct (l1 ++ e2 :: l2) as [|next es'] eqn:Es; [by destruct l1|]. rewrite decide_False by done. run_calls.
    eexists _, pt, lt. split; [done|]. apply Hdone; [by split|done| |done|done].
    rewrite Ho, (heads_root e1 (next :: es')) by done. apply Permutation_middle.
Qed.

(** No entry with the priority. *)
Lemma tables_none : priority ex ≠ 0 → (∀ e, e ∈ peer_list p → priority e ≠ priority ex) →
  remove_from_tables con ex = Some con.
Proof.
  intros Hp0 Hno. destruct target_table as (rt&Ert&Hwf&Hn&Hok&Ho&Hnd&Ec&Eh).
  pose proof target_peers as Hp. destruct (peer_list p) as [|e es] eqn:El; [by destruct (pw_head p Hp)|].
  destruct (target_found e es rt El Hwf Ho Ec Eh) as [Ef Et].
  unfold remove_from_tables. rewrite Ert. run_calls. rewrite (proj2 (Z.eqb_neq _ _) Hp0). run_calls.
  destruct (pw_table p Hp) as (Hpw&_&Epc&_). rewrite (lookup_nothing (peer_table p) ex); [done|done|].
  intros z Hz. rewrite Epc, compare_numbers_zero. intros Ez. rewrite (pw_objects p Hp), El in Hz.
  by destruct (Hno z Hz).
Qed.

(** The whole extension. *)
Lemma tables_all : priority ex = 0 →
  ∃ con', remove_from_tables con ex = Some con'
    ∧ tables_after con' (peer_table p) (peer_label_table p) [].
Proof.
  intros Hp0. destruct target_table as (rt&Ert&Hwf&Hn&Hok&Ho&Hnd&Ec&Eh).
  destruct (peer_list p) as [|e es] eqn:El; [by destruct (pw_head p target_peers)|].
  destruct (target_found e es rt El Hwf Ho Ec Eh) as [Ef _].
  destruct (remove_head rt e es El Ert) as (rt'&E'&Hwf'&Hn'&Ho'&Hok'&Ec'&Eh').
  unfold remove_from_tables. rewrite Ert. run_calls. rewrite Hp0. cbn [Z.eqb].
  unfold remove_this. rewrite E'. cbn [fmap option_fmap option_map snd mbind option_bind].
  unfold delete_from_tree. cbn [pattern_tree set_root_table]. rewrite (ag_tree con Hag).
  eexists. split; [done|]. unfold tables_after. cbn [root root_table con_name pattern_tree includes alts ignorepats set_root_table].
  split_and!; try done; [| |apply (ag_tree con Hag)].
  - rewrite (t_root _ _ _ _ _ _ _ Ht). by destruct p.
  - exists rt'. split_and!; try done. by rewrite heads_rebuild.
Qed.

(** *** The result *)

Definition selected (e : ast_exten) : Prop := priority ex = 0 ∨ priority e = priority ex.

#[local] Instance selected_dec e : Decision (selected e).
Proof. unfold selected. apply _. Defined.

(** The entries of a context that loses some of the peers of [p]. *)
Definition kept_context (con' : ast_context) (pt lt : table) (keep : list ast_exten) : ast_context :=
  set_root con' (before ++ rebuild (Peers (peer_list p) pt lt) keep ++ after).

Lemma kept_entries con' pt lt keep :
  entries (kept_context con' pt lt keep) = entries_of before ++ keep ++ entries_of after.
Proof.
  unfold kept_context, entries. cbn [root set_root]. fold (entries_of (before ++ rebuild (Peers (peer_list p) pt lt) keep ++ after)).
  rewrite !entries_app. destruct keep; [done|]. unfold rebuild. by rewrite entries_cons, app_nil_r.
Qed.

Lemma kept_sorted q keep : (∀ e, e ∈ keep → e ∈ peer_list p) → (keep ≠ [] → peer_list q = keep) →
  StronglySorted precedes (before ++ (match keep with [] => [] | _ => [q] end) ++ after).
Proof.
  intros Hk Hq. pose proof (cw_sorted con Hc) as Hs. rewrite (t_root _ _ _ _ _ _ _ Ht) in Hs.
  apply StronglySorted_app in Hs as (H1&H2&H3). apply StronglySorted_cons in H3 as [H3 H4].
  rewrite Forall_forall in H3. destruct keep as [|k ks].
  - apply StronglySorted_app. split_and!; [|done|done]. intros q1 q2 Hq1 Hq2. apply H1; set_solver.
  - apply StronglySorted_app. split_and!; [|done|].
    + intros q1 q2 Hq1 [->|Hq2]%elem_of_cons; [|apply H1; set_solver].
      intros e e' He He'. rewrite Hq in He' by done. apply (H1 q1 p); [done|apply list_elem_of_here|done|auto].
    + apply StronglySorted_cons. split; [|done]. apply Forall_forall. intros q2 Hq2 e e' He He'.
      rewrite Hq in He by done. apply (H3 q2); auto.
Qed.

(** Order and agreement after the two halves. *)
Lemma kept_ok con' pt lt keep : keep `sublist_of` peer_list p → tables_after con' pt lt keep →
  context_wf (kept_context con' pt lt keep) ∧ agrees (kept_context con' pt lt keep).
Proof.
  intros Hsub (Er&(rt&Ert&Hok&Hf&Ho&Ec&Eh)&Hw&_&Et&_).
  assert (∀ e, e ∈ keep → e ∈ peer_list p) as Hin by (intros e He; by eapply elem_of_sublist).
  pose proof (cw_peers con Hc) as Hp. rewrite (t_root _ _ _ _ _ _ _ Ht) in Hp.
  apply Forall_app in Hp as [Hp1 Hp2]. apply Forall_cons in Hp2 as [_ Hp2].
  split; split.
  - cbn [root kept_context set_root]. rewrite !Forall_app. split_and!; [done| |done].
    unfold rebuild. destruct keep; [done|]. constructor; [by apply Hw|done].
  - cbn [root kept_context set_root].
    pose proof (kept_sorted (Peers keep pt lt) keep Hin (λ _, eq_refl)) as Hs. by destruct keep.
  - unfold root_ok. cbn [root_table kept_context set_root]. by rewrite Ert.
  - cbn [root_table kept_context set_root root]. by rewrite Ert.
  - rewrite kept_entries. eapply sublist_NoDup; [apply (ag_addrs con Hag)|]. rewrite entries_split.
    apply fmap_sublist, sublist_app; [done|]. by apply sublist_app.
  - done.
Qed.

Lemma kept_filter : entries_of before ++ filter (λ e, ¬ selected e) (peer_list p) ++ entries_of after
  = filter (λ e, e ∉ filter selected (peer_list p)) (entries con).
Proof.
  rewrite entries_split, !filter_app. f_equal; [|f_equal].
  - symmetry. apply filter_all. intros e (q&Hq&He)%elem_of_entries [_ Hin]%list_elem_of_filter.
    apply (addr_apart q e e); [apply elem_of_app; by left|done|done|done].
  - apply filter_ext_in. intros e He. rewrite list_elem_of_filter. tauto.
  - symmetry. apply filter_all. intros e (q&Hq&He)%elem_of_entries [_ Hin]%list_elem_of_filter.
    apply (addr_apart q e e); [apply elem_of_app; by right|done|done|done].
Qed.

(** The second half, on what the first one leaves. *)
Lemma lists_after registrar' con' pt lt :
  root con' = before ++ Peers (peer_list p) pt lt :: after →
  (∀ e, e ∈ filter selected (peer_list p) →
     match registrar' with None => true | Some r => strcmp (registrar e) r =? 0 end = true) →
  remove_from_lists ex callerid mc registrar' con'
  = Some (if decide (filter selected (peer_list p) = []) then -1 else 0,
          kept_context con' pt lt (filter (λ e, ¬ selected e) (peer_list p)),
          concat (destroy_exten <$> filter selected (peer_list p))).
Proof.
  intros Er Hreg.
  assert (∀ e, e ∈ peer_list p → to_remove ex registrar' e = true ↔ selected e) as Hsel.
  { intros e He. unfold to_remove, selected. rewrite andb_true_iff, orb_true_iff, !Z.eqb_eq.
    split; [tauto|]. intros Hs. split; [done|]. apply Hreg, list_elem_of_filter. done. }
  assert (filter (λ e, to_remove ex registrar' e = true) (peer_list p) = filter selected (peer_list p)) as Eg
    by (by apply filter_ext_in).
  assert (filter (λ e, to_remove ex registrar' e = false) (peer_list p)
    = filter (λ e, ¬ selected e) (peer_list p)) as Ek.
  { apply filter_ext_in. intros e He. rewrite <- (Hsel e He). by destruct (to_remove ex registrar' e). }
  pose proof (cw_peers con Hc) as Hp. rewrite (t_root _ _ _ _ _ _ _ Ht) in Hp.
  apply Forall_app in Hp as [Hp1 Hp2]. apply Forall_cons in Hp2 as [Hpp Hp2].
  rewrite Forall_forall in Hp1, Hp2.
  assert (∀ q, peers_wf q → ∃ e es, peer_list q = e :: es ∧ e ∈ peer_list q) as Hhead.
  { intros q Hq. pose proof (pw_head q Hq). destruct (peer_list q) as [|e es]; [done|].
    exists e, es. split; [done|apply list_elem_of_here]. }
  rewrite (remove_from_lists_at ex callerid mc registrar' con' before (Peers (peer_list p) pt lt) after);
    cbn [peer_list]; [by rewrite Eg, Ek|done|..].
  - apply Forall_forall. intros q Hq. destruct (Hhead q) as (e&es&E&He); [auto|]. exists e, es.
    split; [done|]. by apply (t_before _ _ _ _ _ _ _ Ht q).
  - destruct (Hhead p Hpp) as (e&es&E&He). exists e, es. split; [done|]. by apply (t_here _ _ _ _ _ _ _ Ht).
  - apply Forall_forall. intros e He. by apply (t_here _ _ _ _ _ _ _ Ht).
  - apply Forall_forall. intros q Hq. destruct (Hhead q) as (e&es&E&He); [auto|]. exists e, es.
    split; [done|]. by apply (t_after _ _ _ _ _ _ _ Ht q).
Qed.

(** What the first half leaves, for the peers that are not selected. *)
Lemma tables_total :
  ∃ con' pt lt, remove_from_tables con ex = Some con'
    ∧ tables_after con' pt lt (filter (λ e, ¬ selected e) (peer_list p)).
Proof.
  destruct (decide (priority ex = 0)) as [Hp0|Hp0].
  { assert (filter (λ e, ¬ selected e) (peer_list p) = []) as ->.
    { apply elem_of_nil_inv. intros e [Hn _]%list_elem_of_filter. apply Hn. by left. }
    destruct (tables_all Hp0) as (con'&E&H). eauto. }
  pose proof target_peers as Hp.
  destruct (decide (Exists (λ e, priority e = priority ex) (peer_list p))) as [Hex|Hno].
  - apply Exists_exists in Hex as (e&He&Epr). apply list_elem_of_split in He as (l1&l2&El).
    assert (filter (λ e, ¬ selected e) (peer_list p) = l1 ++ l2) as ->.
    { assert (∀ x, x ∈ l1 ++ l2 → ¬ selected x) as Hx.
      { intros x Hin [?|Ex]; [done|]. pose proof peers_addrs as Hnd. rewrite El, fmap_app, fmap_cons in Hnd.
        assert (x = e) as ->. { eapply sorted_unique_priority; [apply (pw_sorted p Hp)|rewrite El; clear -Hin; set_solver|rewrite El; clear; set_solver|congruence]. }
        apply NoDup_app in Hnd as (_&H1&H2). apply NoDup_cons in H2 as [H2 _].
        apply elem_of_app in Hin as [Hin|Hin].
        - apply (H1 (addr e)); [by apply list_elem_of_fmap_2|apply list_elem_of_here].
        - apply H2. by apply list_elem_of_fmap_2. }
      rewrite El, filter_app, filter_cons_False by (intros []; by right).
      rewrite <- filter_app. by apply filter_all. }
    destruct (tables_one l1 e l2) as (con'&pt&lt&E&H); eauto.
  - assert (∀ e, e ∈ peer_list p → priority e ≠ priority ex) as Hne.
    { intros e He E. apply Hno, Exists_exists. eauto. }
    assert (filter (λ e, ¬ selected e) (peer_list p) = peer_list p) as ->.
    { apply filter_all. intros e He [?|E]; [done|]. by apply (Hne e). }
    exists con, (peer_table p), (peer_label_table p). split; [by apply tables_none|].
    destruct target_table as (rt&Ert&Hwf&Hn&Hok&Ho&Hnd&Ec&Eh).
    split_and!; try done; [|exists rt|by destruct p|apply (ag_tree con Hag)].
    + rewrite (t_root _ _ _ _ _ _ _ Ht). by destruct p.
    + split_and!; try done. rewrite Ho, (t_root _ _ _ _ _ _ _ Ht), heads_rebuild, heads_app.
      unfold heads at 2. cbn [omap list_omap]. pose proof (pw_head p Hp). by destruct (peer_list p).
Qed.

(** Both halves together. *)
Lemma remove_target registrar' :
  (∀ e, e ∈ filter selected (peer_list p) →
     match registrar' with None => true | Some r => strcmp (registrar e) r =? 0 end = true) →
  ∃ con', (con ← remove_from_tables con ex; remove_from_lists ex callerid mc registrar' con)
      = Some (if decide (filter selected (peer_list p) = []) then -1 else 0, con',
              concat (destroy_exten <$> filter selected (peer_list p)))
    ∧ entries con' = filter (λ e, e ∉ filter selected (peer_list p)) (entries con)
    ∧ context_wf con' ∧ agrees con' ∧ con_name con' = con_name con ∧ includes con' = includes con
    ∧ alts con' = alts con ∧ ignorepats con' = ignorepats con.
Proof.
  intros Hreg. destruct tables_total as (con'&pt&lt&E&Hafter). rewrite E. cbn [mbind option_bind].
  rewrite (lists_after registrar' con' pt lt); [|apply Hafter|done]. eexists. split; [done|].
  rewrite kept_entries, kept_filter. split; [done|].
  destruct (kept_ok con' pt lt (filter (λ e, ¬ selected e) (peer_list p))) as [H1 H2];
    [apply sublist_filter|done|]. destruct Hafter as (_&_&_&?&_&?&?&?). done.
Qed.

End Target.

End Agreement.

(** ** Additions keep the agreement *)

Module Additions.

Import Pattern.Bits Pattern.Order Tables Ordering Inv Adding AddExtension Entries Agreement TableFacts
  Hashtab.Spec Hashtab.Refine Hashtab.Primes CString.Compare.

Lemma bytes_inj a b : scannable a → scannable b → bytes a = bytes b → a = b.
Proof.
  assert (∀ c, (-128 <= c < 128 ∧ c ≠ -1 ∧ c ≠ 0) → u8 c ≠ 0 ∧ swrap 8 (u8 c) = c) as Hc.
  { intros c (H1&H2&H3). assert (swrap 8 (u8 c) = c) as E.
    { rewrite swrap_uwrap by done. apply swrap_small; [done|]. simpl. lia. }
    split; [|done]. intros E0. rewrite E0 in E. change (swrap 8 0) with 0 in E. lia. }
  intros Ha. revert b. induction Ha as [|c a Hca Ha IH]; intros b Hb; destruct Hb as [|d b Hdb Hb];
    cbn [bytes]; [done|..].
  - destruct (Hc d Hdb) as [Hd _]. by destruct (Z.eqb_spec (u8 d) 0).
  - destruct (Hc c Hca) as [Hd _]. by destruct (Z.eqb_spec (u8 c) 0).
  - destruct (Hc c Hca) as [H1 E1], (Hc d Hdb) as [H2 E2].
    destruct (Z.eqb_spec (u8 c) 0), (Z.eqb_spec (u8 d) 0); try done. intros [= E Er].
    f_equal; [congruence|by apply IH].
Qed.

(** What the table takes for equal is of the same extension. *)
Lemma compare_order a b : ok_exten a → ok_exten b → hashtab_compare_extens a b = 0 → order a b = 0.
Proof.
  intros Ha Hb. destruct Ha as (Hsa&Hca&Hma), Hb as (Hsb&Hcb&Hmb). unfold hashtab_compare_extens.
  destruct (Z.eqb_spec (strcmp (exten a) (exten b)) 0) as [E|]; [|done]. cbn [negb].
  apply strcmp_zero, bytes_inj in E; [|done..].
  assert (ok_exten a ∧ ok_exten b) as [Ha Hb] by done.
  destruct (exten_key_exists a Ha) as [k Hk].
  intros Hcmp. assert (exten_key b k) as Hk'.
  { destruct Hk as [Hk1 Hk2]. split; [by rewrite <- E|].
    destruct Hma as [Ea|Ea], Hmb as [Eb|Eb]; rewrite Ea, Eb in *; cbn in Hcmp |- *; try done.
    apply strcmp_zero, bytes_inj in Hcmp; [|done..]. by rewrite <- Hcmp. }
  unfold order. rewrite (exten_order_lex2 a b k k) by done. cbn [default]. unfold lex2.
  by rewrite !lexc_refl.
Qed.

Lemma compare_self e : ok_exten e → hashtab_compare_extens e e = 0.
Proof.
  intros (_&_&Hm). unfold hashtab_compare_extens. rewrite !strcmp_refl. cbn [negb Z.eqb].
  by destruct Hm as [-> | ->].
Qed.

(** *** The table of a context *)

(** A table with these objects. *)
Record root_table_of (rt : table) (l : list ast_exten) : Prop := {
  rto_wf : table_wf rt;
  rto_size : newsize_ok (newsize rt);
  rto_objects : objects rt ≡ₚ l;
  rto_compare : compare rt = hashtab_compare_extens;
  rto_hash : hash rt = hashtab_hash_extens;
}.

(** No two of them are of the same extension. *)
Definition apart (l : list ast_exten) : Prop :=
  NoDup l ∧ Forall ok_exten l ∧ ∀ a b, a ∈ l → b ∈ l → order a b = 0 → a = b.

Lemma apart_compare l a b : apart l → a ∈ l → b ∈ l → hashtab_compare_extens a b = 0 → a = b.
Proof.
  intros (_&Hok&Ha) H1 H2 E. rewrite Forall_forall in Hok. apply Ha; [done..|].
  apply compare_order; auto.
Qed.

Lemma apart_new e l z : apart (e :: l) → z ∈ l → hashtab_compare_extens e z ≠ 0.
Proof.
  intros Hap Hz E. pose proof Hap as (Hnd&_). apply NoDup_cons in Hnd as [Hne _]. apply Hne.
  assert (e = z) as ->; [|done]. apply (apart_compare (e :: l)); [done|set_solver..|done].
Qed.

(** A new one is inserted, one that is there is not. *)
Lemma insert_root rt l e rt' : root_table_of rt l → apart (e :: l) →
  ast_hashtab_insert_safe rt e = Some rt' → root_table_of rt' (e :: l).
Proof.
  intros [Hwf Hn Ho Hc Hh] Hap E. unfold ast_hashtab_insert_safe in E.
  destruct (_ast_hashtab_insert_safe (true, true) rt e) as [[r t]|] eqn:E1; [|done]. simplify_eq/=.
  destruct (insert_safe_cases rt e r rt' Hwf Hn E1) as (Hwf'&(Ec&Eh&En)&Hcases).
  destruct Hcases as [(->&y&Hy&E0)|(Ho'&_)].
  - rewrite Hc in E0. rewrite Ho in Hy. by destruct (apart_new e l y).
  - split; [done|by rewrite En|by rewrite Ho', Ho|congruence|congruence].
Qed.

Lemma insert_root_again rt l e rt' : root_table_of rt (e :: l) → apart (e :: l) →
  ast_hashtab_insert_safe rt e = Some rt' → root_table_of rt' (e :: l).
Proof.
  intros [Hwf Hn Ho Hc Hh] Hap E. unfold ast_hashtab_insert_safe in E.
  destruct (_ast_hashtab_insert_safe (true, true) rt e) as [[r t]|] eqn:E1; [|done]. simplify_eq/=.
  destruct (insert_safe_cases rt e r rt' Hwf Hn E1) as (Hwf'&_&Hcases).
  destruct Hcases as [(->&_)|(_&Hno)]; [done|]. destruct (Hno e).
  - rewrite Ho. apply list_elem_of_here.
  - done.
  - rewrite Hc. apply compare_self. destruct Hap as (_&Hok&_). by apply Forall_cons in Hok as [Hok _].
Qed.

Lemma remove_root rt l e rt' : root_table_of rt (e :: l) → apart (e :: l) →
  remove_via_lookup rt e = Some rt' → root_table_of rt' l.
Proof.
  intros [Hwf Hn Ho Hc Hh] Hap E. unfold remove_via_lookup in E.
  destruct (ast_hashtab_remove_object_via_lookup rt e) as [[r t]|] eqn:E1; [|done]. simplify_eq/=.
  destruct (remove_lookup_cases rt e r rt' Hwf E1) as (Hwf'&(Ec&Eh&En)&Hcases). destruct r as [y|].
  - destruct Hcases as [E0 Ho']. rewrite Hc in E0.
    assert (y ∈ e :: l) as Hy by (rewrite <- Ho, Ho'; apply list_elem_of_here).
    assert (e = y) as <- by (apply (apart_compare (e :: l)); [done|apply list_elem_of_here|done..]).
    split; [done|by rewrite En| |congruence|congruence].
    apply (Permutation_cons_inv (a := e)). by rewrite <- Ho', Ho.
  - destruct Hcases as [-> Hno]. destruct (Hno e).
    + rewrite Ho. apply list_elem_of_here.
    + done.
    + rewrite Hc. apply compare_self. destruct Hap as (_&Hok&_). by apply Forall_cons in Hok as [Hok _].
Qed.

(** The head [h] of an extension is replaced, once or twice. *)
Lemma swap_root rt l h e rt1 rt2 : root_table_of rt (h :: l) → apart (h :: l) → apart (e :: l) →
  remove_via_lookup rt h = Some rt1 → ast_hashtab_insert_safe rt1 e = Some rt2 → root_table_of rt2 (e :: l).
Proof. intros. eapply insert_root; [|done..]. by eapply remove_root. Qed.

Lemma swap_root_again rt l h e rt1 rt2 : root_table_of rt (e :: l) → apart (h :: l) → apart (e :: l) →
  remove_via_lookup rt h = Some rt1 → ast_hashtab_insert_safe rt1 e = Some rt2 → root_table_of rt2 (e :: l).
Proof.
  intros Hrt Hh' Hap E1 E2. pose proof Hrt as [Hwf Hn Ho Hc Hh]. unfold remove_via_lookup in E1.
  destruct (ast_hashtab_remove_object_via_lookup rt h) as [[r t]|] eqn:E; [|done]. simplify_eq/=.
  destruct (remove_lookup_cases rt h r rt1 Hwf E) as (Hwf'&(Ec&Eh&En)&Hcases). destruct r as [y|].
  - destruct Hcases as [E0 Ho']. rewrite Hc in E0. eapply insert_root; [|done..].
    assert (y ∈ e :: l) as Hy by (rewrite <- Ho, Ho'; apply list_elem_of_here).
    apply elem_of_cons in Hy as [->|Hy]; [|by destruct (apart_new h l y)].
    split; [done|by rewrite En| |congruence|congruence].
    apply (Permutation_cons_inv (a := e)). by rewrite <- Ho', Ho.
  - destruct Hcases as [-> _]. by eapply insert_root_again.
Qed.

(** *** The lists *)

Lemma heads_apart con : context_wf con → apart (heads (root con)).
Proof.
  intros [Hp Hs _]. revert Hs. induction Hp as [|p chains Hp Hps IH]; intros Hs.
  { split_and!; [constructor|constructor|]. intros a b Ha. by apply not_elem_of_nil in Ha. }
  apply StronglySorted_cons in Hs as [Hlt Hs]. destruct (IH Hs) as (H1&H2&H3). unfold heads. cbn [omap list_omap].
  pose proof (pw_head p Hp). destruct (peer_list p) as [|e es] eqn:El; [done|]. cbn [head].
  assert (e ∈ peer_list p) as He by (rewrite El; apply list_elem_of_here).
  assert (ok_exten e) as Hok by (by eapply peers_elem_ok).
  rewrite Forall_forall in Hlt.
  assert (∀ z, z ∈ heads chains → order e z < 0 ∧ order z e ≠ 0) as Hz.
  { intros z Hz. apply elem_of_heads in Hz as (q&Hq&Hz). pose proof (Hlt q Hq e z He Hz) as Hez.
    assert (ok_exten z) as Hokz.
    { rewrite Forall_forall in Hps. eapply peers_elem_ok; [by apply Hps|done]. }
    pose proof (order_flip e z Hok Hokz). lia. }
  split_and!.
  - apply NoDup_cons. split; [|done]. intros Hin. destruct (Hz e Hin) as [Hl _].
    rewrite order_refl in Hl by done. lia.
  - by constructor.
  - intros a b [->|Ha]%elem_of_cons [->|Hb]%elem_of_cons E; [done|..].
    + destruct (Hz b Hb). lia.
    + by destruct (Hz a Ha).
    + by apply H3.
Qed.

Lemma rto_perm rt l l' : l ≡ₚ l' → root_table_of rt l → root_table_of rt l'.
Proof. intros E [? ? Ho ? ?]. split; try done. by rewrite Ho. Qed.

Lemma apart_perm l l' : l ≡ₚ l' → apart l → apart l'.
Proof.
  intros E (H1&H2&H3). split; [by rewrite <- E|]. split; [by rewrite <- E|].
  intros a b. rewrite <- E. apply H3.
Qed.

(** The table has exactly the heads, or is not there yet. *)
Definition table_agrees (con : ast_context) : Prop :=
  match root_table con with Some rt => root_table_of rt (heads (root con)) | None => root con = [] end.

Lemma agrees_table con : context_wf con → agrees con → table_agrees con.
Proof.
  intros Hc [Ht _ _]. unfold table_agrees. pose proof (cw_root con Hc) as Hr. unfold root_ok in Hr.
  destruct (root_table con) as [rt|]; [|done]. destruct Hr as [[Hwf Hn] _], Ht as (?&?&?). by split.
Qed.

Lemma table_agrees_agrees con : table_agrees con → NoDup (addr <$> entries con) → pattern_tree con = [] → agrees con.
Proof.
  unfold table_agrees. intros Ht Hnd Hp. split; [|done..]. destruct (root_table con) as [rt|]; [|done].
  by destruct Ht.
Qed.

Lemma heads_at chains i p e es : chains !! i = Some p → peer_list p = e :: es →
  ∃ others, heads chains ≡ₚ e :: others
    ∧ ∀ q e' es', peer_list q = e' :: es' → heads (<[i := q]> chains) ≡ₚ e' :: others.
Proof.
  intros Hi El. exists (heads (take i chains) ++ heads (drop (S i) chains)). split.
  - rewrite <- (take_drop_middle _ _ _ Hi) at 1. rewrite heads_app. unfold heads at 2. cbn [omap list_omap].
    rewrite El. cbn [head]. symmetry. apply Permutation_middle.
  - intros q e' es' Eq. rewrite insert_take_drop by (by eapply lookup_lt_Some). rewrite heads_app.
    unfold heads at 2. cbn [omap list_omap]. rewrite Eq. cbn [head]. symmetry. apply Permutation_middle.
Qed.

(** Take apart a sequence of calls that returns. *)
Ltac invert_calls H :=
  repeat (cbn [mbind option_bind] in H;
    match type of H with
    | mbind _ ?x = Some _ => let E := fresh "E" in destruct x eqn:E; [|discriminate H]
    | context [mbind _ ?x] => let E := fresh "E" in destruct x eqn:E; [|discriminate H]
    end); cbn [mbind option_bind] in H.

Lemma replace_in_no_tree e tmp tree : replace_in_tree [] e tmp = Some tree → tree = [].
Proof.
  unfold replace_in_tree. intros H. destruct (find_exten_in_pattern_tree [] e) as [[path|]|] eqn:E; [| |done];
    cbn [mbind option_bind] in H; [|congruence].
  destruct path as [|i path]; cbn [lookup_node mbind option_bind] in H; [done|].
  destruct path; by destruct i.
Qed.

Lemma add_priority_agrees con tmp i p replace con' events :
  context_wf con → table_agrees con → pattern_tree con = [] → root con !! i = Some p → context_wf con' →
  add_priority con tmp i replace = Some (0, con', events) →
  table_agrees con' ∧ pattern_tree con' = [].
Proof.
  intros Hc Hta Htree Hi Hc' H. pose proof (heads_apart con' Hc') as Hap'.
  pose proof (heads_apart con Hc) as Hap.
  assert (peers_wf p) as Hp by (eapply Forall_lookup_1; [apply Hc|done]).
  pose proof (pw_head p Hp) as Hne.
  unfold add_priority in H. rewrite Hi in H. cbn [mbind option_bind] in H.
  pose proof (scan_peers_spec (peer_list p) tmp (pw_sorted p Hp)) as (El&_).
  destruct (scan_peers (peer_list p) tmp) as [[before rest] rep]. cbn [fst snd] in El.
  set (tmp' := if rep then drop_label tmp else tmp) in *. clearbody tmp'.
  destruct (root_table_exists con i p Hc Hi) as (rt&Ert&_).
  pose proof Hta as Hrt. unfold table_agrees in Hrt. rewrite Ert in Hrt.
  assert (∀ b es, peer_list p = b :: es → root_table con' = root_table con →
    pattern_tree con' = pattern_tree con → (∃ pt lt es', root con' = <[i := Peers (b :: es') pt lt]> (root con)) →
    table_agrees con' ∧ pattern_tree con' = []) as Hsame.
  { intros b es Eb Er Et (pt&lt&es'&Eroot). split; [|congruence]. unfold table_agrees. rewrite Er, Ert, Eroot.
    destruct (heads_at (root con) i p b es Hi Eb) as (others&Eo&Eo'). eapply rto_perm; [|exact Hrt].
    by rewrite Eo, (Eo' _ b es'). }
  assert (∀ e es rt1 rt2, peer_list p = e :: es → root_table con' = Some rt2 →
    remove_via_lookup rt e = Some rt1 → ast_hashtab_insert_safe rt1 tmp' = Some rt2 ∨
      (∃ rt3 rt4, ast_hashtab_insert_safe rt1 tmp' = Some rt3 ∧ remove_via_lookup rt3 e = Some rt4
                  ∧ ast_hashtab_insert_safe rt4 tmp' = Some rt2) →
    (∃ pt lt es', root con' = <[i := Peers (tmp' :: es') pt lt]> (root con)) → table_agrees con') as Hswap.
  { intros e es rt1 rt2 Ee Er E1 E2 (pt&lt&es'&Eroot). unfold table_agrees. rewrite Er, Eroot.
    destruct (heads_at (root con) i p e es Hi Ee) as (others&Eo&Eo'). rewrite Eroot in Hap'.
    pose proof (Eo' (Peers (tmp' :: es') pt lt) tmp' es' eq_refl) as Eo2.
    apply (apart_perm _ _ Eo) in Hap. apply (apart_perm _ _ Eo2) in Hap'.
    eapply rto_perm; [symmetry; exact Eo2|]. apply (rto_perm _ _ _ Eo) in Hrt.
    destruct E2 as [E2|(rt3&rt4&E2&E3&E4)]; [by eapply swap_root|].
    eapply swap_root_again; [|exact Hap|exact Hap'|exact E3|exact E4]. by eapply swap_root. }
  destruct before as [|b before].
  - destruct rest as [|e after]; [done|]. simpl in El. destruct (Z.eqb_spec (priority e) (priority tmp')).
    + destruct replace; cbn [negb] in H; [|done]. rewrite Htree in H.
      invert_calls H. apply replace_in_no_tree in E as ->. simplify_eq.
      split; [|done]. case_decide.
      * invert_calls E7. eapply Hswap; [done|done|done|right; eauto|by eexists _, _, _].
      * simplify_eq. eapply Hswap; [done|done|done|by left|by eexists _, _, _].
    + invert_calls H. simplify_eq. split; [|done].
      eapply Hswap; [done|done|done|by left|by eexists _, _, _].
  - destruct rest as [|e after].
    + invert_calls H. simplify_eq. eapply Hsame; [by rewrite El|done|done|by eexists _, _, _].
    + destruct (Z.eqb_spec (priority e) (priority tmp')).
      * destruct replace; cbn [negb] in H; [|done]. invert_calls H. simplify_eq.
        eapply Hsame; [by rewrite El|done|done|by eexists _, _, _].
      * invert_calls H. simplify_eq. eapply Hsame; [by rewrite El|done|done|by eexists _, _, _].
Qed.

Lemma insert_first_agrees con tmp i con' events :
  context_wf con → table_agrees con → pattern_tree con = [] → context_wf con' →
  insert_first java_size con tmp i = Some (con', events) →
  table_agrees con' ∧ pattern_tree con' = [].
Proof.
  intros Hc Hta Htree Hc' H. pose proof (heads_apart con' Hc') as Hap'.
  unfold insert_first in H. invert_calls H. simplify_eq. split; [|done].
  unfold table_agrees. cbn [root_table root set_root_table set_root] in Hap' |- *.
  assert (heads (take i (root con) ++ Peers [tmp] a3 a2 :: drop i (root con)) ≡ₚ tmp :: heads (root con)) as Eh.
  { rewrite heads_app. unfold heads at 2. cbn [omap list_omap peer_list head].
    rewrite <- (take_drop i (root con)) at 3. rewrite heads_app. symmetry. apply Permutation_middle. }
  eapply rto_perm; [symmetry; exact Eh|]. apply (apart_perm _ _ Eh) in Hap'.
  eapply insert_root; [|exact Hap'|done].
  unfold table_agrees in Hta. destruct (root_table con) as [rt|]; [by simplify_eq|]. rewrite Hta.
  case_decide; [|done].
  destruct (new_table_inv 27 hashtab_compare_extens hashtab_hash_extens 29) as (rt&E'&Hinv&Ho); [done..|].
  rewrite E' in E1. simplify_eq. destruct Hinv as (Hwf&_&Hcmp&Hh&Hn). split; try done. by rewrite Ho.
Qed.

(** An addition with a new structure. *)
Lemma add_extension_agrees substitute_hint a con replace extension prio lab callerid application dat dtor reg
    reg_file reg_line r con' events :
  context_wf con → agrees con → scannable extension → scannable (default [] callerid) →
  Z.of_nat (length extension) + Z.of_nat (length (default [] callerid)) + 3 <= MAX_EXTENBUF_SIZE →
  a ∉ addr <$> entries con →
  ast_add_extension2 java_size substitute_hint (Some a) con replace extension prio lab callerid application
    dat dtor reg reg_file reg_line = Some (r, con', events) →
  agrees con'.
Proof.
  intros Hc Hag He Hcid Hfit Ha H. destruct (decide (extension = [])) as [->|Hne].
  { unfold ast_add_extension2, ast_add_extension2_lockopt in H. by simplify_eq. }
  destruct (Dialplan.Properties.add_extension_effect substitute_hint a con replace extension prio lab callerid
    application dat dtor reg reg_file reg_line Hc Hne He Hcid Hfit) as (r0&con0&events0&app'&E&Hc'&_&Heff).
  rewrite E in H. simplify_eq. pose proof (ag_tree con Hag) as Htree.
  pose proof (agrees_table con Hc Hag) as Hta.
  assert (table_agrees con' ∧ pattern_tree con' = []) as [Ht Htr].
  { unfold ast_add_extension2, ast_add_extension2_lockopt in E. destruct extension as [|c0 ext0]; [done|].
    remember (c0 :: ext0) as extension eqn:Eext.
    set (app1 := if _ : bool then _ else application) in E. set (tmp := new_exten _ _ _ _ _ _ _ _ _ _ _) in E.
    assert (ok_exten tmp) as Hok by (apply new_exten_ok; [done|by intros cid ->]).
    unfold add_to_tree in E. rewrite Htree in E. cbn [mbind option_bind] in E.
    destruct (scan_root_spec (root con) tmp 0 (cw_peers con Hc) Hok) as (before&after&o&Es&Er&Hb&Ho).
    rewrite Es in E. cbn [mbind option_bind Nat.add] in E. case_bool_decide as Hz.
    - subst o. destruct Ho as (p&after'&->&_&e0&He0&E0).
      assert (root con !! length before = Some p) as Hi by (rewrite Er; by apply list_lookup_middle).
      destruct (root_table_exists con _ p Hc Hi) as (rt&Ert&Hrt).
      destruct (add_priority_spec con tmp e0 (length before) p rt Hc Hi He0 Hok E0 Ert Hrt replace)
        as (r1&con1&events1&E1&Hres). rewrite E1 in E. cbn [mbind option_bind] in E.
      destruct Hres as [(->&->&_)|(->&Hc1&_)]; cbn [Z.ltb Z.compare] in E.
      + unfold undo_add in E. rewrite Htree in E. cbn [mbind option_bind] in E. by simplify_eq.
      + simplify_eq. by apply (add_priority_agrees con tmp (length before) p replace con' events).
    - invert_calls E. destruct p as [con2 ev2]. simplify_eq.
      by apply (insert_first_agrees con tmp (length before) con' events). }
  apply table_agrees_agrees; [done| |done]. pose proof (ag_addrs con Hag) as Hnd.
  destruct Heff as [(_&_&Er&_)|(_&_&tmp'&Hsb&Eent)].
  - unfold entries. by rewrite Er.
  - rewrite Eent, fmap_cons. assert (addr tmp' = a) as ->.
    { destruct Hsb as [-> | ->]; unfold new_exten; by destruct callerid. }
    apply NoDup_cons. split.
    + intros Hin. apply Ha. apply list_elem_of_fmap in Hin as (e&->&[_ Hin]%list_elem_of_filter).
      by apply list_elem_of_fmap_2.
    + eapply sublist_NoDup; [exact Hnd|]. apply fmap_sublist, sublist_filter.
Qed.

Lemma agrees_empty name incs sws ips : agrees (Context name [] None [] incs sws ips).
Proof. split; [done|constructor|done]. Qed.

End Additions.

(** ** The theorems *)

Module Properties.

Import Pattern.Bits Pattern.Spec Tables Ordering Inv Adding Entries RoundTrip Agreement CString.Compare Hashtab.Refine Hashtab.Primes.

(** The call leads to the extension [p] between [before] and [after]: to the one
    without a caller id, when no other entry has the name, or to that of a
    caller.  All peers are under the same name. *)
Definition addressed (con : ast_context) (extension : cstring) (callerid : option cstring) (mc : Z)
    (before : list peers) (p : peers) (after : list peers) : Prop :=
  let n := string_of (ext_strncpy extension 1024 true) in
  root con = before ++ p :: after ∧
  (((mc = AST_EXT_MATCHCID_OFF ∨ (mc = AST_EXT_MATCHCID_ANY ∧ callerid = None))
    ∧ (∀ e, e ∈ peer_list p → exten e = n ∧ matchcid e = AST_EXT_MATCHCID_OFF ∧ cidmatch e = [])
    ∧ (∀ q e, q ∈ before ++ after → e ∈ peer_list q → strcmp (exten e) n ≠ 0))
   ∨ ∃ cid c, callerid = Some cid ∧ c = string_of (ext_strncpy cid 1024 true) ∧ c ≠ []
    ∧ mc = AST_EXT_MATCHCID_ON
    ∧ (∀ e, e ∈ peer_list p → exten e = n ∧ matchcid e = AST_EXT_MATCHCID_ON ∧ cidmatch e = c)
    ∧ (∀ q e, q ∈ before ++ after → e ∈ peer_list q → strcmp (exten e) n = 0 → strcmp (cidmatch e) c ≠ 0)).

Lemma strcmp_sym a b : strcmp a b = 0 ↔ strcmp b a = 0.
Proof. rewrite !strcmp_zero. naive_solver. Qed.

Lemma addressed_target con extension prio callerid mc before p after :
  context_wf con → addressed con extension callerid mc before p after →
  target con (removal_key extension prio callerid mc) callerid mc before p after.
Proof.
  intros Hc [Er Hcases].
  assert (∀ q e, q ∈ before ++ after → e ∈ peer_list q → ok_exten e) as Hok.
  { intros q e Hq He. pose proof (cw_peers con Hc) as Hp. rewrite Forall_forall in Hp.
    eapply peers_elem_ok; [|done]. apply Hp. rewrite Er. set_solver. }
  unfold AST_EXT_MATCHCID_OFF, AST_EXT_MATCHCID_ON, AST_EXT_MATCHCID_ANY in *.
  destruct Hcases as [(Hmc&Hp&Hn)|(cid&c&->&Ec&Hne&->&Hp&Hn)].
  - assert (∀ q e, q ∈ before ++ after → e ∈ peer_list q →
      (strcmp (exten e) (string_of (ext_strncpy extension 1024 true)) =? 0) = false) as Hn'
      by (intros q e Hq He; by apply Z.eqb_neq, (Hn q)).
    split; [done|..]; unfold scan_match, walk_on, hashtab_compare_extens, hashtab_hash_extens;
      cbn [exten matchcid cidmatch removal_key].
    + intros q e Hq He. by rewrite (Hn' q) by (done || set_solver).
    + intros e He. destruct (Hp e He) as (->&->&->). rewrite strcmp_refl.
      destruct Hmc as [-> | [-> ->]]; [|done]. by rewrite orb_true_r.
    + intros q e Hq He. by rewrite (Hn' q) by (done || set_solver).
    + intros e He. destruct (Hp e He) as (->&->&->). rewrite strcmp_refl.
      by destruct Hmc as [-> | [-> ->]].
    + intros q e Hq He E. apply (Hn q e Hq He), strcmp_sym.
      by destruct (Z.eqb_spec (strcmp (string_of (ext_strncpy extension 1024 true)) (exten e)) 0).
  - split; [done|..]; unfold scan_match, walk_on, hashtab_compare_extens, hashtab_hash_extens;
      cbn [exten matchcid cidmatch removal_key]; rewrite <- Ec.
    + intros q e Hq He. destruct (Z.eqb_spec (strcmp (exten e) (string_of (ext_strncpy extension 1024 true))) 0)
        as [E|]; [|done]. assert (strcmp (cidmatch e) c ≠ 0) as Hcid by (apply (Hn q); set_solver).
      rewrite (bool_decide_false (c = [])), (proj2 (Z.eqb_neq _ _) Hcid), !andb_false_r by done. done.
    + intros e He. destruct (Hp e He) as (->&->&->). rewrite !strcmp_refl.
      by rewrite !(bool_decide_false (c = [])), (bool_decide_false (Some cid = None)) by done.
    + intros q e Hq He. destruct (Z.eqb_spec (strcmp (exten e) (string_of (ext_strncpy extension 1024 true))) 0)
        as [E|]; [|done]. assert (strcmp (cidmatch e) c ≠ 0) as Hcid by (apply (Hn q); set_solver).
      by rewrite (proj2 (Z.eqb_neq _ _) Hcid), !andb_false_r.
    + intros e He. destruct (Hp e He) as (->&->&->). by rewrite !strcmp_refl.
    + intros q e Hq He. destruct (Z.eqb_spec (strcmp (string_of (ext_strncpy extension 1024 true)) (exten e)) 0)
        as [E|]; [|done]. cbn [negb]. apply strcmp_sym in E. pose proof (Hn q e Hq He E) as Hcid.
      destruct (Hok q e Hq He) as (_&_&[-> | ->]); [done|]. cbn. by rewrite strcmp_sym.
Qed.






(** A context of exact names and patterns without caller ids and dashes. *)
Definition simple (con : ast_context) : Prop :=
  ∀ e, e ∈ entries con → matchcid e = AST_EXT_MATCHCID_OFF ∧ cidmatch e = [] ∧ DASH ∉ exten e.

Lemma undash_none s : DASH ∉ s → undash s = s.
Proof. intros Hs. unfold undash. apply filter_all. intros c Hc ->. done. Qed.

(** The extension of a plain name in such a context. *)
Lemma plain_addressed con s tmp before p after :
  context_wf con → agrees con → simple con → plain_name s → DASH ∉ s →
  string_of (ext_strncpy s 1024 true) = s →
  root con = before ++ p :: after → tmp ∈ peer_list p → exten tmp = s →
  addressed con s None AST_EXT_MATCHCID_ANY before p after.
Proof.
  intros Hc Hag Hsim Hs Hd Estr Er Htmp Ex. unfold addressed. rewrite Estr. split; [done|]. left.
  assert (∀ q e, q ∈ root con → e ∈ peer_list q → ok_exten e ∧ e ∈ entries con) as Hok.
  { intros q e Hq He. pose proof (cw_peers con Hc) as Hp. rewrite Forall_forall in Hp.
    split; [eapply peers_elem_ok; [by apply Hp|done]|]. apply elem_of_entries. eauto. }
  assert (p ∈ root con) as Hp by (rewrite Er; set_solver).
  destruct (Hok p tmp Hp Htmp) as [Hokt Hint]. destruct (Hsim tmp Hint) as (Hofft&_&_).
  pose proof (cw_peers con Hc) as Hpw. rewrite Forall_forall in Hpw.
  assert (deref (exten tmp) ≠ UNDERSCORE) as Hu by (rewrite Ex; apply Hs).
  split; [by right|]. split.
  - intros e He. destruct (Hok p e Hp He) as [Hoke Hine]. destruct (Hsim e Hine) as (Hoff&Hcid&Hde).
    split_and!; [|done|done].
    destruct (RoundTrip.plain_order s tmp Hokt ltac:(by rewrite Ex) Hu Hofft e Hoke Hoff) as [H1 H2].
    pose proof (pw_same p (Hpw p Hp) e tmp He Htmp) as Eo.
    destruct (decide (deref (exten e) = UNDERSCORE)) as [Hue|Hue]; [apply H1 in Hue; lia|].
    apply H2 in Eo; [|done]. by rewrite !undash_none in Eo.
  - intros q e Hq He E.
    assert (q ∈ root con) as Hqr by (rewrite Er; set_solver).
    destruct (Hok q e Hqr He) as [Hoke Hine]. destruct (Hsim e Hine) as (Hoff&_).
    assert (order e tmp = 0) as Eo.
    { apply Additions.compare_order; [done..|]. unfold hashtab_compare_extens. rewrite Ex, E, Hoff, Hofft. done. }
    pose proof (cw_sorted con Hc) as Hso. rewrite Er in Hso. apply StronglySorted_app in Hso as (H1&_&H3).
    apply StronglySorted_cons in H3 as [H3 _]. rewrite Forall_forall in H3.
    apply elem_of_app in Hq as [Hq|Hq].
    + specialize (H1 q p Hq (list_elem_of_here _ _) e tmp He Htmp). lia.
    + specialize (H3 q Hq tmp e Htmp He). apply order_zero_sym in Eo; [|done..]. lia.
Qed.

#[local] Existing Instance selected_dec.

Lemma singleton_of (l : list ast_exten) t : NoDup l → (∀ e, e ∈ l ↔ e = t) → l = [t].
Proof.
  intros Hnd Hl. destruct l as [|a l]; [exfalso; apply (not_elem_of_nil t), Hl; done|].
  assert (a = t) as -> by (apply Hl; set_solver). f_equal. apply elem_of_nil_inv. intros b Hb.
  apply NoDup_cons in Hnd as [Hnd _]. apply Hnd. assert (b = t) as <-; [|done]. apply Hl.
  set_solver.
Qed.

(** C10: what is added can be removed, and then nothing is left of it: in a context of names
    and patterns without caller ids and dashes, whose table agrees with its lists and whose trie
    is not built, the addition of a plain name without dashes, of a length that fits the buffers,
    with a priority the name does not have yet, succeeds and keeps the agreement; removing that
    priority of the name then succeeds, destroys the structure that was added and nothing else,
    and leaves the entries there were before, the context in order and in agreement with its
    table. *)
Theorem added_extension_removed substitute_hint a con s prio lab application dat dtor reg reg_file reg_line :
  context_wf con → agrees con → simple con → plain_name s → s ≠ [] → DASH ∉ s →
  Z.of_nat (length s) + 3 <= MAX_EXTENBUF_SIZE → string_of (ext_strncpy s 1024 true) = s → prio ≠ 0 →
  a ∉ addr <$> entries con →
  (∀ e, e ∈ entries con → exten e = s → priority e ≠ prio) →
  ∃ con1 events1 con2 tmp,
    ast_add_extension2 java_size substitute_hint (Some a) con false s prio lab None application
      dat dtor reg reg_file reg_line = Some (0, con1, events1)
    ∧ agrees con1
    ∧ ast_context_remove_extension2 con1 s prio None = Some (0, con2, destroy_exten tmp)
    ∧ addr tmp = a ∧ tmp ∈ entries con1 ∧ entries con2 ≡ₚ entries con ∧ context_wf con2 ∧ agrees con2.
Proof.
  intros Hc Hag Hsim Hs Hne Hd Hfit Estr Hprio Ha Hfresh.
  destruct (Dialplan.Properties.add_extension_effect substitute_hint a con false s prio lab None application dat
    dtor reg reg_file reg_line Hc Hne) as (r&con1&events1&app'&E&Hc1&_&Heff);
    [apply Hs|constructor|simpl; lia|].
  assert (agrees con1) as Hag1.
  { eapply Additions.add_extension_agrees; [exact Hc|exact Hag|apply Hs| | |exact Ha|exact E]; [constructor|simpl; lia]. }
  set (tmp0 := new_exten _ _ _ _ _ _ _ _ _ _ _) in Heff.
  destruct (RoundTrip.new_exten_plain a s prio lab app' dat dtor reg reg_file reg_line Hs) as (Eu&Hu&Hm).
  fold tmp0 in Eu, Hu, Hm.
  assert (ok_exten tmp0) as Hok0 by (apply AddExtension.new_exten_ok; [apply Hs|done]).
  assert (exten tmp0 = s) as Ex0.
  { unfold tmp0, new_exten. cbn [exten]. rewrite (RoundTrip.stored_name s Hs).
    destruct (Z.eqb_spec prio PRIORITY_HINT); [done|]. destruct (negb _); [|done].
    rewrite (RoundTrip.stored_fluffless s Hs). by apply undash_none. }
  assert (∀ e, e ∈ entries con → ¬ same_place tmp0 e) as Hnew.
  { intros e He [Eo Ep]. apply (Hfresh e He); [|exact Ep]. destruct (Hsim e He) as (Hoff&_&Hde).
    assert (ok_exten e) as Hoke.
    { apply elem_of_entries in He as (p&Hp&He). pose proof (cw_peers con Hc) as Hpw.
      rewrite Forall_forall in Hpw. eapply peers_elem_ok; [by apply Hpw|done]. }
    destruct (RoundTrip.plain_order s tmp0 Hok0 Eu Hu Hm e Hoke Hoff) as [H1 H2].
    destruct (decide (deref (exten e) = UNDERSCORE)) as [Hue|Hue]; [apply H1 in Hue; lia|].
    apply H2 in Eo; [|done]. by rewrite !undash_none in Eo. }
  destruct Heff as [(->&_&_&e&He&Hsp)|(->&_&tmp&Hsb&Eent)]; [by destruct (Hnew e He)|].
  rewrite filter_all in Eent by (intros e He; by apply Hnew).
  assert (exten tmp = s ∧ matchcid tmp = AST_EXT_MATCHCID_OFF ∧ addr tmp = a ∧ priority tmp = prio
          ∧ cidmatch tmp = []) as (Ex&Hmt&Eat&Ept&Hct) by (destruct Hsb as [-> | ->]; split_and!; done).
  assert (simple con1) as Hsim1.
  { intros e He. rewrite Eent in He. apply elem_of_cons in He as [->|He]; [|by apply Hsim]. by rewrite Ex. }
  assert (tmp ∈ entries con1) as Hin by (rewrite Eent; apply list_elem_of_here).
  apply elem_of_entries in Hin as (p&Hp&Htmp). pose proof Hp as Hp'.
  apply list_elem_of_split in Hp as (before&after&Er).
  pose proof (plain_addressed con1 s tmp before p after Hc1 Hag1 Hsim1 Hs Hd Estr Er Htmp Ex) as Had.
  destruct (remove_target con1 (removal_key s prio None AST_EXT_MATCHCID_ANY) None AST_EXT_MATCHCID_ANY before p after
    Hc1 Hag1 (addressed_target _ _ _ _ _ _ _ _ Hc1 Had) None) as (con2&E2&Eent2&Hc2&Hag2&_); [done|].
  assert (peers_wf p) as Hpw.
  { pose proof (cw_peers con1 Hc1) as H. rewrite Forall_forall in H. by apply H. }
  assert (filter (selected (removal_key s prio None AST_EXT_MATCHCID_ANY)) (peer_list p) = [tmp]) as Eg.
  { apply singleton_of.
    - apply NoDup_filter. eapply (NoDup_fmap_1 addr), peers_addrs; [exact Hag1|].
      by apply (addressed_target con1 s prio).
    - intros e. rewrite list_elem_of_filter. unfold selected. cbn [priority removal_key]. split.
      + intros [[?|Ee] He]; [done|]. eapply sorted_unique_priority; [apply (pw_sorted p Hpw)|done..|congruence].
      + intros ->. split; [by right|done]. }
  rewrite Eg in E2, Eent2. rewrite decide_False in E2 by done.
  exists con1, events1, con2, tmp. split_and!; [done|done| |done| | |done|done].
  - cbn [fmap list_fmap concat] in E2. rewrite app_nil_r in E2. exact E2.
  - rewrite Eent. apply list_elem_of_here.
  - rewrite Eent2, Eent, filter_cons_False by (intros H; apply H, list_elem_of_here).
    apply reflexive_eq, filter_all. intros e He Hin. apply list_elem_of_singleton in Hin as ->. apply Ha.
    rewrite <- Eat. by apply list_elem_of_fmap_2.
Qed.

Lemma added_extension_removed_witness :
  ∃ con1 events1 con2 tmp,
    ast_add_extension2 java_size (λ _ _ app, app) (Some 1%nat) (Dialplan.Examples.empty_context (cstr "default")) false
      (cstr "5551234") 1 None None (cstr "Dial") 0 false (cstr "pbx_config") None 0 = Some (0, con1, events1)
    ∧ agrees con1
    ∧ ast_context_remove_extension2 con1 (cstr "5551234") 1 None = Some (0, con2, destroy_exten tmp)
    ∧ addr tmp = 1%nat ∧ tmp ∈ entries con1 ∧ entries con2 ≡ₚ [] ∧ context_wf con2 ∧ agrees con2.
Proof.
  apply (added_extension_removed (λ _ _ app, app) 1 (Dialplan.Examples.empty_context (cstr "default")) (cstr "5551234") 1
           None (cstr "Dial") 0 false (cstr "pbx_config") None 0).
  - split; [constructor|constructor|done].
  - apply Additions.agrees_empty.
  - intros e He. by apply not_elem_of_nil in He.
  - split_and!; [by repeat constructor|set_solver|done|done].
  - done.
  - vm_compute. set_solver.
  - done.
  - vm_compute. reflexivity.
  - done.
  - apply not_elem_of_nil.
  - intros e He. by apply not_elem_of_nil in He.
Defined.

End Properties.
